(* ===== verification/_CoqProject ===== *)
-Q . S2P
Prelude.v
GoStrings.v
Backoff.v
Kinesisbatch.v
Dynamodbbatch.v
S3batch.v
Sqsbatch.v
GoTime.v
Glue.v
RowId.v
PantherLog.v
GoHeap.v
Classifier.v
S3Destination.v
Processor.v
GoPath.v
GoSort.v
Compliance.v
ComplianceHandlers.v
Md5.v
AlertForwarder.v
Base64.v
AlertsApi.v
AlertsEvents.v
AwsClassifiers.v
AwsEventProcessor.v
AwsEventSpec.v
AlertOutputs.v
AlertDelivery.v
AlertDeliverySpec.v
Suppression.v
ResourceProcessor.v
ResourceProcessorSpec.v
AlertProcessor.v
SqsOversized.v
ResourcesApi.v
ResourcesApiSpec.v
ResourcesApiWrites.v
AnalysisApi.v
AnalysisApiSpec.v
AnalysisList.v
AnalysisListSpec.v
AnalysisBulk.v
AnalysisBulkSpec.v
AnalysisTest.v
GatewayApi.v
GenericApi.v
OutputsApi.v
OutputsApiSpec.v
SourceApi.v
SourceApiSpec.v
SourceScans.v
Remediation.v
SnapshotPoller.v
GluePartitions.v
DataCatalogUpdater.v
LogSources.v
CsvReader.v
CsvParsers.v
IamUsers.v
JsonParsers.v
Timestamp.v
UsersApi.v
OrganizationApi.v
OpsTools.v
FirehoseDestination.v
