(* ===== verification/Prelude.v ===== *)
(** * Panther: verification library (root file and prelude)

    Panther collects security logs and the state of cloud resources, finds
    what breaks a rule or a policy, and alerts.  The library models the Go
    code under src/internal and src/pkg that carries this logic, and proves
    what each part promises.

    ** The program and its parts

    - Logs.  The log processor (src/internal/log_analysis/log_processor) is
      told of S3 objects, reads them line by line, classifies every line by
      trying log parsers in the order of a priority queue, gives each event
      standard fields and a row identifier, and buffers events per log type
      and hour until they are written to S3; partitions of Glue tables are
      laid out by pkg/awsglue.  Files: [LogSources] (the notifications, the
      roles and the clients to read with), [Processor], [Classifier] (over
      [GoHeap]), the parsers and the registry of log types in [CsvParsers]
      (over [CsvReader], the CSV reader that is kept across lines) and
      [JsonParsers] (with the walk of pkg/extract), [Timestamp],
      [PantherLog], [RowId], [S3Destination] or [FirehoseDestination], [Glue]
      (over [GoTime]).  The calls of Glue
      and S3 for partitions and the goroutines that synchronise them are in
      [GluePartitions]; the updater of the data catalog
      (log_analysis/datacatalog_updater), which creates the partition of every
      new object, in [DataCatalogUpdater].
    - Alerts on logs.  The alert forwarder (log_analysis/alert_forwarder)
      turns changes of the deduplication table into alerts and
      notifications; the alerts API (log_analysis/alerts_api) lists alerts
      and pages through their events.  Files: [AlertForwarder] (over [Md5]),
      [AlertsApi] and [AlertsEvents] (over [Base64] and [GoStrings]).
    - Cloud resources.  The AWS event processor (compliance/
      aws_event_processor) reads CloudTrail events, decides which resources
      changed and asks for scans or deletions; the resource processor
      (compliance/resource_processor) evaluates resources against policies;
      the compliance API (compliance/compliance_api) keeps the status of
      every pair; the compliance alert processor and forwarder raise one
      alert per policy and hour.  Files: [AwsClassifiers],
      [AwsEventProcessor], [AwsEventSpec]; [Suppression],
      [ResourceProcessor], [ResourceProcessorSpec]; [Compliance],
      [ComplianceHandlers] (over [GoPath] and [GoSort]); [AlertProcessor].
      The resources API (compliance/resources_api) keeps the table of
      resources and lists it with the status of the compliance API:
      [ResourcesApi], [ResourcesApiSpec], [ResourcesApiWrites].  The source
      API (core/source_api) keeps the accounts and buckets that are watched and
      the policy of the queue that their notifications go to: [SourceApi],
      [SourceApiSpec]; [SourceScans] adds the templates it hands out and the
      scheduler of snapshots (compliance/snapshot_scheduler).  The snapshot
      poller (compliance/snapshot_poller) makes the requested scans and sends
      what it finds to the resources API: [SnapshotPoller]; [IamUsers] is its
      poller of IAM users.  Remediation
      (compliance/remediation_api and remediation_processor): [Remediation].
    - Policies and rules.  The analysis API (core/analysis_api) keeps them in
      a table and every version in S3, tells the compliance API what a change
      means for recorded results, lists them, takes archives of them and has
      them tested.  Files: [AnalysisApi], [AnalysisApiSpec], [AnalysisList],
      [AnalysisListSpec], [AnalysisBulk], [AnalysisBulkSpec], [AnalysisTest].
    - Delivery.  Alert delivery (core/alert_delivery) sends an alert to its
      outputs in parallel and retries the outputs that failed.  Files:
      [AlertOutputs], [AlertDelivery], [AlertDeliverySpec].  The outputs API
      (core/outputs_api) keeps the outputs, their configuration encrypted:
      [OutputsApi], [OutputsApiSpec].
    - Shared libraries.  pkg/awsbatch pages and retries the batch calls of
      AWS.  Files: [Backoff] (the interface of the retry library),
      [Kinesisbatch], [Dynamodbbatch], [S3batch], [Sqsbatch]; the clients of
      SQS above ([AwsEventProcessor], [AlertDelivery], [ResourceProcessor])
      use [Sqsbatch.SendMessageBatch_queue], and the resources API, whose
      messages can be oversized, [SqsOversized.SendMessageBatch_oversized].
      pkg/gatewayapi and pkg/genericapi route requests to handlers by
      reflection, fill in nil slices and redact the log: [GatewayApi],
      [GenericApi], whose errors the outputs API returns.
    - Users, settings and tools.  The users API (core/users_api) over a Cognito
      user pool: [UsersApi]; the organization API (core/organization_api) and
      the helper that waits for queries of Athena (pkg/awsathena):
      [OrganizationApi]; the commands of the operators (cmd/opstools) that
      move the messages of a queue and queue the objects of a path:
      [OpsTools].

    ** How the code is modelled

    A Go function is a definition of the same name.  A function that returns
    an error gives a [result] or an [option error]; one that can panic gives an
    [outcome], so that a theorem which states a [Ret] also states that the code
    does not panic.  A struct is a record, a map a [gmap] whose iteration order
    is a parameter, a pointer that may be nil an [option].  State (caches,
    buffers, tables) is passed explicitly; the readings of the clock are a
    function of how many there were.  Code that is not in the repository (AWS
    services and SDK, JSON libraries, HTTP) is a parameter of the section that
    uses it, and what is relied on is a named hypothesis of the theorems, shown
    satisfiable by a witness.  Machine integers are [Z] with the wrap-around
    written out ([int64], [uint64]).  Go's own library is modelled where the
    code depends on it: [GoTime], [GoHeap], [GoSort], [GoPath], [Md5],
    [Base64], the part of regexp used by [AwsClassifiers] and [Suppression].
    The goroutines of alert delivery and of the synchronisation of partitions
    are step relations; in the former the accesses to the client maps that
    delivery makes without a lock are steps of their own, two of which can
    collide and end the process.

    Approximations.  Times are instants without a zone, and what formats them
    ([S3Destination.FormatS3], the columns of a partition) uses UTC, as the
    code does except for the file name of an S3 object, which is in the zone of
    its time (UTC for most parsers; RFC 3339 times from JSON keep their zone).  The JSON and DynamoDB encodings of an
    item of the analysis API are assumed to keep its times exactly
    ([AnalysisApiSpec.VersionedStore]); strfmt.DateTime keeps milliseconds, so
    that this holds of times of that precision.  The patterns and identifiers of
    [Suppression] are valid UTF-8, as strings decoded from JSON are; Go refuses
    to compile other patterns and skips them.  A [Processor.DataStream] has a
    reader (the nil reader of an object that cannot be recognised is in
    [LogSources]), and the events of [Processor] are values; what aliases the
    record of the CSV reader is in [CsvParsers].

    ** What the theorems show

    - Batch calls: every item is delivered exactly once or the error says so,
      requests keep to the limits of the services, and the cases in which
      messages are dropped are exhibited ([Kinesisbatch], [Dynamodbbatch],
      [S3batch], [Sqsbatch]).
    - Logs: nothing is lost or duplicated between an object and the
      destination, the classifier keeps its parsers and prefers the best one,
      row identifiers are unique, partition paths round trip; the catalog has
      the partition of every object that is dated to the hour, and synchronising partitions covers the
      whole period and ends under every interleaving.  Every announced object
      is read with the role of its source in the region of its bucket; the CSV
      reader that is kept gives what a new one would, and the fields that
      alias its record are exhibited; the identifiers of a JSON document are
      exactly those found at its nodes; Firehose, when it takes every batch,
      gets every event once.
    - Alerts on logs: one alert per count, created once, announced once with its
      own content and refreshed by the later events; retried batches change
      nothing; pages of events are complete and without repetition.
    - Resources: one request per changed resource, that of its newest event,
      independent of the order of arrival; one status per evaluated pair, one
      notification per unsuppressed failure; statuses, suppressions and
      overviews of the compliance API; alerts of a policy over an hour apart;
      the listing of resources is the requested page of what its filters ask
      for, and every added resource is stored and announced once.  Exactly the
      accounts of the sources may write to the queue, as long as the table of
      sources fits in one page of a scan; exactly the sources that
      are due are scanned; the poller sends every resource its scans found once,
      up to the first refused batch or panic, and
      that of IAM users finds each user and scans again those without a report; the
      remediation Lambda is invoked at most once, as the policy says, and the
      answer is 400, 200 or 500 exactly when it should be.
    - Policies: a write loses no version and no other item, a change is
      followed by requests that bring the recorded results of the types that it
      names up to date,
      and the listing is the requested page of what its filters ask for; an
      accepted archive is stored completely, and every test is reported once.
    - Delivery: when no two outputs of an alert share a client map, no goroutine
      is left blocked and none crashes (two that share one can end the process,
      [AlertDeliverySpec.dispatch_race]); each designated output gets an alert
      once, a retry goes to exactly the outputs that asked for it.
    - Outputs: names stay unique, what is added is read back, and reading all
      of them ends; redacted fields leave no trace in the log, and a router whose
      handlers were verified answers every request.
    - Users and tools: requests one after the other never remove the last
      user (two at once can), an update of the settings keeps the fields it
      does not name, waiting for a query ends when its state is final, requeue
      ends and keeps every message that SQS accepts (and loses the others).
    - Defects of the code are theorems too (a panic, a lost event, a wrong
      result on a concrete class of inputs).

    ** Bounds and fuel

    [Sqsbatch.send_loop] and [Backoff.chunk_loop] take the length of their
    input as fuel, which suffices because every round consumes an entry;
    [AlertsApi.partition_loop] takes two units more than there are hours between
    the creation and the update of an alert, which covers every partition
    ([AlertsEvents.read_pages_complete] lists them all; without fuel it would
    end its list early); [ResourceProcessor.page_loop] takes a fuel whose
    sufficiency is a hypothesis on the number of pages, and panics when it is
    exhausted; the theorems show that it is not; [OutputsApi.scan_outputs] is shown to need one unit more than there
    are items; [SnapshotPoller.batch_loop] takes the number of resources, and
    [GluePartitions.time_bins] one unit more than there are hours
    ([GluePartitions.bins_fuel]).  [CsvReader.read_long],
    [CsvReader.parse_fields] and [CsvReader.first_line] take the number of bytes
    that are left, [JsonParsers.Extract] one unit more than the depth of the
    document ([JsonParsers.depth], finite by the class [FiniteJson]),
    [OpsTools.requeue_loop] needs one unit more than the queue has messages, and
    [OrganizationApi.poll] one more than there are pending states
    ([OrganizationApi.wait_correct]).  Retries are bounded by the interface [Backoff.Backoff], which
    [Backoff.bounded_backoff] implements.

    ** Not modelled

    The functions that read one kind of AWS resource (the files of
    compliance/snapshot_poller/pollers/aws other than poll.go, clients.go and
    iam_user.go) copy the answers of the AWS SDK; they are parameters of
    [SnapshotPoller].
    The goroutines that join the listing and the workers of s3queue and the
    command lines of the operators' commands are left out, and so are logging
    (pkg/oplog, pkg/lambdalogger) and the main functions that only read the
    environment.  api/gateway is generated; the remediation Lambdas and the
    engines in Python, the web application, deployment templates and the build
    tools and dashboards of src/tools are outside the Go services. *)

From stdpp Require Export base gmap list strings sorting pretty.
From Stdlib Require Export ZArith Lia Ascii.


(** ** Errors and results

    Go's [error] values, as far as the code distinguishes them. *)

Inductive error :=
| ErrMsg (msg : string)               (* errors.New, fmt.Errorf, errors.Errorf *)
| ErrText (pre : string) (e : error)  (* errors.New(pre + e.Error()) *)
| ErrWrap (msg : string) (e : error)  (* errors.Wrap(e, msg) *)
| ErrPermanent (e : error)            (* &backoff.PermanentError{Err: e} *)
| ErrAWS (code : string) (msg : string) (* awserr.Error with its Code() *)
| ErrNum (fn input : string) (range : bool) (* *strconv.NumError: ErrRange or ErrSyntax *)
| ErrBadPattern                       (* path.ErrBadPattern *)
| ErrEOF.                             (* io.EOF *)

#[export] Instance error_eq_dec : EqDecision error.
Proof. solve_decision. Defined.

(** A Go function returning [(A, error)]. *)
Inductive result (A : Type) :=
| Ok (a : A)
| Err (e : error).
Arguments Ok {A} a.
Arguments Err {A} e.

#[export] Instance result_ret : MRet result := λ A a, Ok a.
#[export] Instance result_bind : MBind result := λ A B f r,
  match r with Ok a => f a | Err e => Err e end.
#[export] Instance result_fmap : FMap result := λ A B f r,
  match r with Ok a => Ok (f a) | Err e => Err e end.

(** A Go call that returns or panics. *)
Inductive outcome (A : Type) :=
| Ret (a : A)
| Panic (why : string).
Arguments Ret {A} a.
Arguments Panic {A} why.

#[export] Instance outcome_ret : MRet outcome := λ A a, Ret a.
#[export] Instance outcome_bind : MBind outcome := λ A B f r,
  match r with Ret a => f a | Panic w => Panic w end.

(** ** Machine integers

    Go's [int] is 64 bits wide on the deployment platform. *)

Definition two64 : Z := 18446744073709551616.
Definition two63 : Z := 9223372036854775808.

Definition uint64 (z : Z) : Z := (z mod two64)%Z.
Definition int64 (z : Z) : Z := ((z + two63) mod two64 - two63)%Z.
Definition in_int64 (z : Z) : Prop := (- two63 ≤ z < two63)%Z.

Lemma int64_id z : in_int64 z → int64 z = z.
Proof. unfold in_int64, int64, two63, two64. intros H. rewrite Z.mod_small; lia. Qed.

Lemma int64_range z : in_int64 (int64 z).
Proof.
  unfold in_int64, int64, two63, two64.
  pose proof (Z.mod_pos_bound (z + 9223372036854775808) 18446744073709551616). lia.
Qed.

Lemma uint64_id z : (0 ≤ z < two64)%Z → uint64 z = z.
Proof. unfold uint64. apply Z.mod_small. Qed.

(** ** Strings as byte sequences

    A Go string is a sequence of bytes, here [String.string]; its length is
    the number of bytes. *)

Definition byte_of (n : nat) : ascii := ascii_of_nat n.
Definition slen (s : string) : Z := Z.of_nat (String.length s).

(** Go's [<] on strings: bytewise lexicographic. *)
Definition sltb (a b : string) : bool := String.ltb a b.

Fixpoint has_prefix (p s : string) : bool :=
  match p, s with
  | EmptyString, _ => true
  | String a p', String b s' => if decide (a = b) then has_prefix p' s' else false
  | String _ _, EmptyString => false
  end.

(** strings.Contains for a single-byte needle *)
Fixpoint contains_byte (c : ascii) (s : string) : bool :=
  match s with
  | EmptyString => false
  | String a s' => if decide (a = c) then true else contains_byte c s'
  end.

(** strings.Contains *)
Fixpoint contains (needle s : string) : bool :=
  has_prefix needle s ||
  match s with
  | EmptyString => false
  | String _ s' => contains needle s'
  end.

(** strings.HasSuffix *)
Fixpoint has_suffix (suf s : string) : bool :=
  String.eqb s suf ||
  match s with
  | EmptyString => false
  | String _ s' => has_suffix suf s'
  end.

(** strings.Split with a one-byte separator *)
Fixpoint split_on (c : ascii) (s : string) : list string :=
  match s with
  | EmptyString => [EmptyString]
  | String a s' =>
      if decide (a = c) then EmptyString :: split_on c s'
      else match split_on c s' with
           | [] => [String a EmptyString]
           | h :: t => String a h :: t
           end
  end.

Fixpoint join_with (c : ascii) (l : list string) : string :=
  match l with
  | [] => EmptyString
  | [s] => s
  | s :: l' => s +:+ String c (join_with c l')
  end.

Lemma split_on_nonempty c s : split_on c s ≠ [].
Proof. destruct s; simpl; [done|]. case_decide; [done|]. by case_match. Qed.

Lemma split_on_none c s : contains_byte c s = false → split_on c s = [s].
Proof.
  induction s as [|a s IH]; simpl; [done|]. case_decide; [done|].
  intros Hs. by rewrite (IH Hs).
Qed.

Lemma string_app_cons a s1 s2 : String a s1 +:+ s2 = String a (s1 +:+ s2).
Proof. done. Qed.

Lemma string_app_nil_l s : "" +:+ s = s.
Proof. done. Qed.

Lemma split_on_app c s1 s2 :
  contains_byte c s1 = false → split_on c (s1 +:+ String c s2) = s1 :: split_on c s2.
Proof.
  induction s1 as [|a s1 IH]; intros Hs.
  - rewrite string_app_nil_l. simpl. by rewrite decide_True.
  - rewrite string_app_cons. simpl in *. case_decide; [done|]. by rewrite (IH Hs).
Qed.

Lemma split_on_two c s1 s2 : ∃ h h' l, split_on c (s1 +:+ String c s2) = h :: h' :: l.
Proof.
  induction s1 as [|a s1 (h&h'&l&IH)].
  - rewrite string_app_nil_l. simpl. rewrite decide_True by done. pose proof (split_on_nonempty c s2).
    destruct (split_on c s2) as [|g l]; [done|]. eauto.
  - rewrite string_app_cons. simpl. rewrite IH. case_decide; eauto.
Qed.

Lemma last_split c s1 s2 : contains_byte c s2 = false → last (split_on c (s1 +:+ String c s2)) = Some s2.
Proof.
  intros Hs. induction s1 as [|a s1 IH].
  - rewrite string_app_nil_l. simpl. rewrite decide_True by done. by rewrite split_on_none.
  - rewrite string_app_cons. simpl. destruct (split_on_two c s1 s2) as (h&h'&l&E). rewrite E in *.
    by case_decide.
Qed.

(** a string with the byte splits at its last occurrence *)
Lemma split_at_last c s : contains_byte c s = true → ∃ s1 s2, s = s1 +:+ String c s2 ∧ contains_byte c s2 = false.
Proof.
  induction s as [|a s IH]; simpl; [done|]. intros Hs. destruct (contains_byte c s) eqn:Hc.
  - destruct (IH eq_refl) as (s1&s2&->&Hs2). exists (String a s1), s2. by rewrite string_app_cons.
  - case_decide; [|done]. subst. exists "", s. by rewrite string_app_nil_l.
Qed.

Lemma contains_byte_app c s1 s2 :
  contains_byte c (s1 +:+ s2) = contains_byte c s1 || contains_byte c s2.
Proof.
  induction s1 as [|a s1 IH]; [done|].
  rewrite string_app_cons. simpl. case_decide; [done|]. apply IH.
Qed.

Lemma has_suffix_app s1 s2 : has_suffix s2 (s1 +:+ s2) = true.
Proof.
  induction s1 as [|a s1 IH].
  - rewrite string_app_nil_l. destruct s2; simpl; [done|]. by rewrite Ascii.eqb_refl, String.eqb_refl.
  - rewrite string_app_cons. simpl. rewrite IH. apply orb_true_r.
Qed.

Lemma string_app_nil_r s : s +:+ "" = s.
Proof. induction s as [|a s IH]; [done|]. by rewrite string_app_cons, IH. Qed.

Lemma string_app_assoc a b c : (a +:+ b) +:+ c = a +:+ (b +:+ c).
Proof. induction a as [|x a IH]; [done|]. by rewrite !string_app_cons, IH. Qed.

Lemma string_length_app a b : String.length (a +:+ b) = String.length a + String.length b.
Proof. induction a as [|x a IH]; [done|]. rewrite string_app_cons. simpl. by rewrite IH. Qed.

(** strings.ToLower on ASCII letters; other bytes are unchanged *)
Definition lower_byte (c : ascii) : ascii :=
  let n := nat_of_ascii c in
  if (65 <=? n) && (n <=? 90) then ascii_of_nat (n + 32) else c.

Fixpoint map_bytes (f : ascii → ascii) (s : string) : string :=
  match s with
  | EmptyString => EmptyString
  | String c s' => String (f c) (map_bytes f s')
  end.

Definition to_lower : string → string := map_bytes lower_byte.

(** strings.Replace(s, old, new, -1) with one-byte strings *)
Definition replace_byte (old new : ascii) : string → string :=
  map_bytes (λ c, if decide (c = old) then new else c).

(** ** Decimal text *)

Definition digit_of (c : ascii) : option Z :=
  let n := Z.of_nat (nat_of_ascii c) in
  if decide (48 ≤ n ≤ 57)%Z then Some (n - 48)%Z else None.

Fixpoint parse_digits (acc : Z) (s : string) : option Z :=
  match s with
  | EmptyString => Some acc
  | String c s' => d ← digit_of c; parse_digits (acc * 10 + d)%Z s'
  end.

Definition in_range (fn s : string) (v : Z) : result Z :=
  if decide (- two63 ≤ v < two63)%Z then Ok v else Err (ErrNum fn s true).

(** strconv.Atoi: optional sign, at least one digit, 64-bit range check *)
Definition atoi (s : string) : result Z :=
  let syntax := Err (ErrNum "Atoi" s false) in
  match s with
  | EmptyString => syntax
  | String c s' =>
      let body := if decide (c = "-"%char ∨ c = "+"%char) then s' else s in
      if decide (body = EmptyString) then syntax
      else match parse_digits 0 body with
           | None => syntax
           | Some v => in_range "Atoi" s (if decide (c = "-"%char) then (- v)%Z else v)
           end
  end.

(** strconv.Itoa, strconv.FormatInt(_, 10), fmt %d *)
Definition itoa (z : Z) : string := pretty z.

(** fmt %02d on a non-negative value *)
Definition pad02 (z : Z) : string :=
  if decide (0 ≤ z < 10)%Z then "0" +:+ itoa z else itoa z.

Fixpoint all_bytes (P : ascii → bool) (s : string) : bool :=
  match s with
  | EmptyString => true
  | String c s' => P c && all_bytes P s'
  end.

Definition is_digit (c : ascii) : bool := bool_decide (is_Some (digit_of c)).

Lemma digit_of_pretty_char (n : N) :
  (n < 10)%N → digit_of (pretty_N_char n) = Some (Z.of_N n).
Proof.
  intros Hn.
  assert (n = 0 ∨ n = 1 ∨ n = 2 ∨ n = 3 ∨ n = 4 ∨ n = 5 ∨ n = 6 ∨ n = 7 ∨ n = 8 ∨ n = 9)%N
    as Hc by lia.
  destruct_or! Hc; subst; reflexivity.
Qed.

Lemma parse_digits_pretty_go x s :
  parse_digits 0 (pretty_N_go x s) = parse_digits (Z.of_N x) s.
Proof.
  revert s. induction (N.lt_wf_0 x) as [x _ IH]; intros s.
  destruct (decide (x = 0)%N) as [->|Hx]; [by rewrite pretty_N_go_0|].
  rewrite pretty_N_go_step by lia.
  rewrite IH by (apply N.div_lt; lia). simpl.
  rewrite digit_of_pretty_char by (apply N.mod_lt; lia). simpl. f_equal.
  rewrite N2Z.inj_div, N2Z.inj_mod.
  pose proof (Z.div_mod (Z.of_N x) 10). lia.
Qed.

Lemma all_bytes_pretty_go x s :
  all_bytes is_digit (pretty_N_go x s) = all_bytes is_digit s.
Proof.
  revert s. induction (N.lt_wf_0 x) as [x _ IH]; intros s.
  destruct (decide (x = 0)%N) as [->|Hx]; [by rewrite pretty_N_go_0|].
  rewrite pretty_N_go_step by lia.
  rewrite IH by (apply N.div_lt; lia). simpl. unfold is_digit at 1.
  rewrite digit_of_pretty_char by (apply N.mod_lt; lia).
  rewrite bool_decide_true by eauto. done.
Qed.

Lemma itoa_digits z : (0 ≤ z)%Z → all_bytes is_digit (itoa z) = true ∧ itoa z ≠ "".
Proof.
  intros Hz. destruct z as [|p|p]; [done| |lia].
  change (itoa (Zpos p)) with (pretty_N_go (Npos p) ""). split.
  - by rewrite all_bytes_pretty_go.
  - intros H. pose proof (parse_digits_pretty_go (Npos p) "") as Hd. rewrite H in Hd. done.
Qed.

Lemma parse_digits_itoa z : (0 ≤ z)%Z → parse_digits 0 (itoa z) = Some z.
Proof.
  intros Hz. destruct z as [|p|p]; [done| |lia].
  change (itoa (Zpos p)) with (pretty_N_go (Npos p) "").
  by rewrite parse_digits_pretty_go.
Qed.

Lemma digits_no_byte c s :
  is_digit c = false → all_bytes is_digit s = true → contains_byte c s = false.
Proof.
  intros Hc. induction s as [|a s IH]; simpl; [done|].
  intros [Ha Hs]%andb_true_iff. case_decide; [congruence|auto].
Qed.

(** [atoi] of a non-empty string of digits *)
Lemma atoi_digits s v :
  all_bytes is_digit s = true → s ≠ "" → parse_digits 0 s = Some v → (0 ≤ v < two63)%Z →
  atoi s = Ok v.
Proof.
  intros Hd Hne Hp Hv. destruct s as [|c s']; [done|].
  assert (is_digit c = true) as Hc by (simpl in Hd; by apply andb_true_iff in Hd as [? _]).
  assert (c ≠ "-"%char ∧ c ≠ "+"%char) as [Hm Hpl] by (split; intros ->; discriminate).
  unfold atoi. rewrite (decide_False (P := c = "-"%char ∨ c = "+"%char)) by naive_solver.
  rewrite (decide_False (P := String c s' = "")) by done.
  rewrite Hp, (decide_False (P := c = "-"%char)) by done.
  unfold in_range. rewrite decide_True; [done|]. unfold two63 in *; lia.
Qed.

Lemma atoi_itoa z : (0 ≤ z < two63)%Z → atoi (itoa z) = Ok z.
Proof.
  intros Hz. destruct (itoa_digits z) as [Hd Hne]; [lia|].
  apply atoi_digits; auto. apply parse_digits_itoa; lia.
Qed.

Lemma pad02_digits z : (0 ≤ z)%Z → all_bytes is_digit (pad02 z) = true ∧ pad02 z ≠ "".
Proof.
  intros Hz. destruct (itoa_digits z Hz) as [Hd Hne]. unfold pad02. case_decide; [|done].
  by rewrite string_app_cons, string_app_nil_l.
Qed.

Lemma atoi_pad02 z : (0 ≤ z < two63)%Z → atoi (pad02 z) = Ok z.
Proof.
  intros Hz. destruct (pad02_digits z) as [Hd Hne]; [lia|].
  apply atoi_digits; auto. unfold pad02. case_decide; [|apply parse_digits_itoa; lia].
  rewrite string_app_cons, string_app_nil_l. simpl. apply parse_digits_itoa; lia.
Qed.

(** ** Lists *)

Lemma Forall_snoc {A} (P : A → Prop) l x : Forall P l → P x → Forall P (l ++ [x]).
Proof. intros. by apply Forall_app_2; [|apply Forall_singleton]. Qed.

(** ** Shared lemmas and automation *)

Lemma NoDup_itoa_seq i n : NoDup ((λ k, Some (itoa (Z.of_nat k))) <$> seq i n).
Proof.
  apply NoDup_fmap_2_strong; [|apply NoDup_seq].
  intros x y _ _ Hxy. injection Hxy as Hxy. apply (inj pretty) in Hxy. lia.
Qed.

(** one step of a computation in [outcome] or [result] *)
Ltac run := cbn [mbind outcome_bind result_bind].

Create HintDb go discriminated.
#[export] Hint Resolve Forall_nil_2 Forall_snoc NoDup_nil_2 : go.
#[export] Hint Constructors StronglySorted : go.

#[export] Hint Rewrite string_app_cons string_app_nil_l string_app_nil_r : gostr.
