(* ===== verification/GoStrings.v ===== *)
(** * The order of Go strings

    Go compares strings bytewise and lexicographically; so do S3 (object keys)
    and DynamoDB (sort keys).  [slt] is that order as a relation. *)

From S2P Require Import Prelude.

#[local] Open Scope Z_scope.

Definition slt (a b : string) : Prop := sltb a b = true.

#[export] Instance slt_dec : RelDecision slt.
Proof. intros a b. unfold slt. apply _. Defined.

Lemma slt_compare a b : slt a b ↔ String.compare a b = Lt.
Proof. unfold slt, sltb, String.ltb. by destruct (String.compare a b). Qed.

Lemma slt_cons a s b t :
  slt (String a s) (String b t) ↔ (N_of_ascii a < N_of_ascii b)%N ∨ a = b ∧ slt s t.
Proof.
  rewrite !slt_compare. simpl. unfold Ascii.compare.
  destruct (N.compare_spec (N_of_ascii a) (N_of_ascii b)) as [E|E|E].
  - apply (f_equal ascii_of_N) in E. rewrite !ascii_N_embedding in E. subst.
    split; [auto|]. intros [?|[_ ?]]; [lia|done].
  - naive_solver.
  - split; [done|]. intros [?|[-> _]]; lia.
Qed.

Lemma slt_nil_l s : slt "" s ↔ s ≠ "".
Proof. rewrite slt_compare. by destruct s. Qed.
Lemma slt_nil_r s : ¬ slt s "".
Proof. rewrite slt_compare. by destruct s. Qed.

Lemma slt_irrefl s : ¬ slt s s.
Proof. induction s as [|a s IH]; [apply slt_nil_r|]. rewrite slt_cons. intros [?|[_ ?]]; [lia|done]. Qed.

#[export] Instance slt_trans : Transitive slt.
Proof.
  intros x. induction x as [|a x IH]; intros [|b y] [|c z]; rewrite ?slt_nil_l; try done;
    try (intros; exfalso; by eapply slt_nil_r).
  rewrite !slt_cons. intros [?|[-> ?]] [?|[-> ?]]; [left; lia|left; lia|left; lia|].
  right. split; [done|]. by eapply IH.
Qed.

Lemma slt_app_l p x y : slt (p +:+ x) (p +:+ y) ↔ slt x y.
Proof.
  induction p as [|a p IH]; [done|]. rewrite !string_app_cons, slt_cons, IH.
  split; [intros [?|[_ ?]]; [lia|done]|by right].
Qed.

(** strings of one length: what follows them does not matter *)
Lemma slt_app_r p q x y :
  String.length p = String.length q → slt p q → slt (p +:+ x) (q +:+ y).
Proof.
  revert q. induction p as [|a p IH]; intros [|b q] Hl; try done.
  rewrite !string_app_cons, !slt_cons. intros [?|[-> ?]]; [by left|]. right. split; [done|].
  apply IH; [|done]. simpl in Hl. lia.
Qed.


Lemma slt_total a b : ¬ slt a b → ¬ slt b a → a = b.
Proof.
  revert b. induction a as [|x a IH]; intros [|y b]; rewrite ?slt_nil_l; try done.
  - intros H. by destruct H.
  - intros _ H. by destruct H.
  - rewrite !slt_cons. intros H1 H2. assert (N_of_ascii x = N_of_ascii y) as E.
    { destruct (N.lt_trichotomy (N_of_ascii x) (N_of_ascii y)) as [?|[?|?]]; [naive_solver|done|naive_solver]. }
    apply (f_equal ascii_of_N) in E. rewrite !ascii_N_embedding in E. subst. f_equal. apply IH; naive_solver.
Qed.
