(* ===== verification/Backoff.v ===== *)
(** * Retrying operations

    [github.com/cenkalti/backoff] is a third-party package: the batch
    routines of [src/pkg/awsbatch] receive it as a parameter.  [RetryRun]
    states its documented behaviour: [Retry] runs the operation until it
    succeeds, until it reports a [PermanentError] (whose inner error is
    returned), or until the policy gives up (the last error is returned).
    How long it keeps trying is not specified.

    [chunk_loop] is the paging loop shared by the Kinesis and S3 batches. *)

From S2P Require Import Prelude.

(** [backoff.Operation] on a state [S]: the new state and the returned error *)
Definition operation (S : Type) : Type := S → outcome (S * option error).

Definition is_permanent (e : error) : Prop :=
  match e with ErrPermanent _ => True | _ => False end.

#[export] Instance is_permanent_dec e : Decision (is_permanent e).
Proof. destruct e; simpl; apply _. Defined.

Inductive RetryRun {S : Type} (op : operation S) : S → outcome (S * option error) → Prop :=
| RunPanic s why :
    op s = Panic why → RetryRun op s (Panic why)
| RunOk s s' :
    op s = Ret (s', None) → RetryRun op s (Ret (s', None))
| RunPermanent s s' e :
    op s = Ret (s', Some (ErrPermanent e)) → RetryRun op s (Ret (s', Some e))
| RunGiveUp s s' e :
    op s = Ret (s', Some e) → ¬ is_permanent e → RetryRun op s (Ret (s', Some e))
| RunAgain s s' e r :
    op s = Ret (s', Some e) → ¬ is_permanent e → RetryRun op s' r → RetryRun op s r.

Class Backoff := {
  Retry : ∀ {S : Type}, operation S → S → outcome (S * option error);
  Retry_run : ∀ {S : Type} (op : operation S) (s : S), RetryRun op s (Retry op s);
}.

(** A policy that gives up after [n] retries. *)
Fixpoint retry_bounded {S : Type} (n : nat) (op : operation S) (s : S)
    : outcome (S * option error) :=
  match op s with
  | Panic why => Panic why
  | Ret (s', None) => Ret (s', None)
  | Ret (s', Some (ErrPermanent e)) => Ret (s', Some e)
  | Ret (s', Some e) =>
      match n with
      | O => Ret (s', Some e)
      | Datatypes.S n' => retry_bounded n' op s'
      end
  end.

Lemma retry_bounded_run {S : Type} n (op : operation S) s :
  RetryRun op s (retry_bounded n op s).
Proof.
  revert s. induction n as [|n IH]; intros s; simpl;
    destruct (op s) as [[s' [e|]]|why] eqn:Hop;
    try (constructor; done);
    destruct (decide (is_permanent e)) as [Hp|Hp]; destruct e; try done;
    try (constructor; done); (eapply RunAgain; [done..|apply IH]).
Qed.

Definition bounded_backoff (n : nat) : Backoff := {|
  Retry := λ S op s, retry_bounded n op s;
  Retry_run := λ S op s, retry_bounded_run n op s;
|}.

(** Rule for [Retry]: when every attempt started in [I] returns, establishing
    [Q] on success and [E] on failure, and leaves [I] true whenever it may be
    retried, [Retry] returns in [Q] or [E]. *)
Lemma Retry_rule `{!Backoff} {S : Type} (op : operation S) (I Q E : S → Prop) s :
  (∀ t, I t → ∃ t' err, op t = Ret (t', err) ∧
    match err with
    | Some e => E t' ∧ (¬ is_permanent e → I t')
    | None => Q t'
    end) →
  I s →
  ∃ s' err, Retry op s = Ret (s', err) ∧
    match err with Some _ => E s' | None => Q s' end.
Proof.
  intros Hstep HI. pose proof (Retry_run op s) as Hrun. revert Hrun HI.
  generalize (Retry op s) as o. intros o Hrun.
  induction Hrun as [t w Ho|t t' Ho|t t' e Ho|t t' e Ho Hp|t t' e r Ho Hp _ IH]; intros HI;
    destruct (Hstep t HI) as (t1&err&Ho'&Hx); rewrite Ho in Ho'; simplify_eq/=.
  - by exists t1, None.
  - exists t1, (Some e). tauto.
  - exists t1, (Some e). tauto.
  - apply IH. tauto.
Qed.

(** ** Paging through a slice

    [for i := 0; i < len(all); i += max { input = all[i:i+max] (or what is
    left); if err := backoff.Retry(send, config); err != nil { return err } }]
    where [load] stores the batch in the request. *)

Section chunks.
Context {S R : Type} `{!Backoff}.
Context (max : nat) (load : list R → S → S) (send : operation S).

Fixpoint chunk_loop (fuel : nat) (all : list R) (i : nat) (s : S) : outcome (S * option error) :=
  match fuel with
  | O => Ret (s, None)
  | Datatypes.S fuel =>
      if decide (i < length all)%nat then
        let batch := if decide (length all ≤ i + max)%nat then drop i all
                     else take max (drop i all) in
        '(s', err) ← Retry send (load batch s);
        match err with
        | Some e => Ret (s', Some e)
        | None => chunk_loop fuel all (i + max) s'
        end
      else Ret (s, None)
  end.

(** [D l s]: the items [l] are done; [F l s]: sending [l] failed part way. *)
Context (D F : list R → S → Prop).
Context (max_pos : (0 < max)%nat).
Context (F_more : ∀ l more s, F l s → F (l ++ more) s).
Context (batch_step : ∀ l batch s, (length batch ≤ max)%nat → D l s →
  ∃ s' err, Retry send (load batch s) = Ret (s', err) ∧
    match err with Some _ => F (l ++ batch) s' | None => D (l ++ batch) s' end).

(** as many rounds as there are items are enough *)
Lemma chunk_loop_inv fuel all i s :
  (length all ≤ fuel + i)%nat → D (take i all) s →
  ∃ s' err, chunk_loop fuel all i s = Ret (s', err) ∧
    match err with Some _ => F all s' | None => D all s' end.
Proof.
  revert i s. induction fuel as [|fuel IH]; intros i s Hfuel Hd; simpl.
  { eexists s, None. rewrite take_ge in Hd by lia. done. }
  case_decide as Hi; [|eexists s, None; rewrite take_ge in Hd by lia; done].
  set (batch := if decide _ then _ else _).
  assert (batch = take max (drop i all)) as ->.
  { unfold batch. case_decide; [|done]. rewrite take_ge; [done|]. rewrite length_drop. lia. }
  destruct (batch_step (take i all) (take max (drop i all)) s) as (s'&[e|]&Hr&Hx);
    [rewrite length_take; lia|done|..]; rewrite Hr; simpl; rewrite take_take_drop in Hx.
  - eexists _, _. split; [done|]. rewrite <-(take_drop (i + max) all). by apply F_more.
  - apply IH; [lia|done].
Qed.

End chunks.
