(* ===== verification/Kinesisbatch.v ===== *)
(** * pkg/awsbatch/kinesisbatch: PutRecords with paging and retries *)

From S2P Require Import Prelude Backoff.

Local Open Scope Z_scope.

(** [kinesis.PutRecordsOutput]: one optional error message per record *)
Record PutRecordsOutput := {
  FailedRecordCount : option Z;
  ResultErrors : list (option string);
}.

(** AWS limit of records per request *)
Definition maxRecords : nat := 500.

Definition ErrCodeProvisionedThroughputExceeded : string :=
  "ProvisionedThroughputExceededException".

(** the state [send] works on: the outside world and the request's fields *)
Record putRecordsRequest (W R : Type) := {
  world : W;
  records : list R;           (* input.Records *)
  successCount : Z;
}.
Arguments world {W R} _.
Arguments records {W R} _.
Arguments successCount {W R} _.

Section kinesisbatch.
Context {W R : Type}.
(** the AWS client: a call changes the world outside *)
Context (client_PutRecords : W → list R → W * result PutRecordsOutput).

(** [r.input.Records[i]] for the results that carry an error message; an
    index out of range panics *)
Fixpoint retryRecords (results : list (option string)) (recs : list R) : outcome (list R) :=
  match results, recs with
  | [], _ => Ret []
  | None :: rs, recs => retryRecords rs (tail recs)
  | Some _ :: rs, [] => Panic "index out of range"
  | Some _ :: rs, r :: recs' => rest ← retryRecords rs recs'; Ret (r :: rest)
  end.

Definition send (r : putRecordsRequest W R) : outcome (putRecordsRequest W R * option error) :=
  let '(w', response) := client_PutRecords (world r) (records r) in
  match response with
  | Err e =>
      let r' := {| world := w'; records := records r; successCount := successCount r |} in
      match e with
      | ErrAWS code _ =>
          if decide (code = ErrCodeProvisionedThroughputExceeded) then Ret (r', Some e)
          else Ret (r', Some (ErrPermanent e))
      | _ => Ret (r', Some (ErrPermanent e))
      end
  | Ok out =>
      let sc := successCount r + Z.of_nat (length (records r)) in
      match FailedRecordCount out with
      | Some n =>
          if decide (0 < n) then
            retry ← retryRecords (ResultErrors out) (records r);
            Ret ({| world := w'; records := retry; successCount := sc - n |},
                 Some (ErrMsg (itoa n +:+ " failed records")))
          else Ret ({| world := w'; records := records r; successCount := sc |}, None)
      | None => Ret ({| world := w'; records := records r; successCount := sc |}, None)
      end
  end.

Context `{!Backoff}.

(** [input.Records = allRecords[i : i+maxRecords]] *)
Definition load (batch : list R) (r : putRecordsRequest W R) : putRecordsRequest W R :=
  {| world := world r; records := batch; successCount := successCount r |}.

Definition PutRecords (w : W) (allRecords : list R)
    : outcome (putRecordsRequest W R * option error) :=
  chunk_loop maxRecords load send (length allRecords) allRecords 0
    {| world := w; records := allRecords; successCount := 0 |}.

End kinesisbatch.

(** ** The client as documented *)

(** [kept errs recs]: the records whose result carries no error message,
    i.e. the ones the stream accepted. *)
Fixpoint kept {R : Type} (errs : list (option string)) (recs : list R) : list R :=
  match errs, recs with
  | None :: es, r :: rs => r :: kept es rs
  | Some _ :: es, _ :: rs => kept es rs
  | _, _ => []
  end.

Definition error_count (errs : list (option string)) : Z :=
  Z.of_nat (length (filter is_Some errs)).

(** What the Kinesis documentation promises of PutRecords: one result per
    record, the failed count is the number of results with an error, the
    other records are in the stream; a request refused for exceeding the
    provisioned throughput writes nothing, and after any other failure the
    stream still holds what it held.  [accepted] and [requests] observe the
    world. *)
Record KinesisClient {W R : Type} (client : W → list R → W * result PutRecordsOutput)
    (accepted : W → list R) (requests : W → list (list R)) : Prop := {
  client_logs : ∀ w recs w' res, client w recs = (w', res) →
    requests w' = requests w ++ [recs];
  client_ok : ∀ w recs w' out, client w recs = (w', Ok out) →
    length (ResultErrors out) = length recs ∧
    FailedRecordCount out = Some (error_count (ResultErrors out)) ∧
    accepted w' ≡ₚ accepted w ++ kept (ResultErrors out) recs;
  client_throttled : ∀ w recs w' msg,
    client w recs = (w', Err (ErrAWS ErrCodeProvisionedThroughputExceeded msg)) →
    accepted w' = accepted w;
  client_err : ∀ w recs w' e, client w recs = (w', Err e) → accepted w ⊆+ accepted w';
}.

Section retry.
Context {R : Type}.
Implicit Types recs : list R.

Lemma retryRecords_total errs recs :
  length errs = length recs →
  ∃ again, retryRecords errs recs = Ret again ∧ recs ≡ₚ kept errs recs ++ again ∧
    Z.of_nat (length again) = error_count errs ∧ (length again ≤ length recs)%nat.
Proof.
  revert recs. induction errs as [|[m|] errs IH]; intros [|x recs] Hlen; try discriminate Hlen.
  - exists []. done.
  - injection Hlen as Hlen. destruct (IH recs Hlen) as (again&Hr&Hp&Hc&Hle).
    exists (x :: again). simpl. rewrite Hr. split_and!; [done| | |simpl; lia].
    + rewrite Hp at 1. by rewrite Permutation_middle.
    + unfold error_count in *. simpl. lia.
  - injection Hlen as Hlen. destruct (IH recs Hlen) as (again&Hr&Hp&Hc&Hle).
    exists again. simpl. rewrite Hr. split_and!; [done| | |simpl; lia].
    + by rewrite Hp at 1.
    + unfold error_count in *. simpl. done.
Qed.

Lemma error_count_zero errs recs :
  length errs = length recs → ¬ (0 < error_count errs) → kept errs recs = recs.
Proof.
  unfold error_count. revert recs.
  induction errs as [|[m|] errs IH]; intros [|x recs] Hlen Hz; try discriminate Hlen; [done| |].
  - simpl in Hz. lia.
  - simpl in Hz.
    simpl. rewrite IH; auto.
Qed.

End retry.

Section delivery.
Context {W R : Type} (client : W → list R → W * result PutRecordsOutput).
Context (accepted : W → list R) (requests : W → list (list R)).
Context (Hclient : KinesisClient client accepted requests).

(** [pending_inv acc todo n r]: the stream held [acc] before the batch, and
    [todo] is split between accepted records and records of the request. *)
Definition pending_inv (acc todo : list R) (n : Z) (r : putRecordsRequest W R) : Prop :=
  ∃ dn, accepted (world r) ≡ₚ acc ++ dn ∧ todo ≡ₚ dn ++ records r ∧
    successCount r = n + Z.of_nat (length dn).

Definition done_inv (acc todo : list R) (n : Z) (r : putRecordsRequest W R) : Prop :=
  accepted (world r) ≡ₚ acc ++ todo ∧ successCount r = n + Z.of_nat (length todo).

Definition failed_inv (acc todo : list R) (n : Z) (r : putRecordsRequest W R) : Prop :=
  ∃ dn rest, acc ++ dn ⊆+ accepted (world r) ∧ todo ≡ₚ dn ++ rest ∧
    successCount r = n + Z.of_nat (length dn).

Definition requests_bounded (r : putRecordsRequest W R) : Prop :=
  Forall (λ q, length q ≤ maxRecords)%nat (requests (world r)).

(** what holds before each attempt of one batch *)
Definition attempt_inv acc todo n (r : putRecordsRequest W R) : Prop :=
  pending_inv acc todo n r ∧ requests_bounded r ∧ (length (records r) ≤ maxRecords)%nat.

Lemma pending_failed acc todo n r : pending_inv acc todo n r → failed_inv acc todo n r.
Proof. intros (dn&Ha&Ht&Hn). exists dn, (records r). split_and!; auto. by rewrite Ha. Qed.

Lemma client_err_world w recs w' e dn acc :
  client w recs = (w', Err e) → accepted w ≡ₚ acc ++ dn → acc ++ dn ⊆+ accepted w'.
Proof. intros Hc Ha. rewrite <-Ha. by apply (client_err _ _ _ Hclient _ _ _ _ Hc). Qed.

Lemma send_error acc todo n r w' e :
  attempt_inv acc todo n r → client (world r) (records r) = (w', Err e) →
  ∃ r' e', send client r = Ret (r', Some e') ∧ requests_bounded r' ∧ failed_inv acc todo n r' ∧
    (¬ is_permanent e' → attempt_inv acc todo n r').
Proof.
  intros ((dn&Hacc&Htodo&Hn)&Hreq&Hlen) Hc.
  pose proof (client_logs _ _ _ Hclient _ _ _ _ Hc) as Hlog.
  set (r' := {| world := w'; records := records r; successCount := successCount r |}).
  assert (requests_bounded r') as Hb.
  { unfold requests_bounded; simpl. rewrite Hlog. by apply Forall_snoc. }
  assert (failed_inv acc todo n r') as Hf.
  { exists dn, (records r). eauto using client_err_world. }
  unfold send. rewrite Hc. fold r'.
  assert (∀ e', is_permanent e' → ¬ is_permanent e' → attempt_inv acc todo n r') by done.
  destruct e as [| | | |code msg| | |];
    try (eexists r', _; split_and!; [reflexivity|done|done|]; simpl; tauto).
  case_decide as Hcode; [|eexists r', _; split_and!; [reflexivity|done|done|]; simpl; tauto].
  subst code. eexists r', _. split_and!; [reflexivity|done|done|]. intros _.
  pose proof (client_throttled _ _ _ Hclient _ _ _ _ Hc) as Ha.
  split_and!; [|done|done]. exists dn. by rewrite <-Ha in Hacc.
Qed.

Lemma send_ok acc todo n r w' out :
  attempt_inv acc todo n r → client (world r) (records r) = (w', Ok out) →
  ∃ r' err, send client r = Ret (r', err) ∧
    match err with
    | Some _ => attempt_inv acc todo n r'
    | None => done_inv acc todo n r' ∧ requests_bounded r'
    end.
Proof.
  intros ((dn&Hacc&Htodo&Hn)&Hreq&Hlen) Hc. unfold send. rewrite Hc.
  pose proof (client_logs _ _ _ Hclient _ _ _ _ Hc) as Hlog.
  destruct (client_ok _ _ _ Hclient _ _ _ _ Hc) as (Hl&Hf&Ha).
  destruct (retryRecords_total _ _ Hl) as (again&Hr&Hp&Hcnt&Hle).
  rewrite Hf. case_decide as Hpos.
  - rewrite Hr. eexists _, _. split; [reflexivity|]. unfold attempt_inv, requests_bounded; simpl.
    rewrite Hlog. split_and!; [|by apply Forall_snoc|lia].
    exists (dn ++ kept (ResultErrors out) (records r)). split_and!; simpl.
    + by rewrite Ha, Hacc, (assoc_L (++)).
    + rewrite Htodo. rewrite Hp at 1. by rewrite (assoc_L (++)).
    + rewrite length_app, Hn. apply Permutation_length in Hp. rewrite length_app in Hp. lia.
  - eexists _, _. split; [reflexivity|]. unfold done_inv, requests_bounded; simpl.
    rewrite Hlog. split_and!; [| |by apply Forall_snoc].
    + rewrite error_count_zero in Ha by done. by rewrite Ha, Hacc, Htodo, (assoc_L (++)).
    + apply Permutation_length in Htodo. rewrite length_app in Htodo. lia.
Qed.

Lemma kinesis_send_step acc todo n r :
  attempt_inv acc todo n r →
  ∃ r' err, send client r = Ret (r', err) ∧ requests_bounded r' ∧
    match err with
    | Some e => failed_inv acc todo n r' ∧ (¬ is_permanent e → attempt_inv acc todo n r')
    | None => done_inv acc todo n r'
    end.
Proof.
  intros HI. destruct (client (world r) (records r)) as [w' [out|e]] eqn:Hc.
  - destruct (send_ok _ _ _ _ _ _ HI Hc) as (r'&[e|]&Hs&Hr); eexists r', _; split; eauto.
    + destruct Hr as (?&?&?). split_and!; eauto using pending_failed. intros _. split_and!; auto.
    + naive_solver.
  - destruct (send_error _ _ _ _ _ _ HI Hc) as (r'&e'&Hs&?&?&?). eexists r', _. eauto.
Qed.

Context `{!Backoff}.

Lemma kinesis_Retry_send acc todo n r :
  attempt_inv acc todo n r →
  ∃ r' err, Retry (send client) r = Ret (r', err) ∧ requests_bounded r' ∧
    match err with Some _ => failed_inv acc todo n r' | None => done_inv acc todo n r' end.
Proof.
  intros HI.
  destruct (Retry_rule (send client) (attempt_inv acc todo n)
    (λ t, requests_bounded t ∧ done_inv acc todo n t)
    (λ t, requests_bounded t ∧ failed_inv acc todo n t) r) as (r'&err&Hr&Hx); [|done|].
  - intros t Ht. destruct (kinesis_send_step _ _ _ _ Ht) as (t'&[e|]&Hs&Hb&Hy); eexists t', _;
      (split; [done|]); simpl; tauto.
  - exists r', err. destruct err; simpl in *; tauto.
Qed.

Lemma kinesis_batch_step acc l batch r :
  (length batch ≤ maxRecords)%nat → done_inv acc l 0 r ∧ requests_bounded r →
  ∃ r' err, Retry (send client) (load batch r) = Ret (r', err) ∧
    match err with
    | Some _ => failed_inv acc (l ++ batch) 0 r' ∧ requests_bounded r'
    | None => done_inv acc (l ++ batch) 0 r' ∧ requests_bounded r'
    end.
Proof.
  intros Hlen [[Ha Hn] Hb].
  destruct (kinesis_Retry_send (acc ++ l) batch (Z.of_nat (length l)) (load batch r))
    as (r'&err&Hr&Hb'&Hx).
  { split_and!; [exists []|done|done]. simpl. rewrite !app_nil_r. split_and!; [done|done|lia]. }
  exists r', err. split; [done|]. destruct err as [e|]; (split; [|done]).
  - destruct Hx as (dn&rest&Hd&Ht&Hs). exists (l ++ dn), rest. split_and!.
    + by rewrite (assoc_L (++)).
    + by rewrite Ht, (assoc_L (++)).
    + rewrite length_app. lia.
  - destruct Hx as [Ha' Hs]. split; [by rewrite (assoc_L (++))|rewrite length_app; lia].
Qed.

Lemma kinesis_failed_more acc l more n r : failed_inv acc l n r → failed_inv acc (l ++ more) n r.
Proof.
  intros (dn&rest&Hw&Ht&Hn). exists dn, (rest ++ more).
  split_and!; [done| |done]. by rewrite Ht, (assoc_L (++)).
Qed.

(** C22: PutRecords sends every record exactly once or reports an error.  It
    never panics and never exceeds 500 records per request; when it returns
    nil the stream has gained exactly the input records; when it returns an
    error, [successCount] is the number of input records known to be in the
    stream. *)
Theorem PutRecords_correct w all :
  Forall (λ q, length q ≤ maxRecords)%nat (requests w) →
  ∃ r err, PutRecords client w all = Ret (r, err) ∧
    Forall (λ q, length q ≤ maxRecords)%nat (requests (world r)) ∧
    match err with
    | None => accepted (world r) ≡ₚ accepted w ++ all ∧ successCount r = Z.of_nat (length all)
    | Some _ => ∃ sent rest, all ≡ₚ sent ++ rest ∧ accepted w ++ sent ⊆+ accepted (world r) ∧
        successCount r = Z.of_nat (length sent)
    end.
Proof.
  intros Hw. unfold PutRecords.
  destruct (chunk_loop_inv maxRecords load (send client)
    (λ l r, done_inv (accepted w) l 0 r ∧ requests_bounded r)
    (λ l r, failed_inv (accepted w) l 0 r ∧ requests_bounded r))
    with (fuel := length all) (all := all) (i := 0%nat)
      (s := {| world := w; records := all; successCount := 0 |}) as (r&err&Hr&Hx).
  - unfold maxRecords; lia.
  - intros l more r [? ?]. auto using kinesis_failed_more.
  - apply kinesis_batch_step.
  - lia.
  - split; [split; simpl; [by rewrite app_nil_r|done]|done].
  - exists r, err. destruct err as [e|]; destruct Hx as [Hx Hb]; split_and!; try done.
    + destruct Hx as (dn&rest&?&?&?). exists dn, rest. split_and!; auto.
    + by destruct Hx.
    + by destruct Hx.
Qed.

End delivery.

(** ** A concrete client for the witness: it accepts the first record of each
    request and fails the others. *)
Definition one_by_one (w : list nat * list (list nat)) (recs : list nat)
    : (list nat * list (list nat)) * result PutRecordsOutput :=
  match recs with
  | [] => ((w.1, w.2 ++ [recs]), Ok {| FailedRecordCount := Some 0; ResultErrors := [] |})
  | x :: rest =>
      ((w.1 ++ [x], w.2 ++ [recs]),
       Ok {| FailedRecordCount := Some (Z.of_nat (length rest));
             ResultErrors := None :: replicate (length rest) (Some "busy") |})
  end.

Lemma kept_replicate {R} (recs : list R) m : kept (replicate (length recs) (Some m)) recs = [].
Proof. induction recs; done. Qed.

Lemma error_count_replicate n m : error_count (replicate n (Some m)) = Z.of_nat n.
Proof. unfold error_count. induction n as [|n IH]; [done|]. simpl in *. lia. Qed.

Lemma one_by_one_ok : KinesisClient one_by_one fst snd.
Proof.
  split.
  - intros w recs w' res Hc. unfold one_by_one in Hc. destruct recs; by simplify_eq/=.
  - intros w recs w' out Hc. unfold one_by_one in Hc. destruct recs as [|x rest]; simplify_eq/=.
    + split_and!; [done|done|]. by rewrite app_nil_r.
    + rewrite length_replicate, kept_replicate. split_and!; [done| |done].
      f_equal. symmetry. exact (error_count_replicate (length rest) "busy").
  - intros w recs w' msg Hc. unfold one_by_one in Hc. destruct recs; by simplify_eq/=.
  - intros w recs w' e Hc. unfold one_by_one in Hc. destruct recs; by simplify_eq/=.
Qed.

Lemma PutRecords_correct_witness :
  ∃ r err, @PutRecords _ _ one_by_one (bounded_backoff 5) ([], []) [1; 2; 3]%nat = Ret (r, err) ∧
    Forall (λ q, length q ≤ maxRecords)%nat (world r).2 ∧
    match err with
    | None => (world r).1 ≡ₚ [] ++ [1; 2; 3]%nat ∧ successCount r = 3
    | Some _ => ∃ sent rest, [1; 2; 3]%nat ≡ₚ sent ++ rest ∧ [] ++ sent ⊆+ (world r).1 ∧
        successCount r = Z.of_nat (length sent)
    end.
Proof.
  exact (@PutRecords_correct _ _ one_by_one fst snd one_by_one_ok (bounded_backoff 5)
    ([], []) [1; 2; 3]%nat (Forall_nil_2 _)).
Defined.
