(* ===== verification/Dynamodbbatch.v ===== *)
(** * pkg/awsbatch/dynamodbbatch: BatchWriteItem and BatchGetItem

    A Go map from table names to slices is a [gmap]; where the code ranges
    over the caller's map, the definition takes the entries in the order the
    iteration visits them, so every theorem holds for every order. *)

From S2P Require Import Prelude Backoff.

Local Open Scope Z_scope.

(** AWS limit of items per BatchWriteItem request *)
Definition maxBatchWriteItems : nat := 25.

Definition ErrCodeInternalServerError : string := "InternalServerError".
Definition ErrCodeThroughputExceeded : string := "ProvisionedThroughputExceededException".

(** [append(m[tableName], item)] stored back in the map *)
Definition append_item {T : Type} (t : string) (x : T) (m : gmap string (list T))
    : gmap string (list T) :=
  <[t := default [] (m !! t) ++ [x]]> m.

(** Count the number of items in the request map *)
Definition writeItemCount {T : Type} (m : gmap string (list T)) : Z :=
  map_fold (λ _ items result, result + Z.of_nat (length items)) 0 m.

Record batchWriteRequest (W T : Type) := {
  world : W;
  RequestItems : gmap string (list T);   (* input.RequestItems *)
  successCount : Z;
}.
Arguments world {W T} _.
Arguments RequestItems {W T} _.
Arguments successCount {W T} _.

Section dynamodbbatch.
Context {W T : Type}.
(** the AWS client: on success it returns the UnprocessedItems *)
Context (client_BatchWriteItem :
  W → gmap string (list T) → W * result (gmap string (list T))).

Definition send (r : batchWriteRequest W T) : outcome (batchWriteRequest W T * option error) :=
  let itemCount := writeItemCount (RequestItems r) in
  let '(w', response) := client_BatchWriteItem (world r) (RequestItems r) in
  match response with
  | Err e =>
      let r' := {| world := w'; RequestItems := RequestItems r; successCount := successCount r |} in
      match e with
      | ErrAWS code _ =>
          if decide (code = ErrCodeInternalServerError ∨ code = ErrCodeThroughputExceeded)
          then Ret (r', Some e)
          else Ret (r', Some (ErrPermanent e))
      | _ => Ret (r', Some (ErrPermanent e))
      end
  | Ok unprocessed =>
      let sc := successCount r + itemCount in
      if decide (0 < size unprocessed)%nat then
        let failedCount := writeItemCount unprocessed in
        Ret ({| world := w'; RequestItems := unprocessed; successCount := sc - failedCount |},
             Some (ErrMsg (itoa failedCount +:+ " unprocessed items")))
      else Ret ({| world := w'; RequestItems := RequestItems r; successCount := sc |}, None)
  end.

Context `{!Backoff}.

(** the inner loop over the items of one table; [itemCount] is threaded *)
Fixpoint write_items (tableName : string) (items : list T) (itemCount : nat)
    (r : batchWriteRequest W T) : outcome (batchWriteRequest W T * nat * option error) :=
  match items with
  | [] => Ret (r, itemCount, None)
  | item :: items' =>
      let r1 := {| world := world r;
                   RequestItems := append_item tableName item (RequestItems r);
                   successCount := successCount r |} in
      let itemCount := S itemCount in
      if decide (itemCount = maxBatchWriteItems) then
        '(r2, err) ← Retry send r1;
        match err with
        | Some e => Ret (r2, itemCount, Some e)
        | None =>
            write_items tableName items' 0
              {| world := world r2; RequestItems := ∅; successCount := successCount r2 |}
        end
      else write_items tableName items' itemCount r1
  end.

(** the outer loop over the tables *)
Fixpoint write_tables (allItems : list (string * list T)) (itemCount : nat)
    (r : batchWriteRequest W T) : outcome (batchWriteRequest W T * nat * option error) :=
  match allItems with
  | [] => Ret (r, itemCount, None)
  | (tableName, items) :: rest =>
      '(r', n, err) ← write_items tableName items itemCount r;
      match err with
      | Some e => Ret (r', n, Some e)
      | None => write_tables rest n r'
      end
  end.

(** BatchWriteItem; [allItems] lists the entries of [input.RequestItems] *)
Definition BatchWriteItem (w : W) (allItems : list (string * list T))
    : outcome (batchWriteRequest W T * option error) :=
  '(r, itemCount, err) ←
    write_tables allItems 0 {| world := w; RequestItems := ∅; successCount := 0 |};
  match err with
  | Some e => Ret (r, Some e)
  | None =>
      if decide (0 < itemCount)%nat then Retry send r
      else Ret (r, None)
  end.

End dynamodbbatch.

(** *** BatchGetItem *)

(** AWS limit of keys per BatchGetItem request *)
Definition maxBatchGetItems : nat := 100.

(** [dynamodb.KeysAndAttributes]: the keys and the other attributes *)
Record KeysAndAttributes (A K : Type) := { attributes : A; Keys : list K }.
Arguments attributes {A K} _.
Arguments Keys {A K} _.

(** Count the number of items in the request map *)
Definition getItemCount {A K : Type} (m : gmap string (KeysAndAttributes A K)) : Z :=
  map_fold (λ _ v result, result + Z.of_nat (length (Keys v))) 0 m.

Section batch_get.
Context {A K V : Type}.
(** the AWS client pages through the responses: the pages it delivered to the
    callback and the final error *)
Context (client_BatchGetItemPages :
  gmap string (KeysAndAttributes A K) → list (gmap string (list V)) * option error).

(** each page of results is added to the final result set *)
Definition updateResult (result page : gmap string (list V)) : gmap string (list V) :=
  map_fold (λ t attributes res, <[t := default [] (res !! t) ++ attributes]> res) result page.

(** the table's entry is created with no keys, then the key is appended *)
Definition append_key (t : string) (attrs : A) (key : K)
    (m : gmap string (KeysAndAttributes A K)) : gmap string (KeysAndAttributes A K) :=
  let entry := default {| attributes := attrs; Keys := [] |} (m !! t) in
  <[t := {| attributes := attributes entry; Keys := Keys entry ++ [key] |}]> m.

Definition get_pages (input : gmap string (KeysAndAttributes A K)) (result : gmap string (list V))
    : gmap string (list V) * option error :=
  let '(pages, err) := client_BatchGetItemPages input in
  (foldl updateResult result pages, err).

Fixpoint get_keys (t : string) (attrs : A) (keys : list K) (itemCount : nat)
    (input : gmap string (KeysAndAttributes A K)) (result : gmap string (list V))
    : Prelude.result (nat * gmap string (KeysAndAttributes A K) * gmap string (list V)) :=
  match keys with
  | [] => Ok (itemCount, input, result)
  | key :: keys' =>
      let input := append_key t attrs key input in
      let itemCount := S itemCount in
      if decide (itemCount = maxBatchGetItems) then
        match get_pages input result with
        | (_, Some e) => Err e
        | (result', None) => get_keys t attrs keys' 0 ∅ result'
        end
      else get_keys t attrs keys' itemCount input result
  end.

Fixpoint get_tables (allItems : list (string * KeysAndAttributes A K)) (itemCount : nat)
    (input : gmap string (KeysAndAttributes A K)) (result : gmap string (list V))
    : Prelude.result (nat * gmap string (KeysAndAttributes A K) * gmap string (list V)) :=
  match allItems with
  | [] => Ok (itemCount, input, result)
  | (t, attrs) :: rest =>
      '(n, input', result') ← get_keys t (attributes attrs) (Keys attrs) itemCount input result;
      get_tables rest n input' result'
  end.

(** BatchGetItem; [allItems] lists the entries of [input.RequestItems] *)
Definition BatchGetItem (allItems : list (string * KeysAndAttributes A K))
    : Prelude.result (gmap string (list V)) :=
  '(itemCount, input, result) ← get_tables allItems 0 ∅ ∅;
  if decide (0 < itemCount)%nat then
    match get_pages input result with
    | (_, Some e) => Err e
    | (result', None) => Ok result'
    end
  else Ok result.

End batch_get.

(** ** What is in a request map *)

Section items.
Context {T : Type}.
Implicit Types m : gmap string (list T).

(** every item of the map with its table *)
Definition map_items m : list (string * T) :=
  map_to_list m ≫= λ '(t, items), pair t <$> items.

Definition flat_items (l : list (string * list T)) : list (string * T) :=
  l ≫= λ '(t, items), pair t <$> items.

Lemma map_items_empty : map_items (∅ : gmap string (list T)) = [].
Proof. unfold map_items. by rewrite map_to_list_empty. Qed.

Lemma map_items_insert m t items :
  m !! t = None → map_items (<[t := items]> m) ≡ₚ (pair t <$> items) ++ map_items m.
Proof. intros Hm. unfold map_items. by rewrite map_to_list_insert by done. Qed.

Lemma map_items_extend m t (l : list T) :
  map_items (<[t := default [] (m !! t) ++ l]> m) ≡ₚ map_items m ++ (pair t <$> l).
Proof.
  destruct (m !! t) as [items|] eqn:Ht; simpl.
  - rewrite <-(insert_delete_id m t items) at 2 by done.
    rewrite <-(insert_delete_eq m t (items ++ l)).
    rewrite !map_items_insert by apply lookup_delete_eq.
    rewrite fmap_app, <-!(assoc_L (++)). f_equiv. apply Permutation_app_comm.
  - rewrite map_items_insert by done. apply Permutation_app_comm.
Qed.

Lemma map_items_append m t x : map_items (append_item t x m) ≡ₚ map_items m ++ [(t, x)].
Proof. apply map_items_extend. Qed.

Lemma writeItemCount_items m : writeItemCount m = Z.of_nat (length (map_items m)).
Proof.
  unfold writeItemCount, map_items. rewrite map_fold_foldr.
  induction (map_to_list m) as [|[t items] l IH]; [done|].
  cbn. rewrite IH, length_app, length_fmap. lia.
Qed.

Lemma map_items_size m : size m = 0%nat → map_items m = [].
Proof. intros ->%map_size_empty_inv. apply map_items_empty. Qed.

End items.

(** ** The client as documented

    After a successful call the request is split between the items written
    and the UnprocessedItems; a failed call may have written anything but
    loses nothing.  [written] and [requests] observe the world. *)
Record DynamoClient {W T : Type}
    (client : W → gmap string (list T) → W * result (gmap string (list T)))
    (written : W → list (string * T)) (requests : W → list (gmap string (list T))) : Prop := {
  client_logs : ∀ w m w' res, client w m = (w', res) → requests w' = requests w ++ [m];
  client_ok : ∀ w m w' un, client w m = (w', Ok un) →
    ∃ processed, map_items m ≡ₚ processed ++ map_items un ∧
      written w' ≡ₚ written w ++ processed;
  client_err : ∀ w m w' e, client w m = (w', Err e) → written w ⊆+ written w';
}.

Section delivery.
Context {W T : Type}.
Context (client : W → gmap string (list T) → W * result (gmap string (list T))).
Context (written : W → list (string * T)) (requests : W → list (gmap string (list T))).
Context (Hclient : DynamoClient client written requests).
Implicit Types r : batchWriteRequest W T.

(** [todo] is split between items known to be written and items of the
    current request *)
Definition pending_inv (acc todo : list (string * T)) r : Prop :=
  ∃ dn, acc ++ dn ⊆+ written (world r) ∧ todo ≡ₚ dn ++ map_items (RequestItems r) ∧
    successCount r = Z.of_nat (length dn).

Definition requests_bounded r : Prop :=
  Forall (λ m, writeItemCount m ≤ Z.of_nat maxBatchWriteItems) (requests (world r)).

Definition small r : Prop := (length (map_items (RequestItems r)) ≤ maxBatchWriteItems)%nat.

Definition attempt_inv acc todo r : Prop :=
  pending_inv acc todo r ∧ requests_bounded r ∧ small r.

Definition failed_inv (acc todo : list (string * T)) r : Prop :=
  requests_bounded r ∧ ∃ dn rest, acc ++ dn ⊆+ written (world r) ∧ todo ≡ₚ dn ++ rest ∧
    successCount r = Z.of_nat (length dn).

Definition done_inv (acc todo : list (string * T)) r : Prop :=
  requests_bounded r ∧ acc ++ todo ⊆+ written (world r) ∧
  successCount r = Z.of_nat (length todo).

Lemma ddb_attempt_failed acc todo r : attempt_inv acc todo r → failed_inv acc todo r.
Proof. intros ((dn&?&?&?)&?&?). split; [done|]. exists dn, (map_items (RequestItems r)). auto. Qed.

Lemma bounded_snoc r w' sc m :
  requests_bounded r → small r → requests w' = requests (world r) ++ [RequestItems r] →
  requests_bounded {| world := w'; RequestItems := m; successCount := sc |}.
Proof.
  unfold requests_bounded, small. simpl. intros Hb Hs ->. apply Forall_snoc; [done|].
  rewrite writeItemCount_items. lia.
Qed.

Lemma ddb_send_step acc todo r :
  attempt_inv acc todo r →
  ∃ r' err, send client r = Ret (r', err) ∧
    match err with
    | Some e => failed_inv acc todo r' ∧ (¬ is_permanent e → attempt_inv acc todo r')
    | None => done_inv acc todo r'
    end.
Proof.
  intros ((dn&Hacc&Htodo&Hn)&Hb&Hs). unfold send.
  destruct (client (world r) (RequestItems r)) as [w' res] eqn:Hc.
  pose proof (client_logs _ _ _ Hclient _ _ _ _ Hc) as Hlog.
  destruct res as [un|e].
  - destruct (client_ok _ _ _ Hclient _ _ _ _ Hc) as (pr&Hm&Hw).
    rewrite !writeItemCount_items.
    assert (acc ++ dn ++ pr ⊆+ written w') as Hacc'.
    { rewrite Hw, (assoc_L (++)). by apply submseteq_app. }
    assert (length (map_items (RequestItems r)) = length pr + length (map_items un))%nat as Hl
      by (rewrite Hm; apply length_app).
    case_decide as Hsz.
    + eexists _, _. split; [reflexivity|]. simpl.
      enough (attempt_inv acc todo {| world := w'; RequestItems := un; successCount :=
        successCount r + Z.of_nat (length (map_items (RequestItems r)))
        - Z.of_nat (length (map_items un)) |}) by auto using ddb_attempt_failed.
      split_and!; [exists (dn ++ pr)|by eapply bounded_snoc|unfold small in *; simpl; lia].
      simpl. split_and!; [done|by rewrite Htodo, Hm, (assoc_L (++))|rewrite length_app; lia].
    + eexists _, _. split; [reflexivity|].
      rewrite (map_items_size un), app_nil_r in Hm by lia.
      split_and!; [by eapply bounded_snoc|simpl; by rewrite Htodo, Hm|].
      simpl. rewrite Htodo, Hn, length_app. lia.
  - set (r' := {| world := w'; RequestItems := RequestItems r; successCount := successCount r |}).
    assert (attempt_inv acc todo r') as HI.
    { split_and!; [exists dn|by eapply bounded_snoc|done]. split_and!; [|done|done]. simpl.
      etrans; [done|]. by apply (client_err _ _ _ Hclient _ _ _ _ Hc). }
    destruct e; try case_decide; eexists r', _; (split; [reflexivity|]); simpl;
      auto using ddb_attempt_failed.
Qed.

Context `{!Backoff}.

Lemma ddb_Retry_send acc todo r :
  attempt_inv acc todo r →
  ∃ r' err, Retry (send client) r = Ret (r', err) ∧
    match err with Some _ => failed_inv acc todo r' | None => done_inv acc todo r' end.
Proof. intros HI. eapply Retry_rule; [|done]. apply ddb_send_step. Qed.

(** between two items the request is not full and [itemCount] is its size *)
Definition fill_inv acc todo (n : nat) r : Prop :=
  attempt_inv acc todo r ∧ n = length (map_items (RequestItems r)) ∧ (n < maxBatchWriteItems)%nat.

Lemma ddb_failed_more acc todo more r : failed_inv acc todo r → failed_inv acc (todo ++ more) r.
Proof.
  intros (Hb&dn&rest&Hw&Ht&Hn). split; [done|]. exists dn, (rest ++ more).
  split_and!; [done| |done]. by rewrite Ht, (assoc_L (++)).
Qed.

Lemma fill_append acc todo n r t x :
  fill_inv acc todo n r →
  attempt_inv acc (todo ++ [(t, x)])
    {| world := world r; RequestItems := append_item t x (RequestItems r);
       successCount := successCount r |} ∧
  length (map_items (append_item t x (RequestItems r))) = S n.
Proof.
  intros (((dn&Ha&Ht&Hn)&Hb&Hs)&->&Hlt). rewrite map_items_append, length_app. simpl.
  split; [|lia]. split_and!; [exists dn|done|].
  - simpl. split_and!; [done| |done]. by rewrite map_items_append, Ht, (assoc_L (++)).
  - unfold small. simpl. rewrite map_items_append, length_app. simpl. lia.
Qed.

Lemma fill_restart acc todo r :
  done_inv acc todo r →
  fill_inv acc todo 0 {| world := world r; RequestItems := ∅; successCount := successCount r |}.
Proof.
  intros (Hb&Hw&Hn). unfold fill_inv, attempt_inv, pending_inv, small, requests_bounded; simpl.
  rewrite map_items_empty. unfold maxBatchWriteItems. simpl.
  split_and!; [exists todo|done|lia|done|lia]. by rewrite app_nil_r.
Qed.

Lemma write_items_inv acc t items todo n r :
  fill_inv acc todo n r →
  ∃ r' n' err, write_items client t items n r = Ret (r', n', err) ∧
    match err with
    | Some _ => failed_inv acc (todo ++ (pair t <$> items)) r'
    | None => fill_inv acc (todo ++ (pair t <$> items)) n' r'
    end.
Proof.
  revert todo n r. induction items as [|x items IH]; intros todo n r HI.
  { eexists r, n, None. simpl. by rewrite app_nil_r. }
  destruct (fill_append _ _ _ _ t x HI) as [HI' Hlen]. cbn [write_items fmap list_fmap].
  rewrite cons_middle, (assoc_L (++)). case_decide as Hfull.
  - destruct (ddb_Retry_send _ _ _ HI') as (r2&[e|]&->&Hx); simpl.
    + eexists _, _, _. split; [done|]. by apply ddb_failed_more.
    + apply IH. by apply fill_restart.
  - apply IH. split_and!; [done|done|]. destruct HI as (?&?&?). lia.
Qed.

Lemma write_tables_inv acc tables todo n r :
  fill_inv acc todo n r →
  ∃ r' n' err, write_tables client tables n r = Ret (r', n', err) ∧
    match err with
    | Some _ => failed_inv acc (todo ++ flat_items tables) r'
    | None => fill_inv acc (todo ++ flat_items tables) n' r'
    end.
Proof.
  revert todo n r. induction tables as [|[t items] tables IH]; intros todo n r HI.
  { eexists r, n, None. simpl. by rewrite app_nil_r. }
  destruct (write_items_inv _ t items _ _ _ HI) as (r1&n1&[e|]&Hw&Hx);
    cbn [write_tables]; rewrite Hw; cbn; rewrite (assoc_L (++)).
  - eexists _, _, _. split; [done|]. by apply ddb_failed_more.
  - by apply IH.
Qed.

Lemma BatchWriteItem_spec w tables :
  Forall (λ m, writeItemCount m ≤ Z.of_nat maxBatchWriteItems) (requests w) →
  ∃ r err, BatchWriteItem client w tables = Ret (r, err) ∧
    Forall (λ m, writeItemCount m ≤ Z.of_nat maxBatchWriteItems) (requests (world r)) ∧
    match err with
    | None => written w ++ flat_items tables ⊆+ written (world r) ∧
        successCount r = Z.of_nat (length (flat_items tables))
    | Some _ => ∃ dn rest, flat_items tables ≡ₚ dn ++ rest ∧
        written w ++ dn ⊆+ written (world r) ∧ successCount r = Z.of_nat (length dn)
    end.
Proof.
  intros Hw. unfold BatchWriteItem.
  destruct (write_tables_inv (written w) tables [] 0
    {| world := w; RequestItems := ∅; successCount := 0 |}) as (r&n&[e|]&Hr&Hx).
  - apply (fill_restart _ _ {| world := w; RequestItems := ∅; successCount := 0 |}).
    split_and!; [done|by rewrite app_nil_r|done].
  - rewrite Hr. simpl. eexists _, _. split; [done|].
    destruct Hx as (Hb&dn&rest&?&?&?). split; [done|]. exists dn, rest. auto.
  - rewrite Hr. simpl in *. destruct Hx as (HI&Hn&_). case_decide as Hpos.
    + destruct (ddb_Retry_send _ _ _ HI) as (r2&err&->&Hx). eexists _, _. split; [done|].
      destruct err.
      * destruct Hx as (Hb&dn&rest&?&?&?). split; [done|]. exists dn, rest. auto.
      * destruct Hx as (?&?&?). auto.
    + eexists _, _. split; [done|]. destruct HI as ((dn&Ha&Ht&Hs)&Hb&_). split; [done|].
      assert (map_items (RequestItems r) = []) as He by (apply nil_length_inv; lia).
      rewrite He, app_nil_r in Ht. by rewrite Ht.
Qed.

(** C4: BatchWriteItem writes every item or reports an error, for every order
    in which the tables are visited.  It never panics and never sends more
    than 25 items in one request; when it returns nil all input items have
    been written and [successCount] is their number; when it returns an error
    at least [successCount] of the input items have been written. *)
Theorem BatchWriteItem_correct w tables :
  Forall (λ m, writeItemCount m ≤ Z.of_nat maxBatchWriteItems) (requests w) →
  ∃ r err, BatchWriteItem client w tables = Ret (r, err) ∧
    Forall (λ m, writeItemCount m ≤ Z.of_nat maxBatchWriteItems) (requests (world r)) ∧
    match err with
    | None => written w ++ flat_items tables ⊆+ written (world r) ∧
        successCount r = Z.of_nat (length (flat_items tables))
    | Some _ => ∃ dn rest, flat_items tables ≡ₚ dn ++ rest ∧
        written w ++ dn ⊆+ written (world r) ∧ successCount r = Z.of_nat (length dn)
    end.
Proof. apply BatchWriteItem_spec. Qed.

End delivery.

(** ** Reading *)

Section reading.
Context {A K V : Type}.
Implicit Types m : gmap string (KeysAndAttributes A K).

(** what the tables hold under a list of keys *)
Definition found (table : string → K → option V) (keys : list (string * K)) : list (string * V) :=
  keys ≫= λ '(t, k), match table t k with Some v => [(t, v)] | None => [] end.

(** The client as documented: when paging ends without an error, the pages
    hold what the tables hold under the requested keys; promised only for
    requests within the AWS limit. *)
Definition GetClient
    (client : gmap string (KeysAndAttributes A K) → list (gmap string (list V)) * option error)
    (table : string → K → option V) : Prop :=
  ∀ m pages, getItemCount m ≤ Z.of_nat maxBatchGetItems → client m = (pages, None) →
    (pages ≫= map_items) ≡ₚ found table (map_items (Keys <$> m)).

Context (client : gmap string (KeysAndAttributes A K) → list (gmap string (list V)) * option error).
Context (table : string → K → option V) (Hclient : GetClient client table).

Lemma getItemCount_items m : getItemCount m = Z.of_nat (length (map_items (Keys <$> m))).
Proof.
  rewrite <-writeItemCount_items. unfold getItemCount, writeItemCount.
  by rewrite map_fold_fmap.
Qed.

Lemma append_key_items t a k m : Keys <$> append_key t a k m = append_item t k (Keys <$> m).
Proof.
  unfold append_key, append_item. rewrite fmap_insert, lookup_fmap. simpl.
  by destruct (m !! t).
Qed.

Lemma updateResult_items (res page : gmap string (list V)) :
  map_items (updateResult res page) ≡ₚ map_items res ++ map_items page.
Proof.
  unfold updateResult, map_items at 3. rewrite map_fold_foldr.
  induction (map_to_list page) as [|[t l] ps IH]; cbn; [by rewrite app_nil_r|].
  rewrite map_items_extend, IH, <-(assoc_L (++)). f_equiv. apply Permutation_app_comm.
Qed.

Lemma foldl_updateResult (pages : list (gmap string (list V))) res :
  map_items (foldl updateResult res pages) ≡ₚ map_items res ++ (pages ≫= map_items).
Proof.
  revert res. induction pages as [|p pages IH]; intros res; cbn; [by rewrite app_nil_r|].
  by rewrite IH, updateResult_items, (assoc_L (++)).
Qed.

Lemma found_app k1 k2 : found table (k1 ++ k2) = found table k1 ++ found table k2.
Proof. apply bind_app. Qed.

Lemma found_perm k1 k2 : k1 ≡ₚ k2 → found table k1 ≡ₚ found table k2.
Proof. intros Hk. unfold found. by rewrite Hk. Qed.

(** [todo] is split between the keys already answered and the request *)
Definition get_inv (todo : list (string * K)) (n : nat) m (res : gmap string (list V)) : Prop :=
  n = length (map_items (Keys <$> m)) ∧ (n < maxBatchGetItems)%nat ∧
  ∃ dn, todo ≡ₚ dn ++ map_items (Keys <$> m) ∧ map_items res ≡ₚ found table dn.

Lemma get_pages_ok todo dn m res res' :
  getItemCount m ≤ Z.of_nat maxBatchGetItems →
  todo ≡ₚ dn ++ map_items (Keys <$> m) → map_items res ≡ₚ found table dn →
  get_pages client m res = (res', None) → map_items res' ≡ₚ found table todo.
Proof.
  intros Hm Ht Hr. unfold get_pages. destruct (client m) as [pages err] eqn:Hc.
  intros ?; simplify_eq. rewrite foldl_updateResult, Hr, (Hclient _ _ Hm Hc).
  by rewrite <-found_app, (found_perm _ _ Ht).
Qed.

Lemma get_keys_inv t a keys todo n m res n' m' res' :
  get_inv todo n m res → get_keys client t a keys n m res = Ok (n', m', res') →
  get_inv (todo ++ (pair t <$> keys)) n' m' res'.
Proof.
  revert todo n m res. induction keys as [|k keys IH]; intros todo n m res HI; cbn [get_keys].
  { intros ?; simplify_eq/=. by rewrite app_nil_r. }
  destruct HI as (Hn&Hlt&dn&Ht&Hr). cbn [fmap list_fmap].
  rewrite cons_middle, (assoc_L (++)).
  assert (todo ++ [(t, k)] ≡ₚ dn ++ map_items (Keys <$> append_key t a k m)) as Ht'
    by (by rewrite append_key_items, map_items_append, Ht, (assoc_L (++))).
  assert (length (map_items (Keys <$> append_key t a k m)) = S n) as Hn'
    by (rewrite append_key_items, map_items_append, length_app; simpl; lia).
  case_decide as Hfull.
  - destruct (get_pages _ _ _) as [res2 [e|]] eqn:Hp; [done|]. apply IH.
    split_and!; [by rewrite fmap_empty, map_items_empty|unfold maxBatchGetItems; lia|].
    exists (todo ++ [(t, k)]). rewrite fmap_empty, map_items_empty, app_nil_r. split; [done|].
    eapply get_pages_ok; [|done..]. rewrite getItemCount_items. lia.
  - apply IH. split_and!; [done|lia|]. by exists dn.
Qed.

Definition flat_keys (l : list (string * KeysAndAttributes A K)) : list (string * K) :=
  l ≫= λ '(t, ka), pair t <$> Keys ka.

Lemma get_tables_inv tables todo n m res n' m' res' :
  get_inv todo n m res → get_tables client tables n m res = Ok (n', m', res') →
  get_inv (todo ++ flat_keys tables) n' m' res'.
Proof.
  revert todo n m res. induction tables as [|[t ka] tables IH]; intros todo n m res HI.
  { cbn. intros ?; simplify_eq/=. by rewrite app_nil_r. }
  cbn [get_tables].
  destruct (get_keys _ _ _ _ _ _ _) as [[[n1 m1] r1]|e] eqn:Hk; cbn; [|done].
  intros Hg. rewrite (assoc_L (++)). eapply IH; [|done]. by eapply get_keys_inv.
Qed.

(** when BatchGetItem succeeds, its result holds exactly what the tables
    hold under the requested keys (duplicates included), for every order in
    which the tables are visited, using only requests of at most 100 keys. *)
Theorem BatchGetItem_correct tables res :
  BatchGetItem client tables = Ok res →
  map_items res ≡ₚ found table (flat_keys tables).
Proof.
  unfold BatchGetItem.
  destruct (get_tables _ _ _ _ _) as [[[n m] r]|e] eqn:Hg; cbn; [|done].
  eapply (get_tables_inv _ []) in Hg as (Hn&Hlt&dn&Ht&Hr); cbn in *.
  - case_decide as Hpos.
    + destruct (get_pages _ _ _) as [res2 [e|]] eqn:Hp; [done|]. intros ?; simplify_eq.
      eapply get_pages_ok; [|done..]. rewrite getItemCount_items. lia.
    + intros ?; simplify_eq. assert (map_items (Keys <$> m) = []) as He
        by (apply nil_length_inv; lia).
      rewrite He, app_nil_r in Ht. by rewrite Hr, (found_perm _ _ Ht).
  - split_and!; [by rewrite fmap_empty, map_items_empty|unfold maxBatchGetItems; lia|].
    exists []. by rewrite fmap_empty, !map_items_empty.
Qed.

End reading.

(** ** Witnesses *)

(** a client that writes the whole request *)
Definition write_all (w : list (string * nat) * list (gmap string (list nat)))
    (m : gmap string (list nat))
    : (list (string * nat) * list (gmap string (list nat))) * result (gmap string (list nat)) :=
  ((w.1 ++ map_items m, w.2 ++ [m]), Ok ∅).

Lemma write_all_ok : DynamoClient write_all fst snd.
Proof.
  split; unfold write_all.
  - intros w m w' res Hc. by simplify_eq.
  - intros w m w' un Hc. simplify_eq/=. exists (map_items m).
    by rewrite map_items_empty, app_nil_r.
  - intros w m w' e Hc. by simplify_eq.
Qed.

Lemma BatchWriteItem_correct_witness :
  ∃ r err, @BatchWriteItem _ _ write_all (bounded_backoff 3) ([], []) [("table", [1; 2]%nat)]
      = Ret (r, err) ∧
    Forall (λ m, writeItemCount m ≤ Z.of_nat maxBatchWriteItems) (world r).2 ∧
    match err with
    | None => [] ++ flat_items [("table", [1; 2]%nat)] ⊆+ (world r).1 ∧
        successCount r = Z.of_nat (length (flat_items [("table", [1; 2]%nat)]))
    | Some _ => ∃ dn rest, flat_items [("table", [1; 2]%nat)] ≡ₚ dn ++ rest ∧
        [] ++ dn ⊆+ (world r).1 ∧ successCount r = Z.of_nat (length dn)
    end.
Proof.
  exact (@BatchWriteItem_correct _ _ write_all fst snd write_all_ok (bounded_backoff 3)
    ([], []) [("table", [1; 2]%nat)] (Forall_nil_2 _)).
Defined.

(** a client that answers in one page per table: key [k] holds [k + 1] *)
Definition read_all (m : gmap string (KeysAndAttributes unit nat))
    : list (gmap string (list nat)) * option error :=
  ((λ '(t, ka), {[ t := S <$> Keys ka ]}) <$> map_to_list m, None).

Lemma read_all_ok : GetClient read_all (λ _ k, Some (S k)).
Proof.
  intros m pages _ Hc. unfold read_all in Hc. simplify_eq. unfold found, map_items at 2.
  rewrite map_to_list_fmap. induction (map_to_list m) as [|[t ka] l IH]; [done|].
  cbn in *. rewrite bind_app. f_equiv; [|done]. unfold map_items.
  rewrite map_to_list_singleton. cbn. rewrite app_nil_r.
  induction (Keys ka) as [|k ks IHk]; [done|]. cbn. by f_equiv.
Qed.

Lemma BatchGetItem_correct_witness :
  let tables := [("table", {| attributes := tt; Keys := [1; 2]%nat |})] in
  ∃ res, BatchGetItem read_all tables = Ok res ∧
    map_items res ≡ₚ found (λ _ k, Some (S k)) (flat_keys tables).
Proof.
  eexists. split; [vm_compute; reflexivity|].
  apply (BatchGetItem_correct read_all _ read_all_ok). vm_compute. reflexivity.
Defined.
