(* ===== verification/S3batch.v ===== *)
(** * pkg/awsbatch/s3batch: DeleteObjects with paging and retries *)

From S2P Require Import Prelude Backoff.

Local Open Scope Z_scope.

(** [s3.ObjectIdentifier] *)
Record ObjectIdentifier := { Key : option string; VersionId : option string }.

(** [s3.Error]: an object that was not deleted *)
Record DeleteError := {
  errKey : option string;
  errVersionId : option string;
  errCode : option string;
  errMessage : option string;
}.

(** [s3.DeleteObjectsOutput] *)
Record DeleteObjectsOutput := { Deleted : list ObjectIdentifier; Errors : list DeleteError }.

(** AWS limit of keys per request *)
Definition maxObjects : nat := 1000.

(** the state [send] works on *)
Record deleteObjectsRequest (W : Type) := {
  world : W;
  objects : list ObjectIdentifier;   (* input.Delete.Objects *)
  deleted : Z;
}.
Arguments world {W} _.
Arguments objects {W} _.
Arguments deleted {W} _.

(** [*result.Code] and [*result.Message] are dereferenced for the log *)
Definition retryObject (result : DeleteError) : outcome ObjectIdentifier :=
  match errCode result, errMessage result with
  | Some _, Some _ => Ret {| Key := errKey result; VersionId := errVersionId result |}
  | _, _ => Panic "nil pointer dereference"
  end.

Section s3batch.
Context {W : Type}.
Context (client_DeleteObjects : W → list ObjectIdentifier → W * result DeleteObjectsOutput).

Fixpoint retryObjects (errs : list DeleteError) : outcome (list ObjectIdentifier) :=
  match errs with
  | [] => Ret []
  | e :: errs' => o ← retryObject e; rest ← retryObjects errs'; Ret (o :: rest)
  end.

Definition send (r : deleteObjectsRequest W) : outcome (deleteObjectsRequest W * option error) :=
  let '(w', response) := client_DeleteObjects (world r) (objects r) in
  match response with
  | Err e =>
      Ret ({| world := w'; objects := objects r; deleted := deleted r |}, Some (ErrPermanent e))
  | Ok out =>
      let del := deleted r + Z.of_nat (length (Deleted out)) in
      if decide (0 < length (Errors out))%nat then
        retry ← retryObjects (Errors out);
        Ret ({| world := w'; objects := retry; deleted := del |},
             Some (ErrMsg (itoa (Z.of_nat (length (Errors out))) +:+ " unprocessed items")))
      else Ret ({| world := w'; objects := objects r; deleted := del |}, None)
  end.

Context `{!Backoff}.

Definition load (batch : list ObjectIdentifier) (r : deleteObjectsRequest W) : deleteObjectsRequest W :=
  {| world := world r; objects := batch; deleted := deleted r |}.

Definition DeleteObjects (w : W) (allObjects : list ObjectIdentifier)
    : outcome (deleteObjectsRequest W * option error) :=
  chunk_loop maxObjects load send (length allObjects) allObjects 0
    {| world := w; objects := allObjects; deleted := 0 |}.

End s3batch.

(** ** The client as documented

    In verbose mode the response lists every object as deleted or as an
    error, and an error carries its key, version, code and message.
    [removed] and [requests] observe the world. *)
Record S3Client {W : Type} (client : W → list ObjectIdentifier → W * result DeleteObjectsOutput)
    (removed : W → list ObjectIdentifier) (requests : W → list (list ObjectIdentifier)) : Prop := {
  client_logs : ∀ w objs w' res, client w objs = (w', res) → requests w' = requests w ++ [objs];
  client_ok : ∀ w objs w' out, client w objs = (w', Ok out) →
    ∃ again, retryObjects (Errors out) = Ret again ∧ objs ≡ₚ Deleted out ++ again ∧
      removed w' ≡ₚ removed w ++ Deleted out;
  client_err : ∀ w objs w' e, client w objs = (w', Err e) → removed w ⊆+ removed w';
}.

Section delivery.
Context {W : Type} (client : W → list ObjectIdentifier → W * result DeleteObjectsOutput).
Context (removed : W → list ObjectIdentifier) (requests : W → list (list ObjectIdentifier)).
Context (Hclient : S3Client client removed requests).
Implicit Types r : deleteObjectsRequest W.

Definition requests_bounded r : Prop :=
  Forall (λ q, length q ≤ maxObjects)%nat (requests (world r)).

Definition attempt_inv (acc todo : list ObjectIdentifier) (n : Z) r : Prop :=
  requests_bounded r ∧ (length (objects r) ≤ maxObjects)%nat ∧
  ∃ dn, removed (world r) ≡ₚ acc ++ dn ∧ todo ≡ₚ dn ++ objects r ∧
    deleted r = n + Z.of_nat (length dn).

Definition done_inv (acc todo : list ObjectIdentifier) (n : Z) r : Prop :=
  requests_bounded r ∧ removed (world r) ≡ₚ acc ++ todo ∧
  deleted r = n + Z.of_nat (length todo).

Definition failed_inv (acc todo : list ObjectIdentifier) (n : Z) r : Prop :=
  requests_bounded r ∧
  ∃ dn rest, acc ++ dn ⊆+ removed (world r) ∧ todo ≡ₚ dn ++ rest ∧
    deleted r = n + Z.of_nat (length dn).

Lemma s3_attempt_failed acc todo n r : attempt_inv acc todo n r → failed_inv acc todo n r.
Proof.
  intros (?&_&dn&Ha&?&?). split; [done|]. exists dn, (objects r). by rewrite Ha.
Qed.

Lemma retryObjects_length errs again : retryObjects errs = Ret again → length again = length errs.
Proof.
  revert again. induction errs as [|e errs IH]; simpl; intros again Hr; [by simplify_eq|].
  destruct (retryObject e); simpl in Hr; [|done].
  destruct (retryObjects errs); simpl in Hr; [|done]. simplify_eq/=. f_equal. auto.
Qed.

Lemma s3_send_step acc todo n r :
  attempt_inv acc todo n r →
  ∃ r' err, send client r = Ret (r', err) ∧
    match err with
    | Some e => failed_inv acc todo n r' ∧ (¬ is_permanent e → attempt_inv acc todo n r')
    | None => done_inv acc todo n r'
    end.
Proof.
  intros (Hb&Hlen&dn&Hacc&Htodo&Hn). unfold send.
  destruct (client (world r) (objects r)) as [w' res] eqn:Hc.
  pose proof (client_logs _ _ _ Hclient _ _ _ _ Hc) as Hlog.
  assert (∀ o d, requests_bounded {| world := w'; objects := o; deleted := d |}) as Hb'.
  { intros o d. unfold requests_bounded; simpl. rewrite Hlog. by apply Forall_snoc. }
  destruct res as [out|e].
  - destruct (client_ok _ _ _ Hclient _ _ _ _ Hc) as (again&Hr&Ho&Hw).
    pose proof (retryObjects_length _ _ Hr) as Hal.
    pose proof (Permutation_length Ho) as Hol. rewrite length_app in Hol.
    case_decide as Hpos.
    + rewrite Hr. eexists _, _. split; [reflexivity|].
      enough (attempt_inv acc todo n {| world := w'; objects := again; deleted :=
        deleted r + Z.of_nat (length (Deleted out)) |}) by (split; auto using s3_attempt_failed).
      split_and!; [done|simpl; lia|]. exists (dn ++ Deleted out). simpl. split_and!.
      * by rewrite Hw, Hacc, (assoc_L (++)).
      * by rewrite Htodo, Ho, (assoc_L (++)).
      * rewrite length_app. lia.
    + eexists _, _. split; [reflexivity|].
      assert (again = []) as -> by (apply nil_length_inv; lia). rewrite app_nil_r in Ho.
      split_and!; [done|simpl; by rewrite Hw, Hacc, Htodo, Ho, (assoc_L (++))|].
      simpl. rewrite Htodo, length_app. simpl in Hol. lia.
  - eexists _, _. split; [reflexivity|]. split; [|simpl; tauto].
    split; [done|]. exists dn, (objects r). split_and!; [|done|done]. simpl.
    rewrite <-Hacc. by apply (client_err _ _ _ Hclient _ _ _ _ Hc).
Qed.

Context `{!Backoff}.

Lemma s3_batch_step acc l batch r :
  (length batch ≤ maxObjects)%nat → done_inv acc l 0 r →
  ∃ r' err, Retry (send client) (load batch r) = Ret (r', err) ∧
    match err with
    | Some _ => failed_inv acc (l ++ batch) 0 r'
    | None => done_inv acc (l ++ batch) 0 r'
    end.
Proof.
  intros Hlen (Hb&Ha&Hn).
  destruct (Retry_rule (send client) (attempt_inv (acc ++ l) batch (Z.of_nat (length l)))
    (done_inv (acc ++ l) batch (Z.of_nat (length l)))
    (failed_inv (acc ++ l) batch (Z.of_nat (length l))) (load batch r)) as (r'&err&Hr&Hx).
  - apply s3_send_step.
  - split_and!; [done|done|]. exists []. simpl. rewrite !app_nil_r. split_and!; [done|done|lia].
  - exists r', err. split; [done|]. destruct err as [e|].
    + destruct Hx as (Hb'&dn&rest&Hd&Ht&Hs). split; [done|].
      exists (l ++ dn), rest. rewrite length_app, !(assoc_L (++)).
      split_and!; [done|by rewrite Ht, (assoc_L (++))|lia].
    + destruct Hx as (Hb'&Ha'&Hs). unfold done_inv. rewrite length_app, (assoc_L (++)).
      split_and!; [done|done|lia].
Qed.

(** DeleteObjects removes every object or reports an error.  It never
    panics and never names more than 1000 keys in one request; when it
    returns nil exactly the given object versions have been removed. *)
Theorem DeleteObjects_correct w all :
  Forall (λ q, length q ≤ maxObjects)%nat (requests w) →
  ∃ r err, DeleteObjects client w all = Ret (r, err) ∧
    Forall (λ q, length q ≤ maxObjects)%nat (requests (world r)) ∧
    match err with
    | None => removed (world r) ≡ₚ removed w ++ all ∧ deleted r = Z.of_nat (length all)
    | Some _ => ∃ dn rest, all ≡ₚ dn ++ rest ∧ removed w ++ dn ⊆+ removed (world r) ∧
        deleted r = Z.of_nat (length dn)
    end.
Proof.
  intros Hw. unfold DeleteObjects.
  destruct (chunk_loop_inv maxObjects load (send client)
    (λ l r, done_inv (removed w) l 0 r) (λ l r, failed_inv (removed w) l 0 r))
    with (fuel := length all) (all := all) (i := 0%nat)
      (s := {| world := w; objects := all; deleted := 0 |}) as (r&err&Hr&Hx).
  - unfold maxObjects; lia.
  - intros l more r (Hb&dn&rest&?&Ht&?). split; [done|]. exists dn, (rest ++ more).
    rewrite Ht, (assoc_L (++)). auto.
  - apply s3_batch_step.
  - lia.
  - split_and!; [done|by rewrite app_nil_r|done].
  - exists r, err. split; [done|]. destruct err as [e|].
    + destruct Hx as (?&dn&rest&?&?&?). split; [done|]. exists dn, rest. auto.
    + destruct Hx as (?&?&?). auto.
Qed.

End delivery.

(** ** Witness: a client that removes everything *)
Definition remove_all (w : list ObjectIdentifier * list (list ObjectIdentifier))
    (objs : list ObjectIdentifier)
    : (list ObjectIdentifier * list (list ObjectIdentifier)) * result DeleteObjectsOutput :=
  ((w.1 ++ objs, w.2 ++ [objs]), Ok {| Deleted := objs; Errors := [] |}).

Lemma remove_all_ok : S3Client remove_all fst snd.
Proof.
  split; unfold remove_all.
  - intros w m w' res Hc. by simplify_eq.
  - intros w m w' un Hc. simplify_eq/=. exists []. by rewrite app_nil_r.
  - intros w m w' e Hc. by simplify_eq.
Qed.

Lemma DeleteObjects_correct_witness :
  let all := [{| Key := Some "a"; VersionId := None |}] in
  ∃ r err, @DeleteObjects _ remove_all (bounded_backoff 3) ([], []) all = Ret (r, err) ∧
    Forall (λ q, length q ≤ maxObjects)%nat (world r).2 ∧
    match err with
    | None => (world r).1 ≡ₚ [] ++ all ∧ deleted r = Z.of_nat (length all)
    | Some _ => ∃ dn rest, all ≡ₚ dn ++ rest ∧ [] ++ dn ⊆+ (world r).1 ∧
        deleted r = Z.of_nat (length dn)
    end.
Proof.
  intros all. exact (@DeleteObjects_correct _ remove_all fst snd remove_all_ok
    (bounded_backoff 3) ([], []) all (Forall_nil_2 _)).
Defined.
