(* ===== verification/Sqsbatch.v ===== *)
(** * pkg/awsbatch/sqsbatch: SendMessageBatch with paging and retries *)

From S2P Require Import Prelude Backoff.

Local Open Scope Z_scope.

(** [sqs.SendMessageBatchRequestEntry] *)
Record Entry := { Id : option string; MessageBody : option string; DelaySeconds : option Z }.

#[export] Instance Entry_eq_dec : EqDecision Entry.
Proof. solve_decision. Defined.

(** [sqs.BatchResultErrorEntry] *)
Record FailedEntry := { fId : option string; fMessage : option string }.

(** [sqs.SendMessageBatchOutput] *)
Record SendMessageBatchOutput := { Successful : list string; Failed : list FailedEntry }.

Definition maxMessages : nat := 10.
Definition maxMessageBytes : Z := 260000.

Definition ErrCodeBatchRequestTooLong : string := "AWS.SimpleQueueService.BatchRequestTooLong".

(** [len(aws.StringValue(entry.MessageBody))] *)
Definition entrySize (e : Entry) : Z := slen (default "" (MessageBody e)).

(** the state [send] works on *)
Record sendMessageBatchRequest (W : Type) := {
  world : W;
  entries : list Entry;      (* input.Entries *)
  successCount : Z;
}.
Arguments world {W} _.
Arguments entries {W} _.
Arguments successCount {W} _.

Definition deref {A : Type} (p : option A) : outcome A :=
  match p with Some a => Ret a | None => Panic "nil pointer dereference" end.

(** the set of failed message IDs *)
Fixpoint retryIDs (failed : list FailedEntry) : outcome (gset string) :=
  match failed with
  | [] => Ret ∅
  | f :: failed' => i ← deref (fId f); rest ← retryIDs failed'; Ret ({[i]} ∪ rest)
  end.

(** the entries whose ID is in the set *)
Fixpoint retryEntries (ids : gset string) (es : list Entry) : outcome (list Entry) :=
  match es with
  | [] => Ret []
  | e :: es' =>
      i ← deref (Id e);
      rest ← retryEntries ids es';
      Ret (if decide (i ∈ ids) then e :: rest else rest)
  end.

(** the inner loop: fill a batch from [allEntries[i:]], moving oversized
    messages to [bigMessages]; returns the batch, the oversized messages and
    the entries left *)
Fixpoint fill (rest batch bigMessages : list Entry) (currentBatchSize : Z)
    : list Entry * list Entry * list Entry :=
  match rest with
  | [] => (batch, bigMessages, [])
  | e :: rest' =>
      let over := decide (entrySize e > maxMessageBytes) in
      let bigMessages := if over then bigMessages ++ [e] else bigMessages in
      let batch := if over then batch else batch ++ [e] in
      let currentBatchSize := if over then currentBatchSize else currentBatchSize + entrySize e in
      match rest' with
      | [] => (batch, bigMessages, [])
      | next :: _ =>
          if decide (length batch = maxMessages ∨
                     maxMessageBytes ≤ currentBatchSize + entrySize next)
          then (batch, bigMessages, rest')
          else fill rest' batch bigMessages currentBatchSize
      end
  end.

Section sqsbatch.
Context {W : Type}.
Context (client_SendMessageBatch : W → list Entry → W * result SendMessageBatchOutput).

Definition send (r : sendMessageBatchRequest W)
    : outcome (sendMessageBatchRequest W * option error) :=
  let '(w', response) := client_SendMessageBatch (world r) (entries r) in
  match response with
  | Err e =>
      Ret ({| world := w'; entries := entries r; successCount := successCount r |},
           Some (ErrPermanent e))
  | Ok out =>
      let sc := successCount r + Z.of_nat (length (Successful out)) in
      match Failed out with
      | [] => Ret ({| world := w'; entries := entries r; successCount := sc |}, None)
      | f :: _ =>
          msg ← deref (fMessage f);
          ids ← retryIDs (Failed out);
          retry ← retryEntries ids (entries r);
          Ret ({| world := w'; entries := retry; successCount := sc |},
               Some (ErrMsg (msg +:+ ": " +:+ itoa (Z.of_nat (length (Failed out)))
                             +:+ " unprocessed items")))
      end
  end.

Context `{!Backoff}.

(** the result: the request's final state, the messages handed back to the
    caller and the error *)
Definition sqs_result : Type := sendMessageBatchRequest W * list Entry * option error.

(** after the loop *)
Definition finish (r : sendMessageBatchRequest W) (bigMessages : list Entry) : sqs_result :=
  match bigMessages with
  | [] => (r, [], None)
  | _ :: _ => (r, bigMessages, Some (ErrMsg ErrCodeBatchRequestTooLong))
  end.

(** [allEntries[request.successCount:]] *)
Definition unsent (all : list Entry) (n : Z) : outcome (list Entry) :=
  if decide (0 ≤ n ≤ Z.of_nat (length all)) then Ret (drop (Z.to_nat n) all)
  else Panic "slice bounds out of range".

(** the outer loop over [rest = allEntries[i:]] *)
Fixpoint send_loop (fuel : nat) (all rest bigMessages : list Entry)
    (r : sendMessageBatchRequest W) : outcome sqs_result :=
  match fuel with
  | O => Ret (finish r bigMessages)
  | S fuel =>
      match rest with
      | [] => Ret (finish r bigMessages)
      | _ :: _ =>
          let '(batch, bigMessages, rest') := fill rest [] bigMessages 0 in
          let r1 := {| world := world r; entries := batch; successCount := successCount r |} in
          match batch with
          | [] => Ret (finish r1 bigMessages)
          | _ :: _ =>
              '(r2, err) ← Retry send r1;
              match err with
              | Some e => left ← unsent all (successCount r2); Ret (r2, left ++ bigMessages, Some e)
              | None => send_loop fuel all rest' bigMessages r2
              end
          end
      end
  end.

Definition SendMessageBatch (w : W) (allEntries : list Entry) : outcome sqs_result :=
  send_loop (length allEntries) allEntries allEntries []
    {| world := w; entries := allEntries; successCount := 0 |}.

End sqsbatch.

(** ** The client as documented

    Every entry has an ID and is reported either as successful or as failed,
    with the failed ID and a message; the entries that did not fail are in
    the queue.  A failed call loses nothing.  [queue] and [requests] observe
    the world. *)

Definition failed_ids (fs : list FailedEntry) : list (option string) := fId <$> fs.

Definition accepted (fs : list FailedEntry) (es : list Entry) : list Entry :=
  filter (λ e, Id e ∉ failed_ids fs) es.

Record SqsClient {W : Type} (client : W → list Entry → W * result SendMessageBatchOutput)
    (queue : W → list Entry) (requests : W → list (list Entry)) : Prop := {
  client_logs : ∀ w es w' res, client w es = (w', res) → requests w' = requests w ++ [es];
  client_ok : ∀ w es w' out, client w es = (w', Ok out) →
    Forall (λ e, is_Some (Id e)) es ∧
    Forall (λ f, is_Some (fId f) ∧ is_Some (fMessage f)) (Failed out) ∧
    length (Successful out) = length (accepted (Failed out) es) ∧
    queue w' ≡ₚ queue w ++ accepted (Failed out) es;
  client_err : ∀ w es w' e, client w es = (w', Err e) → queue w ⊆+ queue w';
}.

Lemma retryIDs_ok fs :
  Forall (λ f, is_Some (fId f) ∧ is_Some (fMessage f)) fs →
  ∃ ids, retryIDs fs = Ret ids ∧ ∀ i, i ∈ ids ↔ Some i ∈ failed_ids fs.
Proof.
  induction 1 as [|f fs [[i Hi] _] _ (ids&Hr&Hids)].
  - exists ∅. split; [done|]. unfold failed_ids. cbn. set_solver.
  - exists ({[i]} ∪ ids). simpl. rewrite Hi, Hr. split; [done|]. intros j.
    unfold failed_ids in *. cbn. rewrite ?Hi, elem_of_cons, elem_of_union, elem_of_singleton, Hids.
    naive_solver.
Qed.

Lemma retryEntries_ok fs ids es :
  Forall (λ e, is_Some (Id e)) es → (∀ i, i ∈ ids ↔ Some i ∈ failed_ids fs) →
  ∃ again, retryEntries ids es = Ret again ∧ es ≡ₚ accepted fs es ++ again ∧
    (length again ≤ length es)%nat ∧ (again ⊆+ es).
Proof.
  intros Hes Hids. induction Hes as [|e es [i Hi] _ (again&Hr&Hp&Hl&Hs)].
  - exists []. done.
  - simpl. rewrite Hi, Hr. simpl. eexists. split; [done|]. unfold accepted. rewrite filter_cons.
    rewrite Hi. destruct (decide (i ∈ ids)) as [Hin|Hin]; rewrite Hids in Hin.
    + rewrite decide_False by tauto.
      split_and!; [|simpl; lia|by apply submseteq_skip].
      rewrite Hp at 1. by rewrite Permutation_middle.
    + rewrite decide_True by done.
      split_and!; [|simpl; lia|by apply submseteq_cons]. simpl. by rewrite Hp at 1.
Qed.

(** ** Batches when no message is oversized *)

Definition totalSize (es : list Entry) : Z := foldr (λ e n, entrySize e + n) 0 es.

Lemma totalSize_snoc es e : totalSize (es ++ [e]) = totalSize es + entrySize e.
Proof. unfold totalSize. rewrite foldr_app. induction es; simpl in *; lia. Qed.

Definition batch_ok (es : list Entry) : Prop :=
  (length es ≤ maxMessages)%nat ∧ totalSize es ≤ maxMessageBytes.

Lemma fill_fits e rest batch big size :
  entrySize e ≤ maxMessageBytes →
  fill (e :: rest) batch big size =
  match rest with
  | [] => (batch ++ [e], big, [])
  | next :: _ =>
      if decide (length (batch ++ [e]) = maxMessages ∨
                 maxMessageBytes ≤ (size + entrySize e) + entrySize next)
      then (batch ++ [e], big, rest)
      else fill rest (batch ++ [e]) big (size + entrySize e)
  end.
Proof.
  intros He. cbn [fill]. by rewrite !(decide_False (P := entrySize e > maxMessageBytes)) by lia.
Qed.

Lemma fill_spec e rest batch big :
  Forall (λ e, entrySize e ≤ maxMessageBytes) (e :: rest) →
  batch_ok (batch ++ [e]) →
  ∃ more rest', fill (e :: rest) batch big (totalSize batch) = (batch ++ e :: more, big, rest') ∧
    rest = more ++ rest' ∧ batch_ok (batch ++ e :: more).
Proof.
  revert e batch. induction rest as [|next rest IH]; intros e batch Hsz Hok;
    inversion_clear Hsz as [|?? He Hrest]; rewrite fill_fits by done; [by exists [], []|].
  case_decide as Hstop; [by exists [], (next :: rest)|].
  rewrite <-totalSize_snoc in *.
  destruct (IH next (batch ++ [e]) Hrest) as (more&rest'&Hf&->&Hb).
  { destruct Hok as [Hl _]. split; [rewrite !length_app in *; simpl in *; lia|].
    rewrite totalSize_snoc. lia. }
  rewrite <-(assoc_L (++)) in Hf, Hb. by exists (next :: more), rest'.
Qed.

Section delivery.
Context {W : Type} (client : W → list Entry → W * result SendMessageBatchOutput).
Context (queue : W → list Entry) (requests : W → list (list Entry)).
Context (Hclient : SqsClient client queue requests).
Implicit Types r : sendMessageBatchRequest W.

Definition requests_ok r : Prop := Forall batch_ok (requests (world r)).

Definition attempt_inv (acc todo : list Entry) (n : Z) r : Prop :=
  requests_ok r ∧ batch_ok (entries r) ∧
  ∃ dn, queue (world r) ≡ₚ acc ++ dn ∧ todo ≡ₚ dn ++ entries r ∧
    successCount r = n + Z.of_nat (length dn).

Definition done_inv (acc todo : list Entry) (n : Z) r : Prop :=
  requests_ok r ∧ queue (world r) ≡ₚ acc ++ todo ∧ successCount r = n + Z.of_nat (length todo).

Definition failed_inv (acc todo : list Entry) (n : Z) r : Prop :=
  requests_ok r ∧ ∃ dn rest, acc ++ dn ⊆+ queue (world r) ∧ todo ≡ₚ dn ++ rest ∧
    successCount r = n + Z.of_nat (length dn).

Lemma totalSize_sub es es' : es ⊆+ es' → totalSize es ≤ totalSize es'.
Proof.
  assert (∀ e, 0 ≤ entrySize e) as Hpos by (intros e; unfold entrySize, slen; lia).
  induction 1 as [|x l1 l2 _ IH|x y l|x l1 l2 _ IH|]; simpl in *;
    try pose proof (Hpos x); lia.
Qed.

Lemma sqs_send_step acc todo n r :
  attempt_inv acc todo n r →
  ∃ r' err, send client r = Ret (r', err) ∧
    match err with
    | Some e => failed_inv acc todo n r' ∧ (¬ is_permanent e → attempt_inv acc todo n r')
    | None => done_inv acc todo n r'
    end.
Proof.
  intros (Hreq&Hbatch&dn&Hq&Ht&Hn). unfold send.
  destruct (client (world r) (entries r)) as [w' res] eqn:Hc.
  pose proof (client_logs _ _ _ Hclient _ _ _ _ Hc) as Hlog.
  assert (∀ es n', requests_ok {| world := w'; entries := es; successCount := n' |}) as Hreq'.
  { intros es n'. unfold requests_ok; simpl. rewrite Hlog. by apply Forall_snoc. }
  destruct res as [out|e].
  - destruct (client_ok _ _ _ Hclient _ _ _ _ Hc) as (Hids&Hfs&Hlen&Hw).
    destruct (Failed out) as [|f fs] eqn:Hf.
    + eexists _, _. split; [reflexivity|]. simpl.
      assert (accepted [] (entries r) = entries r) as Hacc.
      { clear. unfold accepted, failed_ids. cbn.
        induction (entries r) as [|e es IH]; [done|]. rewrite filter_cons, decide_True, IH; [done|].
        apply not_elem_of_nil. }
      rewrite Hacc in *. split_and!; [done|simpl; by rewrite Hw, Hq, Ht, (assoc_L (++))|].
      simpl. rewrite Ht, length_app, Hn, Hlen. lia.
    + rewrite <-Hf in *. destruct (retryIDs_ok _ Hfs) as (ids&Hri&Hmem).
      destruct (retryEntries_ok (Failed out) ids (entries r) Hids Hmem) as (again&Hre&Hp&Hl&Hsub).
      assert (is_Some (fMessage f)) as [msg Hmsg].
      { rewrite Hf in Hfs. inversion_clear Hfs as [|?? [??] _]. done. }
      rewrite Hmsg. simpl. rewrite Hri. simpl. rewrite Hre. simpl.
      eexists _, _. split; [reflexivity|].
      enough (attempt_inv acc todo n {| world := w'; entries := again; successCount :=
        successCount r + Z.of_nat (length (Successful out)) |}) as HI.
      { split; [|done]. destruct HI as (?&_&dn'&Hq'&?&?). split; [done|].
        exists dn', again. by rewrite Hq'. }
      split_and!; [done| |exists (dn ++ accepted (Failed out) (entries r)); simpl; split_and!].
      * destruct Hbatch as [Hb1 Hb2]. apply totalSize_sub in Hsub. split; simpl; lia.
      * by rewrite Hw, Hq, (assoc_L (++)).
      * rewrite Ht. rewrite Hp at 1. by rewrite (assoc_L (++)).
      * rewrite length_app, Hn, Hlen. lia.
  - eexists _, _. split; [reflexivity|]. split; [|simpl; tauto]. split; [done|].
    exists dn, (entries r). split_and!; [|done|done]. simpl. rewrite <-Hq.
    by apply (client_err _ _ _ Hclient _ _ _ _ Hc).
Qed.

Context `{!Backoff}.

Lemma sqs_batch_step acc l batch r :
  batch_ok batch → done_inv acc l 0 r →
  ∃ r' err, Retry (send client)
      {| world := world r; entries := batch; successCount := successCount r |} = Ret (r', err) ∧
    match err with
    | Some _ => failed_inv acc (l ++ batch) 0 r'
    | None => done_inv acc (l ++ batch) 0 r'
    end.
Proof.
  intros Hok (Hb&Ha&Hn).
  destruct (Retry_rule (send client) (attempt_inv (acc ++ l) batch (Z.of_nat (length l)))
    (done_inv (acc ++ l) batch (Z.of_nat (length l)))
    (failed_inv (acc ++ l) batch (Z.of_nat (length l)))
    {| world := world r; entries := batch; successCount := successCount r |})
    as (r'&err&Hr&Hx).
  - apply sqs_send_step.
  - split_and!; [done|done|]. exists []. simpl. rewrite !app_nil_r. split_and!; [done|done|lia].
  - exists r', err. split; [done|]. destruct err as [e|].
    + destruct Hx as (Hb'&dn&rest&Hd&Ht&Hs). split; [done|].
      exists (l ++ dn), rest. rewrite length_app, !(assoc_L (++)).
      split_and!; [done|by rewrite Ht, (assoc_L (++))|lia].
    + destruct Hx as (Hb'&Ha'&Hs). unfold done_inv. rewrite length_app, (assoc_L (++)).
      split_and!; [done|done|lia].
Qed.

Lemma sqs_failed_more acc l more r : failed_inv acc l 0 r → failed_inv acc (l ++ more) 0 r.
Proof.
  intros (Hb&dn&rest&?&Ht&?). split; [done|]. exists dn, (rest ++ more).
  by rewrite Ht, (assoc_L (++)).
Qed.

Lemma unsent_ok acc all r :
  failed_inv acc all 0 r →
  unsent all (successCount r) = Ret (drop (Z.to_nat (successCount r)) all).
Proof.
  intros (_&dn&rest&_&Ht&Hn). apply Permutation_length in Ht. rewrite length_app in Ht.
  unfold unsent. rewrite decide_True by lia. done.
Qed.

Lemma send_loop_inv acc fuel l rest r :
  Forall (λ e, entrySize e ≤ maxMessageBytes) rest → (length rest ≤ fuel)%nat →
  done_inv acc l 0 r →
  ∃ r' left err, send_loop client fuel (l ++ rest) rest [] r = Ret (r', left, err) ∧
    match err with
    | Some _ => failed_inv acc (l ++ rest) 0 r' ∧
        left = drop (Z.to_nat (successCount r')) (l ++ rest)
    | None => done_inv acc (l ++ rest) 0 r' ∧ left = []
    end.
Proof.
  revert l rest r. induction fuel as [|fuel IH]; intros l rest r Hsz Hfuel Hd.
  { destruct rest; [|simpl in *; lia]. eexists r, [], None. by rewrite app_nil_r. }
  destruct rest as [|e rest].
  { eexists r, [], None. by rewrite app_nil_r. }
  assert (entrySize e ≤ maxMessageBytes) by (by inversion Hsz).
  destruct (fill_spec e rest [] [] Hsz) as (more&rest'&Hf&->&Hb).
  { split; simpl; [unfold maxMessages; lia|lia]. }
  cbn [send_loop]. change 0 with (totalSize []). rewrite Hf. cbn [app].
  destruct (sqs_batch_step acc l (e :: more) r Hb Hd) as (r2&[err|]&->&Hx); simpl.
  - rewrite app_comm_cons, (assoc_L (++)). apply (sqs_failed_more _ _ rest') in Hx.
    rewrite (unsent_ok _ _ _ Hx). eexists _, _, _. split; [reflexivity|]. by rewrite app_nil_r.
  - rewrite app_comm_cons, (assoc_L (++)). apply IH; [|simpl in *; rewrite length_app in *; lia|done].
    rewrite app_comm_cons in Hsz. by apply Forall_app in Hsz as [_ ?].
Qed.

Lemma SendMessageBatch_spec w all :
  Forall (λ e, entrySize e ≤ maxMessageBytes) all → Forall batch_ok (requests w) →
  ∃ r left err, SendMessageBatch client w all = Ret (r, left, err) ∧
    Forall batch_ok (requests (world r)) ∧
    match err with
    | None => left = [] ∧ queue (world r) ≡ₚ queue w ++ all
    | Some _ => left = drop (Z.to_nat (successCount r)) all ∧
        ∃ dn rest, all ≡ₚ dn ++ rest ∧ queue w ++ dn ⊆+ queue (world r) ∧
          successCount r = Z.of_nat (length dn)
    end.
Proof.
  intros Hsz Hw. unfold SendMessageBatch.
  destruct (send_loop_inv (queue w) (length all) [] all
    {| world := w; entries := all; successCount := 0 |}) as (r&left&err&Hr&Hx).
  - done.
  - done.
  - split_and!; [done|by rewrite app_nil_r|done].
  - exists r, left, err. split; [done|]. destruct err as [e|].
    + destruct Hx as [(?&dn&rest&?&?&?) ->]. split; [done|]. split; [done|]. exists dn, rest. auto.
    + destruct Hx as [(?&?&?) ->]. auto.
Qed.

(** what the callers of SendMessageBatch rely on *)
Lemma SendMessageBatch_queue w all :
  Forall (λ e, entrySize e ≤ maxMessageBytes) all → Forall batch_ok (requests w) →
  ∃ r left err, SendMessageBatch client w all = Ret (r, left, err) ∧
    Forall batch_ok (requests (world r)) ∧
    match err with
    | None => queue (world r) ≡ₚ queue w ++ all
    | Some _ => queue w ⊆+ queue (world r)
    end.
Proof.
  intros Hsz Hw. destruct (SendMessageBatch_spec w all Hsz Hw) as (r&left&err&Hr&Hb&Herr).
  exists r, left, err. split_and!; [done|done|]. destruct err as [e|]; [|tauto].
  destruct Herr as (_&dn&rest&_&Hq&_). etrans; [|exact Hq]. by apply submseteq_inserts_r.
Qed.

(** C21: when no message exceeds 260000 bytes, SendMessageBatch queues every
    message exactly once or reports an error.  It never panics, and every
    request has at most 10 entries and at most 260000 bytes of bodies. *)
Theorem SendMessageBatch_correct w all :
  Forall (λ e, entrySize e ≤ maxMessageBytes) all → Forall batch_ok (requests w) →
  ∃ r left err, SendMessageBatch client w all = Ret (r, left, err) ∧
    Forall batch_ok (requests (world r)) ∧
    match err with
    | None => left = [] ∧ queue (world r) ≡ₚ queue w ++ all
    | Some _ => left = drop (Z.to_nat (successCount r)) all ∧
        ∃ dn rest, all ≡ₚ dn ++ rest ∧ queue w ++ dn ⊆+ queue (world r) ∧
          successCount r = Z.of_nat (length dn)
    end.
Proof. apply SendMessageBatch_spec. Qed.

End delivery.

Lemma SendMessageBatch_adjacent {W} (client : W → list Entry → W * result SendMessageBatchOutput)
    `{!Backoff} w big1 big2 rest :
  entrySize big1 > maxMessageBytes → maxMessageBytes ≤ entrySize big2 →
  SendMessageBatch client w (big1 :: big2 :: rest) =
  Ret ({| world := w; entries := []; successCount := 0 |}, [big1],
       Some (ErrMsg ErrCodeBatchRequestTooLong)).
Proof.
  intros H1 H2. unfold SendMessageBatch. cbn [length send_loop fill].
  rewrite !(decide_True (P := entrySize big1 > maxMessageBytes)) by done.
  rewrite decide_True by (right; lia). done.
Qed.

(** two adjacent oversized messages stop the whole call: when the first
    message exceeds the limit and the next one reaches it, SendMessageBatch
    makes no request at all and hands back the first message only; the second
    message and every message after it are neither sent nor returned,
    whatever their size. *)
Theorem SendMessageBatch_drops {W} (client : W → list Entry → W * result SendMessageBatchOutput)
    `{!Backoff} w big1 big2 rest :
  entrySize big1 > maxMessageBytes → maxMessageBytes ≤ entrySize big2 →
  SendMessageBatch client w (big1 :: big2 :: rest) =
  Ret ({| world := w; entries := []; successCount := 0 |}, [big1],
       Some (ErrMsg ErrCodeBatchRequestTooLong)).
Proof. apply SendMessageBatch_adjacent. Qed.

(** ** Witnesses *)

(** a client that queues everything *)
Definition queue_all (w : list Entry * list (list Entry)) (es : list Entry)
    : (list Entry * list (list Entry)) * result SendMessageBatchOutput :=
  if forallb (λ e, bool_decide (is_Some (Id e))) es then
    ((w.1 ++ es, w.2 ++ [es]), Ok {| Successful := default "" ∘ Id <$> es; Failed := [] |})
  else ((w.1, w.2 ++ [es]), Err (ErrMsg "InvalidParameter")).

Lemma accepted_nil es : accepted [] es = es.
Proof.
  unfold accepted, failed_ids. cbn. induction es as [|e es IH]; [done|].
  rewrite filter_cons, decide_True, IH; [done|]. apply not_elem_of_nil.
Qed.

Lemma queue_all_ok : SqsClient queue_all fst snd.
Proof.
  split; unfold queue_all; intros w es w' res; (destruct (forallb _ es) eqn:Hall); intros Hc;
    simplify_eq/=; try done.
  rewrite accepted_nil, length_fmap. split_and!; try done.
  revert Hall. clear. induction es as [|e es IH]; [done|].
  simpl. intros [He Hes]%andb_true_iff. constructor; [by apply bool_decide_eq_true in He|auto].
Qed.

Lemma SendMessageBatch_correct_witness :
  let all := [{| Id := Some "1"; MessageBody := Some "hello"; DelaySeconds := None |}] in
  ∃ r left err, @SendMessageBatch _ queue_all (bounded_backoff 3) ([], []) all
      = Ret (r, left, err) ∧
    Forall batch_ok (world r).2 ∧
    match err with
    | None => left = [] ∧ (world r).1 ≡ₚ [] ++ all
    | Some _ => left = drop (Z.to_nat (successCount r)) all ∧
        ∃ dn rest, all ≡ₚ dn ++ rest ∧ [] ++ dn ⊆+ (world r).1 ∧
          successCount r = Z.of_nat (length dn)
    end.
Proof.
  intros all. apply (@SendMessageBatch_correct _ queue_all fst snd queue_all_ok
    (bounded_backoff 3) ([], []) all).
  - repeat constructor. unfold entrySize, maxMessageBytes. simpl. vm_compute. discriminate.
  - constructor.
Defined.

(** a body of [n] bytes *)
Definition body (n : Z) : string := Nat.iter (Z.to_nat n) (String "x") "".

Lemma length_iter_string k c : String.length (Nat.iter k (String c) "") = k.
Proof. induction k as [|k IH]; simpl; [done|]. by rewrite IH. Qed.

Lemma entrySize_body i n : 0 ≤ n → entrySize {| Id := i; MessageBody := Some (body n); DelaySeconds := None |} = n.
Proof.
  intros Hn. change (Z.of_nat (String.length (body n)) = n). unfold body.
  rewrite length_iter_string. lia.
Qed.

Lemma SendMessageBatch_drops_witness :
  let big1 := {| Id := Some "1"; MessageBody := Some (body 260001); DelaySeconds := None |} in
  let big2 := {| Id := Some "2"; MessageBody := Some (body 260001); DelaySeconds := None |} in
  let small := {| Id := Some "3"; MessageBody := Some (body 5); DelaySeconds := None |} in
  @SendMessageBatch _ queue_all (bounded_backoff 3) ([], []) [big1; big2; small] =
  Ret ({| world := ([], []); entries := []; successCount := 0 |}, [big1],
       Some (ErrMsg ErrCodeBatchRequestTooLong)).
Proof.
  intros big1 big2 small. apply (@SendMessageBatch_drops _ queue_all (bounded_backoff 3)).
  - unfold big1. rewrite entrySize_body by lia. done.
  - unfold big2. rewrite entrySize_body by lia. done.
Defined.

(** a client that accepts all but the first entry, then is unreachable *)
Definition flaky (w : bool * list Entry * list (list Entry)) (es : list Entry)
    : (bool * list Entry * list (list Entry)) * result SendMessageBatchOutput :=
  let '(down, q, reqs) := w in
  match down, es with
  | false, {| Id := Some i |} :: _ =>
      if forallb (λ e, bool_decide (is_Some (Id e))) es then
        let f := {| fId := Some i; fMessage := Some "throttled" |} in
        ((true, q ++ accepted [f] es, reqs ++ [es]),
         Ok {| Successful := default "" ∘ Id <$> accepted [f] es; Failed := [f] |})
      else ((true, q, reqs ++ [es]), Err (ErrMsg "InvalidParameter"))
  | _, _ => ((true, q, reqs ++ [es]), Err (ErrMsg "connection refused"))
  end.

Lemma flaky_ok : SqsClient flaky (λ w, w.1.2) snd.
Proof.
  split; intros [[[] q] reqs] [|[[i|] b] es] w' res; unfold flaky; simpl;
    try (destruct (forallb _ es) eqn:Hall); intros Hc; simplify_eq/=; try done.
  rewrite length_fmap. split_and!; [constructor; [by eexists|]|by repeat econstructor|done|done].
  revert Hall. clear. induction es as [|e es IH]; [done|].
  simpl. intros [He Hes]%andb_true_iff. constructor; [by apply bool_decide_eq_true in He|auto].
Qed.

(** the list returned with an error is not the list of unsent messages.
    With a client behaving as documented, SendMessageBatch can fail with a
    message that is neither in the queue nor among the returned messages: the
    returned suffix starts at the number of successes, but the messages that
    failed within a batch need not be the last ones. *)
Theorem SendMessageBatch_unsent_not_returned :
  SqsClient flaky (λ w, w.1.2) snd ∧
  ∃ all r left e x,
    @SendMessageBatch _ flaky (bounded_backoff 3) (false, [], []) all = Ret (r, left, Some e) ∧
    x ∈ all ∧ x ∉ left ∧ x ∉ (world r).1.2.
Proof.
  split; [apply flaky_ok|].
  set (a := {| Id := Some "a"; MessageBody := Some "first"; DelaySeconds := None |}).
  set (b := {| Id := Some "b"; MessageBody := Some "second"; DelaySeconds := None |}).
  exists [a; b]. eexists _, _, _, a. split; [vm_compute; reflexivity|].
  split; [left|]. split; apply (bool_decide_unpack _); vm_compute; exact I.
Qed.
