(* ===== verification/GoTime.v ===== *)
(** * Go's time.Time in UTC

    A time is the number of nanoseconds since the zero time
    0001-01-01T00:00:00Z.  The calendar functions follow the Go standard
    library ([absDate], [Date]); all dates of the program are UTC.  Years are
    not wrapped to a machine width. *)

From S2P Require Import Prelude.

Local Open Scope Z_scope.

#[local] Ltac Zify.zify_post_hook ::= Z.to_euclidean_division_equations.

Notation Time := Z (only parsing).

Definition Nanosecond : Z := 1.
Definition Second : Z := 1000000000.
Definition Hour : Z := 3600 * Second.
Definition Day24 : Z := 24 * Hour.

(** [t.Truncate(d)] rounds down to a multiple of [d] since the zero time *)
Definition Truncate (t : Time) (d : Z) : Time := t - t mod d.

Definition After (t u : Time) : bool := u <? t.
Definition Before (t u : Time) : bool := t <? u.

(** Unix time in seconds, 719162 days after the zero time *)
Definition unixToInternal : Z := 719162 * 86400.
Definition Unix (sec : Z) : Time := (sec + unixToInternal) * Second.
Definition ToUnix (t : Time) : Z := t / Second - unixToInternal.

(** ** Calendar *)

Definition isLeap (year : Z) : bool :=
  (year mod 4 =? 0) && (negb (year mod 100 =? 0) || (year mod 400 =? 0)).

(** years elapsed since year 1 and day within the year, as in [absDate] *)
Definition year_yday (days : Z) : Z * Z :=
  let n400 := days / 146097 in
  let d := days - 146097 * n400 in
  let c := d / 36524 in
  let n100 := c - c / 4 in
  let d := d - 36524 * n100 in
  let n4 := d / 1461 in
  let d := d - 1461 * n4 in
  let c := d / 365 in
  let n1 := c - c / 4 in
  (400 * n400 + 100 * n100 + 4 * n4 + n1, d - 365 * n1).

(** days before each month of a common year *)
Definition daysBefore (month : Z) : Z :=
  nth (Z.to_nat month) [0; 31; 59; 90; 120; 151; 181; 212; 243; 273; 304; 334; 365] 365.

(** month (1-12) and day of month, as in [absDate] *)
Definition month_day (leap : bool) (yday : Z) : Z * Z :=
  if leap && (yday =? 59) then (2, 29)
  else
    let day := if leap && (59 <? yday) then yday - 1 else yday in
    let month := day / 31 in
    let stop := daysBefore (month + 1) in
    if stop <=? day then (month + 2, day - stop + 1)
    else (month + 1, day - daysBefore month + 1).

Definition days_of (t : Time) : Z := t / Day24.

Definition Year (t : Time) : Z := (year_yday (days_of t)).1 + 1.
Definition month_day_of (t : Time) : Z * Z :=
  month_day (isLeap (Year t)) (year_yday (days_of t)).2.
Definition Month (t : Time) : Z := (month_day_of t).1.
Definition Day (t : Time) : Z := (month_day_of t).2.
Definition HourOf (t : Time) : Z := (t mod Day24) / Hour.

(** days before the first of January of the year [y] years after year 1 *)
Definition daysBeforeYear (y : Z) : Z := 365 * y + y / 4 - y / 100 + y / 400.

(** [time.Date(year, month, day, hour, 0, 0, 0, time.UTC)], months out of
    range being carried into the year *)
Definition Date (year month day hour : Z) : Time :=
  let m := month - 1 in
  let year := year + m / 12 in
  let m := m mod 12 in
  let d := daysBeforeYear (year - 1) + daysBefore m
           + (if isLeap year && (2 <=? m) then 1 else 0) + (day - 1) in
  d * Day24 + hour * Hour.

(** ** Truncation *)

Lemma Truncate_le t d : 0 < d → Truncate t d ≤ t < Truncate t d + d.
Proof. unfold Truncate. intros Hd. pose proof (Z.mod_pos_bound t d Hd). lia. Qed.

Lemma Truncate_mul t d : 0 < d → Truncate t d = d * (t / d).
Proof. unfold Truncate. intros Hd. pose proof (Z.div_mod t d). lia. Qed.

Lemma Truncate_idemp t d : 0 < d → Truncate (Truncate t d) d = Truncate t d.
Proof.
  intros Hd. rewrite (Truncate_mul t d Hd) at 1. unfold Truncate at 1.
  rewrite Z.mul_comm, Z.mod_mul, Z.mul_comm, <-Truncate_mul by lia. lia.
Qed.

(** ** Years *)

Lemma year_yday_spec days :
  let '(y, yd) := year_yday days in
  days = daysBeforeYear y + yd ∧ 0 ≤ yd < daysBeforeYear (y + 1) - daysBeforeYear y.
Proof.
  unfold year_yday, daysBeforeYear.
  remember (days / 146097) as n400 eqn:E400.
  remember (days - 146097 * n400) as d1 eqn:Ed1.
  assert (0 ≤ d1 < 146097) as Hd1 by lia. clear E400.
  remember (d1 / 36524 - d1 / 36524 / 4) as n100 eqn:E100.
  remember (d1 - 36524 * n100) as d2 eqn:Ed2.
  assert (0 ≤ n100 ≤ 3 ∧ 0 ≤ d2 ∧ (d2 < 36524 ∨ (n100 = 3 ∧ d2 < 36525))) as H100 by lia.
  clear E100.
  remember (d2 / 1461) as n4 eqn:E4.
  remember (d2 - 1461 * n4) as d3 eqn:Ed3.
  assert (0 ≤ n4 ≤ 24 ∧ 0 ≤ d3 < 1461 ∧ (n4 = 24 → n100 = 3 ∨ d3 < 1460)) as H4 by lia.
  clear E4.
  remember (d3 / 365 - d3 / 365 / 4) as n1 eqn:E1.
  assert (0 ≤ n1 ≤ 3 ∧ 0 ≤ d3 - 365 * n1 ∧
    (d3 - 365 * n1 < 365 ∨ (n1 = 3 ∧ d3 - 365 * n1 < 366))) as H1 by lia.
  clear E1.
  remember (400 * n400 + 100 * n100 + 4 * n4 + n1) as y eqn:Ey.
  assert (y / 4 = 100 * n400 + 25 * n100 + n4) as -> by lia.
  assert (y / 100 = 4 * n400 + n100) as -> by lia.
  assert (y / 400 = n400) as -> by lia.
  split; [lia|].
  assert ((y + 1) / 4 = 100 * n400 + 25 * n100 + n4 + if decide (n1 = 3) then 1 else 0) as ->
    by (case_decide; lia).
  assert ((y + 1) / 100 = 4 * n400 + n100 + if decide (n1 = 3 ∧ n4 = 24) then 1 else 0) as ->
    by (case_decide; lia).
  assert ((y + 1) / 400 = n400 + if decide (n1 = 3 ∧ n4 = 24 ∧ n100 = 3) then 1 else 0) as ->
    by (case_decide; lia).
  repeat case_decide; lia.
Qed.

Definition yearLen (leap : bool) : Z := if leap then 366 else 365.

Lemma yearLen_range b : 365 ≤ yearLen b ≤ 366.
Proof. destruct b; simpl; lia. Qed.

Lemma daysBeforeYear_succ y :
  daysBeforeYear (y + 1) - daysBeforeYear y = yearLen (isLeap (y + 1)).
Proof.
  unfold daysBeforeYear, yearLen, isLeap.
  destruct ((y + 1) mod 4 =? 0) eqn:H4, ((y + 1) mod 100 =? 0) eqn:H100,
    ((y + 1) mod 400 =? 0) eqn:H400; simpl; lia.
Qed.

Lemma year_yday_bounds days :
  let '(y, yd) := year_yday days in
  days = daysBeforeYear y + yd ∧ 0 ≤ yd < yearLen (isLeap (y + 1)).
Proof.
  pose proof (year_yday_spec days) as H. destruct (year_yday days) as [y yd].
  by rewrite daysBeforeYear_succ in H.
Qed.

Lemma daysBeforeYear_mono y y' : y ≤ y' → daysBeforeYear y ≤ daysBeforeYear y'.
Proof. unfold daysBeforeYear. intros. lia. Qed.

(** the decomposition of a day number is unique *)
Lemma year_yday_unique days y yd :
  days = daysBeforeYear y + yd → 0 ≤ yd < yearLen (isLeap (y + 1)) → year_yday days = (y, yd).
Proof.
  intros Hd Hyd. pose proof (year_yday_bounds days) as H.
  destruct (year_yday days) as [y' yd']. destruct H as [Hd' Hyd'].
  rewrite <-daysBeforeYear_succ in Hyd, Hyd'.
  assert (y' = y) as ->.
  { destruct (Z.lt_total y' y) as [Hlt|[?|Hlt]]; [|done|].
    - pose proof (daysBeforeYear_mono (y' + 1) y). lia.
    - pose proof (daysBeforeYear_mono (y + 1) y'). lia. }
  f_equal. lia.
Qed.

(** ** Months: facts checked on every day of a common and of a leap year *)

Definition month_step_ok (leap : bool) (yd : Z) : bool :=
  let '(m, d) := month_day leap yd in
  let '(m', d') := month_day leap (yd + 1) in
  (1 <=? m) && (m <=? 12) && (1 <=? d) && (d <=? 31) &&
  (daysBefore (m - 1) + (if leap && (2 <=? m - 1) then 1 else 0) + (d - 1) =? yd) &&
  ((yd + 1 =? yearLen leap) || ((m' =? m) && (d' =? d + 1)) || ((m' =? m + 1) && (d' =? 1))) &&
  (negb (yd + 1 =? yearLen leap) || (m =? 12)).

Definition year_ok (leap : bool) : bool :=
  forallb (λ n, month_step_ok leap (Z.of_nat n)) (seq 0 (Z.to_nat (yearLen leap))).

Lemma year_ok_all leap : year_ok leap = true.
Proof. destruct leap; vm_compute; reflexivity. Qed.

Lemma month_step leap yd : 0 ≤ yd < yearLen leap → month_step_ok leap yd = true.
Proof.
  intros Hyd. pose proof (year_ok_all leap) as H. unfold year_ok in H.
  rewrite forallb_forall in H. rewrite <-(Z2Nat.id yd) by lia. apply H.
  apply in_seq. destruct leap; simpl in *; lia.
Qed.

(** the calendar date of a day number *)
Definition civil (days : Z) : Z * Z * Z :=
  let '(y, yd) := year_yday days in
  let '(m, d) := month_day (isLeap (y + 1)) yd in
  (y + 1, m, d).

Lemma civil_of t : (Year t, Month t, Day t) = civil (days_of t).
Proof.
  unfold civil, Month, Day, month_day_of, Year. destruct (year_yday (days_of t)) as [y yd].
  simpl. by destruct (month_day _ _).
Qed.

Lemma civil_range days y m d : civil days = (y, m, d) → 1 ≤ m ≤ 12 ∧ 1 ≤ d ≤ 31.
Proof.
  unfold civil. pose proof (year_yday_bounds days) as H.
  destruct (year_yday days) as [y0 yd]. destruct H as [_ Hyd].
  pose proof (month_step _ _ Hyd) as Hs. unfold month_step_ok in Hs.
  destruct (month_day _ yd) as [m0 d0], (month_day _ (yd + 1)) as [m1 d1].
  intros ?; simplify_eq. rewrite !andb_true_iff in Hs. lia.
Qed.

(** the next day is in the same month, or is the first of another month *)
Lemma civil_succ days y m d :
  civil days = (y, m, d) →
  civil (days + 1) = (y, m, d + 1) ∨
  ∃ y' m', civil (days + 1) = (y', m', 1) ∧
    ((y' = y ∧ m' = m + 1) ∨ (y' = y + 1 ∧ m = 12 ∧ m' = 1)).
Proof.
  unfold civil. pose proof (year_yday_bounds days) as H.
  destruct (year_yday days) as [y0 yd] eqn:Hy. destruct H as [Hd Hyd].
  pose proof (month_step _ _ Hyd) as Hs. unfold month_step_ok in Hs.
  destruct (month_day _ yd) as [m0 d0] eqn:Hm. intros ?; simplify_eq.
  destruct (decide (yd + 1 = yearLen (isLeap (y0 + 1)))) as [Hlast|Hlast].
  - right. rewrite (year_yday_unique (daysBeforeYear y0 + yd + 1) (y0 + 1) 0).
    + assert (month_day (isLeap (y0 + 1 + 1)) 0 = (1, 1)) as ->
      by (destruct (isLeap (y0 + 1 + 1)); vm_compute; reflexivity).
      destruct (month_day _ (yd + 1)). rewrite !andb_true_iff, !orb_true_iff in Hs.
      exists (y0 + 1 + 1), 1. split; [done|]. right. rewrite Hlast, Z.eqb_refl in Hs. simpl in Hs. lia.
    + pose proof (daysBeforeYear_succ y0). lia.
    + pose proof (yearLen_range (isLeap (y0 + 1 + 1))). lia.
  - rewrite (year_yday_unique (daysBeforeYear y0 + yd + 1) y0 (yd + 1)) by lia.
    destruct (month_day _ (yd + 1)) as [m1 d1].
    rewrite !andb_true_iff, !orb_true_iff, !andb_true_iff in Hs.
    assert ((m1 = m ∧ d1 = d + 1) ∨ (m1 = m + 1 ∧ d1 = 1)) as [[-> ->]|[-> ->]] by lia;
      [by left|right; eauto 10].
Qed.

(** ** time.Date inverts the calendar *)

Lemma Date_civil days y m d h : civil days = (y, m, d) → Date y m d h = days * Day24 + h * Hour.
Proof.
  unfold civil, Date. pose proof (year_yday_bounds days) as H.
  destruct (year_yday days) as [y0 yd]. destruct H as [Hd Hyd].
  pose proof (month_step _ _ Hyd) as Hs. unfold month_step_ok in Hs.
  destruct (month_day _ yd) as [m0 d0], (month_day _ (yd + 1)) as [m1 d1].
  intros ?; simplify_eq. rewrite !andb_true_iff in Hs.
  assert ((m - 1) / 12 = 0 ∧ (m - 1) mod 12 = m - 1) as [-> ->] by lia.
  replace (y0 + 1 + 0) with (y0 + 1) by lia. replace (y0 + 1 - 1) with y0 by lia.
  f_equal. f_equal. lia.
Qed.

Lemma Date_of_time t : Date (Year t) (Month t) (Day t) (HourOf t) = Truncate t Hour.
Proof.
  pose proof (civil_of t) as Hc. symmetry in Hc. rewrite (Date_civil _ _ _ _ _ Hc).
  unfold days_of, HourOf, Truncate, Day24, Hour, Second. lia.
Qed.

Lemma HourOf_range t : 0 ≤ HourOf t < 24.
Proof. unfold HourOf, Day24, Hour, Second. lia. Qed.
