(* ===== verification/Glue.v ===== *)
(** * pkg/awsglue: time bins, partition paths and Glue table metadata *)

From S2P Require Import Prelude GoTime.

Local Open Scope Z_scope.

(** [models.DataType] *)
Definition DataType := string.
Definition LogData : DataType := "LogData".
Definition RuleData : DataType := "RuleMatches".

Definition logS3Prefix : string := "logs".
Definition ruleMatchS3Prefix : string := "rules".
Definition LogProcessingDatabaseName : string := "panther_logs".
Definition RuleMatchDatabaseName : string := "panther_rule_matches".

(** ** glue_timebin.go *)

Definition GlueTableTimebin := Z.
Definition GlueTableMonthly : GlueTableTimebin := 1.
Definition GlueTableDaily : GlueTableTimebin := 2.
Definition GlueTableHourly : GlueTableTimebin := 3.

Definition Validate (tb : GlueTableTimebin) : option error :=
  if decide (tb = GlueTableHourly ∨ tb = GlueTableDaily ∨ tb = GlueTableMonthly) then None
  else Some (ErrMsg ("unknown GlueTableMetadata table time bin: " +:+ itoa tb)).

(** a day at a time until the month changes *)
Fixpoint next_month_loop (fuel : nat) (currentMonth : Z) (next : Time) : Time :=
  match fuel with
  | O => next
  | S fuel =>
      if decide (Month next = currentMonth)
      then next_month_loop fuel currentMonth (next + Day24)
      else next
  end.

(** 32 rounds: no month has more than 31 days *)
Definition Next (tb : GlueTableTimebin) (t : Time) : outcome Time :=
  if decide (tb = GlueTableHourly) then Ret (Truncate (t + Hour) Hour)
  else if decide (tb = GlueTableDaily) then Ret (Truncate (t + Day24) Day24)
  else if decide (tb = GlueTableMonthly) then
    Ret (next_month_loop 32 (Month t) (Truncate (t + Day24) Day24))
  else Panic ("unknown GlueTableMetadata table time bin: " +:+ itoa tb).

(** ** glue.go *)

(** the prefix of the table in S3 *)
Definition getTablePrefix (dataType : DataType) (tableName : string) : string :=
  if decide (dataType = LogData) then logS3Prefix +:+ "/" +:+ tableName +:+ "/"
  else ruleMatchS3Prefix +:+ "/" +:+ tableName +:+ "/".

Definition getDatabase (dataType : DataType) : string :=
  if decide (dataType = LogData) then LogProcessingDatabaseName else RuleMatchDatabaseName.

(** clean table name to make sql friendly *)
Definition GetTableName (logType : string) : string :=
  to_lower (replace_byte "." "_" logType).

Record PartitionKey := { pkName : string; pkType : string }.

Record GlueTableMetadata := {
  databaseName : string;
  tableName : string;
  description : string;
  logType : string;
  prefix : string;
  timebin : GlueTableTimebin;
}.

Definition NewGlueTableMetadata (datatype : DataType) (logType logDescription : string)
    (timebin : GlueTableTimebin) : GlueTableMetadata :=
  let tableName := GetTableName logType in
  let tablePrefix := getTablePrefix datatype tableName in
  {| databaseName := getDatabase datatype; tableName := tableName;
     description := logDescription; timebin := timebin; logType := logType;
     prefix := tablePrefix |}.

Definition PartitionKeys (gm : GlueTableMetadata) : list PartitionKey :=
  [{| pkName := "year"; pkType := "int" |}]
  ++ (if decide (GlueTableMonthly ≤ timebin gm) then [{| pkName := "month"; pkType := "int" |}] else [])
  ++ (if decide (GlueTableDaily ≤ timebin gm) then [{| pkName := "day"; pkType := "int" |}] else [])
  ++ (if decide (GlueTableHourly ≤ timebin gm) then [{| pkName := "hour"; pkType := "int" |}] else []).

(** [partitionValues]: the values used in the Glue APIs *)
Definition partitionValues (tb : GlueTableTimebin) (t : Time) : list string :=
  [itoa (Year t)]
  ++ (if decide (GlueTableMonthly ≤ tb) then [pad02 (Month t)] else [])
  ++ (if decide (GlueTableDaily ≤ tb) then [pad02 (Day t)] else [])
  ++ (if decide (GlueTableHourly ≤ tb) then [pad02 (HourOf t)] else []).

(** ** partition.go *)

(** an S3 prefix for objects of this table *)
Definition getTimePartitionPrefix (tb : GlueTableTimebin) (t : Time) : string :=
  if decide (tb = GlueTableHourly) then
    "year=" +:+ itoa (Year t) +:+ "/month=" +:+ pad02 (Month t)
    +:+ "/day=" +:+ pad02 (Day t) +:+ "/hour=" +:+ pad02 (HourOf t) +:+ "/"
  else if decide (tb = GlueTableDaily) then
    "year=" +:+ itoa (Year t) +:+ "/month=" +:+ pad02 (Month t)
    +:+ "/day=" +:+ pad02 (Day t) +:+ "/"
  else "year=" +:+ itoa (Year t) +:+ "/month=" +:+ pad02 (Month t) +:+ "/".

Definition GetPartitionPrefix (datatype : DataType) (logType : string)
    (tb : GlueTableTimebin) (t : Time) : string :=
  let tableName := GetTableName logType in
  let tablePrefix := getTablePrefix datatype tableName in
  tablePrefix +:+ getTimePartitionPrefix tb t.

(** [gm.GetPartitionPrefix(t)] *)
Definition gm_GetPartitionPrefix (gm : GlueTableMetadata) (t : Time) : string :=
  prefix gm +:+ getTimePartitionPrefix (timebin gm) t.

Record PartitionColumnInfo := { colKey : string; colValue : string }.

(** [hour] is the zero time until the hour is known *)
Record GluePartition := {
  datatype : DataType;
  gpDatabaseName : string;
  gpTableName : string;
  s3Bucket : string;
  dataFormat : string;
  compression : string;
  hour : Time;
  partitionColumns : list PartitionColumnInfo;
}.

Fixpoint column_path (cols : list PartitionColumnInfo) : string :=
  match cols with
  | [] => ""
  | c :: cols' => colKey c +:+ "=" +:+ colValue c +:+ "/" +:+ column_path cols'
  end.

Definition GetPartitionLocation (gp : GluePartition) : string :=
  let tablePrefix := getTablePrefix (datatype gp) (gpTableName gp) in
  "s3://" +:+ s3Bucket gp +:+ "/" +:+ tablePrefix +:+ column_path (partitionColumns gp).

Definition inferPartitionColumnInfo (input partitionName : string) : result PartitionColumnInfo :=
  match split_on "=" input with
  | [f0; f1] =>
      if decide (f0 = partitionName) then
        match atoi f1 with
        | Err e => Err (ErrWrap ("failed to parse to integer " +:+ f1) e)
        | Ok _ => Ok {| colKey := partitionName; colValue := f1 |}
        end
      else Err (ErrMsg ("failed to get partition key " +:+ partitionName +:+ " from " +:+ input))
  | _ => Err (ErrMsg ("failed to get partition key " +:+ partitionName +:+ " from " +:+ input))
  end.

Definition with_columns (gp : GluePartition) (cols : list PartitionColumnInfo) : GluePartition :=
  {| datatype := datatype gp; gpDatabaseName := gpDatabaseName gp; gpTableName := gpTableName gp;
     s3Bucket := s3Bucket gp; dataFormat := dataFormat gp; compression := compression gp;
     hour := hour gp; partitionColumns := cols |}.

Definition with_hour (gp : GluePartition) (h : Time) : GluePartition :=
  {| datatype := datatype gp; gpDatabaseName := gpDatabaseName gp; gpTableName := gpTableName gp;
     s3Bucket := s3Bucket gp; dataFormat := dataFormat gp; compression := compression gp;
     hour := h; partitionColumns := partitionColumns gp |}.

(** the columns after year and month: an unparsable day or hour ends the
    parse without an error *)
Definition parse_day_hour (partition : GluePartition) (s3Keys : list string)
    (year month : PartitionColumnInfo) : GluePartition :=
  let partition := with_columns partition [year; month] in
  match drop 4 s3Keys with
  | [] => partition
  | dayKey :: rest =>
      match inferPartitionColumnInfo dayKey "day" with
      | Err _ => partition
      | Ok day =>
          let partition := with_columns partition [year; month; day] in
          match rest with
          | [] => partition
          | hourKey :: _ =>
              match inferPartitionColumnInfo hourKey "hour" with
              | Err _ => partition
              | Ok hour =>
                  let partition := with_columns partition [year; month; day; hour] in
                  match atoi (colValue year), atoi (colValue month),
                        atoi (colValue day), atoi (colValue hour) with
                  | Ok y, Ok m, Ok d, Ok h => with_hour partition (Date y m d h)
                  | _, _, _, _ => partition
                  end
              end
          end
      end
  end.

Definition GetPartitionFromS3 (s3Bucket s3ObjectKey : string) : result GluePartition :=
  if has_suffix ".json.gz" s3ObjectKey then
    match split_on "/" s3ObjectKey with
    | k0 :: k1 :: k2 :: k3 :: rest =>
        let mk db dt :=
          {| datatype := dt; gpDatabaseName := db; gpTableName := k1; s3Bucket := s3Bucket;
             dataFormat := "json"; compression := "gzip"; hour := 0; partitionColumns := [] |} in
        partition ←
          (if decide (k0 = logS3Prefix) then Ok (mk LogProcessingDatabaseName LogData)
           else if decide (k0 = ruleMatchS3Prefix) then Ok (mk RuleMatchDatabaseName RuleData)
           else Err (ErrMsg ("unsupported S3 object prefix " +:+ k0)));
        year ← inferPartitionColumnInfo k2 "year";
        month ← inferPartitionColumnInfo k3 "month";
        Ok (parse_day_hour partition (k0 :: k1 :: k2 :: k3 :: rest) year month)
    | _ => Err (ErrMsg ("s3 object key [" +:+ s3ObjectKey +:+ "] doesn't have the appropriate format"))
    end
  else Err (ErrMsg "currently only GZIP json is supported").

(** ** Time bins *)

#[local] Ltac Zify.zify_post_hook ::= Z.to_euclidean_division_equations.

Definition valid_timebin (tb : GlueTableTimebin) : Prop :=
  tb = GlueTableHourly ∨ tb = GlueTableDaily ∨ tb = GlueTableMonthly.

(** the calendar fields a partition is named after *)
Definition bin_key (tb : GlueTableTimebin) (t : Time) : list Z :=
  if decide (tb = GlueTableHourly) then [Year t; Month t; Day t; HourOf t]
  else if decide (tb = GlueTableDaily) then [Year t; Month t; Day t]
  else [Year t; Month t].

Lemma civil_inj d1 d2 : civil d1 = civil d2 → d1 = d2.
Proof.
  destruct (civil d1) as [[y m] d] eqn:H1. intros H2. symmetry in H2.
  pose proof (Date_civil _ _ _ _ 0 H1) as E. rewrite (Date_civil _ _ _ _ 0 H2) in E.
  unfold Day24, Hour, Second in E. lia.
Qed.

Lemma civil_fields t y m d :
  civil (days_of t) = (y, m, d) → Year t = y ∧ Month t = m ∧ Day t = d.
Proof. rewrite <-civil_of. intros ?; simplify_eq. done. Qed.

Lemma same_days t t' :
  days_of t = days_of t' → Year t = Year t' ∧ Month t = Month t' ∧ Day t = Day t'.
Proof. intros H. apply civil_fields. by rewrite H, civil_of. Qed.

Lemma month_range t : 1 ≤ Month t ≤ 12 ∧ 1 ≤ Day t ≤ 31.
Proof. eapply civil_range. symmetry. apply civil_of. Qed.

Lemma pad02_inj a b : 0 ≤ a < two63 → 0 ≤ b < two63 → pad02 a = pad02 b → a = b.
Proof.
  intros Ha Hb H. pose proof (atoi_pad02 a Ha) as E. rewrite H, (atoi_pad02 b Hb) in E. congruence.
Qed.

(** partition values name the calendar fields faithfully *)
Lemma partitionValues_inj tb t t' :
  valid_timebin tb → partitionValues tb t = partitionValues tb t' ↔ bin_key tb t = bin_key tb t'.
Proof.
  intros Htb. pose proof (month_range t). pose proof (month_range t').
  pose proof (HourOf_range t). pose proof (HourOf_range t').
  unfold partitionValues, bin_key.
  generalize dependent (HourOf t'). generalize dependent (HourOf t).
  generalize dependent (Day t'). generalize dependent (Day t).
  generalize dependent (Month t'). generalize dependent (Month t).
  generalize (Year t') (Year t). intros.
  destruct Htb as [-> | [-> | ->]]; unfold GlueTableHourly, GlueTableDaily, GlueTableMonthly;
    repeat (rewrite decide_True by lia || rewrite decide_False by lia); simpl;
    (split; intros Hinj; [injection Hinj; clear Hinj; intros|by injection Hinj as; congruence]);
    repeat match goal with
    | H : itoa _ = itoa _ |- _ => apply (inj pretty) in H
    | H : pad02 _ = pad02 _ |- _ => apply pad02_inj in H; [|unfold two63; lia..]
    end; congruence.
Qed.

Lemma next_month_loop_spec y cm dd fuel d :
  civil (d - 1) = (y, cm, dd) → (31 < Z.of_nat fuel + dd) →
  ∃ d', next_month_loop fuel cm (d * Day24) = d' * Day24 ∧ d ≤ d' ∧
    (∃ y' m', civil d' = (y', m', 1) ∧ m' ≠ cm) ∧
    ∀ k, d ≤ k < d' → ∃ kd, civil k = (y, cm, kd).
Proof.
  revert dd d. induction fuel as [|fuel IH]; intros dd d Hc Hf.
  { pose proof (civil_range _ _ _ _ Hc). lia. }
  cbn [next_month_loop].
  assert (Month (d * Day24) = (civil d).1.2) as HM.
  { assert (days_of (d * Day24) = d) as Hd by (unfold days_of, Day24, Hour, Second; lia).
    pose proof (civil_of (d * Day24)) as Hco. rewrite Hd in Hco. by rewrite <-Hco. }
  pose proof (civil_range _ _ _ _ Hc).
  destruct (civil_succ _ _ _ _ Hc) as [Hs|(y'&m'&Hs&Hm)];
    replace (d - 1 + 1) with d in Hs by lia; rewrite HM, Hs; simpl.
  - rewrite decide_True by done. replace (d * Day24 + Day24) with ((d + 1) * Day24) by lia.
    destruct (IH (dd + 1) (d + 1)) as (d'&Hn&Hle&Hfirst&Hsame); [by replace (d + 1 - 1) with d by lia|lia|].
    exists d'. split_and!; [done|lia|done|]. intros k Hk.
    destruct (decide (k = d)) as [->|]; [eauto|]. apply Hsame. lia.
  - rewrite decide_False by lia. exists d. split_and!; [done|lia| |intros k ?; lia].
    exists y', m'. split; [done|]. lia.
Qed.

(** Next moves to the start of the following partition: the result is
    later than [t], every instant from [t] up to it has the partition values
    of [t], and it has different ones.  Stepping with Next therefore visits
    every partition exactly once, and the month loop ends within 32 days. *)
Theorem Next_correct tb t :
  valid_timebin tb →
  ∃ n, Next tb t = Ret n ∧ t < n ∧
    (∀ t', t ≤ t' < n → partitionValues tb t' = partitionValues tb t) ∧
    partitionValues tb n ≠ partitionValues tb t ∧
    Truncate n (if decide (tb = GlueTableHourly) then Hour else Day24) = n.
Proof.
  intros Htb. setoid_rewrite partitionValues_inj; [|done..].
  unfold Next, bin_key. destruct Htb as [-> | [-> | ->]];
    unfold GlueTableHourly, GlueTableDaily, GlueTableMonthly;
    repeat (rewrite decide_True by lia || rewrite decide_False by lia).
  - eexists. split; [done|]. set (n := Truncate (t + Hour) Hour).
    assert (n / Hour = t / Hour + 1 ∧ t < n) as [Hn Hlt]
      by (unfold n, Truncate, Hour, Second; lia).
    assert (∀ t', t ≤ t' < n → t' / Hour = t / Hour) as Hsame
      by (unfold n, Truncate, Hour, Second; lia).
    split_and!; [done| | |apply Truncate_idemp; unfold Hour, Second; lia].
    + intros t' Ht'. specialize (Hsame _ Ht').
      destruct (same_days t' t) as (->&->&->);
        [unfold days_of, Day24, Hour, Second in *; lia|].
      do 4 f_equal. unfold HourOf, Day24, Hour, Second in *. lia.
    + intros Hinj. injection Hinj as Hy Hm Hd Hh.
      pose proof (Date_of_time n) as E. rewrite Hy, Hm, Hd, Hh, Date_of_time in E.
      unfold Truncate, Hour, Second in *. lia.
  - eexists. split; [done|].
    assert (days_of (Truncate (t + Day24) Day24) = days_of t + 1) as Hd
      by (unfold Truncate, days_of, Day24, Hour, Second; lia).
    split_and!.
    + unfold Truncate, Day24, Hour, Second; lia.
    + intros t' Ht'. destruct (same_days t' t) as (->&->&->); [|done].
      unfold Truncate, days_of, Day24, Hour, Second in *; lia.
    + intros Hinj. injection Hinj as Hy Hm Hdd.
      assert (civil (days_of (Truncate (t + Day24) Day24)) = civil (days_of t)) as E%civil_inj
        by (rewrite <-!civil_of; congruence). lia.
    + apply Truncate_idemp. unfold Day24, Hour, Second; lia.
  - destruct (civil (days_of t)) as [[y m] dd] eqn:Hc.
    destruct (civil_fields _ _ _ _ Hc) as (Hy&Hm&_).
    replace (Truncate (t + Day24) Day24) with ((days_of t + 1) * Day24)
      by (unfold Truncate, days_of, Day24, Hour, Second; lia).
    destruct (next_month_loop_spec y (Month t) dd 32 (days_of t + 1))
      as (d'&Hn&Hle&(y'&m'&Hc'&Hne)&Hsame).
    { replace (days_of t + 1 - 1) with (days_of t) by lia. congruence. }
    { pose proof (civil_range _ _ _ _ Hc). lia. }
    rewrite Hn. eexists. split; [done|].
    assert (days_of (d' * Day24) = d') as Hd' by (unfold days_of, Day24, Hour, Second; lia).
    split_and!.
    + unfold days_of, Day24, Hour, Second in *; lia.
    + intros t' Ht'. assert (days_of t ≤ days_of t' < d') as Hr
        by (unfold days_of, Day24, Hour, Second in *; lia).
      destruct (decide (days_of t' = days_of t)) as [E|E].
      * by destruct (same_days _ _ E) as (->&->&_).
      * destruct (Hsame (days_of t')) as [kd Hk]; [lia|].
        destruct (civil_fields _ _ _ _ Hk) as (->&->&_). rewrite !decide_False by lia. congruence.
    + intros Hinj. injection Hinj as _ Hmm. apply Hne. rewrite <-Hd' in Hc'.
      destruct (civil_fields _ _ _ _ Hc') as (_&E&_). congruence.
    + rewrite ?decide_False by lia. unfold Truncate, Day24, Hour, Second. lia.
Qed.

Lemma Next_correct_witness :
  valid_timebin GlueTableMonthly ∧
  ∃ n, Next GlueTableMonthly (Date 2020 2 10 7) = Ret n ∧ Date 2020 2 10 7 < n ∧
    (∀ t', Date 2020 2 10 7 ≤ t' < n →
      partitionValues GlueTableMonthly t' = partitionValues GlueTableMonthly (Date 2020 2 10 7)) ∧
    partitionValues GlueTableMonthly n ≠ partitionValues GlueTableMonthly (Date 2020 2 10 7) ∧
    Truncate n (if decide (GlueTableMonthly = GlueTableHourly) then Hour else Day24) = n.
Proof.
  assert (valid_timebin GlueTableMonthly) as H by (right; right; reflexivity).
  split; [exact H|]. exact (Next_correct GlueTableMonthly (Date 2020 2 10 7) H).
Defined.

(** ** Partition paths *)

(** the S3 path of a partition is made of its Glue partition keys and
    values: for every valid time bin, [getTimePartitionPrefix] is the path
    [key=value/...] of [PartitionKeys] and [partitionValues]. *)
Theorem partition_layout tb t gm :
  valid_timebin tb → timebin gm = tb →
  getTimePartitionPrefix tb t =
  column_path (zip_with (λ k v, {| colKey := pkName k; colValue := v |})
    (PartitionKeys gm) (partitionValues tb t)).
Proof.
  intros Htb Hgm. unfold getTimePartitionPrefix, PartitionKeys, partitionValues. rewrite Hgm.
  destruct Htb as [-> | [-> | ->]]; unfold GlueTableHourly, GlueTableDaily, GlueTableMonthly;
    repeat (rewrite decide_True by lia || rewrite decide_False by lia);
    generalize (itoa (Year t)) (pad02 (Month t)) (pad02 (Day t)) (pad02 (HourOf t)); intros;
    simpl; by rewrite ?string_app_nil_r.
Qed.

Definition digits (s : string) : Prop := all_bytes is_digit s = true ∧ s ≠ "".

Lemma infer_column key v z :
  contains_byte "=" key = false → digits v → atoi v = Ok z →
  inferPartitionColumnInfo (key +:+ "=" +:+ v) key = Ok {| colKey := key; colValue := v |}.
Proof.
  intros Hk [Hd _] Hz. unfold inferPartitionColumnInfo.
  change (key +:+ "=" +:+ v) with (key +:+ String "=" v).
  rewrite split_on_app, split_on_none by (done || by apply digits_no_byte).
  by rewrite decide_True, Hz by done.
Qed.

Lemma split_path s rest : contains_byte "/" s = false →
  split_on "/" (s +:+ "/" +:+ rest) = s :: split_on "/" rest.
Proof. intros Hs. exact (split_on_app "/" s rest Hs). Qed.

Lemma column_no_slash pre v :
  contains_byte "/" pre = false → digits v → contains_byte "/" (pre +:+ v) = false.
Proof.
  intros Hk [Hd _]. by rewrite contains_byte_app, Hk, (digits_no_byte "/" v) by done.
Qed.

Lemma has_suffix_app_r suf s1 s2 : has_suffix suf s2 = true → has_suffix suf (s1 +:+ s2) = true.
Proof.
  intros H. induction s1 as [|a s1 IH]; [done|]. rewrite string_app_cons. simpl.
  rewrite IH. apply orb_true_r.
Qed.

Definition col (key v : string) : PartitionColumnInfo := {| colKey := key; colValue := v |}.

(** the path components of an hourly object key *)
Lemma split_hourly_key p0 table y m d h fname :
  contains_byte "/" p0 = false → contains_byte "/" table = false →
  contains_byte "/" fname = false → digits y → digits m → digits d → digits h →
  split_on "/" ((p0 +:+ "/" +:+ table +:+ "/")
    +:+ ("year=" +:+ y +:+ "/month=" +:+ m +:+ "/day=" +:+ d +:+ "/hour=" +:+ h +:+ "/") +:+ fname) =
  [p0; table; "year=" +:+ y; "month=" +:+ m; "day=" +:+ d; "hour=" +:+ h; fname].
Proof.
  intros Hp Ht Hf Hy Hm Hd Hh. rewrite !string_app_assoc.
  rewrite (split_path p0) by done. rewrite (split_path table) by done.
  change ("/month=" +:+ ?x) with ("/" +:+ "month=" +:+ x).
  change ("/day=" +:+ ?x) with ("/" +:+ "day=" +:+ x).
  change ("/hour=" +:+ ?x) with ("/" +:+ "hour=" +:+ x).
  rewrite <-(string_app_assoc "year="), <-(string_app_assoc "month="),
    <-(string_app_assoc "day="), <-(string_app_assoc "hour=").
  rewrite !split_path by (by apply column_no_slash). by rewrite split_on_none.
Qed.

Lemma parse_hourly gp p0 table y m d h fname zy zm zd zh :
  digits d → digits h → atoi y = Ok zy → atoi m = Ok zm → atoi d = Ok zd → atoi h = Ok zh →
  parse_day_hour gp [p0; table; "year=" +:+ y; "month=" +:+ m; "day=" +:+ d; "hour=" +:+ h; fname]
    (col "year" y) (col "month" m) =
  with_hour (with_columns gp [col "year" y; col "month" m; col "day" d; col "hour" h])
    (Date zy zm zd zh).
Proof.
  intros Hd Hh Ey Em Ed Eh. unfold parse_day_hour. cbn [drop].
  change ("day=" +:+ d) with ("day" +:+ "=" +:+ d).
  change ("hour=" +:+ h) with ("hour" +:+ "=" +:+ h).
  rewrite (infer_column "day" d zd) by done. rewrite (infer_column "hour" h zh) by done.
  cbn [colValue col]. by rewrite Ey, Em, Ed, Eh.
Qed.

(** the partition that [GetPartitionFromS3] starts from *)
Definition base_partition (dt : DataType) (table bucket : string) : GluePartition :=
  {| datatype := dt; gpDatabaseName := getDatabase dt; gpTableName := table;
     s3Bucket := bucket; dataFormat := "json"; compression := "gzip"; hour := 0;
     partitionColumns := [] |}.

Lemma parse_hourly_key dt p0 table bucket key y m d h fname zy zm zd zh :
  (p0 = logS3Prefix ∧ dt = LogData) ∨ (p0 = ruleMatchS3Prefix ∧ dt = RuleData) →
  has_suffix ".json.gz" key = true →
  split_on "/" key =
    [p0; table; "year=" +:+ y; "month=" +:+ m; "day=" +:+ d; "hour=" +:+ h; fname] →
  digits y → digits m → digits d → digits h →
  atoi y = Ok zy → atoi m = Ok zm → atoi d = Ok zd → atoi h = Ok zh →
  GetPartitionFromS3 bucket key =
  Ok (with_hour (with_columns (base_partition dt table bucket)
       [col "year" y; col "month" m; col "day" d; col "hour" h]) (Date zy zm zd zh)).
Proof.
  intros Hcase Hsuf Hsplit Dy Dm Dd Dh Ey Em Ed Eh.
  unfold GetPartitionFromS3. rewrite Hsuf, Hsplit.
  pose proof (infer_column "year" y zy eq_refl Dy Ey) as Iy.
  pose proof (infer_column "month" m zm eq_refl Dm Em) as Im.
  change ("year" +:+ "=" +:+ y) with ("year=" +:+ y) in Iy.
  change ("month" +:+ "=" +:+ m) with ("month=" +:+ m) in Im.
  rewrite Iy, Im.
  destruct Hcase as [[-> ->]|[-> ->]];
    repeat (rewrite decide_True by done || rewrite decide_False by done);
    unfold mbind, result_bind; f_equal.
  - by apply (parse_hourly (base_partition LogData table bucket)).
  - by apply (parse_hourly (base_partition RuleData table bucket)).
Qed.

(** parsing a key of an hourly partition *)
Lemma parse_written_key dt table t bucket fname :
  dt = LogData ∨ dt = RuleData →
  contains_byte "/" table = false → contains_byte "/" fname = false →
  has_suffix ".json.gz" fname = true → 0 ≤ Year t < two63 →
  GetPartitionFromS3 bucket (getTablePrefix dt table +:+ getTimePartitionPrefix GlueTableHourly t +:+ fname) =
  Ok (with_hour (with_columns (base_partition dt table bucket)
       [col "year" (itoa (Year t)); col "month" (pad02 (Month t)); col "day" (pad02 (Day t)); col "hour" (pad02 (HourOf t))])
       (Truncate t Hour)).
Proof.
  intros Hdt Htab Hf Hsuf Hy.
  pose proof (month_range t) as Hmd. pose proof (HourOf_range t) as Hh.
  assert (∀ z, 0 ≤ z ≤ 31 → digits (pad02 z) ∧ atoi (pad02 z) = Ok z) as Hpad.
  { intros z Hz. split; [apply pad02_digits; lia|apply atoi_pad02; unfold two63; lia]. }
  destruct (Hpad (Month t)) as [Dm Em]; [lia|]. destruct (Hpad (Day t)) as [Dd Ed]; [lia|].
  destruct (Hpad (HourOf t)) as [Dh Eh]; [lia|].
  assert (digits (itoa (Year t))) as Dy by (apply itoa_digits; lia).
  pose proof (atoi_itoa (Year t) Hy) as Ey.
  assert (∃ p0, getTablePrefix dt table = p0 +:+ "/" +:+ table +:+ "/" ∧
    contains_byte "/" p0 = false ∧
    ((p0 = logS3Prefix ∧ dt = LogData) ∨ (p0 = ruleMatchS3Prefix ∧ dt = RuleData)))
    as (p0&Hpre&Hp0&Hcase).
  { destruct Hdt as [-> | ->]; [exists logS3Prefix|exists ruleMatchS3Prefix]; by eauto. }
  rewrite <-Date_of_time.
  apply (parse_hourly_key dt p0 table bucket _ (itoa (Year t)) (pad02 (Month t))
    (pad02 (Day t)) (pad02 (HourOf t)) fname (Year t) (Month t) (Day t) (HourOf t));
    [done|by do 2 apply has_suffix_app_r| |done..].
  unfold getTimePartitionPrefix. rewrite decide_True by done.
  rewrite Hpre. by apply split_hourly_key.
Qed.

(** the hour of a time is in the same hourly partition *)
Lemma partitionValues_hour t : partitionValues GlueTableHourly (Truncate t Hour) = partitionValues GlueTableHourly t.
Proof.
  assert (days_of (Truncate t Hour) = days_of t) as Hd by (unfold days_of, Truncate, Day24, Hour, Second; lia).
  assert (HourOf (Truncate t Hour) = HourOf t) as Hh by (unfold HourOf, Truncate, Day24, Hour, Second; lia).
  unfold partitionValues, Month, Day, month_day_of, Year. by rewrite Hd, Hh.
Qed.

(** C24: parsing the S3 key of an object written to an hourly partition gives
    back the partition: data type, database, table, the Glue partition values
    and the hour [t] falls in; and the partition's location is the key's
    directory.  (The year must be printable without a sign.) *)
Theorem GetPartitionFromS3_roundtrip dt table t bucket fname :
  dt = LogData ∨ dt = RuleData →
  contains_byte "/" table = false → contains_byte "/" fname = false →
  has_suffix ".json.gz" fname = true → 0 ≤ Year t < two63 →
  let dir := getTablePrefix dt table +:+ getTimePartitionPrefix GlueTableHourly t in
  ∃ gp, GetPartitionFromS3 bucket (dir +:+ fname) = Ok gp ∧
    datatype gp = dt ∧ gpDatabaseName gp = getDatabase dt ∧ gpTableName gp = table ∧
    s3Bucket gp = bucket ∧
    colValue <$> partitionColumns gp = partitionValues GlueTableHourly t ∧
    hour gp = Truncate t Hour ∧
    GetPartitionLocation gp = "s3://" +:+ bucket +:+ "/" +:+ dir.
Proof.
  intros Hdt Htab Hf Hsuf Hy dir. eexists. split.
  { unfold dir. rewrite string_app_assoc. by apply parse_written_key. }
  unfold dir, getTimePartitionPrefix, partitionValues. rewrite !decide_True by done.
  generalize (itoa (Year t)) (pad02 (Month t)) (pad02 (Day t)) (pad02 (HourOf t)) (Truncate t Hour).
  intros. destruct Hdt as [-> | ->]; by split_and!.
Qed.

Lemma GetPartitionFromS3_roundtrip_witness :
  let t := Date 2020 1 3 1 in
  let dir := getTablePrefix LogData "table" +:+ getTimePartitionPrefix GlueTableHourly t in
  dir = "logs/table/year=2020/month=01/day=03/hour=01/" ∧
  ∃ gp, GetPartitionFromS3 "bucket" (dir +:+ "item.json.gz") = Ok gp ∧
    datatype gp = LogData ∧ gpDatabaseName gp = getDatabase LogData ∧ gpTableName gp = "table" ∧
    s3Bucket gp = "bucket" ∧
    colValue <$> partitionColumns gp = partitionValues GlueTableHourly t ∧
    hour gp = Truncate t Hour ∧
    GetPartitionLocation gp = "s3://" +:+ "bucket" +:+ "/" +:+ dir.
Proof.
  intros t dir. split; [vm_compute; reflexivity|].
  apply (GetPartitionFromS3_roundtrip LogData "table" t "bucket" "item.json.gz");
    [left; reflexivity|reflexivity|reflexivity|reflexivity|].
  vm_compute. split; [discriminate|reflexivity].
Defined.

Lemma partition_layout_witness :
  let gm := NewGlueTableMetadata LogData "AWS.CloudTrail" "" GlueTableDaily in
  getTimePartitionPrefix GlueTableDaily 0 =
  column_path (zip_with (λ k v, {| colKey := pkName k; colValue := v |})
    (PartitionKeys gm) (partitionValues GlueTableDaily 0)).
Proof.
  intros gm. apply (partition_layout GlueTableDaily 0 gm); [right; left; reflexivity|reflexivity].
Defined.
