(* ===== verification/RowId.v ===== *)
(** * Row identifiers

    Model of src/internal/log_analysis/log_processor/parsers/rowid.go: the
    global row counter, the prefix computed at start-up and [NewRowID].  The
    clock and the network interfaces are arguments of [init]. *)

From S2P Require Import Prelude.

#[local] Open Scope Z_scope.

Definition nodeIDSize : nat := 6.
Definition rowCounterSize : nat := 8.
Definition timeOffsetSize : nat := 8.

(** ** encoding/binary.PutUvarint and encoding/hex.EncodeToString *)

(** [buf[i] = b], which panics out of range *)
Definition put_byte (buf : list Z) (i : nat) (b : Z) : outcome (list Z) :=
  if decide (i < length buf)%nat then Ret (<[i := b]> buf) else Panic "index out of range".

(** The loop of PutUvarint from index [i]; ten iterations exhaust 64 bits. *)
Fixpoint put_uvarint (fuel : nat) (buf : list Z) (i : nat) (x : Z) : outcome (list Z * nat) :=
  match fuel with
  | O => Panic "unreachable"
  | S fuel =>
      if decide (128 ≤ x) then
        buf ← put_byte buf i (Z.lor (x mod 256) 128);
        put_uvarint fuel buf (S i) (Z.shiftr x 7)
      else buf ← put_byte buf i (x mod 256); Ret (buf, S i)
  end.

Definition PutUvarint (buf : list Z) (x : Z) : outcome (list Z * nat) := put_uvarint 10 buf 0 x.

Definition hexDigit (n : Z) : ascii :=
  ascii_of_nat (Z.to_nat (if decide (n < 10) then 48 + n else 87 + n)).

Fixpoint EncodeToString (bs : list Z) : string :=
  match bs with
  | [] => ""
  | b :: bs => String (hexDigit (Z.shiftr b 4)) (String (hexDigit (Z.land b 15)) (EncodeToString bs))
  end.

(** [copy(dst, src)] *)
Definition copy (dst src : list Z) : list Z :=
  let n := Nat.min (length dst) (length src) in take n src ++ drop n dst.

(** ** Package state *)

Record pkg := { nodeID : list Z; prefix : list Z; rowCounter : Z }.

(** nanoseconds of rowEpoch, 2020-01-01, are subtracted by [Sub], which
    saturates; the conversion to uint64 wraps *)
Definition Sub (a b : Z) : Z := Z.max (- two63) (Z.min (two63 - 1) (a - b)).
Definition timeOffset (now rowEpoch : Z) : Z := uint64 (Sub now rowEpoch) / 1000.

(** net.Interfaces, in order: name and hardware address; [None] is an error *)
Definition getHardwareInterface (interfaces : option (list (string * list Z))) : string * list Z :=
  match interfaces with
  | None => ("", [])
  | Some l =>
      match list_find (λ i, (nodeIDSize ≤ length i.2)%nat) l with
      | Some (_, ifs) => ifs
      | None => ("", [])
      end
  end.

(** [noise] is what rand.Read leaves in its six-byte buffer *)
Definition init (interfaces : option (list (string * list Z))) (noise : list Z) (off : Z)
    : outcome pkg :=
  let '(ifName, addr) := getHardwareInterface interfaces in
  let zero := replicate nodeIDSize 0 in
  let node := if decide (ifName = "") then copy zero noise else copy zero addr in
  let pre := copy (replicate (nodeIDSize + timeOffsetSize) 0) node in
  r ← PutUvarint (drop nodeIDSize pre) off;
  let '(tail, timeOffsetN) := r in
  Ret {| nodeID := node; prefix := take (nodeIDSize + timeOffsetN) (take nodeIDSize pre ++ tail);
         rowCounter := 0 |}.

Definition NewRowID (s : pkg) : pkg * outcome string :=
  let newCounter := uint64 (rowCounter s + 1) in
  let s' := {| nodeID := nodeID s; prefix := prefix s; rowCounter := newCounter |} in
  let id := copy (replicate (length (prefix s) + rowCounterSize) 0) (prefix s) in
  (s', r ← PutUvarint (drop (length (prefix s)) id) newCounter;
       let '(tail, rowCounterN) := r in
       Ret (EncodeToString
              (take (length (prefix s) + rowCounterN) (take (length (prefix s)) id ++ tail)))).

(** [n] row identifiers in a row *)
Fixpoint rows (n : nat) (s : pkg) : pkg * list (outcome string) :=
  match n with
  | O => (s, [])
  | S n => let '(s1, r) := NewRowID s in let '(s2, rs) := rows n s1 in (s2, r :: rs)
  end.

(** ** Reference encoding *)

Fixpoint uvarint (n : nat) (x : Z) : list Z :=
  match n with
  | O => [x mod 256]
  | S n => if decide (128 ≤ x) then Z.lor (x mod 256) 128 :: uvarint n (Z.shiftr x 7) else [x mod 256]
  end.

#[local] Ltac Zify.zify_post_hook ::= Z.to_euclidean_division_equations.

Lemma shiftr7 x : Z.shiftr x 7 = x / 128.
Proof. by rewrite Z.shiftr_div_pow2 by lia. Qed.

Lemma add_128 y : 0 ≤ y < 128 → y + 128 = Z.lor y 128.
Proof.
  intros Hy.
  assert (Z.land y 128 = 0) as Hl.
  { apply Z.bits_inj_0. intros n. rewrite Z.land_spec.
    destruct (decide (n = 7)) as [->|Hn]; apply andb_false_iff; [left|right].
    - rewrite Z.testbit_eqb by lia. change (2 ^ 7) with 128. by rewrite Z.div_small by lia.
    - change 128 with (2 ^ 7). apply Z.pow2_bits_false. lia. }
  by rewrite <-Z.lxor_lor, Z.add_nocarry_lxor.
Qed.

(** setting the top bit of a byte *)
Lemma lor128 x : Z.lor (x mod 256) 128 = x mod 128 + 128.
Proof.
  pose proof (Z.mod_pos_bound x 128).
  assert (x mod 256 = x mod 128 ∨ x mod 256 = x mod 128 + 128) as [-> | ->] by lia.
  - by rewrite add_128 by lia.
  - by rewrite add_128, <-Z.lor_assoc, Z.lor_diag by lia.
Qed.

(** the encoding is prefix-free, hence injective *)
Lemma uvarint_inj n x y r r' :
  0 ≤ x → 0 ≤ y → x < 128 ^ Z.of_nat (S n) → y < 128 ^ Z.of_nat (S n) →
  uvarint n x ++ r = uvarint n y ++ r' → x = y ∧ r = r'.
Proof.
  revert x y. induction n as [|n IH]; intros x y Hx Hy Hx' Hy'.
  { change (128 ^ Z.of_nat 1) with 128 in *. simpl. intros [= E ->].
    rewrite !Z.mod_small in E by lia. done. }
  replace (128 ^ Z.of_nat (S (S n))) with (128 * 128 ^ Z.of_nat (S n)) in *
    by (rewrite (Nat2Z.inj_succ (S n)), Z.pow_succ_r; lia).
  simpl. rewrite !lor128, !shiftr7.
  repeat case_decide; simpl; intros [= E E']; [| lia | lia |split; [lia|done]].
  apply IH in E' as [E' ->]; [|lia..]. split; [|done]. lia.
Qed.

Lemma uvarint_length n x k :
  (0 < k)%nat → 0 ≤ x < 128 ^ Z.of_nat (S n) →
  (length (uvarint n x) ≤ k)%nat ↔ x < 128 ^ Z.of_nat k.
Proof.
  revert x k. induction n as [|n IH]; intros x k Hk Hx; simpl.
  { change (128 ^ Z.of_nat 1) with 128 in Hx. split; [intros _|lia].
    replace (Z.of_nat k) with (Z.succ (Z.of_nat (k - 1))) by lia.
    rewrite Z.pow_succ_r by lia. pose proof (Z.pow_pos_nonneg 128 (Z.of_nat (k - 1))). lia. }
  replace (Z.of_nat (S (S n))) with (Z.succ (Z.of_nat (S n))) in Hx by lia.
  rewrite Z.pow_succ_r in Hx by lia.
  replace (Z.of_nat k) with (Z.succ (Z.of_nat (k - 1))) by lia. rewrite Z.pow_succ_r by lia.
  pose proof (Z.pow_pos_nonneg 128 (Z.of_nat (k - 1))) as Hpos.
  case_decide; simpl; [|split; lia]. rewrite shiftr7.
  destruct (decide (k = 1)%nat) as [->|Hk1].
  { assert (0 < length (uvarint n (x / 128)))%nat by (destruct n; simpl; [|case_decide]; simpl; lia).
    simpl. split; lia. }
  specialize (IH (x / 128) (k - 1)%nat).
  split; intros H1.
  - assert (x / 128 < 128 ^ Z.of_nat (k - 1)) by (apply IH; lia). lia.
  - assert (length (uvarint n (x / 128)) ≤ k - 1)%nat by (apply IH; lia). lia.
Qed.

Lemma put_byte_app l c r b : put_byte (l ++ c :: r) (length l) b = Ret (l ++ b :: r).
Proof.
  unfold put_byte. rewrite decide_True by (rewrite length_app; simpl; lia).
  rewrite insert_app_r_alt by lia. by rewrite Nat.sub_diag.
Qed.

(** PutUvarint writes the reference encoding when it fits and panics otherwise *)
Lemma put_uvarint_spec n l r x :
  0 ≤ x < 128 ^ Z.of_nat (S n) →
  put_uvarint (S n) (l ++ r) (length l) x =
  if decide (length (uvarint n x) ≤ length r)%nat
  then Ret (l ++ uvarint n x ++ drop (length (uvarint n x)) r,
            (length l + length (uvarint n x))%nat)
  else Panic "index out of range".
Proof.
  revert l r x. induction n as [|n IH]; intros l r x Hx.
  - change (128 ^ Z.of_nat 1) with 128 in Hx. cbn [put_uvarint uvarint].
    rewrite (decide_False (P := 128 ≤ x)) by lia. destruct r as [|c r].
    + unfold put_byte. rewrite !decide_False by (rewrite ?length_app; simpl; lia). done.
    + rewrite put_byte_app. rewrite (decide_True (P := (_ ≤ _)%nat)) by (simpl; lia).
      cbn. by rewrite Nat.add_1_r.
  - replace (Z.of_nat (S (S n))) with (Z.succ (Z.of_nat (S n))) in Hx by lia.
    rewrite Z.pow_succ_r in Hx by lia.
    remember (S n) as m. cbn [put_uvarint uvarint]. subst m. cbn [uvarint]. destruct r as [|c r].
    + unfold put_byte. rewrite !(decide_False (P := (_ < _)%nat)) by (rewrite ?length_app; simpl; lia).
      rewrite (decide_False (P := (_ ≤ _)%nat)) by (case_decide; simpl; lia). by case_decide.
    + case_decide; rewrite put_byte_app.
      * run. rewrite shiftr7.
        pose proof (IH (l ++ [Z.lor (x mod 256) 128]) r (x / 128)) as E.
        rewrite <-app_assoc, length_app, Nat.add_1_r in E. cbn [app length] in E |- *.
        rewrite E by lia.
        repeat case_decide; try lia; [|done]. rewrite <-app_assoc. cbn.
        by rewrite Nat.add_succ_r.
      * rewrite (decide_True (P := (_ ≤ _)%nat)) by (simpl; lia). cbn. by rewrite Nat.add_1_r.
Qed.

Lemma PutUvarint_spec buf x :
  0 ≤ x < two64 → length buf = 8%nat →
  PutUvarint buf x =
  if decide (x < 2 ^ 56)
  then Ret (uvarint 9 x ++ drop (length (uvarint 9 x)) buf, length (uvarint 9 x))
  else Panic "index out of range".
Proof.
  unfold two64. intros Hx Hlen.
  assert (128 ^ Z.of_nat 10 = 1180591620717411303424) as Hp by reflexivity.
  etrans; [apply (put_uvarint_spec 9 [] buf x); lia|].
  destruct (uvarint_length 9 x 8) as [H1 H2]; [lia..|].
  change (128 ^ Z.of_nat 8) with (2 ^ 56) in H1, H2. rewrite Hlen.
  destruct (decide (x < 2 ^ 56)) as [H|H].
  - by rewrite decide_True by auto.
  - by rewrite decide_False by auto.
Qed.

(** ** Start-up *)

Lemma copy_length dst src : length (copy dst src) = length dst.
Proof. unfold copy. rewrite length_app, length_take, length_drop. lia. Qed.

Lemma copy_full (src : list Z) k : copy (replicate (length src + k) 0) src = src ++ replicate k 0.
Proof.
  unfold copy. rewrite length_replicate, Nat.min_r by lia.
  rewrite take_ge by lia. f_equal. rewrite drop_replicate. f_equal; lia.
Qed.

Definition node_of (interfaces : option (list (string * list Z))) (noise : list Z) : list Z :=
  let '(ifName, addr) := getHardwareInterface interfaces in
  copy (replicate nodeIDSize 0) (if decide (ifName = "") then noise else addr).

Lemma init_spec ifs noise off :
  0 ≤ off < 2 ^ 56 →
  init ifs noise off =
  Ret {| nodeID := node_of ifs noise; prefix := node_of ifs noise ++ uvarint 9 off; rowCounter := 0 |}.
Proof.
  intros Hoff. unfold init, node_of. destruct (getHardwareInterface ifs) as [ifName addr].
  set (node := copy _ (if decide (ifName = "") then noise else addr)).
  assert (length node = 6%nat) as Hn by (unfold node; by rewrite copy_length).
  replace (if decide (ifName = "") then copy (replicate nodeIDSize 0) noise
           else copy (replicate nodeIDSize 0) addr) with node
    by (unfold node; by case_decide).
  replace (nodeIDSize + timeOffsetSize)%nat with (length node + 8)%nat by (by rewrite Hn).
  rewrite copy_full. change nodeIDSize with 6%nat.
  rewrite drop_app_length', take_app_length' by done.
  rewrite PutUvarint_spec; [|unfold two64; lia|done]. rewrite decide_True by lia.
  run. f_equal. f_equal.
  rewrite <-Hn. by rewrite take_app_add, take_app_length.
Qed.

Lemma NewRowID_spec s :
  NewRowID s =
  let c := uint64 (rowCounter s + 1) in
  ({| nodeID := nodeID s; prefix := prefix s; rowCounter := c |},
   if decide (c < 2 ^ 56) then Ret (EncodeToString (prefix s ++ uvarint 9 c))
   else Panic "index out of range").
Proof.
  unfold NewRowID. cbn zeta. f_equal. set (c := uint64 _).
  assert (0 ≤ c < two64) as Hc by (apply Z.mod_pos_bound; unfold two64; lia).
  rewrite copy_full, drop_app_length, take_app_length.
  rewrite PutUvarint_spec by done. case_decide; [|done].
  run. by rewrite take_app_add, take_app_length.
Qed.

(** ** Uniqueness *)

Definition is_byte (b : Z) : Prop := 0 ≤ b < 256.

Lemma hexDigit_inj a b : 0 ≤ a < 16 → 0 ≤ b < 16 → hexDigit a = hexDigit b → a = b.
Proof.
  intros Ha Hb H. apply (f_equal nat_of_ascii) in H. unfold hexDigit in H.
  destruct (decide (a < 10)), (decide (b < 10));
    rewrite !nat_ascii_embedding in H by lia; lia.
Qed.

Lemma EncodeToString_inj l l' :
  Forall is_byte l → Forall is_byte l' → EncodeToString l = EncodeToString l' → l = l'.
Proof.
  intros Hl. revert l'. induction Hl as [|b l Hb Hl IH]; intros l' Hl';
    destruct Hl' as [|b' l' Hb' Hl']; simpl; try done.
  intros [= E1 E2 E3]. unfold is_byte in *. f_equal; [|by apply IH].
  apply hexDigit_inj in E1; [|rewrite Z.shiftr_div_pow2 by lia; change (2 ^ 4) with 16; lia..].
  change 15 with (Z.ones 4) in E2. rewrite !Z.land_ones in E2 by lia.
  change (2 ^ 4) with 16 in E2. apply hexDigit_inj in E2; [|lia..].
  rewrite !Z.shiftr_div_pow2 in E1 by lia. change (2 ^ 4) with 16 in E1. lia.
Qed.

Lemma uvarint_bytes n x : 0 ≤ x → Forall is_byte (uvarint n x).
Proof.
  revert x. induction n as [|n IH]; intros x Hx; simpl.
  - constructor; [unfold is_byte; lia|done].
  - case_decide; [|constructor; [unfold is_byte; lia|done]].
    constructor; [rewrite lor128; unfold is_byte; lia|]. apply IH. rewrite shiftr7. lia.
Qed.

Definition bytes_in (interfaces : option (list (string * list Z))) : Prop :=
  match interfaces with None => True | Some l => Forall (λ i, Forall is_byte i.2) l end.

Lemma node_of_bytes ifs noise :
  bytes_in ifs → Forall is_byte noise → Forall is_byte (node_of ifs noise).
Proof.
  intros Hi Hn. unfold node_of. destruct (getHardwareInterface ifs) as [ifName addr] eqn:E.
  assert (Forall is_byte addr) as Ha.
  { unfold getHardwareInterface in E. destruct ifs as [l|]; simplify_eq; [|done].
    destruct (list_find _ l) as [[i [nm a]]|] eqn:F; simplify_eq; [|done].
    apply list_find_Some in F as (F&_&_). eapply Forall_lookup_1 in F; [|exact Hi]. done. }
  unfold copy. apply Forall_app_2; [apply Forall_take; by case_decide|].
  apply Forall_drop, Forall_replicate. unfold is_byte; lia.
Qed.

Lemma node_of_length ifs noise : length (node_of ifs noise) = 6%nat.
Proof. unfold node_of. destruct (getHardwareInterface ifs). by rewrite copy_length. Qed.

(** the [k]-th identifier of a process: hex of node, time offset and counter *)
Definition row_id (node : list Z) (off : Z) (k : nat) : string :=
  EncodeToString (node ++ uvarint 9 off ++ uvarint 9 (Z.of_nat k)).

Lemma row_id_inj node off k node' off' k' :
  Forall is_byte node → Forall is_byte node' → length node = length node' →
  0 ≤ off < 2 ^ 56 → 0 ≤ off' < 2 ^ 56 → Z.of_nat k < 2 ^ 56 → Z.of_nat k' < 2 ^ 56 →
  row_id node off k = row_id node' off' k' → node = node' ∧ off = off' ∧ k = k'.
Proof.
  intros Hb Hb' Hlen Ho Ho' Hk Hk' E%EncodeToString_inj;
    [|repeat apply Forall_app_2; try done; apply uvarint_bytes; lia..].
  apply app_inj_1 in E as [-> E]; [|done].
  apply uvarint_inj in E as [-> E]; [|simpl; lia..].
  rewrite <-(app_nil_r (uvarint 9 (Z.of_nat k))), <-(app_nil_r (uvarint 9 (Z.of_nat k'))) in E.
  apply uvarint_inj in E as [E _]; [|simpl; lia..]. split_and!; [done..|lia].
Qed.

Lemma rows_spec n node off c :
  Z.of_nat (c + n) < 2 ^ 56 →
  (rows n {| nodeID := node; prefix := node ++ uvarint 9 off; rowCounter := Z.of_nat c |}).2 =
  (λ k, Ret (row_id node off k)) <$> seq (S c) n.
Proof.
  revert c. induction n as [|n IH]; intros c Hc; [done|].
  cbn [rows]. rewrite NewRowID_spec. cbn zeta. cbn [rowCounter prefix nodeID].
  replace (uint64 (Z.of_nat c + 1)) with (Z.of_nat (S c))
    by (rewrite uint64_id; [lia|unfold two64; lia]).
  rewrite decide_True by lia. specialize (IH (S c)).
  destruct (rows n _) as [s2 rs]. cbn [snd] in *. rewrite IH by lia.
  cbn [seq fmap list_fmap]. unfold row_id at 2. by rewrite app_assoc.
Qed.

(** the offset of any clock fits the eight bytes reserved for it *)
Lemma timeOffset_range now epoch : 0 ≤ timeOffset now epoch < 2 ^ 56.
Proof.
  unfold timeOffset, uint64. pose proof (Z.mod_pos_bound (Sub now epoch) two64).
  unfold two64 in *. change (2 ^ 56) with 72057594037927936. lia.
Qed.

(** C23: start-up never panics, whatever the clock and the network interfaces,
    the first 2^56 - 1 calls of NewRowID return, and two identifiers are equal
    only if the node, the start-up time (in microseconds) and the row number
    are: identifiers are unique within a process and across processes. *)
Theorem row_ids_unique epoch ifs noise now ifs' noise' now' n n' :
  bytes_in ifs → bytes_in ifs' → Forall is_byte noise → Forall is_byte noise' →
  Z.of_nat n < 2 ^ 56 → Z.of_nat n' < 2 ^ 56 →
  ∃ s s', init ifs noise (timeOffset now epoch) = Ret s ∧
    init ifs' noise' (timeOffset now' epoch) = Ret s' ∧
    (∀ i, (i < n)%nat → ∃ id, (rows n s).2 !! i = Some (Ret id)) ∧
    ∀ i j id, (rows n s).2 !! i = Some (Ret id) → (rows n' s').2 !! j = Some (Ret id) →
      nodeID s = nodeID s' ∧ timeOffset now epoch = timeOffset now' epoch ∧ i = j.
Proof.
  intros Hb Hb' Hn Hn' Hlt Hlt'.
  pose proof (timeOffset_range now epoch). pose proof (timeOffset_range now' epoch).
  do 2 eexists. split; [by apply init_spec|]. split; [by apply init_spec|].
  change 0 with (Z.of_nat 0). rewrite !rows_spec by lia. split.
  - intros i Hi. rewrite list_lookup_fmap, lookup_seq_lt by done. by eexists.
  - intros i j id Hi Hj. rewrite list_lookup_fmap in Hi, Hj. cbn [nodeID].
    destruct (seq 1 n !! i) as [k|] eqn:Ek; [|done].
    destruct (seq 1 n' !! j) as [k'|] eqn:Ek'; [|done].
    apply lookup_seq in Ek as [-> ?], Ek' as [-> ?].
    cbn [fmap option_fmap option_map] in Hi, Hj. simplify_eq.
    destruct (row_id_inj (node_of ifs noise) (timeOffset now epoch) (1 + i)
      (node_of ifs' noise') (timeOffset now' epoch) (1 + j)) as (->&->&E);
      auto using node_of_bytes; rewrite ?node_of_length; try lia; try congruence.
Qed.

Lemma row_ids_unique_witness :
  bytes_in (Some [("eth0", [2; 66; 172; 17; 0; 2])]) ∧
  ∃ s s', init (Some [("eth0", [2; 66; 172; 17; 0; 2])]) [] (timeOffset 1000000 0) = Ret s ∧
    init None [7] (timeOffset 5 0) = Ret s' ∧
    (∀ i, (i < 200)%nat → ∃ id, (rows 200 s).2 !! i = Some (Ret id)) ∧
    ∀ i j id, (rows 200 s).2 !! i = Some (Ret id) → (rows 3 s').2 !! j = Some (Ret id) →
      nodeID s = nodeID s' ∧ timeOffset 1000000 0 = timeOffset 5 0 ∧ i = j.
Proof.
  assert (bytes_in (Some [("eth0", [2; 66; 172; 17; 0; 2])])) as H.
  { repeat constructor; simpl; lia. }
  split; [exact H|].
  apply (row_ids_unique 0 (Some [("eth0", [2; 66; 172; 17; 0; 2])]) [] 1000000 None [7] 5 200 3);
    [exact H|exact I|constructor|repeat constructor; lia|reflexivity|reflexivity].
Defined.

(** the identifiers of the first two rows of a process *)
Example row_ids_example :
  match init (Some [("lo", []); ("eth0", [2; 66; 172; 17; 0; 2])]) [] (timeOffset 1000000 0) with
  | Ret s => (rows 2 s).2 = [Ret "0242ac110002e80701"; Ret "0242ac110002e80702"]
  | Panic _ => False
  end.
Proof. vm_compute. reflexivity. Qed.

(** NewRowID panics exactly when the incremented 64-bit counter needs more
    than the eight bytes reserved for it; the counter is incremented anyway. *)
Theorem NewRowID_panics s :
  rowCounter (NewRowID s).1 = uint64 (rowCounter s + 1) ∧
  ((∃ w, (NewRowID s).2 = Panic w) ↔ 2 ^ 56 ≤ uint64 (rowCounter s + 1)).
Proof.
  rewrite NewRowID_spec. cbn zeta. split; [done|]. cbn [snd]. split.
  - intros [w Hw]. case_decide; [done|lia].
  - intros H. rewrite decide_False by lia. by eexists.
Qed.
