(* ===== verification/PantherLog.v ===== *)
(** * Panther's standard log fields and value parsers

    Model of src/internal/log_analysis/log_processor/parsers: pantherlog.go
    (the embedded [PantherLog] with its sets of indicators), csv_utils.go and
    numerics/numerics.go.  The JSON library is a parameter of the JSON
    operations. *)

From S2P Require Import Prelude RowId.

(** ** net.ParseIP (Go 1.14), as far as it decides validity *)

Definition byte_in (lo hi : nat) (c : ascii) : bool :=
  let n := nat_of_ascii c in (lo <=? n) && (n <=? hi).

Definition big : Z := 16777215.

(** [dtoi] and [xtoi]: value, rest of the string and success *)
Fixpoint toi_loop (digit : ascii → option Z) (base n : Z) (seen : bool) (s : string)
    : option (Z * string) :=
  match s with
  | String c s' =>
      match digit c with
      | Some d =>
          let n := (n * base + d)%Z in
          if decide (big ≤ n)%Z then None else toi_loop digit base n true s'
      | None => if seen then Some (n, s) else None
      end
  | EmptyString => if seen then Some (n, s) else None
  end.

Definition hex_of (c : ascii) : option Z :=
  let n := Z.of_nat (nat_of_ascii c) in
  if byte_in 48 57 c then Some (n - 48)%Z
  else if byte_in 97 102 c then Some (n - 87)%Z
  else if byte_in 65 70 c then Some (n - 55)%Z
  else None.

Definition dtoi (s : string) : option (Z * string) := toi_loop digit_of 10 0 false s.
Definition xtoi (s : string) : option (Z * string) := toi_loop hex_of 16 0 false s.

Fixpoint parseIPv4_loop (fields : nat) (first : bool) (s : string) : bool :=
  match fields with
  | O => String.eqb s ""
  | S fields =>
      let body := match s with
                  | EmptyString => None
                  | String c s' => if first then Some s
                                   else if decide (c = "."%char) then Some s' else None
                  end in
      match body with
      | None => false
      | Some s =>
          match dtoi s with
          | Some (n, rest) => if decide (255 < n)%Z then false else parseIPv4_loop fields false rest
          | None => false
          end
      end
  end.

Definition parseIPv4 (s : string) : bool := parseIPv4_loop 4 true s.

(** [i] bytes are filled, [ellipsis] says whether one was seen; each iteration
    fills two bytes, so eight suffice *)
Fixpoint parseIPv6_loop (fuel : nat) (i : Z) (ellipsis : bool) (s : string) : bool :=
  let finish (i : Z) (ellipsis : bool) (s : string) :=
    String.eqb s "" && (if decide (i < 16)%Z then ellipsis else negb ellipsis) in
  match fuel with
  | O => finish i ellipsis s
  | S fuel =>
      if decide (i < 16)%Z then
        match xtoi s with
        | None => false
        | Some (n, rest) =>
            if decide (65535 < n)%Z then false
            else match rest with
            | EmptyString => finish (i + 2)%Z ellipsis ""
            | String c s1 =>
                if decide (c = "."%char) then
                  if negb ellipsis && negb (bool_decide (i = 12)%Z) then false
                  else if decide (16 < i + 4)%Z then false
                  else if parseIPv4 s then finish (i + 4)%Z ellipsis "" else false
                else if decide (c = ":"%char) then
                  match s1 with
                  | EmptyString => false
                  | String d s2 =>
                      if decide (d = ":"%char) then
                        if ellipsis then false
                        else if decide (s2 = "") then finish (i + 2)%Z true ""
                        else parseIPv6_loop fuel (i + 2)%Z true s2
                      else parseIPv6_loop fuel (i + 2)%Z ellipsis s1
                  end
                else false
            end
        end
      else finish i ellipsis s
  end.

Definition parseIPv6 (s : string) : bool :=
  if has_prefix "::" s then
    match s with
    | String _ (String _ EmptyString) => true
    | String _ (String _ s') => parseIPv6_loop 8 0 true s'
    | _ => false
    end
  else parseIPv6_loop 8 0 false s.

Fixpoint ip_kind (s : string) : option ascii :=
  match s with
  | EmptyString => None
  | String c s' => if decide (c = "."%char ∨ c = ":"%char) then Some c else ip_kind s'
  end.

(** [net.ParseIP(s) != nil] *)
Definition ParseIP (s : string) : bool :=
  match ip_kind s with
  | Some c => if decide (c = "."%char) then parseIPv4 s else parseIPv6 s
  | None => false
  end.

Example ParseIP_examples :
  ParseIP <$> ["1.2.3.4"; "1.2.3"; "1.2.3.256"; "a.b"; "::"; "::1"; "fe80::1:2"; "1:2:3:4:5:6:7:8";
    "1::2::3"; "::ffff:1.2.3.4"; "1:2:3:4:5:6:7:8:9"; "1:2:3:4:5:6:1.2.3.4"; "1:2:3:4:5:6:7:"; ""] =
  [true; false; false; false; true; true; true; true; false; true; false; true; false; false].
Proof. vm_compute. reflexivity. Qed.

(** ** PantherAnyString *)

Record PantherAnyString := { set : gset string }.

Definition NewPantherAnyString : PantherAnyString := {| set := ∅ |}.

Fixpoint AppendAnyString (any : PantherAnyString) (values : list string) : PantherAnyString :=
  match values with
  | [] => any
  | v :: values =>
      if decide (v = "") then AppendAnyString any values
      else if decide (v ∈ set any) then AppendAnyString any values
      else AppendAnyString {| set := {[v]} ∪ set any |} values
  end.

(** [MarshalJSON], where the map is iterated in the order [keys] *)
Definition MarshalJSON (marshal : list string → result string) (any : option PantherAnyString)
    (keys : list string) : result string :=
  match any with
  | Some _ => marshal (merge_sort String.le keys)
  | None => Ok ""
  end.

(** [UnmarshalJSON]: on an error the receiver is unchanged *)
Definition UnmarshalJSON (unmarshal : string → result (list string)) (any : PantherAnyString)
    (jsonBytes : string) : PantherAnyString * option error :=
  match unmarshal jsonBytes with
  | Err e => (any, Some e)
  | Ok values => ({| set := list_to_set values |}, None)
  end.

(** ** PantherLog *)

Record PantherLog (Event : Type) := {
  event : option Event;
  PantherLogType : option string;
  PantherRowID : option string;
  PantherEventTime : option Z;
  PantherParseTime : option Z;
  PantherAnyIPAddresses : option PantherAnyString;
  PantherAnyDomainNames : option PantherAnyString;
  PantherAnySHA1Hashes : option PantherAnyString;
  PantherAnyMD5Hashes : option PantherAnyString
}.
Arguments event {Event}.
Arguments PantherLogType {Event}.
Arguments PantherRowID {Event}.
Arguments PantherEventTime {Event}.
Arguments PantherParseTime {Event}.
Arguments PantherAnyIPAddresses {Event}.
Arguments PantherAnyDomainNames {Event}.
Arguments PantherAnySHA1Hashes {Event}.
Arguments PantherAnyMD5Hashes {Event}.

Section PantherLog.
Context {Event : Type}.
Implicit Types (pl : PantherLog Event).

(** [now] is the clock and [s] the state of the row counter *)
Definition SetCoreFields (s : RowId.pkg) (now : Z) pl (logType : string) (eventTime : option Z)
    (ev : Event) : outcome (RowId.pkg * PantherLog Event) :=
  let '(s', r) := NewRowID s in
  rowID ← r;
  Ret (s', {| event := Some ev; PantherLogType := Some logType; PantherRowID := Some rowID;
              PantherEventTime := Some (default now eventTime); PantherParseTime := Some now;
              PantherAnyIPAddresses := PantherAnyIPAddresses pl;
              PantherAnyDomainNames := PantherAnyDomainNames pl;
              PantherAnySHA1Hashes := PantherAnySHA1Hashes pl;
              PantherAnyMD5Hashes := PantherAnyMD5Hashes pl |}).

(** [None] (a nil set) is created lazily before the values are added *)
Definition lazy_append (any : option PantherAnyString) (values : list string)
    : option PantherAnyString :=
  Some (AppendAnyString (default NewPantherAnyString any) values).

Definition set_ip pl (any : option PantherAnyString) : PantherLog Event :=
  {| event := event pl; PantherLogType := PantherLogType pl; PantherRowID := PantherRowID pl;
     PantherEventTime := PantherEventTime pl; PantherParseTime := PantherParseTime pl;
     PantherAnyIPAddresses := any; PantherAnyDomainNames := PantherAnyDomainNames pl;
     PantherAnySHA1Hashes := PantherAnySHA1Hashes pl; PantherAnyMD5Hashes := PantherAnyMD5Hashes pl |}.

Definition AppendAnyIPAddress pl (value : string) : PantherLog Event * bool :=
  if ParseIP value then (set_ip pl (lazy_append (PantherAnyIPAddresses pl) [value]), true)
  else (pl, false).

Definition AppendAnyIPAddressPtr pl (value : option string) : PantherLog Event * bool :=
  match value with None => (pl, false) | Some v => AppendAnyIPAddress pl v end.

Definition AppendAnyDomainNames pl (values : list string) : PantherLog Event :=
  {| event := event pl; PantherLogType := PantherLogType pl; PantherRowID := PantherRowID pl;
     PantherEventTime := PantherEventTime pl; PantherParseTime := PantherParseTime pl;
     PantherAnyIPAddresses := PantherAnyIPAddresses pl;
     PantherAnyDomainNames := lazy_append (PantherAnyDomainNames pl) values;
     PantherAnySHA1Hashes := PantherAnySHA1Hashes pl; PantherAnyMD5Hashes := PantherAnyMD5Hashes pl |}.

Definition AppendAnySHA1Hashes pl (values : list string) : PantherLog Event :=
  {| event := event pl; PantherLogType := PantherLogType pl; PantherRowID := PantherRowID pl;
     PantherEventTime := PantherEventTime pl; PantherParseTime := PantherParseTime pl;
     PantherAnyIPAddresses := PantherAnyIPAddresses pl;
     PantherAnyDomainNames := PantherAnyDomainNames pl;
     PantherAnySHA1Hashes := lazy_append (PantherAnySHA1Hashes pl) values;
     PantherAnyMD5Hashes := PantherAnyMD5Hashes pl |}.

Definition AppendAnyMD5Hashes pl (values : list string) : PantherLog Event :=
  {| event := event pl; PantherLogType := PantherLogType pl; PantherRowID := PantherRowID pl;
     PantherEventTime := PantherEventTime pl; PantherParseTime := PantherParseTime pl;
     PantherAnyIPAddresses := PantherAnyIPAddresses pl;
     PantherAnyDomainNames := PantherAnyDomainNames pl;
     PantherAnySHA1Hashes := PantherAnySHA1Hashes pl;
     PantherAnyMD5Hashes := lazy_append (PantherAnyMD5Hashes pl) values |}.

(** the [...Ptrs] variants skip nil pointers *)
Fixpoint append_ptrs (append : PantherLog Event → list string → PantherLog Event) pl
    (values : list (option string)) : PantherLog Event :=
  match values with
  | [] => pl
  | None :: values => append_ptrs append pl values
  | Some v :: values => append_ptrs append (append pl [v]) values
  end.

Definition AppendAnyDomainNamePtrs := append_ptrs AppendAnyDomainNames.
Definition AppendAnySHA1HashPtrs := append_ptrs AppendAnySHA1Hashes.
Definition AppendAnyMD5HashPtrs := append_ptrs AppendAnyMD5Hashes.
End PantherLog.

(** ** csv_utils.go *)

Definition CsvStringToPointer (value : string) : option string :=
  if decide (value = "-") then None else Some value.

Definition CsvStringToIntPointer (value : string) : option Z :=
  if decide (value = "-") then None
  else match atoi value with Ok v => Some v | Err _ => None end.

(** Go's conversion to int16 keeps the low 16 bits *)
Definition int16 (z : Z) : Z := ((z + 32768) mod 65536 - 32768)%Z.

Definition CsvStringToInt16Pointer (value : string) : option Z :=
  if decide (value = "-") then None
  else match atoi value with Ok v => Some (int16 v) | Err _ => None end.

Definition CsvStringToArray (value : string) : list string :=
  if decide (value = "-") then [] else split_on "," value.

(** ** numerics.Integer *)

Definition Integer_String (i : option Z) : string :=
  match i with None => "nil" | Some v => itoa v end.

Definition Integer_MarshalJSON (i : option Z) : result string := Ok (Integer_String i).

Definition quote : ascii := "034"%char.

(** strings.Trim with a one-byte cutset *)
Fixpoint trim_left (c : ascii) (s : string) : string :=
  match s with
  | String a s' => if decide (a = c) then trim_left c s' else s
  | EmptyString => EmptyString
  end.
Fixpoint trim_right (c : ascii) (s : string) : string :=
  match s with
  | EmptyString => EmptyString
  | String a s' =>
      match trim_right c s' with
      | EmptyString => if decide (a = c) then EmptyString else String a EmptyString
      | t => String a t
      end
  end.
Definition trim (c : ascii) (s : string) : string := trim_right c (trim_left c s).

(** the receiver may be nil; it is updated only on success *)
Definition Integer_UnmarshalJSON (i : option Z) (jsonBytes : string) : option Z * option error :=
  match atoi (trim quote jsonBytes) with
  | Ok v => (match i with Some _ => Some v | None => None end, None)
  | Err e => (i, Some e)
  end.

(** ** Theorems *)

Definition nonempty (vs : list string) : gset string :=
  list_to_set (filter (λ v, v ≠ "") vs).

Lemma nonempty_cons v vs : nonempty (v :: vs) = (if decide (v = "") then ∅ else {[v]}) ∪ nonempty vs.
Proof.
  unfold nonempty. rewrite filter_cons. destruct (decide (v = "")) as [->|Hv].
  - rewrite decide_False by naive_solver. set_solver.
  - rewrite decide_True by done. set_solver.
Qed.

Lemma AppendAnyString_spec any vs : set (AppendAnyString any vs) = set any ∪ nonempty vs.
Proof.
  revert any. induction vs as [|v vs IH]; intros any; cbn [AppendAnyString].
  { unfold nonempty. simpl. set_solver. }
  rewrite nonempty_cons. repeat case_decide; rewrite IH; simpl; set_solver.
Qed.

(** contents of a possibly nil set *)
Definition contents (any : option PantherAnyString) : gset string :=
  match any with Some a => set a | None => ∅ end.

Lemma lazy_append_contents any vs : contents (lazy_append any vs) = contents any ∪ nonempty vs.
Proof. unfold lazy_append. simpl. rewrite AppendAnyString_spec. by destruct any. Qed.

Section Appends.
Context {Event : Type}.

(** the calls a parser makes on its log *)
Inductive append_op :=
| OpIP (value : string)
| OpIPPtr (value : option string)
| OpDomains (values : list string)
| OpDomainPtrs (values : list (option string))
| OpSHA1 (values : list string)
| OpSHA1Ptrs (values : list (option string))
| OpMD5 (values : list string)
| OpMD5Ptrs (values : list (option string)).

Definition run_op (pl : PantherLog Event) (o : append_op) : PantherLog Event :=
  match o with
  | OpIP v => (AppendAnyIPAddress pl v).1
  | OpIPPtr v => (AppendAnyIPAddressPtr pl v).1
  | OpDomains vs => AppendAnyDomainNames pl vs
  | OpDomainPtrs vs => AppendAnyDomainNamePtrs pl vs
  | OpSHA1 vs => AppendAnySHA1Hashes pl vs
  | OpSHA1Ptrs vs => AppendAnySHA1HashPtrs pl vs
  | OpMD5 vs => AppendAnyMD5Hashes pl vs
  | OpMD5Ptrs vs => AppendAnyMD5HashPtrs pl vs
  end.

(** the values a call offers to each field: IP addresses, domains, SHA1, MD5 *)
Definition ips_of (o : append_op) : list string :=
  filter (λ v, ParseIP v = true)
    match o with OpIP v => [v] | OpIPPtr (Some v) => [v] | _ => [] end.
Definition domains_of (o : append_op) : list string :=
  match o with OpDomains vs => vs | OpDomainPtrs vs => omap id vs | _ => [] end.
Definition sha1s_of (o : append_op) : list string :=
  match o with OpSHA1 vs => vs | OpSHA1Ptrs vs => omap id vs | _ => [] end.
Definition md5s_of (o : append_op) : list string :=
  match o with OpMD5 vs => vs | OpMD5Ptrs vs => omap id vs | _ => [] end.

Definition fields (pl : PantherLog Event) : gset string * gset string * gset string * gset string :=
  (contents (PantherAnyIPAddresses pl), contents (PantherAnyDomainNames pl),
   contents (PantherAnySHA1Hashes pl), contents (PantherAnyMD5Hashes pl)).

Definition core (pl : PantherLog Event) :=
  (event pl, PantherLogType pl, PantherRowID pl, PantherEventTime pl, PantherParseTime pl).

Lemma ptrs_get (append : PantherLog Event → list string → PantherLog Event)
    (get : PantherLog Event → gset string) pl vs :
  (∀ pl vs, get (append pl vs) = get pl ∪ nonempty vs) →
  get (append_ptrs append pl vs) = get pl ∪ nonempty (omap id vs).
Proof.
  intros Hg. revert pl. induction vs as [|[v|] vs IH]; intros pl; simpl.
  - unfold nonempty. simpl. set_solver.
  - rewrite IH, Hg, !nonempty_cons. unfold nonempty at 1. simpl. set_solver.
  - apply IH.
Qed.

Lemma ptrs_frame {X} (append : PantherLog Event → list string → PantherLog Event)
    (other : PantherLog Event → X) pl vs :
  (∀ pl vs, other (append pl vs) = other pl) → other (append_ptrs append pl vs) = other pl.
Proof.
  intros Ho. revert pl. induction vs as [|[v|] vs IH]; intros pl; simpl; [done| |apply IH].
  by rewrite IH.
Qed.

Lemma ip_nonempty v : ParseIP v = true → v ≠ "".
Proof. by intros H ->. Qed.

Lemma run_op_spec pl o :
  core (run_op pl o) = core pl ∧
  fields (run_op pl o) =
    (contents (PantherAnyIPAddresses pl) ∪ list_to_set (ips_of o),
     contents (PantherAnyDomainNames pl) ∪ nonempty (domains_of o),
     contents (PantherAnySHA1Hashes pl) ∪ nonempty (sha1s_of o),
     contents (PantherAnyMD5Hashes pl) ∪ nonempty (md5s_of o)).
Proof.
  assert (∀ S : gset string, S ∪ nonempty [] = S) as Hnil by (intros; unfold nonempty; set_solver).
  assert (∀ v, core (AppendAnyIPAddress pl v).1 = core pl ∧
    fields (AppendAnyIPAddress pl v).1 =
    (contents (PantherAnyIPAddresses pl) ∪ list_to_set (ips_of (OpIP v)),
     contents (PantherAnyDomainNames pl), contents (PantherAnySHA1Hashes pl),
     contents (PantherAnyMD5Hashes pl))) as Hip.
  { intros v. unfold AppendAnyIPAddress, ips_of. rewrite filter_cons, filter_nil.
    destruct (ParseIP v) eqn:Hv; simpl; (split; [done|]).
    - unfold fields. cbn [PantherAnyIPAddresses PantherAnyDomainNames PantherAnySHA1Hashes
        PantherAnyMD5Hashes set_ip]. rewrite lazy_append_contents.
      rewrite nonempty_cons, decide_False by (by apply ip_nonempty).
      unfold nonempty. simpl. repeat f_equal; set_solver.
    - unfold fields. repeat f_equal. set_solver. }
  destruct o as [v|[v|]|vs|vs|vs|vs|vs|vs]; simpl; rewrite ?Hnil, ?(right_id_L ∅ (∪)).
  - apply Hip.
  - apply Hip.
  - done.
  - split; [done|]. unfold fields. by rewrite <-lazy_append_contents.
  - unfold fields, AppendAnyDomainNamePtrs.
    rewrite (ptrs_frame _ core) by done. split; [done|].
    rewrite (ptrs_get _ (λ p, contents (PantherAnyDomainNames p))) by (intros; apply lazy_append_contents).
    by rewrite (ptrs_frame _ PantherAnyIPAddresses), (ptrs_frame _ PantherAnySHA1Hashes), (ptrs_frame _ PantherAnyMD5Hashes) by done.
  - split; [done|]. unfold fields. by rewrite <-lazy_append_contents.
  - unfold fields, AppendAnySHA1HashPtrs.
    rewrite (ptrs_frame _ core) by done. split; [done|].
    rewrite (ptrs_get _ (λ p, contents (PantherAnySHA1Hashes p))) by (intros; apply lazy_append_contents).
    by rewrite (ptrs_frame _ PantherAnyIPAddresses), (ptrs_frame _ PantherAnyDomainNames), (ptrs_frame _ PantherAnyMD5Hashes) by done.
  - split; [done|]. unfold fields. by rewrite <-lazy_append_contents.
  - unfold fields, AppendAnyMD5HashPtrs.
    rewrite (ptrs_frame _ core) by done. split; [done|].
    rewrite (ptrs_get _ (λ p, contents (PantherAnyMD5Hashes p))) by (intros; apply lazy_append_contents).
    by rewrite (ptrs_frame _ PantherAnyIPAddresses), (ptrs_frame _ PantherAnyDomainNames), (ptrs_frame _ PantherAnySHA1Hashes) by done.
Qed.

(** whatever sequence of Append calls a parser makes, the core fields are
    untouched and each indicator set holds exactly the values offered to it:
    valid IP addresses only, and for the others every non-empty value; nil
    pointers and duplicates add nothing. *)
Theorem indicators_exact pl ops :
  core (foldl run_op pl ops) = core pl ∧
  fields (foldl run_op pl ops) =
    (contents (PantherAnyIPAddresses pl) ∪ list_to_set (ops ≫= ips_of),
     contents (PantherAnyDomainNames pl) ∪ nonempty (ops ≫= domains_of),
     contents (PantherAnySHA1Hashes pl) ∪ nonempty (ops ≫= sha1s_of),
     contents (PantherAnyMD5Hashes pl) ∪ nonempty (ops ≫= md5s_of)).
Proof.
  assert (∀ l k, nonempty (l ++ k) = nonempty l ∪ nonempty k) as Happ.
  { intros l k. unfold nonempty. by rewrite filter_app, list_to_set_app_L. }
  assert (nonempty [] = ∅) as Hnil by done.
  revert pl. induction ops as [|o ops IH]; intros pl; simpl.
  { rewrite Hnil, !(right_id_L ∅ (∪)). done. }
  destruct (run_op_spec pl o) as [Hc Hf]. destruct (IH (run_op pl o)) as [-> ->].
  split; [done|]. unfold fields in Hf. injection Hf as -> -> -> ->.
  by rewrite list_to_set_app_L, !Happ, !(assoc_L (∪)).
Qed.
End Appends.

(** the JSON of an indicator set does not depend on the iteration order of
    the map, lists the values in increasing order, and reads back as the same
    set, for any JSON library that reads back the lists it writes. *)
Theorem any_json_roundtrip (marshal : list string → result string)
    (unmarshal : string → result (list string)) (any any' : PantherAnyString) keys keys' json :
  (∀ l s, marshal l = Ok s → unmarshal s = Ok l) →
  keys ≡ₚ elements (set any) → keys' ≡ₚ elements (set any) →
  MarshalJSON marshal (Some any) keys = Ok json →
  MarshalJSON marshal (Some any) keys' = Ok json ∧
  Sorted String.le (merge_sort String.le keys) ∧
  UnmarshalJSON unmarshal any' json = (any, None).
Proof.
  intros Hjson Hk Hk' H. unfold MarshalJSON in *.
  assert (merge_sort String.le keys' = merge_sort String.le keys) as E.
  { apply (Sorted_unique String.le); [apply (Sorted_merge_sort _)..|].
    by rewrite !merge_sort_Permutation, Hk, Hk'. }
  rewrite E. split_and!; [done|apply (Sorted_merge_sort _)|].
  unfold UnmarshalJSON. rewrite (Hjson _ _ H). destruct any as [S]. do 2 f_equal.
  apply set_eq. intros v. rewrite elem_of_list_to_set, merge_sort_Permutation, Hk. set_solver.
Qed.

(** a JSON-like codec for the witness: newline-terminated values *)
Definition lines_marshal (l : list string) : result string :=
  if decide (Forall (λ s, contains_byte "010" s = false) l)
  then Ok (foldr (λ s acc, s +:+ String "010" acc) "" l) else Err (ErrMsg "newline").
Definition lines_unmarshal (s : string) : result (list string) :=
  Ok (take (length (split_on "010" s) - 1) (split_on "010" s)).

Lemma lines_codec l s : lines_marshal l = Ok s → lines_unmarshal s = Ok l.
Proof.
  unfold lines_marshal, lines_unmarshal. case_decide as Hf; [|done]. intros [= <-]. f_equal.
  assert (split_on "010" (foldr (λ s acc, s +:+ String "010" acc) "" l) = l ++ [""]) as ->.
  { induction Hf as [|v l Hv _ IH]; [done|]. simpl. by rewrite split_on_app, IH. }
  rewrite length_app, Nat.add_sub. by rewrite take_app_length.
Qed.

Lemma any_json_roundtrip_witness :
  MarshalJSON lines_marshal (Some {| set := {["b"; "a"]} |}) ["a"; "b"] =
    Ok ("a" +:+ String "010" ("b" +:+ String "010" "")) ∧
  Sorted String.le (merge_sort String.le ["b"; "a"]) ∧
  UnmarshalJSON lines_unmarshal NewPantherAnyString
    ("a" +:+ String "010" ("b" +:+ String "010" "")) = ({| set := {["b"; "a"]} |}, None).
Proof.
  apply (any_json_roundtrip lines_marshal lines_unmarshal {| set := {["b"; "a"]} |}
    NewPantherAnyString ["b"; "a"] ["a"; "b"]);
    [exact lines_codec| | |vm_compute; reflexivity];
    (apply NoDup_Permutation;
      [refine (bool_decide_unpack _ _); vm_compute; exact I|apply NoDup_elements|intros x; rewrite elem_of_elements; cbn [set]; set_solver]).
Defined.

(** ** Integers *)

Lemma trim_left_no c s : contains_byte c s = false → trim_left c s = s.
Proof. destruct s as [|a s]; simpl; [done|]. by case_decide. Qed.

Lemma trim_left_app c s r : contains_byte c s = false → s ≠ "" → trim_left c (s +:+ r) = s +:+ r.
Proof. destruct s as [|a s]; [done|]. rewrite string_app_cons. simpl. by case_decide. Qed.

Lemma trim_right_no c s : contains_byte c s = false → trim_right c s = s.
Proof.
  induction s as [|a s IH]; simpl; [done|]. case_decide; [done|]. intros Hs. rewrite (IH Hs).
  by destruct s.
Qed.

Lemma trim_right_snoc c s : contains_byte c s = false → trim_right c (s +:+ String c "") = s.
Proof.
  induction s as [|a s IH]; intros Hs; [simpl; by rewrite decide_True|].
  rewrite string_app_cons. cbn [trim_right]. simpl in Hs. case_decide; [done|].
  rewrite (IH Hs). by destruct s.
Qed.

Lemma itoa_neg p : itoa (Zneg p) = String "-" (itoa (Zpos p)).
Proof. done. Qed.

Lemma atoi_itoa_int64 z : in_int64 z → atoi (itoa z) = Ok z.
Proof.
  intros [Hl Hh]. destruct (decide (0 ≤ z)%Z) as [Hz|Hz]; [by apply atoi_itoa|].
  destruct z as [|p|p]; [lia|lia|]. destruct (itoa_digits (Zpos p)) as [_ Hne]; [lia|].
  rewrite itoa_neg. unfold atoi. rewrite (decide_True (P := _ ∨ _)) by (left; reflexivity).
  rewrite (decide_False (P := itoa _ = "")) by done.
  rewrite parse_digits_itoa by lia. unfold in_range.
  rewrite !decide_True; [done|split; lia|done].
Qed.

Lemma itoa_no_quote z : contains_byte quote (itoa z) = false.
Proof.
  destruct (decide (0 ≤ z)%Z) as [Hz|Hz].
  - apply digits_no_byte; [done|]. by apply itoa_digits.
  - destruct z as [|p|p]; [lia|lia|]. rewrite itoa_neg. simpl.
    apply digits_no_byte; [done|]. by apply (itoa_digits (Zpos p)).
Qed.

(** a JSON integer written by numerics.Integer reads back as itself, bare
    or quoted, for every 64-bit value. *)
Theorem Integer_roundtrip z z0 json :
  in_int64 z → Integer_MarshalJSON (Some z) = Ok json →
  Integer_UnmarshalJSON (Some z0) json = (Some z, None) ∧
  Integer_UnmarshalJSON (Some z0) (String quote (json +:+ String quote "")) = (Some z, None).
Proof.
  intros Hz [= <-]. unfold Integer_UnmarshalJSON, Integer_String, trim.
  pose proof (itoa_no_quote z) as Hq. split.
  - by rewrite trim_left_no, trim_right_no, atoi_itoa_int64.
  - cbn [trim_left]. rewrite decide_True by done.
    rewrite trim_left_app, trim_right_snoc, atoi_itoa_int64; try done.
    destruct (decide (0 ≤ z)%Z) as [Hp|Hp]; [by apply (itoa_digits z Hp)|].
    by destruct z; [lia|lia|].
Qed.

Lemma Integer_roundtrip_witness :
  in_int64 (-42) ∧
  Integer_UnmarshalJSON (Some 0%Z) "-42" = (Some (-42)%Z, None) ∧
  Integer_UnmarshalJSON (Some 0%Z) (String quote ("-42" +:+ String quote "")) = (Some (-42)%Z, None).
Proof.
  assert (in_int64 (-42)) as H by (unfold in_int64, two63; lia). split; [exact H|].
  apply (Integer_roundtrip (-42) 0 "-42" H). reflexivity.
Defined.
