(* ===== verification/GoHeap.v ===== *)
(** * Go's container/heap

    The operations of the standard library's binary heap over a slice, as
    [heap.Push] and [heap.Pop] perform them through the queue's Less, Swap,
    Push and Pop (src/internal/log_analysis/log_processor/classification/
    parser_queue.go). *)

From Stdlib Require Import ZifyNat.
From S2P Require Import Prelude.

Section Ops.
Context {A : Type} (less : A → A → bool).

(** [q.items[i] < q.items[j]], [q.Swap(i, j)] *)
Definition Less (l : list A) (i j : nat) : bool :=
  match l !! i, l !! j with Some x, Some y => less x y | _, _ => false end.
Definition Swap (l : list A) (i j : nat) : list A :=
  match l !! i, l !! j with
  | Some x, Some y => <[i := y]> (<[j := x]> l)
  | _, _ => l
  end.

(** the index strictly decreases, so [j] steps suffice *)
Fixpoint up (fuel : nat) (l : list A) (j : nat) : list A :=
  match fuel with
  | O => l
  | S fuel =>
      let i := (j - 1) / 2 in
      if bool_decide (i = j) || negb (Less l j i) then l else up fuel (Swap l i j) i
  end.

(** the index strictly increases below [n], so [n] steps suffice *)
Fixpoint down (fuel : nat) (l : list A) (i n : nat) : list A :=
  match fuel with
  | O => l
  | S fuel =>
      let j1 := 2 * i + 1 in
      if decide (n ≤ j1) then l
      else
        let j2 := j1 + 1 in
        let j := if bool_decide (j2 < n) && Less l j2 j1 then j2 else j1 in
        if negb (Less l j i) then l else down fuel (Swap l i j) j n
  end.

Definition heap_Push (l : list A) (x : A) : list A :=
  let l := l ++ [x] in up (length l) l (length l - 1).

(** [None] is the index-out-of-range panic on an empty queue *)
Definition heap_Pop (l : list A) : option (A * list A) :=
  let n := length l - 1 in
  let l := down (length l) (Swap l 0 n) 0 n in
  x ← l !! n; Some (x, take n l).
End Ops.

(** ** Correctness, for an order given by an integer key *)

Section Correct.
Context {A : Type} (key : A → Z).
Implicit Types (l : list A).

Definition by_key (x y : A) : bool := bool_decide (key x < key y)%Z.
Definition at_key (l : list A) (i : nat) : Z := from_option key 0%Z (l !! i).

(** every element is at least its parent *)
Definition is_heap (l : list A) : Prop :=
  ∀ i, 0 < i < length l → (at_key l ((i - 1) / 2) ≤ at_key l i)%Z.

#[local] Ltac Zify.zify_post_hook ::= Z.to_euclidean_division_equations.

Lemma Less_at l i j :
  i < length l → j < length l → Less by_key l i j = bool_decide (at_key l i < at_key l j)%Z.
Proof.
  intros [x Hx]%lookup_lt_is_Some_2 [y Hy]%lookup_lt_is_Some_2.
  unfold Less, at_key. by rewrite Hx, Hy.
Qed.

Lemma Swap_perm l i j : Swap l i j ≡ₚ l.
Proof.
  unfold Swap. destruct (l !! i) as [x|] eqn:Hi; [|done].
  destruct (l !! j) as [y|] eqn:Hj; [|done]. by apply Permutation_insert_swap.
Qed.

Lemma Swap_length l i j : length (Swap l i j) = length l.
Proof. by rewrite Swap_perm. Qed.

Lemma Swap_at l i j m :
  i < length l → j < length l →
  at_key (Swap l i j) m =
  if decide (m = i) then at_key l j else if decide (m = j) then at_key l i else at_key l m.
Proof.
  intros Hil Hjl. destruct (lookup_lt_is_Some_2 l i Hil) as [x Hx].
  destruct (lookup_lt_is_Some_2 l j Hjl) as [y Hy].
  unfold Swap, at_key. rewrite Hx, Hy. simpl. case_decide; subst.
  { by rewrite list_lookup_insert_eq by (by rewrite length_insert). }
  rewrite list_lookup_insert_ne by done. case_decide; subst.
  - by rewrite list_lookup_insert_eq.
  - by rewrite list_lookup_insert_ne.
Qed.

(** *** up *)

Definition up_inv (l : list A) (j : nat) : Prop :=
  (∀ i, 0 < i < length l → i ≠ j → (at_key l ((i - 1) / 2) ≤ at_key l i)%Z) ∧
  (∀ c, 0 < c < length l → (c - 1) / 2 = j → 0 < j → (at_key l ((j - 1) / 2) ≤ at_key l c)%Z).

Lemma up_correct fuel l j :
  j < length l → j < fuel → up_inv l j → is_heap (up by_key fuel l j).
Proof.
  revert l j. induction fuel as [|fuel IH]; intros l j Hj Hf [H1 H2]; [lia|].
  cbn [up]. rewrite Less_at by lia.
  destruct (decide ((j - 1) / 2 = j)) as [Hz|Hz].
  { rewrite bool_decide_true by done. cbn [orb negb]. intros i Hi. apply H1; lia. }
  rewrite bool_decide_false by done. cbn [orb negb].
  case_bool_decide as Hlt; cbn [orb negb]; last first.
  { intros i Hi. destruct (decide (i = j)) as [->|]; [lia|auto]. }
  apply IH; [rewrite Swap_length; lia|lia|]. unfold up_inv. rewrite Swap_length. split.
  - intros i Hi Hne. rewrite !Swap_at by lia.
    pose proof (H1 i Hi) as Hi1. pose proof (H1 ((j - 1) / 2)) as Hp.
    pose proof (H2 i Hi) as Hi2.
    destruct (decide (i = j)) as [->|Hij]; [repeat case_decide; lia|].
    specialize (Hi1 Hij). rewrite (decide_False (P := i = (j - 1) / 2)) by done.
    case_decide as E; [rewrite E in Hi1; lia|]. case_decide as E'; [apply Hi2; lia|done].
  - intros c Hc Hcp Hj0. rewrite !Swap_at by lia.
    assert ((j - 1) / 2 ≠ j ∧ (((j - 1) / 2) - 1) / 2 ≠ j ∧
      (((j - 1) / 2) - 1) / 2 ≠ (j - 1) / 2) as (?&?&?) by lia.
    rewrite !(decide_False (P := ((j - 1) / 2 - 1) / 2 = _)) by done.
    rewrite (decide_False (P := c = (j - 1) / 2)) by lia.
    pose proof (H1 ((j - 1) / 2)) as Hp. pose proof (H1 c Hc) as Hc1. rewrite Hcp in Hc1.
    case_decide; lia.
Qed.

Lemma up_perm fuel l j : up by_key fuel l j ≡ₚ l.
Proof.
  revert l j. induction fuel as [|fuel IH]; intros l j; [done|]. cbn [up].
  case_match; [done|]. by rewrite IH, Swap_perm.
Qed.

Lemma at_key_app_l l x i : i < length l → at_key (l ++ [x]) i = at_key l i.
Proof. intros. unfold at_key. by rewrite lookup_app_l. Qed.

Lemma heap_Push_correct l x :
  is_heap l → is_heap (heap_Push by_key l x) ∧ heap_Push by_key l x ≡ₚ x :: l.
Proof.
  intros Hh. unfold heap_Push. split; last first.
  { rewrite up_perm. by rewrite Permutation_app_comm. }
  rewrite length_app. cbn [length]. apply up_correct; [rewrite length_app; simpl; lia|lia|].
  unfold up_inv. rewrite length_app. cbn [length]. split; [|intros; lia].
  intros i Hi Hne. rewrite !at_key_app_l by lia. apply Hh. lia.
Qed.

(** *** down *)

(** heap order among the first [n] elements except below [i] *)
Definition down_inv (l : list A) (i n : nat) : Prop :=
  (∀ c, 0 < c < n → (c - 1) / 2 ≠ i → (at_key l ((c - 1) / 2) ≤ at_key l c)%Z) ∧
  (∀ c, 0 < c < n → (c - 1) / 2 = i → 0 < i → (at_key l ((i - 1) / 2) ≤ at_key l c)%Z).

Definition heap_upto (l : list A) (n : nat) : Prop :=
  ∀ c, 0 < c < n → (at_key l ((c - 1) / 2) ≤ at_key l c)%Z.

Lemma down_correct fuel l i n :
  n ≤ length l → i < n → n ≤ i + fuel → down_inv l i n → heap_upto (down by_key fuel l i n) n.
Proof.
  revert l i. induction fuel as [|fuel IH]; intros l i Hn Hi Hf [H1 H2]; [lia|].
  cbn [down]. case_decide as Hleaf.
  { intros c Hc. apply H1; lia. }
  set (j := if bool_decide (2 * i + 1 + 1 < n) && Less by_key l (2 * i + 1 + 1) (2 * i + 1)
            then 2 * i + 1 + 1 else 2 * i + 1).
  assert (0 < j < n ∧ (j - 1) / 2 = i ∧
    ∀ c, 0 < c < n → (c - 1) / 2 = i → (at_key l j ≤ at_key l c)%Z) as (Hj&Hji&Hmin).
  { unfold j. destruct (decide (2 * i + 1 + 1 < n)) as [H3|H3].
    - rewrite Less_at by lia. rewrite (bool_decide_true (_ < n)) by done. cbn [andb].
      case_bool_decide as Hlt; (split; [lia|split; [lia|]]); intros c Hc Hcp;
        (assert (c = 2 * i + 1 ∨ c = 2 * i + 1 + 1) as [-> | ->] by lia); lia.
    - rewrite bool_decide_false by done. cbn [andb]. split; [lia|split; [lia|]].
      intros c Hc Hcp. assert (c = 2 * i + 1) as -> by lia. lia. }
  clearbody j. rewrite Less_at by lia. case_bool_decide as Hlt; cbn [negb]; last first.
  { intros c Hc. destruct (decide ((c - 1) / 2 = i)) as [E|E]; [|by apply H1].
    rewrite E. specialize (Hmin c Hc E). lia. }
  apply IH; [rewrite Swap_length; lia|lia|lia|]. unfold down_inv. split.
  - intros c Hc Hne. rewrite !Swap_at by lia. rewrite (decide_False (P := (c - 1) / 2 = j)) by done.
    destruct (decide ((c - 1) / 2 = i)) as [E|E].
    + rewrite (decide_False (P := c = i)) by lia. specialize (Hmin c Hc E). case_decide; lia.
    + rewrite (decide_False (P := c = j)) by congruence. case_decide as Eci; [|by apply H1].
      subst c. apply H2; lia.
  - intros c Hc E Hj0. rewrite Hji, !Swap_at by lia. rewrite (decide_True (P := i = i)) by done.
    rewrite (decide_False (P := c = i)), (decide_False (P := c = j)) by lia.
    rewrite <-E. apply H1; lia.
Qed.

Lemma down_perm fuel l i n : down by_key fuel l i n ≡ₚ l.
Proof.
  revert l i. induction fuel as [|fuel IH]; intros l i; [done|]. cbn [down].
  case_decide; [done|]. case_match; [done|]. by rewrite IH, Swap_perm.
Qed.

(** [down] leaves the elements from [n] on alone *)
Lemma down_lookup fuel l i n m :
  i < n → n ≤ m → n ≤ length l → down by_key fuel l i n !! m = l !! m.
Proof.
  revert l i. induction fuel as [|fuel IH]; intros l i Hi Hm Hn; [done|]. cbn [down].
  case_decide as Hleaf; [done|]. set (j := if _ && _ then _ else _).
  assert (j < n) as Hj. { unfold j. case_bool_decide; [|simpl; lia]. simpl. case_match; lia. }
  clearbody j. case_match; [done|]. rewrite IH; [|done|done|by rewrite Swap_length].
  unfold Swap. destruct (l !! i) eqn:?; [|done]. destruct (l !! j) eqn:?; [|done].
  by rewrite !list_lookup_insert_ne by lia.
Qed.

(** the root of a heap has the smallest key *)
Lemma heap_root l i : is_heap l → i < length l → (at_key l 0 ≤ at_key l i)%Z.
Proof.
  intros Hh. induction (lt_wf i) as [i _ IH]. intros Hi.
  destruct (decide (i = 0)) as [->|Hne]; [lia|].
  specialize (IH ((i - 1) / 2)). specialize (Hh i). lia.
Qed.

Lemma heap_root_min l x y : is_heap l → l !! 0 = Some x → y ∈ l → (key x ≤ key y)%Z.
Proof.
  intros Hh Hx [i Hy]%list_elem_of_lookup. pose proof (heap_root l i Hh) as H.
  unfold at_key in H. rewrite Hx, Hy in H. apply H. by eapply lookup_lt_Some.
Qed.

(** [heap.Pop] removes the root and leaves a heap *)
Lemma heap_Pop_correct l x :
  is_heap l → l !! 0 = Some x →
  ∃ l', heap_Pop by_key l = Some (x, l') ∧ is_heap l' ∧ l ≡ₚ x :: l'.
Proof.
  intros Hh Hx. unfold heap_Pop. set (n := length l - 1).
  assert (n < length l) as Hn by (apply lookup_lt_Some in Hx; lia).
  destruct (lookup_lt_is_Some_2 l n Hn) as [y Hy].
  set (l1 := Swap l 0 n). assert (length l1 = length l) as Hlen by apply Swap_length.
  set (l2 := down by_key (length l) l1 0 n).
  assert (length l2 = length l) as Hlen2 by (unfold l2; by rewrite down_perm).
  assert (l2 !! n = Some x) as Hlast.
  { assert (l1 !! n = Some x) as H1.
    { unfold l1, Swap. rewrite Hx, Hy. destruct (decide (n = 0)) as [Hz|Hz].
      - rewrite Hz in *. rewrite list_lookup_insert_eq by (rewrite length_insert; lia). congruence.
      - rewrite list_lookup_insert_ne by lia. by apply list_lookup_insert_eq. }
    destruct (decide (n = 0)) as [Hz|Hz].
    - unfold l2. rewrite Hz in *. destruct (length l) as [|k]; [lia|]. cbn [down].
      by rewrite decide_True by lia.
    - unfold l2. by rewrite down_lookup by lia. }
  assert (l2 = take n l2 ++ [x]) as Hsplit.
  { rewrite <-(take_drop n l2) at 1. f_equal. apply drop_S in Hlast. rewrite Hlast.
    f_equal. apply drop_ge. lia. }
  rewrite Hlast. simpl. eexists. split; [done|]. split.
  - intros i Hi. rewrite length_take in Hi.
    assert (∀ m, m < n → at_key (take n l2) m = at_key l2 m) as Ht
      by (intros m Hm; unfold at_key; by rewrite lookup_take_lt).
    rewrite !Ht by lia. apply down_correct; [lia..| |lia].
    split; [|lia]. intros c Hc Hne. unfold l1. rewrite !Swap_at by lia.
    rewrite !decide_False by lia. apply Hh. lia.
  - rewrite Permutation_cons_append, <-Hsplit. unfold l2, l1. by rewrite down_perm, Swap_perm.
Qed.
End Correct.

(** ** Changing the order *)

Lemma is_heap_ext {A} (k k' : A → Z) l :
  (∀ x, x ∈ l → k x = k' x) → is_heap k l → is_heap k' l.
Proof.
  intros Hk Hh i Hi. specialize (Hh i Hi). unfold at_key in *.
  destruct (l !! i) as [x|] eqn:Hx; [|apply lookup_ge_None in Hx; lia].
  destruct (l !! ((i - 1) / 2)) as [y|] eqn:Hy.
  - cbn [from_option] in *. rewrite <-!Hk; [done|by eapply list_elem_of_lookup_2..].
  - apply lookup_ge_None in Hy. assert ((i - 1) / 2 < length l); [|lia].
    pose proof (Nat.Div0.div_le_upper_bound (i - 1) 2 (i - 1)). lia.
Qed.

(** lowering the root keeps a heap *)
Lemma is_heap_root {A} `{EqDecision A} (k k' : A → Z) p l :
  NoDup l → l !! 0 = Some p → (∀ x, x ∈ l → x ≠ p → k' x = k x) →
  (∀ x, x ∈ l → k' p ≤ k' x)%Z → is_heap k l → is_heap k' l.
Proof.
  intros Hnd H0 Hk Hp Hh i Hi. specialize (Hh i Hi). unfold at_key in *.
  assert ((i - 1) / 2 < i) as Hlt by (apply Nat.Div0.div_lt_upper_bound; lia).
  destruct (l !! i) as [x|] eqn:Hx; [|apply lookup_ge_None in Hx; lia].
  destruct (l !! ((i - 1) / 2)) as [y|] eqn:Hy; [|apply lookup_ge_None in Hy; lia].
  cbn [from_option] in *.
  assert (x ≠ p) as Hxp by (intros ->; pose proof (NoDup_lookup _ _ _ _ Hnd H0 Hx); lia).
  destruct (decide (y = p)) as [->|Hyp]; [apply Hp; by eapply list_elem_of_lookup_2|].
  rewrite !Hk; [done|by eapply list_elem_of_lookup_2|done|by eapply list_elem_of_lookup_2|done].
Qed.
