(* ===== verification/Classifier.v ===== *)
(** * The log classifier

    Model of src/internal/log_analysis/log_processor/classification:
    classifier.go and parser_queue.go.  Queue items are pointers into a store,
    because [Classify] changes an item's penalty through a pointer it keeps
    after the item left the queue.  The parsers are a parameter: [Parse] maps
    a parser's state and a line to its next state and its events, nil, or a
    panic; [LogType] names it.  Measured durations are arguments. *)

From S2P Require Import Prelude GoHeap.

(** ** strings.TrimSpace

    The UTF-8 encodings of the white space of Unicode (unicode.IsSpace). *)

Definition bytes (l : list nat) : string := String.string_of_list_ascii (ascii_of_nat <$> l).

Definition spaces : list string :=
  bytes <$> ([[9]; [10]; [11]; [12]; [13]; [32]; [194; 133]; [194; 160]; [225; 154; 128];
     [226; 128; 168]; [226; 128; 169]; [226; 128; 175]; [226; 129; 159]; [227; 128; 128]]
    ++ ((λ k, [226; 128; k]) <$> seq 128 11)).

Fixpoint drop_bytes (n : nat) (s : string) : string :=
  match n, s with
  | S n, String _ s' => drop_bytes n s'
  | _, _ => s
  end.

(** strip leading members of [pats]; each strips at least one byte *)
Fixpoint strip (fuel : nat) (pats : list string) (s : string) : string :=
  match fuel with
  | O => s
  | S fuel =>
      match list_find (λ p, has_prefix p s = true) pats with
      | Some (_, p) => strip fuel pats (drop_bytes (String.length p) s)
      | None => s
      end
  end.

Definition rev_string (s : string) : string :=
  String.string_of_list_ascii (reverse (String.list_ascii_of_string s)).

Definition TrimSpace (s : string) : string :=
  let left := strip (String.length s) spaces s in
  rev_string (strip (String.length left) (rev_string <$> spaces) (rev_string left)).

Example TrimSpace_examples :
  TrimSpace " a b  " = "a b" ∧ TrimSpace (bytes [10]) = "" ∧
  TrimSpace (bytes [194; 160; 97; 226; 128; 131; 13; 10]) = "a".
Proof. vm_compute. auto. Qed.

(** ** Statistics *)

Record ClassifierStats := {
  ClassifyTimeMicroseconds : Z;
  BytesProcessedCount : Z;
  LogLineCount : Z;
  EventCount : Z;
  SuccessfullyClassifiedCount : Z;
  ClassificationFailureCount : Z
}.

Record ParserStats := {
  ParserTimeMicroseconds : Z;
  psBytesProcessedCount : Z;
  psLogLineCount : Z;
  psEventCount : Z;
  psLogType : string
}.

Definition zero_stats : ClassifierStats :=
  {| ClassifyTimeMicroseconds := 0; BytesProcessedCount := 0; LogLineCount := 0; EventCount := 0;
     SuccessfullyClassifiedCount := 0; ClassificationFailureCount := 0 |}.

Section Classifier.
Context {PS Event : Type}.
Context (Parse : PS → string → PS * outcome (option (list Event))) (LogType : PS → string).

Record ParserQueueItem := { parser : PS; penalty : Z }.

(** pointers to queue items and the memory they point to *)
Notation ptr := nat.
Notation memory := (list ParserQueueItem).

Record ClassifierResult := { Events : option (list Event); resLogType : option string }.

Record Classifier := {
  items : list ptr;               (* c.parsers.items *)
  mem : memory;
  stats : ClassifierStats;
  parserStats : gmap string ParserStats
}.

(** ParserPriorityQueue.Less compares the penalties *)
Definition penalty_of (m : memory) (p : ptr) : Z := from_option penalty 0%Z (m !! p).
Definition queue_less (m : memory) : ptr → ptr → bool := by_key (penalty_of m).

(** NewClassifier and initialize: one item per registered parser, in the
    order the registry map is iterated *)
Definition NewClassifier (registry : list PS) : Classifier :=
  {| items := seq 0 (length registry);
     mem := (λ ps, {| parser := ps; penalty := 1 |}) <$> registry;
     stats := zero_stats; parserStats := ∅ |}.

(** the events of the line, nil when the parser returned nil or panicked *)
Definition safeLogParse (ps : PS) (log : string) : PS * option (list Event) :=
  match Parse ps log with
  | (ps', Ret events) => (ps', events)
  | (ps', Panic _) => (ps', None)
  end.

Definition bump_parser (st : gmap string ParserStats) (logType log : string)
    (events : list Event) (micros : Z) : gmap string ParserStats :=
  let s := default {| ParserTimeMicroseconds := 0; psBytesProcessedCount := 0; psLogLineCount := 0;
                      psEventCount := 0; psLogType := logType |} (st !! logType) in
  <[logType := {| ParserTimeMicroseconds := uint64 (ParserTimeMicroseconds s + micros);
                  psBytesProcessedCount := uint64 (psBytesProcessedCount s + slen log);
                  psLogLineCount := uint64 (psLogLineCount s + 1);
                  psEventCount := uint64 (psEventCount s + Z.of_nat (length events));
                  psLogType := psLogType s |}]> st.

(** The loop of Classify: [popped] are the failed items, [micros] the time
    each parser takes.  Every iteration removes an item or stops, so the
    queue's length is enough fuel. *)
Fixpoint classify_loop (fuel : nat) (micros : ptr → Z) (log : string) (c : Classifier)
    (popped : list ptr) : outcome (Classifier * list ptr * ClassifierResult) :=
  match fuel, items c with
  | _, [] | O, _ => Ret (c, popped, {| Events := None; resLogType := None |})
  | S fuel, p :: _ =>
      match mem c !! p with
      | None => Panic "nil pointer dereference"
      | Some it =>
          let '(ps', parsedEvents) := safeLogParse (parser it) log in
          match parsedEvents with
          | None =>
              let m := <[p := {| parser := ps'; penalty := penalty it |}]> (mem c) in
              match heap_Pop (queue_less m) (items c) with
              | None => Panic "index out of range"
              | Some (x, items') =>
                  let m := <[p := {| parser := ps'; penalty := int64 (penalty it + 1) |}]> m in
                  classify_loop fuel micros log
                    {| items := items'; mem := m; stats := stats c; parserStats := parserStats c |}
                    (popped ++ [x])
              end
          | Some events =>
              Ret ({| items := items c;
                      mem := <[p := {| parser := ps'; penalty := 0 |}]> (mem c);
                      stats := stats c;
                      parserStats := bump_parser (parserStats c) (LogType ps') log events (uint64 (micros p)) |},
                   popped,
                   {| Events := Some events; resLogType := Some (LogType ps') |})
          end
      end
  end.

(** heap.Push of every popped item, in order *)
Definition push_back (c : Classifier) (popped : list ptr) : Classifier :=
  {| items := foldl (heap_Push (queue_less (mem c))) (items c) popped; mem := mem c;
     stats := stats c; parserStats := parserStats c |}.

(** the deferred update of the aggregate statistics; [log] is the trimmed
    line, which the closure sees *)
Definition update_stats (c : Classifier) (log : string) (res : ClassifierResult) (micros : Z)
    : Classifier :=
  let s := stats c in
  let ok := match resLogType res with Some _ => true | None => false end in
  let nonempty := bool_decide (0 < slen log)%Z in
  {| items := items c; mem := mem c; parserStats := parserStats c;
     stats := {|
       ClassifyTimeMicroseconds := uint64 micros;
       BytesProcessedCount := uint64 (BytesProcessedCount s + slen log);
       LogLineCount := uint64 (LogLineCount s + 1);
       EventCount := uint64 (EventCount s + Z.of_nat (length (default [] (Events res))));
       SuccessfullyClassifiedCount :=
         if nonempty && ok then uint64 (SuccessfullyClassifiedCount s + 1)
         else SuccessfullyClassifiedCount s;
       ClassificationFailureCount :=
         if nonempty && negb ok then uint64 (ClassificationFailureCount s + 1)
         else ClassificationFailureCount s |} |}.

Definition no_result : ClassifierResult := {| Events := None; resLogType := None |}.

Definition Classify (c : Classifier) (line : string) (classifyMicros : Z) (micros : ptr → Z)
    : outcome (Classifier * ClassifierResult) :=
  if decide (slen line = 0)%Z then Ret (c, no_result)
  else
    let log := TrimSpace line in
    if decide (slen log = 0)%Z then Ret (update_stats c log no_result classifyMicros, no_result)
    else
      r ← classify_loop (length (items c)) micros log c [];
      let '(c', popped, res) := r in
      Ret (update_stats (push_back c' popped) log res classifyMicros, res).

(** a file: the lines in order *)
Fixpoint classify_all (c : Classifier) (lines : list (string * Z * (ptr → Z)))
    : outcome (Classifier * list ClassifierResult) :=
  match lines with
  | [] => Ret (c, [])
  | (line, t, micros) :: lines =>
      r ← Classify c line t micros;
      rs ← classify_all r.1 lines;
      Ret (rs.1, r.2 :: rs.2)
  end.

(** ** Invariant *)

(** The queue is a heap of distinct allocated items whose penalties lie
    between 0 and [bound]. *)
Record wf (bound : Z) (c : Classifier) : Prop := {
  wf_heap : is_heap (penalty_of (mem c)) (items c);
  wf_nodup : NoDup (items c);
  wf_alloc : ∀ p, p ∈ items c → is_Some (mem c !! p);
  wf_penalty : ∀ p, p ∈ items c → (0 ≤ penalty_of (mem c) p ≤ bound)%Z
}.

Lemma penalty_insert_eq m p it : is_Some (m !! p) → penalty_of (<[p := it]> m) p = penalty it.
Proof.
  intros Hs. unfold penalty_of. rewrite list_lookup_insert_eq; [done|].
  by apply lookup_lt_is_Some.
Qed.

Lemma penalty_insert_ne m p q it : q ≠ p → penalty_of (<[p := it]> m) q = penalty_of m q.
Proof. intros Hq. unfold penalty_of. by rewrite list_lookup_insert_ne. Qed.

Lemma push_all_correct m popped l :
  is_heap (penalty_of m) l →
  is_heap (penalty_of m) (foldl (heap_Push (queue_less m)) l popped) ∧
  foldl (heap_Push (queue_less m)) l popped ≡ₚ popped ++ l.
Proof.
  revert l. induction popped as [|x popped IH]; intros l Hh; [done|]. simpl.
  destruct (heap_Push_correct (penalty_of m) l x Hh) as [Hh' Hp].
  destruct (IH _ Hh') as [Hh'' Hp']. split; [done|].
  unfold queue_less in *. rewrite Hp', Hp. by rewrite Permutation_middle.
Qed.

(** ** The loop *)

(** what the parser behind a pointer answers to a line *)
Definition answer (m : memory) (log : string) (p : ptr) : option (list Event) :=
  it ← m !! p; (safeLogParse (parser it) log).2.

(** The effect of trying parsers on [log]: the [tried] ones, in order, reject
    it and get one more penalty point; then either no parser is left, or the
    next one [w], whose penalty is the least of those left, accepts the line and
    loses its penalty; no other item changes. *)
Definition tried_then (log : string) (l : list ptr) (m m' : memory) (tried rest : list ptr)
    (res : ClassifierResult) : Prop :=
  tried ++ rest ≡ₚ l ∧ length m' = length m ∧
  (∀ p, p ∈ tried → answer m log p = None ∧ penalty_of m' p = (penalty_of m p + 1)%Z) ∧
  (∀ p q, p ∈ tried → q ∈ rest → (penalty_of m p ≤ penalty_of m q)%Z) ∧
  match rest with
  | [] => res = no_result ∧ (∀ q, q ∉ tried → m' !! q = m !! q)
  | w :: _ => ∃ it ps' evs, m !! w = Some it ∧ safeLogParse (parser it) log = (ps', Some evs) ∧
      res = {| Events := Some evs; resLogType := Some (LogType ps') |} ∧
      m' !! w = Some {| parser := ps'; penalty := 0 |} ∧
      (∀ q, q ∉ tried → q ≠ w → m' !! q = m !! q) ∧
      (∀ q, q ∈ rest → (penalty_of m w ≤ penalty_of m q)%Z)
  end.

Lemma tried_then_cons log l l' m m1 m' p it ps' tried rest res :
  l ≡ₚ p :: l' → NoDup l → m !! p = Some it → safeLogParse (parser it) log = (ps', None) →
  (∀ q, q ∈ l → (penalty_of m p ≤ penalty_of m q)%Z) →
  m1 = <[p := {| parser := ps'; penalty := penalty it + 1 |}]> m →
  tried_then log l' m1 m' tried rest res →
  tried_then log l m m' (p :: tried) rest res.
Proof.
  intros Hl Hnd Hp Hans Hmin -> (Hperm&Hlen&Htr&Hord&Hrest).
  assert (p ∉ l') as Hpl' by (rewrite Hl in Hnd; by apply NoDup_cons in Hnd as [? _]).
  assert (∀ q, q ∈ tried ++ rest → q ≠ p) as Hne by (intros q Hq ->; by rewrite Hperm in Hq).
  assert (∀ q, q ∈ tried ++ rest → q ∈ l) as Hin by (intros q Hq; rewrite Hl, <-Hperm; by right).
  assert (is_Some (m !! p)) as Hs by eauto.
  set (m1 := <[p := _]> m) in *.
  assert (∀ q, q ≠ p → m1 !! q = m !! q) as Hm1 by (intros; by apply list_lookup_insert_ne).
  assert (∀ q, q ≠ p → penalty_of m1 q = penalty_of m q) as Hpen
    by (intros; by apply penalty_insert_ne).
  assert (p ∉ tried ++ rest) as Hp' by (by rewrite Hperm).
  assert (∀ q, m' !! q = m1 !! q → penalty_of m' q = penalty_of m1 q) as Hpm
    by (intros q E; unfold penalty_of; by rewrite E).
  split_and!.
  - simpl. by rewrite Hl, Hperm.
  - rewrite Hlen. apply length_insert.
  - intros q [-> |Hq]%elem_of_cons.
    + split; [unfold answer; rewrite Hp; simpl; by rewrite Hans|].
      rewrite Hpm; [unfold m1; rewrite penalty_insert_eq by done|].
      { unfold penalty_of. by rewrite Hp. }
      destruct rest as [|w rest]; [by apply Hrest; set_solver|].
      destruct Hrest as (?&?&?&?&?&?&?&Hq&_). apply Hq; set_solver.
    + destruct (Htr q Hq) as [H1 H2]. assert (q ≠ p) by (apply Hne; set_solver).
      rewrite Hpen in H2 by done. split; [|done]. unfold answer in *. by rewrite Hm1 in H1.
  - intros q r [-> |Hq]%elem_of_cons Hr; [apply Hmin, Hin; set_solver|].
    rewrite <-!Hpen by (apply Hne; set_solver). auto.
  - destruct rest as [|w rest].
    + destruct Hrest as [-> Hq]. split; [done|]. intros q Hqt. rewrite Hq by set_solver.
      apply Hm1. set_solver.
    + destruct Hrest as (it'&ps''&evs&Hw&Hans'&->&Hw'&Hoth&Hminw).
      assert (w ≠ p) by (apply Hne; set_solver).
      exists it', ps'', evs. split_and!; [by rewrite <-Hm1|done..| |].
      * intros q Hqt Hqw. rewrite Hoth by set_solver. apply Hm1. set_solver.
      * intros q Hq. rewrite <-!Hpen by (apply Hne; set_solver). auto.
Qed.

(** popping the root after a failed attempt keeps the invariant *)
Lemma pop_root bound c p it ps' :
  wf bound c → (bound + 1 < two63)%Z → items c !! 0 = Some p → mem c !! p = Some it →
  let m := <[p := {| parser := ps'; penalty := penalty it |}]> (mem c) in
  let m1 := <[p := {| parser := ps'; penalty := int64 (penalty it + 1) |}]> m in
  ∃ l', heap_Pop (queue_less m) (items c) = Some (p, l') ∧ items c ≡ₚ p :: l' ∧
    m1 = <[p := {| parser := ps'; penalty := penalty it + 1 |}]> (mem c) ∧
    ∀ st ps, wf bound {| items := l'; mem := m1; stats := st; parserStats := ps |}.
Proof.
  intros [Hh Hnd Hal Hpen] Hb H0 Hit m m1.
  assert (p ∈ items c) as Hpin by (by eapply list_elem_of_lookup_2).
  assert (penalty_of (mem c) p = penalty it) as Hpp by (unfold penalty_of; by rewrite Hit).
  assert (m1 = <[p := {| parser := ps'; penalty := penalty it + 1 |}]> (mem c)) as Hm1.
  { unfold m1, m. rewrite list_insert_insert_eq. rewrite int64_id; [done|].
    specialize (Hpen p Hpin). unfold in_int64, two63 in *. lia. }
  assert (is_heap (penalty_of m) (items c)) as Hhm.
  { eapply is_heap_ext; [|exact Hh]. intros q _. unfold m.
    destruct (decide (q = p)) as [->|]; [by rewrite penalty_insert_eq by eauto|].
    by rewrite penalty_insert_ne. }
  destruct (heap_Pop_correct (penalty_of m) (items c) p Hhm H0) as (l'&Hpop&Hh'&Hperm).
  exists l'. split_and!; [done..|]. intros st ps.
  assert (NoDup (p :: l')) as Hnd' by (by rewrite <-Hperm).
  apply NoDup_cons in Hnd' as [Hpl' Hnd'].
  assert (∀ q, q ∈ l' → q ≠ p ∧ q ∈ items c) as Hl'
    by (intros q Hq; rewrite Hperm; split; [by intros ->|by right]).
  split; cbn [items mem]; [|done| |].
  - eapply is_heap_ext; [|exact Hh']. intros q [Hq _]%Hl'.
    unfold m1. by rewrite penalty_insert_ne.
  - intros q [Hq Hq']%Hl'. rewrite Hm1, list_lookup_insert_ne by done. auto.
  - intros q [Hq Hq']%Hl'. rewrite Hm1, penalty_insert_ne by done. auto.
Qed.

Lemma classify_loop_correct bound fuel micros log c popped :
  wf bound c → (bound + 1 < two63)%Z → length (items c) ≤ fuel →
  ∃ c' tried res,
    classify_loop fuel micros log c popped = Ret (c', popped ++ tried, res) ∧
    tried_then log (items c) (mem c) (mem c') tried (items c') res ∧
    is_heap (penalty_of (mem c')) (items c') ∧ stats c' = stats c.
Proof.
  revert c popped. induction fuel as [|fuel IH]; intros c popped Hwf Hb Hf.
  { destruct (items c) as [|p l] eqn:Hi; [|simpl in Hf; lia]. simpl. rewrite Hi.
    exists c, [], no_result. rewrite app_nil_r, Hi. split; [done|]. split; [|by split; [intros ?; simpl; lia|]].
    split_and!; try done; try set_solver. }
  cbn [classify_loop]. destruct (items c) as [|p l] eqn:Hi.
  { exists c, [], no_result. rewrite app_nil_r, Hi. split; [done|]. split; [|by split; [intros ?; simpl; lia|]].
    split_and!; try done; try set_solver. }
  destruct Hwf as [Hh Hnd Hal Hpen]. assert (items c !! 0 = Some p) as H0 by (by rewrite Hi).
  destruct (Hal p) as [it Hit]; [rewrite Hi; by left|]. rewrite Hit.
  assert (∀ q, q ∈ items c → (penalty_of (mem c) p ≤ penalty_of (mem c) q)%Z) as Hmin
    by (intros q Hq; by eapply heap_root_min).
  destruct (safeLogParse (parser it) log) as [ps' [evs|]] eqn:Hans.
  - eexists _, [], _. rewrite app_nil_r. split; [done|]. cbn [items mem stats]. rewrite <-Hi.
    split; [|split; [|done]].
    + split_and!; [done|apply length_insert|set_solver|set_solver|]. rewrite Hi.
      exists it, ps', evs. split_and!; try done.
      * apply list_lookup_insert_eq. by eapply lookup_lt_Some.
      * intros q _ Hq. by apply list_lookup_insert_ne.
      * by rewrite <-Hi.
    + eapply is_heap_root; [exact Hnd|exact H0| | |exact Hh].
      * intros q _ Hq. by apply penalty_insert_ne.
      * intros q Hq. rewrite penalty_insert_eq by eauto. cbn [penalty].
        destruct (decide (q = p)) as [->|]; [by rewrite penalty_insert_eq by eauto|].
        rewrite penalty_insert_ne by done. by apply Hpen.
  - destruct (pop_root bound c p it ps') as (l'&Hpop&Hperm&Hm1&Hwf'); [by split|done..|].
    rewrite <-Hi. rewrite Hpop.
    specialize (Hwf' (stats c) (parserStats c)).
    destruct (IH _ (popped ++ [p]) Hwf' Hb) as (c'&tried&res&->&Htr&Hh'&Hst).
    { cbn [items]. apply Permutation_length in Hperm. rewrite Hi in Hperm. simpl in *. lia. }
    exists c', (p :: tried), res. rewrite <-app_assoc. split; [done|]. split; [|done].
    eapply tried_then_cons; [exact Hperm|done|done|done|done|exact Hm1|exact Htr].
Qed.

(** The observable effect of classifying the trimmed line [log] on the
    parsers [l]. *)
Definition classified (log : string) (l : list ptr) (m m' : memory) (res : ClassifierResult) : Prop :=
  (res = no_result ∧ ∀ p, p ∈ l → answer m log p = None ∧ penalty_of m' p = (penalty_of m p + 1)%Z) ∨
  (∃ w it ps' evs, w ∈ l ∧ m !! w = Some it ∧ safeLogParse (parser it) log = (ps', Some evs) ∧
     res = {| Events := Some evs; resLogType := Some (LogType ps') |} ∧
     m' !! w = Some {| parser := ps'; penalty := 0 |} ∧
     ∀ p, p ∈ l → p ≠ w →
       (answer m log p = None ∧ penalty_of m' p = (penalty_of m p + 1)%Z ∧
        (penalty_of m p ≤ penalty_of m w)%Z) ∨
       (m' !! p = m !! p ∧ (penalty_of m w ≤ penalty_of m p)%Z)).

Lemma tried_then_classified log l m m' tried rest res :
  tried_then log l m m' tried rest res → classified log l m m' res.
Proof.
  intros (Hperm&_&Htr&Hord&Hrest). destruct rest as [|w rest].
  - left. destruct Hrest as [-> _]. split; [done|]. intros p Hp. apply Htr.
    rewrite <-Hperm, app_nil_r in Hp. done.
  - right. destruct Hrest as (it&ps'&evs&Hw&Ha&->&Hw'&Hoth&Hmin).
    exists w, it, ps', evs. split_and!; [rewrite <-Hperm; set_solver|done..|].
    intros p Hp Hpw. rewrite <-Hperm in Hp. destruct (decide (p ∈ tried)) as [Ht|Ht].
    + left. destruct (Htr p Ht). split_and!; [done..|]. apply Hord; set_solver.
    + right. split; [by apply Hoth|]. apply Hmin. set_solver.
Qed.

Lemma tried_then_wf bound log c c' tried res st ps l' :
  wf bound c → (0 ≤ bound)%Z → tried_then log (items c) (mem c) (mem c') tried (items c') res →
  is_heap (penalty_of (mem c')) l' → l' ≡ₚ items c →
  wf (bound + 1) {| items := l'; mem := mem c'; stats := st; parserStats := ps |}.
Proof.
  intros [Hh Hnd Hal Hpen] Hb (Hperm&Hlen&Htr&Hord&Hrest) Hheap Hl'.
  split; cbn [items mem]; [done|by rewrite Hl'| |].
  - intros p Hp. rewrite Hl' in Hp. apply Hal in Hp. apply lookup_lt_is_Some in Hp.
    apply lookup_lt_is_Some. lia.
  - intros p Hp. rewrite Hl' in Hp. specialize (Hpen p Hp).
    destruct (decide (p ∈ tried)) as [Ht|Ht]; [destruct (Htr p Ht); lia|].
    destruct (items c') as [|w rest].
    + destruct Hrest as [_ Hq]. unfold penalty_of in *. rewrite Hq by done. lia.
    + destruct Hrest as (it&ps'&evs&Hw&Ha&->&Hw'&Hoth&_).
      destruct (decide (p = w)) as [->|Hpw]; unfold penalty_of in *; [rewrite Hw'; simpl; lia|].
      rewrite Hoth by done. lia.
Qed.

Lemma TrimSpace_empty : TrimSpace "" = "".
Proof. done. Qed.

Lemma slen_zero s : slen s = 0%Z ↔ s = "".
Proof. unfold slen. destruct s; simpl; split; intros; try done; lia. Qed.

Lemma Classify_nonblank bound c line t micros :
  wf bound c → (0 ≤ bound)%Z → (bound + 1 < two63)%Z → TrimSpace line ≠ "" →
  ∃ c1 c' res, Classify c line t micros = Ret (c', res) ∧
    c' = update_stats c1 (TrimSpace line) res t ∧ stats c1 = stats c ∧
    items c' ≡ₚ items c ∧ wf (bound + 1) c' ∧
    classified (TrimSpace line) (items c) (mem c) (mem c') res.
Proof.
  intros Hwf Hb0 Hb Hline. unfold Classify.
  rewrite decide_False by (rewrite slen_zero; intros ->; by rewrite TrimSpace_empty in Hline).
  rewrite decide_False by (by rewrite slen_zero).
  destruct (classify_loop_correct bound (length (items c)) micros (TrimSpace line) c [] Hwf Hb)
    as (c1&tried&res&E&Htr&Hh&Hst); [done|].
  rewrite E. cbn [mbind outcome_bind app].
  destruct (push_all_correct (mem c1) tried (items c1) Hh) as [Hh' Hp'].
  assert (foldl (heap_Push (queue_less (mem c1))) (items c1) tried ≡ₚ items c) as Hperm.
  { rewrite Hp'. by destruct Htr as [-> _]. }
  exists (push_back c1 tried). do 2 eexists. split; [done|].
  split_and!; [done|done|done| |by eapply tried_then_classified].
  exact (tried_then_wf _ _ _ _ _ _ _ _ _ Hwf Hb0 Htr Hh' Hperm).
Qed.

(** C16: classifying a non-blank line always returns, loses no parser, keeps
    the queue a heap, and does what the queue is for: the line goes to a
    parser that accepts it, every parser of smaller penalty that was tried
    before rejected it and is penalised by one, the parser that accepted has
    its penalty cleared, no other parser is touched; and there is no result
    exactly when every parser rejects the line (a panic counts as rejection). *)
Theorem Classify_correct bound c line t micros :
  wf bound c → (0 ≤ bound)%Z → (bound + 1 < two63)%Z → TrimSpace line ≠ "" →
  ∃ c' res, Classify c line t micros = Ret (c', res) ∧
    items c' ≡ₚ items c ∧ wf (bound + 1) c' ∧
    classified (TrimSpace line) (items c) (mem c) (mem c') res ∧
    (resLogType res = None ↔ ∀ p, p ∈ items c → answer (mem c) (TrimSpace line) p = None).
Proof.
  intros Hwf Hb0 Hb Hline.
  destruct (Classify_nonblank bound c line t micros Hwf Hb0 Hb Hline)
    as (c1&c'&res&H1&_&_&H2&H3&H4).
  exists c', res. split_and!; [done..|].
  destruct H4 as [[-> Hall]|(w&it&ps'&evs&Hw&Hit&Ha&->&_)].
  - split; [|done]. intros _ p Hp. by apply Hall.
  - split; [done|]. intros Hno. specialize (Hno w Hw). unfold answer in Hno. rewrite Hit in Hno.
    simpl in Hno. by rewrite Ha in Hno.
Qed.

(** ** Files *)

Definition b2z (b : bool) : Z := if b then 1%Z else 0%Z.
Definition classified_ok (res : ClassifierResult) : bool := bool_decide (is_Some (resLogType res)).

Definition counters_ok (n : Z) (st : ClassifierStats) : Prop :=
  (0 ≤ LogLineCount st ∧ LogLineCount st + n < two64 ∧
   0 ≤ SuccessfullyClassifiedCount st ∧ SuccessfullyClassifiedCount st + n < two64 ∧
   0 ≤ ClassificationFailureCount st ∧ ClassificationFailureCount st + n < two64)%Z.

Lemma wf_mono b b' c : (b ≤ b')%Z → wf b c → wf b' c.
Proof. intros Hb [? ? ? Hp]. split; [done..|]. intros p Hpin. specialize (Hp p Hpin). lia. Qed.

Lemma uint64_succ z : (0 ≤ z)%Z → (z + 1 < two64)%Z → uint64 (z + 1) = (z + 1)%Z.
Proof. intros. apply uint64_id. lia. Qed.

(** one line: invariant and statistics *)
Lemma Classify_step bound n c line t micros :
  wf bound c → (0 ≤ bound)%Z → (bound + 1 < two63)%Z → (0 ≤ n)%Z → counters_ok (n + 1) (stats c) →
  ∃ c' res, Classify c line t micros = Ret (c', res) ∧ wf (bound + 1) c' ∧ items c' ≡ₚ items c ∧
    counters_ok n (stats c') ∧
    (LogLineCount (stats c') = LogLineCount (stats c) + b2z (bool_decide (line ≠ "")))%Z ∧
    (SuccessfullyClassifiedCount (stats c') =
       SuccessfullyClassifiedCount (stats c) + b2z (classified_ok res))%Z ∧
    (SuccessfullyClassifiedCount (stats c') + ClassificationFailureCount (stats c') =
       SuccessfullyClassifiedCount (stats c) + ClassificationFailureCount (stats c) +
       b2z (bool_decide (TrimSpace line ≠ "")))%Z ∧
    ClassifyTimeMicroseconds (stats c') =
      (if decide (line = "") then ClassifyTimeMicroseconds (stats c) else uint64 t).
Proof.
  intros Hwf Hb0 Hb Hn (?&?&?&?&?&?).
  destruct (decide (line = "")) as [->|Hline].
  { exists c, no_result. unfold Classify. rewrite decide_True by done.
    rewrite TrimSpace_empty, !bool_decide_false by auto. unfold counters_ok. cbn.
    split_and!; try done; [apply (wf_mono bound); [lia|done]|lia..]. }
  assert (bool_decide (line ≠ "") = true) as -> by (by apply bool_decide_true).
  destruct (decide (TrimSpace line = "")) as [Ht|Ht].
  { exists (update_stats c "" no_result t), no_result. unfold Classify.
    rewrite Ht. rewrite (decide_False (P := slen line = 0%Z)) by (by rewrite slen_zero).
    rewrite decide_True by done.
    rewrite (bool_decide_false ("" ≠ "")) by auto.
    assert (bool_decide (0 < slen "")%Z = false) as Hz by done.
    unfold counters_ok, update_stats. cbn -[uint64 two64 slen]. rewrite Hz. cbn [andb].
    rewrite ?uint64_succ by lia.
    split_and!; try done; try lia.
    apply (wf_mono bound); [lia|]. by destruct Hwf; split. }
  destruct (Classify_nonblank bound c line t micros Hwf Hb0 Hb Ht)
    as (c1&c'&res&E&->&Hst&Hperm&Hwf'&_).
  exists (update_stats c1 (TrimSpace line) res t), res.
  assert (bool_decide (0 < slen (TrimSpace line))%Z = true) as Hpos.
  { apply bool_decide_true. assert (slen (TrimSpace line) ≠ 0%Z) by (by rewrite slen_zero).
    unfold slen in *. lia. }
  rewrite (bool_decide_true (TrimSpace line ≠ "")) by done.
  split; [exact E|]. split; [exact Hwf'|]. split; [exact Hperm|].
  unfold counters_ok, classified_ok, update_stats. cbn -[uint64 two64]. rewrite Hst, Hpos.
  destruct (resLogType res) as [lt|]; cbn -[uint64 two64].
  - rewrite !uint64_succ by lia.
    split_and!; try done; cbn [b2z]; lia.
  - rewrite !uint64_succ by lia.
    split_and!; try done; cbn [b2z]; lia.
Qed.

Definition count {A} (P : A → bool) (l : list A) : Z := foldr (λ x n, b2z (P x) + n)%Z 0%Z l.

Lemma count_cons {A} (P : A → bool) x l : count P (x :: l) = (b2z (P x) + count P l)%Z.
Proof. done. Qed.

(** the duration of the last line that was not empty *)
Fixpoint last_time (old : Z) (lines : list (string * Z * (ptr → Z))) : Z :=
  match lines with
  | [] => old
  | (line, t, _) :: lines => last_time (if decide (line = "") then old else uint64 t) lines
  end.

Lemma classify_all_inv bound c lines :
  wf bound c → (0 ≤ bound)%Z → (bound + Z.of_nat (length lines) < two63)%Z →
  counters_ok (Z.of_nat (length lines)) (stats c) →
  ∃ c' rs, classify_all c lines = Ret (c', rs) ∧ length rs = length lines ∧
    items c' ≡ₚ items c ∧ wf (bound + Z.of_nat (length lines)) c' ∧
    (LogLineCount (stats c') = LogLineCount (stats c) +
       count (λ l, bool_decide (l.1.1 ≠ "")) lines)%Z ∧
    (SuccessfullyClassifiedCount (stats c') =
       SuccessfullyClassifiedCount (stats c) + count classified_ok rs)%Z ∧
    (SuccessfullyClassifiedCount (stats c') + ClassificationFailureCount (stats c') =
       SuccessfullyClassifiedCount (stats c) + ClassificationFailureCount (stats c) +
       count (λ l, bool_decide (TrimSpace l.1.1 ≠ "")) lines)%Z ∧
    ClassifyTimeMicroseconds (stats c') = last_time (ClassifyTimeMicroseconds (stats c)) lines.
Proof.
  revert bound c. induction lines as [|[[line t] micros] lines IH]; intros bound c Hwf Hb0 Hb Hcnt.
  { exists c, []. cbn. rewrite Z.add_0_r in *. split_and!; try done; lia. }
  cbn [length] in Hb, Hcnt. rewrite Nat2Z.inj_succ, <-Z.add_1_r in Hb, Hcnt.
  destruct (Classify_step bound (Z.of_nat (length lines)) c line t micros Hwf Hb0)
    as (c1&res&E&Hwf1&Hp1&Hc1&HL&HS&HF&HT); [lia..|done|].
  destruct (IH (bound + 1)%Z c1 Hwf1) as (c2&rs&E2&Hlen&Hp2&Hwf2&HL2&HS2&HF2&HT2); [lia..|done|].
  exists c2, (res :: rs). cbn [classify_all]. rewrite E. cbn [mbind outcome_bind fst snd].
  rewrite E2. cbn [mbind outcome_bind fst snd length].
  split_and!; [done|by rewrite Hlen|by rewrite Hp2| | | | |].
  - eapply wf_mono; [|exact Hwf2]. lia.
  - rewrite HL2, HL, count_cons. cbn [fst]. lia.
  - rewrite HS2, HS, count_cons. lia.
  - rewrite HF2, HF, count_cons. cbn [fst]. lia.
  - rewrite HT2, HT. done.
Qed.

Lemma NewClassifier_wf registry : wf 1 (NewClassifier registry).
Proof.
  assert (∀ p, p ∈ seq 0 (length registry) →
    penalty_of ((λ ps, {| parser := ps; penalty := 1 |}) <$> registry) p = 1%Z) as Hp.
  { intros p [_ Hp]%elem_of_seq. unfold penalty_of. rewrite list_lookup_fmap.
    destruct (lookup_lt_is_Some_2 registry p) as [ps ->]; [lia|done]. }
  split; cbn [items mem NewClassifier].
  - eapply (is_heap_ext (λ _, 1%Z)); [intros; symmetry; by apply Hp|].
    intros i Hi. unfold at_key.
    assert ((i - 1) / 2 < length (seq 0 (length registry))) as Hl.
    { pose proof (Nat.Div0.div_le_upper_bound (i - 1) 2 (i - 1)). lia. }
    destruct (lookup_lt_is_Some_2 _ _ Hl) as [? ->].
    destruct (lookup_lt_is_Some_2 (seq 0 (length registry)) i) as [? ->]; [lia|]. done.
  - apply NoDup_seq.
  - intros p [_ Hlt]%elem_of_seq. apply lookup_lt_is_Some. rewrite length_fmap. lia.
  - intros p Hpin. rewrite Hp by done. lia.
Qed.

Lemma zero_counters n : (Z.of_nat n + 1 < two63)%Z → counters_ok (Z.of_nat n) zero_stats.
Proof. unfold counters_ok, zero_stats, two63, two64. cbn [LogLineCount
  SuccessfullyClassifiedCount ClassificationFailureCount]. lia. Qed.

(** over any file (of fewer than 2^63 - 1 lines) the classifier never
    panics and keeps every registered parser in its queue; the aggregate
    counters are exact: lines that are not empty, classified lines, and
    classified plus failed lines for the lines that are not blank. *)
Theorem classify_all_correct registry lines :
  (Z.of_nat (length lines) + 1 < two63)%Z →
  ∃ c rs, classify_all (NewClassifier registry) lines = Ret (c, rs) ∧ length rs = length lines ∧
    items c ≡ₚ seq 0 (length registry) ∧ wf (1 + Z.of_nat (length lines)) c ∧
    LogLineCount (stats c) = count (λ l, bool_decide (l.1.1 ≠ "")) lines ∧
    SuccessfullyClassifiedCount (stats c) = count classified_ok rs ∧
    (SuccessfullyClassifiedCount (stats c) + ClassificationFailureCount (stats c))%Z =
      count (λ l, bool_decide (TrimSpace l.1.1 ≠ "")) lines.
Proof.
  intros Hn.
  destruct (classify_all_inv 1 (NewClassifier registry) lines) as (c&rs&H1&H2&H3&H4&H5&H6&H7&_);
    [apply NewClassifier_wf|lia|lia|by apply zero_counters|].
  exists c, rs. by split_and!.
Qed.

(** ClassifyTimeMicroseconds, documented as the total time, is overwritten
    by each line: after a file it is the time of the last line that was not
    empty. *)
Theorem classify_time_not_total registry lines c rs :
  (Z.of_nat (length lines) + 1 < two63)%Z →
  classify_all (NewClassifier registry) lines = Ret (c, rs) →
  ClassifyTimeMicroseconds (stats c) = last_time 0 lines.
Proof.
  intros Hn E.
  destruct (classify_all_inv 1 (NewClassifier registry) lines) as (c'&rs'&H1&_&_&_&_&_&_&H);
    [apply NewClassifier_wf|lia|lia|by apply zero_counters|].
  rewrite E in H1. by simplify_eq.
Qed.
End Classifier.

(** ** Witnesses: a parser that accepts its own name and panics on "boom" *)

Definition demo_parse (ps : string) (log : string) : string * outcome (option (list nat)) :=
  if decide (log = "boom") then (ps, Panic "boom")
  else if decide (log = ps) then (ps, Ret (Some [1; 2])) else (ps, Ret None).

Definition demo : Classifier := NewClassifier ["a"; "b"; "c"].

Lemma Classify_correct_witness :
  wf 1 demo ∧
  ∃ c' res, Classify demo_parse id demo "  c " 5 (λ _, 1%Z) = Ret (c', res) ∧
    items c' ≡ₚ items demo ∧ wf (1 + 1) c' ∧
    classified demo_parse id (TrimSpace "  c ") (items demo) (mem demo) (mem c') res ∧
    (resLogType res = None ↔
     ∀ p, p ∈ items demo → answer demo_parse (mem demo) (TrimSpace "  c ") p = None).
Proof.
  split; [apply NewClassifier_wf|].
  apply (Classify_correct demo_parse id 1 demo "  c " 5 (λ _, 1%Z));
    [apply NewClassifier_wf|discriminate|reflexivity|discriminate].
Defined.

Definition demo_lines : list (string * Z * (nat → Z)) :=
  [("c", 7%Z, λ _, 1%Z); (" ", 8%Z, λ _, 1%Z); ("boom", 9%Z, λ _, 1%Z); ("", 3%Z, λ _, 1%Z)].

Lemma classify_all_correct_witness :
  (Z.of_nat (length demo_lines) + 1 < two63)%Z ∧
  ∃ c rs, classify_all demo_parse id (NewClassifier ["a"; "b"; "c"]) demo_lines = Ret (c, rs) ∧
    length rs = length demo_lines ∧
    items c ≡ₚ seq 0 (length ["a"; "b"; "c"]) ∧ wf (1 + Z.of_nat (length demo_lines)) c ∧
    LogLineCount (stats c) = count (λ l, bool_decide (l.1.1 ≠ "")) demo_lines ∧
    SuccessfullyClassifiedCount (stats c) = count classified_ok rs ∧
    (SuccessfullyClassifiedCount (stats c) + ClassificationFailureCount (stats c))%Z =
      count (λ l, bool_decide (TrimSpace l.1.1 ≠ "")) demo_lines.
Proof.
  assert (Z.of_nat (length demo_lines) + 1 < two63)%Z as H by reflexivity.
  split; [exact H|]. exact (classify_all_correct demo_parse id ["a"; "b"; "c"] demo_lines H).
Defined.

(** three lines that take 7, 8 and 9 microseconds are reported as 9 *)
Lemma classify_time_not_total_witness :
  ∃ c rs, classify_all demo_parse id (NewClassifier ["a"; "b"; "c"]) demo_lines = Ret (c, rs) ∧
    ClassifyTimeMicroseconds (stats c) = 9%Z.
Proof.
  destruct (classify_all demo_parse id (NewClassifier ["a"; "b"; "c"]) demo_lines) as [[c rs]|w] eqn:E.
  - exists c, rs. split; [reflexivity|].
    exact (classify_time_not_total demo_parse id ["a"; "b"; "c"] demo_lines c rs eq_refl E).
  - vm_compute in E. discriminate E.
Defined.
