(* ===== verification/S3Destination.v ===== *)
(** * The S3 destination

    Model of src/internal/log_analysis/log_processor/destinations/s3.go.
    Buffers are shared: the buffer set and the event loop hold pointers into a
    store.  An object is the sequence of writes made to its gzip stream; the
    compression itself is not modelled.  The results of the S3 and SNS calls,
    the identifiers of uuid.New, the JSON encoders, the clock, the ticker and
    the iteration order of maps are parameters.

    The goroutine that drains [sendChan] handles one buffer at a time, in
    order; here it runs to completion at each send.  A buffer that was sent is
    touched again only on the branch of [SendEvents_memory_threshold_panics],
    for which the modelled schedule is one of the possible ones. *)

From S2P Require Import Prelude GoTime Glue RowId PantherLog.

#[local] Open Scope Z_scope.

Definition bytesPerMB : Z := 1024 * 1024.
Definition maxS3BufferSizeBytes : Z := 50 * bytesPerMB.
Definition maxDuration : Z := 60 * Second.

(** [lambdaSizeMB], [memUsedAtStartupMB] *)
Definition maxS3BufferMemUsageBytes (memUsedAtStartupMB lambdaSizeMB : Z) : outcome Z :=
  let memoryFootprint := 45 * 4 in
  let maxBufferUsageMB := int64 (lambdaSizeMB - memUsedAtStartupMB - memoryFootprint - 5) in
  if decide (maxBufferUsageMB < 5) then Panic "available memory too small for log processing"
  else Ret (uint64 (maxBufferUsageMB * bytesPerMB)).

(** time.Format with S3ObjectTimestampFormat = 20060102T150405Z *)
Definition pad04 (z : Z) : string :=
  (if decide (z < 10) then "000" else if decide (z < 100) then "00"
   else if decide (z < 1000) then "0" else "") +:+ itoa z.
Definition FormatS3 (t : Time) : string :=
  pad04 (Year t) +:+ pad02 (Month t) +:+ pad02 (Day t) +:+ "T" +:+ pad02 (HourOf t)
  +:+ pad02 (t / (60 * Second) mod 60) +:+ pad02 (t / Second mod 60) +:+ "Z".

Record s3EventBuffer := {
  logType : string;
  data : option (list string);   (* what was written to the gzip stream; None: writer and buffer are nil *)
  bytes : Z;
  events : Z;
  hour : Time;
  createTime : Time
}.

Definition newS3EventBuffer (logType : string) (hour now : Time) : s3EventBuffer :=
  {| logType := logType; data := Some []; bytes := 0; events := 0; hour := hour; createTime := now |}.

Definition newLineDelimiter : string := String "010" "".

(** s3EventBuffer.addEvent: writes to a bytes.Buffer do not fail *)
Definition buffer_addEvent (b : s3EventBuffer) (event : string) : outcome (s3EventBuffer * Z) :=
  match data b with
  | None => Panic "nil pointer dereference"
  | Some d =>
      let nbytes := slen event + slen newLineDelimiter in
      Ret ({| logType := logType b; data := Some (d ++ [event; newLineDelimiter]);
              bytes := int64 (bytes b + nbytes); events := int64 (events b + 1);
              hour := hour b; createTime := createTime b |}, nbytes)
  end.

Definition read (b : s3EventBuffer) : outcome (list string * s3EventBuffer) :=
  match data b with
  | None => Panic "nil pointer dereference"
  | Some d =>
      Ret (d, {| logType := logType b; data := None; bytes := bytes b; events := events b;
                 hour := hour b; createTime := createTime b |})
  end.

(** NewS3ObjectPutNotification: bucket, key and size of its one record *)
Record S3Notification := { nBucket : string; nKey : string; nSize : Z }.

(** an uploaded object, with the log type and hour of its buffer *)
Record object := { obj_key : string; obj_body : list string; obj_type : string; obj_hour : Time }.

(** the published message and its log type attribute *)
Record message := { msg_body : string; msg_type : string }.

Section Destination.
Context {Event : Type}.
Context (registry : gset string) (s3Bucket : string).
Context (marshal_event : option Event → result string)
        (marshal_notification : S3Notification → result string)
        (upload publish : nat → option error) (uuid : nat → string).
Context (maxBufferedMemBytes : Z).

Notation ptr := nat.

Record dst := {
  mem : list s3EventBuffer;
  set : gmap Time (gmap string ptr);    (* bufferSet.set *)
  totalBufferedMemBytes : Z;
  objects : list object;                (* uploaded to S3 *)
  messages : list message;              (* published to SNS *)
  errs : list error;                    (* written to errChan *)
  uploads : nat; publishes : nat; uuids : nat
}.

Definition newS3EventBufferSet : dst :=
  {| mem := []; set := ∅; totalBufferedMemBytes := 0; objects := []; messages := []; errs := [];
     uploads := 0; publishes := 0; uuids := 0 |}.

Definition upd_mem (d : dst) (m : list s3EventBuffer) : dst :=
  {| mem := m; set := set d; totalBufferedMemBytes := totalBufferedMemBytes d;
     objects := objects d; messages := messages d; errs := errs d;
     uploads := uploads d; publishes := publishes d; uuids := uuids d |}.
Definition upd_set (d : dst) (s : gmap Time (gmap string ptr)) (t : Z) : dst :=
  {| mem := mem d; set := s; totalBufferedMemBytes := t; objects := objects d;
     messages := messages d; errs := errs d; uploads := uploads d; publishes := publishes d;
     uuids := uuids d |}.
Definition add_err (d : dst) (e : error) : dst :=
  {| mem := mem d; set := set d; totalBufferedMemBytes := totalBufferedMemBytes d;
     objects := objects d; messages := messages d; errs := errs d ++ [e];
     uploads := uploads d; publishes := publishes d; uuids := uuids d |}.
Definition next_uuid (d : dst) : dst :=
  {| mem := mem d; set := set d; totalBufferedMemBytes := totalBufferedMemBytes d;
     objects := objects d; messages := messages d; errs := errs d;
     uploads := uploads d; publishes := publishes d; uuids := S (uuids d) |}.
Definition upd_s3 (d : dst) (o : list object) : dst :=
  {| mem := mem d; set := set d; totalBufferedMemBytes := totalBufferedMemBytes d;
     objects := objects d ++ o; messages := messages d; errs := errs d;
     uploads := S (uploads d); publishes := publishes d; uuids := uuids d |}.
Definition upd_sns (d : dst) (m : list message) : dst :=
  {| mem := mem d; set := set d; totalBufferedMemBytes := totalBufferedMemBytes d;
     objects := objects d; messages := messages d ++ m; errs := errs d;
     uploads := uploads d; publishes := S (publishes d); uuids := uuids d |}.

(** ** The buffer set *)

(** the pointers in the set, in some order *)
Definition ptrs (s : gmap Time (gmap string ptr)) : list ptr :=
  map_to_list s ≫= λ hm, (map_to_list hm.2).*2.

Definition getBuffer (d : dst) (event : PantherLog Event) (now : Time) : outcome (dst * ptr) :=
  match PantherEventTime event, PantherLogType event with
  | Some t, Some logType =>
      let hour := Truncate t Hour in
      let logTypeToBuffer := default ∅ (set d !! hour) in
      match logTypeToBuffer !! logType with
      | Some p => Ret (d, p)
      | None =>
          let p := length (mem d) in
          Ret (upd_set (upd_mem d (mem d ++ [newS3EventBuffer logType hour now]))
                 (<[hour := <[logType := p]> logTypeToBuffer]> (set d))
                 (totalBufferedMemBytes d), p)
      end
  | _, _ => Panic "nil pointer dereference"
  end.

Definition addEvent (d : dst) (p : ptr) (event : string) : outcome dst :=
  match mem d !! p with
  | None => Panic "nil pointer dereference"
  | Some b =>
      r ← buffer_addEvent b event;
      let '(b', eventBytes) := r in
      Ret (upd_set (upd_mem d (<[p := b']> (mem d))) (set d)
             (uint64 (totalBufferedMemBytes d + eventBytes)))
  end.

Definition removeBuffer (d : dst) (b : s3EventBuffer) : dst :=
  match set d !! hour b with
  | None => d
  | Some logTypeToBuffer =>
      upd_set d (<[hour b := delete (logType b) logTypeToBuffer]> (set d))
        (uint64 (totalBufferedMemBytes d - bytes b))
  end.

(** [ps] are the pointers of the set in the order the maps are iterated *)
Fixpoint largest_loop (m : list s3EventBuffer) (ps : list ptr) (maxBufferSize : Z)
    (largest : option ptr) : option ptr :=
  match ps with
  | [] => largest
  | p :: ps =>
      match m !! p with
      | Some b => if decide (maxBufferSize < bytes b) then largest_loop m ps (bytes b) (Some p)
                  else largest_loop m ps maxBufferSize largest
      | None => largest_loop m ps maxBufferSize largest
      end
  end.
Definition largestBuffer (d : dst) (ps : list ptr) : option ptr := largest_loop (mem d) ps 0 None.

(** ** Sending *)

(** the prefix is in UTC; the code formats the time in the file name in the zone
    the time has, here UTC too, as most parsers give it *)
Definition getS3ObjectKey (logType : string) (timestamp : Time) (id : string) : outcome string :=
  if decide (logType ∈ registry) then
    Ret (gm_GetPartitionPrefix (NewGlueTableMetadata LogData logType "" GlueTableHourly) timestamp
         +:+ FormatS3 timestamp +:+ "-" +:+ id +:+ ".json.gz")
  else Panic ("Cannot find LogType: " +:+ logType).

Definition sendSNSNotification (d : dst) (key : string) (b : s3EventBuffer) : dst * option error :=
  match marshal_notification {| nBucket := s3Bucket; nKey := key; nSize := bytes b |} with
  | Err e => (d, Some (ErrWrap "failed to marshal notification" e))
  | Ok body =>
      match publish (publishes d) with
      | Some e => (upd_sns d [], Some (ErrWrap "failed to send notification to topic" e))
      | None => (upd_sns d [{| msg_body := body; msg_type := logType b |}], None)
      end
  end.

Definition sendData (d : dst) (p : ptr) : outcome dst :=
  match mem d !! p with
  | None => Panic "nil pointer dereference"
  | Some b =>
      if decide (events b = 0) then Ret d
      else
        key ← getS3ObjectKey (logType b) (hour b) (uuid (uuids d));
        r ← read b;
        let '(payload, b') := r in
        let d := next_uuid (upd_mem d (<[p := b']> (mem d))) in
        match upload (uploads d) with
        | Some e => Ret (add_err (upd_s3 d []) (ErrWrap "S3Upload" e))
        | None =>
            let d := upd_s3 d [{| obj_key := key; obj_body := payload; obj_type := logType b;
                                  obj_hour := hour b |}] in
            match sendSNSNotification d key b with
            | (d, None) => Ret d
            | (d, Some e) => Ret (add_err d e)
            end
        end
  end.

(** ** The event loop *)

(** apply over the set in the order [ps]: remove and send the buffers that
    satisfy [cond] *)
Fixpoint flush (cond : s3EventBuffer → bool) (d : dst) (ps : list ptr) : outcome dst :=
  match ps with
  | [] => Ret d
  | p :: ps =>
      match mem d !! p with
      | None => Panic "nil pointer dereference"
      | Some b =>
          d ← (if cond b then sendData (removeBuffer d b) p else Ret d);
          flush cond d ps
      end
  end.

(** one event: the ticker's state and the clock, the event and the clock when
    a buffer is created, and the iteration order of the maps *)
Record input := {
  tick : option Time;
  event : PantherLog Event;
  now : Time;
  order1 : list ptr → list ptr;
  order2 : list ptr → list ptr
}.

Definition send_event (d : dst) (i : input) : outcome (dst * bool) :=
  d ← match tick i with
      | Some t => flush (λ b, bool_decide (maxDuration ≤ t - createTime b)) d (order1 i (ptrs (set d)))
      | None => Ret d
      end;
  match marshal_event (PantherLog.event (event i)) with
  | Err e => Ret (add_err d (ErrWrap "failed to marshall log parser event for S3" e), true)
  | Ok line =>
      r ← getBuffer d (event i) (now i);
      let '(d, p) := r in
      d ← addEvent d p line;
      match mem d !! p with
      | None => Panic "nil pointer dereference"
      | Some b =>
          d ← (if decide (maxS3BufferSizeBytes ≤ bytes b) then sendData (removeBuffer d b) p
               else Ret d);
          if decide (maxBufferedMemBytes ≤ totalBufferedMemBytes d) then
            match largestBuffer d (order2 i (ptrs (set d))) with
            | None => Ret (d, false)
            | Some q =>
                match mem d !! q with
                | None => Panic "nil pointer dereference"
                | Some lb => d ← sendData (removeBuffer d lb) p; Ret (d, false)
                end
            end
          else Ret (d, false)
      end
  end.

(** after a failure the rest of the channel is drained *)
Fixpoint event_loop (d : dst) (ins : list input) : outcome dst :=
  match ins with
  | [] => Ret d
  | i :: ins =>
      r ← send_event d i;
      let '(d, failed) := r in
      if failed : bool then Ret d else event_loop d ins
  end.

Definition SendEvents (ins : list input) (order : list ptr → list ptr) : outcome dst :=
  d ← event_loop newS3EventBufferSet ins;
  flush (λ _, true) d (order (ptrs (set d))).

(** ** Specification: the lines a buffer, an object and the input hold *)

(** a line with the log type and the hour of its partition *)
Notation line := (string * Z * string)%type.

(** the writes that store a list of events, and back *)
Definition chunks (evs : list string) : list string := evs ≫= λ e, [e; newLineDelimiter].
Fixpoint lines (ws : list string) : list string :=
  match ws with e :: _ :: ws => e :: lines ws | _ => [] end.

Definition evsize (evs : list string) : Z := foldr (λ e z, slen e + 1 + z) 0 evs.

Definition tagged (m : list s3EventBuffer) (p : ptr) : list line :=
  match m !! p with
  | Some b => (λ e, (logType b, hour b, e)) <$> lines (default [] (data b))
  | None => []
  end.
Definition obj_lines (o : object) : list line :=
  (λ e, (obj_type o, obj_hour o, e)) <$> lines (obj_body o).

Definition bytes_of (m : list s3EventBuffer) (p : ptr) : Z := from_option bytes 0 (m !! p).
Definition bytes_sum (m : list s3EventBuffer) (ps : list ptr) : Z :=
  foldr (λ p z, bytes_of m p + z) 0 ps.

(** an object holds at least one line and its key is in the partition of its
    log type and hour *)
Definition object_ok (o : object) : Prop :=
  obj_type o ∈ registry ∧ (∃ id, getS3ObjectKey (obj_type o) (obj_hour o) id = Ret (obj_key o)) ∧
  ∃ evs, evs ≠ [] ∧ obj_body o = chunks evs.

Lemma lines_chunks evs : lines (chunks evs) = evs.
Proof. induction evs as [|e evs IH]; [done|]. simpl. by f_equal. Qed.

Lemma chunks_snoc evs e : chunks evs ++ [e; newLineDelimiter] = chunks (evs ++ [e]).
Proof. unfold chunks. by rewrite bind_app. Qed.

Lemma evsize_snoc evs e : evsize (evs ++ [e]) = evsize evs + slen e + 1.
Proof. induction evs as [|a evs IH]; simpl; [lia|]. unfold evsize in *. simpl. lia. Qed.

Lemma evsize_length evs : Z.of_nat (length evs) ≤ evsize evs.
Proof.
  induction evs as [|a evs IH]; [done|]. simpl. assert (0 ≤ slen a) by (unfold slen; lia). lia.
Qed.

Lemma bytes_sum_perm m ps ps' : ps ≡ₚ ps' → bytes_sum m ps = bytes_sum m ps'.
Proof. induction 1; simpl; unfold bytes_sum in *; simpl; lia. Qed.

Lemma bytes_sum_ext m m' ps :
  (∀ p, p ∈ ps → m' !! p = m !! p) → bytes_sum m' ps = bytes_sum m ps.
Proof.
  induction ps as [|p ps IH]; intros H; [done|]. unfold bytes_sum in *. simpl.
  rewrite IH by set_solver. unfold bytes_of. by rewrite H by set_solver.
Qed.

Lemma tagged_ext m m' ps :
  (∀ p, p ∈ ps → m' !! p = m !! p) → ps ≫= tagged m' = ps ≫= tagged m.
Proof.
  induction ps as [|p ps IH]; intros H; [done|]. csimpl. rewrite IH by set_solver.
  unfold tagged at 1 3. by rewrite H by set_solver.
Qed.

Lemma elem_of_ptrs p s : p ∈ ptrs s ↔ ∃ h m t, s !! h = Some m ∧ m !! t = Some p.
Proof.
  unfold ptrs. rewrite list_elem_of_bind. split.
  - intros ([h m]&Hp&Hh). simpl in Hp. apply elem_of_map_to_list in Hh.
    apply list_elem_of_fmap in Hp as ([t p']&->&Hp). apply elem_of_map_to_list in Hp.
    by exists h, m, t.
  - intros (h&m&t&Hs&Hm). exists (h, m). split; [|by apply elem_of_map_to_list].
    simpl. apply list_elem_of_fmap. exists (t, p). split; [done|]. by apply elem_of_map_to_list.
Qed.

Lemma ptrs_lookup s h m : s !! h = Some m → ptrs s ≡ₚ (map_to_list m).*2 ++ ptrs (delete h s).
Proof.
  intros H. unfold ptrs. rewrite <-(map_to_list_delete s h m H). done.
Qed.

Lemma ptrs_insert s h m : ptrs (<[h := m]> s) ≡ₚ (map_to_list m).*2 ++ ptrs (delete h s).
Proof. rewrite (ptrs_lookup _ h m) by apply lookup_insert_eq. by rewrite delete_insert_eq. Qed.

Lemma ptrs_delete_entry s h m t p :
  s !! h = Some m → m !! t = Some p → ptrs s ≡ₚ p :: ptrs (<[h := delete t m]> s).
Proof.
  intros Hs Hm. rewrite ptrs_insert, (ptrs_lookup s h m Hs).
  rewrite <-(map_to_list_delete m t p Hm). done.
Qed.

Lemma ptrs_add_entry s h t p :
  default ∅ (s !! h) !! t = None →
  ptrs (<[h := <[t := p]> (default ∅ (s !! h))]> s) ≡ₚ p :: ptrs s.
Proof.
  intros Ht. rewrite ptrs_insert. rewrite map_to_list_insert by done. simpl.
  destruct (s !! h) as [m|] eqn:Hs; simpl.
  - by rewrite (ptrs_lookup s h m Hs).
  - rewrite map_to_list_empty. by rewrite delete_id.
Qed.

(** ** Invariant *)

(** [done] are the lines accepted so far, [total] their size *)
Record inv (d : dst) (dn : list line) : Prop := {
  inv_buf : ∀ h m t p, set d !! h = Some m → m !! t = Some p →
    t ∈ registry ∧ ∃ b evs, mem d !! p = Some b ∧ logType b = t ∧ hour b = h ∧
      data b = Some (chunks evs) ∧ events b = Z.of_nat (length evs) ∧ bytes b = evsize evs ∧ evs ≠ [];
  inv_nodup : NoDup (ptrs (set d));
  inv_total : totalBufferedMemBytes d = bytes_sum (mem d) (ptrs (set d));
  inv_size : 0 ≤ totalBufferedMemBytes d ≤ evsize dn.*2;
  inv_lines : errs d = [] → (objects d ≫= obj_lines) ++ (ptrs (set d) ≫= tagged (mem d)) ≡ₚ dn;
  inv_objects : Forall object_ok (objects d);
  inv_messages : errs d = [] → msg_type <$> messages d = obj_type <$> objects d
}.

Lemma inv_ptr d dn p :
  inv d dn → p ∈ ptrs (set d) →
  ∃ b evs, mem d !! p = Some b ∧ data b = Some (chunks evs) ∧ evs ≠ [] ∧ logType b ∈ registry ∧
    events b = Z.of_nat (length evs) ∧ bytes b = evsize evs ∧
    ∃ m, set d !! hour b = Some m ∧ m !! logType b = Some p.
Proof.
  intros Hi (h&m&t&Hs&Hm)%elem_of_ptrs.
  destruct (inv_buf _ _ Hi h m t p Hs Hm) as (Hreg&b&evs&Hb&<-&<-&?&?&?&?).
  exists b, evs. split_and!; try done. by exists m.
Qed.

Lemma bytes_sum_nonneg d dn ps :
  inv d dn → (∀ p, p ∈ ps → p ∈ ptrs (set d)) → 0 ≤ bytes_sum (mem d) ps.
Proof.
  intros Hi. induction ps as [|p ps IH]; intros Hps; [done|].
  destruct (inv_ptr _ _ p Hi) as (b&evs&Hb&_&_&_&_&Hby&_); [set_solver|].
  unfold bytes_sum in *. simpl. unfold bytes_of at 1. rewrite Hb. simpl.
  pose proof (evsize_length evs). specialize (IH ltac:(set_solver)). lia.
Qed.

(** removeBuffer takes the buffer out of the set and its bytes out of the total *)
Lemma removeBuffer_spec d dn p b :
  inv d dn → evsize dn.*2 < two63 → p ∈ ptrs (set d) → mem d !! p = Some b →
  ptrs (set d) ≡ₚ p :: ptrs (set (removeBuffer d b)) ∧
  mem (removeBuffer d b) = mem d ∧
  totalBufferedMemBytes (removeBuffer d b) = totalBufferedMemBytes d - bytes b ∧
  0 ≤ totalBufferedMemBytes d - bytes b ∧
  (∀ h m t q, set (removeBuffer d b) !! h = Some m → m !! t = Some q →
     ∃ m', set d !! h = Some m' ∧ m' !! t = Some q) ∧
  (errs (removeBuffer d b), objects (removeBuffer d b), messages (removeBuffer d b),
   uploads (removeBuffer d b), publishes (removeBuffer d b), uuids (removeBuffer d b)) =
  (errs d, objects d, messages d, uploads d, publishes d, uuids d).
Proof.
  intros Hi Hsz Hp Hb. destruct (inv_ptr _ _ p Hi Hp) as (b'&evs&Hb'&Hd&Hne&Hreg&Hev&Hby&m&Hs&Hm).
  rewrite Hb in Hb'. simplify_eq. unfold removeBuffer. rewrite Hs. cbn.
  pose proof (ptrs_delete_entry _ _ _ _ _ Hs Hm) as Hperm.
  assert (bytes_sum (mem d) (ptrs (set d)) =
    bytes b' + bytes_sum (mem d) (ptrs (<[hour b':=delete (logType b') m]> (set d)))) as Hsum.
  { rewrite (bytes_sum_perm _ _ _ Hperm). unfold bytes_sum at 1. simpl. unfold bytes_of at 1.
    by rewrite Hb. }
  pose proof (inv_total _ _ Hi) as Ht. pose proof (inv_size _ _ Hi) as Hsize.
  assert (0 ≤ bytes_sum (mem d) (ptrs (<[hour b':=delete (logType b') m]> (set d)))).
  { apply (bytes_sum_nonneg d dn); [done|]. intros q Hq. rewrite Hperm. by right. }
  pose proof (evsize_length evs).
  split_and!; try done.
  - rewrite uint64_id; [done|]. unfold two63, two64 in *. lia.
  - lia.
  - intros h m1 t q. destruct (decide (h = hour b')) as [->|Hh].
    + rewrite lookup_insert_eq. intros [= <-]. rewrite lookup_delete_Some. intros [_ ?]. eauto.
    + rewrite lookup_insert_ne by done. eauto.
Qed.

(** what [sendData] does with a buffer of the set once it was removed *)
Lemma sendData_removed d dn p b :
  inv d dn → evsize dn.*2 < two63 → p ∈ ptrs (set d) → mem d !! p = Some b →
  ∃ d', sendData (removeBuffer d b) p = Ret d' ∧ inv d' dn ∧
    ptrs (set d) ≡ₚ p :: ptrs (set d') ∧ (errs d' = [] → errs d = []).
Proof.
  intros Hi Hsz Hp Hb.
  destruct (removeBuffer_spec d dn p b Hi Hsz Hp Hb) as (Hperm&Hmem&Htot&Hnn&Hsub&Hrest).
  destruct (inv_ptr _ _ p Hi Hp) as (b'&evs&Hb'&Hd&Hne&Hreg&Hev&Hby&_).
  rewrite Hb in Hb'. injection Hb' as ->.
  set (dr := removeBuffer d b') in *. injection Hrest as He Ho Hms Hu Hpb Huu.
  assert (p ∉ ptrs (set dr) ∧ NoDup (ptrs (set dr))) as [Hpn Hnd].
  { pose proof (inv_nodup _ _ Hi) as H. rewrite Hperm in H. by apply NoDup_cons in H. }
  assert (0 < length evs)%nat by (destruct evs; simpl; [done|lia]).
  unfold sendData. rewrite Hmem, Hb. rewrite decide_False by lia.
  unfold getS3ObjectKey at 1. rewrite decide_True by done. run.
  unfold read. rewrite Hd. run.
  set (b0 := {| logType := logType b'; data := None |}).
  set (m' := <[p := b0]> (mem d)). set (d1 := next_uuid (upd_mem dr m')).
  assert (∀ q, q ≠ p → m' !! q = mem d !! q) as Hm' by (intros; by apply list_lookup_insert_ne).
  (* every continuation only appends to the outputs of [d1] *)
  assert (∀ d2, mem d2 = m' → set d2 = set dr → totalBufferedMemBytes d2 = totalBufferedMemBytes dr →
    Forall object_ok (objects d2) →
    (errs d2 = [] → errs d = [] ∧ ∃ o, objects d2 = objects d ++ [o] ∧
       obj_lines o = tagged (mem d) p ∧ msg_type <$> messages d2 = (msg_type <$> messages d) ++ [obj_type o]) →
    inv d2 dn ∧ ptrs (set d) ≡ₚ p :: ptrs (set d2) ∧ (errs d2 = [] → errs d = [])) as Hfin.
  { intros d2 Em Es Et Hobj Herr. rewrite Es.
    split; [|split; [exact Hperm|intros E2; by destruct (Herr E2)]]. split; rewrite ?Em, ?Es, ?Et; try done.
    - intros h m t q Hh Hq. destruct (Hsub h m t q Hh Hq) as (m1&Hh1&Hq1).
      destruct (inv_buf _ _ Hi h m1 t q Hh1 Hq1) as (?&bq&evq&Hbq&?). split; [done|].
      exists bq, evq. rewrite Hm'; [done|]. intros ->. apply Hpn, elem_of_ptrs. eauto.
    - rewrite (bytes_sum_ext (mem d) m'); [|intros q Hq; apply Hm'; by intros ->].
      rewrite Htot, (inv_total _ _ Hi), (bytes_sum_perm _ _ _ Hperm).
      unfold bytes_sum at 1. simpl. unfold bytes_of at 1. rewrite Hb. simpl.
      change (foldr _ 0 (ptrs (set dr))) with (bytes_sum (mem d) (ptrs (set dr))). lia.
    - rewrite Htot. pose proof (inv_size _ _ Hi). pose proof (evsize_length evs). lia.
    - intros E2. destruct (Herr E2) as (E&o&->&Hol&_).
      rewrite bind_app. csimpl. rewrite app_nil_r, <-app_assoc.
      rewrite (tagged_ext (mem d)); [|intros q Hq; apply Hm'; by intros ->].
      rewrite <-(inv_lines _ _ Hi E), Hperm. csimpl. by rewrite Hol.
    - intros E2. destruct (Herr E2) as (E&o&->&_&Hmt). rewrite Hmt, fmap_app. simpl.
      by rewrite (inv_messages _ _ Hi E). }
  set (o := {| obj_key := _; obj_body := chunks evs; obj_type := logType b'; obj_hour := hour b' |}).
  assert (object_ok o) as Hook.
  { split_and!; [done| |by exists evs]. exists (uuid (uuids dr)). unfold getS3ObjectKey.
    by rewrite decide_True. }
  assert (obj_lines o = tagged (mem d) p) as Hol by (unfold tagged; rewrite Hb, Hd; done).
  pose proof (inv_objects _ _ Hi) as Hobj.
  destruct (upload (uploads d1)) as [e|].
  - eexists. split; [done|]. apply Hfin; try done; cbn.
    + by rewrite app_nil_r, Ho.
    + intros []%app_nil. done.
  - unfold sendSNSNotification. destruct (marshal_notification _) as [body|e].
    + destruct (publish _) as [e|].
      * eexists. split; [done|]. apply Hfin; try done; cbn.
        { rewrite Ho. by apply Forall_snoc. }
        intros []%app_nil. done.
      * eexists. split; [done|]. apply Hfin; try done; cbn.
        { rewrite Ho. by apply Forall_snoc. }
        rewrite He, Ho, Hms. intros E. split; [done|]. exists o. split_and!; [done..|].
        by rewrite fmap_app.
    + eexists. split; [done|]. apply Hfin; try done; cbn.
      { rewrite Ho. by apply Forall_snoc. }
      intros []%app_nil. done.
Qed.

Lemma flush_spec cond d dn ps :
  inv d dn → evsize dn.*2 < two63 → NoDup ps → (∀ p, p ∈ ps → p ∈ ptrs (set d)) →
  ∃ d', flush cond d ps = Ret d' ∧ inv d' dn ∧
    ((∀ b, cond b = true) → ptrs (set d) ≡ₚ ps ++ ptrs (set d')) ∧ (errs d' = [] → errs d = []).
Proof.
  intros Hi Hsz. revert d Hi. induction ps as [|p ps IH]; intros d Hi Hnd Hin; simpl.
  { exists d. by split_and!. }
  apply NoDup_cons in Hnd as [Hp Hnd].
  destruct (inv_ptr d dn p Hi) as (b&_&Hb&_); [apply Hin; by left|]. rewrite Hb.
  destruct (cond b) eqn:Hc.
  - destruct (sendData_removed d dn p b Hi Hsz) as (d1&->&Hi1&Hperm&He1); [apply Hin; by left|done|].
    run. destruct (IH d1 Hi1 Hnd) as (d2&->&Hi2&Hall&He2).
    { intros q Hq. specialize (Hin q (list_elem_of_further _ _ _ Hq)). rewrite Hperm in Hin.
      apply elem_of_cons in Hin as [-> |]; [by destruct Hp|done]. }
    exists d2. split_and!; [done..| |by auto]. intros Ht. by rewrite Hperm, (Hall Ht).
  - run. destruct (IH d Hi Hnd) as (d2&->&Hi2&Hall&He2); [set_solver|].
    exists d2. split_and!; [done..| |done]. intros Ht. by rewrite Ht in Hc.
Qed.

(** the buffer after adding [ln] to the events [evs] *)
Definition holds (b : s3EventBuffer) (lt : string) (h : Time) (evs : list string) : Prop :=
  logType b = lt ∧ hour b = h ∧ data b = Some (chunks evs) ∧
  events b = Z.of_nat (length evs) ∧ bytes b = evsize evs.

Lemma buffer_addEvent_spec b lt h evs ln :
  holds b lt h evs → evsize evs + slen ln + 1 < two63 →
  ∃ b', buffer_addEvent b ln = Ret (b', slen ln + 1) ∧ holds b' lt h (evs ++ [ln]).
Proof.
  intros (Hl&Hh&Hd&He&Hb) Hsz. unfold buffer_addEvent. rewrite Hd. eexists. split; [done|].
  pose proof (evsize_length evs). assert (0 ≤ slen ln) by (unfold slen; lia).
  change (slen newLineDelimiter) with 1. unfold holds. cbn.
  rewrite chunks_snoc, length_app, evsize_snoc. cbn [length].
  rewrite !int64_id by (unfold in_int64, two63 in *; lia). rewrite He, Hb. split_and!; try done; lia.
Qed.

(** adding a line to the buffer [p] of the set, whose other buffers are [rest] *)
Lemma inv_add d d' dn p b' lt h evs ln rest :
  inv d dn → lt ∈ registry → mem d' !! p = Some b' → holds b' lt h (evs ++ [ln]) →
  ptrs (set d') ≡ₚ p :: rest → NoDup (p :: rest) →
  (∀ q, q ∈ rest → mem d' !! q = mem d !! q) →
  (∀ h' m t q, set d' !! h' = Some m → m !! t = Some q →
     (h' = h ∧ t = lt ∧ q = p) ∨ (q ∈ rest ∧ ∃ m', set d !! h' = Some m' ∧ m' !! t = Some q)) →
  totalBufferedMemBytes d = evsize evs + bytes_sum (mem d) rest →
  (ptrs (set d) ≫= tagged (mem d)) ≡ₚ ((λ e, (lt, h, e)) <$> evs) ++ (rest ≫= tagged (mem d)) →
  totalBufferedMemBytes d' = totalBufferedMemBytes d + (slen ln + 1) →
  (errs d', objects d', messages d') = (errs d, objects d, messages d) →
  inv d' (dn ++ [(lt, h, ln)]).
Proof.
  intros Hi Hreg Hb' (Hl&Hh&Hd&He&Hby) Hperm Hnd Hoth Hset Htot Htag Htot' Hrest.
  injection Hrest as Herr Hobj Hmsg. assert (0 ≤ slen ln) as Hs by (unfold slen; lia).
  assert (p ∉ rest) as Hpr by (by apply NoDup_cons in Hnd as [? _]).
  split; rewrite ?Herr, ?Hobj, ?Hmsg.
  - intros h' m t q Hh' Hq. destruct (Hset h' m t q Hh' Hq) as [(->&->&->)|(Hqr&m'&Hm'&Hq')].
    + split; [done|]. exists b', (evs ++ [ln]). split_and!; try done. by destruct evs.
    + rewrite Hoth by done. by apply (inv_buf _ _ Hi h' m').
  - by rewrite Hperm.
  - rewrite Htot', Htot, (bytes_sum_perm _ _ _ Hperm). unfold bytes_sum at 2. simpl.
    unfold bytes_of at 1. rewrite Hb'. simpl. rewrite Hby, evsize_snoc.
    change (foldr _ 0 rest) with (bytes_sum (mem d') rest).
    rewrite (bytes_sum_ext (mem d) (mem d')) by done. lia.
  - rewrite Htot', fmap_app. cbn [fmap list_fmap]. rewrite evsize_snoc.
    pose proof (inv_size _ _ Hi). cbn [snd]. lia.
  - intros E. rewrite <-(inv_lines _ _ Hi E), Hperm. csimpl. rewrite Htag, <-app_assoc.
    apply Permutation_app_head. rewrite (tagged_ext (mem d) (mem d')) by done.
    unfold tagged at 1. rewrite Hb', Hd. cbn [default from_option id]. rewrite lines_chunks, fmap_app, Hl, Hh.
    rewrite <-!app_assoc. apply Permutation_app_head. simpl. by rewrite Permutation_cons_append.
  - apply (inv_objects _ _ Hi).
  - apply (inv_messages _ _ Hi).
Qed.

Lemma get_add_spec d dn ev nw t lt ln :
  inv d dn → PantherEventTime ev = Some t → PantherLogType ev = Some lt → lt ∈ registry →
  evsize (dn ++ [(lt, Truncate t Hour, ln)]).*2 < two63 →
  ∃ d0 p d' b, getBuffer d ev nw = Ret (d0, p) ∧ addEvent d0 p ln = Ret d' ∧
    mem d' !! p = Some b ∧ p ∈ ptrs (set d') ∧ inv d' (dn ++ [(lt, Truncate t Hour, ln)]).
Proof.
  intros Hi Ht Hlt Hreg Hsz. set (h := Truncate t Hour) in *.
  rewrite fmap_app in Hsz. cbn [fmap list_fmap snd] in Hsz. rewrite evsize_snoc in Hsz.
  pose proof (inv_size _ _ Hi) as Hsize. pose proof (inv_total _ _ Hi) as Htotal.
  assert (0 ≤ slen ln) by (unfold slen; lia).
  assert (∀ z, 0 ≤ z < two63 → uint64 z = z) as Hu
    by (intros; apply uint64_id; unfold two63, two64 in *; lia).
  unfold getBuffer. rewrite Ht, Hlt. fold h. destruct (default ∅ (set d !! h) !! lt) as [p|] eqn:Hp.
  - assert (∃ m, set d !! h = Some m ∧ m !! lt = Some p) as (m&Hm&Hmp)
      by (destruct (set d !! h) as [m|]; cbn [from_option id] in Hp; [by exists m|by rewrite lookup_empty in Hp]).
    destruct (inv_buf _ _ Hi h m lt p Hm Hmp) as (_&b&evs&Hb&H1&H2&H3&H4&H5&Hne).
    assert (p ∈ ptrs (set d)) as Hpin by (apply elem_of_ptrs; eauto).
    pose proof (ptrs_delete_entry _ _ _ _ _ Hm Hmp) as Hperm.
    set (rest := ptrs (<[h := delete lt m]> (set d))) in *.
    assert (NoDup (p :: rest)) as Hnd by (rewrite <-Hperm; apply (inv_nodup _ _ Hi)).
    assert (totalBufferedMemBytes d = evsize evs + bytes_sum (mem d) rest) as Htot.
    { rewrite Htotal, (bytes_sum_perm _ _ _ Hperm). unfold bytes_sum at 1. simpl.
      unfold bytes_of at 1. rewrite Hb. simpl. by rewrite H5. }
    assert (0 ≤ bytes_sum (mem d) rest)
      by (apply (bytes_sum_nonneg d dn); [done|]; intros q Hq; rewrite Hperm; by right).
    destruct (buffer_addEvent_spec b lt h evs ln) as (b'&Ha&Hh'); [by split_and!|lia|].
    assert (p < length (mem d))%nat by (by eapply lookup_lt_Some).
    exists d, p. eexists _, b'. unfold addEvent. rewrite Hb, Ha. run.
    split; [done|]. split; [done|]. cbn [mem upd_set upd_mem set].
    split; [by apply list_lookup_insert_eq|]. split; [done|].
    eapply (inv_add d _ dn p b' lt h evs ln rest); try done; cbn.
    + by apply list_lookup_insert_eq.
    + intros q Hq. apply list_lookup_insert_ne. intros ->. by apply NoDup_cons in Hnd as [? _].
    + intros h' m' t' q Hh Hq. destruct (decide (q = p)) as [->|Hqp].
      * left. destruct (inv_buf _ _ Hi h' m' t' p Hh Hq) as (_&b2&?&Hb2&<-&<-&_).
        rewrite Hb in Hb2. by simplify_eq.
      * right. assert (q ∈ ptrs (set d)) as Hq' by (apply elem_of_ptrs; eauto).
        rewrite Hperm in Hq'. apply elem_of_cons in Hq' as [|]; [done|]. eauto.
    + rewrite Hperm. csimpl. unfold tagged at 1. rewrite Hb, H3. cbn [default from_option id].
      by rewrite lines_chunks, H1, H2.
    + rewrite Hu; [done|lia].
  - set (p := length (mem d)). set (b0 := newS3EventBuffer lt h nw).
    destruct (buffer_addEvent_spec b0 lt h [] ln) as (b'&Ha&Hh'); [done|simpl; lia|].
    assert (∀ q, q ∈ ptrs (set d) → (q < p)%nat) as Hlt'.
    { intros q Hq. destruct (inv_ptr d dn q Hi Hq) as (?&_&Hq'&_). by eapply lookup_lt_Some. }
    pose proof (ptrs_add_entry (set d) h lt p Hp) as Hperm.
    assert ((mem d ++ [b0]) !! p = Some b0) as Hlook by (by apply list_lookup_middle).
    eexists _, p, _, b'. split; [done|]. unfold addEvent. cbn [mem upd_set upd_mem].
    rewrite Hlook, Ha. run. split; [done|]. cbn [mem upd_set upd_mem set].
    assert (<[p:=b']> (mem d ++ [b0]) = mem d ++ [b']) as ->
      by (unfold p; by rewrite insert_app_r_alt, Nat.sub_diag by lia).
    assert ((mem d ++ [b']) !! p = Some b') as Hlook' by (by apply list_lookup_middle).
    split; [done|]. split; [rewrite Hperm; by left|].
    eapply (inv_add d _ dn p b' lt h [] ln (ptrs (set d))); try done; cbn.
    + constructor; [|apply (inv_nodup _ _ Hi)]. intros Hq%Hlt'. lia.
    + intros q Hq%Hlt'. by rewrite lookup_app_l.
    + intros h' m' t' q. destruct (decide (h' = h)) as [->|Hh].
      * rewrite lookup_insert_eq. intros [= <-]. destruct (decide (t' = lt)) as [->|Ht'].
        { rewrite lookup_insert_eq. intros [= <-]. by left. }
        rewrite lookup_insert_ne by done. intros Hq. right.
        destruct (set d !! h) as [m|] eqn:Hm; cbn [from_option id] in Hq;
          [|by rewrite lookup_empty in Hq].
        split; [apply elem_of_ptrs; eauto|]. by exists m.
      * rewrite lookup_insert_ne by done. intros Hm Hq. right.
        split; [apply elem_of_ptrs; eauto|]. by exists m'.
    + rewrite Hu; [done|lia].
Qed.

(** ** The event loop *)

(** the line an event becomes *)
Definition accepted (i : input) : option line :=
  match PantherEventTime (event i), PantherLogType (event i),
        marshal_event (PantherLog.event (event i)) with
  | Some t, Some lt, Ok ln => Some (lt, Truncate t Hour, ln)
  | _, _, _ => None
  end.

(** events as the parsers produce them: time and type set, the type registered *)
Definition event_ok (i : input) : Prop :=
  (∃ t lt, PantherEventTime (event i) = Some t ∧ PantherLogType (event i) = Some lt ∧
     lt ∈ registry) ∧
  (∀ l, order1 i l ≡ₚ l) ∧ (∀ l, order2 i l ≡ₚ l).

Lemma inv_add_err d dn e : inv d dn → inv (add_err d e) dn.
Proof. intros [? ? ? ? ? ? ?]. split; try done; cbn; intros []%app_nil; done. Qed.

Lemma evsize_app l k : evsize (l ++ k) = evsize l + evsize k.
Proof. induction l as [|a l IH]; simpl; [done|]. unfold evsize in *. simpl. lia. Qed.

Lemma evsize_nonneg l : 0 ≤ evsize l.
Proof. pose proof (evsize_length l). lia. Qed.

Lemma send_event_spec d dn i rest :
  inv d dn → event_ok i → maxBufferedMemBytes ≤ two63 →
  evsize (dn ++ omap accepted (i :: rest)).*2 < maxBufferedMemBytes →
  ∃ d' failed, send_event d i = Ret (d', failed) ∧
    ((failed = true ∧ inv d' dn ∧ errs d' ≠ []) ∨
     (failed = false ∧ ∃ l, accepted i = Some l ∧ inv d' (dn ++ [l]))).
Proof.
  intros Hi ((t&lt&Ht&Hlt&Hreg)&Ho1&Ho2) Hmax Hsz.
  assert (evsize dn.*2 < two63) as Hdn.
  { rewrite fmap_app, evsize_app in Hsz. pose proof (evsize_nonneg (omap accepted (i :: rest)).*2). lia. }
  unfold send_event.
  assert (∃ d1, match tick i with
      | Some t => flush (λ b, bool_decide (maxDuration ≤ t - createTime b)) d (order1 i (ptrs (set d)))
      | None => Ret d end = Ret d1 ∧ inv d1 dn) as (d1&->&Hi1).
  { destruct (tick i) as [tk|]; [|by exists d].
    destruct (flush_spec (λ b, bool_decide (maxDuration ≤ tk - createTime b)) d dn
      (order1 i (ptrs (set d)))) as (d1&->&Hi1&_); try done.
    - rewrite Ho1. apply (inv_nodup _ _ Hi).
    - intros p Hp. by rewrite Ho1 in Hp.
    - by exists d1. }
  run.
  destruct (marshal_event (PantherLog.event (event i))) as [ln|e] eqn:Hln; last first.
  { do 2 eexists. split; [done|]. left. split_and!; [done|by apply inv_add_err|].
    cbn. intros []%app_nil. done. }
  assert (accepted i = Some (lt, Truncate t Hour, ln)) as Hacc
    by (unfold accepted; by rewrite Ht, Hlt, Hln).
  assert (evsize (dn ++ [(lt, Truncate t Hour, ln)]).*2 < maxBufferedMemBytes) as Hsz'.
  { assert (dn ++ omap accepted (i :: rest) =
      (dn ++ [(lt, Truncate t Hour, ln)]) ++ omap accepted rest) as E
      by (simpl; rewrite Hacc; by rewrite <-app_assoc).
    rewrite E, (fmap_app _ (dn ++ _)), evsize_app in Hsz.
    pose proof (evsize_nonneg (omap accepted rest).*2). lia. }
  destruct (get_add_spec d1 dn (event i) (now i) t lt ln Hi1 Ht Hlt Hreg)
    as (d0&p&d2&b&->&Ha&Hb&Hp&Hi2); [lia|].
  run. rewrite Ha. run. rewrite Hb.
  set (dn' := dn ++ [(lt, Truncate t Hour, ln)]) in *.
  assert (∃ d3, (if decide (maxS3BufferSizeBytes ≤ bytes b) then sendData (removeBuffer d2 b) p
    else Ret d2) = Ret d3 ∧ inv d3 dn') as (d3&->&Hi3).
  { case_decide; [|by exists d2].
    destruct (sendData_removed d2 dn' p b Hi2) as (d3&->&Hi3&_); [lia|done..|]. by exists d3. }
  run. pose proof (inv_size _ _ Hi3).
  rewrite decide_False by lia.
  do 2 eexists. split; [done|]. right. split; [done|]. by eexists.
Qed.

Lemma event_loop_spec ins d dn :
  inv d dn → Forall event_ok ins → maxBufferedMemBytes ≤ two63 →
  evsize (dn ++ omap accepted ins).*2 < maxBufferedMemBytes →
  ∃ d' dn', event_loop d ins = Ret d' ∧ inv d' dn' ∧ evsize dn'.*2 < two63 ∧
    (errs d' = [] → dn' = dn ++ omap accepted ins ∧ Forall (λ i, is_Some (accepted i)) ins).
Proof.
  revert d dn. induction ins as [|i ins IH]; intros d dn Hi Hok Hmax Hsz.
  { exists d, dn. simpl in *. rewrite app_nil_r in *. split_and!; try done. lia. }
  apply Forall_cons in Hok as [Hok1 Hok].
  destruct (send_event_spec d dn i ins Hi Hok1 Hmax Hsz) as (d1&failed&E&Hcase).
  cbn [event_loop]. rewrite E. run.
  destruct Hcase as [(->&Hi1&Herr)|(->&l&Hl&Hi1)].
  - exists d1, dn. split_and!; [done..| |done].
    rewrite fmap_app, evsize_app in Hsz. pose proof (evsize_nonneg (omap accepted (i :: ins)).*2). lia.
  - assert (dn ++ omap accepted (i :: ins) = (dn ++ [l]) ++ omap accepted ins) as Eq.
    { simpl. rewrite Hl. by rewrite <-app_assoc. }
    rewrite Eq in Hsz |- *. destruct (IH d1 (dn ++ [l]) Hi1 Hok Hmax Hsz) as (d'&dn'&->&Hi'&Hs'&Hd').
    exists d', dn'. split_and!; [done..|]. intros E0. destruct (Hd' E0) as [-> Hf].
    split; [done|]. constructor; [by exists l|done].
Qed.

Lemma inv_init : inv newS3EventBufferSet [].
Proof. split; cbn; try done. constructor. Qed.

(** the run of the loop and the final flush *)
Lemma SendEvents_inv ins order :
  Forall event_ok ins → (∀ l, order l ≡ₚ l) → maxBufferedMemBytes ≤ two63 →
  evsize (omap accepted ins).*2 < maxBufferedMemBytes →
  ∃ d, SendEvents ins order = Ret d ∧
    (errs d = [] →
       Forall (λ i, is_Some (accepted i)) ins ∧
       objects d ≫= obj_lines ≡ₚ omap accepted ins ∧
       msg_type <$> messages d = obj_type <$> objects d) ∧
    ptrs (set d) = [] ∧ totalBufferedMemBytes d = 0 ∧ Forall object_ok (objects d).
Proof.
  intros Hok Hord Hmax Hsz. unfold SendEvents.
  destruct (event_loop_spec ins newS3EventBufferSet [] inv_init Hok Hmax Hsz)
    as (d1&dn&->&Hi1&Hs&Hd). run.
  destruct (flush_spec (λ _, true) d1 dn (order (ptrs (set d1)))) as (d2&->&Hi2&Hall&He); try done.
  { rewrite Hord. apply (inv_nodup _ _ Hi1). }
  { intros p Hp. by rewrite Hord in Hp. }
  specialize (Hall (λ _, eq_refl)). rewrite Hord in Hall.
  assert (ptrs (set d2) = []) as Hnil.
  { apply Permutation_length in Hall. rewrite length_app in Hall.
    destruct (ptrs (set d2)); [done|]. simpl in Hall. lia. }
  exists d2. split; [done|]. split; [|split_and!; [done| |apply (inv_objects _ _ Hi2)]].
  2: { rewrite (inv_total _ _ Hi2), Hnil. done. }
  intros E. destruct (Hd (He E)) as [-> Hf]. split_and!; [done| |apply (inv_messages _ _ Hi2 E)].
  pose proof (inv_lines _ _ Hi2 E) as Hl. by rewrite Hnil, app_nil_r in Hl.
Qed.

(** C6: as long as the lines fit the memory threshold, SendEvents never
    panics, leaves no buffer behind, writes only objects that hold the lines
    of one log type and one hour under the key of that partition, and loses
    nothing silently: when no error is reported every event was marshalled
    and the objects hold exactly the lines of all events, each once, with one
    notification per object.  This holds for every outcome of the S3 and SNS
    calls, every clock and every iteration order of the maps. *)
Theorem SendEvents_correct ins order :
  Forall event_ok ins → (∀ l, order l ≡ₚ l) → maxBufferedMemBytes ≤ two63 →
  evsize (omap accepted ins).*2 < maxBufferedMemBytes →
  ∃ d, SendEvents ins order = Ret d ∧ ptrs (set d) = [] ∧ totalBufferedMemBytes d = 0 ∧
    Forall object_ok (objects d) ∧
    (errs d = [] →
       Forall (λ i, is_Some (accepted i)) ins ∧
       objects d ≫= obj_lines ≡ₚ omap accepted ins ∧
       msg_type <$> messages d = obj_type <$> objects d).
Proof.
  intros Hok Hord Hmax Hsz.
  destruct (SendEvents_inv ins order Hok Hord Hmax Hsz) as (d&?&?&?&?&?). by exists d.
Qed.
End Destination.

(** ** Concrete runs *)

Definition demo_event (lt : string) (t : Time) (text : string) : PantherLog string :=
  {| PantherLog.event := Some text; PantherLogType := Some lt; PantherRowID := None;
     PantherEventTime := Some t; PantherParseTime := Some t; PantherAnyIPAddresses := None;
     PantherAnyDomainNames := None; PantherAnySHA1Hashes := None; PantherAnyMD5Hashes := None |}.

Definition demo_input (lt : string) (t : Time) (text : string) : input :=
  {| tick := Some t; event := demo_event lt t text; now := t; order1 := id; order2 := reverse |}.

Definition demo_ins : list input :=
  [demo_input "AWS.ALB" 0 "one"; demo_input "AWS.VPCFlow" 5 "two"; demo_input "AWS.ALB" (2 * Hour) "three"].

Definition demo_registry : gset string := {["AWS.ALB"; "AWS.VPCFlow"]}.
Definition demo_marshal (e : option string) : result string :=
  match e with Some s => Ok s | None => Err (ErrMsg "no event") end.
Definition no_failure (n : nat) : option error := None.

Lemma SendEvents_correct_witness :
  Forall (event_ok demo_registry) demo_ins ∧
  ∃ d, SendEvents demo_registry "bucket" demo_marshal (λ _, Ok "json") no_failure no_failure pretty 1000
         demo_ins id = Ret d ∧ ptrs (set d) = [] ∧ totalBufferedMemBytes d = 0 ∧
    Forall (object_ok demo_registry) (objects d) ∧
    (errs d = [] →
       Forall (λ i, is_Some (accepted demo_marshal i)) demo_ins ∧
       objects d ≫= obj_lines ≡ₚ omap (accepted demo_marshal) demo_ins ∧
       msg_type <$> messages d = obj_type <$> objects d).
Proof.
  assert (Forall (event_ok demo_registry) demo_ins) as Hok.
  { repeat constructor;
      (eexists _, _; split_and!; [reflexivity|reflexivity|unfold demo_registry; set_solver])
      || (intros; cbn; by rewrite ?reverse_Permutation). }
  split; [exact Hok|].
  apply (SendEvents_correct demo_registry "bucket" demo_marshal (λ _, Ok "json") no_failure no_failure
    pretty 1000 demo_ins id); [exact Hok|reflexivity|vm_compute; discriminate|vm_compute; reflexivity].
Defined.

(** at the memory threshold the loop removes the largest buffer from the
    set but sends the current one.  Here the second event reaches the
    threshold: the buffer of the first one is dropped from the set without
    being sent, the current buffer is sent but stays in the set, and the final
    flush sends it again and panics on its nil writer. *)
Theorem SendEvents_memory_threshold_panics :
  SendEvents demo_registry "bucket" demo_marshal (λ _, Ok "json") no_failure no_failure pretty 20
    [demo_input "AWS.ALB" 0 "a large first"; demo_input "AWS.VPCFlow" 5 "small"] id =
  Panic "nil pointer dereference" ∧
  ∃ d, event_loop demo_registry "bucket" demo_marshal (λ _, Ok "json") no_failure no_failure pretty 20
         newS3EventBufferSet
         [demo_input "AWS.ALB" 0 "a large first"; demo_input "AWS.VPCFlow" 5 "small"] = Ret d ∧
    obj_type <$> objects d = ["AWS.VPCFlow"] ∧ logType <$> omap (λ p, mem d !! p) (ptrs (set d)) = ["AWS.VPCFlow"].
Proof.
  split; [vm_compute; reflexivity|]. eexists. split; [vm_compute; reflexivity|].
  split; vm_compute; reflexivity.
Qed.

(** for every Lambda size AWS offers and every start-up footprint, the
    memory budget is what is left of the Lambda's memory, at least 5 MB, or the
    process panics at start-up. *)
Theorem maxS3BufferMemUsageBytes_spec used size :
  0 ≤ used ≤ 2 ^ 44 → 0 ≤ size ≤ 10240 →
  maxS3BufferMemUsageBytes used size =
  if decide (size < used + 190) then Panic "available memory too small for log processing"
  else Ret ((size - used - 185) * bytesPerMB).
Proof.
  intros Hu Hs. unfold maxS3BufferMemUsageBytes. change (2 ^ 44) with 17592186044416 in Hu.
  rewrite int64_id by (unfold in_int64, two63; lia).
  repeat case_decide; try lia; [done|].
  rewrite uint64_id; [f_equal; lia|]. unfold bytesPerMB, two64. lia.
Qed.

Lemma maxS3BufferMemUsageBytes_spec_witness :
  maxS3BufferMemUsageBytes 70 1024 = Ret ((1024 - 70 - 185) * bytesPerMB).
Proof.
  rewrite (maxS3BufferMemUsageBytes_spec 70 1024); [reflexivity|vm_compute; split; discriminate|lia].
Defined.
