(* ===== verification/Processor.v ===== *)
(** * The log processor

    Model of src/internal/log_analysis/log_processor/processor/processor.go:
    it reads streams line by line, classifies each line and sends the events
    to a destination, here the S3 destination.  A stream is its contents and
    the error that ends it (none: end of file); it has a reader, which the
    sources do not guarantee (see [LogSources]).  Events are values.  Channels are lists: the
    parsed events in the order they are sent, the errors of the two senders in
    any interleaving. *)

From S2P Require Import Prelude GoHeap Classifier PantherLog S3Destination.

(** common.EventDelimiter *)
Definition EventDelimiter : ascii := "010".

Record DataStream := { content : string; readErr : option error }.

(** bufio.Reader.ReadString repeated until the first error: the lines, each
    with its delimiter, and what precedes the error *)
Fixpoint ReadString_all (s : string) : list string * string :=
  match s with
  | EmptyString => ([], "")
  | String c s' =>
      let '(ls, rest) := ReadString_all s' in
      if decide (c = EventDelimiter) then (String c "" :: ls, rest)
      else match ls with
           | l :: ls => (String c l :: ls, rest)
           | [] => ([], String c rest)
           end
  end.

Section Processor.
Context {PS Event : Type}.
Context (Parse : PS → string → PS * outcome (option (list Event))) (LogType : PS → string).

(** what is measured for the [n]-th line: its classification time and the
    time of each parser *)
Definition timing := nat → Z * (nat → Z).

(** sendEvents *)
Definition sendEvents (res : ClassifierResult) (out : list Event) : list Event :=
  out ++ default [] (Events res).

Definition processLogLine (tm : timing) (n : nat) (c : @Classifier PS) (line : string)
    (out : list Event) : outcome (Classifier * list Event) :=
  r ← Classify Parse LogType c line (tm n).1 (tm n).2;
  let '(c, res) := r in
  match resLogType res with
  | None => Ret (c, out)
  | Some _ => Ret (c, sendEvents res out)
  end.

Fixpoint run_lines (tm : timing) (n : nat) (c : @Classifier PS) (ls : list string) (out : list Event)
    : outcome (Classifier * list Event * nat) :=
  match ls with
  | [] => Ret (c, out, n)
  | l :: ls =>
      r ← processLogLine tm n c l out;
      let '(c, out) := r in run_lines tm (S n) c ls out
  end.

(** Processor.run with the classifier [c]; [out] is the output channel *)
Definition run (tm : timing) (c : @Classifier PS) (st : DataStream) (out : list Event)
    : outcome (list Event * option error) :=
  let '(ls, rest) := ReadString_all (content st) in
  r ← run_lines tm 0 c ls out;
  let '(c, out, n) := r in
  match readErr st with
  | Some e => Ret (out, Some (ErrWrap "failed to ReadString()" e))
  | None =>
      r ← processLogLine tm n c rest out;
      let '(_, out) := r in Ret (out, None)
  end.

(** the streams are processed one after the other, each with a new
    classifier, until one fails; [registry n] is the order in which the
    registry map is iterated for the [n]-th stream *)
Fixpoint run_streams (tm : nat → timing) (registry : nat → list PS) (n : nat)
    (sts : list DataStream) (out : list Event) : outcome (list Event * list error) :=
  match sts with
  | [] => Ret (out, [])
  | st :: sts =>
      r ← run (tm n) (NewClassifier (registry n)) st out;
      let '(out, err) := r in
      match err with
      | Some e => Ret (out, [e])
      | None => run_streams tm registry (S n) sts out
      end
  end.

(** process: [SendEvents] is the destination, with the errors it writes to
    errorChannel; the error returned is the last one received of the
    interleaving [order] *)
Definition process {D} (SendEvents : list Event → outcome (D * list error))
    (order : list error → list error → list error)
    (tm : nat → timing) (registry : nat → list PS) (sts : list DataStream)
    : outcome (D * option error) :=
  r ← run_streams tm registry 0 sts [];
  let '(evs, errs) := r in
  d ← SendEvents evs;
  Ret (d.1, last (order errs d.2)).

(** ** Reading *)

Lemma ReadString_all_concat s :
  foldr String.append "" (ReadString_all s).1 +:+ (ReadString_all s).2 = s.
Proof.
  induction s as [|c s IH]; [done|]. simpl. destruct (ReadString_all s) as [ls rest]. simpl in *.
  case_decide; [|destruct ls as [|l ls]]; simpl in *;
    rewrite ?string_app_cons, ?string_app_nil_l in *; by f_equal.
Qed.

Lemma ReadString_all_length s :
  length (ReadString_all s).1 ≤ String.length s.
Proof.
  induction s as [|c s IH]; [done|]. simpl. destruct (ReadString_all s) as [ls rest]. simpl in *.
  case_decide; [simpl; lia|]. destruct ls; simpl in *; lia.
Qed.

(** each line read ends with its only delimiter, and the rest has none *)
Lemma ReadString_all_lines s :
  Forall (λ l, ∃ b, contains_byte EventDelimiter b = false ∧ l = b +:+ String EventDelimiter "")
    (ReadString_all s).1 ∧ contains_byte EventDelimiter (ReadString_all s).2 = false.
Proof.
  induction s as [|c s [IH1 IH2]]; [by split|]. simpl.
  destruct (ReadString_all s) as [ls rest]. simpl in *.
  case_decide as Hc.
  { subst. split; [|done]. constructor; [|done]. by exists "". }
  destruct ls as [|l ls]; simpl.
  - split; [done|]. by rewrite decide_False.
  - apply Forall_cons in IH1 as [(b&Hb&->) IH1]. split; [|done]. constructor; [|done].
    exists (String c b). split; [|done]. simpl. by rewrite decide_False.
Qed.

(** ** Running a stream *)

(** the lines the classifier sees: all of them, and the rest at end of file *)
Definition lines_of (st : DataStream) : list string :=
  (ReadString_all (content st)).1 ++
  match readErr st with None => [(ReadString_all (content st)).2] | Some _ => [] end.

Fixpoint timed (tm : timing) (n : nat) (ls : list string) : list (string * Z * (nat → Z)) :=
  match ls with [] => [] | l :: ls => (l, (tm n).1, (tm n).2) :: timed tm (S n) ls end.

(** the events of the classified lines *)
Definition sent (rs : list (@ClassifierResult Event)) : list Event :=
  rs ≫= λ r, match resLogType r with Some _ => default [] (Events r) | None => [] end.

Lemma run_lines_classify tm n c ls out c' rs :
  classify_all Parse LogType c (timed tm n ls) = Ret (c', rs) →
  run_lines tm n c ls out = Ret (c', out ++ sent rs, n + length ls).
Proof.
  revert n c out rs. induction ls as [|l ls IH]; intros n c out rs; cbn [timed classify_all run_lines].
  { intros [= -> <-]. rewrite app_nil_r, Nat.add_0_r. done. }
  unfold processLogLine. destruct (Classify _ _ c l _ _) as [[c1 res]|w]; cbn; [|done].
  destruct (classify_all _ _ c1 (timed tm (S n) ls)) as [[c2 rs']|w] eqn:E; cbn; [|done].
  intros [= -> <-]. unfold sent. csimpl. rewrite (assoc_L (++)).
  destruct (resLogType res); cbn; rewrite (IH _ _ _ _ E); unfold sent, sendEvents;
    rewrite ?app_nil_r, Nat.add_succ_r; done.
Qed.

Lemma classify_all_app c l1 l2 :
  classify_all Parse LogType c (l1 ++ l2) =
  (r1 ← classify_all Parse LogType c l1;
   r2 ← classify_all Parse LogType r1.1 l2; Ret (r2.1, r1.2 ++ r2.2)).
Proof.
  revert c. induction l1 as [|[[l t] m] l1 IH]; intros c; cbn.
  { destruct (classify_all _ _ c l2) as [[c2 r2]|]; done. }
  destruct (Classify _ _ c l t m) as [[c1 res]|w]; cbn; [|done].
  rewrite IH. destruct (classify_all _ _ c1 l1) as [[c2 r1]|w]; cbn; [|done].
  by destruct (classify_all _ _ c2 l2) as [[c3 r2]|w].
Qed.

Lemma timed_app tm n l1 l2 : timed tm n (l1 ++ l2) = timed tm n l1 ++ timed tm (n + length l1) l2.
Proof.
  revert n. induction l1 as [|l l1 IH]; intros n; cbn; [by rewrite Nat.add_0_r|].
  by rewrite IH, Nat.add_succ_r.
Qed.

Lemma timed_length tm n ls : length (timed tm n ls) = length ls.
Proof. revert n. induction ls as [|l ls IH]; intros n; cbn; [done|]. by rewrite IH. Qed.

(** a stream sends exactly the events of its classified lines *)
Lemma run_spec tm registry st out :
  (slen (content st) + 2 < two63)%Z →
  ∃ c rs, classify_all Parse LogType (NewClassifier registry) (timed tm 0 (lines_of st)) = Ret (c, rs) ∧
    run tm (NewClassifier registry) st out =
    Ret (out ++ sent rs, ErrWrap "failed to ReadString()" <$> readErr st).
Proof.
  intros Hlen. pose proof (ReadString_all_length (content st)) as Hl.
  assert (length (lines_of st) ≤ S (String.length (content st))) as Hl'
    by (unfold lines_of; rewrite length_app; destruct (readErr st); simpl; lia).
  destruct (classify_all_inv Parse LogType 1 (NewClassifier registry) (timed tm 0 (lines_of st)))
    as (c&rs&E&_).
  { apply NewClassifier_wf. }
  { lia. }
  { rewrite timed_length. unfold slen in *. lia. }
  { rewrite timed_length. apply zero_counters. unfold slen in *. lia. }
  exists c, rs. split; [done|]. unfold run, lines_of in *.
  destruct (ReadString_all (content st)) as [ls rest]. cbn [fst snd] in *.
  rewrite timed_app, classify_all_app in E.
  destruct (classify_all _ _ (NewClassifier registry) (timed tm 0 ls)) as [[c1 r1]|w] eqn:E1; [|done].
  rewrite (run_lines_classify _ _ _ _ _ _ _ E1). cbn [mbind outcome_bind] in *.
  destruct (readErr st) as [e|]; cbn in *.
  { simplify_eq. by rewrite app_nil_r. }
  unfold processLogLine. cbn. destruct (Classify _ _ c1 rest _ _) as [[c2 res]|w]; cbn in *; [|done].
  simplify_eq. unfold sent. rewrite bind_app. csimpl. rewrite app_nil_r, (assoc_L (++)).
  destruct (resLogType res); cbn; by rewrite ?app_nil_r.
Qed.

(** ** All streams *)

(** the events of the [n]-th stream *)
Definition stream_events (tm : nat → timing) (registry : nat → list PS) (n : nat) (st : DataStream)
    : list Event :=
  match classify_all Parse LogType (NewClassifier (registry n)) (timed (tm n) 0 (lines_of st)) with
  | Ret (_, rs) => sent rs
  | Panic _ => []
  end.

Fixpoint all_events (tm : nat → timing) (registry : nat → list PS) (n : nat) (sts : list DataStream)
    : list Event :=
  match sts with
  | [] => []
  | st :: sts => stream_events tm registry n st ++
      match readErr st with None => all_events tm registry (S n) sts | Some _ => [] end
  end.

Lemma run_streams_spec tm registry n sts out :
  Forall (λ st, slen (content st) + 2 < two63)%Z sts →
  run_streams tm registry n sts out =
  Ret (out ++ all_events tm registry n sts,
       take 1 (ErrWrap "failed to ReadString()" <$> omap readErr sts)).
Proof.
  intros Hok. revert n out. induction Hok as [|st sts Hst Hok IH]; intros n out; cbn [run_streams all_events].
  { by rewrite app_nil_r. }
  destruct (run_spec (tm n) (registry n) st out Hst) as (c&rs&E&->).
  run. unfold stream_events at 1. rewrite E.
  csimpl. destruct (readErr st) as [e|]; cbn [fmap option_fmap option_map].
  - csimpl. by rewrite app_nil_r.
  - rewrite IH. by rewrite (assoc_L (++)).
Qed.

(** every event comes from a parser *)
Lemma Classify_events (P : Event → Prop) (c : @Classifier PS) line t m c' res :
  (∀ ps log ps' evs, Parse ps log = (ps', Ret (Some evs)) → Forall P evs) →
  Classify Parse LogType c line t m = Ret (c', res) → Forall P (default [] (Events res)).
Proof.
  intros HP. unfold Classify. repeat case_decide; try (by intros [= _ <-]; constructor).
  assert (∀ fuel c popped c' popped' res,
    classify_loop Parse LogType fuel m (TrimSpace line) c popped = Ret (c', popped', res) →
    Forall P (default [] (Events res))) as Hloop.
  { induction fuel as [|fuel IH]; intros c0 popped c0' popped' res'; cbn [classify_loop].
    { destruct (items c0); intros [= _ _ <-]; constructor. }
    destruct (items c0) as [|p l]; [intros [= _ _ <-]; constructor|].
    destruct (Classifier.mem c0 !! p) as [it|]; [|done]. unfold safeLogParse.
    destruct (Parse (parser it) (TrimSpace line)) as [ps' [[evs|]|w]] eqn:E.
    - intros [= _ _ <-]. cbn. by eapply HP.
    - destruct (heap_Pop _ _) as [[x l']|]; [|done]. apply IH.
    - destruct (heap_Pop _ _) as [[x l']|]; [|done]. apply IH. }
  destruct (classify_loop _ _ _ _ _ _ _) as [[[c1 popped] r]|w] eqn:E; [|done].
  cbn. intros [= _ <-]. by eapply Hloop.
Qed.

Lemma all_events_from_parsers (P : Event → Prop) tm registry n sts :
  (∀ ps log ps' evs, Parse ps log = (ps', Ret (Some evs)) → Forall P evs) →
  Forall P (all_events tm registry n sts).
Proof.
  intros HP.
  assert (∀ ls c c' rs, classify_all Parse LogType c ls = Ret (c', rs) → Forall P (sent rs)) as Hall.
  { induction ls as [|[[l t] m] ls IH]; intros c c' rs; cbn [classify_all].
    { intros [= _ <-]. constructor. }
    destruct (Classify _ _ c l t m) as [[c1 res]|w] eqn:E1; cbn; [|done].
    destruct (classify_all _ _ c1 ls) as [[c2 rs']|w] eqn:E2; cbn; [|done].
    intros [= _ <-]. unfold sent. csimpl. apply Forall_app_2; [|by eapply IH].
    destruct (resLogType res); [|done]. by eapply Classify_events. }
  revert n. induction sts as [|st sts IH]; intros n; cbn [all_events]; [done|].
  apply Forall_app_2; [|destruct (readErr st); [done|apply IH]].
  unfold stream_events. destruct (classify_all _ _ _ _) as [[c rs]|w] eqn:E; [|done].
  by eapply Hall.
Qed.
End Processor.

(** ** The processor with the S3 destination *)

Section EndToEnd.
Context {PS Ev : Type}.
Context (Parse : PS → string → PS * outcome (option (list (PantherLog Ev)))) (LogType : PS → string).
Context (types : gset string) (bucket : string) (marshal_event : option Ev → result string)
        (marshal_notification : S3Notification → result string)
        (upload publish : nat → option error) (uuid : nat → string) (maxMem : Z).
(** the ticker, clock and map orders the destination sees at the [n]-th event *)
Context (env : nat → PantherLog Ev → @input Ev) (order : list nat → list nat)
        (merge : list error → list error → list error).

Definition s3_destination (evs : list (PantherLog Ev)) : outcome (dst * list error) :=
  d ← SendEvents types bucket marshal_event marshal_notification upload publish uuid maxMem
        (imap env evs) order;
  Ret (d, errs d).

(** the line an event becomes in S3 *)
Definition event_line (e : PantherLog Ev) : option (string * Z * string) :=
  match PantherEventTime e, PantherLogType e, marshal_event (PantherLog.event e) with
  | Some t, Some lt, Ok ln => Some (lt, GoTime.Truncate t GoTime.Hour, ln)
  | _, _, _ => None
  end.

Hypothesis env_event : ∀ n e, event (env n e) = e.
Hypothesis env_order : ∀ n e l, order1 (env n e) l ≡ₚ l ∧ order2 (env n e) l ≡ₚ l.
Hypothesis order_perm : ∀ l, order l ≡ₚ l.
Hypothesis merge_perm : ∀ a b, merge a b ≡ₚ a ++ b.
Hypothesis parsers_ok : ∀ ps log ps' evs, Parse ps log = (ps', Ret (Some evs)) →
  Forall (λ e, ∃ t lt, PantherEventTime e = Some t ∧ PantherLogType e = Some lt ∧ lt ∈ types) evs.

Lemma omap_imap (f : PantherLog Ev → option (string * Z * string)) evs n :
  (∀ i e, accepted marshal_event (env i e) = f e) →
  omap (accepted marshal_event) (imap (λ i, env (n + i)) evs) = omap f evs.
Proof.
  intros Hf. revert n. induction evs as [|e evs IH]; intros n; [done|].
  rewrite imap_cons. csimpl. rewrite Hf.
  assert (imap ((λ i, env (n + i)) ∘ S) evs = imap (λ i, env (S n + i)) evs) as ->
    by (apply imap_ext; intros; simpl; by rewrite Nat.add_succ_r).
  by rewrite IH.
Qed.

Lemma omap_all {A B} (f : A → option B) l :
  Forall (λ x, is_Some (f x)) l → length (omap f l) = length l.
Proof. induction 1 as [|x l [y Hy] _ IH]; [done|]. csimpl. rewrite Hy. simpl. by rewrite IH. Qed.

End EndToEnd.

(** ** A concrete pipeline *)

(** a parser named [ps] that accepts the lines that start with its name *)
Definition demo_log_parse (ps : string) (log : string)
    : string * outcome (option (list (PantherLog string))) :=
  if decide (log = "boom") then (ps, Panic "boom")
  else if decide (has_prefix ps log = true ∧ ps ∈ demo_registry)
       then (ps, Ret (Some [demo_event ps 5 log; demo_event ps 7 log]))
       else (ps, Ret None).

Definition demo_env (n : nat) (e : PantherLog string) : input :=
  {| tick := None; event := e; now := 0; order1 := id; order2 := id |}.

Definition demo_streams : list DataStream :=
  [{| content := "AWS.ALB one" +:+ String EventDelimiter "AWS.VPCFlow two"; readErr := None |};
   {| content := "boom" +:+ String EventDelimiter ""; readErr := None |}].

Definition demo_timing (stream line : nat) : Z * (nat → Z) := (1%Z, λ _, 1%Z).

