(* ===== verification/GoPath.v ===== *)
(** * path.Match

    Go 1.14's shell pattern matching, which the suppression patterns of the
    compliance API go through, and the proof that for patterns made of literal
    bytes and [*] its greedy search finds a match exactly when one exists. *)

From S2P Require Import Prelude.

(** ** utf8.DecodeRuneInString: rune and width *)

Definition RuneError : Z := 65533.

Definition bz (c : ascii) : Z := Z.of_nat (nat_of_ascii c).
Definition cont (c : ascii) : bool := bool_decide (128 ≤ bz c ≤ 191)%Z.

Definition DecodeRune (s : string) : Z * nat :=
  match s with
  | EmptyString => (RuneError, 0)
  | String c0 s1 =>
      let b0 := bz c0 in
      let bad := (RuneError, 1) in
      if decide (b0 < 128)%Z then (b0, 1)
      else if decide (194 ≤ b0 ≤ 223)%Z then
        match s1 with
        | String c1 _ => if cont c1 then (((b0 - 192) * 64 + (bz c1 - 128))%Z, 2) else bad
        | _ => bad
        end
      else if decide (224 ≤ b0 ≤ 239)%Z then
        match s1 with
        | String c1 (String c2 _) =>
            let lo := if decide (b0 = 224)%Z then 160%Z else 128%Z in
            let hi := if decide (b0 = 237)%Z then 159%Z else 191%Z in
            if bool_decide (lo ≤ bz c1 ≤ hi)%Z && cont c2
            then (((b0 - 224) * 4096 + (bz c1 - 128) * 64 + (bz c2 - 128))%Z, 3) else bad
        | _ => bad
        end
      else if decide (240 ≤ b0 ≤ 244)%Z then
        match s1 with
        | String c1 (String c2 (String c3 _)) =>
            let lo := if decide (b0 = 240)%Z then 144%Z else 128%Z in
            let hi := if decide (b0 = 244)%Z then 143%Z else 191%Z in
            if bool_decide (lo ≤ bz c1 ≤ hi)%Z && cont c2 && cont c3
            then (((b0 - 240) * 262144 + (bz c1 - 128) * 4096 + (bz c2 - 128) * 64 + (bz c3 - 128))%Z, 4)
            else bad
        | _ => bad
        end
      else bad
  end.

(** [s[n:]] *)
Fixpoint sdrop (n : nat) (s : string) : string :=
  match n, s with
  | S n, String _ s' => sdrop n s'
  | _, _ => s
  end.

(** ** scanChunk *)

Fixpoint skip_stars (p : string) : bool * string :=
  match p with
  | String c p' => if decide (c = "*"%char) then (true, (skip_stars p').2) else (false, p)
  | EmptyString => (false, "")
  end.

Definition backslash : ascii := "092".

Fixpoint scan (inrange : bool) (p : string) : string * string :=
  match p with
  | EmptyString => ("", "")
  | String c p' =>
      let cons_scan b q := let '(chunk, rest) := scan b q in (String c chunk, rest) in
      if decide (c = backslash) then
        match p' with
        | String d q => let '(chunk, rest) := scan inrange q in (String c (String d chunk), rest)
        | EmptyString => (String c "", "")
        end
      else if decide (c = "["%char) then cons_scan true p'
      else if decide (c = "]"%char) then cons_scan false p'
      else if decide (c = "*"%char) then
        if inrange then cons_scan inrange p' else ("", p)
      else cons_scan inrange p'
  end.

Definition scanChunk (pattern : string) : bool * string * string :=
  let '(star, p) := skip_stars pattern in
  let '(chunk, rest) := scan false p in (star, chunk, rest).

(** ** matchChunk *)

(** [getEsc]: a rune of a character class and the rest of the chunk *)
Definition getEsc (chunk : string) : result (Z * string) :=
  let bad := Err ErrBadPattern in
  let take_rune (chunk : string) : result (Z * string) :=
    let '(r, n) := DecodeRune chunk in
    if decide (r = RuneError ∧ n = 1) then bad
    else let nchunk := sdrop n chunk in if decide (nchunk = "") then bad else Ok (r, nchunk) in
  match chunk with
  | EmptyString => bad
  | String c chunk' =>
      if decide (c = "-"%char ∨ c = "]"%char) then bad
      else if decide (c = backslash) then
        match chunk' with EmptyString => bad | _ => take_rune chunk' end
      else take_rune chunk
  end.

(** the ranges of a class up to its closing bracket; every range consumes a
    byte *)
Fixpoint class_loop (fuel : nat) (r : Z) (chunk : string) (match_ : bool) (nrange : nat)
    : result (bool * string) :=
  match fuel with
  | O => Err ErrBadPattern
  | S fuel =>
      let continue_ (_ : unit) :=
        match getEsc chunk with
        | Err e => Err e
        | Ok (lo, chunk) =>
            match chunk with
            | String c chunk' =>
                if decide (c = "-"%char) then
                  match getEsc chunk' with
                  | Err e => Err e
                  | Ok (hi, chunk) =>
                      class_loop fuel r chunk (match_ || bool_decide (lo ≤ r ≤ hi)%Z) (S nrange)
                  end
                else class_loop fuel r chunk (match_ || bool_decide (lo ≤ r ≤ lo)%Z) (S nrange)
            | EmptyString => Err ErrBadPattern
            end
        end in
      match chunk with
      | String c chunk' =>
          if decide (c = "]"%char ∧ 0 < nrange) then Ok (match_, chunk') else continue_ tt
      | EmptyString => continue_ tt
      end
  end.

(** [Ok (Some rest)]: matched; [Ok None]: no match.  Every step consumes a
    byte of the chunk. *)
Fixpoint matchChunk (fuel : nat) (chunk s : string) : result (option string) :=
  match fuel, chunk with
  | _, EmptyString => Ok (Some s)
  | O, _ => Ok None
  | S fuel, String c chunk' =>
      match s with
      | EmptyString => Ok None
      | String d s' =>
          if decide (c = "["%char) then
            let '(r, n) := DecodeRune s in
            let '(notNegated, body) :=
              match chunk' with
              | String e q => if decide (e = "^"%char) then (false, q) else (true, chunk')
              | EmptyString => (true, chunk')
              end in
            match class_loop (S (String.length body)) r body false 0 with
            | Err e => Err e
            | Ok (m, chunk) =>
                if decide (m = notNegated) then matchChunk fuel chunk (sdrop n s) else Ok None
            end
          else if decide (c = "?"%char) then
            if decide (d = "/"%char) then Ok None
            else matchChunk fuel chunk' (sdrop (DecodeRune s).2 s)
          else if decide (c = backslash) then
            match chunk' with
            | EmptyString => Err ErrBadPattern
            | String e q => if decide (e = d) then matchChunk fuel q s' else Ok None
            end
          else if decide (c = d) then matchChunk fuel chunk' s' else Ok None
      end
  end.

Definition match_chunk (chunk s : string) : result (option string) :=
  matchChunk (String.length chunk) chunk s.

(** the search after a star: skip bytes, but no slash *)
Fixpoint skip_search (chunk : string) (last : bool) (name : string) : result (option string) :=
  match name with
  | EmptyString => Ok None
  | String c name' =>
      if decide (c = "/"%char) then Ok None
      else match match_chunk chunk name' with
           | Ok (Some t) => if last && negb (String.eqb t "") then skip_search chunk last name'
                            else Ok (Some t)
           | Ok None => skip_search chunk last name'
           | Err e => Err e
           end
  end.

(** every chunk consumes a byte of the pattern *)
Fixpoint match_loop (fuel : nat) (pattern name : string) : result bool :=
  match fuel, pattern with
  | _, EmptyString => Ok (String.eqb name "")
  | O, _ => Ok false
  | S fuel, _ =>
      let '(star, chunk, rest) := scanChunk pattern in
      if star && String.eqb chunk "" then Ok (negb (contains_byte "/" name))
      else
        let last := String.eqb rest "" in
        match match_chunk chunk name with
        | Ok (Some t) =>
            if String.eqb t "" || negb last then match_loop fuel rest t
            else if star then
              match skip_search chunk last name with
              | Ok (Some t) => match_loop fuel rest t
              | Ok None => Ok false
              | Err e => Err e
              end
            else Ok false
        | Err e => Err e
        | Ok None =>
            if star then
              match skip_search chunk last name with
              | Ok (Some t) => match_loop fuel rest t
              | Ok None => Ok false
              | Err e => Err e
              end
            else Ok false
        end
  end.

Definition Match (pattern name : string) : result bool :=
  match_loop (String.length pattern) pattern name.

Example Match_examples :
  (λ pn, Match pn.1 pn.2) <$>
    [("abc", "abc"); ("*", "abc"); ("*c", "abc"); ("a*", "a"); ("a*", "ab/c"); ("a*/b", "abc/b");
     ("a*b*c*d*e*/f", "axbxcxdxe/f"); ("a*b*c*d*e*/f", "axbxcxdxexxx/fff"); ("a*b?c*x", "abxbbxdbxebxczzx");
     ("ab[c]", "abc"); ("ab[b-d]", "abc"); ("ab[^c]", "abc"); ("a?b", "a/b"); ("[a-]", "a"); ("[]a]", "]");
     ("a[", "a"); ("[-]", "-"); ("*x", "xxx")] =
  [Ok true; Ok true; Ok true; Ok true; Ok false; Ok true; Ok true; Ok false; Ok true;
   Ok true; Ok true; Ok false; Ok false; Err ErrBadPattern; Err ErrBadPattern;
   Ok false; Err ErrBadPattern; Ok true].
Proof. vm_compute. reflexivity. Qed.

(** ** Reference semantics for literal bytes and stars *)

Inductive glob : string → string → Prop :=
| glob_nil : glob "" ""
| glob_byte c p s : c ≠ "*"%char → glob p s → glob (String c p) (String c s)
| glob_star p s : glob p s → glob (String "*" p) s
| glob_skip p c s : c ≠ "/"%char → glob (String "*" p) s → glob (String "*" p) (String c s).

(** no class, no question mark, no escape *)
Definition plain_byte (c : ascii) : bool :=
  negb (bool_decide (c = "["%char ∨ c = "?"%char ∨ c = backslash)).
Definition plain (p : string) : Prop := all_bytes plain_byte p = true.
Definition no_star (p : string) : Prop := contains_byte "*" p = false.
Definition no_slash (p : string) : Prop := contains_byte "/" p = false.

Lemma plain_cons c p : plain (String c p) ↔ plain_byte c = true ∧ plain p.
Proof. unfold plain. simpl. apply andb_true_iff. Qed.

Lemma plain_byte_ne c : plain_byte c = true → c ≠ "["%char ∧ c ≠ "?"%char ∧ c ≠ backslash.
Proof. unfold plain_byte. intros H%negb_true_iff%bool_decide_eq_false. naive_solver. Qed.

Lemma no_star_cons c p : no_star (String c p) ↔ c ≠ "*"%char ∧ no_star p.
Proof. unfold no_star. simpl. case_decide; naive_solver. Qed.

Lemma no_slash_cons c p : no_slash (String c p) ↔ c ≠ "/"%char ∧ no_slash p.
Proof. unfold no_slash. simpl. case_decide; naive_solver. Qed.

Lemma no_slash_app a b : no_slash (a +:+ b) ↔ no_slash a ∧ no_slash b.
Proof. unfold no_slash. rewrite contains_byte_app. apply orb_false_iff. Qed.

Lemma plain_app a b : plain (a +:+ b) ↔ plain a ∧ plain b.
Proof.
  induction a as [|c a IH]; [rewrite string_app_nil_l; unfold plain at 2; naive_solver|].
  rewrite string_app_cons, !plain_cons, IH. naive_solver.
Qed.

(** *** The pieces of the algorithm on plain patterns *)

Lemma scan_plain p :
  plain p → ∃ chunk rest, scan false p = (chunk, rest) ∧ p = chunk +:+ rest ∧ no_star chunk ∧
    (rest = "" ∨ ∃ r, rest = String "*" r).
Proof.
  induction p as [|c p IH]; intros Hp; [exists "", ""; split_and!; [done..|by left]|].
  apply plain_cons in Hp as [Hc Hp]. apply plain_byte_ne in Hc as (H1&H2&H3).
  destruct (IH Hp) as (chunk&rest&E&->&Hns&Hr). cbn [scan].
  rewrite (decide_False (P := c = backslash)) by done.
  rewrite (decide_False (P := c = "["%char)) by done.
  destruct (decide (c = "*"%char)) as [->|Hstar].
  { exists "", (String "*" (chunk +:+ rest)).
    split_and!; [reflexivity|done|done|]. right. eauto. }
  exists (String c chunk), rest. rewrite E. split_and!; [by case_decide|done| |done].
  by apply no_star_cons.
Qed.

Lemma skip_stars_spec p :
  ∃ b q, skip_stars p = (b, q) ∧ (∀ r, q ≠ String "*" r) ∧ (plain p → plain q) ∧
    (String.length q ≤ String.length p) ∧ (b = true → String.length q < String.length p) ∧
    (∀ s, glob p s ↔ if b then glob (String "*" q) s else glob q s) ∧ (b = false → p = q).
Proof.
  induction p as [|c p IH].
  { exists false, "". split_and!; try done. }
  cbn [skip_stars]. destruct (decide (c = "*"%char)) as [->|Hc].
  - destruct IH as (b&q&E&Hq&Hpl&Hlen&_&Hg&Hbq). exists true, q. rewrite E. cbn [snd].
    split_and!; [done|done|by intros [_ ?%Hpl]%plain_cons|simpl; lia|intros _; simpl; lia| |done].
    intros s. destruct b; [|by rewrite <-(Hbq eq_refl)].
    split; intros H.
    + remember (String "*" p) as p' eqn:Hp'. induction H; simplify_eq; [by apply Hg|].
      apply glob_skip; auto.
    + apply glob_star. by apply Hg.
  - exists false, (String c p). split_and!; try done. congruence.
Qed.

(** strip a literal prefix *)
Fixpoint strip_prefix (p s : string) : option string :=
  match p, s with
  | EmptyString, _ => Some s
  | String c p', String d s' => if decide (c = d) then strip_prefix p' s' else None
  | _, EmptyString => None
  end.

Lemma strip_prefix_Some p s t : strip_prefix p s = Some t ↔ s = p +:+ t.
Proof.
  revert s. induction p as [|c p IH]; intros s; simpl.
  { rewrite string_app_nil_l. naive_solver. }
  rewrite string_app_cons. destruct s as [|d s]; [done|]. case_decide; [|naive_solver].
  rewrite IH. naive_solver.
Qed.

Lemma match_chunk_plain p s : plain p → match_chunk p s = Ok (strip_prefix p s).
Proof.
  unfold match_chunk. revert s. induction p as [|c p IH]; intros s Hp; [done|].
  apply plain_cons in Hp as [Hc Hp]. apply plain_byte_ne in Hc as (H1&H2&H3).
  destruct s as [|d s]; [done|]. cbn [String.length matchChunk strip_prefix].
  rewrite !decide_False by done. case_decide; [by apply IH|done].
Qed.

(** *** glob *)

Lemma glob_chunk p rest s :
  no_star p → glob (p +:+ rest) s ↔ ∃ t, s = p +:+ t ∧ glob rest t.
Proof.
  revert s. induction p as [|c p IH]; intros s Hp.
  { rewrite string_app_nil_l. split; [by exists s|]. intros (t&->&?). done. }
  apply no_star_cons in Hp as [Hc Hp]. rewrite string_app_cons. split.
  - intros H. inversion H; simplify_eq.
    match goal with H : glob (p +:+ rest) _ |- _ => apply IH in H as (t&->&?); [|done] end.
    exists t. by rewrite string_app_cons.
  - intros (t&->&Ht). rewrite string_app_cons. apply glob_byte; [done|]. apply IH; [done|]. by exists t.
Qed.

Lemma glob_star_iff q s :
  glob (String "*" q) s ↔ ∃ a t, s = a +:+ t ∧ no_slash a ∧ glob q t.
Proof.
  split.
  - intros H. remember (String "*" q) as p eqn:Hp. induction H as [|c p s Hc| |p c s Hc H IH]; simplify_eq.
    + by exists "", s.
    + destruct (IH eq_refl) as (a&t&->&Ha&?). exists (String c a), t. split_and!; [done| |done].
      by apply no_slash_cons.
  - intros (a&t&->&Ha&Ht). induction a as [|c a IH]; [by apply glob_star|].
    apply no_slash_cons in Ha as [Hc Ha]. rewrite string_app_cons. apply glob_skip; auto.
Qed.

(** *** The search for a chunk after a star finds the first occurrence *)

Fixpoint first_occ (chunk : string) (last : bool) (name : string) : option string :=
  let here := match strip_prefix chunk name with
              | Some t => if last && negb (String.eqb t "") then None else Some t
              | None => None
              end in
  match here, name with
  | Some t, _ => Some t
  | None, EmptyString => None
  | None, String c name' => if decide (c = "/"%char) then None else first_occ chunk last name'
  end.

Lemma skip_search_plain chunk last name :
  plain chunk →
  skip_search chunk last name =
  Ok match name with
     | EmptyString => None
     | String c name' => if decide (c = "/"%char) then None else first_occ chunk last name'
     end.
Proof.
  intros Hp. induction name as [|c name IH]; [done|]. cbn [skip_search].
  case_decide; [done|]. rewrite match_chunk_plain by done. rewrite IH.
  destruct name as [|d name]; cbn [first_occ];
    destruct (strip_prefix chunk _) as [t|]; [|done| |done];
    by destruct (last && negb (String.eqb t "")).
Qed.

(** a chunk that occurs here and further on, with no slash skipped: the text
    between the two ends has no slash either *)
Lemma occurrence_shift chunk t a t' :
  chunk +:+ t = a +:+ chunk +:+ t' → no_slash a → ∃ x, no_slash x ∧ t = x +:+ t'.
Proof.
  revert a. induction chunk as [|c k IH]; intros a E Ha.
  { rewrite !string_app_nil_l in E. by exists a. }
  destruct a as [|d a].
  { rewrite string_app_nil_l, !string_app_cons in E. injection E as E.
    exists "". split; [done|]. rewrite string_app_nil_l.
    pose proof (strip_prefix_Some k (k +:+ t) t) as [_ H1]. specialize (H1 eq_refl).
    rewrite E in H1. pose proof (strip_prefix_Some k (k +:+ t') t') as [_ H2].
    rewrite (H2 eq_refl) in H1. congruence. }
  rewrite !string_app_cons in E. injection E as -> E.
  apply no_slash_cons in Ha as [Hd Ha].
  apply (IH (a +:+ String d "")).
  - rewrite string_app_assoc, string_app_cons, string_app_nil_l. done.
  - apply no_slash_app. split; [done|]. by apply no_slash_cons.
Qed.

Definition occurs (chunk : string) (last : bool) (name a t : string) : Prop :=
  name = a +:+ chunk +:+ t ∧ no_slash a ∧ (last = true → t = "").

Lemma first_occ_spec chunk last name :
  match first_occ chunk last name with
  | Some t => (∃ a, occurs chunk last name a t) ∧
      ∀ a' t', occurs chunk last name a' t' → ∃ x, no_slash x ∧ t = x +:+ t'
  | None => ∀ a' t', ¬ occurs chunk last name a' t'
  end.
Proof.
  assert (∀ name t, strip_prefix chunk name = Some t → (last = true → t = "") →
    (∃ a, occurs chunk last name a t) ∧
    ∀ a' t', occurs chunk last name a' t' → ∃ x, no_slash x ∧ t = x +:+ t') as Hhere.
  { intros nm t E%strip_prefix_Some Hl. split; [by exists ""|].
    intros a' t' (E'&Ha&_). apply (occurrence_shift chunk t a'); [congruence|done]. }
  assert (∀ nm, match strip_prefix chunk nm with
      | Some t => if last && negb (String.eqb t "") then None else Some t
      | None => None end = None → ∀ t', ¬ occurs chunk last nm "" t') as Hnot.
  { intros nm H t' (E&_&Hl). rewrite string_app_nil_l in E. apply strip_prefix_Some in E.
    rewrite E in H. destruct last; [|done]. rewrite (Hl eq_refl) in H. done. }
  induction name as [|c name IH]; cbn [first_occ].
  - destruct (match strip_prefix chunk "" with Some _ => _ | None => _ end) as [t|] eqn:E.
    + destruct (strip_prefix chunk "") as [t0|] eqn:E0; [|done].
      destruct (last && negb (String.eqb t0 "")) eqn:El; [done|]. simplify_eq.
      apply Hhere; [done|]. intros ->. simpl in El. by apply negb_false_iff, String.eqb_eq in El.
    + intros [|d a'] t'; [by apply Hnot|]. intros (H&_). by rewrite string_app_cons in H.
  - destruct (match strip_prefix chunk (String c name) with Some _ => _ | None => _ end)
      as [t|] eqn:E.
    + destruct (strip_prefix chunk (String c name)) as [t0|] eqn:E0; [|done].
      destruct (last && negb (String.eqb t0 "")) eqn:El; [done|]. simplify_eq.
      apply Hhere; [done|]. intros ->. simpl in El. by apply negb_false_iff, String.eqb_eq in El.
    + assert (∀ a' t', occurs chunk last (String c name) a' t' →
        ∃ a'', a' = String c a'' ∧ c ≠ "/"%char ∧ occurs chunk last name a'' t') as Hstep.
      { intros [|d a'] t' Ho; [by destruct (Hnot _ E t')|]. destruct Ho as (Eq&Ha&Hl).
        rewrite string_app_cons in Eq. injection Eq as -> Eq. apply no_slash_cons in Ha as [? ?].
        by exists a'. }
      case_decide as Hc.
      { intros a' t' (a''&_&?&_)%Hstep. done. }
      destruct (first_occ chunk last name) as [t|].
      * destruct IH as [(a&Eq&Ha&Hl) Hmin]. split.
        { exists (String c a). split_and!; [by rewrite string_app_cons, Eq| |done]. by apply no_slash_cons. }
        intros a' t' (a''&_&_&Ho)%Hstep. eauto.
      * intros a' t' (a''&_&_&Ho)%Hstep. by eapply IH.
Qed.

(** *** Equivalence *)

(** the text left for the pattern after a starred chunk *)
Lemma glob_first_occ chunk rest s :
  no_star chunk → (rest = "" ∨ ∃ r, rest = String "*" r) →
  glob (String "*" (chunk +:+ rest)) s ↔
  ∃ t, first_occ chunk (String.eqb rest "") s = Some t ∧ glob rest t.
Proof.
  intros Hns Hrest. rewrite glob_star_iff. setoid_rewrite glob_chunk; [|done].
  pose proof (first_occ_spec chunk (String.eqb rest "") s) as Hocc. split.
  - intros (a&t&->&Ha&t'&->&Ht').
    assert (occurs chunk (String.eqb rest "") (a +:+ chunk +:+ t') a t') as Ho.
    { split_and!; [done..|]. intros ->%String.eqb_eq. by inversion Ht'. }
    destruct (first_occ _ _ _) as [t|]; [|by destruct (Hocc a t')].
    destruct Hocc as [(a0&_&_&Hl) Hmin]. destruct (Hmin _ _ Ho) as (x&Hx&->).
    exists (x +:+ t'). split; [done|]. destruct Hrest as [-> |[r ->]].
    + rewrite (Hl eq_refl). constructor.
    + apply glob_star_iff in Ht' as (a1&t1&->&Ha1&Ht1). apply glob_star_iff.
      exists (x +:+ a1), t1. rewrite string_app_assoc. split_and!; [done|by apply no_slash_app|done].
  - intros (t&E&Ht). rewrite E in Hocc. destruct Hocc as [(a&->&Ha&_) _].
    exists a, (chunk +:+ t). split_and!; [done..|]. by exists t.
Qed.

Lemma match_loop_plain fuel p s :
  plain p → String.length p ≤ fuel → ∃ b, match_loop fuel p s = Ok b ∧ (b = true ↔ glob p s).
Proof.
  revert p s. induction fuel as [|fuel IH]; intros p s Hp Hlen.
  { destruct p; [|simpl in Hlen; lia]. exists (String.eqb s ""). split; [done|].
    rewrite String.eqb_eq. split; [intros ->; constructor|by inversion 1]. }
  destruct (decide (p = "")) as [->|Hne].
  { exists (String.eqb s ""). split; [done|].
    rewrite String.eqb_eq. split; [intros ->; constructor|by inversion 1]. }
  assert (match_loop (S fuel) p s = let '(star, chunk, rest) := scanChunk p in
    if star && String.eqb chunk "" then Ok (negb (contains_byte "/" s))
    else match match_chunk chunk s with
      | Ok (Some t) => if String.eqb t "" || negb (String.eqb rest "") then match_loop fuel rest t
          else if star then match skip_search chunk (String.eqb rest "") s with
              | Ok (Some t) => match_loop fuel rest t | Ok None => Ok false | Err e => Err e end
            else Ok false
      | Err e => Err e
      | Ok None => if star then match skip_search chunk (String.eqb rest "") s with
              | Ok (Some t) => match_loop fuel rest t | Ok None => Ok false | Err e => Err e end
            else Ok false
      end) as -> by (by destruct p).
  unfold scanChunk. destruct (skip_stars_spec p) as (star&q&->&Hq&Hpl&Hl1&Hl2&Hg&Hpq).
  destruct (scan_plain q (Hpl Hp)) as (chunk&rest&->&->&Hns&Hrest).
  apply Hpl, plain_app in Hp as [Hpc Hpr]. rewrite string_length_app in *.
  rewrite match_chunk_plain, skip_search_plain by done.
  setoid_rewrite Hg.
  destruct star; cbn [andb].
  - specialize (Hl2 eq_refl).
    destruct (String.eqb chunk "") eqn:Ec.
    { apply String.eqb_eq in Ec as ->. rewrite string_app_nil_l in *.
      destruct Hrest as [-> |[r ->]]; [|by destruct (Hq r)].
      eexists. split; [done|]. rewrite negb_true_iff, glob_star_iff. split.
      - intros Hs. exists s, "". rewrite string_app_nil_r. split_and!; [done..|constructor].
      - intros (a&t&->&Ha&Ht). inversion Ht; subst. by rewrite string_app_nil_r. }
    assert (∃ b, match first_occ chunk (String.eqb rest "") s with
        | Some t => match_loop fuel rest t | None => Ok false end = Ok b ∧
      (b = true ↔ glob (String "*" (chunk +:+ rest)) s)) as (b&Hb&Hbg).
    { pose proof (glob_first_occ chunk rest s Hns Hrest) as Hgf. setoid_rewrite Hgf.
      destruct (first_occ _ _ s) as [t|].
      - destruct (IH rest t Hpr) as (b&->&Hb); [lia|]. exists b. split; [done|]. rewrite Hb.
        split; [by eexists|]. by intros (?&[= <-]&?).
      - exists false. split; [done|]. split; [done|]. by intros (?&?&_). }
    exists b. split; [|done]. rewrite <-Hb.
    destruct s as [|d s]; cbn [first_occ]; destruct (strip_prefix chunk _) as [t|]; try done;
      destruct (String.eqb rest ""), (String.eqb t ""); cbn; try done; by case_decide.
  - pose proof (glob_chunk chunk rest s Hns) as Hgc. setoid_rewrite Hgc.
    assert (0 < String.length chunk).
    { destruct chunk; [|simpl; lia]. exfalso. rewrite string_app_nil_l in *.
      destruct Hrest as [-> |[r ->]]; [|by destruct (Hq r)]. by rewrite (Hpq eq_refl) in Hne. }
    specialize (Hpq eq_refl). destruct (strip_prefix chunk s) as [t|] eqn:E.
    + pose proof E as E'. apply strip_prefix_Some in E' as ->.
      assert ((∃ t0, chunk +:+ t = chunk +:+ t0 ∧ glob rest t0) ↔ glob rest t) as Heq.
      { split; [|by exists t]. intros (t0&E0&?). rewrite E0 in E.
        rewrite (proj2 (strip_prefix_Some chunk _ t0) eq_refl) in E. congruence. }
      setoid_rewrite Heq.
      destruct (String.eqb t "" || negb (String.eqb rest "")) eqn:El; [apply IH; [done|lia]|].
      apply orb_false_iff in El as [Et Er]. apply negb_false_iff, String.eqb_eq in Er as ->.
      exists false. split; [done|]. split; [done|]. inversion 1; subst. done.
    + exists false. split; [done|]. split; [done|]. intros (t&Et&_).
      apply strip_prefix_Some in Et. congruence.
Qed.

(** for patterns of literal bytes and stars, path.Match never reports a bad
    pattern and its greedy search is complete: it succeeds exactly on the names
    the pattern describes, where a star stands for any text without a slash. *)
Lemma Match_plain p s :
  plain p → ∃ b, Match p s = Ok b ∧ (b = true ↔ glob p s).
Proof. intros Hp. by apply match_loop_plain. Qed.
