(* ===== verification/GoSort.v ===== *)
(** * Go's sort.Slice

    What the code relies on: the result is a permutation of the slice in which
    no element is less than its predecessor.  When the comparator is a strict
    total order given by keys, that determines the result. *)

From S2P Require Import Prelude.

#[local] Open Scope Z_scope.

Definition not_less {A} (less : A → A → bool) (x y : A) : Prop := less y x = false.

#[export] Instance not_less_dec {A} (less : A → A → bool) : RelDecision (not_less less).
Proof. intros x y. unfold not_less. apply _. Defined.

Definition sorts {A} (less : A → A → bool) (l l' : list A) : Prop :=
  l' ≡ₚ l ∧ Sorted (not_less less) l'.

(** an executable sort *)
Definition sort_slice {A} (less : A → A → bool) (l : list A) : list A :=
  merge_sort (not_less less) l.

(** ** Lexicographic keys: integers, then a string *)

Fixpoint key_leb (k1 : list Z) (s1 : string) (k2 : list Z) (s2 : string) : bool :=
  match k1, k2 with
  | [], [] => String.leb s1 s2
  | [], _ :: _ => true
  | _ :: _, [] => false
  | a :: k1, b :: k2 => if decide (a < b) then true else if decide (b < a) then false
                        else key_leb k1 s1 k2 s2
  end.

Definition key_le (x y : list Z * string) : Prop := key_leb x.1 x.2 y.1 y.2 = true.

#[export] Instance key_le_dec : RelDecision key_le.
Proof. intros x y. unfold key_le. apply _. Defined.

#[export] Instance key_le_total : Total key_le.
Proof.
  intros [k1 s1] [k2 s2]. unfold key_le. simpl. revert k2.
  induction k1 as [|a k1 IH]; intros [|b k2]; simpl; auto.
  - apply String.leb_total.
  - repeat case_decide; auto; lia.
Qed.

#[export] Instance key_le_trans : Transitive key_le.
Proof.
  intros [k1 s1] [k2 s2] [k3 s3]. unfold key_le. simpl. revert k2 k3.
  induction k1 as [|a k1 IH]; intros [|b k2] [|c k3]; simpl; try done.
  - intros H1 H2. pose proof (transitivity (R := String.le) (x := s1) (y := s2) (z := s3)) as H.
    unfold String.le in H. rewrite H1, H2 in H. by apply Is_true_true, H.
  - repeat case_decide; try done; try lia. apply IH.
Qed.

#[export] Instance key_le_antisymm : AntiSymm (=) key_le.
Proof.
  intros [k1 s1] [k2 s2]. unfold key_le. simpl. revert k2.
  induction k1 as [|a k1 IH]; intros [|b k2]; simpl; try done.
  - intros H1 H2. f_equal. by apply String.leb_antisym.
  - repeat case_decide; try done; try lia. intros H1 H2. assert (a = b) as -> by lia.
    specialize (IH _ H1 H2). by simplify_eq.
Qed.

Lemma sltb_leb s1 s2 : sltb s2 s1 = false ↔ String.leb s1 s2 = true.
Proof.
  unfold sltb, String.ltb, String.leb. rewrite (String.compare_antisym s1 s2).
  by destruct (String.compare s2 s1).
Qed.

(** ** Uniqueness *)

Lemma Sorted_mono {A} (R R' : A → A → Prop) l :
  (∀ x y, x ∈ l → y ∈ l → R x y → R' x y) → Sorted R l → Sorted R' l.
Proof.
  intros HR Hs. induction Hs as [|x l Hs IH Hd]; [constructor|].
  constructor; [apply IH; set_solver|]. destruct Hd; constructor. apply HR; set_solver.
Qed.

(** [less] is the strict order of [key] on the elements of [l], for the order
    [le] of the keys *)
Definition keyed_by {A K} (le : K → K → Prop) (less : A → A → bool) (key : A → K) (l : list A) : Prop :=
  (∀ x y, x ∈ l → y ∈ l → less y x = false ↔ le (key x) (key y)) ∧
  (∀ x y, x ∈ l → y ∈ l → key x = key y → x = y).

Lemma sorts_unique_by {A K} (le : K → K → Prop) `{!Transitive le, !AntiSymm (=) le}
    (less : A → A → bool) (key : A → K) l l' l1 l2 :
  keyed_by le less key l → l' ≡ₚ l → sorts less l l1 → sorts less l' l2 → l1 = l2.
Proof.
  intros [Hless Hinj] Hl' [Hp1 Hs1] [Hp2 Hs2].
  assert (∀ k, k ≡ₚ l → Sorted (not_less less) k →
    StronglySorted (λ x y, le (key x) (key y)) k) as Hss.
  { intros k Hk Hs. apply Sorted_StronglySorted; [intros x y z; apply transitivity|].
    eapply Sorted_mono; [|exact Hs]. intros x y Hx Hy. rewrite Hk in Hx, Hy. by apply Hless. }
  apply (StronglySorted_unique_strong (λ x y, le (key x) (key y)));
    [|apply Hss; done|apply Hss; [by rewrite Hp2|done]|by rewrite Hp1, Hp2].
  intros x y Hx Hy H1 H2. rewrite Hp1 in Hx. rewrite Hp2, Hl' in Hy.
  apply Hinj; [done..|]. by apply (anti_symm le).
Qed.

(** sorting by the comparator is sorting by the keys *)
Lemma sorts_keyed_by {A K} (le : K → K → Prop) `{!Transitive le} (less : A → A → bool) (key : A → K) l l' :
  keyed_by le less key l → sorts less l l' ↔ l' ≡ₚ l ∧ StronglySorted (λ x y, le (key x) (key y)) l'.
Proof.
  intros [Hless _]. split; intros [Hp Hs]; (split; [done|]).
  - apply Sorted_StronglySorted; [intros x y z; apply transitivity|].
    eapply Sorted_mono; [|exact Hs]. intros x y Hx Hy. rewrite Hp in Hx, Hy. by apply Hless.
  - apply StronglySorted_Sorted in Hs. eapply Sorted_mono; [|exact Hs]. intros x y Hx Hy.
    rewrite Hp in Hx, Hy. by apply Hless.
Qed.

Section Unique.
Context {A : Type} (less : A → A → bool) (key : A → list Z * string).

Definition keyed (l : list A) : Prop := keyed_by key_le less key l.

Lemma sort_slice_sorts l :
  (∀ x y, less x y = true → less y x = false) → sorts less l (sort_slice less l).
Proof.
  intros Has. split; [apply merge_sort_Permutation|]. apply Sorted_merge_sort.
  intros x y. unfold not_less. destruct (less y x) eqn:E; [|by left]. right. by apply Has.
Qed.

Lemma sorts_unique l l' l1 l2 :
  keyed l → l' ≡ₚ l → sorts less l l1 → sorts less l' l2 → l1 = l2.
Proof. apply sorts_unique_by; apply _. Qed.
End Unique.

(** ** Two strings compared in turn *)

Definition pair_le (x y : string * string) : Prop :=
  String.leb x.1 y.1 = true ∧ (x.1 = y.1 → String.leb x.2 y.2 = true).

Lemma leb_trans a b c : String.leb a b = true → String.leb b c = true → String.leb a c = true.
Proof.
  intros H1 H2. pose proof (transitivity (R := String.le) (x := a) (y := b) (z := c)) as H.
  unfold String.le in H. rewrite H1, H2 in H. by apply Is_true_true, H.
Qed.

#[export] Instance pair_le_trans : Transitive pair_le.
Proof.
  intros [a1 a2] [b1 b2] [c1 c2] [H1 H2] [H3 H4]. cbn in *. split; cbn; [by eapply leb_trans|].
  intros ->. assert (c1 = b1) as -> by by apply String.leb_antisym. eapply leb_trans; eauto.
Qed.

#[export] Instance pair_le_antisymm : AntiSymm (=) pair_le.
Proof.
  intros [a1 a2] [b1 b2] [H1 H2] [H3 H4]. cbn in *.
  assert (a1 = b1) as -> by by apply String.leb_antisym. f_equal. apply String.leb_antisym; auto.
Qed.

(** ** A comparator that can panic

    sort.Slice sorts up to twelve elements by insertion, as below; when the
    comparator is total the result of a longer slice is determined by
    [sorts_unique_by]. *)

Section Outcome.
Context {A : Type} (less : A → A → outcome bool).

(** [x] moves down the sorted prefix, which is reversed here *)
Fixpoint insert_down (x : A) (prefix : list A) : outcome (list A) :=
  match prefix with
  | [] => Ret [x]
  | y :: rest =>
      b ← less x y;
      if b : bool then rest' ← insert_down x rest; Ret (y :: rest') else Ret (x :: y :: rest)
  end.

Fixpoint insertion_sort (prefix l : list A) : outcome (list A) :=
  match l with
  | [] => Ret (rev prefix)
  | x :: l => prefix ← insert_down x prefix; insertion_sort prefix l
  end.

Definition sort_slice_outcome (l : list A) : outcome (list A) := insertion_sort [] l.

Context (f : A → A → bool).

Definition down (x y : A) : Prop := f x y = false.

Lemma insert_down_ok x prefix :
  (∀ y, y ∈ prefix → less x y = Ret (f x y)) →
  (∀ y, y ∈ prefix → f x y = true → f y x = false) →
  Sorted down prefix →
  ∃ p, insert_down x prefix = Ret p ∧ p ≡ₚ x :: prefix ∧ Sorted down p ∧
    (∀ z, HdRel down z prefix → down z x → HdRel down z p).
Proof.
  intros Hl Has Hs. induction prefix as [|y rest IH]; cbn.
  { exists [x]. repeat (split || constructor || intros); auto. }
  rewrite Hl by set_solver. run. destruct (f x y) eqn:E.
  - inversion_clear Hs as [|?? Hs' Hd]. destruct IH as (p&->&Hp&Hsp&Hhd); [set_solver..|done|].
    run. eexists. split; [done|]. split; [by rewrite Hp; constructor|]. split.
    + constructor; [done|]. apply Hhd; [done|]. apply Has; [set_solver|done].
    + intros z Hz _. inversion Hz; subst. by constructor.
  - eexists. split; [done|]. split; [done|]. split; [|intros; by constructor].
    constructor; [done|]. by constructor.
Qed.

Lemma insertion_sort_ok prefix l :
  (∀ x y, x ∈ prefix ++ l → y ∈ prefix ++ l → less x y = Ret (f x y)) →
  (∀ x y, f x y = true → f y x = false) →
  Sorted down prefix →
  ∃ l', insertion_sort prefix l = Ret (rev l') ∧ l' ≡ₚ prefix ++ l ∧ Sorted down l'.
Proof.
  intros Hl Has. revert prefix Hl. induction l as [|x l IH]; intros prefix Hl Hs; cbn.
  { exists prefix. by rewrite app_nil_r. }
  destruct (insert_down_ok x prefix) as (p&->&Hp&Hsp&_); [intros; apply Hl; set_solver|auto|done|].
  run. destruct (IH p) as (l'&->&Hp'&Hs'); [|done|].
  { intros a b. rewrite Hp. intros. apply Hl; set_solver. }
  exists l'. split; [done|]. split; [|done]. by rewrite Hp', Hp, <-Permutation_middle.
Qed.

End Outcome.

Lemma insert_down_perm {A} (less : A → A → outcome bool) x prefix p : insert_down less x prefix = Ret p → p ≡ₚ x :: prefix.
Proof.
  revert p. induction prefix as [|y rest IH]; intros p; cbn; [by intros [= <-]|].
  destruct (less x y) as [[]|why]; cbn; [|by intros [= <-]|done].
  destruct (insert_down less x rest) as [q|why]; cbn; [|done]. intros [= <-]. rewrite (IH q) by done. by constructor.
Qed.

Lemma sort_slice_perm {A} (less : A → A → outcome bool) l l' : sort_slice_outcome less l = Ret l' → l' ≡ₚ l.
Proof.
  unfold sort_slice_outcome. change l with ([] ++ l) at 2. generalize (@nil A) as prefix.
  induction l as [|x l IH]; intros prefix; cbn.
  - intros [= <-]. by rewrite app_nil_r, <-Permutation_rev.
  - destruct (insert_down less x prefix) as [p|why] eqn:E; cbn; [|done]. intros Hs.
    rewrite (IH _ Hs), (insert_down_perm _ _ _ _ E). by rewrite <-Permutation_middle.
Qed.

Lemma Sorted_snoc_2 {X} (R : X → X → Prop) l y x :
  Sorted R (l ++ [y]) → R y x → Sorted R ((l ++ [y]) ++ [x]).
Proof.
  induction l as [|a l IH]; cbn; intros Hs HR; [repeat constructor; done|].
  inversion_clear Hs as [|?? Hs' Hd]. constructor; [by apply IH|].
  destruct l; cbn in *; inversion_clear Hd; by constructor.
Qed.

Lemma Sorted_rev {X} (R : X → X → Prop) l : Sorted (flip R) l → Sorted R (rev l).
Proof.
  induction 1 as [|x l Hs IH Hd]; cbn; [constructor|].
  destruct l as [|y l]; cbn; [repeat constructor|]. inversion_clear Hd as [|?? Hyx]. cbn in IH.
  by apply Sorted_snoc_2.
Qed.

Lemma sort_slice_outcome_sorts {A} (less : A → A → outcome bool) (f : A → A → bool) l :
  (∀ x y, x ∈ l → y ∈ l → less x y = Ret (f x y)) → (∀ x y, f x y = true → f y x = false) →
  ∃ l', sort_slice_outcome less l = Ret l' ∧ sorts f l l'.
Proof.
  intros Hl Has. destruct (insertion_sort_ok less f [] l) as (l'&Hr&Hp&Hs); [done..|constructor|].
  exists (rev l'). split; [done|]. split; [by rewrite <-Permutation_rev|].
  apply Sorted_rev. done.
Qed.
