(* ===== verification/Compliance.v ===== *)
(** * Compliance API: counters, ordering and paging

    Model of src/internal/compliance/compliance_api/handlers: util.go,
    paging.go and the page handling of dynamo.go.  Statuses and severities are
    strings, as in the generated models of src/api/gateway/compliance.  The
    pages of a DynamoDB query and the unmarshalling of an item are parameters.
    Counters count the items of one response and stay far below 2^63; the
    arithmetic on request parameters is kept at 64 bits. *)

From S2P Require Import Prelude GoSort GoPath.

#[local] Open Scope Z_scope.

Definition StatusERROR : string := "ERROR".
Definition StatusFAIL : string := "FAIL".
Definition StatusPASS : string := "PASS".

Definition severities : list string := ["INFO"; "LOW"; "MEDIUM"; "HIGH"; "CRITICAL"].

(** map lookup: an unknown severity gets the zero value *)
Definition severityPriority (s : string) : Z :=
  if decide (s = "LOW") then 1 else if decide (s = "MEDIUM") then 2
  else if decide (s = "HIGH") then 3 else if decide (s = "CRITICAL") then 4 else 0.

Record ComplianceStatus := {
  ErrorMessage : string;
  ExpiresAt : Z;
  IntegrationID : string;
  LastUpdated : Z;
  PolicyID : string;
  PolicySeverity : string;
  ResourceID : string;
  ResourceType : string;
  Status : string;
  Suppressed : bool
}.

(** ** Counters *)

Record StatusCount := { cError : Z; cFail : Z; cPass : Z }.

Definition NewStatusCount : StatusCount := {| cError := 0; cFail := 0; cPass := 0 |}.

Definition updateStatusCount (count : StatusCount) (status : string) : StatusCount :=
  if decide (status = StatusPASS) then
    {| cError := cError count; cFail := cFail count; cPass := cPass count + 1 |}
  else if decide (status = StatusFAIL) then
    {| cError := cError count; cFail := cFail count + 1; cPass := cPass count |}
  else {| cError := cError count + 1; cFail := cFail count; cPass := cPass count |}.

Definition countToStatus (count : StatusCount) : string :=
  if decide (0 < cError count) then StatusERROR
  else if decide (0 < cFail count) then StatusFAIL
  else StatusPASS.

Record StatusCountBySeverity := {
  Info : StatusCount; Low : StatusCount; Medium : StatusCount; High : StatusCount;
  Critical : StatusCount
}.

Definition NewStatusCountBySeverity : StatusCountBySeverity :=
  {| Info := NewStatusCount; Low := NewStatusCount; Medium := NewStatusCount;
     High := NewStatusCount; Critical := NewStatusCount |}.

Definition updateStatusCountBySeverity (c : StatusCountBySeverity) (severity status : string)
    : StatusCountBySeverity :=
  if decide (severity = "INFO") then
    {| Info := updateStatusCount (Info c) status; Low := Low c; Medium := Medium c; High := High c;
       Critical := Critical c |}
  else if decide (severity = "LOW") then
    {| Info := Info c; Low := updateStatusCount (Low c) status; Medium := Medium c; High := High c;
       Critical := Critical c |}
  else if decide (severity = "MEDIUM") then
    {| Info := Info c; Low := Low c; Medium := updateStatusCount (Medium c) status; High := High c;
       Critical := Critical c |}
  else if decide (severity = "HIGH") then
    {| Info := Info c; Low := Low c; Medium := Medium c; High := updateStatusCount (High c) status;
       Critical := Critical c |}
  else
    {| Info := Info c; Low := Low c; Medium := Medium c; High := High c;
       Critical := updateStatusCount (Critical c) status |}.

Definition countBySeverityToStatus (c : StatusCountBySeverity) : string :=
  if decide (0 < cError (Low c) ∨ 0 < cError (Info c) ∨ 0 < cError (Medium c) ∨
             0 < cError (High c) ∨ 0 < cError (Critical c)) then StatusERROR
  else if decide (0 < cFail (Low c) ∨ 0 < cFail (Info c) ∨ 0 < cFail (Medium c) ∨
             0 < cFail (High c) ∨ 0 < cFail (Critical c)) then StatusFAIL
  else StatusPASS.

(** ** Sorting by top failing *)

Record PolicySummary := { psCount : StatusCount; psID : string; psSeverity : string }.
Record ResourceSummary := { rsCount : StatusCountBySeverity; rsID : string; rsType : string }.

Definition failures (c : StatusCount) : Z := cError c + cFail c.

Definition policy_less (left right : PolicySummary) : bool :=
  let leftFailures := failures (psCount left) in
  let rightFailures := failures (psCount right) in
  if decide (leftFailures = 0 ∧ rightFailures = 0) then sltb (psID left) (psID right)
  else if decide (leftFailures = 0 ∧ 0 < rightFailures) then false
  else if decide (0 < leftFailures ∧ rightFailures = 0) then true
  else if decide (psSeverity left ≠ psSeverity right) then
    bool_decide (severityPriority (psSeverity right) < severityPriority (psSeverity left))
  else if decide (leftFailures ≠ rightFailures) then bool_decide (rightFailures < leftFailures)
  else sltb (psID left) (psID right).

Definition resource_less (left right : ResourceSummary) : bool :=
  let l := rsCount left in
  let r := rsCount right in
  if decide (failures (Critical l) ≠ failures (Critical r)) then
    bool_decide (failures (Critical r) < failures (Critical l))
  else if decide (failures (High l) ≠ failures (High r)) then
    bool_decide (failures (High r) < failures (High l))
  else if decide (failures (Medium l) ≠ failures (Medium r)) then
    bool_decide (failures (Medium r) < failures (Medium l))
  else if decide (failures (Low l) ≠ failures (Low r)) then
    bool_decide (failures (Low r) < failures (Low l))
  else if decide (failures (Info l) ≠ failures (Info r)) then
    bool_decide (failures (Info r) < failures (Info l))
  else sltb (rsID left) (rsID right).

Definition sortPoliciesByTopFailing : list PolicySummary → list PolicySummary :=
  sort_slice policy_less.
Definition sortResourcesByTopFailing : list ResourceSummary → list ResourceSummary :=
  sort_slice resource_less.

(** ** Suppression patterns *)

Fixpoint isIgnored (resourceID : string) (ignoreSet : list string) : result bool :=
  match ignoreSet with
  | [] => Ok false
  | pattern :: ignoreSet =>
      match Match pattern resourceID with
      | Err e => Err e
      | Ok true => Ok true
      | Ok false => isIgnored resourceID ignoreSet
      end
  end.

(** ** Pages of items *)

(** handleItems: the whole page is unmarshalled first, then each entry is
    handled; the handler changes the state [St] *)
Section Pages.
Context {Raw St : Type} (unmarshal : Raw → result ComplianceStatus).
Context (handler : St → ComplianceStatus → St * option error).

Fixpoint unmarshal_all (items : list Raw) : result (list ComplianceStatus) :=
  match items with
  | [] => Ok []
  | i :: items => x ← unmarshal i; xs ← unmarshal_all items; Ok (x :: xs)
  end.

Fixpoint handle_entries (st : St) (entries : list ComplianceStatus) : St * option error :=
  match entries with
  | [] => (st, None)
  | x :: entries =>
      match handler st x with
      | (st, Some e) => (st, Some e)
      | (st, None) => handle_entries st entries
      end
  end.

Definition handleItems (st : St) (items : list Raw) : St * option error :=
  match unmarshal_all items with
  | Err e => (st, Some e)
  | Ok entries => handle_entries st entries
  end.

(** queryPages and scanPages: [pages] is what the client delivers, [err] the
    error it ends with; a failing page stops the paging *)
Fixpoint queryPages (st : St) (pages : list (list Raw)) (err : option error) : St * option error :=
  match pages with
  | [] => (st, err)
  | page :: pages =>
      match handleItems st page with
      | (st, Some e) => (st, Some e)
      | (st, None) => queryPages st pages err
      end
  end.
End Pages.

(** ** Paging *)

Definition defaultPage : Z := 1.
Definition defaultPageSize : Z := 25.

Record pageParams := { Page : Z; PageSize : Z; pStatus : string; pSuppressed : option bool }.

(** strconv.ParseBool *)
Definition ParseBool (s : string) : result bool :=
  if decide (s ∈ ["1"; "t"; "T"; "TRUE"; "true"; "True"]) then Ok true
  else if decide (s ∈ ["0"; "f"; "F"; "FALSE"; "false"; "False"]) then Ok false
  else Err (ErrNum "ParseBool" s false).

(** Status.Validate of the generated models; its message is the library's *)
Definition validateStatus (s : string) : option error :=
  if decide (s ∈ [StatusERROR; StatusFAIL; StatusPASS]) then None
  else Some (ErrMsg "should be one of [ERROR FAIL PASS]").

Definition param (query : gmap string string) (k : string) : string := default "" (query !! k).

(** [errors.New(prefix + err.Error())] on a failed parse *)
Definition or_prefix {A} (pre : string) (r : result A) : result A :=
  match r with Ok a => Ok a | Err e => Err (ErrText pre e) end.

Definition parsePageParams (query : gmap string string) : result pageParams :=
  let status := param query "status" in
  _ ← (if decide (status = "") then Ok tt
       else match validateStatus status with
            | Some e => Err (ErrText "invalid status: " e)
            | None => Ok tt
            end);
  page ← (if decide (param query "page" = "") then Ok defaultPage
          else or_prefix "invalid page: " (atoi (param query "page")));
  pageSize ← (if decide (param query "pageSize" = "") then Ok defaultPageSize
              else or_prefix "invalid pageSize: " (atoi (param query "pageSize")));
  suppressed ← (if decide (param query "suppressed" = "") then Ok None
                else b ← or_prefix "invalid suppressed: " (ParseBool (param query "suppressed"));
                     Ok (Some b));
  Ok {| Page := page; PageSize := pageSize; pStatus := status; pSuppressed := suppressed |}.

Record PolicyResourceDetail := {
  Items : list ComplianceStatus;
  TotalItems : Z;
  TotalPages : option Z;
  ThisPage : option Z;
  dStatus : string;
  Active : StatusCount;
  SuppressedCount : StatusCount
}.

Definition itemMatchesFilter (item : ComplianceStatus) (params : pageParams) (severity : string) : bool :=
  if match pSuppressed params with Some b => bool_decide (b ≠ Suppressed item) | None => false end
  then false
  else if decide (pStatus params ≠ "" ∧ pStatus params ≠ Status item) then false
  else if decide (severity ≠ "" ∧ severity ≠ PolicySeverity item) then false
  else true.

Definition with_counts (r : PolicyResourceDetail) (st : string) (active suppressed : StatusCount)
    : PolicyResourceDetail :=
  {| Items := Items r; TotalItems := TotalItems r; TotalPages := TotalPages r; ThisPage := ThisPage r;
     dStatus := st; Active := active; SuppressedCount := suppressed |}.

Definition bump_error (c : StatusCount) := {| cError := cError c + 1; cFail := cFail c; cPass := cPass c |}.
Definition bump_fail (c : StatusCount) := {| cError := cError c; cFail := cFail c + 1; cPass := cPass c |}.
Definition bump_pass (c : StatusCount) := {| cError := cError c; cFail := cFail c; cPass := cPass c + 1 |}.

(** overall status and totals, before any filter *)
Definition add_totals (item : ComplianceStatus) (r : PolicyResourceDetail) : PolicyResourceDetail :=
  if decide (Status item = StatusERROR) then
    if Suppressed item then with_counts r (dStatus r) (Active r) (bump_error (SuppressedCount r))
    else with_counts r StatusERROR (bump_error (Active r)) (SuppressedCount r)
  else if decide (Status item = StatusFAIL) then
    if Suppressed item then with_counts r (dStatus r) (Active r) (bump_fail (SuppressedCount r))
    else with_counts r (if decide (dStatus r ≠ StatusERROR) then StatusFAIL else dStatus r)
           (bump_fail (Active r)) (SuppressedCount r)
  else
    if Suppressed item then with_counts r (dStatus r) (Active r) (bump_pass (SuppressedCount r))
    else with_counts r (dStatus r) (bump_pass (Active r)) (SuppressedCount r).

Definition addItemToResult (item : ComplianceStatus) (r : PolicyResourceDetail) (params : pageParams)
    (severity : string) : PolicyResourceDetail :=
  let r := add_totals item r in
  if itemMatchesFilter item params severity then
    let total := TotalItems r + 1 in
    let firstItem := int64 (int64 (int64 (Page params - 1) * PageSize params) + 1) in
    {| Items := if decide (firstItem ≤ total ∧ Z.of_nat (length (Items r)) < PageSize params)
                then Items r ++ [item] else Items r;
       TotalItems := total; TotalPages := TotalPages r; ThisPage := ThisPage r;
       dStatus := dStatus r; Active := Active r; SuppressedCount := SuppressedCount r |}
  else r.

Definition empty_detail : PolicyResourceDetail :=
  {| Items := []; TotalItems := 0; TotalPages := None; ThisPage := None; dStatus := StatusPASS;
     Active := NewStatusCount; SuppressedCount := NewStatusCount |}.

(** make panics on a negative capacity and on one above what can be allocated
    (2^48 bytes of 8-byte pointers) *)
Definition maxCap : Z := 2 ^ 45.

Definition policyResourceDetail {Raw} (unmarshal : Raw → result ComplianceStatus)
    (pages : list (list Raw)) (qerr : option error) (params : pageParams) (severity : string)
    : outcome (result PolicyResourceDetail) :=
  if decide (PageSize params < 0 ∨ maxCap < PageSize params) then Panic "makeslice: cap out of range"
  else
    match queryPages unmarshal (λ r item, (addItemToResult item r params severity, None))
            empty_detail pages qerr with
    | (_, Some e) => Ret (Err e)
    | (r, None) =>
        if decide (PageSize params = 0) then Panic "integer divide by zero"
        else
          let totalPages := TotalItems r / PageSize params in
          let remainder := TotalItems r mod PageSize params in
          Ret (Ok {| Items := Items r; TotalItems := TotalItems r;
                     TotalPages := Some (if decide (0 < remainder) then totalPages + 1 else totalPages);
                     ThisPage := Some (if decide (TotalItems r = 0) then 0 else Page params);
                     dStatus := dStatus r; Active := Active r; SuppressedCount := SuppressedCount r |})
    end.

(** ** Paging: theorems *)

(** a total handler sees every entry when the client delivers all pages *)
Lemma handle_entries_fold {St} (f : St → ComplianceStatus → St) st entries :
  handle_entries (λ s x, (f s x, None)) st entries = (foldl f st entries, None).
Proof. revert st. induction entries as [|x l IH]; intros st; simpl; [done|]. apply IH. Qed.

Lemma queryPages_fold {Raw St} (unmarshal : Raw → result ComplianceStatus)
    (f : St → ComplianceStatus → St) st pages entries :
  Forall2 (λ page es, unmarshal_all unmarshal page = Ok es) pages entries →
  queryPages unmarshal (λ s x, (f s x, None)) st pages None = (foldl f st (concat entries), None).
Proof.
  intros H. revert st. induction H as [|p es pages entries Hp _ IH]; intros st; simpl; [done|].
  unfold handleItems. rewrite Hp, handle_entries_fold, IH. by rewrite foldl_app.
Qed.

(** the number of entries with a status, active or suppressed *)
Definition count_if (P : ComplianceStatus → bool) (l : list ComplianceStatus) : Z :=
  Z.of_nat (length (filter (λ x, P x = true) l)).

Definition is_error (x : ComplianceStatus) : bool := bool_decide (Status x = StatusERROR).
Definition is_fail (x : ComplianceStatus) : bool := bool_decide (Status x = StatusFAIL).
Definition is_other (x : ComplianceStatus) : bool := negb (is_error x) && negb (is_fail x).

Definition counts (sup : bool) (l : list ComplianceStatus) : StatusCount :=
  let on P := count_if (λ x, bool_decide (Suppressed x = sup) && P x) l in
  {| cError := on is_error; cFail := on is_fail; cPass := on is_other |}.

(** ERROR trumps FAIL trumps PASS, over the entries that are not suppressed *)
Definition worst (l : list ComplianceStatus) : string :=
  if decide (0 < cError (counts false l)) then StatusERROR
  else if decide (0 < cFail (counts false l)) then StatusFAIL else StatusPASS.

Lemma count_if_snoc P l x : count_if P (l ++ [x]) = count_if P l + if P x then 1 else 0.
Proof.
  unfold count_if. rewrite filter_app, length_app, filter_cons, filter_nil.
  destruct (P x); [rewrite decide_True by done|rewrite decide_False by done]; simpl; lia.
Qed.

Lemma count_if_nonneg P l : 0 ≤ count_if P l.
Proof. unfold count_if. lia. Qed.

Lemma counts_snoc sup l x :
  counts sup (l ++ [x]) =
  if decide (Suppressed x = sup) then
    (if is_error x then bump_error else if is_fail x then bump_fail else bump_pass) (counts sup l)
  else counts sup l.
Proof.
  unfold counts. rewrite !count_if_snoc. unfold is_other.
  assert (is_error x = true → is_fail x = false) as Hex.
  { unfold is_error, is_fail. rewrite bool_decide_eq_true, bool_decide_eq_false. by intros ->. }
  case_decide as Hs; [rewrite bool_decide_true by done|rewrite bool_decide_false by done];
    unfold bump_error, bump_fail, bump_pass; simpl; [|f_equal; lia].
  destruct (is_error x); [rewrite Hex by done|destruct (is_fail x)]; simpl; f_equal; lia.
Qed.

Section Page.
Context (params : pageParams) (severity : string).

Definition matches (l : list ComplianceStatus) : list ComplianceStatus :=
  filter (λ x, itemMatchesFilter x params severity = true) l.

(** the requested page of the matching entries *)
Definition page_of (l : list ComplianceStatus) : list ComplianceStatus :=
  take (Z.to_nat (PageSize params)) (drop (Z.to_nat ((Page params - 1) * PageSize params)) (matches l)).

Hypothesis page_ok : 1 ≤ Page params ∧ 1 ≤ PageSize params ∧
  Page params * PageSize params < two63.

Lemma firstItem_exact :
  int64 (int64 (int64 (Page params - 1) * PageSize params) + 1) =
  (Page params - 1) * PageSize params + 1.
Proof.
  destruct page_ok as (H1&H2&H3). unfold two63 in *.
  rewrite (int64_id (Page params - 1)) by (unfold in_int64, two63; nia).
  rewrite (int64_id ((Page params - 1) * PageSize params)) by (unfold in_int64, two63; nia).
  apply int64_id. unfold in_int64, two63. nia.
Qed.

Definition accumulated (l : list ComplianceStatus) : PolicyResourceDetail :=
  {| Items := page_of l; TotalItems := Z.of_nat (length (matches l)); TotalPages := None;
     ThisPage := None; dStatus := worst l; Active := counts false l; SuppressedCount := counts true l |}.

Lemma add_totals_snoc l x :
  add_totals x (accumulated l) =
  with_counts (accumulated l) (worst (l ++ [x])) (counts false (l ++ [x])) (counts true (l ++ [x])).
Proof.
  unfold add_totals, worst. rewrite !counts_snoc. unfold is_error, is_fail.
  pose proof (count_if_nonneg (λ y, bool_decide (Suppressed y = false) && is_error y) l) as HE.
  pose proof (count_if_nonneg (λ y, bool_decide (Suppressed y = false) && is_fail y) l) as HF.
  destruct (Suppressed x) eqn:Hs.
  - rewrite (decide_False (P := true = false)), (decide_True (P := true = true)) by done.
    destruct (decide (Status x = StatusERROR)) as [E|E];
      [rewrite bool_decide_true by done|rewrite bool_decide_false by done].
    { unfold with_counts, accumulated, worst. done. }
    destruct (decide (Status x = StatusFAIL)) as [F|F];
      [rewrite bool_decide_true by done|rewrite bool_decide_false by done]; done.
  - rewrite (decide_True (P := false = false)), (decide_False (P := false = true)) by done.
    destruct (decide (Status x = StatusERROR)) as [E|E];
      [rewrite bool_decide_true by done|rewrite bool_decide_false by done].
    { unfold with_counts, bump_error, accumulated. cbn -[counts]. f_equal.
      rewrite decide_True; [done|]. cbn. lia. }
    destruct (decide (Status x = StatusFAIL)) as [F|F];
      [rewrite bool_decide_true by done|rewrite bool_decide_false by done].
    + unfold with_counts, accumulated, worst, bump_fail. cbn -[counts]. f_equal.
      destruct (decide (0 < cError (counts false l))) as [Hp|Hp].
      { by rewrite decide_False by naive_solver. }
      rewrite (decide_True (P := 0 < _ + 1)) by (cbn; lia).
      destruct (decide (0 < cFail (counts false l))); by rewrite decide_True.
    + done.
Qed.

Lemma matches_snoc l x :
  matches (l ++ [x]) = matches l ++ if itemMatchesFilter x params severity then [x] else [].
Proof.
  unfold matches. rewrite filter_app, filter_cons, filter_nil.
  by destruct (itemMatchesFilter x params severity).
Qed.

Lemma addItem_snoc l x :
  addItemToResult x (accumulated l) params severity = accumulated (l ++ [x]).
Proof.
  unfold addItemToResult. rewrite add_totals_snoc. pose proof firstItem_exact as Hf.
  destruct page_ok as (H1&H2&H3).
  destruct (itemMatchesFilter x params severity) eqn:Hm; unfold with_counts, accumulated; cbn -[worst counts];
    unfold page_of; rewrite matches_snoc, Hm; [|by rewrite app_nil_r].
  rewrite length_app. cbn [length]. f_equal; [|lia]. rewrite Hf.
  set (k := Z.to_nat ((Page params - 1) * PageSize params)). set (n := Z.to_nat (PageSize params)).
  assert (Z.of_nat k = (Page params - 1) * PageSize params) as Hk by (unfold k; nia).
  assert (Z.of_nat n = PageSize params) as Hn by (unfold n; lia).
  destruct (decide (k ≤ length (matches l))%nat) as [Hle|Hle].
  - rewrite (drop_app_le (matches l)) by done. rewrite length_take, length_drop.
    case_decide as Hd.
    + rewrite take_app_ge by (rewrite length_drop; lia). rewrite length_drop.
      rewrite (take_ge (drop k (matches l))) by (rewrite length_drop; lia). f_equal.
      rewrite take_ge; [done|]. simpl. lia.
    + rewrite take_app_le; [done|]. rewrite length_drop. lia.
  - rewrite !drop_ge by (rewrite ?length_app; simpl; lia). rewrite !take_nil.
    rewrite decide_False; [done|]. simpl. lia.
Qed.

Lemma fold_accumulated l l' :
  foldl (λ r x, addItemToResult x r params severity) (accumulated l) l' = accumulated (l ++ l').
Proof.
  revert l. induction l' as [|x l' IH]; intros l; simpl; [by rewrite app_nil_r|].
  by rewrite addItem_snoc, IH, <-app_assoc.
Qed.
End Page.

(** for a valid page and page size, the response holds exactly the
    requested page of the entries that match the filters, in query order, with
    the number of matches, the number of pages needed to show them, the worst
    status of the entries that are not suppressed, and the totals of all
    entries before filtering. *)
Theorem policyResourceDetail_correct {Raw} (unmarshal : Raw → result ComplianceStatus)
    pages entries params severity :
  Forall2 (λ page es, unmarshal_all unmarshal page = Ok es) pages entries →
  1 ≤ Page params ∧ 1 ≤ PageSize params ∧ Page params * PageSize params < two63 →
  PageSize params ≤ maxCap →
  let all := concat entries in
  let n := Z.of_nat (length (matches params severity all)) in
  ∃ tp, policyResourceDetail unmarshal pages None params severity =
    Ret (Ok {| Items := page_of params severity all; TotalItems := n; TotalPages := Some tp;
               ThisPage := Some (if decide (n = 0) then 0 else Page params); dStatus := worst all;
               Active := counts false all; SuppressedCount := counts true all |}) ∧
    (tp - 1) * PageSize params < n ≤ tp * PageSize params.
Proof.
  intros Hun Hpage Hcap all n. unfold policyResourceDetail.
  rewrite decide_False by lia.
  rewrite (queryPages_fold unmarshal (λ r item, addItemToResult item r params severity)
    empty_detail pages entries Hun).
  assert (empty_detail = accumulated params severity []) as ->.
  { unfold accumulated, page_of. cbn. by rewrite drop_nil, take_nil. }
  rewrite fold_accumulated, app_nil_l by done. rewrite decide_False by lia.
  eexists. split; [done|]. fold all. cbn [app TotalItems accumulated]. fold n.
  pose proof (Z.div_mod n (PageSize params) ltac:(lia)).
  pose proof (Z.mod_pos_bound n (PageSize params) ltac:(lia)).
  set (q := n / PageSize params) in *. set (r := n mod PageSize params) in *. clearbody q r n.
  case_decide; split; nia.
Qed.

Definition demo_status (id status sev : string) (sup : bool) : ComplianceStatus :=
  {| ErrorMessage := ""; ExpiresAt := 0; IntegrationID := ""; LastUpdated := 0; PolicyID := "p";
     PolicySeverity := sev; ResourceID := id; ResourceType := "AWS.S3.Bucket"; Status := status;
     Suppressed := sup |}.

Definition demo_entries : list (list ComplianceStatus) :=
  [[demo_status "a" "FAIL" "HIGH" false; demo_status "b" "ERROR" "HIGH" true];
   [demo_status "c" "FAIL" "LOW" false; demo_status "d" "FAIL" "HIGH" false]].

Definition demo_params : pageParams :=
  {| Page := 2; PageSize := 2; pStatus := "FAIL"; pSuppressed := None |}.

Lemma policyResourceDetail_correct_witness :
  let all := concat demo_entries in
  let n := Z.of_nat (length (matches demo_params "" all)) in
  page_of demo_params "" all = [demo_status "d" "FAIL" "HIGH" false] ∧
  ∃ tp, policyResourceDetail Ok demo_entries None demo_params "" =
    Ret (Ok {| Items := page_of demo_params "" all; TotalItems := n; TotalPages := Some tp;
               ThisPage := Some (if decide (n = 0) then 0 else Page demo_params); dStatus := worst all;
               Active := counts false all; SuppressedCount := counts true all |}) ∧
    (tp - 1) * PageSize demo_params < n ≤ tp * PageSize demo_params.
Proof.
  split; [vm_compute; reflexivity|].
  apply (policyResourceDetail_correct Ok demo_entries demo_entries demo_params "").
  - repeat constructor.
  - unfold two63. simpl. lia.
  - vm_compute. discriminate.
Defined.

(** a page size of 0, which the API definition allows, makes the handler
    panic (division by zero) whenever the query succeeds, and a negative one
    makes it panic before the query. *)
Theorem page_size_panics {Raw} (unmarshal : Raw → result ComplianceStatus) pages entries params severity :
  Forall2 (λ page es, unmarshal_all unmarshal page = Ok es) pages entries →
  PageSize params ≤ 0 →
  ∃ w, policyResourceDetail unmarshal pages None params severity = Panic w.
Proof.
  intros Hun Hp. unfold policyResourceDetail.
  case_decide as Hc; [by eexists|]. unfold maxCap in *.
  rewrite (queryPages_fold unmarshal (λ r item, addItemToResult item r params severity)
    empty_detail pages entries Hun).
  rewrite decide_True by lia. by eexists.
Qed.

Definition zero_params : pageParams :=
  {| Page := 1; PageSize := 0; pStatus := ""; pSuppressed := None |}.

Lemma page_size_panics_witness :
  parsePageParams {[ "pageSize" := "0" ]} = Ok zero_params ∧
  ∃ w, policyResourceDetail Ok demo_entries None zero_params "" = Panic w.
Proof.
  split; [vm_compute; reflexivity|].
  apply (page_size_panics Ok demo_entries demo_entries zero_params ""); [repeat constructor|discriminate].
Defined.

(** ** Ordering: theorems *)

Definition policy_key (p : PolicySummary) : list Z * string :=
  (if decide (failures (psCount p) = 0) then [1; 0; 0]
   else [0; - severityPriority (psSeverity p); - failures (psCount p)], psID p).

Definition resource_key (r : ResourceSummary) : list Z * string :=
  let c := rsCount r in
  ([- failures (Critical c); - failures (High c); - failures (Medium c); - failures (Low c);
    - failures (Info c)], rsID r).

Lemma severityPriority_inj s1 s2 :
  s1 ∈ severities → s2 ∈ severities → severityPriority s1 = severityPriority s2 → s1 = s2.
Proof.
  unfold severities. rewrite !elem_of_cons, !elem_of_nil.
  intros H1 H2. destruct_or! H1; destruct_or! H2; subst; try done.
Qed.

Lemma policy_keyed l :
  NoDup (psID <$> l) →
  Forall (λ p, psSeverity p ∈ severities ∧ 0 ≤ failures (psCount p)) l →
  keyed policy_less policy_key l.
Proof.
  intros Hnd Hok. rewrite Forall_forall in Hok. split.
  - intros x y Hx Hy. destruct (Hok x Hx) as [Sx Fx], (Hok y Hy) as [Sy Fy].
    unfold policy_less, policy_key, key_le.
    destruct (decide (failures (psCount x) = 0)) as [Ex|Ex], (decide (failures (psCount y) = 0)) as [Ey|Ey].
    + rewrite decide_True by done. cbn. apply sltb_leb.
    + rewrite decide_False by lia. rewrite decide_False by lia. rewrite decide_True by lia. cbn. done.
    + rewrite decide_False by lia. rewrite decide_True by lia. cbn. done.
    + rewrite !decide_False by lia. cbn [fst snd key_leb].
      rewrite (decide_False (P := 0 < 0)) by lia.
      destruct (decide (psSeverity y ≠ psSeverity x)) as [Hs|Hs].
      * assert (severityPriority (psSeverity x) ≠ severityPriority (psSeverity y))
          by (intros E; by apply severityPriority_inj in E).
        rewrite bool_decide_eq_false. repeat case_decide; lia.
      * apply dec_stable in Hs. rewrite Hs. rewrite !(decide_False (P := - severityPriority _ < _)) by lia.
        destruct (decide (failures (psCount y) ≠ failures (psCount x))) as [Hf|Hf].
        { rewrite bool_decide_eq_false. repeat case_decide; lia. }
        apply dec_stable in Hf. rewrite Hf, !decide_False by lia. apply sltb_leb.
  - intros x y Hx Hy [= _ Hid]. apply list_elem_of_lookup in Hx as [i Hi], Hy as [j Hj].
    assert (i = j) as ->; [|congruence].
    eapply NoDup_lookup; [exact Hnd| |]; rewrite list_lookup_fmap; [by rewrite Hi|].
    rewrite Hj. simpl. by rewrite Hid.
Qed.

Lemma resource_keyed l :
  NoDup (rsID <$> l) → keyed resource_less resource_key l.
Proof.
  intros Hnd. split.
  - intros x y _ _. unfold resource_less, resource_key, key_le. cbn [fst snd key_leb].
    repeat (case_decide; try lia); rewrite ?bool_decide_eq_false; try (split; intros; lia || done);
      try apply sltb_leb.
  - intros x y Hx Hy [= _ _ _ _ _ Hid]. apply list_elem_of_lookup in Hx as [i Hi], Hy as [j Hj].
    assert (i = j) as ->; [|congruence].
    eapply NoDup_lookup; [exact Hnd| |]; rewrite list_lookup_fmap; [by rewrite Hi|].
    rewrite Hj. simpl. by rewrite Hid.
Qed.

(** ** Suppression patterns: theorem *)

(** for suppression patterns of literal bytes and stars, isIgnored never
    fails and answers whether one of the patterns describes the resource id,
    where a star stands for any text without a slash. *)
Theorem isIgnored_plain resourceID ignoreSet :
  Forall plain ignoreSet →
  ∃ b, isIgnored resourceID ignoreSet = Ok b ∧
    (b = true ↔ Exists (λ pattern, glob pattern resourceID) ignoreSet).
Proof.
  induction 1 as [|p l Hp _ (b&E&Hb)]; cbn [isIgnored].
  { exists false. rewrite Exists_nil. done. }
  destruct (Match_plain p resourceID Hp) as ([|]&->&Hm).
  - exists true. rewrite Exists_cons. split; [done|]. naive_solver.
  - exists b. rewrite Exists_cons. split; [done|]. rewrite Hb. naive_solver.
Qed.

Lemma isIgnored_plain_witness :
  Forall plain ["arn:aws:s3:::prod"; "arn:aws:s3:::*-logs*"] ∧
  ∃ b, isIgnored "arn:aws:s3:::my-logs-logs" ["arn:aws:s3:::prod"; "arn:aws:s3:::*-logs*"] = Ok b ∧
    (b = true ↔ Exists (λ pattern, glob pattern "arn:aws:s3:::my-logs-logs")
                  ["arn:aws:s3:::prod"; "arn:aws:s3:::*-logs*"]).
Proof.
  assert (Forall plain ["arn:aws:s3:::prod"; "arn:aws:s3:::*-logs*"]) as H by repeat constructor.
  split; [exact H|].
  exact (isIgnored_plain "arn:aws:s3:::my-logs-logs" ["arn:aws:s3:::prod"; "arn:aws:s3:::*-logs*"] H).
Defined.
