(* ===== verification/ComplianceHandlers.v ===== *)
(** * Compliance API: request handlers

    Model of src/internal/compliance/compliance_api/handlers: dynamo.go
    (scanGroupByID), describe_org.go, get_org_overview.go, describe_policy.go,
    describe_resource.go, get_status.go, set_status.go, delete_status.go and
    update_metadata.go.  DynamoDB is reached through the operations of
    [Store]; JSON decoding and the validators of the generated models are
    parameters. *)

From S2P Require Import Prelude GoTime GoSort GoPath Compliance.

#[local] Open Scope Z_scope.

(** ** Grouping a scan *)

Notation policyMap := (gmap string PolicySummary).
Notation resourceMap := (gmap string ResourceSummary).

Definition add_policy (m : policyMap) (item : ComplianceStatus) : policyMap :=
  let policy := default {| psCount := NewStatusCount; psID := PolicyID item;
                           psSeverity := PolicySeverity item |} (m !! PolicyID item) in
  <[PolicyID item := {| psCount := updateStatusCount (psCount policy) (Status item);
                        psID := psID policy; psSeverity := psSeverity policy |}]> m.

Definition add_resource (m : resourceMap) (item : ComplianceStatus) : resourceMap :=
  let resource := default {| rsCount := NewStatusCountBySeverity; rsID := ResourceID item;
                             rsType := ResourceType item |} (m !! ResourceID item) in
  <[ResourceID item :=
      {| rsCount := updateStatusCountBySeverity (rsCount resource) (PolicySeverity item) (Status item);
         rsID := rsID resource; rsType := rsType resource |}]> m.

Definition group (includePolicies includeResources : bool) (st : policyMap * resourceMap)
    (item : ComplianceStatus) : policyMap * resourceMap :=
  (if includePolicies then add_policy st.1 item else st.1,
   if includeResources then add_resource st.2 item else st.2).

Definition scanGroupByID {Raw} (unmarshal : Raw → result ComplianceStatus) (pages : list (list Raw))
    (err : option error) (includePolicies includeResources : bool)
    : policyMap * resourceMap * option error :=
  queryPages unmarshal (λ st item, (group includePolicies includeResources st item, None))
    (∅, ∅) pages err.

(** ** DescribeOrg *)

Record ItemSummary := { isID : string; isStatus : string }.

(** [order] is the order in which the map is iterated *)
Definition listPolicies {Raw} (unmarshal : Raw → result ComplianceStatus) (pages : list (list Raw))
    (err : option error) (order : list PolicySummary → list PolicySummary) : result (list ItemSummary) :=
  match scanGroupByID unmarshal pages err true false with
  | (_, Some e) => Err e
  | (policies, _, None) =>
      let policySlice := sortPoliciesByTopFailing (order (map_to_list policies).*2) in
      Ok ((λ p, {| isID := psID p; isStatus := countToStatus (psCount p) |}) <$> policySlice)
  end.

Definition listResources {Raw} (unmarshal : Raw → result ComplianceStatus) (pages : list (list Raw))
    (err : option error) (order : list ResourceSummary → list ResourceSummary) : result (list ItemSummary) :=
  match scanGroupByID unmarshal pages err false true with
  | (_, Some e) => Err e
  | (_, resources, None) =>
      let resourceSlice := sortResourcesByTopFailing (order (map_to_list resources).*2) in
      Ok ((λ r, {| isID := rsID r; isStatus := countBySeverityToStatus (rsCount r) |}) <$> resourceSlice)
  end.

(** ** GetOrgOverview *)

Definition defaultTopFailing : Z := 10.

Definition parseGetOrgOverview (query : gmap string string) : result Z :=
  if decide (param query "limitTopFailing" = "") then Ok defaultTopFailing
  else or_prefix "invalid limitTopFailing: " (atoi (param query "limitTopFailing")).

Record OrgSummary := {
  AppliedPolicies : StatusCountBySeverity;
  ScannedResources : gmap string StatusCount;   (* by resource type; listed in map order *)
  TopFailingPolicies : list PolicySummary;
  TopFailingResources : list ResourceSummary
}.

(** [l[:n]], which panics when [n] is negative *)
Definition truncate {A} (l : list A) (n : Z) : outcome (list A) :=
  if decide (n < Z.of_nat (length l)) then
    if decide (n < 0) then Panic "slice bounds out of range" else Ret (take (Z.to_nat n) l)
  else Ret l.

Definition count_policies (policies : list PolicySummary) : StatusCountBySeverity :=
  foldl (λ c p, updateStatusCountBySeverity c (psSeverity p) (countToStatus (psCount p)))
    NewStatusCountBySeverity policies.

Definition count_types (resources : list ResourceSummary) : gmap string StatusCount :=
  foldl (λ m r, <[rsType r := updateStatusCount (default NewStatusCount (m !! rsType r))
                                (countBySeverityToStatus (rsCount r))]> m) ∅ resources.

(** [policies] and [resources] in the order the maps are iterated *)
Definition buildOverview (policies : list PolicySummary) (resources : list ResourceSummary)
    (limitTopFailing : Z) : outcome OrgSummary :=
  let failedPolicies := filter (λ p, countToStatus (psCount p) ≠ StatusPASS) policies in
  let failedResources := filter (λ r, countBySeverityToStatus (rsCount r) ≠ StatusPASS) resources in
  tp ← truncate (sortPoliciesByTopFailing failedPolicies) limitTopFailing;
  tr ← truncate (sortResourcesByTopFailing failedResources) limitTopFailing;
  Ret {| AppliedPolicies := count_policies policies; ScannedResources := count_types resources;
         TopFailingPolicies := tp; TopFailingResources := tr |}.

(** ** The table behind the write handlers *)

Notation key := (string * string)%type.     (* resource id, policy id *)
Definition tableKey (resourceID policyID : string) : key := (resourceID, policyID).
Definition key_of (x : ComplianceStatus) : key := tableKey (ResourceID x) (PolicyID x).

Inductive WriteRequest :=
| PutRequest (item : ComplianceStatus)
| DeleteRequest (k : key).

Inductive QueryInput :=
| ByPolicy (policyID : string) (resourceTypes : list string)  (* on the policy index *)
| ByResource (resourceID : string).

Notation table := (gmap (string * string) ComplianceStatus).

Definition apply_write (t : table) (w : WriteRequest) : table :=
  match w with
  | PutRequest item => <[key_of item := item]> t
  | DeleteRequest k => delete k t
  end.

(** What the handlers use of DynamoDB.  A query delivers pages and possibly an
    error; BatchWriteItem (the paging wrapper) performs the writes in order
    when it reports no error. *)
Class Store (Raw : Type) := {
  Query : table → QueryInput → list (list Raw) * option error;
  unmarshalItem : Raw → result ComplianceStatus;
  marshalErr : ComplianceStatus → option error;       (* dynamodbattribute.MarshalMap *)
  BatchWriteItem : table → list WriteRequest → table * option error;
  BatchWriteItem_ok : ∀ t ws t', BatchWriteItem t ws = (t', None) → t' = foldl apply_write t ws
}.

Record response := { StatusCode : Z; Body : option error }.
Definition code (n : Z) : response := {| StatusCode := n; Body := None |}.
Definition badRequest (e : error) : response := {| StatusCode := 400; Body := Some e |}.

Section Writes.
Context `{Store Raw}.

(** *** SetStatus *)

Record SetStatusEntry := {
  seErrorMessage : string; seIntegrationID : string; sePolicyID : string; sePolicySeverity : string;
  seResourceID : string; seResourceType : string; seStatus : string; seSuppressed : bool
}.

Definition statusLifetime : Z := 50 * Hour.

Definition status_of (now : Time) (e : SetStatusEntry) : ComplianceStatus :=
  {| ErrorMessage := seErrorMessage e; ExpiresAt := ToUnix (now + statusLifetime);
     IntegrationID := seIntegrationID e; LastUpdated := now; PolicyID := sePolicyID e;
     PolicySeverity := sePolicySeverity e; ResourceID := seResourceID e;
     ResourceType := seResourceType e; Status := seStatus e; Suppressed := seSuppressed e |}.

(** marshal every item; the first failure aborts *)
Fixpoint put_requests (items : list ComplianceStatus) : result (list WriteRequest) :=
  match items with
  | [] => Ok []
  | x :: items =>
      match marshalErr x with
      | Some e => Err e
      | None => ws ← put_requests items; Ok (PutRequest x :: ws)
      end
  end.

(** [input] is the parsed and validated request *)
Definition SetStatus (t : table) (now : Time) (input : result (list SetStatusEntry)) : table * response :=
  match input with
  | Err e => (t, badRequest e)
  | Ok entries =>
      match put_requests (status_of now <$> entries) with
      | Err _ => (t, code 500)
      | Ok writes =>
          match BatchWriteItem t writes with
          | (t, Some _) => (t, code 500)
          | (t, None) => (t, code 201)
          end
      end
  end.

(** *** DeleteStatus *)

Record DeletePolicy := { dpID : string; dpResourceTypes : list string }.
Record DeleteStatusEntry := { dePolicy : option DeletePolicy; deResource : option string }.

Fixpoint check_entries (i : Z) (entries : list DeleteStatusEntry) : option error :=
  match entries with
  | [] => None
  | e :: entries =>
      match dePolicy e, deResource e with
      | None, None | Some _, Some _ =>
          Some (ErrMsg ("entries[" +:+ itoa i +:+ "] invalid: exactly one of resource or policy is required"))
      | _, _ => check_entries (i + 1) entries
      end
  end.

(** [decoded] is the JSON body, [validate] the generated validator *)
Definition parseDeleteStatus (decoded : result (list DeleteStatusEntry))
    (validate : list DeleteStatusEntry → option error) : result (list DeleteStatusEntry) :=
  match decoded with
  | Err e => Err e
  | Ok entries =>
      match check_entries 0 entries with
      | Some e => Err e
      | None => match validate entries with Some e => Err e | None => Ok entries end
      end
  end.

Definition collect (f : ComplianceStatus → WriteRequest) (acc : list WriteRequest)
    (item : ComplianceStatus) : list WriteRequest * option error := (acc ++ [f item], None).

Definition policyDeleteEntries (t : table) (policyID : string) (resourceTypes : list string)
    : result (list WriteRequest) :=
  let '(pages, err) := Query t (ByPolicy policyID resourceTypes) in
  match queryPages unmarshalItem
          (collect (λ item, DeleteRequest (tableKey (ResourceID item) policyID))) [] pages err with
  | (_, Some e) => Err e
  | (ws, None) => Ok ws
  end.

Definition resourceDeleteEntries (t : table) (resourceID : string) : result (list WriteRequest) :=
  let '(pages, err) := Query t (ByResource resourceID) in
  match queryPages unmarshalItem
          (collect (λ item, DeleteRequest (tableKey resourceID (PolicyID item)))) [] pages err with
  | (_, Some e) => Err e
  | (ws, None) => Ok ws
  end.

Definition entryRequests (t : table) (e : DeleteStatusEntry) : result (list WriteRequest) :=
  match dePolicy e with
  | Some p => policyDeleteEntries t (dpID p) (dpResourceTypes p)
  | None => match deResource e with
            | Some r => resourceDeleteEntries t r
            | None => Err (ErrMsg "nil pointer dereference")   (* excluded by check_entries *)
            end
  end.

Fixpoint deleteRequests (t : table) (entries : list DeleteStatusEntry) : result (list WriteRequest) :=
  match entries with
  | [] => Ok []
  | e :: entries => ws ← entryRequests t e; rest ← deleteRequests t entries; Ok (ws ++ rest)
  end.

Definition DeleteStatus (t : table) (input : result (list DeleteStatusEntry)) : table * response :=
  match input with
  | Err e => (t, badRequest e)
  | Ok entries =>
      match deleteRequests t entries with
      | Err _ => (t, code 500)
      | Ok [] => (t, code 200)
      | Ok ws =>
          match BatchWriteItem t ws with
          | (t, Some _) => (t, code 500)
          | (t, None) => (t, code 200)
          end
      end
  end.

(** *** UpdateMetadata *)

Record UpdateMetadataInput := { umPolicyID : string; umSeverity : string; umSuppressions : list string }.

(** the entry rewritten with the new severity and suppression *)
Definition rewritten (input : UpdateMetadataInput) (ignored : bool) (item : ComplianceStatus)
    : ComplianceStatus :=
  {| ErrorMessage := ErrorMessage item; ExpiresAt := ExpiresAt item;
     IntegrationID := IntegrationID item; LastUpdated := LastUpdated item; PolicyID := PolicyID item;
     PolicySeverity := umSeverity input; ResourceID := ResourceID item;
     ResourceType := ResourceType item; Status := Status item; Suppressed := ignored |}.

Definition update_item (input : UpdateMetadataInput) (writes : list WriteRequest)
    (item : ComplianceStatus) : list WriteRequest * option error :=
  match isIgnored (ResourceID item) (umSuppressions input) with
  | Err e => (writes, Some e)
  | Ok ignored =>
      if decide (Suppressed item ≠ ignored ∨ PolicySeverity item ≠ umSeverity input) then
        match marshalErr (rewritten input ignored item) with
        | Some e => (writes, Some e)
        | None => (writes ++ [PutRequest (rewritten input ignored item)], None)
        end
      else (writes, None)
  end.

Definition itemsToUpdate (t : table) (input : UpdateMetadataInput) : list WriteRequest + response :=
  let '(pages, err) := Query t (ByPolicy (umPolicyID input) []) in
  match queryPages unmarshalItem (update_item input) [] pages err with
  | (_, Some e) =>
      inr (if decide (e = ErrBadPattern) then badRequest (ErrText "invalid suppression pattern: " e)
           else code 500)
  | (writes, None) => inl writes
  end.

Definition UpdateMetadata (t : table) (input : result UpdateMetadataInput) : table * response :=
  match input with
  | Err e => (t, badRequest e)
  | Ok input =>
      match itemsToUpdate t input with
      | inr r => (t, r)
      | inl [] => (t, code 200)
      | inl writes =>
          match BatchWriteItem t writes with
          | (t, Some _) => (t, code 500)
          | (t, None) => (t, code 200)
          end
      end
  end.
End Writes.

(** ** The read handlers *)

(** url.QueryUnescape *)
Definition hex_val (c : ascii) : option nat :=
  let n := nat_of_ascii c in
  if bool_decide (48 ≤ n ≤ 57)%nat then Some (n - 48)%nat
  else if bool_decide (97 ≤ n ≤ 102)%nat then Some (n - 87)%nat
  else if bool_decide (65 ≤ n ≤ 70)%nat then Some (n - 55)%nat
  else None.

Fixpoint QueryUnescape (s : string) : result string :=
  match s with
  | EmptyString => Ok ""
  | String c s1 =>
      if decide (c = "%"%char) then
        match s1 with
        | String a (String b s2) =>
            match hex_val a, hex_val b with
            | Some x, Some y =>
                r ← QueryUnescape s2; Ok (String (ascii_of_nat (16 * x + y)) r)
            | _, _ => Err (ErrMsg "invalid URL escape")
            end
        | _ => Err (ErrMsg "invalid URL escape")
        end
      else r ← QueryUnescape s1; Ok (String (if decide (c = "+"%char) then " "%char else c) r)
  end.

Section Reads.
Context `{Store Raw}.
(** the generated validators, and dynamoClient.GetItem *)
Context (validatePolicyID validateResourceID validateSeverity : string → option error).
Context (GetItem : table → key → result (option Raw)).

Definition validated (pre : string) (validate : string → option error) (s : string) : result string :=
  match validate s with Some e => Err (ErrText pre e) | None => Ok s end.

Definition parseDescribePolicy (query : gmap string string) : result (pageParams * string) :=
  params ← parsePageParams query;
  policyID ← or_prefix "invalid policyId: " (QueryUnescape (param query "policyId"));
  policyID ← validated "invalid policyId: " validatePolicyID policyID;
  Ok (params, policyID).

Definition parseDescribeResource (query : gmap string string) : result (pageParams * string * string) :=
  params ← parsePageParams query;
  resourceID ← or_prefix "invalid resourceId: " (QueryUnescape (param query "resourceId"));
  resourceID ← validated "invalid resourceId: " validateResourceID resourceID;
  let severity := param query "severity" in
  _ ← (if decide (severity = "") then Ok "" else validated "invalid severity: " validateSeverity severity);
  Ok (params, resourceID, severity).

Definition parseGetStatus (query : gmap string string) : result (string * string) :=
  resourceID ← or_prefix "invalid resourceId: query unescape: " (QueryUnescape (param query "resourceId"));
  resourceID ← validated "invalid resourceId: " validateResourceID resourceID;
  policyID ← or_prefix "invalid policyId: query unescape: " (QueryUnescape (param query "policyId"));
  policyID ← validated "invalid policyId: " validatePolicyID policyID;
  Ok (resourceID, policyID).

(** a response without a model, or a 200 response with one *)
Definition DescribePolicy (t : table) (query : gmap string string)
    : outcome (response + PolicyResourceDetail) :=
  match parseDescribePolicy query with
  | Err e => Ret (inl (badRequest e))
  | Ok (params, policyID) =>
      let '(pages, err) := Query t (ByPolicy policyID []) in
      r ← policyResourceDetail unmarshalItem pages err params "";
      Ret match r with Err _ => inl (code 500) | Ok d => inr d end
  end.

Definition DescribeResource (t : table) (query : gmap string string)
    : outcome (response + PolicyResourceDetail) :=
  match parseDescribeResource query with
  | Err e => Ret (inl (badRequest e))
  | Ok (params, resourceID, severity) =>
      let '(pages, err) := Query t (ByResource resourceID) in
      r ← policyResourceDetail unmarshalItem pages err params severity;
      Ret match r with Err _ => inl (code 500) | Ok d => inr d end
  end.

(** the two scans of the table; [Scan] stands for dynamoClient.ScanPages with
    the filter on entries that are not suppressed *)
Context (Scan : table → list (list Raw) * option error).

Record EntireOrg := { Policies : list ItemSummary; Resources : list ItemSummary }.

Definition DescribeOrg (t : table) (query : gmap string string)
    (orderP : list PolicySummary → list PolicySummary)
    (orderR : list ResourceSummary → list ResourceSummary) : response + EntireOrg :=
  let '(pages, err) := Scan t in
  if decide (param query "type" = "policy") then
    match listPolicies unmarshalItem pages err orderP with
    | Err _ => inl (code 500)
    | Ok l => inr {| Policies := l; Resources := [] |}
    end
  else
    match listResources unmarshalItem pages err orderR with
    | Err _ => inl (code 500)
    | Ok l => inr {| Policies := []; Resources := l |}
    end.

Definition GetOrgOverview (t : table) (query : gmap string string)
    (orderP : list PolicySummary → list PolicySummary)
    (orderR : list ResourceSummary → list ResourceSummary) : outcome (response + OrgSummary) :=
  match parseGetOrgOverview query with
  | Err e => Ret (inl (badRequest e))
  | Ok limitTopFailing =>
      let '(pages, err) := Scan t in
      match scanGroupByID unmarshalItem pages err true true with
      | (_, Some _) => Ret (inl (code 500))
      | (policies, resources, None) =>
          o ← buildOverview (orderP (map_to_list policies).*2) (orderR (map_to_list resources).*2)
                limitTopFailing;
          Ret (inr o)
      end
  end.

Definition GetStatus (t : table) (query : gmap string string) : response + ComplianceStatus :=
  match parseGetStatus query with
  | Err e => inl (badRequest e)
  | Ok (resourceID, policyID) =>
      match GetItem t (tableKey resourceID policyID) with
      | Err _ => inl (code 500)
      | Ok None => inl (code 404)
      | Ok (Some item) =>
          match unmarshalItem item with
          | Err _ => inl (code 500)
          | Ok status => inr status
          end
      end
  end.
End Reads.

(** ** Grouping: theorems *)

Lemma foldl_snoc {A B} (f : A → B → A) a l x : foldl f a (l ++ [x]) = f (foldl f a l) x.
Proof. by rewrite foldl_app. Qed.

Definition of_policy (p : string) (l : list ComplianceStatus) : list ComplianceStatus :=
  filter (λ x, PolicyID x = p) l.
Definition of_resource (r : string) (l : list ComplianceStatus) : list ComplianceStatus :=
  filter (λ x, ResourceID x = r) l.

Definition tally (l : list ComplianceStatus) : StatusCount :=
  foldl (λ c x, updateStatusCount c (Status x)) NewStatusCount l.
Definition tally_severity (l : list ComplianceStatus) : StatusCountBySeverity :=
  foldl (λ c x, updateStatusCountBySeverity c (PolicySeverity x) (Status x)) NewStatusCountBySeverity l.

(** the summaries a list of entries groups into *)
Definition policy_summary (p : string) (l : list ComplianceStatus) : option PolicySummary :=
  match of_policy p l with
  | [] => None
  | x :: _ => Some {| psCount := tally (of_policy p l); psID := p; psSeverity := PolicySeverity x |}
  end.
Definition resource_summary (r : string) (l : list ComplianceStatus) : option ResourceSummary :=
  match of_resource r l with
  | [] => None
  | x :: _ => Some {| rsCount := tally_severity (of_resource r l); rsID := r; rsType := ResourceType x |}
  end.

Lemma add_policies_spec l p : foldl add_policy ∅ l !! p = policy_summary p l.
Proof.
  induction l as [|x l IH] using rev_ind; [cbn [foldl]; by rewrite lookup_empty|].
  rewrite foldl_snoc. unfold add_policy, policy_summary, of_policy in *.
  rewrite filter_app, filter_cons, filter_nil.
  destruct (decide (PolicyID x = p)) as [<-|Hp].
  - rewrite lookup_insert_eq, IH. unfold tally. rewrite foldl_snoc.
    by destruct (filter _ l) as [|y k].
  - by rewrite lookup_insert_ne, app_nil_r by done.
Qed.

Lemma add_resources_spec l r : foldl add_resource ∅ l !! r = resource_summary r l.
Proof.
  induction l as [|x l IH] using rev_ind; [cbn [foldl]; by rewrite lookup_empty|].
  rewrite foldl_snoc. unfold add_resource, resource_summary, of_resource in *.
  rewrite filter_app, filter_cons, filter_nil.
  destruct (decide (ResourceID x = r)) as [<-|Hp].
  - rewrite lookup_insert_eq, IH. unfold tally_severity. rewrite foldl_snoc.
    by destruct (filter _ l) as [|y k].
  - by rewrite lookup_insert_ne, app_nil_r by done.
Qed.

(** the status of a group: ERROR trumps FAIL trumps PASS, an unknown status
    counts as ERROR *)
Definition group_status (l : list ComplianceStatus) : string :=
  if decide (Exists (λ x, Status x ≠ StatusPASS ∧ Status x ≠ StatusFAIL) l) then StatusERROR
  else if decide (Exists (λ x, Status x = StatusFAIL) l) then StatusFAIL else StatusPASS.

Lemma Exists_snoc {A} (P : A → Prop) l x : Exists P (l ++ [x]) ↔ Exists P l ∨ P x.
Proof. rewrite Exists_app, Exists_cons, Exists_nil. naive_solver. Qed.

Lemma tally_spec l :
  0 ≤ cError (tally l) ∧ 0 ≤ cFail (tally l) ∧
  (0 < cError (tally l) ↔ Exists (λ x, Status x ≠ StatusPASS ∧ Status x ≠ StatusFAIL) l) ∧
  (0 < cFail (tally l) ↔ Exists (λ x, Status x = StatusFAIL) l).
Proof.
  induction l as [|x l (H1&H2&H3&H4)] using rev_ind.
  { rewrite !Exists_nil. cbn. lia. }
  unfold tally in *. rewrite foldl_snoc, !Exists_snoc, <-H3, <-H4.
  set (c := foldl _ _ l) in *. clearbody c. unfold updateStatusCount.
  assert (StatusPASS ≠ StatusFAIL) by done.
  destruct (decide (Status x = StatusPASS)) as [Ep|Ep];
    [|destruct (decide (Status x = StatusFAIL)) as [Ef|Ef]]; cbn [cError cFail];
    (split_and!; [lia|lia|split; [intros|intros [?|?]]|split; [intros|intros [?|?]]]);
    try tauto; try congruence; try lia; naive_solver.
Qed.

Lemma countToStatus_tally l : countToStatus (tally l) = group_status l.
Proof.
  destruct (tally_spec l) as (_&_&HE&HF). unfold countToStatus, group_status.
  destruct (decide (0 < cError (tally l))) as [H|H];
    [by rewrite decide_True by tauto|rewrite (decide_False (P := Exists _ _)) by tauto].
  destruct (decide (0 < cFail (tally l))); [by rewrite decide_True by tauto|by rewrite decide_False by tauto].
Qed.

Definition any_error (c : StatusCountBySeverity) : Prop :=
  0 < cError (Low c) ∨ 0 < cError (Info c) ∨ 0 < cError (Medium c) ∨ 0 < cError (High c) ∨
  0 < cError (Critical c).
Definition any_fail (c : StatusCountBySeverity) : Prop :=
  0 < cFail (Low c) ∨ 0 < cFail (Info c) ∨ 0 < cFail (Medium c) ∨ 0 < cFail (High c) ∨
  0 < cFail (Critical c).
Definition nonneg (c : StatusCount) : Prop := 0 ≤ cError c ∧ 0 ≤ cFail c.
Definition all_nonneg (c : StatusCountBySeverity) : Prop :=
  nonneg (Info c) ∧ nonneg (Low c) ∧ nonneg (Medium c) ∧ nonneg (High c) ∧ nonneg (Critical c).

Lemma updateStatusCount_spec c st :
  nonneg c → nonneg (updateStatusCount c st) ∧
  (0 < cError (updateStatusCount c st) ↔ 0 < cError c ∨ (st ≠ StatusPASS ∧ st ≠ StatusFAIL)) ∧
  (0 < cFail (updateStatusCount c st) ↔ 0 < cFail c ∨ st = StatusFAIL).
Proof.
  intros [H1 H2]. unfold updateStatusCount, nonneg. assert (StatusPASS ≠ StatusFAIL) by done.
  destruct (decide (st = StatusPASS)) as [Ep|Ep];
    [|destruct (decide (st = StatusFAIL)) as [Ef|Ef]]; cbn [cError cFail];
    (split_and!; [lia|lia|split; [intros|intros [?|?]]|split; [intros|intros [?|?]]]);
    try tauto; try congruence; try lia; naive_solver.
Qed.

Lemma updateSeverity_spec c sev st :
  all_nonneg c → all_nonneg (updateStatusCountBySeverity c sev st) ∧
  (any_error (updateStatusCountBySeverity c sev st) ↔
     any_error c ∨ (st ≠ StatusPASS ∧ st ≠ StatusFAIL)) ∧
  (any_fail (updateStatusCountBySeverity c sev st) ↔ any_fail c ∨ st = StatusFAIL).
Proof.
  intros (Hi&Hl&Hm&Hh&Hc). unfold updateStatusCountBySeverity, all_nonneg, any_error, any_fail.
  repeat case_decide; cbn [Info Low Medium High Critical];
    match goal with |- context [updateStatusCount ?c st] =>
      destruct (updateStatusCount_spec c st) as (Hn&HE&HF); [done|] end;
    rewrite HE, HF; (split; [by split_and!|]); clear; tauto.
Qed.

Lemma tally_severity_spec l :
  all_nonneg (tally_severity l) ∧
  (any_error (tally_severity l) ↔ Exists (λ x, Status x ≠ StatusPASS ∧ Status x ≠ StatusFAIL) l) ∧
  (any_fail (tally_severity l) ↔ Exists (λ x, Status x = StatusFAIL) l).
Proof.
  induction l as [|x l (H1&H2&H3)] using rev_ind.
  { rewrite !Exists_nil. unfold all_nonneg, nonneg, any_error, any_fail. cbn. lia. }
  unfold tally_severity in *. rewrite foldl_snoc, !Exists_snoc, <-H2, <-H3.
  by apply updateSeverity_spec.
Qed.

Lemma countBySeverityToStatus_tally l : countBySeverityToStatus (tally_severity l) = group_status l.
Proof.
  destruct (tally_severity_spec l) as (_&HE&HF). unfold any_error, any_fail in HE, HF.
  unfold countBySeverityToStatus, group_status.
  case_decide as H; [by rewrite decide_True by tauto|rewrite (decide_False (P := Exists _ _)) by tauto].
  case_decide; [by rewrite decide_True by tauto|by rewrite decide_False by tauto].
Qed.

(** ** Listing the organisation *)

Lemma policy_less_asym x y : policy_less x y = true → policy_less y x = false.
Proof.
  unfold policy_less. set (fx := failures (psCount x)). set (fy := failures (psCount y)).
  assert (∀ a b, sltb a b = true → sltb b a = false) as Hs.
  { intros a b H. apply sltb_leb. unfold sltb, String.ltb, String.leb in *.
    by destruct (String.compare a b). }
  repeat (case_decide; try lia; try done); rewrite ?bool_decide_eq_true, ?bool_decide_eq_false;
    try (by auto); try lia; try congruence.
Qed.

Lemma resource_less_asym x y : resource_less x y = true → resource_less y x = false.
Proof.
  unfold resource_less.
  assert (∀ a b, sltb a b = true → sltb b a = false) as Hs.
  { intros a b H. apply sltb_leb. unfold sltb, String.ltb, String.leb in *.
    by destruct (String.compare a b). }
  repeat (case_decide; try lia); rewrite ?bool_decide_eq_true, ?bool_decide_eq_false; try lia; auto.
Qed.

Lemma policy_summary_Some p l s :
  policy_summary p l = Some s →
  psID s = p ∧ psCount s = tally (of_policy p l) ∧ ∃ x, x ∈ l ∧ PolicyID x = p ∧ psSeverity s = PolicySeverity x.
Proof.
  unfold policy_summary. destruct (of_policy p l) as [|x k] eqn:E; [done|]. intros [= <-].
  split_and!; [done..|]. exists x. assert (x ∈ of_policy p l) as Hx by (rewrite E; by left).
  unfold of_policy in Hx. apply list_elem_of_filter in Hx as [<- Hx]. done.
Qed.

Lemma resource_summary_Some r l s :
  resource_summary r l = Some s →
  rsID s = r ∧ rsCount s = tally_severity (of_resource r l) ∧ ∃ x, x ∈ l ∧ ResourceID x = r.
Proof.
  unfold resource_summary. destruct (of_resource r l) as [|x k] eqn:E; [done|]. intros [= <-].
  split_and!; [done..|]. exists x. assert (x ∈ of_resource r l) as Hx by (rewrite E; by left).
  unfold of_resource in Hx. apply list_elem_of_filter in Hx as [<- Hx]. done.
Qed.

(** the values of a map whose values carry their keys *)
Lemma values_NoDup {V} (id : V → string) (m : gmap string V) :
  (∀ k v, m !! k = Some v → id v = k) → NoDup (id <$> (map_to_list m).*2).
Proof.
  intros Hid. assert (id <$> (map_to_list m).*2 = (map_to_list m).*1) as ->.
  { rewrite <-list_fmap_compose. apply list_fmap_ext. intros i [k v] Hi. simpl.
    apply Hid. apply elem_of_map_to_list. by eapply list_elem_of_lookup_2. }
  apply NoDup_fst_map_to_list.
Qed.

Lemma elem_of_values {V} (m : gmap string V) v :
  v ∈ (map_to_list m).*2 ↔ ∃ k, m !! k = Some v.
Proof.
  rewrite list_elem_of_fmap. split.
  - intros ([k w]&->&Hk). exists k. by apply elem_of_map_to_list.
  - intros [k Hk]. exists (k, v). split; [done|]. by apply elem_of_map_to_list.
Qed.

Lemma group_policies l a b : foldl (group true false) (a, b) l = (foldl add_policy a l, b).
Proof. revert a. induction l as [|x l IH]; intros a; [done|]. apply IH. Qed.

Lemma group_resources l a b : foldl (group false true) (a, b) l = (a, foldl add_resource b l).
Proof. revert b. induction l as [|x l IH]; intros b; [done|]. apply IH. Qed.

(** DescribeOrg lists every policy of the scanned entries exactly once,
    with the worst status of its entries; the order of the list is determined
    by the sort key: it is the same for every iteration order of the map and
    for every correct sorting algorithm. *)
Theorem listPolicies_correct {Raw} (unmarshal : Raw → result ComplianceStatus) pages entries :
  Forall2 (λ page es, unmarshal_all unmarshal page = Ok es) pages entries →
  Forall (λ x, PolicySeverity x ∈ severities) (concat entries) →
  ∃ summaries,
    (∀ order, (∀ l, order l ≡ₚ l) →
       listPolicies unmarshal pages None order =
       Ok ((λ p, {| isID := psID p; isStatus := countToStatus (psCount p) |}) <$> summaries)) ∧
    (∀ l l', l ≡ₚ summaries → sorts policy_less l l' → l' = summaries) ∧
    NoDup (psID <$> summaries) ∧
    (∀ id st, (∃ s, s ∈ summaries ∧ psID s = id ∧ countToStatus (psCount s) = st) ↔
       (∃ x, x ∈ concat entries ∧ PolicyID x = id) ∧ st = group_status (of_policy id (concat entries))).
Proof.
  intros Hun Hsev. set (all := concat entries) in *.
  set (m := foldl add_policy ∅ all).
  assert (∀ k s, m !! k = Some s → policy_summary k all = Some s) as Hm
    by (intros k s Hk; by rewrite <-add_policies_spec).
  set (vals := (map_to_list m).*2).
  assert (keyed policy_less policy_key vals) as Hkey.
  { apply policy_keyed.
    - apply values_NoDup. intros k v Hk%Hm. by apply policy_summary_Some in Hk as [? _].
    - apply Forall_forall. intros v [k Hk]%elem_of_values. apply Hm, policy_summary_Some in Hk
        as (_&Hc&x&Hx&_&Hs). rewrite Hs, Hc. split; [by eapply Forall_forall in Hsev|].
      destruct (tally_spec (of_policy k all)) as (?&?&_). unfold failures. lia. }
  assert (∀ l, sorts policy_less l (sortPoliciesByTopFailing l)) as Hsort
    by (intros l; apply sort_slice_sorts, policy_less_asym).
  set (summaries := sortPoliciesByTopFailing vals).
  assert (summaries ≡ₚ vals) as Hperm by apply (Hsort vals).
  exists summaries. split_and!.
  - intros order Hord. unfold listPolicies, scanGroupByID.
    rewrite (queryPages_fold unmarshal (group true false) (∅, ∅) pages entries Hun). fold all.
    rewrite group_policies.
    fold m. fold vals. do 2 f_equal. symmetry.
    eapply (sorts_unique policy_less policy_key vals (order vals)); eauto.
  - intros l l' Hl Hs. symmetry.
    eapply (sorts_unique policy_less policy_key vals l); eauto. by rewrite Hl.
  - rewrite Hperm. apply values_NoDup. intros k v Hk%Hm. by apply policy_summary_Some in Hk as [? _].
  - assert (∀ s, s ∈ summaries ↔ ∃ k, m !! k = Some s) as Hmem
      by (intros s; rewrite Hperm; apply elem_of_values).
    intros id st. setoid_rewrite Hmem. split.
    + intros (s&[k Hk]&<-&<-). apply Hm, policy_summary_Some in Hk as (->&->&x&Hx&Hid&_).
      split; [by exists x|]. apply countToStatus_tally.
    + intros [(x&Hx&<-) ->].
      destruct (policy_summary (PolicyID x) all) as [s|] eqn:E.
      * exists s. pose proof E as (H1&H2&_)%policy_summary_Some. split_and!; [|done|].
        { exists (PolicyID x). unfold m. by rewrite add_policies_spec. }
        rewrite H2. apply countToStatus_tally.
      * unfold policy_summary in E. destruct (of_policy (PolicyID x) all) as [|y k] eqn:E'; [|done].
        assert (x ∈ of_policy (PolicyID x) all) as Hin by (by apply list_elem_of_filter).
        rewrite E' in Hin. by apply elem_of_nil in Hin.
Qed.

Lemma listPolicies_correct_witness :
  Forall (λ x, PolicySeverity x ∈ severities) (concat demo_entries) ∧
  ∃ summaries,
    (∀ order, (∀ l, order l ≡ₚ l) →
       listPolicies Ok demo_entries None order =
       Ok ((λ p, {| isID := psID p; isStatus := countToStatus (psCount p) |}) <$> summaries)) ∧
    (∀ l l', l ≡ₚ summaries → sorts policy_less l l' → l' = summaries) ∧
    NoDup (psID <$> summaries) ∧
    (∀ id st, (∃ s, s ∈ summaries ∧ psID s = id ∧ countToStatus (psCount s) = st) ↔
       (∃ x, x ∈ concat demo_entries ∧ PolicyID x = id) ∧
       st = group_status (of_policy id (concat demo_entries))).
Proof.
  assert (Forall (λ x, PolicySeverity x ∈ severities) (concat demo_entries)) as Hs.
  { refine (bool_decide_unpack _ _). vm_compute. exact I. }
  split; [exact Hs|].
  apply (listPolicies_correct Ok demo_entries demo_entries); [repeat constructor|exact Hs].
Defined.

(** the same for resources: each resource once, with the worst status over
    all severities, in an order that the counts and the id determine. *)
Theorem listResources_correct {Raw} (unmarshal : Raw → result ComplianceStatus) pages entries :
  Forall2 (λ page es, unmarshal_all unmarshal page = Ok es) pages entries →
  ∃ summaries,
    (∀ order, (∀ l, order l ≡ₚ l) →
       listResources unmarshal pages None order =
       Ok ((λ r, {| isID := rsID r; isStatus := countBySeverityToStatus (rsCount r) |}) <$> summaries)) ∧
    (∀ l l', l ≡ₚ summaries → sorts resource_less l l' → l' = summaries) ∧
    NoDup (rsID <$> summaries) ∧
    (∀ id st, (∃ s, s ∈ summaries ∧ rsID s = id ∧ countBySeverityToStatus (rsCount s) = st) ↔
       (∃ x, x ∈ concat entries ∧ ResourceID x = id) ∧
       st = group_status (of_resource id (concat entries))).
Proof.
  intros Hun. set (all := concat entries) in *. set (m := foldl add_resource ∅ all).
  assert (∀ k s, m !! k = Some s → resource_summary k all = Some s) as Hm
    by (intros k s Hk; by rewrite <-add_resources_spec).
  set (vals := (map_to_list m).*2).
  assert (NoDup (rsID <$> vals)) as Hnd.
  { apply values_NoDup. intros k v Hk%Hm. by apply resource_summary_Some in Hk as [? _]. }
  pose proof (resource_keyed vals Hnd) as Hkey.
  assert (∀ l, sorts resource_less l (sortResourcesByTopFailing l)) as Hsort
    by (intros l; apply sort_slice_sorts, resource_less_asym).
  set (summaries := sortResourcesByTopFailing vals).
  assert (summaries ≡ₚ vals) as Hperm by apply (Hsort vals).
  exists summaries. split_and!.
  - intros order Hord. unfold listResources, scanGroupByID.
    rewrite (queryPages_fold unmarshal (group false true) (∅, ∅) pages entries Hun). fold all.
    rewrite group_resources. fold m. fold vals. do 2 f_equal. symmetry.
    eapply (sorts_unique resource_less resource_key vals (order vals)); eauto.
  - intros l l' Hl Hs. symmetry.
    eapply (sorts_unique resource_less resource_key vals l); eauto. by rewrite Hl.
  - by rewrite Hperm.
  - assert (∀ s, s ∈ summaries ↔ ∃ k, m !! k = Some s) as Hmem
      by (intros s; rewrite Hperm; apply elem_of_values).
    intros id st. setoid_rewrite Hmem. split.
    + intros (s&[k Hk]&<-&<-). apply Hm, resource_summary_Some in Hk as (->&->&x&Hx&Hid).
      split; [by exists x|]. apply countBySeverityToStatus_tally.
    + intros [(x&Hx&<-) ->].
      destruct (resource_summary (ResourceID x) all) as [s|] eqn:E.
      * exists s. pose proof E as (H1&H2&_)%resource_summary_Some. split_and!; [|done|].
        { exists (ResourceID x). unfold m. by rewrite add_resources_spec. }
        rewrite H2. apply countBySeverityToStatus_tally.
      * unfold resource_summary in E. destruct (of_resource (ResourceID x) all) as [|y k] eqn:E'; [|done].
        assert (x ∈ of_resource (ResourceID x) all) as Hin by (by apply list_elem_of_filter).
        rewrite E' in Hin. by apply elem_of_nil in Hin.
Qed.

Lemma listResources_correct_witness :
  ∃ summaries,
    (∀ order, (∀ l, order l ≡ₚ l) →
       listResources Ok demo_entries None order =
       Ok ((λ r, {| isID := rsID r; isStatus := countBySeverityToStatus (rsCount r) |}) <$> summaries)) ∧
    (∀ l l', l ≡ₚ summaries → sorts resource_less l l' → l' = summaries) ∧
    NoDup (rsID <$> summaries) ∧
    (∀ id st, (∃ s, s ∈ summaries ∧ rsID s = id ∧ countBySeverityToStatus (rsCount s) = st) ↔
       (∃ x, x ∈ concat demo_entries ∧ ResourceID x = id) ∧
       st = group_status (of_resource id (concat demo_entries))).
Proof. apply (listResources_correct Ok demo_entries demo_entries). repeat constructor. Defined.

(** ** The overview *)

Lemma sorts_keyed {A} (less : A → A → bool) kf l l' :
  keyed less kf l → sorts less l l' → StronglySorted (λ x y, key_le (kf x) (kf y)) l'.
Proof.
  intros [Hless _] [Hp Hs]. apply Sorted_StronglySorted; [intros x y z; apply transitivity|].
  eapply Sorted_mono; [|exact Hs]. intros x y Hx Hy. rewrite Hp in Hx, Hy. by apply Hless.
Qed.

(** filters that agree on the elements of a list *)
Lemma list_filter_iff' {A} (P Q : A → Prop) `{∀ x, Decision (P x), ∀ x, Decision (Q x)} l :
  Forall (λ x, P x ↔ Q x) l → filter P l = filter Q l.
Proof.
  induction 1 as [|x l Hx _ IH]; [done|]. rewrite !filter_cons, IH.
  destruct (decide (P x)), (decide (Q x)); tauto || done.
Qed.

Lemma keyed_filter {A} (less : A → A → bool) kf (P : A → Prop) `{∀ x, Decision (P x)} l :
  keyed less kf l → keyed less kf (filter P l).
Proof.
  intros [H1 H2]. split; intros x y Hx Hy; apply list_elem_of_filter in Hx as [_ Hx];
    apply list_elem_of_filter in Hy as [_ Hy]; auto.
Qed.

(** *** What the overview means *)

Definition policy_failing (p : PolicySummary) : Prop := 0 < failures (psCount p).

(** the failures of a resource, from critical to info *)
Definition failing_counts (r : ResourceSummary) : list Z :=
  let c := rsCount r in failures <$> [Critical c; High c; Medium c; Low c; Info c].
Definition resource_failing (r : ResourceSummary) : Prop := Exists (λ n, 0 < n) (failing_counts r).

#[export] Instance policy_failing_dec p : Decision (policy_failing p).
Proof. unfold policy_failing. apply _. Defined.
#[export] Instance resource_failing_dec r : Decision (resource_failing r).
Proof. unfold resource_failing. apply _. Defined.

Definition more_severe (s t : string) : Prop :=
  ∃ i j, severities !! i = Some s ∧ severities !! j = Some t ∧ (j < i)%nat.

(** a more severe policy comes first, then one with more failures, then the identifier *)
Definition policy_before (p q : PolicySummary) : Prop :=
  more_severe (psSeverity p) (psSeverity q) ∨
  psSeverity p = psSeverity q ∧
  (failures (psCount q) < failures (psCount p) ∨
   failures (psCount p) = failures (psCount q) ∧ String.leb (psID p) (psID q) = true).

(** a resource with more failures of the first severity in which two differ
    comes first, then the identifier *)
Definition resource_before (p q : ResourceSummary) : Prop :=
  (∃ k x y, take k (failing_counts p) = take k (failing_counts q) ∧
     failing_counts p !! k = Some x ∧ failing_counts q !! k = Some y ∧ y < x) ∨
  failing_counts p = failing_counts q ∧ String.leb (rsID p) (rsID q) = true.

(** the numbers of elements that pass, fail and err *)
Definition tallied {A} (status : A → string) (l : list A) (c : StatusCount) : Prop :=
  cPass c = Z.of_nat (length (filter (λ x, status x = StatusPASS) l)) ∧
  cFail c = Z.of_nat (length (filter (λ x, status x = StatusFAIL) l)) ∧
  cError c = Z.of_nat (length (filter (λ x, status x ≠ StatusPASS ∧ status x ≠ StatusFAIL) l)).

Definition severity_count (c : StatusCountBySeverity) (s : string) : StatusCount :=
  if decide (s = "INFO") then Info c else if decide (s = "LOW") then Low c
  else if decide (s = "MEDIUM") then Medium c else if decide (s = "HIGH") then High c else Critical c.

(** *** The ranking *)

Lemma policy_status_failing p : nonneg (psCount p) → countToStatus (psCount p) ≠ StatusPASS ↔ policy_failing p.
Proof.
  unfold nonneg, countToStatus, policy_failing, failures. intros [? ?].
  repeat case_decide; (split; [intros Hs|intros ?]); try done; try lia; by destruct Hs.
Qed.

Lemma resource_status_failing r :
  all_nonneg (rsCount r) → countBySeverityToStatus (rsCount r) ≠ StatusPASS ↔ resource_failing r.
Proof.
  unfold all_nonneg, nonneg, countBySeverityToStatus, resource_failing, failing_counts, failures. intros Hn.
  cbn [fmap list_fmap]. rewrite !Exists_cons, Exists_nil.
  repeat case_decide; (split; [intros Hs|intros ?]); try done; try lia; by destruct Hs.
Qed.

Lemma severityPriority_more s t :
  s ∈ severities → t ∈ severities → severityPriority t < severityPriority s → more_severe s t.
Proof.
  assert (∀ i s, severities !! i = Some s → severityPriority s = Z.of_nat i) as Hrank.
  { intros i s'. unfold severities. do 5 (destruct i as [|i]; [by intros [= <-]|]). done. }
  intros [i Hi]%list_elem_of_lookup [j Hj]%list_elem_of_lookup Hp. exists i, j. split_and!; [done|done|].
  rewrite (Hrank _ _ Hi), (Hrank _ _ Hj) in Hp. lia.
Qed.

Lemma policy_key_before p q :
  policy_failing p → policy_failing q → psSeverity p ∈ severities → psSeverity q ∈ severities →
  key_le (policy_key p) (policy_key q) → policy_before p q.
Proof.
  unfold policy_failing. intros Hp Hq Sp Sq. unfold policy_key, key_le.
  rewrite !(decide_False (P := failures _ = 0)) by lia. cbn [fst snd key_leb].
  rewrite !(decide_False (P := 0 < 0)) by lia. unfold policy_before.
  case_decide as H1; [intros _; left; apply severityPriority_more; [done|done|lia]|].
  case_decide as H2; [discriminate|]. assert (psSeverity p = psSeverity q) as Hs by (apply severityPriority_inj; [done|done|lia]).
  case_decide as H3; [intros _; right; split; [done|left; lia]|]. case_decide as H4; [discriminate|].
  intros Hid. right. split; [done|]. right. split; [lia|done].
Qed.

Lemma key_leb_counts k1 s1 k2 s2 :
  length k1 = length k2 → key_leb (Z.opp <$> k1) s1 (Z.opp <$> k2) s2 = true →
  (∃ k x y, take k k1 = take k k2 ∧ k1 !! k = Some x ∧ k2 !! k = Some y ∧ y < x) ∨ k1 = k2 ∧ String.leb s1 s2 = true.
Proof.
  revert k2. induction k1 as [|a k1 IH]; intros [|b k2] Hl; try done; cbn [fmap list_fmap key_leb]; [by right|].
  case_decide as H1; [intros _; left; exists 0%nat, a, b; split_and!; [done..|lia]|].
  case_decide as H2; [discriminate|]. assert (a = b) as -> by lia. injection Hl as Hl.
  intros [(k&x&y&Ht&Hx&Hy&Hlt)|[-> ?]]%(IH _ Hl); [|by right]. left. exists (S k), x, y. cbn. by rewrite Ht.
Qed.

Lemma resource_key_before p q : key_le (resource_key p) (resource_key q) → resource_before p q.
Proof. intros H. by apply key_leb_counts. Qed.

(** a sorted list is ranked by what its keys mean *)
Lemma sorts_ranked {A} (less : A → A → bool) kf l l' (R : A → A → Prop) :
  keyed less kf l → sorts less l l' → (∀ x y, x ∈ l → y ∈ l → key_le (kf x) (kf y) → R x y) → StronglySorted R l'.
Proof.
  intros Hk Hs HR. pose proof (sorts_keyed less kf l l' Hk Hs) as Hss. destruct Hs as [Hp _].
  assert (∀ x y, x ∈ l' → y ∈ l' → key_le (kf x) (kf y) → R x y) as HR' by (intros x y; rewrite !Hp; apply HR).
  clear -Hss HR'. induction Hss as [|x l' Hss IH Hall]; [constructor|]. constructor; [apply IH; set_solver|].
  rewrite Forall_forall in Hall |- *. intros y Hy. apply HR'; [set_solver|set_solver|auto].
Qed.

(** *** The counts *)

Lemma tallied_snoc {A} (status : A → string) l x c :
  tallied status l c → tallied status (l ++ [x]) (updateStatusCount c (status x)).
Proof.
  intros (H1&H2&H3). unfold tallied, updateStatusCount. rewrite !filter_app, !length_app, !filter_cons, !filter_nil.
  assert (StatusPASS ≠ StatusFAIL) by done.
  repeat case_decide; cbn [cPass cFail cError length]; split_and!; try lia; exfalso; intuition congruence.
Qed.

Lemma count_policies_spec policies s :
  Forall (λ p, psSeverity p ∈ severities) policies → s ∈ severities →
  tallied (λ p, countToStatus (psCount p)) (filter (λ p, psSeverity p = s) policies) (severity_count (count_policies policies) s).
Proof.
  intros Hs Hin. unfold count_policies. induction policies as [|p policies IH] using rev_ind.
  { unfold severities in Hin. rewrite !elem_of_cons, elem_of_nil in Hin. by destruct_or! Hin; subst. }
  apply Forall_app in Hs as [Hs [Hp _]%Forall_cons]. specialize (IH Hs).
  rewrite foldl_snoc, filter_app, filter_cons, filter_nil. set (c := foldl _ _ _) in *. clearbody c.
  assert (severity_count (updateStatusCountBySeverity c (psSeverity p) (countToStatus (psCount p))) s =
    if decide (psSeverity p = s) then updateStatusCount (severity_count c s) (countToStatus (psCount p)) else severity_count c s) as ->.
  { unfold severities in Hin, Hp. rewrite !elem_of_cons, elem_of_nil in Hin, Hp.
    by destruct_or! Hin; destruct_or! Hp; subst; rewrite Hp. }
  destruct (decide (psSeverity p = s)); [by apply (tallied_snoc (λ p, countToStatus (psCount p)))|by rewrite app_nil_r].
Qed.

Lemma overview_counts_spec resources t :
  match count_types resources !! t with
  | None => filter (λ r, rsType r = t) resources = []
  | Some c => tallied (λ r, countBySeverityToStatus (rsCount r)) (filter (λ r, rsType r = t) resources) c ∧
              filter (λ r, rsType r = t) resources ≠ []
  end.
Proof.
  unfold count_types. induction resources as [|r resources IH] using rev_ind; [done|].
  rewrite foldl_snoc, filter_app, filter_cons, filter_nil. set (m := foldl _ _ _) in *. clearbody m.
  destruct (decide (rsType r = t)) as [<-|Hne]; [|by rewrite lookup_insert_ne, app_nil_r].
  rewrite lookup_insert_eq. split; [|by destruct (filter _ resources)].
  apply (tallied_snoc (λ r, countBySeverityToStatus (rsCount r))).
  destruct (m !! rsType r); [by destruct IH|]. by rewrite IH.
Qed.

(** C25: the overview panics exactly for a negative limit.  Otherwise it lists
    the first policies and resources, up to the limit, of a ranking of all
    those that fail: policies by severity, then by the number of failures,
    resources by the number of their critical failures, then high, medium, low
    and info ones, and both by identifier at the end.  It counts the policies
    of each severity and the resources of each type that pass, fail and err.
    (Identifiers are distinct, severities known and counts not negative, as
    scanGroupByID makes them.) *)
Theorem buildOverview_correct policies resources limit :
  NoDup (psID <$> policies) → NoDup (rsID <$> resources) →
  Forall (λ p, psSeverity p ∈ severities ∧ nonneg (psCount p)) policies →
  Forall (λ r, all_nonneg (rsCount r)) resources →
  (limit < 0 → ∃ w, buildOverview policies resources limit = Panic w) ∧
  (0 ≤ limit → ∃ o ps rs, buildOverview policies resources limit = Ret o ∧
     ps ≡ₚ filter policy_failing policies ∧ StronglySorted policy_before ps ∧
     TopFailingPolicies o = take (Z.to_nat limit) ps ∧
     rs ≡ₚ filter resource_failing resources ∧ StronglySorted resource_before rs ∧
     TopFailingResources o = take (Z.to_nat limit) rs ∧
     (∀ s, s ∈ severities → tallied (λ p, countToStatus (psCount p)) (filter (λ p, psSeverity p = s) policies)
                              (severity_count (AppliedPolicies o) s)) ∧
     (∀ t, match ScannedResources o !! t with
           | None => filter (λ r, rsType r = t) resources = []
           | Some c => tallied (λ r, countBySeverityToStatus (rsCount r)) (filter (λ r, rsType r = t) resources) c ∧
                       filter (λ r, rsType r = t) resources ≠ []
           end)).
Proof.
  intros Hnp Hnr Hp Hr. unfold buildOverview.
  rewrite (list_filter_iff' (λ p, countToStatus (psCount p) ≠ StatusPASS) policy_failing policies)
    by (rewrite Forall_forall in Hp |- *; intros p Hin; by apply policy_status_failing, Hp).
  rewrite (list_filter_iff' (λ r, countBySeverityToStatus (rsCount r) ≠ StatusPASS) resource_failing resources)
    by (rewrite Forall_forall in Hr |- *; intros r Hin; by apply resource_status_failing, Hr).
  set (fp := filter policy_failing policies). set (fr := filter resource_failing resources).
  assert (sorts policy_less fp (sortPoliciesByTopFailing fp)) as Hsp by apply sort_slice_sorts, policy_less_asym.
  assert (sorts resource_less fr (sortResourcesByTopFailing fr)) as Hsr by apply sort_slice_sorts, resource_less_asym.
  assert (∀ {A} (l : list A), 0 ≤ limit → truncate l limit = Ret (take (Z.to_nat limit) l)) as Ht.
  { intros A l Hl. unfold truncate. case_decide; [by rewrite decide_False by lia|]. by rewrite take_ge by lia. }
  split.
  - intros Hl. assert (truncate (sortPoliciesByTopFailing fp) limit = Panic "slice bounds out of range") as ->
      by (unfold truncate; by rewrite !decide_True by lia). by eexists.
  - intros Hl. rewrite !Ht by done. run. eexists _, _, _. split; [done|].
    cbn [TopFailingPolicies TopFailingResources AppliedPolicies ScannedResources].
    split_and!; [apply Hsp| |done|apply Hsr| |done| |apply overview_counts_spec].
    + eapply (sorts_ranked policy_less policy_key fp); [apply (keyed_filter policy_less policy_key policy_failing), policy_keyed|exact Hsp|]; [done| |].
      * eapply Forall_impl; [exact Hp|]. cbn. intros p [? [? ?]]. split; [done|]. unfold failures. lia.
      * intros x y [Fx Ix]%list_elem_of_filter [Fy Iy]%list_elem_of_filter. rewrite Forall_forall in Hp.
        apply policy_key_before; try done; by apply Hp.
    + eapply (sorts_ranked resource_less resource_key fr); [apply (keyed_filter resource_less resource_key resource_failing), resource_keyed|exact Hsr|]; [done|].
      intros x y _ _. apply resource_key_before.
    + intros t Hin. apply count_policies_spec; [|done]. eapply Forall_impl; [exact Hp|]. by intros ? [? _].
Qed.

Definition demo_policy (id sev : string) (fail : Z) : PolicySummary :=
  {| psCount := {| cError := 0; cFail := fail; cPass := 1 |}; psID := id; psSeverity := sev |}.
Definition demo_policies : list PolicySummary :=
  [demo_policy "a" "LOW" 7; demo_policy "b" "HIGH" 1; demo_policy "c" "HIGH" 0].
Definition demo_resource (id : string) (high low : Z) : ResourceSummary :=
  {| rsCount := {| Info := NewStatusCount; Low := {| cError := 0; cFail := low; cPass := 0 |}; Medium := NewStatusCount;
                   High := {| cError := 0; cFail := high; cPass := 0 |}; Critical := NewStatusCount |};
     rsID := id; rsType := "AWS.S3.Bucket" |}.
Definition demo_resources : list ResourceSummary :=
  [demo_resource "r1" 0 9; demo_resource "r2" 1 0; demo_resource "r3" 2 0; demo_resource "r4" 0 0].

Lemma buildOverview_correct_witness :
  ∃ o rs, buildOverview demo_policies demo_resources 2 = Ret o ∧
    psID <$> TopFailingPolicies o = ["b"; "a"] ∧ rsID <$> TopFailingResources o = ["r3"; "r2"] ∧
    StronglySorted resource_before rs ∧ TopFailingResources o = take 2 rs.
Proof.
  destruct (buildOverview_correct demo_policies demo_resources 2) as [_ H].
  - refine (bool_decide_unpack _ _). vm_compute. exact I.
  - refine (bool_decide_unpack _ _). vm_compute. exact I.
  - unfold demo_policies. repeat constructor; try (vm_compute; discriminate); refine (bool_decide_unpack _ _); vm_compute; exact I.
  - unfold demo_resources, all_nonneg, nonneg. repeat constructor; vm_compute; discriminate.
  - destruct H as (o&ps&rs&Ho&_&_&_&_&Hrs&Htake&_); [discriminate|]. exists o, rs. split; [exact Ho|].
    vm_compute in Ho. injection Ho as <-. split; [reflexivity|]. split; [reflexivity|]. split; [exact Hrs|exact Htake].
Defined.

(** ** Writes: theorems *)

Section WriteTheorems.
Context `{Store Raw}.

(** the entries a query delivers in full *)
Definition delivered (t : table) (q : QueryInput) (es : list ComplianceStatus) : Prop :=
  ∃ pages ess, Query t q = (pages, None) ∧ es = concat ess ∧
    Forall2 (λ page es, unmarshal_all unmarshalItem page = Ok es) pages ess.

Lemma handle_entries_app {St} (h : St → ComplianceStatus → St * option error) st l k st' :
  handle_entries h st l = (st', None) → handle_entries h st (l ++ k) = handle_entries h st' k.
Proof.
  revert st. induction l as [|x l IH]; intros st; cbn; [by intros [= ->]|].
  destruct (h st x) as [s1 [e|]]; [done|]. apply IH.
Qed.

Lemma queryPages_ok {St} (h : St → ComplianceStatus → St * option error) st pages err st' :
  queryPages unmarshalItem h st pages err = (st', None) →
  err = None ∧ ∃ ess, Forall2 (λ page es, unmarshal_all unmarshalItem page = Ok es) pages ess ∧
    handle_entries h st (concat ess) = (st', None).
Proof.
  revert st. induction pages as [|page pages IH]; intros st; cbn [queryPages].
  { intros [= -> ->]. split; [done|]. exists []. by split; [constructor|]. }
  unfold handleItems. destruct (unmarshal_all unmarshalItem page) as [es|e] eqn:Eu; [|done].
  destruct (handle_entries h st es) as [s1 [e|]] eqn:Eh; [done|].
  intros (->&ess&Hf&Hh)%IH. split; [done|]. exists (es :: ess). split; [by constructor|].
  cbn [concat]. by rewrite (handle_entries_app _ _ _ _ _ Eh).
Qed.

(** *** DeleteStatus *)

Lemma collect_spec f acc es : handle_entries (collect f) acc es = (acc ++ (f <$> es), None).
Proof.
  revert acc. induction es as [|x es IH]; intros acc; cbn; [by rewrite app_nil_r|].
  by rewrite IH, <-app_assoc.
Qed.

(** the keys an entry of the request selects, as its query delivers them *)
Definition entry_keys (t : table) (e : DeleteStatusEntry) (ks : list key) : Prop :=
  match dePolicy e with
  | Some p => ∃ es, delivered t (ByPolicy (dpID p) (dpResourceTypes p)) es ∧
                ks = (λ x, (ResourceID x, dpID p)) <$> es
  | None => ∃ r es, deResource e = Some r ∧ delivered t (ByResource r) es ∧
                ks = (λ x, (r, PolicyID x)) <$> es
  end.

Lemma entryRequests_ok t e ws :
  entryRequests t e = Ok ws → ∃ ks, entry_keys t e ks ∧ ws = DeleteRequest <$> ks.
Proof.
  unfold entryRequests, entry_keys. destruct (dePolicy e) as [p|].
  - unfold policyDeleteEntries. destruct (Query t _) as [pages err] eqn:Eq.
    destruct (queryPages _ _ [] pages err) as [ws' [e'|]] eqn:E; [done|]. intros [= <-].
    apply queryPages_ok in E as (->&ess&Hf&Hh). rewrite collect_spec in Hh. injection Hh as <-.
    eexists. split; [by exists (concat ess); split; [exists pages, ess|]|].
    rewrite <-list_fmap_compose. done.
  - destruct (deResource e) as [r|]; [|done].
    unfold resourceDeleteEntries. destruct (Query t _) as [pages err] eqn:Eq.
    destruct (queryPages _ _ [] pages err) as [ws' [e'|]] eqn:E; [done|]. intros [= <-].
    apply queryPages_ok in E as (->&ess&Hf&Hh). rewrite collect_spec in Hh. injection Hh as <-.
    eexists. split; [by exists r, (concat ess); split; [|split; [exists pages, ess|]]|].
    rewrite <-list_fmap_compose. done.
Qed.

Lemma deleteRequests_ok t entries ws :
  deleteRequests t entries = Ok ws →
  ∃ kss, Forall2 (entry_keys t) entries kss ∧ ws = DeleteRequest <$> concat kss.
Proof.
  revert ws. induction entries as [|e entries IH]; intros ws; cbn.
  { intros [= <-]. by exists []. }
  destruct (entryRequests t e) as [w1|] eqn:E1; cbn; [|done].
  destruct (deleteRequests t entries) as [w2|]; cbn; [|done]. intros [= <-].
  apply entryRequests_ok in E1 as (ks&Hk&->). destruct (IH _ eq_refl) as (kss&Hf&->).
  exists (ks :: kss). split; [by constructor|]. cbn. by rewrite fmap_app.
Qed.

Lemma delete_all_lookup (t : table) (ks : list key) (k : key) :
  foldl apply_write t (DeleteRequest <$> ks) !! k = if decide (k ∈ ks) then None else t !! k.
Proof.
  revert t. induction ks as [|k0 ks IH]; intros t; cbn [fmap list_fmap foldl]; [done|].
  rewrite IH. cbn [apply_write]. destruct (decide (k ∈ ks)) as [Hk|Hk].
  - by rewrite decide_True by set_solver.
  - destruct (decide (k = k0)) as [->|Hne].
    + rewrite lookup_delete_eq. by rewrite decide_True by set_solver.
    + rewrite lookup_delete_ne by done. by rewrite decide_False by set_solver.
Qed.

(** when DeleteStatus answers 200, the table lost exactly the entries that
    the queries for the requested policies (restricted to the given resource
    types by the query) and resources delivered, and nothing else changed; a
    400 changes nothing. *)
Theorem DeleteStatus_correct t input t' r :
  DeleteStatus t input = (t', r) →
  (StatusCode r = 400 → t' = t) ∧
  (StatusCode r = 200 → ∃ entries kss, input = Ok entries ∧ Forall2 (entry_keys t) entries kss ∧
     ∀ k, t' !! k = if decide (k ∈ concat kss) then None else t !! k).
Proof.
  unfold DeleteStatus. destruct input as [entries|e].
  2: { intros [= <- <-]. done. }
  destruct (deleteRequests t entries) as [ws|e] eqn:E.
  2: { intros [= <- <-]. done. }
  apply deleteRequests_ok in E as (kss&Hf&->).
  assert (∀ t1, t1 = foldl apply_write t (DeleteRequest <$> concat kss) →
    ∃ entries0 kss0, Ok entries = Ok entries0 ∧ Forall2 (entry_keys t) entries0 kss0 ∧
      ∀ k, t1 !! k = if decide (k ∈ concat kss0) then None else t !! k) as Hfin.
  { intros t1 ->. exists entries, kss. split_and!; [done..|]. intros k. apply delete_all_lookup. }
  destruct (DeleteRequest <$> concat kss) as [|w ws] eqn:Ew.
  - intros [= <- <-]. split; [done|]. intros _. by apply Hfin.
  - destruct (BatchWriteItem t (w :: ws)) as [t1 [e|]] eqn:Eb; intros [= <- <-]; [done|].
    split; [done|]. intros _. apply Hfin. by apply BatchWriteItem_ok.
Qed.

(** *** UpdateMetadata *)

Lemma rewritten_same input ig x :
  Suppressed x = ig → PolicySeverity x = umSeverity input → rewritten input ig x = x.
Proof. intros <- E. destruct x. unfold rewritten. cbn in *. by rewrite E. Qed.

Lemma key_of_rewritten input ig x : key_of (rewritten input ig x) = key_of x.
Proof. done. Qed.

(** the writes for the entries [es]: those that change, rewritten *)
Lemma update_items_ok input ws es ws' :
  handle_entries (update_item input) ws es = (ws', None) →
  ∃ ps : list (ComplianceStatus * bool), ps.*1 = es ∧
    Forall (λ p, isIgnored (ResourceID p.1) (umSuppressions input) = Ok p.2) ps ∧
    ws' = ws ++ (PutRequest <$> ((λ p, rewritten input p.2 p.1) <$>
      filter (λ p, Suppressed p.1 ≠ p.2 ∨ PolicySeverity p.1 ≠ umSeverity input) ps)).
Proof.
  revert ws. induction es as [|x es IH]; intros ws; cbn.
  { intros [= <-]. exists []. by rewrite app_nil_r. }
  unfold update_item at 1. destruct (isIgnored (ResourceID x) (umSuppressions input)) as [ig|e] eqn:Ei; [|done].
  destruct (decide (Suppressed x ≠ ig ∨ PolicySeverity x ≠ umSeverity input)) as [Hd|Hd].
  - destruct (marshalErr _) as [e|]; [done|]. intros (ps&Hps&Hf&->)%IH.
    exists ((x, ig) :: ps). split; [cbn; by rewrite Hps|]. split; [by constructor|].
    rewrite filter_cons, decide_True by done. cbn. by rewrite <-app_assoc.
  - intros (ps&Hps&Hf&->)%IH. exists ((x, ig) :: ps).
    split; [cbn; by rewrite Hps|]. split; [by constructor|].
    by rewrite filter_cons, decide_False by done.
Qed.

Lemma put_all_lookup_ne (t : table) items k :
  k ∉ key_of <$> items → foldl apply_write t (PutRequest <$> items) !! k = t !! k.
Proof.
  revert t. induction items as [|x items IH]; intros t Hk; cbn; [done|].
  rewrite IH by set_solver. cbn. rewrite lookup_insert_ne by set_solver. done.
Qed.

Lemma put_all_lookup (t : table) items x :
  NoDup (key_of <$> items) → x ∈ items →
  foldl apply_write t (PutRequest <$> items) !! key_of x = Some x.
Proof.
  revert t. induction items as [|y items IH]; intros t Hnd Hx; [by apply elem_of_nil in Hx|].
  cbn in Hnd. apply NoDup_cons in Hnd as [Hy Hnd]. cbn.
  apply elem_of_cons in Hx as [-> |Hx]; [|by apply IH].
  rewrite put_all_lookup_ne by done. apply lookup_insert_eq.
Qed.

(** the table after the writes of [ps] *)
Lemma update_all_lookup (t : table) input (ps : list (ComplianceStatus * bool)) :
  NoDup (key_of <$> ps.*1) →
  let t' := foldl apply_write t (PutRequest <$> ((λ p, rewritten input p.2 p.1) <$>
      filter (λ p, Suppressed p.1 ≠ p.2 ∨ PolicySeverity p.1 ≠ umSeverity input) ps)) in
  (∀ k, k ∉ key_of <$> ps.*1 → t' !! k = t !! k) ∧
  (∀ p, p ∈ ps → t !! key_of p.1 = Some p.1 → t' !! key_of p.1 = Some (rewritten input p.2 p.1)).
Proof.
  intros Hnd t'. set (ch := filter _ ps) in t'.
  assert (key_of <$> ((λ p, rewritten input p.2 p.1) <$> ch) = (λ p, key_of p.1) <$> ch) as Hkeys
    by (by rewrite <-list_fmap_compose).
  rewrite <-list_fmap_compose in Hnd.
  split.
  - intros k Hk. unfold t'. apply put_all_lookup_ne. rewrite Hkeys. intros Hin. apply Hk.
    rewrite <-list_fmap_compose. apply list_elem_of_fmap in Hin as (p&->&Hp). unfold ch in Hp.
    apply list_elem_of_filter in Hp as [_ Hp]. apply list_elem_of_fmap. by exists p.
  - intros p Hp Ht.
    destruct (decide (Suppressed p.1 ≠ p.2 ∨ PolicySeverity p.1 ≠ umSeverity input)) as [Hc|Hc].
    + rewrite <-(key_of_rewritten input p.2 p.1). unfold t'. apply put_all_lookup.
      * rewrite Hkeys. eapply sublist_NoDup; [exact Hnd|]. apply fmap_sublist, sublist_filter.
      * apply list_elem_of_fmap. exists p. split; [done|]. by apply list_elem_of_filter.
    + unfold t'. rewrite put_all_lookup_ne.
      * rewrite Ht. f_equal. symmetry. apply rewritten_same; apply dec_stable; tauto.
      * rewrite Hkeys. intros (q&Hk&Hq)%list_elem_of_fmap. apply Hc.
        apply list_elem_of_filter in Hq as [Hpq Hq'].
        apply list_elem_of_lookup in Hp as [i Hi], Hq' as [j Hj].
        assert (i = j) as ->; [|by simplify_eq].
        eapply NoDup_lookup; [exact Hnd|rewrite list_lookup_fmap, Hi; done|].
        rewrite list_lookup_fmap, Hj. cbn. by rewrite Hk.
Qed.

(** when UpdateMetadata answers 200, every entry that the query for the
    policy delivered now has the new severity and is suppressed exactly if a
    suppression pattern matches its resource, its other fields are kept, and
    no other entry of the table changed; a 400 changes nothing. *)
Theorem UpdateMetadata_correct t input t' r :
  UpdateMetadata t (Ok input) = (t', r) →
  (StatusCode r = 400 → t' = t) ∧
  (StatusCode r = 200 → ∃ es, delivered t (ByPolicy (umPolicyID input) []) es ∧
     (NoDup (key_of <$> es) →
        (∀ k, k ∉ key_of <$> es → t' !! k = t !! k) ∧
        (∀ x, x ∈ es → t !! key_of x = Some x →
           ∃ ig, isIgnored (ResourceID x) (umSuppressions input) = Ok ig ∧
             t' !! key_of x = Some (rewritten input ig x)))).
Proof.
  unfold UpdateMetadata, itemsToUpdate. destruct (Query t _) as [pages err] eqn:Eq.
  destruct (queryPages unmarshalItem (update_item input) [] pages err) as [ws [e|]] eqn:E.
  { intros [= <- <-]. split; [done|]. case_decide; cbn; discriminate. }
  apply queryPages_ok in E as (->&ess&Hf&Hh).
  apply update_items_ok in Hh as (ps&Hps&Hig&->). rewrite app_nil_l.
  assert (∀ t1, t1 = foldl apply_write t (PutRequest <$> ((λ p, rewritten input p.2 p.1) <$>
      filter (λ p, Suppressed p.1 ≠ p.2 ∨ PolicySeverity p.1 ≠ umSeverity input) ps)) →
    ∃ es, delivered t (ByPolicy (umPolicyID input) []) es ∧
     (NoDup (key_of <$> es) →
        (∀ k, k ∉ key_of <$> es → t1 !! k = t !! k) ∧
        (∀ x, x ∈ es → t !! key_of x = Some x →
           ∃ ig, isIgnored (ResourceID x) (umSuppressions input) = Ok ig ∧
             t1 !! key_of x = Some (rewritten input ig x)))) as Hfin.
  { intros t1 ->. exists (concat ess). split; [by exists pages, ess|]. rewrite <-Hps. intros Hnd.
    destruct (update_all_lookup t input ps Hnd) as [H1 H2]. split; [exact H1|].
    intros x ([y ig]&->&Hp)%list_elem_of_fmap Ht. exists ig. rewrite Forall_forall in Hig.
    split; [by apply (Hig (y, ig))|]. by apply (H2 (y, ig)). }
  destruct (PutRequest <$> _) as [|w ws] eqn:Ew.
  - intros [= <- <-]. split; [done|]. intros _. by apply Hfin.
  - destruct (BatchWriteItem t (w :: ws)) as [t1 [e|]] eqn:Eb; intros [= <- <-]; [done|].
    split; [done|]. intros _. apply Hfin. by apply BatchWriteItem_ok.
Qed.

(** *** SetStatus *)

Lemma put_requests_ok items ws : put_requests items = Ok ws → ws = PutRequest <$> items.
Proof.
  revert ws. induction items as [|x items IH]; intros ws; cbn; [by intros [= <-]|].
  destruct (marshalErr x); [done|]. destruct (put_requests items) as [w|]; cbn; [|done].
  intros [= <-]. by rewrite (IH _ eq_refl).
Qed.

(** when SetStatus answers 201, the table holds the status of every entry
    of a batch without duplicate keys, stamped with the time of the request and
    expiring 50 hours later, and no other entry changed. *)
Theorem SetStatus_correct t now entries t' r :
  SetStatus t now (Ok entries) = (t', r) → StatusCode r = 201 →
  NoDup ((λ e, (seResourceID e, sePolicyID e)) <$> entries) →
  (∀ e, e ∈ entries → t' !! (seResourceID e, sePolicyID e) = Some (status_of now e)) ∧
  (∀ k, k ∉ (λ e, (seResourceID e, sePolicyID e)) <$> entries → t' !! k = t !! k) ∧
  (∀ e, ExpiresAt (status_of now e) = ToUnix now + 50 * 3600).
Proof.
  unfold SetStatus. destruct (put_requests _) as [ws|] eqn:E; [|by intros [= _ <-]].
  apply put_requests_ok in E as ->.
  destruct (BatchWriteItem t _) as [t1 [e|]] eqn:Eb; intros [= <- <-]; [done|]. intros _ Hnd.
  apply BatchWriteItem_ok in Eb as ->.
  assert (key_of <$> (status_of now <$> entries) = (λ e, (seResourceID e, sePolicyID e)) <$> entries) as Hk
    by (by rewrite <-list_fmap_compose).
  split_and!.
  - intros e He. change (seResourceID e, sePolicyID e) with (key_of (status_of now e)).
    apply put_all_lookup; [by rewrite Hk|]. apply list_elem_of_fmap. by exists e.
  - intros k Hn. apply put_all_lookup_ne. by rewrite Hk.
  - intros e. cbn. unfold ToUnix, statusLifetime, Hour, Second.
    replace (now + 50 * (3600 * 1000000000)) with (now + (50 * 3600) * 1000000000) by lia.
    rewrite Z.div_add by lia. lia.
Qed.
End WriteTheorems.

(** ** A concrete store *)

Definition demo_query (t : table) (q : QueryInput) : list (list ComplianceStatus) * option error :=
  match q with
  | ByPolicy p types =>
      ([filter (λ x, PolicyID x = p ∧ (types = [] ∨ ResourceType x ∈ types)) (map_to_list t).*2], None)
  | ByResource r => ([filter (λ x, ResourceID x = r) (map_to_list t).*2], None)
  end.

#[refine] Instance demo_store : Store ComplianceStatus := {|
  Query := demo_query; unmarshalItem := Ok; marshalErr := λ _, None;
  BatchWriteItem := λ t ws, (foldl apply_write t ws, None)
|}.
Proof. by intros t ws t' [= <-]. Defined.

Definition demo_table : table :=
  foldl apply_write ∅ (PutRequest <$> concat demo_entries).

Lemma DeleteStatus_correct_witness :
  let input := Ok [{| dePolicy := None; deResource := Some "a" |}] in
  let t' := (DeleteStatus demo_table input).1 in
  size t' = 3%nat ∧
  ∃ entries kss, input = Ok entries ∧ Forall2 (entry_keys demo_table) entries kss ∧
    ∀ k, t' !! k = if decide (k ∈ concat kss) then None else demo_table !! k.
Proof.
  intros input t'. split; [vm_compute; reflexivity|].
  apply (DeleteStatus_correct demo_table input t' (DeleteStatus demo_table input).2);
    [apply surjective_pairing|vm_compute; reflexivity].
Defined.

Definition demo_update : UpdateMetadataInput :=
  {| umPolicyID := "p"; umSeverity := "CRITICAL"; umSuppressions := ["[ab]"] |}.

Lemma UpdateMetadata_correct_witness :
  let t' := (UpdateMetadata demo_table (Ok demo_update)).1 in
  (λ x, (ResourceID x, Suppressed x)) <$> (map_to_list t').*2 =
    [("c", false); ("a", true); ("b", true); ("d", false)] ∧
  ∃ es, delivered demo_table (ByPolicy "p" []) es ∧
    (NoDup (key_of <$> es) →
       (∀ k, k ∉ key_of <$> es → t' !! k = demo_table !! k) ∧
       (∀ x, x ∈ es → demo_table !! key_of x = Some x →
          ∃ ig, isIgnored (ResourceID x) ["[ab]"] = Ok ig ∧
            t' !! key_of x = Some (rewritten demo_update ig x))).
Proof.
  intros t'. split; [vm_compute; reflexivity|].
  apply (UpdateMetadata_correct demo_table demo_update t' (UpdateMetadata demo_table (Ok demo_update)).2);
    [apply surjective_pairing|vm_compute; reflexivity].
Defined.

Definition demo_set : SetStatusEntry :=
  {| seErrorMessage := ""; seIntegrationID := "i"; sePolicyID := "q"; sePolicySeverity := "LOW";
     seResourceID := "z"; seResourceType := "AWS.S3.Bucket"; seStatus := "PASS"; seSuppressed := false |}.

Lemma SetStatus_correct_witness :
  let t' := (SetStatus demo_table 0 (Ok [demo_set])).1 in
  (∀ e, e ∈ [demo_set] → t' !! (seResourceID e, sePolicyID e) = Some (status_of 0 e)) ∧
  (∀ k, k ∉ (λ e, (seResourceID e, sePolicyID e)) <$> [demo_set] → t' !! k = demo_table !! k) ∧
  (∀ e, ExpiresAt (status_of 0 e) = ToUnix 0 + 50 * 3600).
Proof.
  intros t'.
  apply (SetStatus_correct demo_table 0 [demo_set] t' (SetStatus demo_table 0 (Ok [demo_set])).2);
    [apply surjective_pairing|vm_compute; reflexivity|].
  refine (bool_decide_unpack _ _). vm_compute. exact I.
Defined.
