(* ===== verification/Md5.v ===== *)
(** * Go's crypto/md5 and encoding/hex

    The digest of RFC 1321 on byte strings, as the standard library computes
    it, and the lowercase hexadecimal text of a digest.  The alert forwarder
    names every alert by such a digest. *)

From S2P Require Import Prelude.

#[local] Open Scope Z_scope.

Definition w32 (z : Z) : Z := Z.land z 4294967295.
Definition not32 (z : Z) : Z := Z.lxor z 4294967295.
Definition rotl32 (x : Z) (s : Z) : Z :=
  w32 (Z.lor (Z.shiftl x s) (Z.shiftr x (32 - s))).

(** the integer part of 2^32 * abs(sin(i+1)) *)
Definition md5_table : list Z :=
  [
   3614090360; 3905402710; 606105819; 3250441966; 4118548399; 1200080426; 2821735955; 4249261313;
   1770035416; 2336552879; 4294925233; 2304563134; 1804603682; 4254626195; 2792965006; 1236535329;
   4129170786; 3225465664; 643717713; 3921069994; 3593408605; 38016083; 3634488961; 3889429448;
   568446438; 3275163606; 4107603335; 1163531501; 2850285829; 4243563512; 1735328473; 2368359562;
   4294588738; 2272392833; 1839030562; 4259657740; 2763975236; 1272893353; 4139469664; 3200236656;
   681279174; 3936430074; 3572445317; 76029189; 3654602809; 3873151461; 530742520; 3299628645;
   4096336452; 1126891415; 2878612391; 4237533241; 1700485571; 2399980690; 4293915773; 2240044497;
   1873313359; 4264355552; 2734768916; 1309151649; 4149444226; 3174756917; 718787259; 3951481745].

Definition md5_shifts (round : Z) : list Z :=
  if round =? 0 then [7; 12; 17; 22] else if round =? 1 then [5; 9; 14; 20]
  else if round =? 2 then [4; 11; 16; 23] else [6; 10; 15; 21].

Record digest := { dA : Z; dB : Z; dC : Z; dD : Z }.

Definition md5_init : digest :=
  {| dA := 1732584193; dB := 4023233417; dC := 2562383102; dD := 271733878 |}.

(** step [i] of the 64 steps on one block of 16 words *)
Definition md5_step (block : list Z) (s : digest) (i : nat) : digest :=
  let '{| dA := a; dB := b; dC := c; dD := d |} := s in
  let iz := Z.of_nat i in
  let round := iz / 16 in
  let '(f, g) :=
    if round =? 0 then (Z.lor (Z.land b c) (Z.land (not32 b) d), iz)
    else if round =? 1 then (Z.lor (Z.land d b) (Z.land (not32 d) c), (5 * iz + 1) mod 16)
    else if round =? 2 then (Z.lxor (Z.lxor b c) d, (3 * iz + 5) mod 16)
    else (Z.lxor c (Z.lor b (not32 d)), (7 * iz) mod 16) in
  let x := w32 (f + a + nth i md5_table 0 + nth (Z.to_nat g) block 0) in
  {| dA := d; dD := c; dC := b;
     dB := w32 (b + rotl32 x (nth (Z.to_nat (iz mod 4)) (md5_shifts round) 0)) |}.

Definition md5_block (s : digest) (block : list Z) : digest :=
  let t := foldl (md5_step block) s (seq 0 64) in
  {| dA := w32 (dA s + dA t); dB := w32 (dB s + dB t);
     dC := w32 (dC s + dC t); dD := w32 (dD s + dD t) |}.

Fixpoint bytes_of (s : string) : list Z :=
  match s with
  | EmptyString => []
  | String c s' => Z.of_nat (nat_of_ascii c) :: bytes_of s'
  end.

(** [n] bytes of [v], least significant first *)
Fixpoint le_bytes (n : nat) (v : Z) : list Z :=
  match n with
  | O => []
  | S n => v mod 256 :: le_bytes n (v / 256)
  end.

Fixpoint le_words (n : nat) (l : list Z) : list Z :=
  match n, l with
  | S n, b0 :: b1 :: b2 :: b3 :: l' =>
      (b0 + 256 * b1 + 65536 * b2 + 16777216 * b3) :: le_words n l'
  | _, _ => []
  end.

(** the message, a one bit, zeros up to 56 bytes modulo 64, the bit length *)
Definition md5_pad (l : list Z) : list Z :=
  let n := Z.of_nat (length l) in
  l ++ 128 :: replicate (Z.to_nat ((55 - n) mod 64)) 0 ++ le_bytes 8 (8 * n).

Fixpoint md5_blocks (fuel : nat) (s : digest) (l : list Z) : digest :=
  match fuel with
  | O => s
  | S fuel =>
      match l with
      | [] => s
      | _ => md5_blocks fuel (md5_block s (le_words 16 (take 64 l))) (drop 64 l)
      end
  end.

(** [md5.Sum(data)]: one block per 64 bytes, so the length is enough fuel *)
Definition md5_Sum (data : string) : list Z :=
  let l := md5_pad (bytes_of data) in
  let s := md5_blocks (length l) md5_init l in
  le_bytes 4 (dA s) ++ le_bytes 4 (dB s) ++ le_bytes 4 (dC s) ++ le_bytes 4 (dD s).

Definition hex_digit (z : Z) : ascii :=
  ascii_of_nat (Z.to_nat (if z <? 10 then 48 + z else 87 + z)).

(** [hex.EncodeToString] *)
Fixpoint hex_EncodeToString (l : list Z) : string :=
  match l with
  | [] => ""
  | b :: l' => String (hex_digit (b / 16)) (String (hex_digit (b mod 16)) (hex_EncodeToString l'))
  end.

Example md5_empty : hex_EncodeToString (md5_Sum "") = "d41d8cd98f00b204e9800998ecf8427e".
Proof. vm_compute. reflexivity. Qed.

Example md5_long :
  hex_EncodeToString (md5_Sum "12345678901234567890123456789012345678901234567890123456789012345678901234567890")
  = "57edf4a22be3c955ac49da2e2107b67a".
Proof. vm_compute. reflexivity. Qed.

(** ** The text of a digest *)

Definition is_hex (c : ascii) : bool :=
  let n := nat_of_ascii c in
  ((48 <=? n) && (n <=? 57) || (97 <=? n) && (n <=? 102))%nat.

Lemma hex_digit_is_hex z : 0 ≤ z < 16 → is_hex (hex_digit z) = true.
Proof.
  intros Hz. unfold hex_digit. assert (z ∈ seqZ 0 16) as H by (apply elem_of_seqZ; lia).
  vm_compute in H. repeat (apply elem_of_cons in H as [->|H]; [reflexivity|]). by apply elem_of_nil in H.
Qed.

Lemma le_bytes_spec n v : length (le_bytes n v) = n ∧ Forall (λ b, 0 ≤ b < 256) (le_bytes n v).
Proof.
  revert v. induction n as [|n IH]; intros v; [done|]. destruct (IH (v / 256)) as [Hl Hf].
  cbn [le_bytes length]. split; [by rewrite Hl|]. constructor; [|done]. apply Z.mod_pos_bound; lia.
Qed.

Lemma hex_EncodeToString_spec l :
  Forall (λ b, 0 ≤ b < 256) l →
  String.length (hex_EncodeToString l) = (2 * length l)%nat ∧
  all_bytes is_hex (hex_EncodeToString l) = true.
Proof.
  induction 1 as [|b l Hb _ [IHl IHh]]; [done|]. cbn [hex_EncodeToString String.length length all_bytes].
  rewrite IHl, IHh, !hex_digit_is_hex; [split; [lia|done]| |].
  - apply Z.mod_pos_bound; lia.
  - split; [apply Z.div_pos; lia|apply Z.div_lt_upper_bound; lia].
Qed.

(** a digest is 32 hexadecimal digits *)
Lemma md5_hex_spec s :
  String.length (hex_EncodeToString (md5_Sum s)) = 32%nat ∧
  all_bytes is_hex (hex_EncodeToString (md5_Sum s)) = true.
Proof.
  unfold md5_Sum. set (d := md5_blocks _ _ _).
  destruct (le_bytes_spec 4 (dA d)) as [La Fa], (le_bytes_spec 4 (dB d)) as [Lb Fb],
    (le_bytes_spec 4 (dC d)) as [Lc Fc], (le_bytes_spec 4 (dD d)) as [Ld Fd].
  destruct (hex_EncodeToString_spec (le_bytes 4 (dA d) ++ le_bytes 4 (dB d) ++ le_bytes 4 (dC d)
    ++ le_bytes 4 (dD d))) as [Hl Hh].
  - by repeat apply Forall_app_2.
  - split; [|done]. rewrite Hl, !length_app, La, Lb, Lc, Ld. done.
Qed.
