(* ===== verification/AlertForwarder.v ===== *)
(** * Alert forwarder

    Model of src/internal/log_analysis/alert_forwarder: forwarder/models.go
    (decoding the images of the dedup table's stream), forwarder/forwarder.go
    (storing, updating and announcing alerts) and the batch handler of
    main/lambda.go.  The accessors of the Lambda event library, the DynamoDB
    and JSON marshallers, the rules API and the failures of AWS calls are
    parameters.  The alerts table and the alerting queue are the state. *)

From S2P Require Import Prelude GoTime Md5.

#[local] Open Scope Z_scope.

(** ** models.go *)

Record AlertDedupEvent := {
  RuleID : string;
  RuleVersion : string;
  DeduplicationString : string;
  CreationTime : Time;
  UpdateTime : Time;
  EventCount : Z;
  LogTypes : list string;
  GeneratedTitle : option string;
  AlertCount : Z
}.

Record Alert := {
  ID : string;
  TimePartition : string;
  Severity : string;
  RuleDisplayName : option string;
  Title : string;
  dedupEvent : AlertDedupEvent
}.

Definition alertTablePartitionKey : string := "id".
Definition alertTableLogTypesAttribute : string := "logTypes".
Definition alertTableEventCountAttribute : string := "eventCount".
Definition alertTableUpdateTimeAttribute : string := "updateTime".

(** What a Go call can do: return a value, return an error, or panic with a
    value that implements [error] or with another value. *)
Inductive panic_value :=
| PanicError (e : error)
| PanicOther (what : string).

Inductive go (A : Type) :=
| Val (a : A)
| Fails (e : error)
| Panics (p : panic_value).
Arguments Val {A} a.
Arguments Fails {A} e.
Arguments Panics {A} p.

#[export] Instance go_ret : MRet go := λ A a, Val a.
#[export] Instance go_bind : MBind go := λ A B f r,
  match r with Val a => f a | Fails e => Fails e | Panics p => Panics p end.

Definition of_result {A} (r : result A) : go A :=
  match r with Ok a => Val a | Err e => Fails e end.
Definition of_call {A} (r : A + panic_value) : go A :=
  match r with inl a => Val a | inr p => Panics p end.

(** [defer func() { if r := recover(); r != nil { ... } }()]: a panic value
    that is not an error leaves [err] nil, and errors.Wrap(nil, _) is nil *)
Definition recovered {A} (r : go (option A)) : result (option A) :=
  match r with
  | Val a => Ok a
  | Fails e => Err e
  | Panics (PanicError e) => Err e
  | Panics (PanicOther _) => Ok None
  end.

Section Models.
Context {EV : Type}.
Context (avString : EV → string + panic_value) (avStringSet : EV → list string + panic_value)
        (avInteger : EV → result Z + panic_value).

Definition getAttribute (key : string) (inputMap : gmap string EV) : result EV :=
  match inputMap !! key with
  | None => Err (ErrMsg ("could not find '" +:+ key +:+ "' attribute"))
  | Some attributeValue => Ok attributeValue
  end.

Definition getIntegerAttribute (key : string) (input : gmap string EV) : go Z :=
  value ← of_result (getAttribute key input);
  integerValue ← of_call (avInteger value);
  match integerValue with
  | Err e => Fails (ErrWrap ("failed to convert attribute '" +:+ key +:+ "' to integer") e)
  | Ok integerValue => Val integerValue
  end.

Definition getOptionalAttribute (key : string) (inputMap : gmap string EV) : option EV :=
  inputMap !! key.

(** [None]: a nil map *)
Definition FromDynamodDBAttribute (input : option (gmap string EV)) : result (option AlertDedupEvent) :=
  recovered (
    match input with
    | None => Val None
    | Some input =>
        ruleID ← of_result (getAttribute "ruleId" input);
        ruleVersion ← of_result (getAttribute "ruleVersion" input);
        deduplicationString ← of_result (getAttribute "dedup" input);
        alertCount ← getIntegerAttribute "alertCount" input;
        alertCreationEpoch ← getIntegerAttribute "alertCreationTime" input;
        alertUpdateEpoch ← getIntegerAttribute "alertUpdateTime" input;
        eventCount ← getIntegerAttribute "eventCount" input;
        logTypes ← of_result (getAttribute "logTypes" input);
        ruleID ← of_call (avString ruleID);
        ruleVersion ← of_call (avString ruleVersion);
        deduplicationString ← of_call (avString deduplicationString);
        logTypes ← of_call (avStringSet logTypes);
        generatedTitle ← match getOptionalAttribute "title" input with
                         | None => Val None
                         | Some v => s ← of_call (avString v); Val (Some s)
                         end;
        Val (Some {| RuleID := ruleID; RuleVersion := ruleVersion;
                     DeduplicationString := deduplicationString; AlertCount := alertCount;
                     CreationTime := Unix alertCreationEpoch; UpdateTime := Unix alertUpdateEpoch;
                     EventCount := eventCount; LogTypes := logTypes;
                     GeneratedTitle := generatedTitle |})
    end).
End Models.

(** ** forwarder.go: data *)

(** the part of the rules API's rule that the forwarder reads *)
Record Rule := {
  ruleID : string;
  ruleDisplayName : string;
  ruleDescription : string;
  ruleRunbook : string;
  ruleSeverity : string;
  ruleTags : list string
}.

(** the notification (alert_delivery/models.Alert) *)
Record AlertNotification := {
  CreatedAt : Time;
  PolicyDescription : string;
  PolicyID : string;
  PolicyVersionID : string;
  PolicyName : option string;
  Runbook : string;
  nSeverity : string;
  Tags : list string;
  nType : string;
  AlertID : string;
  nTitle : string
}.

Definition RuleType : string := "RULE".
Definition defaultTimePartition : string := "defaultPartition".

(** DynamoDB attribute values, as far as keys are concerned *)
Inductive AttributeValue :=
| AV_S (s : string)
| AV_N (n : string)
| AV_SS (l : list string)
| AV_L (l : list AttributeValue)
| AV_NULL.

Notation DynamoItem := (gmap string AttributeValue).

(** the operands of expression.Value in the update expression *)
Inductive ExprValue :=
| EInt64 (z : Z)
| EStringSlice (l : list string)
| ETime (t : Time).

Definition needToCreateNewAlert (oldAlertDedupEvent : option AlertDedupEvent)
    (newAlertDedupEvent : AlertDedupEvent) : bool :=
  match oldAlertDedupEvent with
  | None => true
  | Some old => bool_decide (AlertCount old ≠ AlertCount newAlertDedupEvent)
  end.

Definition getRuleDisplayName (rule : Rule) : option string :=
  if decide (0 < slen (ruleDisplayName rule)) then Some (ruleDisplayName rule) else None.

Definition getAlertTitle (rule : Rule) (alertDedup : AlertDedupEvent) : string :=
  match GeneratedTitle alertDedup with
  | Some title => title
  | None =>
      match getRuleDisplayName rule with
      | Some name => name
      | None => ruleID rule
      end
  end.

Definition alert_key (event : AlertDedupEvent) : string :=
  RuleID event +:+ ":" +:+ itoa (AlertCount event) +:+ ":" +:+ DeduplicationString event.

Definition generateAlertID (event : AlertDedupEvent) : string :=
  hex_EncodeToString (md5_Sum (alert_key event)).
Arguments generateAlertID : simpl never.

Definition new_alert (rule : Rule) (alertDedup : AlertDedupEvent) : Alert :=
  {| ID := generateAlertID alertDedup; TimePartition := defaultTimePartition;
     Severity := ruleSeverity rule; RuleDisplayName := getRuleDisplayName rule;
     Title := getAlertTitle rule alertDedup; dedupEvent := alertDedup |}.

Definition new_notification (rule : Rule) (alertDedup : AlertDedupEvent) : AlertNotification :=
  {| CreatedAt := CreationTime alertDedup; PolicyDescription := ruleDescription rule;
     PolicyID := RuleID alertDedup; PolicyVersionID := RuleVersion alertDedup;
     PolicyName := getRuleDisplayName rule; Runbook := ruleRunbook rule;
     nSeverity := ruleSeverity rule; Tags := ruleTags rule; nType := RuleType;
     AlertID := generateAlertID alertDedup; nTitle := getAlertTitle rule alertDedup |}.

(** ** The alerts table and the alerting queue *)

Record world := {
  alertsTable : gmap string DynamoItem;
  alertingQueue : list string;
  puts : nat; updates : nat; sends : nat;
  logged : list (option error)
}.

(** PutItem replaces the whole item under its key; an item without a string
    key is refused *)
Definition put (t : gmap string DynamoItem) (item : DynamoItem) : result (gmap string DynamoItem) :=
  match item !! alertTablePartitionKey with
  | Some (AV_S key) => Ok (<[key := item]> t)
  | _ => Err (ErrAWS "ValidationException" "One or more parameter values were invalid")
  end.

(** UpdateItem sets the given attributes and creates the item if there is none *)
Definition update (t : gmap string DynamoItem) (key : string) (attrs : DynamoItem)
    : gmap string DynamoItem :=
  <[key := attrs ∪ default {[alertTablePartitionKey := AV_S key]} (t !! key)]> t.

Section Forwarder.
Context (GetRule : string → string → result Rule) (MarshalMap : Alert → result DynamoItem)
        (MarshalValue : ExprValue → result AttributeValue)
        (MarshalToString : AlertNotification → result string)
        (put_error update_error send_error : nat → option error).

Definition PutItem (w : world) (item : DynamoItem) : world * option error :=
  let failed := {| alertsTable := alertsTable w; alertingQueue := alertingQueue w;
                   puts := S (puts w); updates := updates w; sends := sends w; logged := logged w |} in
  match put_error (puts w), put (alertsTable w) item with
  | Some e, _ => (failed, Some e)
  | None, Err e => (failed, Some e)
  | None, Ok t => ({| alertsTable := t; alertingQueue := alertingQueue w; puts := S (puts w);
                      updates := updates w; sends := sends w; logged := logged w |}, None)
  end.

Definition UpdateItem (w : world) (key : string) (attrs : DynamoItem) : world * option error :=
  match update_error (updates w) with
  | Some e => ({| alertsTable := alertsTable w; alertingQueue := alertingQueue w; puts := puts w;
                  updates := S (updates w); sends := sends w; logged := logged w |}, Some e)
  | None => ({| alertsTable := update (alertsTable w) key attrs; alertingQueue := alertingQueue w;
                puts := puts w; updates := S (updates w); sends := sends w; logged := logged w |}, None)
  end.

Definition SendMessage (w : world) (body : string) : world * option error :=
  match send_error (sends w) with
  | Some e => ({| alertsTable := alertsTable w; alertingQueue := alertingQueue w; puts := puts w;
                  updates := updates w; sends := S (sends w); logged := logged w |}, Some e)
  | None => ({| alertsTable := alertsTable w; alertingQueue := alertingQueue w ++ [body];
                puts := puts w; updates := updates w; sends := S (sends w); logged := logged w |}, None)
  end.

Definition getRuleInfo (event : AlertDedupEvent) : result Rule :=
  match GetRule (RuleID event) (RuleVersion event) with
  | Err e => Err (ErrWrap ("failed to fetch information for ruleID [" +:+ RuleID event
                           +:+ "], version [" +:+ RuleVersion event +:+ "]") e)
  | Ok rule => Ok rule
  end.

Definition storeNewAlert (w : world) (rule : Rule) (alertDedup : AlertDedupEvent)
    : world * option error :=
  match MarshalMap (new_alert rule alertDedup) with
  | Err e => (w, Some (ErrWrap "failed to marshal alert" e))
  | Ok marshaledAlert =>
      match PutItem w marshaledAlert with
      | (w, Some e) => (w, Some (ErrWrap "failed to update store alert" e))
      | (w, None) => (w, None)
      end
  end.

Definition sendAlertNotification (w : world) (rule : Rule) (alertDedup : AlertDedupEvent)
    : world * option error :=
  match MarshalToString (new_notification rule alertDedup) with
  | Err e => (w, Some (ErrWrap "failed to marshal alert notification" e))
  | Ok msgBody =>
      match SendMessage w msgBody with
      | (w, Some e) => (w, Some (ErrWrap "failed to send notification" e))
      | (w, None) => (w, None)
      end
  end.

Definition handleNewAlert (w : world) (event : AlertDedupEvent) : world * option error :=
  match getRuleInfo event with
  | Err e => (w, Some (ErrWrap "failed to get rule information" e))
  | Ok ruleInfo =>
      match storeNewAlert w ruleInfo event with
      | (w, Some e) => (w, Some (ErrWrap "failed to store new alert in DDB" e))
      | (w, None) => sendAlertNotification w ruleInfo event
      end
  end.

(** the three attributes of the update expression, marshalled by Build *)
Definition updateExpression (event : AlertDedupEvent) : result DynamoItem :=
  count ← MarshalValue (EInt64 (EventCount event));
  logTypes ← MarshalValue (EStringSlice (LogTypes event));
  time ← MarshalValue (ETime (UpdateTime event));
  Ok (<[alertTableEventCountAttribute := count]> (<[alertTableLogTypesAttribute := logTypes]>
      {[alertTableUpdateTimeAttribute := time]})).

Definition updateExistingAlert (w : world) (event : AlertDedupEvent) : world * option error :=
  match updateExpression event with
  | Err e => (w, Some (ErrWrap "failed to build update expression" e))
  | Ok expr =>
      match UpdateItem w (generateAlertID event) expr with
      | (w, Some e) => (w, Some (ErrWrap "failed to update alert" e))
      | (w, None) => (w, None)
      end
  end.

Definition Handle (w : world) (oldAlertDedupEvent : option AlertDedupEvent)
    (newAlertDedupEvent : AlertDedupEvent) : world * option error :=
  if needToCreateNewAlert oldAlertDedupEvent newAlertDedupEvent
  then handleNewAlert w newAlertDedupEvent
  else updateExistingAlert w newAlertDedupEvent.

(** ** lambda.go *)

Context {EV : Type}.
Context (avString : EV → string + panic_value) (avStringSet : EV → list string + panic_value)
        (avInteger : EV → result Z + panic_value).

Record DynamoDBRecord := { OldImage : option (gmap string EV); NewImage : option (gmap string EV) }.

#[local] Notation decode := (FromDynamodDBAttribute avString avStringSet avInteger).

Definition log (w : world) (e : option error) : world :=
  {| alertsTable := alertsTable w; alertingQueue := alertingQueue w; puts := puts w;
     updates := updates w; sends := sends w; logged := logged w ++ [e] |}.

(** errors.Wrapf: nil stays nil *)
Definition Wrapf (e : option error) (msg : string) : option error := ErrWrap msg <$> e.

(** [err] is the named result of the handler, nil as long as the loop runs *)
Fixpoint reporterHandler (w : world) (err : option error) (records : list DynamoDBRecord)
    : world * option error :=
  match records with
  | [] => (w, None)
  | record :: records =>
      match decode (OldImage record) with
      | Err unmarshalErr => reporterHandler (log w (Wrapf err "failed to unmarshal item")) err records
      | Ok oldAlertDedupEvent =>
          match decode (NewImage record) with
          | Err unmarshalErr => reporterHandler (log w (Wrapf err "failed to unmarshal item")) err records
          | Ok None => reporterHandler (log w (Some (ErrMsg "skipping deleted record"))) err records
          | Ok (Some newAlertDedupEvent) =>
              match Handle w oldAlertDedupEvent newAlertDedupEvent with
              | (w, Some err) =>
                  (w, Some (ErrWrap "encountered issue while handling deduplication event" err))
              | (w, None) => reporterHandler w None records
              end
          end
      end
  end.

(** ** Decoding: specification *)

Definition str_attr (m : gmap string EV) (k s : string) : Prop :=
  ∃ v, m !! k = Some v ∧ avString v = inl s.
Definition int_attr (m : gmap string EV) (k : string) (z : Z) : Prop :=
  ∃ v, m !! k = Some v ∧ avInteger v = inl (Ok z).

Definition opt_attr (m : gmap string EV) (k : string) (o : option string) : Prop :=
  match o with Some s => str_attr m k s | None => m !! k = None end.

(** [ev] is what the image [m] says *)
Definition decoded (m : gmap string EV) (ev : AlertDedupEvent) : Prop :=
  str_attr m "ruleId" (RuleID ev) ∧ str_attr m "ruleVersion" (RuleVersion ev) ∧
  str_attr m "dedup" (DeduplicationString ev) ∧ int_attr m "alertCount" (AlertCount ev) ∧
  (∃ c, int_attr m "alertCreationTime" c ∧ CreationTime ev = Unix c) ∧
  (∃ u, int_attr m "alertUpdateTime" u ∧ UpdateTime ev = Unix u) ∧
  int_attr m "eventCount" (EventCount ev) ∧
  (∃ v, m !! "logTypes" = Some v ∧ avStringSet v = inl (LogTypes ev)) ∧
  opt_attr m "title" (GeneratedTitle ev).

(** the accessors panic with error values, as the library documents *)
Definition error_panics : Prop :=
  (∀ v p, avString v = inr p → ∃ e, p = PanicError e) ∧
  (∀ v p, avStringSet v = inr p → ∃ e, p = PanicError e) ∧
  (∀ v p, avInteger v = inr p → ∃ e, p = PanicError e).

Lemma attr_spec (m : gmap string EV) k :
  (∃ v, m !! k = Some v ∧ getAttribute k m = Ok v) ∨
  (m !! k = None ∧ ∃ e, getAttribute k m = Err e).
Proof. unfold getAttribute. destruct (m !! k); eauto. Qed.

Lemma getIntegerAttribute_spec (m : gmap string EV) k :
  error_panics →
  (∃ z, int_attr m k z ∧ getIntegerAttribute avInteger k m = Val z) ∨
  ((∀ z, ¬ int_attr m k z) ∧ ∃ e, getIntegerAttribute avInteger k m = Fails e ∨
                               getIntegerAttribute avInteger k m = Panics (PanicError e)).
Proof.
  intros (_&_&Hp). unfold int_attr, getIntegerAttribute, getAttribute.
  destruct (m !! k) as [v|]; simpl.
  - destruct (avInteger v) as [[z|e]|p] eqn:E; simpl.
    + left. eauto 6.
    + right. split; [intros z (?&[= <-]&?); congruence|eauto].
    + right. destruct (Hp v p E) as [e ->]. split; [intros z (?&[= <-]&?); congruence|eauto].
  - right. split; [by intros z (?&?&?)|eauto].
Qed.

Lemma avString_spec v : error_panics → (∃ s, avString v = inl s) ∨ ∃ e, avString v = inr (PanicError e).
Proof. intros (Hp&_). destruct (avString v) as [s|p] eqn:E; [eauto|]. destruct (Hp v p E) as [e ->]. eauto. Qed.

Lemma avStringSet_spec v :
  error_panics → (∃ s, avStringSet v = inl s) ∨ ∃ e, avStringSet v = inr (PanicError e).
Proof. intros (_&Hp&_). destruct (avStringSet v) as [s|p] eqn:E; [eauto|]. destruct (Hp v p E) as [e ->]. eauto. Qed.

Lemma int_attr_inj (m : gmap string EV) k z z' : int_attr m k z → int_attr m k z' → z = z'.
Proof. intros (v&Hv&E) (v'&Hv'&E'). congruence. Qed.

Lemma not_decoded m e : (∀ ev, ¬ decoded m ev) →
  (∀ ev, Err e = Ok (Some ev) ↔ decoded m ev) ∧ (Err e : result (option AlertDedupEvent)) ≠ Ok None.
Proof. intros H. split; [|done]. intros ev. split; [done|]. intros Hd. by destruct (H ev). Qed.

Lemma decoded_inj m ev ev' : decoded m ev → decoded m ev' → ev = ev'.
Proof.
  intros ((?&?&?)&(?&?&?)&(?&?&?)&I1&(c&I2&?)&(u&I3&?)&I4&(?&?&?)&T)
    ((?&?&?)&(?&?&?)&(?&?&?)&J1&(c'&J2&?)&(u'&J3&?)&J4&(?&?&?)&T').
  pose proof (int_attr_inj _ _ _ _ I1 J1). pose proof (int_attr_inj _ _ _ _ I2 J2).
  pose proof (int_attr_inj _ _ _ _ I3 J3). pose proof (int_attr_inj _ _ _ _ I4 J4).
  destruct ev as [? ? ? ? ? ? ? g ?], ev' as [? ? ? ? ? ? ? g' ?]; simpl in *.
  assert (g = g') as ->.
  { destruct g, g'; unfold opt_attr, str_attr in *; destruct_and?;
      repeat match goal with H : ∃ _, _ |- _ => destruct H as (?&?&?) end; congruence. }
  simplify_eq. f_equal; congruence.
Qed.

Lemma decoded_only m ev :
  decoded m ev → (∀ ev', Ok (Some ev) = Ok (Some ev') ↔ decoded m ev') ∧ Ok (Some ev) ≠ Ok None.
Proof.
  intros Hd. split; [|done]. intros ev'. split; [by intros [= <-]|].
  intros Hd'. by rewrite (decoded_inj _ _ _ Hd Hd').
Qed.

#[local] Ltac undecoded H :=
  apply not_decoded; intros ? (H1&H2&H3&H4&H5&H6&H7&H8&H9); unfold str_attr in *;
  first [destruct H1 as (?&?&?); congruence | destruct H2 as (?&?&?); congruence
        | destruct H3 as (?&?&?); congruence | destruct H8 as (?&?&?); congruence
        | by eapply (H _ H4) | destruct H5 as (?&?&?); by eapply H
        | destruct H6 as (?&?&?); by eapply H | by eapply (H _ H7)
        | unfold opt_attr, str_attr in H9; case_match; [destruct H9 as (?&?&?)|]; congruence ].

(** if the accessors panic only with error values, a nil image decodes to
    no event, and an image decodes to an event exactly when all its required
    attributes are present with the right types, the event then holding what
    the attributes say; every other image is an error and never passes for a
    deleted record. *)
Theorem FromDynamodDBAttribute_correct :
  error_panics →
  decode None = Ok None ∧
  ∀ m, (∀ ev, decode (Some m) = Ok (Some ev) ↔ decoded m ev) ∧ decode (Some m) ≠ Ok None.
Proof.
  intros Hp. split; [done|]. intros m. unfold FromDynamodDBAttribute.
  destruct (attr_spec m "ruleId") as [(r&Er&->)|(Er&e&->)]; csimpl; [|undecoded I].
  destruct (attr_spec m "ruleVersion") as [(v&Ev&->)|(Ev&e&->)]; csimpl; [|undecoded I].
  destruct (attr_spec m "dedup") as [(d&Ed&->)|(Ed&e&->)]; csimpl; [|undecoded I].
  destruct (getIntegerAttribute_spec m "alertCount" Hp) as [(n&En&->)|(H0&e&[-> | ->])]; csimpl;
    [|undecoded H0..].
  destruct (getIntegerAttribute_spec m "alertCreationTime" Hp) as [(c&Ec&->)|(H0&e&[-> | ->])]; csimpl;
    [|undecoded H0..].
  destruct (getIntegerAttribute_spec m "alertUpdateTime" Hp) as [(u&Eu&->)|(H0&e&[-> | ->])]; csimpl;
    [|undecoded H0..].
  destruct (getIntegerAttribute_spec m "eventCount" Hp) as [(k&Ek&->)|(H0&e&[-> | ->])]; csimpl;
    [|undecoded H0..].
  destruct (attr_spec m "logTypes") as [(l&El&->)|(El&e&->)]; csimpl; [|undecoded I].
  destruct (avString_spec r Hp) as [(sr&Sr)|(e&Sr)]; rewrite Sr; csimpl; [|undecoded I].
  destruct (avString_spec v Hp) as [(sv&Sv)|(e&Sv)]; rewrite Sv; csimpl; [|undecoded I].
  destruct (avString_spec d Hp) as [(sd&Sd)|(e&Sd)]; rewrite Sd; csimpl; [|undecoded I].
  destruct (avStringSet_spec l Hp) as [(sl&Sl)|(e&Sl)]; rewrite Sl; csimpl; [|undecoded I].
  unfold getOptionalAttribute. destruct (m !! "title") as [t|] eqn:Et; csimpl.
  - destruct (avString_spec t Hp) as [(st&St)|(e&St)]; rewrite St; csimpl; [|undecoded I].
    apply decoded_only. unfold decoded, opt_attr, str_attr. split_and!; simpl; eauto.
  - apply decoded_only. unfold decoded, opt_attr, str_attr. split_and!; simpl; eauto.
Qed.

(** ** What a batch does *)

(** the effects of the forwarder on the table and on the queue *)
Inductive effect :=
| Stored (key : string) (item : DynamoItem)
| Updated (key : string) (attrs : DynamoItem)
| Notified (body : string).

Notation visible := (gmap string DynamoItem * list string)%type (only parsing).

Definition perform (st : visible) (e : effect) : visible :=
  match e with
  | Stored key item => (<[key := item]> st.1, st.2)
  | Updated key attrs => (update st.1 key attrs, st.2)
  | Notified body => (st.1, st.2 ++ [body])
  end.

Definition state_of (w : world) : visible := (alertsTable w, alertingQueue w).

(** the effects an event calls for when no AWS call fails, and whether it can
    be handled completely *)
Definition event_effects (old : option AlertDedupEvent) (ev : AlertDedupEvent) : list effect * bool :=
  if needToCreateNewAlert old ev then
    match getRuleInfo ev with
    | Err _ => ([], false)
    | Ok rule =>
        match MarshalMap (new_alert rule ev) with
        | Err _ => ([], false)
        | Ok item =>
            match item !! alertTablePartitionKey with
            | Some (AV_S key) =>
                match MarshalToString (new_notification rule ev) with
                | Err _ => ([Stored key item], false)
                | Ok body => ([Stored key item; Notified body], true)
                end
            | _ => ([], false)
            end
        end
    end
  else
    match updateExpression ev with
    | Err _ => ([], false)
    | Ok attrs => ([Updated (generateAlertID ev) attrs], true)
    end.

(** a record that cannot be decoded, and a deletion, call for nothing *)
Definition record_effects (r : DynamoDBRecord) : list effect * bool :=
  match decode (OldImage r), decode (NewImage r) with
  | Ok old, Ok (Some ev) => event_effects old ev
  | _, _ => ([], true)
  end.

Definition batch_effects (rs : list DynamoDBRecord) : list effect :=
  concat ((λ r, (record_effects r).1) <$> rs).

Definition complete (r : DynamoDBRecord) : Prop := (record_effects r).2 = true.

Definition no_faults : Prop :=
  ∀ i, put_error i = None ∧ update_error i = None ∧ send_error i = None.

Lemma Handle_spec w old ev w' e :
  Handle w old ev = (w', e) →
  ∃ es, es `prefix_of` (event_effects old ev).1 ∧ state_of w' = foldl perform (state_of w) es ∧
    (e = None → es = (event_effects old ev).1 ∧ (event_effects old ev).2 = true) ∧
    (no_faults → (event_effects old ev).2 = true → e = None).
Proof.
  unfold Handle, event_effects, no_faults. destruct (needToCreateNewAlert old ev).
  - unfold handleNewAlert. destruct (getRuleInfo ev) as [rule|er].
    2: { intros [= <- <-]. exists []. by split_and!. }
    unfold storeNewAlert. destruct (MarshalMap (new_alert rule ev)) as [item|em].
    2: { intros [= <- <-]. exists []. by split_and!. }
    unfold PutItem, put. destruct (item !! alertTablePartitionKey) as [[key| | | |]|];
      destruct (put_error (puts w)) as [ep|] eqn:Ep;
      try (intros [= <- <-]; exists []; split_and!;
           [apply prefix_nil|done|done|try done; intros H; destruct (H (puts w)); congruence]).
    unfold sendAlertNotification. destruct (MarshalToString (new_notification rule ev)) as [body|eb].
    2: { intros [= <- <-]. exists [Stored key item]. by split_and!. }
    unfold SendMessage. simpl. destruct (send_error (sends w)) as [es|] eqn:Es; intros [= <- <-].
    + exists [Stored key item]. split_and!; [by exists [Notified body]|done|done|].
      intros H. destruct (H (sends w)) as (_&_&?). congruence.
    + exists [Stored key item; Notified body]. by split_and!.
  - unfold updateExistingAlert. destruct (updateExpression ev) as [attrs|eb].
    2: { intros [= <- <-]. exists []. by split_and!. }
    unfold UpdateItem. destruct (update_error (updates w)) as [eu|] eqn:Eu; intros [= <- <-].
    + exists []. split_and!; [apply prefix_nil|done|done|].
      intros H. destruct (H (updates w)) as (_&?&_). congruence.
    + exists [Updated (generateAlertID ev) attrs]. by split_and!.
Qed.

Lemma reporterHandler_spec w rs w' e :
  reporterHandler w None rs = (w', e) →
  ∃ es, es `prefix_of` batch_effects rs ∧ state_of w' = foldl perform (state_of w) es ∧
    (e = None → es = batch_effects rs ∧ Forall complete rs) ∧
    (no_faults → Forall complete rs → e = None).
Proof.
  revert w. induction rs as [|r rs IH]; intros w.
  { intros [= <- <-]. exists []. by split_and!. }
  unfold batch_effects. cbn [reporterHandler fmap list_fmap concat].
  assert (∀ w0 : world, record_effects r = ([], true) → state_of w0 = state_of w →
    reporterHandler w0 None rs = (w', e) →
    ∃ es, es `prefix_of` (record_effects r).1 ++ batch_effects rs ∧
      state_of w' = foldl perform (state_of w) es ∧
      (e = None → es = (record_effects r).1 ++ batch_effects rs ∧ Forall complete (r :: rs)) ∧
      (no_faults → Forall complete (r :: rs) → e = None)) as Hskip.
  { intros w0 Hr Hw H. destruct (IH _ H) as (es&Hp&Hs&Hn&Hf). exists es.
    unfold complete in *. rewrite Hr, <-Hw. setoid_rewrite Forall_cons. rewrite Hr. naive_solver. }
  destruct (decode (OldImage r)) as [old|eo] eqn:Eo.
  2: { apply Hskip; [|done]. unfold record_effects. by rewrite Eo. }
  destruct (decode (NewImage r)) as [[ev|]|en] eqn:En.
  2,3: apply Hskip; [|done]; unfold record_effects; by rewrite Eo, En.
  clear Hskip. destruct (Handle w old ev) as [w1 [eh|]] eqn:Eh; destruct (Handle_spec _ _ _ _ _ Eh) as
    (es&Hp&Hs&Hn&Hf); unfold complete in *; setoid_rewrite Forall_cons;
    assert (record_effects r = event_effects old ev) as -> by (unfold record_effects; by rewrite Eo, En).
  - intros [= <- <-]. exists es. split_and!; [by apply prefix_app_r|done|done|]. naive_solver.
  - destruct (Hn eq_refl) as [-> Hc]. intros H. destruct (IH _ H) as (es'&Hp'&Hs'&Hn'&Hf').
    exists ((event_effects old ev).1 ++ es'). rewrite foldl_app, <-Hs. split_and!.
    + by apply prefix_app.
    + done.
    + intros He. destruct (Hn' He) as [-> ?]. done.
    + intros Hnf [_ ?]. auto.
Qed.

(** ** Retries *)

(** the effect on the item of one key *)
Definition perform_at (k : string) (o : option DynamoItem) (e : effect) : option DynamoItem :=
  match e with
  | Stored key item => if decide (key = k) then Some item else o
  | Updated key attrs =>
      if decide (key = k) then Some (attrs ∪ default {[alertTablePartitionKey := AV_S key]} o) else o
  | Notified _ => o
  end.

Lemma perform_lookup st es k :
  (foldl perform st es).1 !! k = foldl (perform_at k) (st.1 !! k) es.
Proof.
  revert st. induction es as [|e es IH]; intros st; [done|]. simpl. rewrite IH. f_equal.
  destruct e as [key item|key attrs|body]; simpl; [| |done]; unfold update; case_decide; subst;
    by rewrite ?lookup_insert_eq, ?lookup_insert_ne by done.
Qed.

(** a sequence of effects leaves an item alone, overrides some of its
    attributes, or replaces it *)
Lemma perform_at_form k es :
  (∀ o, foldl (perform_at k) o es = o) ∨
  (∃ A : DynamoItem, ∀ o, foldl (perform_at k) o es =
     Some (A ∪ default {[alertTablePartitionKey := AV_S k]} o)) ∨
  (∃ item, ∀ o, foldl (perform_at k) o es = Some item).
Proof.
  induction es as [|e es IH] using rev_ind; [by left|].
  setoid_rewrite foldl_app. simpl. destruct e as [key item|key attrs|body]; simpl; [| |done].
  - case_decide; [|done]. right; right. eauto.
  - case_decide; [|done]. subst. right. destruct IH as [H|[[A H]|[item H]]]; setoid_rewrite H.
    + left. eauto.
    + left. exists (attrs ∪ A). intros o. simpl. by rewrite (assoc_L (∪)).
    + right. eauto.
Qed.

Lemma perform_at_idemp k es o :
  foldl (perform_at k) (foldl (perform_at k) o es) es = foldl (perform_at k) o es.
Proof.
  destruct (perform_at_form k es) as [H|[[A H]|[item H]]]; rewrite !H; [done| |done].
  simpl. by rewrite (assoc_L (∪)), (idemp_L (∪)).
Qed.

(** repeating a batch after any part of it gives the table of one run *)
Lemma perform_again st es1 es :
  es1 `prefix_of` es → (foldl perform (foldl perform st es1) es).1 = (foldl perform st es).1.
Proof.
  intros [es2 ->]. apply map_eq. intros k.
  by rewrite !perform_lookup, !foldl_app, perform_at_idemp.
Qed.

Definition notified (es : list effect) : list string :=
  omap (λ e, match e with Notified b => Some b | _ => None end) es.

Lemma perform_queue st es : (foldl perform st es).2 = st.2 ++ notified es.
Proof.
  revert st. induction es as [|e es IH]; intros st; simpl; [by rewrite app_nil_r|].
  rewrite IH. destruct e; simpl; [done..|]. by rewrite <-app_assoc.
Qed.

Lemma notified_prefix es es' : es `prefix_of` es' → notified es `prefix_of` notified es'.
Proof. intros [k ->]. exists (notified k). unfold notified. apply omap_app. Qed.

(** whatever AWS calls fail, a batch performs a prefix of the effects its
    records call for, in order; it succeeds only when it has performed all of
    them, and it does succeed when no call fails and every record can be
    handled. *)
Theorem reporterHandler_correct w rs w' e :
  reporterHandler w None rs = (w', e) →
  ∃ es, es `prefix_of` batch_effects rs ∧
    (alertsTable w', alertingQueue w') = foldl perform (alertsTable w, alertingQueue w) es ∧
    (e = None → es = batch_effects rs ∧ Forall complete rs) ∧
    (no_faults → Forall complete rs → e = None).
Proof. apply reporterHandler_spec. Qed.

(** retries are safe.  When a batch fails and the whole batch is run again
    with success, the alerts table is the one that a single successful run
    would have left, and the queue has received the notifications of the
    batch once in full, after those that the failed run had already sent. *)
Theorem retry_idempotent w rs w1 e1 w2 :
  reporterHandler w None rs = (w1, Some e1) →
  reporterHandler w1 None rs = (w2, None) →
  alertsTable w2 = (foldl perform (alertsTable w, alertingQueue w) (batch_effects rs)).1 ∧
  ∃ sent, sent `prefix_of` notified (batch_effects rs) ∧
    alertingQueue w2 = alertingQueue w ++ sent ++ notified (batch_effects rs).
Proof.
  intros (es1&Hp1&Hs1&_)%reporterHandler_spec (es2&Hp2&Hs2&Hn2&_)%reporterHandler_spec.
  destruct (Hn2 eq_refl) as [-> _]. rewrite Hs1 in Hs2. split.
  - change (alertsTable w2) with (state_of w2).1. rewrite Hs2. by apply perform_again.
  - exists (notified es1). split; [by apply notified_prefix|].
    change (alertingQueue w2) with (state_of w2).2. by rewrite Hs2, !perform_queue, <-app_assoc.
Qed.

(** ** The history of one row of the dedup table *)

Definition stored (es : list effect) : list string :=
  omap (λ e, match e with Stored k _ => Some k | _ => None end) es.

(** the records are the consecutive changes of one row, decoding to [evs] *)
Fixpoint chain (prev : option AlertDedupEvent) (rs : list DynamoDBRecord)
    (evs : list AlertDedupEvent) : Prop :=
  match rs, evs with
  | [], [] => True
  | r :: rs, ev :: evs =>
      decode (OldImage r) = Ok prev ∧ decode (NewImage r) = Ok (Some ev) ∧ chain (Some ev) rs evs
  | _, _ => False
  end.

(** MarshalMap writes the field tagged id *)
Definition marshals_id : Prop :=
  ∀ a item, MarshalMap a = Ok item → item !! alertTablePartitionKey = Some (AV_S (ID a)).

Definition same_row (p ev : AlertDedupEvent) : Prop :=
  RuleID p = RuleID ev ∧ DeduplicationString p = DeduplicationString ev.

(** no two of the keys have the same digest *)
Definition no_collision (evs : list AlertDedupEvent) : Prop :=
  ∀ a b, a ∈ evs → b ∈ evs → generateAlertID a = generateAlertID b → alert_key a = alert_key b.

Lemma string_app_inj_l a b c : a +:+ b = a +:+ c → b = c.
Proof. induction a as [|x a IH]; [done|]. rewrite !string_app_cons. intros [= H]. auto. Qed.

(** before a colon, text without a colon is determined *)
Lemma colon_inj a b x y :
  contains_byte ":" a = false → contains_byte ":" b = false →
  a +:+ ":" +:+ x = b +:+ ":" +:+ y → a = b.
Proof.
  intros Ha Hb H. apply (f_equal (split_on ":")) in H.
  change (":" +:+ x) with (String ":" x) in H. change (":" +:+ y) with (String ":" y) in H.
  rewrite !split_on_app in H by done. by simplify_eq.
Qed.

Lemma itoa_no_colon z : contains_byte ":" (itoa z) = false.
Proof.
  assert (∀ p, contains_byte ":" (itoa (Zpos p)) = false) as Hp
    by (intros p; apply digits_no_byte; [done|]; exact (proj1 (itoa_digits (Zpos p) ltac:(lia)))).
  destruct z as [|p|p]; [done|apply Hp|].
  change (itoa (Zneg p)) with (String "-" (itoa (Zpos p))). simpl. apply Hp.
Qed.

Lemma alert_key_count p ev :
  same_row p ev → alert_key p = alert_key ev ↔ AlertCount p = AlertCount ev.
Proof.
  intros [Hr Hd]. unfold alert_key. rewrite Hr, Hd. split; [|by intros ->].
  intros H%string_app_inj_l%string_app_inj_l.
  apply colon_inj in H; [|apply itoa_no_colon..]. by apply (inj pretty) in H.
Qed.

(** the effects of the rest of a history, after the row was [prev] *)
Fixpoint history_effects (prev : option AlertDedupEvent) (evs : list AlertDedupEvent) : list effect :=
  match evs with
  | [] => []
  | ev :: evs => (event_effects prev ev).1 ++ history_effects (Some ev) evs
  end.

Lemma chain_effects prev rs evs :
  chain prev rs evs → Forall complete rs →
  batch_effects rs = history_effects prev evs ∧
  Forall (λ p, (event_effects p.1 p.2).2 = true) (zip (prev :: (Some <$> evs)) evs).
Proof.
  revert prev evs. induction rs as [|r rs IH]; intros prev [|ev evs]; [done..|].
  intros (Ho&Hn&Hc) [Hr Hrs]%Forall_cons. destruct (IH _ _ Hc Hrs) as [IHe IHc].
  unfold batch_effects, complete, record_effects in *. rewrite Ho, Hn in Hr.
  cbn [fmap list_fmap concat history_effects zip zip_with]. rewrite Ho, Hn, IHe.
  split; [done|]. by constructor.
Qed.

(** *** What an alert is *)

(** the title: the one the rule generated, or else its name, or else its identifier *)
Definition titled (rule : Rule) (ev : AlertDedupEvent) (title : string) : Prop :=
  match GeneratedTitle ev with
  | Some t => title = t
  | None => title = if decide (ruleDisplayName rule = "") then ruleID rule else ruleDisplayName rule
  end.
Definition display_name (rule : Rule) : option string :=
  if decide (ruleDisplayName rule = "") then None else Some (ruleDisplayName rule).

(** [item] is what is stored for the alert that [ev] opens *)
Definition stores (ev : AlertDedupEvent) (item : DynamoItem) : Prop :=
  ∃ rule a, GetRule (RuleID ev) (RuleVersion ev) = Ok rule ∧ MarshalMap a = Ok item ∧
    ID a = generateAlertID ev ∧ TimePartition a = defaultTimePartition ∧ Severity a = ruleSeverity rule ∧
    RuleDisplayName a = display_name rule ∧ titled rule ev (Title a) ∧ dedupEvent a = ev.

(** [body] announces the alert that [ev] opens *)
Definition announces (ev : AlertDedupEvent) (body : string) : Prop :=
  ∃ rule n, GetRule (RuleID ev) (RuleVersion ev) = Ok rule ∧ MarshalToString n = Ok body ∧
    AlertID n = generateAlertID ev ∧ PolicyID n = RuleID ev ∧ PolicyVersionID n = RuleVersion ev ∧
    CreatedAt n = CreationTime ev ∧ nSeverity n = ruleSeverity rule ∧ nType n = "RULE" ∧
    PolicyName n = display_name rule ∧ titled rule ev (nTitle n) ∧
    PolicyDescription n = ruleDescription rule ∧ Runbook n = ruleRunbook rule ∧ Tags n = ruleTags rule.

(** the attributes that a later event of the alert refreshes *)
Definition refreshes (ev : AlertDedupEvent) (attrs : DynamoItem) : Prop :=
  ∃ count logTypes time, MarshalValue (EInt64 (EventCount ev)) = Ok count ∧
    MarshalValue (EStringSlice (LogTypes ev)) = Ok logTypes ∧ MarshalValue (ETime (UpdateTime ev)) = Ok time ∧
    attrs = {["eventCount" := count; "logTypes" := logTypes; "updateTime" := time]}.

Lemma refreshes_absorb l x a b (item : DynamoItem) : refreshes l a → refreshes x b → a ∪ (b ∪ item) = a ∪ item.
Proof.
  intros (c&t&u&_&_&_&->) (c'&t'&u'&_&_&_&->). rewrite (assoc_L (∪)). f_equal.
Qed.

Lemma getAlertTitle_titled rule ev : titled rule ev (getAlertTitle rule ev) ∧ getRuleDisplayName rule = display_name rule.
Proof.
  unfold titled, getAlertTitle, display_name, getRuleDisplayName.
  assert (0 < slen (ruleDisplayName rule) ↔ ruleDisplayName rule ≠ "") as Hs.
  { unfold slen. destruct (ruleDisplayName rule); cbn [String.length]; split; intros; (lia || done). }
  destruct (decide (ruleDisplayName rule = "")); [rewrite !decide_False by tauto|rewrite !decide_True by tauto];
    by destruct (GeneratedTitle ev).
Qed.

Lemma event_effects_complete prev ev :
  marshals_id → (event_effects prev ev).2 = true →
  if needToCreateNewAlert prev ev
  then ∃ item body, (event_effects prev ev).1 = [Stored (generateAlertID ev) item; Notified body] ∧
    stores ev item ∧ announces ev body
  else ∃ attrs, (event_effects prev ev).1 = [Updated (generateAlertID ev) attrs] ∧ refreshes ev attrs.
Proof.
  intros Hid. unfold event_effects. destruct (needToCreateNewAlert prev ev).
  - unfold getRuleInfo. destruct (GetRule (RuleID ev) (RuleVersion ev)) as [rule|] eqn:Eg; [|done].
    destruct (MarshalMap (new_alert rule ev)) as [item|] eqn:Em; [|done].
    rewrite (Hid _ _ Em). cbn [ID new_alert].
    destruct (MarshalToString _) as [body|] eqn:En; [|done]. intros _. exists item, body.
    destruct (getAlertTitle_titled rule ev) as [Ht Hd]. split_and!; [done| |].
    + exists rule, (new_alert rule ev). by split_and!.
    + exists rule, (new_notification rule ev). by split_and!.
  - unfold updateExpression. destruct (MarshalValue (EInt64 _)) as [c|] eqn:E1; [|done]. cbn.
    destruct (MarshalValue (EStringSlice _)) as [l|] eqn:E2; [|done]. cbn.
    destruct (MarshalValue (ETime _)) as [t|] eqn:E3; [|done]. cbn. intros _. eexists. split; [done|]. by exists c, l, t.
Qed.

(** *** The alerts of a history *)

(** the first event of each alert count *)
Fixpoint firsts (seen : list Z) (evs : list AlertDedupEvent) : list AlertDedupEvent :=
  match evs with
  | [] => []
  | ev :: evs => if decide (AlertCount ev ∈ seen) then firsts seen evs else ev :: firsts (AlertCount ev :: seen) evs
  end.

(** the item of an alert: as it was stored, refreshed by the last event after the first *)
Definition settled (later : list AlertDedupEvent) (item : DynamoItem) (o : option DynamoItem) : Prop :=
  match last later with
  | None => o = Some item
  | Some l => ∃ attrs, refreshes l attrs ∧ o = Some (attrs ∪ item)
  end.

Definition of_count (c : Z) (evs : list AlertDedupEvent) : list AlertDedupEvent := filter (λ x, AlertCount x = c) evs.

Lemma firsts_ext s1 s2 evs :
  (∀ x, x ∈ evs → AlertCount x ∈ s1 ↔ AlertCount x ∈ s2) → firsts s1 evs = firsts s2 evs.
Proof.
  revert s1 s2. induction evs as [|ev evs IH]; intros s1 s2 H; [done|]. cbn.
  assert (AlertCount ev ∈ s1 ↔ AlertCount ev ∈ s2) as Hev by (apply H; by left).
  destruct (decide (AlertCount ev ∈ s1)); [rewrite decide_True by tauto|rewrite decide_False by tauto].
  - apply IH. intros x Hx. apply H. by right.
  - f_equal. apply IH. intros x Hx. rewrite !elem_of_cons. rewrite (H x) by (by right). done.
Qed.

Lemma firsts_elem seen evs f : f ∈ firsts seen evs → f ∈ evs ∧ AlertCount f ∉ seen.
Proof.
  revert seen. induction evs as [|ev evs IH]; intros seen; cbn; [by intros ?%elem_of_nil|].
  case_decide as Hd; [intros [? ?]%IH; split; [by right|done]|].
  intros [->|[? ?]%IH]%elem_of_cons; [split; [by left|done]|]. split; [by right|set_solver].
Qed.

Lemma firsts_length seen evs : (length (firsts seen evs) ≤ length evs)%nat.
Proof. revert seen. induction evs as [|ev evs IH]; intros seen; cbn; [done|]. case_decide; [specialize (IH seen)|specialize (IH (AlertCount ev :: seen))]; cbn; lia. Qed.

(** what the effects that follow [p] leave of an item, and send *)
Record followed (p : AlertDedupEvent) (evs : list AlertDedupEvent) (es : list effect) : Prop := {
  fo_current item : settled (of_count (AlertCount p) evs) item (foldl (perform_at (generateAlertID p)) (Some item) es);
  fo_new f o : f ∈ firsts [AlertCount p] evs → ∃ item, stores f item ∧
    settled (tail (of_count (AlertCount f) evs)) item (foldl (perform_at (generateAlertID f)) o es);
  fo_other k o : k ∉ generateAlertID <$> p :: evs → foldl (perform_at k) o es = o;
  fo_sent : Forall2 announces (firsts [AlertCount p] evs) (notified es);
  fo_puts : length (stored es) = length (firsts [AlertCount p] evs);
  fo_calls : (length es = length evs + length (firsts [AlertCount p] evs))%nat
}.

Lemma of_count_cons_ne c ev evs : AlertCount ev ≠ c → of_count c (ev :: evs) = of_count c evs.
Proof. intros H. unfold of_count. by rewrite filter_cons, decide_False. Qed.
Lemma of_count_cons_eq ev evs : of_count (AlertCount ev) (ev :: evs) = ev :: of_count (AlertCount ev) evs.
Proof. unfold of_count. by rewrite filter_cons, decide_True. Qed.

Lemma perform_at_ne k key attrs o : key ≠ k → perform_at k o (Updated key attrs) = o.
Proof. intros H. cbn. by rewrite decide_False. Qed.

(** an event of the current alert *)
Lemma followed_update p ev evs es attrs :
  AlertCount p = AlertCount ev → generateAlertID p = generateAlertID ev →
  (∀ x, x ∈ evs → AlertCount x ≠ AlertCount ev → generateAlertID x ≠ generateAlertID ev) →
  refreshes ev attrs → followed ev evs es → followed p (ev :: evs) (Updated (generateAlertID ev) attrs :: es).
Proof.
  intros Hc Hid Hne Ha [H1 H2 H3 H4 H5 H6].
  assert (firsts [AlertCount p] (ev :: evs) = firsts [AlertCount ev] evs) as Hf.
  { cbn [firsts]. rewrite Hc. by rewrite decide_True by (by left). }
  split; rewrite ?Hf.
  - intros item. rewrite Hc, Hid, of_count_cons_eq. cbn [foldl perform_at]. rewrite decide_True by done.
    change (default {[alertTablePartitionKey := AV_S (generateAlertID ev)]} (Some item)) with item.
    specialize (H1 (attrs ∪ item)). unfold settled in *. rewrite last_cons.
    destruct (last (of_count (AlertCount ev) evs)) as [l|]; [|by exists attrs].
    destruct H1 as (attrs'&Hl&->). exists attrs'. split; [done|]. by rewrite (refreshes_absorb l ev attrs' attrs).
  - intros f o Hin. destruct (firsts_elem _ _ _ Hin) as [Hfe Hfc].
    assert (AlertCount f ≠ AlertCount ev) as Hfn by (intros E; apply Hfc; rewrite E; by left).
    cbn [foldl]. rewrite perform_at_ne by (apply not_eq_sym; by apply Hne). rewrite of_count_cons_ne by done. by apply H2.
  - intros k o Hk. cbn [foldl]. rewrite !fmap_cons, !not_elem_of_cons in Hk. rewrite perform_at_ne by (intros <-; tauto).
    apply H3. rewrite fmap_cons, not_elem_of_cons. tauto.
  - done.
  - done.
  - cbn. lia.
Qed.

(** an event that opens an alert *)
Lemma followed_new p ev evs es item body :
  Forall (λ x, AlertCount p < AlertCount x) (ev :: evs) →
  (∀ x, x ∈ evs → AlertCount x ≠ AlertCount ev → generateAlertID x ≠ generateAlertID ev) →
  generateAlertID p ∉ generateAlertID <$> ev :: evs →
  stores ev item → announces ev body → followed ev evs es →
  followed p (ev :: evs) (Stored (generateAlertID ev) item :: Notified body :: es).
Proof.
  intros Hlt Hne Hp Hst Han [H1 H2 H3 H4 H5 H6]. rewrite Forall_forall in Hlt.
  assert (firsts [AlertCount p] (ev :: evs) = ev :: firsts [AlertCount ev] evs) as Hf.
  { pose proof (Hlt ev ltac:(by left)). cbn [firsts]. rewrite decide_False by (rewrite list_elem_of_singleton; lia).
    f_equal. apply firsts_ext. intros x Hx. pose proof (Hlt x ltac:(by right)). rewrite !elem_of_cons. intuition lia. }
  assert (∀ k o, generateAlertID ev ≠ k → foldl (perform_at k) o (Stored (generateAlertID ev) item :: Notified body :: es) =
    foldl (perform_at k) o es) as Hskip.
  { intros k o Hk. cbn [foldl perform_at]. by rewrite decide_False. }
  split; rewrite ?Hf.
  - intros item0. assert (of_count (AlertCount p) (ev :: evs) = []) as ->.
    { apply elem_of_nil_inv. intros x [E Hx]%list_elem_of_filter. specialize (Hlt x Hx). lia. }
    rewrite Hskip by (intros E; apply Hp; rewrite <- E; by left). by rewrite H3.
  - intros f o [->|Hin]%elem_of_cons.
    + exists item. split; [done|]. rewrite of_count_cons_eq. cbn [foldl perform_at tail].
      rewrite decide_True by done. apply H1.
    + destruct (firsts_elem _ _ _ Hin) as [Hfe Hfc].
      assert (AlertCount f ≠ AlertCount ev) as Hfn by (intros E; apply Hfc; rewrite E; by left).
      rewrite Hskip by (apply not_eq_sym; by apply Hne). rewrite of_count_cons_ne by done. by apply H2.
  - intros k o Hk. rewrite !fmap_cons, !not_elem_of_cons in Hk. rewrite Hskip by (intros <-; tauto).
    apply H3. rewrite fmap_cons, not_elem_of_cons. tauto.
  - by constructor.
  - change (stored (_ :: _ :: es)) with (generateAlertID ev :: stored es). cbn [length]. by rewrite H5.
  - cbn [length]. lia.
Qed.

(** events of one row with different counts have different identifiers *)
Definition distinct_ids (evs : list AlertDedupEvent) : Prop :=
  ∀ a b, a ∈ evs → b ∈ evs → AlertCount a ≠ AlertCount b → generateAlertID a ≠ generateAlertID b.

Lemma row_distinct_ids p evs : Forall (same_row p) evs → no_collision (p :: evs) → distinct_ids (p :: evs).
Proof.
  intros Hrow Hn a b Ha Hb Hne Hid. apply Hne. apply (Hn a b Ha Hb) in Hid.
  assert (∀ x, x ∈ p :: evs → same_row p x) as Hall.
  { intros x [->|Hx]%elem_of_cons; [by split|]. rewrite Forall_forall in Hrow. auto. }
  apply alert_key_count in Hid; [done|]. pose proof (Hall a Ha) as [? ?]. pose proof (Hall b Hb) as [? ?]. split; congruence.
Qed.

Lemma row_same_id p evs a b :
  Forall (same_row p) evs → a ∈ p :: evs → b ∈ p :: evs → AlertCount a = AlertCount b → generateAlertID a = generateAlertID b.
Proof.
  intros Hrow Ha Hb Hc. assert (∀ x, x ∈ p :: evs → same_row p x) as Hall.
  { intros x [->|Hx]%elem_of_cons; [by split|]. rewrite Forall_forall in Hrow. auto. }
  unfold generateAlertID. f_equal. f_equal. apply alert_key_count; [|done].
  pose proof (Hall a Ha) as [? ?]. pose proof (Hall b Hb) as [? ?]. split; congruence.
Qed.

Lemma firsts_ids seen evs : distinct_ids evs → NoDup (generateAlertID <$> firsts seen evs).
Proof.
  revert seen. induction evs as [|ev evs IH]; intros seen Hd; cbn; [constructor|].
  assert (distinct_ids evs) as Hd' by (intros a b Ha Hb; apply Hd; by right).
  case_decide; [by apply IH|]. cbn. constructor; [|by apply IH].
  intros (x&Heq&[Hx Hc]%firsts_elem)%list_elem_of_fmap. revert Heq. apply Hd; [by left|by right|]. set_solver.
Qed.

(** every event has the identifier of the first one of its count *)
Lemma firsts_cover seen evs x :
  (∀ a b, a ∈ evs → b ∈ evs → AlertCount a = AlertCount b → generateAlertID a = generateAlertID b) →
  x ∈ evs → AlertCount x ∉ seen → generateAlertID x ∈ generateAlertID <$> firsts seen evs.
Proof.
  revert seen. induction evs as [|ev evs IH]; intros seen Hid Hx Hc; [by apply elem_of_nil in Hx|]. cbn.
  assert (∀ a b, a ∈ evs → b ∈ evs → AlertCount a = AlertCount b → generateAlertID a = generateAlertID b) as Hid'
    by (intros a b Ha Hb; apply Hid; by right).
  destruct (decide (AlertCount x = AlertCount ev)) as [E|E].
  - rewrite decide_False by congruence. cbn. rewrite (Hid x ev); [by left|done|by left|done].
  - apply elem_of_cons in Hx as [->|Hx]; [done|]. case_decide; [by apply IH|]. cbn. right. apply IH; [done|done|set_solver].
Qed.

Lemma history_followed p evs :
  marshals_id →
  Forall (λ q, (event_effects q.1 q.2).2 = true) (zip (Some p :: (Some <$> evs)) evs) →
  Forall (same_row p) evs → StronglySorted Z.le (AlertCount <$> p :: evs) → distinct_ids (p :: evs) →
  followed p evs (history_effects (Some p) evs).
Proof.
  intros Hid. revert p. induction evs as [|ev evs IH]; intros p Hc Hrow Hs Hn.
  { split; try done. intros f o Hf. by apply elem_of_nil in Hf. }
  apply Forall_cons in Hc as [Hc Hcs], Hrow as [Hr Hrow].
  apply StronglySorted_cons in Hs as [Hle Hs].
  assert (followed ev evs (history_effects (Some ev) evs)) as Hok.
  { apply IH; [done| |done|].
    - eapply Forall_impl; [exact Hrow|]. unfold same_row in *. intros x ?. destruct_and!; split; congruence.
    - intros a b Ha Hb. apply Hn; by right. }
  assert (∀ x, x ∈ evs → AlertCount x ≠ AlertCount ev → generateAlertID x ≠ generateAlertID ev) as Hne.
  { intros x Hx. apply Hn; [by right; right|by right; left]. }
  cbn [history_effects]. simpl in Hc. pose proof (event_effects_complete _ _ Hid Hc) as He.
  unfold needToCreateNewAlert in He.
  destruct (decide (AlertCount p = AlertCount ev)) as [Hcnt|Hcnt].
  - rewrite bool_decide_eq_false_2 in He by tauto. destruct He as (attrs&->&Ha).
    apply followed_update; try done. unfold generateAlertID. by rewrite (proj2 (alert_key_count p ev Hr) Hcnt).
  - rewrite bool_decide_eq_true_2 in He by done. destruct He as (item&body&->&Hst&Han).
    assert (Forall (λ x, AlertCount p < AlertCount x) (ev :: evs)) as Hlt.
    { apply StronglySorted_cons in Hs as [Hge _]. apply Forall_cons in Hle as [Hle _]. constructor; [lia|].
      change (Forall (Z.le (AlertCount ev)) (AlertCount <$> evs)) in Hge. rewrite Forall_fmap in Hge.
      eapply Forall_impl; [exact Hge|]. cbn. lia. }
    apply followed_new; try done. intros (x&Heq&Hx)%list_elem_of_fmap. rewrite Forall_forall in Hlt.
    revert Heq. apply Hn; [by left|by right|]. specialize (Hlt x Hx). lia.
Qed.

(** *** The calls of a run *)

Lemma Handle_calls w old ev w' :
  Handle w old ev = (w', None) →
  puts w' = (puts w + length (stored (event_effects old ev).1))%nat ∧
  sends w' = (sends w + length (notified (event_effects old ev).1))%nat ∧
  (puts w' + updates w' + sends w' = puts w + updates w + sends w + length (event_effects old ev).1)%nat.
Proof.
  unfold Handle, event_effects. destruct (needToCreateNewAlert old ev).
  - unfold handleNewAlert. destruct (getRuleInfo ev) as [rule|]; [|done].
    unfold storeNewAlert. destruct (MarshalMap _) as [item|]; [|done]. unfold PutItem, put.
    destruct (item !! alertTablePartitionKey) as [[key| | | |]|]; destruct (put_error (puts w)); try done.
    unfold sendAlertNotification. destruct (MarshalToString _); [|done]. unfold SendMessage. cbn [sends].
    destruct (send_error (sends w)); [done|]. intros [= <-]. cbn. lia.
  - unfold updateExistingAlert. destruct (updateExpression ev); [|done]. unfold UpdateItem.
    destruct (update_error (updates w)); [done|]. intros [= <-]. cbn. lia.
Qed.

Lemma reporterHandler_calls prev rs evs w w' :
  chain prev rs evs → reporterHandler w None rs = (w', None) →
  let es := history_effects prev evs in
  puts w' = (puts w + length (stored es))%nat ∧ sends w' = (sends w + length (notified es))%nat ∧
  (puts w' + updates w' + sends w' = puts w + updates w + sends w + length es)%nat.
Proof.
  revert prev evs w. induction rs as [|r rs IH]; intros prev [|ev evs] w; try done.
  { intros _ [= <-]. cbn. lia. }
  intros (Ho&Hn&Hch). cbn [reporterHandler history_effects]. rewrite Ho, Hn.
  destruct (Handle w prev ev) as [w1 [e|]] eqn:Eh; [done|]. intros Hr.
  destruct (Handle_calls _ _ _ _ Eh) as (P1&S1&L1). destruct (IH _ _ _ Hch Hr) as (P2&S2&L2).
  unfold stored, notified in *. cbv zeta in *. rewrite !omap_app, !length_app. lia.
Qed.

(** C5: alerts are created once.  For the history of one row of the dedup
    table, from its creation on, whose alert count never decreases, if no two
    of its alert keys have the same digest, and when the run succeeds, one
    alert is stored and one notification sent for the first event of each
    alert count, and for no other: the queue has received exactly their
    notifications, in order, each naming its alert, and the table holds under
    their different ids what was stored for them, with the event count, the
    log types and the update time of the last event of the count; no other
    item changed, and each event made one put and one send, or one update. *)
Theorem one_alert_per_count w rs w' ev evs :
  marshals_id → chain None rs (ev :: evs) → Forall (same_row ev) evs →
  StronglySorted Z.le (AlertCount <$> ev :: evs) → no_collision (ev :: evs) →
  reporterHandler w None rs = (w', None) →
  let all := ev :: evs in
  let alerts := firsts [] all in
  NoDup (generateAlertID <$> alerts) ∧
  (∃ bodies, Forall2 announces alerts bodies ∧ alertingQueue w' = alertingQueue w ++ bodies) ∧
  (∀ f, f ∈ alerts → ∃ item, stores f item ∧
     settled (tail (of_count (AlertCount f) all)) item (alertsTable w' !! generateAlertID f)) ∧
  (∀ k, k ∉ generateAlertID <$> alerts → alertsTable w' !! k = alertsTable w !! k) ∧
  (puts w' = puts w + length alerts ∧ sends w' = sends w + length alerts ∧
   updates w' = updates w + (length all - length alerts))%nat.
Proof.
  intros Hid Hch Hrow Hs Hn Hrun all alerts.
  destruct (reporterHandler_calls _ _ _ _ _ Hch Hrun) as (Hputs&Hsends&Hcalls).
  destruct (reporterHandler_spec _ _ _ _ Hrun) as (es&_&He&Hnone&_). destruct (Hnone eq_refl) as [-> Hc].
  destruct (chain_effects _ _ _ Hch Hc) as [Heff Hcs]. rewrite Heff in He. apply Forall_cons in Hcs as [Hc0 Hcs].
  pose proof (event_effects_complete _ _ Hid Hc0) as (item&body&E&Hst&Han).
  cbn [history_effects fst snd] in *. rewrite E in *. clear E.
  pose proof (row_distinct_ids ev evs Hrow Hn) as Hdist.
  destruct (history_followed ev evs Hid Hcs Hrow Hs Hdist) as [H1 H2 H3 H4 H5 H6].
  set (es := history_effects (Some ev) evs) in *.
  assert (alerts = ev :: firsts [AlertCount ev] evs) as Hal.
  { unfold alerts, all. cbn [firsts]. by rewrite decide_False by apply not_elem_of_nil. }
  assert (∀ x, x ∈ alerts → x ∈ all) as Hsub by (intros x Hx; by apply firsts_elem in Hx as [? _]).
  assert (∀ k, alertsTable w' !! k = foldl (perform_at k) (alertsTable w !! k) (Stored (generateAlertID ev) item :: Notified body :: es)) as Ht.
  { intros k. change (alertsTable w') with (state_of w').1. rewrite He. apply perform_lookup. }
  split; [|split; [|split; [|split]]].
  - apply (firsts_ids [] all Hdist).
  - exists (body :: notified es). split; [rewrite Hal; by constructor|].
    change (alertingQueue w') with (state_of w').2. rewrite He. apply perform_queue.
  - intros f Hf. rewrite Hal in Hf. apply elem_of_cons in Hf as [->|Hf].
    + exists item. split; [done|]. unfold all. rewrite of_count_cons_eq, Ht. cbn [foldl perform_at tail].
      rewrite decide_True by done. apply H1.
    + destruct (H2 f (alertsTable w !! generateAlertID f) Hf) as (it&Hit&Hset). exists it. split; [done|].
      destruct (firsts_elem _ _ _ Hf) as [Hfe Hfc].
      assert (AlertCount f ≠ AlertCount ev) as Hfn by (intros Ec; apply Hfc; rewrite Ec; by left).
      unfold all. rewrite of_count_cons_ne by done. rewrite Ht. cbn [foldl perform_at].
      rewrite decide_False by (apply Hdist; [by left|by right|done]). done.
  - intros k Hk. rewrite Ht. cbn [foldl perform_at].
    assert (k ∉ generateAlertID <$> ev :: evs) as Hk'.
    { intros (x&->&Hx)%list_elem_of_fmap. apply Hk, (firsts_cover [] all x); [|done|apply not_elem_of_nil].
      intros a b Ha Hb Hab. by apply row_same_id with ev evs. }
    rewrite decide_False; [by apply H3|]. intros <-. apply Hk'. by left.
  - change (stored (_ ++ es)) with (generateAlertID ev :: stored es) in Hputs.
    change (notified (_ ++ es)) with (body :: notified es) in Hsends.
    pose proof (firsts_length [AlertCount ev] evs).
    apply Forall2_length in H4. rewrite length_app in Hcalls. unfold all. rewrite Hal. cbn [length] in *. lia.
Qed.

(** ** Diagnostics that are lost *)

(** a record that cannot be decoded is logged with a nil error *)
Lemma unmarshal_error_not_logged w r rs err :
  decode (OldImage r) = Err err →
  reporterHandler w None (r :: rs) = reporterHandler (log w None) None rs.
Proof. intros H. cbn [reporterHandler]. by rewrite H. Qed.

(** an accessor that panics with a value that is no error makes the record
    look deleted *)
Lemma panic_swallowed m v what :
  m !! "ruleId" = Some v → avString v = inr (PanicOther what) →
  (∀ k, k ∈ ["ruleVersion"; "dedup"; "logTypes"] → is_Some (m !! k)) →
  (∀ k, k ∈ ["alertCount"; "alertCreationTime"; "alertUpdateTime"; "eventCount"] → ∃ z, int_attr m k z) →
  decode (Some m) = Ok None.
Proof.
  intros Hv Hp Hs Hi. unfold FromDynamodDBAttribute, getIntegerAttribute, getAttribute. rewrite Hv.
  destruct (Hs "ruleVersion") as [? ->]; [set_solver|]. destruct (Hs "dedup") as [? ->]; [set_solver|].
  destruct (Hi "alertCount") as (?&?&->&E1); [set_solver|]. csimpl. rewrite E1.
  destruct (Hi "alertCreationTime") as (?&?&->&E2); [set_solver|]. csimpl. rewrite E2.
  destruct (Hi "alertUpdateTime") as (?&?&->&E3); [set_solver|]. csimpl. rewrite E3.
  destruct (Hi "eventCount") as (?&?&->&E4); [set_solver|]. csimpl. rewrite E4.
  destruct (Hs "logTypes") as [? ->]; [set_solver|]. csimpl. by rewrite Hp.
Qed.
End Forwarder.

Arguments DynamoDBRecord : clear implicits.

(** ** Alert ids *)

(** an alert id is 32 hexadecimal digits, which is what the alerts API
    accepts; for rule ids without a colon, the text that is digested
    determines the rule, the alert count and the dedup string. *)
Theorem generateAlertID_correct a b :
  contains_byte ":" (RuleID a) = false → contains_byte ":" (RuleID b) = false →
  String.length (generateAlertID a) = 32%nat ∧ all_bytes is_hex (generateAlertID a) = true ∧
  (alert_key a = alert_key b ↔
   RuleID a = RuleID b ∧ AlertCount a = AlertCount b ∧ DeduplicationString a = DeduplicationString b).
Proof.
  intros Ha Hb. destruct (md5_hex_spec (alert_key a)) as [Hl Hh]. split_and!; [done|done|].
  unfold alert_key. split; [|by intros (->&->&->)].
  intros H. pose proof (colon_inj _ _ _ _ Ha Hb H) as Hr. rewrite Hr in H.
  apply string_app_inj_l, string_app_inj_l in H.
  pose proof (colon_inj _ _ _ _ (itoa_no_colon _) (itoa_no_colon _) H) as Hc. rewrite Hc in H.
  apply string_app_inj_l, string_app_inj_l in H. split_and!; [done| |done].
  by apply (inj pretty) in Hc.
Qed.

(** a colon in a rule id lets two rules share an alert *)
Example alert_key_ambiguous :
  let ev rule count dedup :=
    {| RuleID := rule; RuleVersion := ""; DeduplicationString := dedup; CreationTime := 0;
       UpdateTime := 0; EventCount := 0; LogTypes := []; GeneratedTitle := None; AlertCount := count |} in
  generateAlertID (ev "a" 1 "2:b") = generateAlertID (ev "a:1" 2 "b").
Proof. reflexivity. Qed.

(** ** Concrete instances *)

Definition demo_event (count events : Z) : AlertDedupEvent :=
  {| RuleID := "Login"; RuleVersion := "v1"; DeduplicationString := "bob"; CreationTime := Unix 1600000000;
     UpdateTime := Unix (1600000000 + events); EventCount := events; LogTypes := ["AWS.CloudTrail"];
     GeneratedTitle := None; AlertCount := count |}.

Notation demoEV := (string + Z)%type (only parsing).
Definition demo_string (v : demoEV) : string + panic_value :=
  match v with inl s => inl s | inr _ => inr (PanicError (ErrMsg "IncompatibleDynamoDBTypeError")) end.
Definition demo_set (v : demoEV) : list string + panic_value :=
  match demo_string v with inl s => inl [s] | inr p => inr p end.
Definition demo_integer (v : demoEV) : result Z + panic_value :=
  match v with inr z => inl (Ok z) | inl _ => inr (PanicError (ErrMsg "IncompatibleDynamoDBTypeError")) end.

Definition demo_image (count events : Z) : gmap string demoEV :=
  list_to_map [("ruleId", inl "Login"); ("ruleVersion", inl "v1"); ("dedup", inl "bob");
    ("alertCount", inr count); ("alertCreationTime", inr 1600000000);
    ("alertUpdateTime", inr (1600000000 + events)); ("eventCount", inr events);
    ("logTypes", inl "AWS.CloudTrail")].

Definition demo_record (old new : option (Z * Z)) : DynamoDBRecord demoEV :=
  {| OldImage := (λ p, demo_image p.1 p.2) <$> old; NewImage := (λ p, demo_image p.1 p.2) <$> new |}.

Definition demo_rule (id version : string) : result Rule :=
  Ok {| ruleID := id; ruleDisplayName := ""; ruleDescription := "d"; ruleRunbook := "r";
        ruleSeverity := "HIGH"; ruleTags := [] |}.
Definition demo_marshal (a : Alert) : result DynamoItem :=
  Ok {[ "id" := AV_S (ID a); "title" := AV_S (Title a);
        "eventCount" := AV_N (itoa (EventCount (dedupEvent a))) ]}.
Definition demo_value (v : ExprValue) : result AttributeValue :=
  Ok match v with EInt64 z => AV_N (itoa z) | EStringSlice l => AV_L (AV_S <$> l)
             | ETime t => AV_S (itoa t) end.
Definition demo_json (n : AlertNotification) : result string := Ok (nTitle n +:+ AlertID n).

Definition no_error (_ : nat) : option error := None.
Definition second_fails (n : nat) : option error :=
  if decide (n = 1%nat) then Some (ErrAWS "Throttling" "") else None.

Definition empty_world : world :=
  {| alertsTable := ∅; alertingQueue := []; puts := 0; updates := 0; sends := 0; logged := [] |}.

Definition demo_records : list (DynamoDBRecord demoEV) :=
  [demo_record None (Some (1, 1)); demo_record (Some (1, 1)) (Some (1, 5));
   demo_record (Some (1, 5)) (Some (2, 1))].

Notation demo_handler := (reporterHandler demo_rule demo_marshal demo_value demo_json no_error no_error).

Lemma FromDynamodDBAttribute_correct_witness :
  error_panics demo_string demo_set demo_integer ∧
  (FromDynamodDBAttribute demo_string demo_set demo_integer None = Ok None ∧
   ∀ m, (∀ ev, FromDynamodDBAttribute demo_string demo_set demo_integer (Some m) = Ok (Some ev) ↔
           decoded demo_string demo_set demo_integer m ev) ∧
        FromDynamodDBAttribute demo_string demo_set demo_integer (Some m) ≠ Ok None).
Proof.
  assert (error_panics demo_string demo_set demo_integer) as H.
  { split; [|split]; intros [s|z] p [= <-]; eauto. }
  split; [exact H|]. exact (FromDynamodDBAttribute_correct demo_string demo_set demo_integer H).
Defined.

Definition demo_run (send_error : nat → option error) (w : world) : world * option error :=
  demo_handler send_error demo_string demo_set demo_integer w None demo_records.

(** the second notification fails *)
Lemma reporterHandler_correct_witness :
  (demo_run second_fails empty_world).2 ≠ None ∧
  ∃ es, es `prefix_of` batch_effects demo_rule demo_marshal demo_value demo_json demo_string demo_set
                       demo_integer demo_records ∧
    (alertsTable (demo_run second_fails empty_world).1, alertingQueue (demo_run second_fails empty_world).1)
    = foldl perform (∅, []) es.
Proof.
  split; [vm_compute; discriminate|].
  destruct (reporterHandler_correct demo_rule demo_marshal demo_value demo_json no_error no_error
    second_fails demo_string demo_set demo_integer empty_world demo_records
    (demo_run second_fails empty_world).1 (demo_run second_fails empty_world).2
    (surjective_pairing _)) as (es&H1&H2&_).
  exists es. exact (conj H1 H2).
Defined.

Lemma retry_idempotent_witness :
  ∃ w1 e1 w2,
    demo_run second_fails empty_world = (w1, Some e1) ∧ demo_run second_fails w1 = (w2, None) ∧
    alertsTable w2 = (foldl perform (∅, []) (batch_effects demo_rule demo_marshal demo_value demo_json
                        demo_string demo_set demo_integer demo_records)).1.
Proof.
  set (w1 := (demo_run second_fails empty_world).1).
  destruct (demo_run second_fails empty_world) as [w1' [e1|]] eqn:E1; [|vm_compute in E1; discriminate].
  destruct (demo_run second_fails w1') as [w2 [e2|]] eqn:E2.
  { exfalso. vm_compute in E1. injection E1 as <- _. vm_compute in E2. discriminate. }
  exists w1', e1, w2. split; [done|]. split; [done|].
  exact (proj1 (retry_idempotent demo_rule demo_marshal demo_value demo_json no_error no_error
    second_fails demo_string demo_set demo_integer empty_world demo_records w1' e1 w2 E1 E2)).
Defined.

Lemma one_alert_per_count_witness :
  let w' := (demo_run no_error empty_world).1 in
  (∃ bodies, Forall2 (announces demo_rule demo_json) [demo_event 1 1; demo_event 2 1] bodies ∧ alertingQueue w' = [] ++ bodies) ∧
  (∃ item, stores demo_rule demo_marshal (demo_event 1 1) item ∧
     settled demo_value [demo_event 1 5] item (alertsTable w' !! generateAlertID (demo_event 1 1))) ∧
  puts w' = 2%nat ∧ updates w' = 1%nat.
Proof.
  intros w'.
  destruct (one_alert_per_count demo_rule demo_marshal demo_value demo_json no_error no_error
    no_error demo_string demo_set demo_integer empty_world demo_records
    w' (demo_event 1 1) [demo_event 1 5; demo_event 2 1])
    as (_&H2&H3&_&H4&_&H5).
  - intros a item [= <-]. by simplify_map_eq.
  - vm_compute. done.
  - repeat constructor.
  - cbn. repeat (constructor; [|repeat constructor; lia]). constructor.
  - intros a b Ha Hb. rewrite !elem_of_cons, elem_of_nil in Ha, Hb.
    destruct_or!; subst; intros H; (reflexivity || (vm_compute in H; discriminate H)).
  - vm_compute. reflexivity.
  - split; [exact H2|]. split; [apply H3; by left|]. split; [exact H4|exact H5].
Defined.

Lemma generateAlertID_correct_witness :
  contains_byte ":" (RuleID (demo_event 1 1)) = false ∧
  (alert_key (demo_event 1 1) = alert_key (demo_event 1 5) ↔
   "Login" = "Login" ∧ 1 = 1 ∧ "bob" = "bob").
Proof.
  split; [reflexivity|].
  exact (proj2 (proj2 (generateAlertID_correct (demo_event 1 1) (demo_event 1 5) eq_refl eq_refl))).
Defined.
