(* ===== verification/Base64.v ===== *)
(** * Go's base64.URLEncoding

    The padded encoding with the URL alphabet on byte strings, and the decoder,
    which skips line breaks and ignores trailing bits as the standard library
    does.  The pagination tokens of the alerts API travel in this form. *)

From S2P Require Import Prelude.
From Stdlib Require Import String.

#[local] Open Scope Z_scope.
#[local] Ltac Zify.zify_post_hook ::= Z.to_euclidean_division_equations.

Definition encodeURL : string := "ABCDEFGHIJKLMNOPQRSTUVWXYZabcdefghijklmnopqrstuvwxyz0123456789-_".

Definition byteZ (c : ascii) : Z := Z.of_nat (nat_of_ascii c).
Definition Zbyte (z : Z) : ascii := ascii_of_nat (Z.to_nat z).

Definition b64_char (i : Z) : ascii := default "="%char (String.get (Z.to_nat i) encodeURL).

Fixpoint index_from (c : ascii) (s : string) (i : Z) : option Z :=
  match s with
  | EmptyString => None
  | String a s' => if decide (a = c) then Some i else index_from c s' (i + 1)
  end.
Definition b64_index (c : ascii) : option Z := index_from c encodeURL 0.

Fixpoint b64_encode (s : string) : string :=
  match s with
  | EmptyString => EmptyString
  | String a EmptyString =>
      let a := byteZ a in
      String (b64_char (a / 4)) (String (b64_char (a mod 4 * 16)) "==")
  | String a (String b EmptyString) =>
      let a := byteZ a in let b := byteZ b in
      String (b64_char (a / 4)) (String (b64_char (a mod 4 * 16 + b / 16))
        (String (b64_char (b mod 16 * 4)) "="))
  | String a (String b (String c s')) =>
      let a := byteZ a in let b := byteZ b in let c := byteZ c in
      String (b64_char (a / 4)) (String (b64_char (a mod 4 * 16 + b / 16))
        (String (b64_char (b mod 16 * 4 + c / 64)) (String (b64_char (c mod 64)) (b64_encode s'))))
  end.

Fixpoint skip_newlines (s : string) : string :=
  match s with
  | EmptyString => EmptyString
  | String a s' =>
      if decide (a = ascii_of_nat 10 ∨ a = ascii_of_nat 13) then skip_newlines s'
      else String a (skip_newlines s')
  end.

Definition b64_corrupt : error := ErrMsg "illegal base64 data".
Definition b64_value (c : ascii) : result Z :=
  match b64_index c with Some i => Ok i | None => Err b64_corrupt end.

(** quantum by quantum; padding only at the very end *)
Fixpoint b64_quanta (s : string) : result string :=
  match s with
  | EmptyString => Ok EmptyString
  | String a (String b (String c (String d s'))) =>
      a ← b64_value a;
      b ← b64_value b;
      let b0 := Zbyte (a * 4 + b / 16) in
      if decide (c = "="%char) then
        if decide (d = "="%char ∧ s' = "") then Ok (String b0 "") else Err b64_corrupt
      else
        c ← b64_value c;
        let b1 := Zbyte (b mod 16 * 16 + c / 4) in
        if decide (d = "="%char) then
          if decide (s' = "") then Ok (String b0 (String b1 "")) else Err b64_corrupt
        else
          d ← b64_value d;
          rest ← b64_quanta s';
          Ok (String b0 (String b1 (String (Zbyte (c mod 4 * 64 + d)) rest)))
  | _ => Err b64_corrupt
  end.

Definition b64_decode (s : string) : result string := b64_quanta (skip_newlines s).

Example b64_example : b64_encode "light w" = "bGlnaHQgdw==" ∧ b64_decode "bGlnaHQgdw==" = Ok "light w".
Proof. split; reflexivity. Qed.

(** ** Decoding inverts encoding *)

Definition b64_char_ok (i : Z) : bool :=
  bool_decide (b64_index (b64_char i) = Some i) && bool_decide (b64_char i ≠ "="%char) &&
  bool_decide (b64_char i ≠ ascii_of_nat 10) && bool_decide (b64_char i ≠ ascii_of_nat 13).

Lemma b64_chars_ok : forallb b64_char_ok (seqZ 0 64) = true.
Proof. vm_compute. reflexivity. Qed.

Lemma b64_char_spec i :
  0 ≤ i < 64 → b64_value (b64_char i) = Ok i ∧ b64_char i ≠ "="%char ∧
    b64_char i ≠ ascii_of_nat 10 ∧ b64_char i ≠ ascii_of_nat 13.
Proof.
  intros Hi. pose proof b64_chars_ok as H. rewrite forallb_forall in H.
  specialize (H i). rewrite <-list_elem_of_In, elem_of_seqZ in H. specialize (H ltac:(lia)).
  unfold b64_char_ok in H. rewrite !andb_true_iff, !bool_decide_eq_true in H.
  destruct H as (((H1&H2)&H3)&H4). unfold b64_value. by rewrite H1.
Qed.

Lemma byteZ_range c : 0 ≤ byteZ c < 256.
Proof. unfold byteZ. pose proof (nat_ascii_bounded c). lia. Qed.

Lemma Zbyte_byteZ c : Zbyte (byteZ c) = c.
Proof. unfold Zbyte, byteZ. rewrite Nat2Z.id. apply ascii_nat_embedding. Qed.

Lemma skip_newlines_char i s :
  0 ≤ i < 64 → skip_newlines (String (b64_char i) s) = String (b64_char i) (skip_newlines s).
Proof.
  intros Hi. destruct (b64_char_spec i Hi) as (_&_&?&?). simpl. rewrite decide_False; naive_solver.
Qed.

(** induction three bytes at a time *)
Lemma string_ind3 (P : string → Prop) :
  P "" → (∀ a, P (String a "")) → (∀ a b, P (String a (String b ""))) →
  (∀ a b c s, P s → P (String a (String b (String c s)))) → ∀ s, P s.
Proof.
  intros H0 H1 H2 H3. fix IH 1. intros [|a [|b [|c s]]]; [exact H0|apply H1|apply H2|apply H3, IH].
Qed.

Lemma b64_value_char i : 0 ≤ i < 64 → b64_value (b64_char i) = Ok i.
Proof. apply b64_char_spec. Qed.

Lemma b64_char_not_pad i : 0 ≤ i < 64 → b64_char i ≠ "="%char.
Proof. apply b64_char_spec. Qed.

Lemma Zbyte_eq z c : z = byteZ c → Zbyte z = c.
Proof. intros ->. apply Zbyte_byteZ. Qed.

Lemma b64_roundtrip s : b64_decode (b64_encode s) = Ok s.
Proof.
  unfold b64_decode. induction s as [|a|a b|a b c s IH] using string_ind3; [done|..];
    cbn [b64_encode]; pose proof (byteZ_range a) as Ha; try pose proof (byteZ_range b) as Hb;
    try pose proof (byteZ_range c) as Hc; rewrite !skip_newlines_char by lia;
    [change (skip_newlines "==") with "=="|change (skip_newlines "=") with "="|];
    cbn [b64_quanta]; rewrite !b64_value_char by lia; run.
  - do 2 f_equal. apply Zbyte_eq. lia.
  - rewrite decide_False by (apply b64_char_not_pad; lia). cbn.
    f_equal. f_equal; [apply Zbyte_eq; lia|]. f_equal. apply Zbyte_eq. lia.
  - rewrite (decide_False (P := _ = _)) by (apply b64_char_not_pad; lia).
    run.
    rewrite (decide_False (P := _ = _)) by (apply b64_char_not_pad; lia).
    rewrite IH. cbn.
    f_equal. f_equal; [apply Zbyte_eq; lia|]. f_equal; [apply Zbyte_eq; lia|].
    f_equal. apply Zbyte_eq. lia.
Qed.
