(* ===== verification/AlertsApi.v ===== *)
(** * Alerts API

    Model of src/internal/log_analysis/alerts_api: table (the alerts table),
    api/list_alerts.go and api/get_alert.go (the events of an alert, read from
    the S3 objects of the rule matches and paginated with a token).  The
    DynamoDB client and its unmarshaller, S3 listing, S3 Select and the JSON
    encoder are parameters. *)

From S2P Require Import Prelude GoTime Glue S3Destination Base64.

#[local] Open Scope Z_scope.
#[local] Ltac Zify.zify_post_hook ::= Z.to_euclidean_division_equations.

(** ** time.ParseInLocation with the layout 20060102T150405Z *)

Definition parse_error : error := ErrMsg "parsing time".

(** two digits; one is enough unless [fixed] *)
Definition getnum (fixed : bool) (s : string) : result (Z * string) :=
  match s with
  | String a s1 =>
      match digit_of a with
      | None => Err parse_error
      | Some x =>
          let one := if fixed then Err parse_error else Ok (x, s1) in
          match s1 with
          | String b s2 => match digit_of b with Some y => Ok (x * 10 + y, s2) | None => one end
          | EmptyString => one
          end
      end
  | EmptyString => Err parse_error
  end.

Definition ranged (lo hi : Z) (r : result (Z * string)) : result (Z * string) :=
  match r with
  | Ok (x, s) => if decide (lo ≤ x < hi) then Ok (x, s) else Err parse_error
  | Err e => Err e
  end.

Definition getyear (s : string) : result (Z * string) :=
  match s with
  | String a (String b (String c (String d s'))) =>
      match parse_digits 0 (String a (String b (String c (String d "")))) with
      | Some y => Ok (y, s')
      | None => Err parse_error
      end
  | _ => Err parse_error
  end.

Definition skip (c : ascii) (s : string) : result string :=
  match s with
  | String a s' => if decide (a = c) then Ok s' else Err parse_error
  | EmptyString => Err parse_error
  end.

(** the digits that follow, their number and their value *)
Fixpoint digits_prefix (n : Z) (acc : Z) (s : string) : Z * Z * string :=
  match s with
  | EmptyString => (n, acc, s)
  | String c s' =>
      match digit_of c with
      | Some d => digits_prefix (n + 1) (acc * 10 + d) s'
      | None => (n, acc, s)
      end
  end.

(** an optional fraction of a second, accepted after the seconds *)
Definition getfrac (s : string) : result (Z * string) :=
  match s with
  | String "." s' =>
      let '(n, v, rest) := digits_prefix 0 0 s' in
      if decide (n = 0) then Ok (0, s)
      else if decide (v < 1000000000) then Ok (v * 10 ^ Z.max 0 (9 - n), rest)
      else Err parse_error
  | _ => Ok (0, s)
  end.

Definition daysIn (month year : Z) : Z :=
  if decide (month = 2 ∧ isLeap year = true) then 29 else daysBefore month - daysBefore (month - 1).

Definition ParseS3Timestamp (value : string) : result Time :=
  '(year, value) ← getyear value;
  '(month, value) ← ranged 1 13 (getnum true value);
  '(day, value) ← getnum true value;
  value ← skip "T" value;
  '(hour, value) ← ranged 0 24 (getnum false value);
  '(min, value) ← ranged 0 60 (getnum true value);
  '(sec, value) ← ranged 0 60 (getnum true value);
  '(nsec, value) ← getfrac value;
  value ← skip "Z" value;
  if decide (value ≠ "") then Err parse_error
  else if decide (day < 1 ∨ daysIn month year < day) then Err parse_error
  else Ok (Date year month day hour + min * (60 * Second) + sec * Second + nsec).

Definition timeFromS3ObjectKey (key : string) : result Time :=
  let keyParts := split_on "/" key in
  let timeInString := default "" (head (split_on "-" (default "" (last keyParts)))) in
  ParseS3Timestamp timeInString.

(** ** table/ *)

Record AlertItem := {
  AlertID : string;
  RuleID : string;
  RuleVersion : string;
  RuleDisplayName : option string;
  Title : option string;
  DedupString : string;
  CreationTime : Time;
  UpdateTime : Time;
  Severity : string;
  EventCount : Z;
  LogTypes : list string
}.

Definition RuleIDKey : string := "ruleId".
Definition AlertIDKey : string := "id".
Definition TimePartitionKey : string := "timePartition".
Definition TimePartitionValue : string := "defaultPartition".

Record AlertsTable := {
  AlertsTableName : string;
  RuleIDCreationTimeIndexName : string;
  TimePartitionCreationTimeIndexName : string
}.

(** dynamodb.QueryInput; the key condition is [key = value] *)
Record QueryInput {Key : Type} := {
  qTableName : string;
  qScanIndexForward : bool;
  qKeyCondition : string * string;
  qExclusiveStartKey : option Key;
  qIndexName : string;
  qLimit : option Z
}.
Arguments QueryInput : clear implicits.

Section Table.
Context {Raw Key : Type} (table : AlertsTable).
Context (Query : QueryInput Key → result (list Raw * option Key))  (* the last key, if any *)
        (GetItem : string → string → string → result Raw)          (* table, key name, key *)
        (UnmarshalListOfMaps : list Raw → result (list AlertItem))
        (UnmarshalMap : Raw → result AlertItem)
        (UnmarshalKey : string → result Key) (MarshalKey : Key → result string).

Definition table_list (ddbKey ddbValue : string) (exclusiveStartKey : option string)
    (pageSize : option Z) : result (list AlertItem * option string) :=
  index ← (if decide (ddbKey = RuleIDKey) then Ok (RuleIDCreationTimeIndexName table)
           else if decide (ddbKey = TimePartitionKey) then Ok (TimePartitionCreationTimeIndexName table)
           else Err (ErrMsg ("unknown key" +:+ ddbKey)));
  queryExclusiveStartKey ←
    match exclusiveStartKey with
    | None => Ok None
    | Some key => match UnmarshalKey key with
                  | Err e => Err (ErrWrap "failed to Unmarshal ExclusiveStartKey" e)
                  | Ok k => Ok (Some k)
                  end
    end;
  match Query {| qTableName := AlertsTableName table; qScanIndexForward := false;
                 qKeyCondition := (ddbKey, ddbValue); qExclusiveStartKey := queryExclusiveStartKey;
                 qIndexName := index; qLimit := pageSize |} with
  | Err e => Err (ErrWrap ("QueryInput() failed for " +:+ ddbKey +:+ "," +:+ ddbValue) e)
  | Ok (items, lastKey) =>
      match UnmarshalListOfMaps items with
      | Err e => Err (ErrWrap "UnmarshalListOfMaps() failed" e)
      | Ok summaries =>
          match lastKey with
          | None => Ok (summaries, None)
          | Some k => match MarshalKey k with
                      | Err e => Err (ErrWrap "failed to Marshal LastEvaluatedKey)" e)
                      | Ok s => Ok (summaries, Some s)
                      end
          end
      end
  end.

Definition ListByRule (ruleID : string) : option string → option Z → result (list AlertItem * option string) :=
  table_list RuleIDKey ruleID.

Definition ListAll : option string → option Z → result (list AlertItem * option string) :=
  table_list TimePartitionKey TimePartitionValue.

Definition table_GetAlert (alertID : string) : result AlertItem :=
  match GetItem (AlertsTableName table) AlertIDKey alertID with
  | Err e => Err (ErrWrap ("GetItem() failed for: " +:+ alertID) e)
  | Ok item =>
      match UnmarshalMap item with
      | Err e => Err (ErrWrap ("UnmarshalMap() failed for: " +:+ alertID) e)
      | Ok alertItem => Ok alertItem
      end
  end.
End Table.

(** ** api/list_alerts.go *)

Record AlertSummary := {
  sAlertID : string;
  sRuleID : string;
  sRuleDisplayName : option string;
  sRuleVersion : string;
  sDedupString : string;
  sCreationTime : Time;
  sUpdateTime : Time;
  sEventsMatched : Z;
  sSeverity : string;
  sTitle : string
}.

Definition getAlertTitle (alert : AlertItem) : string :=
  match Title alert with
  | Some t => t
  | None => match RuleDisplayName alert with Some n => n | None => RuleID alert end
  end.

Definition summary_of (item : AlertItem) : AlertSummary :=
  {| sAlertID := AlertID item; sRuleID := RuleID item; sDedupString := DedupString item;
     sCreationTime := CreationTime item; sSeverity := Severity item; sUpdateTime := UpdateTime item;
     sEventsMatched := EventCount item; sRuleDisplayName := RuleDisplayName item;
     sTitle := getAlertTitle item; sRuleVersion := RuleVersion item |}.

Definition alertItemsToAlertSummary (items : list AlertItem) : list AlertSummary := summary_of <$> items.

Record ListAlertsInput := {
  liRuleID : option string; liPageSize : option Z; liExclusiveStartKey : option string }.
Record ListAlertsOutput := { loAlerts : list AlertSummary; loLastEvaluatedKey : option string }.

Definition ListAlerts
    (listByRule : string → option string → option Z → result (list AlertItem * option string))
    (listAll : option string → option Z → result (list AlertItem * option string))
    (input : ListAlertsInput) : result ListAlertsOutput :=
  '(alertItems, lastKey) ←
    match liRuleID input with
    | Some ruleID => listByRule ruleID (liExclusiveStartKey input) (liPageSize input)
    | None => listAll (liExclusiveStartKey input) (liPageSize input)
    end;
  Ok {| loAlerts := alertItemsToAlertSummary alertItems; loLastEvaluatedKey := lastKey |}.

(** ** api/api.go: pagination tokens *)

Record LogTypeToken := { S3ObjectKey : string; EventIndex : Z }.

(** the outer [None] is a nil map, the inner one a nil pointer *)
Record EventPaginationToken := { LogTypeToToken : option (gmap string (option LogTypeToken)) }.

Definition newPaginationToken : EventPaginationToken := {| LogTypeToToken := Some ∅ |}.

(** reading a nil map gives nil, writing to it panics *)
Definition token_get (t : EventPaginationToken) (logType : string) : option LogTypeToken :=
  match LogTypeToToken t with
  | None => None
  | Some m => mjoin (m !! logType)
  end.

Definition token_set (t : EventPaginationToken) (logType : string) (v : LogTypeToken)
    : outcome EventPaginationToken :=
  match LogTypeToToken t with
  | None => Panic "assignment to entry in nil map"
  | Some m => Ret {| LogTypeToToken := Some (<[logType := Some v]> m) |}
  end.

Definition encode (Marshal : EventPaginationToken → result string) (t : EventPaginationToken)
    : result string :=
  match Marshal t with
  | Err e => Err e
  | Ok marshaled => Ok (b64_encode marshaled)
  end.

Definition decodePaginationToken (Unmarshal : string → result EventPaginationToken) (token : string)
    : result EventPaginationToken :=
  unmarshaled ← b64_decode token;
  Unmarshal unmarshaled.

(** ** api/get_alert.go *)

(** an event of the S3 Select stream *)
Inductive SelectEvent :=
| RecordsEvent (Payload : string)
| StatsEvent
| OtherEvent.

Definition recordDelimiter : ascii := ascii_of_nat 10.

Fixpoint payload (events : list SelectEvent) : string :=
  match events with
  | [] => ""
  | RecordsEvent p :: events => p +:+ payload events
  | _ :: events => payload events
  end.

Fixpoint take_records (records : list string) (exclusiveStartIndex maxResults : Z)
    (currentIndex : Z) (result : list string) : list string * Z :=
  match records with
  | [] => (result, currentIndex)
  | record :: records =>
      if decide (record = "") then take_records records exclusiveStartIndex maxResults currentIndex result
      else if decide (maxResults ≤ Z.of_nat (length result)) then (result, currentIndex)
      else
        let currentIndex := currentIndex + 1 in
        if decide (currentIndex ≤ exclusiveStartIndex)
        then take_records records exclusiveStartIndex maxResults currentIndex result
        else take_records records exclusiveStartIndex maxResults currentIndex (result ++ [record])
  end.

Definition select_query (alertID : string) : string :=
  "SELECT * FROM S3Object o WHERE o.p_alert_id='" +:+ alertID +:+ "'".

Record GetAlertInput := {
  giAlertID : string; giEventsPageSize : Z; giEventsExclusiveStartKey : option string }.
Record GetAlertOutput := {
  goSummary : AlertSummary; goEvents : list string; goEventsLastEvaluatedKey : string }.

(** the enumeration of the hourly partitions of an alert; the number of hours
    bounds the rounds *)
Fixpoint partition_loop (fuel : nat) (logType : string) (updateTime nextTime : Time)
    : outcome (list string) :=
  match fuel with
  | O => Ret []
  | S fuel =>
      if After nextTime updateTime then Ret []
      else
        next ← Next GlueTableHourly nextTime;
        rest ← partition_loop fuel logType updateTime next;
        Ret (GetPartitionPrefix RuleData logType GlueTableHourly nextTime :: rest)
  end.

Definition partitionLocations (logType : string) (alert : AlertItem) : outcome (list string) :=
  partition_loop (Z.to_nat ((UpdateTime alert - CreationTime alert) / Hour + 2)) logType
    (UpdateTime alert) (CreationTime alert).

Section Events.
(** ListObjectsV2Pages: the pages it delivers for a prefix and a StartAfter,
    and the error it ends with; SelectObjectContent: the stream and its error *)
Context (ListObjectsV2Pages : string → option string → list (list string) * option error)
        (SelectObjectContent : string → string → result (list SelectEvent * option error)).

Definition queryS3Object (key alertID : string) (exclusiveStartIndex maxResults : Z)
    : result (list string * Z) :=
  match SelectObjectContent key (select_query alertID) with
  | Err e => Err e
  | Ok (_, Some streamError) => Err streamError
  | Ok (events, None) =>
      Ok (take_records (split_on recordDelimiter (payload events)) exclusiveStartIndex maxResults 0 [])
  end.

(** the callback of the listing on one page; the flag says to go on *)
Fixpoint visit_objects (alert : AlertItem) (maxResults : Z) (keys : list string)
    (result : list string) (resultToken : LogTypeToken) : Prelude.result (list string * LogTypeToken * bool) :=
  match keys with
  | [] => Ok (result, resultToken, true)
  | key :: keys =>
      match timeFromS3ObjectKey key with
      | Err e => Err e
      | Ok objectTime =>
          if Before objectTime (CreationTime alert) || After objectTime (UpdateTime alert)
          then visit_objects alert maxResults keys result resultToken
          else
            match queryS3Object key (AlertID alert) 0 (maxResults - Z.of_nat (length result)) with
            | Err e => Err e
            | Ok (events, index) =>
                let result := result ++ events in
                let resultToken := {| S3ObjectKey := key; EventIndex := index |} in
                if decide (maxResults ≤ Z.of_nat (length result)) then Ok (result, resultToken, false)
                else visit_objects alert maxResults keys result resultToken
            end
      end
  end.

Fixpoint visit_pages (alert : AlertItem) (maxResults : Z) (pages : list (list string))
    (err : option error) (result : list string) (resultToken : LogTypeToken)
    : Prelude.result (list string * LogTypeToken) :=
  match pages with
  | [] => match err with Some e => Err e | None => Ok (result, resultToken) end
  | page :: pages =>
      match visit_objects alert maxResults page result resultToken with
      | Err e => Err e
      | Ok (result, resultToken, false) => Ok (result, resultToken)
      | Ok (result, resultToken, true) => visit_pages alert maxResults pages err result resultToken
      end
  end.

Fixpoint visit_partitions (alert : AlertItem) (maxResults : Z) (token : option LogTypeToken)
    (partitions : list string) (result : list string) (resultToken : LogTypeToken)
    : Prelude.result (list string * LogTypeToken) :=
  match partitions with
  | [] => Ok (result, resultToken)
  | partition :: partitions =>
      if decide (maxResults ≤ Z.of_nat (length result)) then Ok (result, resultToken)
      else
        let prefix := partition +:+ "rule_id=" +:+ RuleID alert +:+ "/" in
        let '(pages, err) := ListObjectsV2Pages prefix (S3ObjectKey <$> token) in
        match visit_pages alert maxResults pages err result resultToken with
        | Err e => Err e
        | Ok (result, resultToken) =>
            visit_partitions alert maxResults token partitions result resultToken
        end
  end.

Definition getEventsForLogType (logType : string) (token : option LogTypeToken) (alert : AlertItem)
    (maxResults : Z) : outcome (result (list string * LogTypeToken)) :=
  let first :=
    match token with
    | None => Ok ([], {| S3ObjectKey := ""; EventIndex := 0 |})
    | Some tok =>
        '(events, index) ← queryS3Object (S3ObjectKey tok) (AlertID alert) (EventIndex tok) maxResults;
        Ok (events, {| S3ObjectKey := S3ObjectKey tok; EventIndex := index |})
    end in
  match first with
  | Err e => Ret (Err e)
  | Ok (result, resultToken) =>
      if decide (token ≠ None ∧ maxResults ≤ Z.of_nat (length result)) then Ret (Ok (result, resultToken))
      else
        partitions ← partitionLocations logType alert;
        Ret (visit_partitions alert maxResults token partitions result resultToken)
  end.

(** the loop over the log types of the alert *)
Fixpoint collect_events (alert : AlertItem) (pageSize : Z) (logTypes : list string)
    (token : EventPaginationToken) (events : list string)
    : outcome (result (EventPaginationToken * list string)) :=
  match logTypes with
  | [] => Ret (Ok (token, events))
  | logType :: logTypes =>
      let eventsToReturn := pageSize - Z.of_nat (length events) in
      r ← getEventsForLogType logType (token_get token logType) alert eventsToReturn;
      match r with
      | Err e => Ret (Err e)
      | Ok (eventsReturned, resultToken) =>
          token ← token_set token logType resultToken;
          let events := events ++ eventsReturned in
          if decide (pageSize ≤ Z.of_nat (length events)) then Ret (Ok (token, events))
          else collect_events alert pageSize logTypes token events
      end
  end.

Context (db_GetAlert : string → result AlertItem) (Marshal : EventPaginationToken → result string)
        (Unmarshal : string → result EventPaginationToken).

Definition GetAlert (input : GetAlertInput) : outcome (result GetAlertOutput) :=
  match db_GetAlert (giAlertID input) with
  | Err e => Ret (Err e)
  | Ok alertItem =>
      match (match giEventsExclusiveStartKey input with
             | None => Ok newPaginationToken
             | Some key => decodePaginationToken Unmarshal key
             end) with
      | Err e => Ret (Err e)
      | Ok token =>
          r ← collect_events alertItem (giEventsPageSize input) (LogTypes alertItem) token [];
          match r with
          | Err e => Ret (Err e)
          | Ok (token, events) =>
              match encode Marshal token with
              | Err e => Ret (Err e)
              | Ok encodedToken =>
                  Ret (Ok {| goSummary := summary_of alertItem; goEvents := events;
                             goEventsLastEvaluatedKey := encodedToken |})
              end
          end
      end
  end.
End Events.
