(* ===== verification/AlertsEvents.v ===== *)
(** * Alerts API: reading the events of an alert page by page

    Theorems about the model of api/get_alert.go.  S3 lists keys in bytewise
    order; the hourly partitions of an alert have prefixes that increase in
    that order, so the token of a page (an object key and the number of its
    events already returned) determines what remains to be read. *)

From S2P Require Import Prelude GoStrings GoTime Glue S3Destination Base64 AlertsApi.

#[local] Open Scope Z_scope.
#[local] Ltac Zify.zify_post_hook ::= Z.to_euclidean_division_equations.

(** ** Decimal texts of one length are ordered like their values *)

Lemma parse_digits_acc s :
  all_bytes is_digit s = true →
  ∃ v, 0 ≤ v < 10 ^ slen s ∧ ∀ acc, parse_digits acc s = Some (acc * 10 ^ slen s + v).
Proof.
  induction s as [|c s IH]; simpl.
  { intros _. exists 0. unfold slen. simpl. split; [lia|]. intros acc. f_equal. lia. }
  intros [Hc Hs]%andb_true_iff. unfold is_digit in Hc. apply bool_decide_eq_true in Hc as [d Hd].
  rewrite Hd. destruct (IH Hs) as (v&Hv&Hp).
  assert (0 ≤ d < 10) as Hd' by (unfold digit_of in Hd; case_decide; simplify_eq; lia).
  assert (slen (String c s) = slen s + 1) as -> by (unfold slen; simpl; lia).
  assert (0 ≤ slen s) by (unfold slen; lia).
  rewrite Z.pow_add_r, Z.pow_1_r by lia.
  exists (d * 10 ^ slen s + v). split; [nia|]. intros acc. simpl. rewrite Hp. f_equal. lia.
Qed.

Lemma digit_code c d : digit_of c = Some d → N_of_ascii c = Z.to_N (d + 48) ∧ 0 ≤ d.
Proof. unfold digit_of, nat_of_ascii. case_decide; intros; simplify_eq. lia. Qed.

Lemma digits_slt s1 s2 v1 v2 :
  all_bytes is_digit s1 = true → all_bytes is_digit s2 = true →
  String.length s1 = String.length s2 →
  parse_digits 0 s1 = Some v1 → parse_digits 0 s2 = Some v2 → v1 < v2 → slt s1 s2.
Proof.
  revert s2 v1 v2. induction s1 as [|a s1 IH]; intros [|b s2] v1 v2; try done.
  { simpl. intros; simplify_eq. lia. }
  simpl. intros [Ha Hs1]%andb_true_iff [Hb Hs2]%andb_true_iff Hl. rewrite slt_cons.
  unfold is_digit in *. apply bool_decide_eq_true in Ha as [da Hda], Hb as [db Hdb].
  rewrite Hda, Hdb. simpl.
  destruct (parse_digits_acc s1 Hs1) as (w1&?&P1), (parse_digits_acc s2 Hs2) as (w2&?&P2).
  rewrite P1, P2. assert (slen s1 = slen s2) as El by (unfold slen; lia). rewrite <-El in *.
  intros [= <-] [= <-] Hlt.
  destruct (digit_code _ _ Hda) as [Ea ?], (digit_code _ _ Hdb) as [Eb ?].
  destruct (decide (da = db)) as [->|Hne].
  - right. split.
    + rewrite <-Eb in Ea. apply (f_equal ascii_of_N) in Ea. by rewrite !ascii_N_embedding in Ea.
    + eapply IH; [done|done|lia|apply P1|apply P2|]. lia.
  - left. rewrite Ea, Eb. assert (da < db); [|lia]. nia.
Qed.

Lemma pretty_go_length k x s :
  (10 ^ N.of_nat k ≤ x < 10 ^ N.of_nat (S k))%N →
  String.length (pretty_N_go x s) = (S k + String.length s)%nat.
Proof.
  revert x s. induction k as [|k IH]; intros x s Hx.
  - change (10 ^ N.of_nat 0)%N with 1%N in Hx. change (10 ^ N.of_nat 1)%N with 10%N in Hx.
    rewrite pretty_N_go_step by lia. rewrite N.div_small by lia. by rewrite pretty_N_go_0.
  - rewrite !Nat2N.inj_succ, !N.pow_succ_r' in Hx. rewrite pretty_N_go_step by lia.
    rewrite IH; [simpl; lia|]. rewrite Nat2N.inj_succ, N.pow_succ_r'. split.
    + apply N.div_le_lower_bound; lia.
    + apply N.Div0.div_lt_upper_bound; lia.
Qed.

Lemma itoa_length4 y : 1000 ≤ y < 10000 → String.length (itoa y) = 4%nat.
Proof.
  intros Hy. destruct y as [|p|p]; [lia| |lia].
  change (itoa (Zpos p)) with (pretty_N_go (Npos p) ""). rewrite (pretty_go_length 3); [done|].
  change (10 ^ N.of_nat 3)%N with 1000%N. change (10 ^ N.of_nat 4)%N with 10000%N. lia.
Qed.

Lemma pad02_length z : 0 ≤ z < 100 → String.length (pad02 z) = 2%nat.
Proof.
  intros Hz. unfold pad02. case_decide as H.
  - rewrite string_length_app. destruct z as [|p|p]; [done| |lia].
    change (itoa (Zpos p)) with (pretty_N_go (Npos p) ""). rewrite (pretty_go_length 0); [done|].
    change (10 ^ N.of_nat 0)%N with 1%N. change (10 ^ N.of_nat 1)%N with 10%N. lia.
  - destruct z as [|p|p]; [lia| |lia].
    change (itoa (Zpos p)) with (pretty_N_go (Npos p) ""). rewrite (pretty_go_length 1); [done|].
    change (10 ^ N.of_nat 1)%N with 10%N. change (10 ^ N.of_nat 2)%N with 100%N. lia.
Qed.

Lemma parse_pad02 z : 0 ≤ z → parse_digits 0 (pad02 z) = Some z.
Proof.
  intros Hz. unfold pad02. case_decide; [|by apply parse_digits_itoa].
  rewrite string_app_cons, string_app_nil_l. simpl. by apply parse_digits_itoa.
Qed.

Lemma pad02_slt a b : 0 ≤ a < b → b < 100 → slt (pad02 a) (pad02 b).
Proof.
  intros Ha Hb. eapply digits_slt.
  - apply pad02_digits; lia.
  - apply pad02_digits; lia.
  - rewrite !pad02_length by lia. done.
  - apply parse_pad02; lia.
  - apply parse_pad02; lia.
  - lia.
Qed.

Lemma itoa_slt4 a b : 1000 ≤ a < b → b < 10000 → slt (itoa a) (itoa b).
Proof.
  intros Ha Hb. eapply digits_slt.
  - apply itoa_digits; lia.
  - apply itoa_digits; lia.
  - rewrite !itoa_length4 by lia. done.
  - apply parse_digits_itoa; lia.
  - apply parse_digits_itoa; lia.
  - lia.
Qed.

(** ** The prefixes of hourly partitions *)

Definition hour_prefix (y m d h : Z) : string :=
  "year=" +:+ itoa y +:+ "/month=" +:+ pad02 m +:+ "/day=" +:+ pad02 d +:+ "/hour=" +:+ pad02 h +:+ "/".

Lemma hourly_prefix t :
  getTimePartitionPrefix GlueTableHourly t = hour_prefix (Year t) (Month t) (Day t) (HourOf t).
Proof. done. Qed.

Lemma hour_prefix_length y m d h :
  1000 ≤ y < 10000 → 0 ≤ m < 100 → 0 ≤ d < 100 → 0 ≤ h < 100 →
  String.length (hour_prefix y m d h) = 34%nat.
Proof.
  intros. unfold hour_prefix. rewrite !string_length_app, itoa_length4, !pad02_length by lia. done.
Qed.

(** lexicographically smaller fields give a smaller prefix, whatever follows *)
Lemma hour_prefix_slt y m d h y' m' d' h' :
  1000 ≤ y → y' < 10000 → 0 ≤ m < 100 → 0 ≤ d < 100 → 0 ≤ h < 100 →
  0 ≤ m' < 100 → 0 ≤ d' < 100 → 0 ≤ h' < 100 →
  y < y' ∨ (y = y' ∧ (m < m' ∨ (m = m' ∧ (d < d' ∨ (d = d' ∧ h < h'))))) →
  slt (hour_prefix y m d h) (hour_prefix y' m' d' h').
Proof.
  intros ???????? Hlt. unfold hour_prefix. rewrite slt_app_l.
  destruct Hlt as [?|[-> [?|[-> [?|[-> ?]]]]]].
  - apply slt_app_r; [by rewrite !itoa_length4 by lia|apply itoa_slt4; lia].
  - rewrite slt_app_l, slt_app_l. apply slt_app_r; [by rewrite !pad02_length by lia|apply pad02_slt; lia].
  - rewrite !slt_app_l. apply slt_app_r; [by rewrite !pad02_length by lia|apply pad02_slt; lia].
  - rewrite !slt_app_l. apply slt_app_r; [by rewrite !pad02_length by lia|apply pad02_slt; lia].
Qed.

Lemma Year_mono t t' : t ≤ t' → Year t ≤ Year t'.
Proof.
  intros Ht. unfold Year. pose proof (year_yday_spec (days_of t)) as H.
  pose proof (year_yday_spec (days_of t')) as H'.
  destruct (year_yday (days_of t)) as [y yd], (year_yday (days_of t')) as [y' yd']. simpl.
  destruct H as [H1 H2], H' as [H1' H2'].
  destruct (decide (y ≤ y')); [lia|]. pose proof (daysBeforeYear_mono (y' + 1) y ltac:(lia)).
  assert (days_of t ≤ days_of t') by (unfold days_of; apply Z.div_le_mono; unfold Day24, Hour, Second; lia).
  lia.
Qed.

Lemma same_hour_prefix t t' :
  t / Hour = t' / Hour →
  getTimePartitionPrefix GlueTableHourly t = getTimePartitionPrefix GlueTableHourly t'.
Proof.
  intros Ht. assert (days_of t = days_of t' ∧ HourOf t = HourOf t') as [Hd Hh].
  { unfold days_of, HourOf, Day24, Hour, Second in *. lia. }
  rewrite !hourly_prefix, Hh. pose proof (civil_of t) as H1. pose proof (civil_of t') as H2.
  rewrite <-Hd, <-H1 in H2. by injection H2 as -> -> ->.
Qed.

Definition next_hour (t : Time) : Time := Truncate (t + Hour) Hour.

Lemma next_hour_spec t : next_hour t / Hour = t / Hour + 1 ∧ t < next_hour t ≤ t + Hour.
Proof. unfold next_hour, Truncate, Hour, Second. lia. Qed.

Lemma next_hour_mul t : next_hour t = Hour * (t / Hour + 1).
Proof.
  unfold next_hour. rewrite Truncate_mul by done. rewrite <-(Z.mul_1_l Hour) at 2.
  by rewrite Z.div_add by done.
Qed.

Lemma next_hour_slt t :
  1000 ≤ Year t → Year (next_hour t) < 10000 →
  slt (getTimePartitionPrefix GlueTableHourly t) (getTimePartitionPrefix GlueTableHourly (next_hour t)).
Proof.
  intros Hy Hy'. destruct (next_hour_spec t) as [Hn _]. rewrite !hourly_prefix.
  pose proof (month_range t). pose proof (month_range (next_hour t)).
  pose proof (HourOf_range t). pose proof (HourOf_range (next_hour t)).
  apply hour_prefix_slt; [lia..|].
  pose proof (civil_of t) as Hc. pose proof (civil_of (next_hour t)) as Hc'. symmetry in Hc, Hc'.
  assert ((days_of (next_hour t) = days_of t ∧ HourOf (next_hour t) = HourOf t + 1) ∨
    (days_of (next_hour t) = days_of t + 1)) as [[Hd Hh]|Hd].
  { unfold days_of, HourOf, Day24, Hour, Second in *. lia. }
  - rewrite Hd, Hc in Hc'. injection Hc' as -> -> ->. rewrite Hh. lia.
  - rewrite Hd in Hc'. destruct (civil_succ _ _ _ _ Hc) as [E|(y'&m'&E&Hcase)]; rewrite E in Hc';
      injection Hc' as Ey Em Ed; rewrite <-Ey, <-Em, <-Ed; lia.
Qed.

(** ** The partitions of an alert *)

Fixpoint hours (fuel : nat) (updateTime t : Time) : list Time :=
  match fuel with
  | O => []
  | S fuel => if After t updateTime then [] else t :: hours fuel updateTime (next_hour t)
  end.

Definition alert_hours (alert : AlertItem) : list Time :=
  hours (Z.to_nat ((UpdateTime alert - CreationTime alert) / Hour + 2)) (UpdateTime alert) (CreationTime alert).

Lemma partitionLocations_hours logType alert :
  partitionLocations logType alert =
  Ret (GetPartitionPrefix RuleData logType GlueTableHourly <$> alert_hours alert).
Proof.
  unfold partitionLocations, alert_hours. generalize (CreationTime alert) at 2 4.
  induction (Z.to_nat _) as [|fuel IH]; intros t; [done|]. cbn [partition_loop hours].
  destruct (After t (UpdateTime alert)); [done|].
  change (Next GlueTableHourly t) with (Ret (next_hour t)). run. by rewrite IH.
Qed.

Lemma hours_range fuel u t h : h ∈ hours fuel u t → t ≤ h ≤ u.
Proof.
  revert t. induction fuel as [|fuel IH]; intros t; simpl; [by intros ?%elem_of_nil|].
  unfold After. destruct (Z.ltb_spec u t); [by intros ?%elem_of_nil|].
  intros [->|Hh]%elem_of_cons; [lia|]. apply IH in Hh. pose proof (next_hour_spec t). lia.
Qed.

(** every hour between creation and update is there: the fuel is enough *)
Lemma hours_cover fuel u t x :
  u / Hour - t / Hour + 1 ≤ Z.of_nat fuel → t ≤ x ≤ u → ∃ h, h ∈ hours fuel u t ∧ h / Hour = x / Hour.
Proof.
  revert t. induction fuel as [|fuel IH]; intros t Hf Hx.
  { unfold Hour, Second in *. lia. }
  cbn [hours]. unfold After. destruct (Z.ltb_spec u t); [lia|].
  destruct (next_hour_spec t) as [Hn Hr]. destruct (decide (x / Hour = t / Hour)) as [->|Hne].
  { exists t. split; [by left|done]. }
  destruct (IH (next_hour t)) as (h&Hh&E).
  - rewrite Hn. clear -Hf. revert Hf. generalize (u / Hour) (t / Hour). lia.
  - split; [|lia]. rewrite next_hour_mul. apply Z.le_trans with (Hour * (x / Hour)).
    + apply Z.mul_le_mono_nonneg_l; [done|]. assert (t / Hour ≤ x / Hour) by (apply Z.div_le_mono; [done|lia]). lia.
    + apply Z.mul_div_le. done.
  - exists h. split; [by right|done].
Qed.

Lemma alert_hours_cover alert t :
  CreationTime alert ≤ t ≤ UpdateTime alert → ∃ h, h ∈ alert_hours alert ∧ h / Hour = t / Hour.
Proof. intros Ht. apply hours_cover; [|done]. unfold Hour, Second. lia. Qed.

Lemma hours_sorted fuel u t :
  1000 ≤ Year t → Year u < 10000 →
  StronglySorted (λ a b, slt (getTimePartitionPrefix GlueTableHourly a)
                             (getTimePartitionPrefix GlueTableHourly b)) (hours fuel u t).
Proof.
  intros Hy Hu. apply Sorted_StronglySorted; [intros a b c; apply slt_trans|].
  revert t Hy. induction fuel as [|fuel IH]; intros t Hy; [constructor|]. cbn [hours].
  destruct (After t u); [constructor|]. destruct (next_hour_spec t) as [_ Hr].
  pose proof (Year_mono t (next_hour t)). constructor; [apply IH; lia|].
  destruct fuel as [|fuel]; [constructor|]. cbn [hours]. unfold After.
  destruct (Z.ltb_spec u (next_hour t)) as [|Hle]; constructor.
  apply next_hour_slt; [done|]. pose proof (Year_mono (next_hour t) u Hle). lia.
Qed.

(** ** The records of one object *)

Definition newline_free (r : string) : Prop := r ≠ "" ∧ contains_byte recordDelimiter r = false.

Fixpoint lines (records : list string) : string :=
  match records with
  | [] => ""
  | r :: records => r +:+ String recordDelimiter (lines records)
  end.

Lemma split_lines records :
  Forall newline_free records → split_on recordDelimiter (lines records) = records ++ [""].
Proof.
  induction 1 as [|r records [_ Hr] _ IH]; [done|]. cbn [lines]. by rewrite split_on_app, IH.
Qed.

Lemma take_records_from recs start max c res :
  Forall newline_free recs → start ≤ c → Z.of_nat (length res) ≤ max →
  take_records (recs ++ [""]) start max c res =
  let n := (Z.to_nat max - length res)%nat in
  (res ++ take n recs, c + Z.of_nat (n `min` length recs)).
Proof.
  intros Hr. revert c res. induction Hr as [|r recs [Hne _] _ IH]; intros c res Hc Hl; cbv zeta.
  { cbn. rewrite take_nil, app_nil_r, Nat.min_0_r. f_equal. lia. }
  cbn [app take_records]. rewrite decide_False by done. case_decide as Hf.
  { replace (Z.to_nat max - length res)%nat with 0%nat by lia. cbn. rewrite app_nil_r. f_equal. lia. }
  rewrite decide_False by lia. rewrite IH; [|lia|rewrite length_app; cbn; lia]. cbv zeta.
  rewrite length_app. cbn [length].
  replace (Z.to_nat max - length res)%nat with (S (Z.to_nat max - (length res + 1)))%nat by lia.
  cbn [take]. rewrite <-app_assoc. f_equal. lia.
Qed.

(** a page of an object, and the number of its records seen so far *)
Lemma take_records_page recs start max c :
  Forall newline_free recs → 0 < max → c ≤ start ≤ c + Z.of_nat (length recs) →
  take_records (recs ++ [""]) start max c [] =
  let d := Z.to_nat (start - c) in let n := Z.to_nat max in
  (take n (drop d recs), c + Z.of_nat ((d + n) `min` length recs)).
Proof.
  intros Hr Hm. revert c. induction Hr as [|r recs [Hne Hnl] Hr IH]; intros c Hs; cbv zeta.
  { cbn. rewrite drop_nil, take_nil. cbn in Hs. f_equal. lia. }
  destruct (decide (c = start)) as [->|Hcs].
  { rewrite take_records_from; [|by constructor|lia|cbn; lia].
    cbv zeta. rewrite Z.sub_diag. cbn [Z.to_nat drop]. f_equal; [|f_equal; f_equal]; cbn [length app]; [|lia].
    f_equal. lia. }
  cbn [app take_records]. rewrite decide_False by done. rewrite decide_False by (cbn; lia).
  rewrite decide_True by lia. cbn [length] in Hs. rewrite IH by lia. cbv zeta.
  replace (Z.to_nat (start - c)) with (S (Z.to_nat (start - (c + 1)))) by lia. cbn [drop length]. f_equal. lia.
Qed.

(** ** Reading pages *)

(** [start] is before [k] *)
Definition after_start (start : option string) (k : string) : Prop :=
  match start with None => True | Some s => slt s k end.
#[export] Instance after_start_dec start k : Decision (after_start start k).
Proof. unfold after_start. destruct start; apply _. Defined.

(** the object's time is within the life of the alert *)
Definition timely (alert : AlertItem) (k : string) : Prop :=
  match timeFromS3ObjectKey k with
  | Ok t => CreationTime alert ≤ t ≤ UpdateTime alert
  | Err _ => False
  end.
#[export] Instance timely_dec alert k : Decision (timely alert k).
Proof. unfold timely. destruct (timeFromS3ObjectKey k); apply _. Defined.

Definition rule_prefix (alert : AlertItem) (partition : string) : string :=
  partition +:+ "rule_id=" +:+ RuleID alert +:+ "/".

Definition under (p k : string) : Prop := has_prefix p k = true.
#[export] Instance under_dec p k : Decision (under p k).
Proof. unfold under. apply _. Defined.

Section Pages.
Context (ListObjectsV2Pages : string → option string → list (list string) * option error)
        (SelectObjectContent : string → string → result (list SelectEvent * option error)).
Context (bucket : list string) (records : string → list string) (alert : AlertItem).

(** what S3 promises: listing is in key order, without errors; S3 Select
    returns the records of the alert, each ended by the delimiter, cut into
    events at any place *)
Record s3_ok : Prop := {
  bucket_sorted : StronglySorted slt bucket;
  listing : ∀ prefix start, ∃ pages, ListObjectsV2Pages prefix start = (pages, None) ∧
    concat pages = filter (λ k, under prefix k ∧ after_start start k) bucket;
  selecting : ∀ k, k ∈ bucket → ∃ events,
    SelectObjectContent k (select_query (AlertID alert)) = Ok (events, None) ∧
    payload events = lines (records k);
  records_ok : ∀ k, Forall newline_free (records k);
  keys_ok : ∀ k, k ∈ bucket → under "rules/" k → ∃ t, timeFromS3ObjectKey k = Ok t;
  years_ok : 1000 ≤ Year (CreationTime alert) ∧ Year (UpdateTime alert) < 10000
}.

Hypothesis S3 : s3_ok.

#[local] Notation query := (queryS3Object SelectObjectContent).

Definition events_of (keys : list string) : list string := concat (records <$> keys).

Lemma queryS3Object_spec k start n :
  k ∈ bucket → 0 < n → 0 ≤ start ≤ Z.of_nat (length (records k)) →
  query k (AlertID alert) start n =
  Ok (take (Z.to_nat n) (drop (Z.to_nat start) (records k)),
      Z.of_nat ((Z.to_nat start + Z.to_nat n) `min` length (records k))).
Proof.
  intros Hk Hn Hs. unfold queryS3Object. destruct (selecting S3 k Hk) as (events&->&->).
  rewrite split_lines by apply (records_ok S3). rewrite take_records_page; [|apply (records_ok S3)|done|lia].
  cbv zeta. by rewrite Z.sub_0_r, Z.add_0_l.
Qed.

(** the token after reading [n] events from the objects [keys] *)
Fixpoint advance (n : nat) (keys : list string) (tok : LogTypeToken) : LogTypeToken :=
  match keys with
  | [] => tok
  | k :: keys =>
      let l := length (records k) in
      if decide (n ≤ l)%nat then {| S3ObjectKey := k; EventIndex := Z.of_nat n |}
      else advance (n - l) keys {| S3ObjectKey := k; EventIndex := Z.of_nat l |}
  end.

Lemma advance_app n l1 l2 tok :
  advance n (l1 ++ l2) tok =
  if decide (n ≤ length (events_of l1) ∧ l1 ≠ [])%nat then advance n l1 tok
  else advance (n - length (events_of l1)) l2 (advance n l1 tok).
Proof.
  revert n tok. induction l1 as [|k l1 IH]; intros n tok; cbn [app advance].
  { rewrite decide_False by naive_solver. cbn. by rewrite Nat.sub_0_r. }
  assert (length (events_of (k :: l1)) = length (records k) + length (events_of l1))%nat as ->
    by (unfold events_of; cbn; by rewrite length_app).
  case_decide as Hl; [by rewrite decide_True by (split; [lia|done])|].
  rewrite IH. destruct (decide (l1 = [])) as [->|Hne].
  { rewrite decide_False by naive_solver. cbn. rewrite decide_False by lia. f_equal. lia. }
  destruct (decide (n - length (records k) ≤ length (events_of l1) ∧ l1 ≠ [])%nat) as [[? _]|H1].
  - by rewrite decide_True by (split; [lia|done]).
  - rewrite decide_False; [f_equal; lia|]. intros [? _]. apply H1. split; [lia|done].
Qed.

Definition good (k : string) : Prop := k ∈ bucket ∧ under "rules/" k.

Lemma events_of_app l1 l2 : events_of (l1 ++ l2) = events_of l1 ++ events_of l2.
Proof. unfold events_of. by rewrite fmap_app, concat_app. Qed.

Lemma events_of_cons k l : events_of (k :: l) = records k ++ events_of l.
Proof. done. Qed.

(** taking from a list in two steps *)
Lemma take_more {A} (res l1 l2 : list A) max :
  Z.of_nat (length res) < max → (length l1 < Z.to_nat (max - Z.of_nat (length res)))%nat →
  (res ++ l1) ++ take (Z.to_nat (max - Z.of_nat (length (res ++ l1)))) l2 =
  res ++ take (Z.to_nat (max - Z.of_nat (length res))) (l1 ++ l2).
Proof.
  intros H1 H2. rewrite <-app_assoc, take_app, (take_ge l1) by lia. do 3 f_equal.
  rewrite length_app. lia.
Qed.

Lemma visit_objects_spec keys res tok max :
  Forall good keys → Z.of_nat (length res) < max →
  let n := Z.to_nat (max - Z.of_nat (length res)) in
  let seen := filter (timely alert) keys in
  visit_objects SelectObjectContent alert max keys res tok =
  Ok (res ++ take n (events_of seen), advance n seen tok,
      bool_decide (length (events_of seen) < n)%nat).
Proof.
  intros Hk. revert res tok. induction Hk as [|k keys [Hb Hu] Hk IH]; intros res tok Hm; cbv zeta.
  { cbn. rewrite take_nil, app_nil_r, bool_decide_eq_true_2 by lia. done. }
  cbn [visit_objects]. destruct (keys_ok S3 k Hb Hu) as [t Ht]. rewrite Ht, filter_cons.
  assert ((Before t (CreationTime alert) || After t (UpdateTime alert)) = negb (bool_decide (timely alert k)))
    as ->.
  { assert (timely alert k ↔ CreationTime alert ≤ t ≤ UpdateTime alert) as Hti
      by (unfold timely; by rewrite Ht).
    unfold Before, After.
    destruct (Z.ltb_spec t (CreationTime alert)), (Z.ltb_spec (UpdateTime alert) t); simpl;
      (rewrite bool_decide_eq_true_2 by (apply Hti; lia)) ||
      (rewrite bool_decide_eq_false_2 by (rewrite Hti; lia)); done. }
  destruct (decide (timely alert k)) as [Hy|Hy].
  2: { rewrite bool_decide_eq_false_2 by done. cbn [negb]. by rewrite IH by done. }
  rewrite bool_decide_eq_true_2 by done. cbn [negb advance].
  rewrite queryS3Object_spec by (done || lia). rewrite Z2Nat.inj_0, drop_0, events_of_cons.
  set (n := Z.to_nat (max - Z.of_nat (length res))). set (r := records k).
  set (rest := filter (timely alert) keys).
  destruct (decide (n ≤ length r)%nat) as [Hn|Hn].
  - rewrite decide_True by (rewrite length_app, length_take; lia).
    rewrite take_app_le, bool_decide_eq_false_2 by (rewrite ?length_app; lia).
    rewrite Nat.add_0_l, Nat.min_l by lia. done.
  - rewrite decide_False by (rewrite length_app, length_take; lia).
    rewrite (take_ge r) by lia. rewrite IH by (rewrite length_app; lia). cbv zeta.
    rewrite take_more by (subst n; lia). fold n. rewrite Nat.add_0_l, Nat.min_r by lia.
    replace (Z.to_nat (max - Z.of_nat (length (res ++ r)))) with (n - length r)%nat
      by (rewrite length_app; lia).
    f_equal. f_equal. apply bool_decide_ext. rewrite length_app. fold rest. lia.
Qed.

Lemma visit_pages_spec pages res tok max :
  Forall good (concat pages) → Z.of_nat (length res) < max →
  let n := Z.to_nat (max - Z.of_nat (length res)) in
  let seen := filter (timely alert) (concat pages) in
  visit_pages SelectObjectContent alert max pages None res tok =
  Ok (res ++ take n (events_of seen), advance n seen tok).
Proof.
  revert res tok. induction pages as [|page pages IH]; intros res tok Hg Hm; cbv zeta.
  { cbn. by rewrite take_nil, app_nil_r. }
  cbn [concat visit_pages] in *. apply Forall_app in Hg as [Hg1 Hg2].
  rewrite visit_objects_spec by done. cbv zeta. rewrite filter_app, events_of_app, advance_app.
  set (n := Z.to_nat (max - Z.of_nat (length res))). set (s1 := filter (timely alert) page).
  set (s2 := filter (timely alert) (concat pages)).
  destruct (decide (length (events_of s1) < n)%nat) as [Hn|Hn].
  - rewrite bool_decide_eq_true_2 by done. rewrite (take_ge (events_of s1)) by lia.
    rewrite IH by (done || (rewrite length_app; lia)). cbv zeta. fold s2.
    rewrite take_more by (subst n; lia). fold n.
    rewrite decide_False by lia. do 3 f_equal. rewrite length_app. lia.
  - rewrite bool_decide_eq_false_2 by done. rewrite take_app_le by lia.
    rewrite decide_True; [done|]. split; [lia|]. intros E. rewrite E in Hn. cbn in Hn. lia.
Qed.

Definition partition_keys (start : option string) (partitions : list string) : list string :=
  filter (timely alert)
    (concat ((λ p, filter (λ k, under (rule_prefix alert p) k ∧ after_start start k) bucket) <$> partitions)).

Lemma has_prefix_trans a b c : has_prefix a b = true → has_prefix b c = true → has_prefix a c = true.
Proof.
  revert b c. induction a as [|x a IH]; intros [|y b] [|z c]; simpl; try done.
  repeat case_decide; try done; subst; [apply IH|done].
Qed.

Lemma has_prefix_app p s : has_prefix p (p +:+ s) = true.
Proof. induction p as [|a p IH]; [done|]. rewrite string_app_cons. simpl. by rewrite decide_True. Qed.

Lemma visit_full max token partitions res tok :
  max ≤ Z.of_nat (length res) →
  visit_partitions ListObjectsV2Pages SelectObjectContent alert max token partitions res tok = Ok (res, tok).
Proof. intros H. destruct partitions; [done|]. cbn [visit_partitions]. by rewrite decide_True. Qed.

Lemma visit_partitions_spec token partitions res tok max :
  Forall (under "rules/") partitions → Z.of_nat (length res) < max →
  let n := Z.to_nat (max - Z.of_nat (length res)) in
  let seen := partition_keys (S3ObjectKey <$> token) partitions in
  visit_partitions ListObjectsV2Pages SelectObjectContent alert max token partitions res tok =
  Ok (res ++ take n (events_of seen), advance n seen tok).
Proof.
  intros Hp. revert res tok. induction Hp as [|p ps Hp _ IH]; intros res tok Hm; cbv zeta.
  { cbn. by rewrite take_nil, app_nil_r. }
  cbn [visit_partitions]. rewrite decide_False by lia.
  change (p +:+ "rule_id=" +:+ RuleID alert +:+ "/") with (rule_prefix alert p).
  destruct (listing S3 (rule_prefix alert p) (S3ObjectKey <$> token)) as (pages&->&Hpages).
  rewrite visit_pages_spec; [|rewrite Hpages|done].
  2: { apply Forall_forall. intros k [[Hu _] Hb]%list_elem_of_filter. split; [done|].
       eapply has_prefix_trans; [|exact Hu]. eapply has_prefix_trans; [exact Hp|]. apply has_prefix_app. }
  cbv zeta. unfold partition_keys. cbn [fmap list_fmap concat].
  rewrite Hpages, filter_app, events_of_app, advance_app.
  set (n := Z.to_nat (max - Z.of_nat (length res))). set (s1 := filter (timely alert) (filter _ bucket)).
  destruct (decide (length (events_of s1) < n)%nat) as [Hn|Hn].
  - rewrite (take_ge (events_of s1)) by lia. rewrite IH by (rewrite length_app; lia).
    cbv zeta. rewrite take_more by (subst n; lia). fold n. rewrite decide_False by lia.
    do 3 f_equal. rewrite length_app. lia.
  - rewrite visit_full by (rewrite length_app, length_take; lia). rewrite take_app_le by lia.
    rewrite decide_True; [done|]. split; [lia|]. intros E. rewrite E in Hn. cbn in Hn. lia.
Qed.

(** ** The objects of an alert *)

Lemma elem_of_concat {A} (x : A) ls : x ∈ concat ls ↔ ∃ l, x ∈ l ∧ l ∈ ls.
Proof. rewrite list_elem_of_In, in_concat. setoid_rewrite list_elem_of_In. naive_solver. Qed.

Definition objects (logType : string) : list string :=
  partition_keys None (GetPartitionPrefix RuleData logType GlueTableHourly <$> alert_hours alert).

Lemma has_prefix_split p k : has_prefix p k = true → ∃ r, k = p +:+ r.
Proof.
  revert k. induction p as [|a p IH]; intros k; [by exists k|]. destruct k as [|b k]; [done|].
  simpl. case_decide; [|done]. subst. intros [r ->]%IH. by exists r.
Qed.

(** an object belongs to the alert when its time is within the alert's life
    and it lies in the partition of the rule and of some hour of that life *)
Lemma elem_of_objects logType k :
  k ∈ objects logType ↔
  k ∈ bucket ∧ timely alert k ∧
  ∃ t, CreationTime alert ≤ t ≤ UpdateTime alert ∧
    under (rule_prefix alert (GetPartitionPrefix RuleData logType GlueTableHourly t)) k.
Proof.
  unfold objects, partition_keys. rewrite list_elem_of_filter, elem_of_concat, <-list_fmap_compose.
  setoid_rewrite list_elem_of_fmap. split.
  - intros (Ht&l&Hk&h&->&Hh). apply list_elem_of_filter in Hk as [[Hu _] Hb].
    split_and!; [done..|]. exists h. split; [|done]. apply (hours_range _ _ _ _ Hh).
  - intros (Hb&Ht&t&Hr&Hu). split; [done|].
    destruct (alert_hours_cover alert t Hr) as (h&Hh&E).
    eexists. split; [|by exists h]. apply list_elem_of_filter. split; [|done].
    split; [|done]. unfold GetPartitionPrefix in *. by rewrite (same_hour_prefix h t E).
Qed.

Lemma filter_all (P : string → Prop) `{∀ k, Decision (P k)} l : Forall P l → filter P l = l.
Proof. induction 1 as [|x l Hx _ IH]; [done|]. by rewrite filter_cons, decide_True, IH. Qed.

Lemma filter_none (P : string → Prop) `{∀ k, Decision (P k)} l :
  Forall (λ k, ¬ P k) l → filter P l = [].
Proof. induction 1 as [|x l Hx _ IH]; [done|]. by rewrite filter_cons, decide_False. Qed.

Lemma filter_sorted (P : string → Prop) `{∀ k, Decision (P k)} l :
  StronglySorted slt l → StronglySorted slt (filter P l).
Proof.
  induction 1 as [|k l _ IH Hk]; [constructor|]. rewrite filter_cons. case_decide; [|done].
  constructor; [done|]. rewrite Forall_forall in *. intros x [_ ?]%list_elem_of_filter. auto.
Qed.

Lemma objects_sorted logType : StronglySorted slt (objects logType).
Proof.
  apply filter_sorted. destruct (years_ok S3) as [Hc Hu].
  assert (Forall (λ h, 1000 ≤ Year h < 10000) (alert_hours alert)) as Hy.
  { apply Forall_forall. intros h Hh%hours_range. pose proof (Year_mono (CreationTime alert) h).
    pose proof (Year_mono h (UpdateTime alert)). lia. }
  assert (StronglySorted (λ a b, slt (getTimePartitionPrefix GlueTableHourly a)
    (getTimePartitionPrefix GlueTableHourly b)) (alert_hours alert)) as Hs by by apply hours_sorted.
  induction Hs as [|h hs Hs IH Hh]; [constructor|]. cbn [fmap list_fmap concat].
  apply Forall_cons in Hy as [Hyh Hy]. apply StronglySorted_app_2; [|apply filter_sorted, S3|by apply IH].
  intros k1 k2 [[Hu1 _] _]%list_elem_of_filter (l&Hk2&Hl)%elem_of_concat.
  rewrite <-list_fmap_compose in Hl. apply list_elem_of_fmap in Hl as (h'&->&Hh').
  apply list_elem_of_filter in Hk2 as [[Hu2 _] _].
  apply has_prefix_split in Hu1 as [r1 ->], Hu2 as [r2 ->].
  unfold rule_prefix, GetPartitionPrefix. rewrite !string_app_assoc, slt_app_l.
  rewrite Forall_forall in Hh, Hy. apply slt_app_r; [|by apply Hh].
  rewrite !hourly_prefix, !hour_prefix_length; [done|..];
    pose proof (month_range h); pose proof (month_range h'); pose proof (HourOf_range h);
    pose proof (HourOf_range h'); specialize (Hy _ Hh'); lia.
Qed.

(** the part of a sorted list after a key is a suffix of it *)
Lemma sorted_after k l : StronglySorted slt l → ∃ l0, l = l0 ++ filter (slt k) l.
Proof.
  induction 1 as [|x l Hs [l0 IH] Hx]; [by exists []|]. rewrite filter_cons. case_decide as Hk.
  - exists []. simpl. f_equal. symmetry. apply filter_all.
    eapply Forall_impl; [exact Hx|]. intros y ?. by trans x.
  - exists (x :: l0). simpl. by rewrite <-IH.
Qed.

Lemma sorted_after_elem l1 k l2 :
  StronglySorted slt (l1 ++ k :: l2) → filter (slt k) (l1 ++ k :: l2) = l2.
Proof.
  intros (Hc&_&Hs)%StronglySorted_app. apply StronglySorted_inv in Hs as [_ Hk].
  rewrite filter_app, filter_cons, decide_False by apply slt_irrefl.
  assert (filter (slt k) l1 = []) as ->.
  { apply filter_none, Forall_forall. intros x Hx Hkx. eapply slt_irrefl.
    trans x; [exact Hkx|]. apply Hc; [done|by left]. }
  by apply filter_all.
Qed.

Lemma partition_keys_after k partitions :
  partition_keys (Some k) partitions = filter (slt k) (partition_keys None partitions).
Proof.
  unfold partition_keys. induction partitions as [|p ps IH]; [done|]. cbn [fmap list_fmap concat].
  rewrite !filter_app, IH, !list_filter_filter. f_equal. apply list_filter_iff.
  intros x. simpl. naive_solver.
Qed.

(** ** What a token leaves to read *)

Definition remaining (logType : string) (token : option LogTypeToken) : list string :=
  match token with
  | None => events_of (objects logType)
  | Some t => drop (Z.to_nat (EventIndex t)) (records (S3ObjectKey t))
              ++ events_of (filter (slt (S3ObjectKey t)) (objects logType))
  end.

Definition valid_token (token : option LogTypeToken) : Prop :=
  match token with
  | None => True
  | Some t => S3ObjectKey t ∈ bucket ∧ 0 ≤ EventIndex t ≤ Z.of_nat (length (records (S3ObjectKey t)))
  end.

Lemma advance_spec logType l0 l n tok :
  objects logType = l0 ++ l → (0 < n)%nat → l ≠ [] →
  valid_token (Some (advance n l tok)) ∧
  remaining logType (Some (advance n l tok)) = drop n (events_of l).
Proof.
  revert l0 n tok. induction l as [|k l IH]; intros l0 n tok Ho Hn Hl; [done|]. cbn [advance].
  assert (k ∈ bucket) as Hk.
  { apply (elem_of_objects logType). rewrite Ho. apply elem_of_app. right. by left. }
  pose proof (objects_sorted logType) as Hs. rewrite Ho in Hs.
  pose proof (sorted_after_elem _ _ _ Hs) as Ha. rewrite <-Ho in Ha.
  rewrite events_of_cons. case_decide as Hc.
  - split; [split; cbn; [done|lia]|]. unfold remaining. cbn [S3ObjectKey EventIndex].
    rewrite Ha, Nat2Z.id, drop_app_le by lia. done.
  - destruct l as [|k' l].
    + cbn [advance]. split; [split; cbn; [done|lia]|]. unfold remaining. cbn [S3ObjectKey EventIndex].
      rewrite Ha, Nat2Z.id, drop_ge, drop_ge by (rewrite ?length_app; cbn; lia). done.
    + rewrite drop_app_ge by lia. apply (IH (l0 ++ [k])); [|lia|done]. by rewrite Ho, <-app_assoc.
Qed.

Lemma partitions_under logType :
  Forall (under "rules/") (GetPartitionPrefix RuleData logType GlueTableHourly <$> alert_hours alert).
Proof.
  apply Forall_fmap, Forall_forall. intros h _. unfold under, compose, GetPartitionPrefix.
  change (getTablePrefix RuleData (GetTableName logType))
    with ("rules/" +:+ (GetTableName logType +:+ "/")).
  rewrite string_app_assoc. apply has_prefix_app.
Qed.

#[local] Notation getEvents := (getEventsForLogType ListObjectsV2Pages SelectObjectContent).

Lemma getEvents_first logType n :
  0 < n → objects logType ≠ [] →
  ∃ tok', getEvents logType None alert n =
      Ret (Ok (take (Z.to_nat n) (remaining logType None), tok')) ∧
    valid_token (Some tok') ∧
    remaining logType (Some tok') = drop (Z.to_nat n) (remaining logType None).
Proof.
  intros Hn Ho. unfold getEventsForLogType. rewrite decide_False by naive_solver.
  rewrite partitionLocations_hours. run.
  rewrite visit_partitions_spec; [|apply partitions_under|done]. cbv zeta.
  cbn [fmap option_fmap option_map app length]. rewrite Z.sub_0_r. eexists. split; [done|].
  apply (advance_spec logType []); [done|lia|done].
Qed.

Lemma getEvents_next logType tok n :
  0 < n → valid_token (Some tok) →
  ∃ tok', getEvents logType (Some tok) alert n =
      Ret (Ok (take (Z.to_nat n) (remaining logType (Some tok)), tok')) ∧
    valid_token (Some tok') ∧
    remaining logType (Some tok') = drop (Z.to_nat n) (remaining logType (Some tok)).
Proof.
  intros Hn [Hk Hi]. unfold getEventsForLogType. rewrite queryS3Object_spec by done.
  run. unfold remaining at 1 3. set (k := S3ObjectKey tok) in *.
  set (i := Z.to_nat (EventIndex tok)). set (r := drop i (records k)).
  set (after := filter (slt k) (objects logType)).
  assert (length r = length (records k) - i)%nat as Hr by (unfold r; apply length_drop).
  destruct (decide (Z.to_nat n ≤ length r)%nat) as [Hf|Hf].
  - rewrite decide_True by (rewrite length_take; split; [done|lia]). eexists. split; [by rewrite take_app_le by lia|].
    rewrite Nat.min_l by lia. split; [split; cbn; [done|lia]|]. unfold remaining.
    cbn [S3ObjectKey EventIndex]. rewrite Nat2Z.id, drop_app_le by lia. unfold r. by rewrite drop_drop.
  - rewrite decide_False by (rewrite length_take; lia). rewrite take_ge by lia.
    rewrite partitionLocations_hours. run.
    rewrite visit_partitions_spec; [|apply partitions_under|lia]. cbv zeta.
    cbn [fmap option_fmap option_map]. fold k. rewrite partition_keys_after. fold (objects logType) after.
    rewrite Nat.min_r by lia. eexists. split.
    { do 3 f_equal. rewrite (take_app_ge r) by lia. do 2 f_equal. lia. }
    rewrite drop_app_ge by lia. destruct after as [|k1 l1] eqn:Ea.
    + cbn [advance]. split; [split; cbn; [done|lia]|]. unfold remaining. cbn [S3ObjectKey EventIndex].
      rewrite Nat2Z.id, drop_ge by lia. fold after. rewrite Ea. cbn. by rewrite drop_nil.
    + destruct (sorted_after k _ (objects_sorted logType)) as [l0 E]. fold after in E. rewrite Ea in E.
      replace (Z.to_nat n - length r)%nat with (Z.to_nat (n - Z.of_nat (length r))) by lia.
      eapply advance_spec; [exact E|lia|done].
Qed.

Lemma getEvents_spec logType token n :
  0 < n → valid_token token → objects logType ≠ [] →
  ∃ tok', getEvents logType token alert n =
      Ret (Ok (take (Z.to_nat n) (remaining logType token), tok')) ∧
    valid_token (Some tok') ∧
    remaining logType (Some tok') = drop (Z.to_nat n) (remaining logType token).
Proof. intros. destruct token; [by apply getEvents_next|by apply getEvents_first]. Qed.

(** ** The loop over the log types *)

Definition remaining_all (token : EventPaginationToken) (logTypes : list string) : list string :=
  concat ((λ lt, remaining lt (token_get token lt)) <$> logTypes).

Definition valid_tokens (token : EventPaginationToken) (logTypes : list string) : Prop :=
  is_Some (LogTypeToToken token) ∧ Forall (λ lt, valid_token (token_get token lt)) logTypes.

Lemma token_set_get token lt v :
  is_Some (LogTypeToToken token) →
  ∃ token', token_set token lt v = Ret token' ∧ is_Some (LogTypeToToken token') ∧
    ∀ lt', token_get token' lt' = if decide (lt' = lt) then Some v else token_get token lt'.
Proof.
  intros [m Hm]. unfold token_set, token_get. rewrite Hm. eexists. split; [done|]. cbn. split; [eauto|].
  intros lt'. case_decide; subst; [by rewrite lookup_insert_eq|by rewrite lookup_insert_ne by done].
Qed.

Lemma remaining_all_ext token token' logTypes :
  (∀ lt, lt ∈ logTypes → token_get token' lt = token_get token lt) →
  remaining_all token' logTypes = remaining_all token logTypes.
Proof.
  intros H. unfold remaining_all. f_equal. apply list_fmap_ext. intros i lt Hi.
  by rewrite H by (eapply list_elem_of_lookup_2; exact Hi).
Qed.

#[local] Notation collect := (collect_events ListObjectsV2Pages SelectObjectContent alert).

Lemma collect_events_spec size logTypes token events :
  NoDup logTypes → Forall (λ lt, objects lt ≠ []) logTypes → valid_tokens token logTypes →
  Z.of_nat (length events) < size →
  let n := Z.to_nat (size - Z.of_nat (length events)) in
  ∃ token', collect size logTypes token events =
      Ret (Ok (token', events ++ take n (remaining_all token logTypes))) ∧
    valid_tokens token' logTypes ∧
    remaining_all token' logTypes = drop n (remaining_all token logTypes) ∧
    ∀ lt, lt ∉ logTypes → token_get token' lt = token_get token lt.
Proof.
  revert token events. induction logTypes as [|lt lts IH]; intros token events Hnd Ho [Hm Hv] Hs; cbv zeta.
  { exists token. cbn. rewrite take_nil, drop_nil, app_nil_r. by split_and!. }
  apply NoDup_cons in Hnd as [Hlt Hnd]. apply Forall_cons in Ho as [Ho Hos], Hv as [Hv Hvs].
  cbn [collect_events]. set (n := Z.to_nat (size - Z.of_nat (length events))).
  destruct (getEvents_spec lt (token_get token lt) (size - Z.of_nat (length events)))
    as (tok&->&Hvt&Hrt); [lia|done..|]. run. fold n in Hrt |- *.
  destruct (token_set_get token lt tok Hm) as (token1&->&Hm1&Hg). run.
  set (R := remaining lt (token_get token lt)) in *. set (Rs := remaining_all token lts).
  assert (remaining_all token (lt :: lts) = R ++ Rs) as -> by done.
  assert (∀ lt', lt' ∈ lts → token_get token1 lt' = token_get token lt') as Hold.
  { intros lt' Hin. rewrite Hg. case_decide; [|done]. by subst. }
  assert (Forall (λ lt', valid_token (token_get token1 lt')) lts) as Hvs1.
  { apply Forall_forall. intros lt' Hin. rewrite Hold by done. rewrite Forall_forall in Hvs. auto. }
  assert (token_get token1 lt = Some tok) as Hlt1 by (rewrite Hg; by rewrite decide_True).
  destruct (decide (n ≤ length R)%nat) as [Hn|Hn].
  - rewrite decide_True by (rewrite length_app, length_take; lia). exists token1.
    rewrite take_app_le, drop_app_le by lia. split_and!; [done| |..].
    + split; [done|]. constructor; [by rewrite Hlt1|done].
    + change (remaining lt (token_get token1 lt) ++ remaining_all token1 lts = drop n R ++ Rs).
      by rewrite Hlt1, Hrt, (remaining_all_ext token).
    + intros lt' Hin. rewrite Hg, decide_False; [done|]. intros ->. apply Hin. by left.
  - rewrite decide_False by (rewrite length_app, length_take; lia). rewrite (take_ge R) by lia.
    destruct (IH token1 (events ++ R)) as (token2&->&[Hm2 Hv2]&Hr2&Hout); [done|done|by split|rewrite length_app; lia|].
    exists token2. rewrite (remaining_all_ext token token1) in * by done. fold Rs in Hr2 |- *.
    assert (Z.to_nat (size - Z.of_nat (length (events ++ R))) = n - length R)%nat as En
      by (rewrite length_app; lia).
    assert (token_get token2 lt = Some tok) as Hlt2 by (by rewrite Hout).
    rewrite take_more by (subst n; lia). split_and!; [done| |..].
    + split; [done|]. constructor; [by rewrite Hlt2|done].
    + change (remaining lt (token_get token2 lt) ++ remaining_all token2 lts = drop n (R ++ Rs)).
      rewrite Hlt2, Hrt, Hr2, En, drop_ge by lia. by rewrite drop_app_ge by lia.
    + intros lt' Hin. rewrite Hout, Hg, decide_False; [done|..]; [intros ->|intros ?]; apply Hin;
        [by left|by right].
Qed.

(** ** Reading an alert to the end *)

Context (db_GetAlert : string → result AlertItem) (Marshal : EventPaginationToken → result string)
        (Unmarshal : string → result EventPaginationToken).

#[local] Notation getAlert :=
  (GetAlert ListObjectsV2Pages SelectObjectContent db_GetAlert Marshal Unmarshal).

(** a client that reads [k] pages of [size] events, from [start] on *)
Fixpoint read_pages (id : string) (size : Z) (k : nat) (start : option string)
    : outcome (result (list string)) :=
  match k with
  | O => Ret (Ok [])
  | S k =>
      r ← getAlert {| giAlertID := id; giEventsPageSize := size; giEventsExclusiveStartKey := start |};
      match r with
      | Err e => Ret (Err e)
      | Ok out =>
          rest ← read_pages id size k (Some (goEventsLastEvaluatedKey out));
          match rest with
          | Err e => Ret (Err e)
          | Ok l => Ret (Ok (goEvents out ++ l))
          end
      end
  end.

(** jsoniter reads back the tokens it writes *)
Definition json_roundtrip : Prop := ∀ t, ∃ s, Marshal t = Ok s ∧ Unmarshal s = Ok t.

Definition start_token (start : option string) : result EventPaginationToken :=
  match start with None => Ok newPaginationToken | Some key => decodePaginationToken Unmarshal key end.

Lemma token_roundtrip t :
  json_roundtrip → ∃ s, encode Marshal t = Ok s ∧ start_token (Some s) = Ok t.
Proof.
  intros Hj. destruct (Hj t) as (s&Hm&Hu). unfold encode, start_token, decodePaginationToken. rewrite Hm.
  eexists. split; [done|]. rewrite b64_roundtrip. done.
Qed.

Lemma read_pages_from id size k start token :
  0 < size → db_GetAlert id = Ok alert → json_roundtrip →
  NoDup (LogTypes alert) → Forall (λ lt, objects lt ≠ []) (LogTypes alert) →
  start_token start = Ok token → valid_tokens token (LogTypes alert) →
  read_pages id size k start =
  Ret (Ok (take (k * Z.to_nat size) (remaining_all token (LogTypes alert)))).
Proof.
  intros Hs Hdb Hj Hnd Ho. revert start token. induction k as [|k IH]; intros start token Ht Hv; [done|].
  cbn [read_pages]. unfold GetAlert. cbn [giAlertID giEventsPageSize giEventsExclusiveStartKey].
  rewrite Hdb. change (match start with Some key => _ | None => _ end) with (start_token start).
  rewrite Ht. destruct (collect_events_spec size (LogTypes alert) token []) as (token'&->&Hv'&Hr&_);
    [done..|cbn; lia|]. cbn [mbind outcome_bind app length Z.of_nat] in *. rewrite Z.sub_0_r in *.
  destruct (token_roundtrip token' Hj) as (s&->&Hstart).
  cbn [mbind outcome_bind goEventsLastEvaluatedKey goEvents].
  rewrite (IH _ _ Hstart Hv'), Hr. run. by rewrite take_take_drop.
Qed.

Lemma remaining_new logTypes :
  remaining_all newPaginationToken logTypes = concat ((λ lt, events_of (objects lt)) <$> logTypes).
Proof. unfold remaining_all. f_equal. Qed.

Lemma valid_new logTypes : valid_tokens newPaginationToken logTypes.
Proof. split; [by eexists|]. by apply Forall_true. Qed.

(** C2: reading an alert page by page is complete.  If S3 lists and selects as
    documented and every log type of the alert has an object, then for each
    log type there is the list, in key order, of exactly the objects of the
    rule in the partitions of the hours between creation and update whose own
    time lies there too, and [k] pages of [size] events each, following the
    tokens, return the first [k * size] of the alert's events in these
    objects: nothing is lost, repeated or reordered, and no call fails. *)
Theorem read_pages_complete id size k :
  0 < size → db_GetAlert id = Ok alert → json_roundtrip → NoDup (LogTypes alert) →
  (∀ lt, lt ∈ LogTypes alert → ∃ key t, key ∈ bucket ∧ timely alert key ∧
     CreationTime alert ≤ t ≤ UpdateTime alert ∧
     under (rule_prefix alert (GetPartitionPrefix RuleData lt GlueTableHourly t)) key) →
  ∃ objs : string → list string,
    (∀ lt, StronglySorted slt (objs lt) ∧
       ∀ key, key ∈ objs lt ↔ key ∈ bucket ∧ timely alert key ∧
         ∃ t, CreationTime alert ≤ t ≤ UpdateTime alert ∧
           under (rule_prefix alert (GetPartitionPrefix RuleData lt GlueTableHourly t)) key) ∧
    read_pages id size k None =
    Ret (Ok (take (k * Z.to_nat size)
      (concat ((λ lt, concat (records <$> objs lt)) <$> LogTypes alert)))).
Proof.
  intros Hs Hdb Hj Hnd Hne. exists objects. split.
  { intros lt. split; [apply objects_sorted|apply elem_of_objects]. }
  assert (Forall (λ lt, objects lt ≠ []) (LogTypes alert)) as Hobj.
  { apply Forall_forall. intros lt Hlt E. destruct (Hne lt Hlt) as (key&t&?&?&?&?).
    assert (key ∈ objects lt) as Hin by (apply elem_of_objects; eauto). rewrite E in Hin.
    by apply elem_of_nil in Hin. }
  rewrite (read_pages_from id size k None _ Hs Hdb Hj Hnd Hobj eq_refl (valid_new _)).
  by rewrite remaining_new.
Qed.

(** a log type without objects breaks the next page.  If an alert's only
    log type has no object yet, the first page succeeds with no events, and the
    request with the token it returned fails, because S3 refuses the empty
    object key in that token. *)
Theorem empty_log_type_breaks_next_page id size lt e :
  0 < size → db_GetAlert id = Ok alert → json_roundtrip → LogTypes alert = [lt] →
  (∀ key t, key ∈ bucket → timely alert key → CreationTime alert ≤ t ≤ UpdateTime alert →
     ¬ under (rule_prefix alert (GetPartitionPrefix RuleData lt GlueTableHourly t)) key) →
  SelectObjectContent "" (select_query (AlertID alert)) = Err e →
  read_pages id size 1 None = Ret (Ok []) ∧ read_pages id size 2 None = Ret (Err e).
Proof.
  intros Hs Hdb Hj Hlt Hno Hsel.
  assert (objects lt = []) as Ho.
  { destruct (objects lt) as [|key l] eqn:E; [done|exfalso].
    assert (key ∈ objects lt) as (Hb&Ht&t&Hr&Hu)%elem_of_objects by (rewrite E; by left).
    by eapply Hno. }
  set (t1 := {| LogTypeToToken := Some {[lt := Some {| S3ObjectKey := ""; EventIndex := 0 |}]} |}).
  assert (collect size [lt] newPaginationToken [] = Ret (Ok (t1, []))) as E1.
  { cbn [collect_events length]. rewrite Z.sub_0_r. unfold getEventsForLogType.
    change (token_get newPaginationToken lt) with (mjoin ((∅ : gmap string (option LogTypeToken)) !! lt)).
    rewrite lookup_empty. cbn [mjoin option_join]. rewrite decide_False by naive_solver.
    rewrite partitionLocations_hours. run.
    rewrite visit_partitions_spec by (apply partitions_under || done). cbv zeta.
    cbn [fmap option_fmap option_map]. fold (objects lt). rewrite Ho. cbn [advance events_of fmap list_fmap concat].
    rewrite take_nil. cbn. by rewrite decide_False by lia. }
  assert (collect size [lt] t1 [] = Ret (Err e)) as E2.
  { cbn [collect_events length]. rewrite Z.sub_0_r. unfold getEventsForLogType, token_get. cbn [LogTypeToToken t1].
    rewrite lookup_singleton_eq. cbn [mjoin option_join S3ObjectKey EventIndex]. unfold queryS3Object.
    rewrite Hsel. done. }
  destruct (token_roundtrip t1 Hj) as (s&Es&Et).
  assert (∀ k, read_pages id size (S k) None =
    (rest ← read_pages id size k (Some s);
     match rest with Err e => Ret (Err e) | Ok l => Ret (Ok ([] ++ l)) end)) as Hfirst.
  { intros k. cbn [read_pages]. unfold GetAlert. cbn [giAlertID giEventsPageSize giEventsExclusiveStartKey].
    rewrite Hdb, Hlt, E1. run. by rewrite Es. }
  split; [by rewrite Hfirst|]. rewrite Hfirst. cbn [read_pages]. unfold GetAlert.
  cbn [giAlertID giEventsPageSize giEventsExclusiveStartKey]. rewrite Hdb, Hlt.
  change (decodePaginationToken Unmarshal s) with (start_token (Some s)). by rewrite Et, E2.
Qed.
End Pages.

(** ** Object keys carry their time *)

Lemma getnum_pad02 fixed z s : 0 ≤ z < 100 → getnum fixed (pad02 z +:+ s) = Ok (z, s).
Proof.
  intros Hz. pose proof (pad02_length z Hz) as Hl. destruct (pad02_digits z ltac:(lia)) as [Hd _].
  pose proof (parse_pad02 z ltac:(lia)) as Hp.
  destruct (pad02 z) as [|a [|b [|? ?]]]; try done. simpl in *.
  unfold is_digit in Hd. rewrite !andb_true_iff, !bool_decide_eq_true in Hd.
  destruct Hd as ([x Hx]&[y Hy]&_). rewrite Hx, Hy in *. simpl in Hp. injection Hp as <-.
  reflexivity.
Qed.

Lemma pad04_spec y : 1 ≤ y < 10000 →
  String.length (pad04 y) = 4%nat ∧ all_bytes is_digit (pad04 y) = true ∧ parse_digits 0 (pad04 y) = Some y.
Proof.
  intros Hy. destruct (itoa_digits y ltac:(lia)) as [Hd _]. pose proof (parse_digits_itoa y ltac:(lia)) as Hp.
  assert (∀ k, (10 ^ k ≤ Z.to_N y < 10 ^ (k + 1))%N → String.length (itoa y) = S (N.to_nat k)) as Hl.
  { intros k Hk. destruct y as [|p|p]; [lia| |lia].
    change (itoa (Zpos p)) with (pretty_N_go (Npos p) ""). rewrite (pretty_go_length (N.to_nat k)); [simpl; lia|].
    rewrite Nat2N.inj_succ, N2Nat.id, <-N.add_1_r. done. }
  unfold pad04. repeat case_decide; rewrite string_length_app, ?string_app_cons, string_app_nil_l; simpl.
  - rewrite (Hl 0%N); [split_and!; [done|exact Hd|exact Hp]|]. lia.
  - rewrite (Hl 1%N); [split_and!; [done|exact Hd|exact Hp]|]. lia.
  - rewrite (Hl 2%N); [split_and!; [done|exact Hd|exact Hp]|]. lia.
  - rewrite (Hl 3%N); [split_and!; [done|exact Hd|exact Hp]|]. lia.
Qed.

Lemma getyear_pad04 y s : 1 ≤ y < 10000 → getyear (pad04 y +:+ s) = Ok (y, s).
Proof.
  intros Hy. destruct (pad04_spec y Hy) as (Hl&_&Hp).
  destruct (pad04 y) as [|a [|b [|c [|d [|? ?]]]]]; try done. unfold getyear.
  rewrite !string_app_cons, string_app_nil_l. by rewrite Hp.
Qed.

Definition day_ok (leap : bool) (yd : Z) : bool :=
  let '(m, d) := month_day leap yd in
  d <=? (if decide (m = 2 ∧ leap = true) then 29 else daysBefore m - daysBefore (m - 1)).

Lemma days_ok leap : forallb (λ n, day_ok leap (Z.of_nat n)) (seq 0 (Z.to_nat (yearLen leap))) = true.
Proof. destruct leap; vm_compute; reflexivity. Qed.

Lemma Day_daysIn t : 1 ≤ Day t ≤ daysIn (Month t) (Year t).
Proof.
  split; [by apply month_range|]. unfold Day, Month, month_day_of, Year.
  pose proof (year_yday_bounds (days_of t)) as H. destruct (year_yday (days_of t)) as [y yd].
  destruct H as [_ Hyd]. cbn [fst snd]. set (leap := isLeap (y + 1)) in *.
  pose proof (days_ok leap) as Hd. rewrite forallb_forall in Hd.
  specialize (Hd (Z.to_nat yd)). rewrite Z2Nat.id in Hd by lia.
  assert (In (Z.to_nat yd) (seq 0 (Z.to_nat (yearLen leap)))) as Hin by (apply in_seq; lia).
  specialize (Hd Hin). unfold day_ok in Hd. unfold daysIn. fold leap.
  destruct (month_day leap yd) as [m d]. cbn [fst snd]. lia.
Qed.

Lemma ranged_ok lo hi x s : lo ≤ x < hi → ranged lo hi (Ok (x, s)) = Ok (x, s).
Proof. intros H. unfold ranged. by rewrite decide_True. Qed.

Lemma second_parts t :
  Truncate t Second =
  Truncate t Hour + t / (60 * Second) mod 60 * (60 * Second) + t / Second mod 60 * Second.
Proof.
  assert (t / (60 * Second) = t / Second / 60) as -> by (rewrite Z.mul_comm; by rewrite Z.div_div).
  assert (t / Hour = t / Second / 3600) as Eh by (unfold Hour; rewrite Z.mul_comm; by rewrite Z.div_div).
  rewrite !Truncate_mul, Eh by done. unfold Hour. clear Eh. generalize (t / Second). intros u.
  assert (u = u / 3600 * 3600 + u / 60 mod 60 * 60 + u mod 60) as E by lia.
  rewrite E at 1. ring.
Qed.

Lemma skip_T s : skip "T" ("T" +:+ s) = Ok s.
Proof. reflexivity. Qed.
Lemma getfrac_Z : getfrac "Z" = Ok (0, "Z").
Proof. reflexivity. Qed.
Lemma skip_Z : skip "Z" "Z" = Ok "".
Proof. reflexivity. Qed.

Lemma parse_fields y m d h mm ss :
  1 ≤ y < 10000 → 1 ≤ m ≤ 12 → 1 ≤ d ≤ daysIn m y → d ≤ 31 → 0 ≤ h < 24 → 0 ≤ mm < 60 → 0 ≤ ss < 60 →
  ParseS3Timestamp (pad04 y +:+ pad02 m +:+ pad02 d +:+ "T" +:+ pad02 h +:+ pad02 mm +:+ pad02 ss +:+ "Z")
  = Ok (Date y m d h + mm * (60 * Second) + ss * Second).
Proof.
  intros Hy Hm Hd Hd' Hh Hmm Hss. unfold ParseS3Timestamp.
  rewrite getyear_pad04 by done. run.
  rewrite getnum_pad02, ranged_ok by lia. run.
  rewrite getnum_pad02 by lia. run.
  rewrite skip_T. run.
  rewrite getnum_pad02, ranged_ok by lia. run.
  rewrite getnum_pad02, ranged_ok by lia. run.
  rewrite getnum_pad02, ranged_ok by lia. run.
  rewrite getfrac_Z. run. rewrite skip_Z. run.
  rewrite (decide_False (P := "" ≠ "")) by naive_solver. rewrite decide_False by lia.
  by rewrite Z.add_0_r.
Qed.

Lemma Parse_Format t : 1 ≤ Year t < 10000 → ParseS3Timestamp (FormatS3 t) = Ok (Truncate t Second).
Proof.
  intros Hy. unfold FormatS3. rewrite parse_fields.
  - by rewrite Date_of_time, <-second_parts.
  - done.
  - apply month_range.
  - apply Day_daysIn.
  - apply month_range.
  - apply HourOf_range.
  - apply Z.mod_pos_bound; done.
  - apply Z.mod_pos_bound; done.
Qed.

Lemma contains_byte_pad04 c y : is_digit c = false → 1 ≤ y < 10000 → contains_byte c (pad04 y) = false.
Proof. intros Hc Hy. apply digits_no_byte; [done|]. by apply pad04_spec. Qed.

Lemma contains_byte_pad02 c z : is_digit c = false → 0 ≤ z → contains_byte c (pad02 z) = false.
Proof. intros Hc Hz. apply digits_no_byte; [done|]. by apply pad02_digits. Qed.

Lemma FormatS3_no_byte c t :
  is_digit c = false → c ≠ "T"%char → c ≠ "Z"%char → 1 ≤ Year t < 10000 → contains_byte c (FormatS3 t) = false.
Proof.
  intros Hc HT HZ Hy. pose proof (month_range t). pose proof (HourOf_range t).
  assert (0 ≤ t / (60 * Second) mod 60 ∧ 0 ≤ t / Second mod 60) as [? ?] by (split; apply Z.mod_pos_bound; lia).
  unfold FormatS3. rewrite !contains_byte_app, contains_byte_pad04, !contains_byte_pad02 by (done || lia).
  simpl. rewrite !decide_False by done. done.
Qed.

(** an object key made of a directory, the timestamp that the log
    processor and the rules engine write, and an identifier, parses back to
    that time, to the second. *)
Theorem timeFromS3ObjectKey_roundtrip dir t id :
  1 ≤ Year t < 10000 → contains_byte "/" id = false →
  timeFromS3ObjectKey (dir +:+ "/" +:+ FormatS3 t +:+ "-" +:+ id) = Ok (Truncate t Second).
Proof.
  intros Hy Hid. unfold timeFromS3ObjectKey.
  change ("/" +:+ ?x) with (String "/" x). change ("-" +:+ ?x) with (String "-" x).
  rewrite last_split.
  - change (default "" (Some ?s)) with s. rewrite split_on_app by (apply FormatS3_no_byte; done).
    change (default "" (head (?s :: ?l))) with s. by apply Parse_Format.
  - rewrite contains_byte_app, FormatS3_no_byte by done. simpl. by rewrite Hid.
Qed.

(** ** Concrete instances *)

Lemma timeFromS3ObjectKey_roundtrip_witness :
  timeFromS3ObjectKey ("rules/t/year=2020" +:+ "/" +:+ FormatS3 (Unix 1600000000) +:+ "-" +:+ "u.json.gz")
  = Ok (Unix 1600000000).
Proof. exact (timeFromS3ObjectKey_roundtrip "rules/t/year=2020" (Unix 1600000000) "u.json.gz"
  ltac:(vm_compute; split; [discriminate|reflexivity]) eq_refl). Defined.

Definition demo_alert (lts : list string) : AlertItem :=
  {| AlertID := "0cc175b9c0f1b6a831c399e269772661"; RuleID := "R"; RuleVersion := "v"; RuleDisplayName := None;
     Title := None; DedupString := "d"; CreationTime := Unix 1600000000; UpdateTime := Unix 1600003600;
     Severity := "HIGH"; EventCount := 3; LogTypes := lts |}.

Definition demo_key (t : Time) (id : string) : string :=
  rule_prefix (demo_alert []) (GetPartitionPrefix RuleData "AWS.CloudTrail" GlueTableHourly t)
  +:+ FormatS3 t +:+ "-" +:+ id +:+ ".json.gz".
Definition demo_first : string := demo_key (Unix 1600000000) "a".
Definition demo_second : string := demo_key (Unix 1600003500) "b".
Definition demo_bucket : list string := [demo_first; demo_second].
Definition demo_records (k : string) : list string := if decide (k = demo_first) then ["e1"; "e2"] else ["e3"].

Definition demo_list (prefix : string) (start : option string) : list (list string) * option error :=
  ([filter (λ k, under prefix k ∧ after_start start k) demo_bucket], None).
Definition demo_select (k query : string) : result (list SelectEvent * option error) :=
  if decide (k = "") then Err (ErrMsg "minimum field size of 1, SelectObjectContentInput.Key")
  else Ok ([RecordsEvent (lines (demo_records k)); StatsEvent], None).

(** an invertible text for tokens *)
#[export] Instance LogTypeToken_eq_dec : EqDecision LogTypeToken.
Proof. solve_decision. Defined.
#[export] Instance LogTypeToken_countable : Countable LogTypeToken.
Proof.
  apply (inj_countable' (λ t, (S3ObjectKey t, EventIndex t)) (λ p, {| S3ObjectKey := p.1; EventIndex := p.2 |})).
  by intros [].
Defined.
Definition demo_Marshal (t : EventPaginationToken) : result string :=
  Ok (itoa (Zpos (countable.encode (LogTypeToToken t)))).
Definition demo_Unmarshal (s : string) : result EventPaginationToken :=
  match parse_digits 0 s with
  | Some (Zpos p) => match countable.decode p with
                     | Some m => Ok {| LogTypeToToken := m |}
                     | None => Err parse_error
                     end
  | _ => Err parse_error
  end.

Lemma demo_json : json_roundtrip demo_Marshal demo_Unmarshal.
Proof.
  intros [m]. eexists. split; [done|]. unfold demo_Unmarshal. rewrite parse_digits_itoa by done.
  by rewrite decode_encode.
Qed.

Lemma demo_bucket_cases k : k ∈ demo_bucket → k = demo_first ∨ k = demo_second.
Proof. unfold demo_bucket. rewrite !elem_of_cons, elem_of_nil. tauto. Qed.

Lemma demo_s3_ok lts : s3_ok demo_list demo_select demo_bucket demo_records (demo_alert lts).
Proof.
  split.
  - repeat constructor.
  - intros prefix start. eexists. split; [done|]. cbn [concat]. by rewrite app_nil_r.
  - intros k [-> | ->]%demo_bucket_cases; eexists; (split; [reflexivity|]); reflexivity.
  - intros k. unfold demo_records. case_decide; repeat constructor; done.
  - intros k [-> | ->]%demo_bucket_cases _; eexists; vm_compute; reflexivity.
  - vm_compute. split; [discriminate|reflexivity].
Qed.

Definition demo_db (lts : list string) (id : string) : result AlertItem := Ok (demo_alert lts).

Lemma demo_first_timely : timely (demo_alert ["AWS.CloudTrail"]) demo_first.
Proof.
  assert (timeFromS3ObjectKey demo_first = Ok (Unix 1600000000)) as E by (vm_compute; reflexivity).
  unfold timely. rewrite E. split; vm_compute; discriminate.
Qed.

Lemma read_pages_complete_witness :
  ∃ objs : string → list string,
    read_pages demo_list demo_select (demo_db ["AWS.CloudTrail"]) demo_Marshal demo_Unmarshal "" 2 2 None =
    Ret (Ok (take (2 * Z.to_nat 2)
      (concat ((λ lt, concat (demo_records <$> objs lt)) <$> ["AWS.CloudTrail"])))) ∧
    demo_first ∈ objs "AWS.CloudTrail".
Proof.
  pose proof demo_first_timely as Ht.
  assert (under (rule_prefix (demo_alert ["AWS.CloudTrail"]) (GetPartitionPrefix RuleData "AWS.CloudTrail"
    GlueTableHourly (Unix 1600000000))) demo_first) as Hu by apply has_prefix_app.
  assert (demo_first ∈ demo_bucket) as Hb by (by left).
  assert (CreationTime (demo_alert ["AWS.CloudTrail"]) ≤ Unix 1600000000
          ≤ UpdateTime (demo_alert ["AWS.CloudTrail"])) as Hr by (vm_compute; split; discriminate).
  destruct (read_pages_complete demo_list demo_select demo_bucket demo_records (demo_alert ["AWS.CloudTrail"])
    (demo_s3_ok _) (demo_db ["AWS.CloudTrail"]) demo_Marshal demo_Unmarshal "" 2 2) as (objs&H1&H2).
  - lia.
  - reflexivity.
  - exact demo_json.
  - repeat constructor. by intros ?%elem_of_nil.
  - intros lt [->|[]%elem_of_nil]%elem_of_cons. exists demo_first, (Unix 1600000000).
    exact (conj Hb (conj Ht (conj Hr Hu))).
  - exists objs. split; [exact H2|]. apply (proj2 (H1 "AWS.CloudTrail")).
    exact (conj Hb (conj Ht (ex_intro _ _ (conj Hr Hu)))).
Defined.

Lemma empty_log_type_breaks_next_page_witness :
  read_pages demo_list demo_select (demo_db ["AWS.ALB"]) demo_Marshal demo_Unmarshal "" 5 2 None =
  Ret (Err (ErrMsg "minimum field size of 1, SelectObjectContentInput.Key")).
Proof.
  apply (empty_log_type_breaks_next_page demo_list demo_select demo_bucket demo_records (demo_alert ["AWS.ALB"])
    (demo_s3_ok _) (demo_db ["AWS.ALB"]) demo_Marshal demo_Unmarshal "" 5 "AWS.ALB").
  - lia.
  - reflexivity.
  - exact demo_json.
  - reflexivity.
  - intros key t Hk _ _ [r Hr]%has_prefix_split.
    apply demo_bucket_cases in Hk as [E|E]; rewrite E in Hr;
      apply (f_equal (λ s, String.substring 0 16 s)) in Hr; vm_compute in Hr; discriminate.
  - reflexivity.
Defined.
