(* ===== verification/AwsClassifiers.v ===== *)
(** * AWS event processor: the classifiers of CloudTrail events

    Model of src/internal/compliance/aws_event_processor/processor: one
    function per AWS service that says which resources an event changed, and
    the helpers they share.  The JSON library (gjson) and the ARN package of
    the AWS SDK are reached through the classes [GJson] and [AwsArn]; Go's
    regexp is modelled as far as the Lambda classifier uses it. *)

From S2P Require Import Prelude.

#[local] Open Scope Z_scope.

(** ** Interfaces *)

(** gjson.Result, as far as the classifiers use it *)
Class GJson (J : Type) := {
  Get : J → string → J;
  Exists : J → bool;
  Str : J → string;
  Bool : J → bool;
  Array : J → list J;
  Parse : string → J;
  GetIn : string → string → J     (* gjson.Get on a JSON text *)
}.

Record ARN := {
  Partition : string;
  Service : string;
  arnRegion : string;
  arnAccountID : string;
  Resource : string
}.

(** arn.Parse and ARN.String *)
Class AwsArn := {
  arn_Parse : string → result ARN;
  arn_String : ARN → string
}.

Definition zeroARN : ARN :=
  {| Partition := ""; Service := ""; arnRegion := ""; arnAccountID := ""; Resource := "" |}.

(** ** process.go: data *)

Record resourceChange := {
  AwsAccountID : string;
  Delay : Z;
  Delete : bool;
  EventName : string;
  EventTime : string;
  IntegrationID : string;
  Region : string;
  ResourceID : string;
  ResourceType : string
}.

Record CloudTrailMetadata := {
  region : string;
  accountID : string;
  eventSource : string;
  eventName : string
}.

(** a change of one resource, a scan of all resources of a type *)
Definition change (account : string) (delete : bool) (event id type : string) : resourceChange :=
  {| AwsAccountID := account; Delay := 0; Delete := delete; EventName := event; EventTime := "";
     IntegrationID := ""; Region := ""; ResourceID := id; ResourceType := type |}.
Definition scan (account event region type : string) : resourceChange :=
  {| AwsAccountID := account; Delay := 0; Delete := false; EventName := event; EventTime := "";
     IntegrationID := ""; Region := region; ResourceID := ""; ResourceType := type |}.
Definition delayed (d : Z) (c : resourceChange) : resourceChange :=
  {| AwsAccountID := AwsAccountID c; Delay := d; Delete := Delete c; EventName := EventName c;
     EventTime := EventTime c; IntegrationID := IntegrationID c; Region := Region c;
     ResourceID := ResourceID c; ResourceType := ResourceType c |}.

(** ** The schemas of the snapshot poller *)

Definition AcmCertificateSchema : string := "AWS.ACM.Certificate".
Definition CloudFormationStackSchema : string := "AWS.CloudFormation.Stack".
Definition CloudTrailSchema : string := "AWS.CloudTrail".
Definition CloudWatchLogGroupSchema : string := "AWS.CloudWatch.LogGroup".
Definition ConfigServiceSchema : string := "AWS.Config.Recorder".
Definition DynamoDBTableSchema : string := "AWS.DynamoDB.Table".
Definition Ec2AmiSchema : string := "AWS.EC2.AMI".
Definition Ec2InstanceSchema : string := "AWS.EC2.Instance".
Definition Ec2NetworkAclSchema : string := "AWS.EC2.NetworkACL".
Definition Ec2SecurityGroupSchema : string := "AWS.EC2.SecurityGroup".
Definition Ec2VolumeSchema : string := "AWS.EC2.Volume".
Definition Ec2VpcSchema : string := "AWS.EC2.VPC".
Definition EcsClusterSchema : string := "AWS.ECS.Cluster".
Definition Elbv2LoadBalancerSchema : string := "AWS.ELBV2.ApplicationLoadBalancer".
Definition GuardDutySchema : string := "AWS.GuardDuty.Detector".
Definition IAMGroupSchema : string := "AWS.IAM.Group".
Definition IAMPolicySchema : string := "AWS.IAM.Policy".
Definition IAMRoleSchema : string := "AWS.IAM.Role".
Definition IAMRootUserSchema : string := "AWS.IAM.RootUser".
Definition IAMUserSchema : string := "AWS.IAM.User".
Definition KmsKeySchema : string := "AWS.KMS.Key".
Definition LambdaFunctionSchema : string := "AWS.Lambda.Function".
Definition PasswordPolicySchema : string := "AWS.PasswordPolicy".
Definition RDSInstanceSchema : string := "AWS.RDS.Instance".
Definition RedshiftClusterSchema : string := "AWS.Redshift.Cluster".
Definition S3BucketSchema : string := "AWS.S3.Bucket".
Definition WafRegionalWebAclSchema : string := "AWS.WAF.Regional.WebACL".
Definition WafWebAclSchema : string := "AWS.WAF.WebACL".
Definition GlobalRegion : string := "global".

Definition oneOf (name : string) (names : list string) : bool := bool_decide (name ∈ names).

(** ** regexp: leftmost-first matching with submatches *)

Inductive regex :=
| RChar (P : ascii → bool)
| RLit (s : string)
| RSeq (r1 r2 : regex)
| RAlt (r1 r2 : regex)
| ROpt (r : regex)            (* greedy *)
| RPlus (P : ascii → bool)    (* greedy, of a byte class *)
| RStar (P : ascii → bool)
| RGroup (n : nat) (r : regex).

Notation captures := (list (nat * string)).

(** drop a literal prefix *)
Fixpoint strip (p s : string) : option string :=
  match p, s with
  | EmptyString, _ => Some s
  | String a p', String b s' => if decide (a = b) then strip p' s' else None
  | _, EmptyString => None
  end.

(** the text consumed between [s] and its suffix [s'] *)
Definition consumed (s s' : string) : string := String.substring 0 (String.length s - String.length s') s.

Fixpoint star_then {A} (P : ascii → bool) (s : string) (k : string → option A) : option A :=
  match s with
  | EmptyString => k s
  | String c s' =>
      if P c then match star_then P s' k with Some a => Some a | None => k s end else k s
  end.

(** backtracking in order of preference; [k] matches what follows *)
Fixpoint rmatch {A} (r : regex) (s : string) (caps : captures)
    (k : string → captures → option A) : option A :=
  match r with
  | RChar P => match s with String c s' => if P c then k s' caps else None | EmptyString => None end
  | RLit l => match strip l s with Some s' => k s' caps | None => None end
  | RSeq r1 r2 => rmatch r1 s caps (λ s caps, rmatch r2 s caps k)
  | RAlt r1 r2 => match rmatch r1 s caps k with Some a => Some a | None => rmatch r2 s caps k end
  | ROpt r => match rmatch r s caps k with Some a => Some a | None => k s caps end
  | RPlus P => match s with
               | String c s' => if P c then star_then P s' (λ s, k s caps) else None
               | EmptyString => None
               end
  | RStar P => star_then P s (λ s, k s caps)
  | RGroup n r => rmatch r s caps (λ s' caps, k s' ((n, consumed s s') :: caps))
  end.

(** leftmost match; [None] is FindStringSubmatch returning nil *)
Fixpoint FindStringSubmatch (r : regex) (s : string) : option captures :=
  match rmatch r s [] (λ _ caps, Some caps) with
  | Some caps => Some caps
  | None => match s with EmptyString => None | String _ s' => FindStringSubmatch r s' end
  end.

Definition submatch (n : nat) (caps : captures) : string :=
  default "" (snd <$> List.find (λ p, Nat.eqb p.1 n) caps).

(** ** lambda.go: names *)

Definition alpha (c : ascii) : bool :=
  let n := nat_of_ascii c in ((65 <=? n) && (n <=? 90) || (97 <=? n) && (n <=? 122))%nat.
Definition lower (c : ascii) : bool := let n := nat_of_ascii c in ((97 <=? n) && (n <=? 122))%nat.
Definition byte_in (s : string) (c : ascii) : bool := contains_byte c s.
Definition name_byte (c : ascii) : bool := alpha c || is_digit c || byte_in "-_" c.

Fixpoint rrep (n : nat) (r : regex) : regex :=
  match n with O => RLit "" | S n => RSeq r (rrep n r) end.

Definition lambdaNameRegex : regex :=
  RSeq (ROpt (RGroup 1 (RSeq (RLit "arn:")
               (RSeq (ROpt (RGroup 2 (RSeq (RLit "aws") (RStar (λ c, alpha c || byte_in "-" c)))))
                     (RLit ":lambda:")))))
 (RSeq (ROpt (RGroup 3 (RSeq (rrep 2 (RChar lower)) (RSeq (ROpt (RGroup 4 (RLit "-gov")))
               (RSeq (RLit "-") (RSeq (RPlus lower) (RSeq (RLit "-") (RSeq (RChar is_digit) (RLit ":")))))))))
 (RSeq (ROpt (RGroup 5 (RSeq (rrep 12 (RChar is_digit)) (RLit ":"))))
 (RSeq (ROpt (RGroup 6 (RLit "function:")))
 (RSeq (RGroup 7 (RPlus name_byte))
       (ROpt (RGroup 8 (RSeq (RLit ":") (RGroup 9 (RAlt (RLit "$LATEST") (RPlus name_byte)))))))))).

(** lambdaNameRegex.FindStringSubmatch(functionName)[7]: indexing nil panics *)
Definition lambdaName (functionName : string) : outcome string :=
  match FindStringSubmatch lambdaNameRegex functionName with
  | Some caps => Ret (submatch 7 caps)
  | None => Panic "index out of range [7] with length 0"
  end.

Example lambdaName_examples :
  lambdaName "my-function" = Ret "my-function" ∧ lambdaName "my-function:v1" = Ret "my-function" ∧
  lambdaName "arn:aws:lambda:us-west-2:123456789012:function:my-function" = Ret "my-function" ∧
  lambdaName "123456789012:function:my-function" = Ret "my-function".
Proof. vm_compute. done. Qed.

(** strings.Replace(s, old, "", 1) *)
Fixpoint remove_first (old s : string) : string :=
  match strip old s with
  | Some s' => s'
  | None => match s with EmptyString => EmptyString | String c s' => String c (remove_first old s') end
  end.

(** the versions, sorted in descending order by init *)
Definition lambdaVersions : list string := ["20181031"; "20170331v2"; "20170331"; "20150331v2"; "20150331"].

Fixpoint strip_versions (versions : list string) (eventName : string) : string :=
  match versions with
  | [] => eventName
  | version :: versions =>
      let strippedEventName := remove_first version eventName in
      if decide (slen strippedEventName < slen eventName) then strippedEventName
      else strip_versions versions eventName
  end.

Definition getLambdaBaseEventName (eventName : string) : string := strip_versions lambdaVersions eventName.

Section Classifiers.
Context {J : Type} {gjson : GJson J} {awsarn : AwsArn}.

#[local] Notation "d @ p" := (Str (Get d p)) (at level 15, left associativity).

Definition arnOf (service region account resource : string) : ARN :=
  {| Partition := "aws"; Service := service; arnRegion := region; arnAccountID := account;
     Resource := resource |}.

(** *** acm.go *)
Definition classifyACM (detail : J) (md : CloudTrailMetadata) : list resourceChange :=
  let result certARN :=
    [change (accountID md) (String.eqb (eventName md) "DeleteCertificate") (eventName md) certARN
       AcmCertificateSchema] in
  if oneOf (eventName md) ["AddTagsToCertificate"; "DeleteCertificate"; "RemoveTags"; "RenewCertificate";
       "UpdateCertificateOptions"; "RemoveTagsFromCertificate"]
  then result (detail @ "requestParameters.certificateArn")
  else if oneOf (eventName md) ["ImportCertificate"; "RequestCertificate"]
  then result (detail @ "responseElements.certificateArn")
  else [].

(** *** cloudformation.go *)
Definition classifyCloudFormation (detail : J) (md : CloudTrailMetadata) : list resourceChange :=
  let result stackARN :=
    [delayed 120 (change (accountID md) (String.eqb (eventName md) "DeleteStack") (eventName md)
       (arn_String stackARN) CloudFormationStackSchema)] in
  if oneOf (eventName md) ["CancelUpdateStack"; "CreateChangeSet"; "ContinueUpdateRollback"; "DeleteStack";
       "SetStackPolicy"; "UpdateStack"; "ExecuteChangeSet"]
  then
    let stackName := detail @ "requestParameters.stackName" in
    if decide (stackName = "") then []
    else match arn_Parse stackName with
         | Ok fullARN => result fullARN
         | Err _ => result (arnOf "cloudformation" (region md) (accountID md) ("stack/" +:+ stackName))
         end
  else if oneOf (eventName md) ["CreateStack"] then
    match arn_Parse (detail @ "responseElements.stackId") with
    | Ok stackARN => result stackARN
    | Err _ => []
    end
  else if oneOf (eventName md) ["UpdateTerminationProtection"] then
    [scan (accountID md) (eventName md) (region md) CloudFormationStackSchema]
  else if oneOf (eventName md) ["CreateStackInstances"; "DeleteStackInstances"] then
    [scan (accountID md) (eventName md) "" CloudFormationStackSchema]
  else [].

(** *** cloudtrail.go *)
Definition trailARN (detail : J) (md : CloudTrailMetadata) : ARN :=
  match arn_Parse (detail @ "requestParameters.name") with
  | Ok trailARN => trailARN
  | Err _ => arnOf "cloudtrail" (region md) (accountID md) ("trail/" +:+ detail @ "requestParameters.name")
  end.

Definition classifyCloudTrail (detail : J) (md : CloudTrailMetadata) : list resourceChange :=
  let result trailARNBase :=
    if decide (accountID md ≠ arnAccountID trailARNBase) then []
    else [change (accountID md) false (eventName md) (arn_String trailARNBase) CloudTrailSchema] in
  if oneOf (eventName md) ["AddTags"; "RemoveTags"] then
    match arn_Parse (detail @ "requestParameters.resourceId") with
    | Ok trailARNBase => result trailARNBase
    | Err _ => []
    end
  else if oneOf (eventName md) ["StartLogging"; "StopLogging"; "UpdateTrail"] then result (trailARN detail md)
  else if oneOf (eventName md) ["CreateTrail"; "PutEventSelectors"] then
    [scan (accountID md) (eventName md) "" CloudTrailSchema]
  else if oneOf (eventName md) ["DeleteTrail"] then
    [change (accountID md) true (eventName md) (arn_String (trailARN detail md)) CloudTrailSchema;
     scan (accountID md) (eventName md) "" CloudTrailSchema]
  else [].

(** *** cloudwatch_log_group.go *)
Definition classifyCloudWatchLogGroup (detail : J) (md : CloudTrailMetadata) : list resourceChange :=
  if oneOf (eventName md) ["AssociateKmsKey"; "CreateLogGroup"; "DeleteLogGroup"; "DeleteLogStream";
       "DeleteMetricFilter"; "DeleteRetentionPolicy"; "DeleteSubscriptionFilter"; "DisassociateKmsKey";
       "PutMetricFilter"; "PutRetentionPolicy"; "PutSubscriptionFilter"; "TagLogGroup"; "UntagLogGroup"]
  then [change (accountID md) (String.eqb (eventName md) "DeleteLogGroup") (eventName md)
          (arn_String (arnOf "logs" (region md) (accountID md)
             ("log-group:" +:+ detail @ "requestParameters.logGroupName"))) CloudWatchLogGroupSchema]
  else [].

(** *** config.go and guardduty.go *)
Definition regional_id (md : CloudTrailMetadata) (schema : string) : string :=
  accountID md +:+ ":" +:+ region md +:+ ":" +:+ schema.

Definition classifyConfig (_ : J) (md : CloudTrailMetadata) : list resourceChange :=
  if oneOf (eventName md) ["StartConfigRulesEvaluation"; "StartConfigurationRecorder"; "StopConfigurationRecorder"]
  then [change (accountID md) false (eventName md) (regional_id md ConfigServiceSchema) ConfigServiceSchema]
  else if oneOf (eventName md) ["PutConfigurationRecorder"]
  then [scan (accountID md) (eventName md) "" ConfigServiceSchema]
  else if oneOf (eventName md) ["DeleteConfigurationRecorder"]
  then [change (accountID md) true (eventName md) (regional_id md ConfigServiceSchema) ConfigServiceSchema;
        scan (accountID md) (eventName md) "" ConfigServiceSchema]
  else [].

Definition classifyGuardDuty (_ : J) (md : CloudTrailMetadata) : list resourceChange :=
  if oneOf (eventName md) ["TagResource"; "UntagResource"; "UpdateDetector"]
  then [change (accountID md) false (eventName md) (regional_id md GuardDutySchema) GuardDutySchema]
  else if oneOf (eventName md) ["AcceptInvitation"; "CreateDetector"; "CreateMembers";
       "CreatePublishingDestination"; "DeleteMembers"; "DisassociateFromMasterAccount"; "DisassociateMembers";
       "StartMonitoringMembers"; "StopMonitoringMembers"]
  then [scan (accountID md) (eventName md) "" GuardDutySchema]
  else if oneOf (eventName md) ["DeleteDetector"]
  then [change (accountID md) true (eventName md) (regional_id md GuardDutySchema) GuardDutySchema;
        scan (accountID md) (eventName md) "" GuardDutySchema]
  else [].

(** *** dynamodb.go *)
Definition classifyDynamoDB (detail : J) (md : CloudTrailMetadata) : list resourceChange :=
  let result dynamoARN :=
    [change (accountID md) (String.eqb (eventName md) "DeleteTable") (eventName md) (arn_String dynamoARN)
       DynamoDBTableSchema] in
  let table region name := arnOf "dynamodb" region (accountID md) ("table/" +:+ name) in
  let replica region :=
    change (accountID md) false (eventName md)
      (arn_String (table region (detail @ "requestParameters.globalTableName"))) DynamoDBTableSchema in
  if oneOf (eventName md) ["CreateBackup"; "CreateTable"; "DeleteTable"; "UpdateContinuousBackups";
       "UpdateTable"; "UpdateTimeToLive"]
  then result (table (region md) (detail @ "requestParameters.tableName"))
  else if oneOf (eventName md) ["CreateGlobalTable"] then
    (λ repl, replica (repl @ "regionName")) <$> Array (Get detail "requestParameters.replicationGroup")
  else if oneOf (eventName md) ["UpdateGlobalTable"] then
    concat ((λ update,
      let created := update @ "create.regionName" in
      let deleted := update @ "delete.regionName" in
      (if decide (created ≠ "") then [replica created] else [])
      ++ (if decide (deleted ≠ "") then [replica deleted] else []))
      <$> Array (Get detail "requestParameters.replicaUpdates"))
  else if oneOf (eventName md) ["UpdateGlobalTableSettings"] then
    (λ repl, replica (repl @ "regionName")) <$> Array (Get detail "responseElements.replicaSettings")
  else if oneOf (eventName md) ["RestoreTableFromBackup"; "RestoreTableToPointInTime"] then
    result (table (region md) (detail @ "requestParameters.targetTableName"))
  else if oneOf (eventName md) ["TagResource"; "UntagResource"] then
    match arn_Parse (detail @ "requestParameters.resourceArn") with
    | Ok tableARN => result tableARN
    | Err _ => []
    end
  else [].

(** *** ecs.go *)
Definition ecs_result (md : CloudTrailMetadata) (clusterARN : string) : list resourceChange :=
  if decide (clusterARN = "") then []
  else
    let clusterARN :=
      match arn_Parse clusterARN with
      | Ok _ => clusterARN
      | Err _ => arn_String (arnOf "ecs" (region md) (accountID md) ("cluster/" +:+ clusterARN))
      end in
    [change (accountID md) (String.eqb (eventName md) "DeleteCluster") (eventName md) clusterARN EcsClusterSchema].

Definition classifyECS (detail : J) (md : CloudTrailMetadata) : list resourceChange :=
  if oneOf (eventName md) ["CreateTaskSet"; "DeleteCluster"; "DeleteTaskSet"; "UpdateServicePrimaryTaskSet";
       "UpdateTaskSet"]
  then ecs_result md (detail @ "requestParameters.cluster")
  else if oneOf (eventName md) ["CreateService"; "DeleteAttributes"; "DeleteService";
       "DeregisterContainerInstance"; "PutAttributes"; "RegisterContainerInstance"; "RunTask"; "StartTask";
       "StopTask"; "SubmitAttachmentStateChanges"; "SubmitContainerStateChange"; "SubmitTaskStateChange";
       "UpdateContainerInstancesState"; "UpdateService"]
  then
    let clusterARN := detail @ "requestParameters.cluster" in
    ecs_result md (if decide (clusterARN = "") then "default" else clusterARN)
  else if oneOf (eventName md) ["CreateCluster"] then ecs_result md (detail @ "responseElements.cluster.clusterArn")
  else if oneOf (eventName md) ["TagResource"; "UntagResource"] then
    let clusterARN := detail @ "requestParameters.resourceArn" in
    match arn_Parse clusterARN with
    | Err _ => []
    | Ok parsed =>
        if has_prefix "cluster" (Resource parsed) then ecs_result md clusterARN
        else [scan (accountID md) (eventName md) (region md) EcsClusterSchema]
    end
  else [].

(** *** ec2.go *)
Definition ec2_change (md : CloudTrailMetadata) (account : string) (delete : bool) (type resource : string)
    : list resourceChange :=
  [change account delete (eventName md) (arn_String (arnOf "ec2" (region md) account resource)) type].

(** ec2ARN.String() + resource, with an empty resource in the ARN *)
Definition ec2_id (md : CloudTrailMetadata) (resource : string) : string :=
  arn_String (arnOf "ec2" (region md) (accountID md) "") +:+ resource.

Definition ec2_instances (md : CloudTrailMetadata) (delete : bool) (items : list J) : list resourceChange :=
  (λ instance, change (accountID md) delete (eventName md) (ec2_id md ("instance/" +:+ instance @ "instanceId"))
                 Ec2InstanceSchema) <$> items.

Definition ec2_tagged (md : CloudTrailMetadata) (id : string) : list resourceChange :=
  let one type resource := [change (accountID md) false (eventName md) (ec2_id md (resource +:+ id)) type] in
  if has_prefix "image-" id then one Ec2AmiSchema "image/"
  else if has_prefix "instance-" id || has_prefix "i-" id then one Ec2InstanceSchema "instance/"
  else if has_prefix "acl-" id then one Ec2NetworkAclSchema "network-acl/"
  else if has_prefix "sg-" id then one Ec2SecurityGroupSchema "security-group/"
  else if has_prefix "volume-" id then one Ec2VolumeSchema "volume/"
  else if has_prefix "vpc-" id then one Ec2VpcSchema "vpc/"
  else [].

(** the guess for an unknown call: the first identifier that is present *)
Fixpoint ec2_guess (detail : J) (md : CloudTrailMetadata) (guesses : list (string * string * string))
    : list resourceChange :=
  match guesses with
  | [] => []
  | (path, type, prefix) :: guesses =>
      let id := detail @ path in
      if decide (id ≠ "") then ec2_change md (accountID md) false type (prefix +:+ id)
      else ec2_guess detail md guesses
  end.

Definition peering_change (info : J) : resourceChange :=
  change (info @ "ownerId") false "AcceptVpcPeeringConnection"
    ("arn:aws:ec2:" +:+ info @ "region" +:+ ":" +:+ info @ "ownerId" +:+ ":" +:+ "vpc/" +:+ info @ "vpcId")
    Ec2VpcSchema.

Definition classifyEC2 (detail : J) (md : CloudTrailMetadata) : list resourceChange :=
  let acct := accountID md in
  let ev_in := oneOf (eventName md) in
  let two type1 resource1 type2 resource2 :=
    [change acct false (eventName md) (ec2_id md resource1) type1;
     change acct false (eventName md) (ec2_id md resource2) type2] in
  let regional type := [scan acct (eventName md) (region md) type] in
  if ev_in ["AssociateAddress"; "ModifyInstanceAttribute"; "AttachNetworkInterface";
         "ModifyInstanceCapacityReservationAttributes"; "ModifyInstanceCreditSpecificationResponse";
         "ResetInstanceAttribute"]
  then ec2_change md acct false Ec2InstanceSchema ("instance/" +:+ detail @ "requestParameters.instanceId")
  else if ev_in ["CreateNetworkAclEntry"; "DeleteNetworkAclEntry"; "ReplaceNetworkAclAssociation";
              "ReplaceNetworkAclEntry"]
  then ec2_change md acct false Ec2NetworkAclSchema ("network-acl/" +:+ detail @ "requestParameters.networkAclId")
  else if ev_in ["AuthorizeSecurityGroupEgress"; "AuthorizeSecurityGroupIngress"; "RevokeSecurityGroupEgress";
              "RevokeSecurityGroupIngress"]
  then ec2_change md acct false Ec2SecurityGroupSchema ("security-group/" +:+ detail @ "requestParameters.groupId")
  else if ev_in ["CreateRouteTable"; "AttachInternetGateway"; "CreateSubnet"; "AssociateDhcpOptions";
              "ModifyVpcAttribute"; "ModifyVpcTenancy"]
  then ec2_change md acct false Ec2VpcSchema ("vpc/" +:+ detail @ "requestParameters.vpcId")
  else if ev_in ["CreateSnapshot"; "ModifyVolume"; "ModifyVolumeAttribute"]
  then ec2_change md acct false Ec2VolumeSchema ("volume/" +:+ detail @ "requestParameters.volumeId")
  else if ev_in ["ModifyImageAttribute"; "ResetImageAttribute"]
  then ec2_change md acct false Ec2AmiSchema ("image/" +:+ detail @ "requestParameters.imageId")
  else if ev_in ["AttachVolume"]
  then two Ec2InstanceSchema ("instance/" +:+ detail @ "requestParameters.instanceId")
           Ec2VolumeSchema ("volume/" +:+ detail @ "requestParameters.volumeId")
  else if ev_in ["ModifyInstanceCreditSpecification"]
  then ec2_instances md false
         (Array (Get detail "responseElements.ModifyInstanceCreditSpecificationResponse.items"))
  else if ev_in ["DeleteSecurityGroup"]
  then ec2_change md acct true Ec2SecurityGroupSchema ("security-group/" +:+ detail @ "requestParameters.groupId")
  else if ev_in ["DeleteNetworkAcl"]
  then ec2_change md acct true Ec2NetworkAclSchema ("network-acl/" +:+ detail @ "requestParameters.networkAclId")
  else if ev_in ["DeleteVolume"]
  then ec2_change md acct true Ec2VolumeSchema ("volume/" +:+ detail @ "requestParameters.volumeId")
  else if ev_in ["TerminateInstances"]
  then ec2_instances md true (Array (Get detail "requestParameters.instancesSet.items"))
  else if ev_in ["CreateFlowLogs"]
  then ec2_change md acct false Ec2VpcSchema
         ("vpc/" +:+ detail @ "requestParameters.CreateFlowLogsRequest.ResourceId.content")
  else if ev_in ["CreateNetworkAcl"]
  then two Ec2VpcSchema ("vpc/" +:+ detail @ "responseElements.networkAcl.vpcId")
           Ec2NetworkAclSchema ("network-acl/" +:+ detail @ "responseElements.networkAcl.networkAclId")
  else if ev_in ["AssociateIamInstanceProfile"]
  then ec2_change md acct false Ec2InstanceSchema
         ("instance/" +:+ detail @ "requestParameters.AssociateIamInstanceProfileRequest.InstanceId")
  else if ev_in ["AcceptVpcPeeringConnection"]
  then [peering_change (Get detail "responseElements.vpcPeeringConnection.requesterVpcInfo");
        peering_change (Get detail "responseElements.vpcPeeringConnection.accepterVpcInfo")]
  else if ev_in ["AssociateVpcCidrBlock"]
  then ec2_change md acct false Ec2VpcSchema
         ("vpc/" +:+ detail @ "requestParameters.AssociateVpcCidrBlockRequest.VpcId")
  else if ev_in ["DisassociateVpcCidrBlock"]
  then ec2_change md acct false Ec2VpcSchema
         ("vpc/" +:+ detail @ "responseElements.DisassociateVpcCidrBlockResponse.vpcId")
  else if ev_in ["CreateSecurityGroup"]
  then two Ec2VpcSchema ("vpc/" +:+ detail @ "requestParameters.vpcId")
           Ec2SecurityGroupSchema ("security-group/" +:+ detail @ "responseElements.groupId")
  else if ev_in ["CreateTags"; "DeleteTags"]
  then concat ((λ resource, ec2_tagged md (resource @ "resourceId"))
         <$> Array (Get detail "requestParameters.resourcesSet.items"))
  else if ev_in ["CreateVolume"]
  then ec2_change md acct false Ec2VolumeSchema ("volume/" +:+ detail @ "responseElements.volumeId")
  else if ev_in ["CreateVpc"]
  then ec2_change md (detail @ "responseElements.vpc.ownerId") false Ec2VpcSchema
         ("vpc/" +:+ detail @ "responseElements.vpc.vpcId")
  else if ev_in ["CreateDefaultSubnet"]
  then ec2_change md acct false Ec2VpcSchema ("vpc/" +:+ detail @ "responseElements.subnet.vpcId")
  else if ev_in ["CreateDefaultVpc"]
  then ec2_change md acct false Ec2VpcSchema ("vpc/" +:+ detail @ "responseElements.vpc.vpcId")
  else if ev_in ["DetachVolume"]
  then two Ec2InstanceSchema ("instance/" +:+ detail @ "requestParameters.instanceId")
           Ec2VolumeSchema ("volume/" +:+ detail @ "requestParameters.volumeId")
  else if ev_in ["ImportImage"]
  then ec2_change md acct false Ec2AmiSchema ("image/" +:+ detail @ "responseElements.imageId")
  else if ev_in ["ImportInstance"]
  then ec2_change md acct false Ec2InstanceSchema
         ("instance/" +:+ detail @ "responseElements.conversionTask.instanceId")
  else if ev_in ["ImportVolume"]
  then ec2_change md acct false Ec2VolumeSchema
         ("volume/" +:+ detail @ "responseElements.conversionTask.volume.id")
  else if ev_in ["MonitorInstances"; "UnmonitorInstances"; "StartInstances"; "StopInstances"]
  then ec2_instances md false (Array (Get detail "requestParameters.instancesSet.items"))
  else if ev_in ["RunInstances"; "RunScheduledInstances"]
  then (λ instance,
          change (detail @ "responseElements.ownerId") false (eventName md)
            ("arn:aws:ec2:" +:+ region md +:+ ":" +:+ detail @ "responseElements.ownerId" +:+ ":"
             +:+ "instance/" +:+ instance @ "instanceId") Ec2InstanceSchema)
       <$> Array (Get detail "responseElements.instancesSet.items")
  else if ev_in ["UpdateSecurityGroupRuleDescriptionsEgress"; "UpdateSecurityGroupRuleDescriptionsIngress"]
  then
    let id := detail @ "requestParameters.groupId" in
    if decide (id ≠ "") then ec2_change md acct false Ec2SecurityGroupSchema ("security-group/" +:+ id)
    else regional Ec2SecurityGroupSchema
  else if ev_in ["DisassociateRouteTable"; "AssociateRouteTable"; "DeleteRouteTable"; "ReplaceRoute"; "CreateRoute";
              "DeleteRoute"; "AssociateSubnetCidrBlock"; "DeleteSubnet"; "DisassociateSubnetCidrBlock";
              "ModifySubnetAttribute"; "ModifyVpcPeeringConnectionOptions"; "DeleteFlowLogs";
              "CreateNetworkInterface"; "ReplaceRouteTableAssociation"]
  then regional Ec2VpcSchema
  else if ev_in ["DeleteSnapshot"; "ModifySnapshotAttribute"] then regional Ec2VolumeSchema
  else if ev_in ["DetachNetworkInterface"] then regional Ec2InstanceSchema
  else if ev_in ["ReplaceIamInstanceProfileAssociation"]
  then ec2_change md acct false Ec2InstanceSchema
         ("instance/" +:+ detail @ "responseElements.iamInstanceProfileAssociation.instanceId")
  else if ev_in ["DisassociateAddress"]
  then if decide (detail @ "requestParameters.associationId" ≠ "") then regional Ec2VpcSchema else []
  else if ev_in ["DeleteVpcPeeringConnection"] then [scan acct (eventName md) "" Ec2VpcSchema]
  else ec2_guess detail md
         [("*.instanceId", Ec2InstanceSchema, "instance/"); ("*.networkAclId", Ec2NetworkAclSchema, "network-acl/");
          ("*.groupId", Ec2SecurityGroupSchema, "security-group/"); ("*.volumeId", Ec2VolumeSchema, "volume/");
          ("*.vpcId", Ec2VpcSchema, "vpc/")].

(** *** elbv2.go *)

(** the load balancer of a listener or rule; an ARN with too few parts panics *)
Definition elb_resource (componentARN : string) : outcome string :=
  match split_on "/" componentARN with
  | _ :: c1 :: c2 :: c3 :: _ => Ret ("loadbalancer/" +:+ c1 +:+ "/" +:+ c2 +:+ "/" +:+ c3)
  | l => Panic ("index out of range with length " +:+ itoa (Z.of_nat (length l)))
  end.

Definition elb_change (md : CloudTrailMetadata) (delete : bool) (lbARN : ARN) : resourceChange :=
  change (accountID md) delete (eventName md) (arn_String lbARN) Elbv2LoadBalancerSchema.

(** AddTags, RemoveTags: stop at the first ARN that does not parse *)
Fixpoint elb_tagged (md : CloudTrailMetadata) (arns : list string) : list resourceChange :=
  match arns with
  | [] => []
  | a :: arns =>
      match arn_Parse a with
      | Err _ => []
      | Ok resourceARN =>
          if has_prefix "targetgroup/" (Resource resourceARN) then elb_tagged md arns
          else elb_change md false resourceARN :: elb_tagged md arns
      end
  end.

Fixpoint elb_created (md : CloudTrailMetadata) (arns : list string) : list resourceChange :=
  match arns with
  | [] => []
  | a :: arns =>
      match arn_Parse a with
      | Err _ => []
      | Ok lbARN => elb_change md false lbARN :: elb_created md arns
      end
  end.

Fixpoint elb_priorities (md : CloudTrailMetadata) (rules : list string) : outcome (list resourceChange) :=
  match rules with
  | [] => Ret []
  | ruleARN :: rules =>
      resource ← elb_resource ruleARN;
      rest ← elb_priorities md rules;
      Ret (elb_change md false (arnOf "elasticloadbalancing" (region md) (accountID md) resource) :: rest)
  end.

Definition classifyELBV2 (detail : J) (md : CloudTrailMetadata) : outcome (list resourceChange) :=
  let ev_in := oneOf (eventName md) in
  let delete := String.eqb (eventName md) "DeleteLoadBalancer" in
  let component path :=
    resource ← elb_resource (detail @ path);
    Ret [elb_change md delete (arnOf "elasticloadbalancing" (region md) (accountID md) resource)] in
  if ev_in ["AddListenerCertificates"; "CreateRule"; "DeleteListener"; "ModifyListener"; "RemoveListenerCertificates"]
  then component "requestParameters.listenerArn"
  else if ev_in ["DeleteRule"; "ModifyRule"] then component "requestParameters.ruleArn"
  else if ev_in ["AddTags"; "RemoveTags"]
  then Ret (elb_tagged md (Str <$> Array (Get detail "requestParameters.resourceArns")))
  else if ev_in ["CreateListener"; "DeleteLoadBalancer"; "ModifyLoadBalancerAttributes"; "SetIpAddressType";
              "SetSecurityGroups"; "SetSubnets"]
  then Ret [elb_change md delete (match arn_Parse (detail @ "requestParameters.loadBalancerArn") with
                                  | Ok lbARN => lbARN | Err _ => zeroARN end)]
  else if ev_in ["CreateLoadBalancer"]
  then Ret (elb_created md ((λ lb, lb @ "loadBalancerArn") <$> Array (Get detail "responseElements.loadBalancers")))
  else if ev_in ["SetRulePriorities"]
  then elb_priorities md ((λ rule, rule @ "ruleArn") <$> Array (Get detail "requestParameters.rulePriorities"))
  else Ret [].

(** *** iam.go *)
Definition rootUserName : string := "AWS ROOT USER".

(** resource and type of a user *)
Definition iam_user (userName : string) : string * string :=
  if decide (userName = rootUserName) then ("root", IAMRootUserSchema)
  else ("user/" +:+ userName, IAMUserSchema).

Definition classifyIAM (detail : J) (md : CloudTrailMetadata) : list resourceChange :=
  let ev_in := oneOf (eventName md) in
  let result iamARN delete type :=
    [change (arnAccountID iamARN) delete (eventName md) (arn_String iamARN) type] in
  let named resource := arnOf "iam" "" (accountID md) resource in
  let parsed path delete type :=
    match arn_Parse (detail @ path) with
    | Ok iamARN => result iamARN delete type
    | Err _ => []
    end in
  let base := arn_String (named "") in
  let one id type := change (accountID md) false (eventName md) id type in
  if ev_in ["AddRoleToInstanceProfile"; "DeleteRolePermissionsBoundary"; "DeleteRolePolicy"]
  then result (named ("role/" +:+ detail @ "requestParameters.roleName")) false IAMRoleSchema
  else if ev_in ["AddUserToGroup"; "RemoveUserFromGroup"]
  then
    let '(userName, userType) := iam_user (detail @ "requestParameters.userName") in
    [one (base +:+ "group/" +:+ detail @ "requestParameters.groupName") IAMGroupSchema;
     one (base +:+ userName) userType]
  else if ev_in ["AttachGroupPolicy"; "DetachGroupPolicy"]
  then [one (detail @ "requestParameters.policyArn") IAMPolicySchema;
        one (base +:+ "group/" +:+ detail @ "requestParameters.groupName") IAMGroupSchema]
  else if ev_in ["AttachRolePolicy"; "DetachRolePolicy"]
  then [one (detail @ "requestParameters.policyArn") IAMPolicySchema;
        one (base +:+ "role/" +:+ detail @ "requestParameters.roleName") IAMRoleSchema]
  else if ev_in ["AttachUserPolicy"; "DetachUserPolicy"]
  then
    let '(userName, userType) := iam_user (detail @ "requestParameters.userName") in
    [one (detail @ "requestParameters.policyArn") IAMPolicySchema; one (base +:+ userName) userType]
  else if ev_in ["CreateAccessKey"; "CreateLoginProfile"; "CreateServiceSpecificCredential"; "CreateUser";
       "DeactivateMFADevice"; "DeleteLoginProfile"; "DeleteSSHPublicKey"; "DeleteServiceSpecificCredential";
       "DeleteSigningCertificate"; "DeleteUserPermissionsBoundary"; "DeleteUserPolicy"; "EnableMFADevice";
       "PutUserPermissionsBoundary"; "PutUserPolicy"; "TagUser"; "UntagUser"; "UpdateAccessKey";
       "UpdateLoginProfile"; "UpdateSSHPublicKey"; "UpdateServiceSpecificCredential"; "UpdateSigningCertificate";
       "UploadSSHPublicKey"; "UploadSigningCertificate"; "DeleteAccessKey"]
  then
    let userName := detail @ "requestParameters.userName" in
    if decide (userName = rootUserName) then result (named "root") false IAMRootUserSchema
    else if decide (userName ≠ "") then result (named ("user/" +:+ userName)) false IAMUserSchema
    else
      match arn_Parse (detail @ "userIdentity.arn") with
      | Err _ => []
      | Ok iamARN =>
          result iamARN false (if decide (Resource iamARN = "root") then IAMRootUserSchema else IAMUserSchema)
      end
  else if ev_in ["CreateGroup"] then parsed "responseElements.group.arn" false IAMGroupSchema
  else if ev_in ["CreatePolicy"] then parsed "responseElements.policy.arn" false IAMPolicySchema
  else if ev_in ["CreatePolicyVersion"; "DeletePolicyVersion"; "SetDefaultPolicyVersion"]
  then parsed "requestParameters.policyArn" false IAMPolicySchema
  else if ev_in ["CreateRole"; "CreateServiceLinkedRole"] then parsed "responseElements.role.arn" false IAMRoleSchema
  else if ev_in ["DeleteAccountPasswordPolicy"; "UpdateAccountPasswordPolicy"]
  then [one (accountID md +:+ "::" +:+ PasswordPolicySchema) PasswordPolicySchema]
  else if ev_in ["DeleteGroup"]
  then result (named ("group/" +:+ detail @ "requestParameters.groupName")) true IAMGroupSchema
  else if ev_in ["DeleteGroupPolicy"; "PutGroupPolicy"]
  then result (named ("group/" +:+ detail @ "requestParameters.groupName")) false IAMGroupSchema
  else if ev_in ["DeletePolicy"] then parsed "requestParameters.policyArn" true IAMPolicySchema
  else if ev_in ["DeleteRole"; "DeleteServiceLinkedRole"]
  then result (named ("role/" +:+ detail @ "requestParameters.roleName")) true IAMRoleSchema
  else if ev_in ["DeleteUser"]
  then result (named ("user/" +:+ detail @ "requestParameters.userName")) true IAMUserSchema
  else if ev_in ["PutRolePermissionsBoundary"; "PutRolePolicy"; "RemoveRoleFromInstanceProfile"; "TagRole";
       "UntagRole"; "UpdateAssumeRolePolicy"; "UpdateRole"; "UpdateRoleDescription"]
  then result (named ("role/" +:+ detail @ "requestParameters.roleName")) false IAMRoleSchema
  else if ev_in ["UpdateGroup"]
  then
    let newName := detail @ "requestParameters.newGroupName" in
    result (named ("group/" +:+ if decide (newName ≠ "") then newName
                                else detail @ "requestParameters.groupName")) false IAMGroupSchema
  else if ev_in ["UpdateUser"]
  then
    let newName := detail @ "requestParameters.newUserName" in
    if decide (newName ≠ "") then result (named ("user/" +:+ newName)) false IAMUserSchema
    else
      let userName := detail @ "requestParameters.userName" in
      if decide (userName = rootUserName) then result (named "root") false IAMRootUserSchema
      else result (named ("user/" +:+ userName)) false IAMUserSchema
  else [].

(** *** kms.go *)
Fixpoint find_key (resources : list J) : string :=
  match resources with
  | [] => ""
  | r :: resources =>
      match arn_Parse (r @ "arn") with
      | Ok resourceARN =>
          if has_prefix "key/" (Resource resourceARN) then arn_String resourceARN else find_key resources
      | Err _ => find_key resources
      end
  end.
Definition getKeyARN (detail : J) : string := find_key (Array (Get detail "resources")).

Definition classifyKMS (detail : J) (md : CloudTrailMetadata) : list resourceChange :=
  if oneOf (eventName md) ["CancelKeyDeletion"; "CreateAlias"; "CreateGrant"; "CreateKey"; "DeleteKey";
       "DeleteAlias"; "DisableKey"; "DisableKeyRotation"; "EnableKey"; "EnableKeyRotation"; "PutKeyPolicy";
       "ScheduleKeyDeletion"; "TagResource"; "UntagResource"; "UpdateAlias"; "UpdateKeyDescription"]
  then
    let keyARN := getKeyARN detail in
    if decide (keyARN = "") then []
    else [change (accountID md) (String.eqb (eventName md) "DeleteKey") (eventName md) keyARN KmsKeySchema]
  else [].

(** *** lambda.go *)
Definition classifyLambda (detail : J) (md : CloudTrailMetadata) : outcome (list resourceChange) :=
  let base := getLambdaBaseEventName (eventName md) in
  let result lambdaARN :=
    [change (accountID md) (String.eqb base "DeleteFunction") (eventName md) (arn_String lambdaARN)
       LambdaFunctionSchema] in
  let named functionName :=
    name ← lambdaName functionName;
    Ret (result (arnOf "lambda" (region md) (accountID md) ("function:" +:+ name))) in
  if oneOf base ["AddPermission"; "CreateAlias"; "CreateEventSourceMapping"; "CreateFunction"; "DeleteAlias";
       "DeleteFunction"; "DeleteFunctionConcurrency"; "PublishVersion"; "PublishLayerVersion";
       "PutFunctionConcurrency"; "RemovePermission"; "UpdateAlias"; "UpdateEventSourceMapping";
       "UpdateFunctionCode"; "UpdateFunctionConfiguration"]
  then named (detail @ "requestParameters.functionName")
  else if oneOf base ["DeleteEventSourceMapping"] then named (detail @ "responseElements.functionArn")
  else if oneOf base ["TagResource"; "UntagResource"]
  then match arn_Parse (detail @ "requestParameters.resource") with
       | Ok lambdaARN => Ret (result lambdaARN)
       | Err _ => Ret []
       end
  else Ret [].

(** *** rds.go *)
Definition classifyRDS (detail : J) (md : CloudTrailMetadata) : list resourceChange :=
  let ev_in := oneOf (eventName md) in
  let suffix s := has_suffix s (eventName md) in
  let rds name := arnOf "rds" (region md) (accountID md) ("db:" +:+ name) in
  let result rdsARN :=
    [change (accountID md) (String.eqb (eventName md) "DeleteDBInstance") (eventName md) (arn_String rdsARN)
       RDSInstanceSchema] in
  let two path1 path2 :=
    [change (accountID md) false (eventName md) (arn_String (rds "") +:+ detail @ path1) RDSInstanceSchema;
     change (accountID md) false (eventName md) (arn_String (rds "") +:+ detail @ path2) RDSInstanceSchema] in
  let instance path :=
    match arn_Parse (detail @ path) with
    | Ok resourceARN => if has_prefix "db:" (Resource resourceARN) then result resourceARN else []
    | Err _ => []
    end in
  if suffix "DBCluster" || suffix "ParameterGroup" || suffix "Subscription" || suffix "OptionGroup"
     || suffix "GlobalCluster" || suffix "ClusterSnapshot"
  then []
  else if ev_in ["AddRoleToDBInstance"; "CreateDBInstance"; "CreateDBSnapshot"; "DeleteDBInstance";
       "ModifyDBInstance"; "PromoteReadReplica"; "RebootDBInstance"; "RemoveRoleFromDBInstance";
       "RestoreDBInstanceFromDBSnapshot"; "RestoreDBInstanceFromS3"; "StartDBInstance"; "StopDBInstance"]
  then result (rds (detail @ "requestParameters.dBInstanceIdentifier"))
  else if ev_in ["AddTagsToResource"; "RemoveTagsFromResource"] then instance "requestParameters.resourceName"
  else if ev_in ["ApplyPendingMaintenanceAction"] then instance "requestParameters.resourceIdentifier"
  else if ev_in ["CopyDBSnapshot"; "DeleteDBSnapshot"; "ModifyDBSnapshot"]
  then result (rds (detail @ "responseElements.dBSnapshot.dBInstanceIdentifier"))
  else if ev_in ["CreateDBInstanceReadReplica"]
  then two "requestParameters.dBInstanceIdentifier" "requestParameters.sourcedBInstanceIdentifier"
  else if ev_in ["CreateDBSubnetGroup"; "ModifyDBSubnetGroup"]
  then [change (accountID md) false (eventName md)
          (arn_String (arnOf "ec2" (region md) (accountID md)
             ("vpc/" +:+ detail @ "responseElements.dBSubnetGroup.vpcId"))) Ec2VpcSchema]
  else if ev_in ["DeleteDBInstanceAutomatedBackup"]
  then result (rds (detail @ "responseElements.dBInstanceAutomatedBackup.dBInstanceIdentifier"))
  else if ev_in ["ModifyDBSnapshotAttribute"]
  then [scan (accountID md) (eventName md) (region md) RDSInstanceSchema]
  else if ev_in ["RestoreDBInstanceToPointInTime"]
  then two "requestParameters.targetdBInstanceIdentifier" "requestParameters.sourcedBInstanceIdentifier"
  else [].

(** *** redshift.go *)
Definition classifyRedshift (detail : J) (md : CloudTrailMetadata) : list resourceChange :=
  let ev_in := oneOf (eventName md) in
  let cluster name := arnOf "redshift" (region md) (accountID md) ("cluster:" +:+ name) in
  let result redshiftARN :=
    [change (accountID md) (String.eqb (eventName md) "DeleteCluster") (eventName md) (arn_String redshiftARN)
       RedshiftClusterSchema] in
  let each name :=
    change (accountID md) false (eventName md) (arn_String (cluster "") +:+ name) RedshiftClusterSchema in
  if ev_in ["AuthorizeSnapshotAccess"; "CopyClusterSnapshot"; "DeleteClusterSnapshot"; "ModifyClusterSnapshot";
       "RevokeSnapshotAccess"]
  then result (cluster (detail @ "responseElements.snapshot.clusterIdentifier"))
  else if ev_in ["AuthorizeClusterSecurityGroupIngress"; "BatchDeleteClusterSnapshots";
       "BatchModifyClusterSnapshots"; "CreateSnapshotCopyGrant"]
  then [scan (accountID md) (eventName md) (region md) RedshiftClusterSchema]
  else if ev_in ["CancelResize"; "CreateCluster"; "CreateClusterSnapshot"; "DeleteCluster"; "DisableLogging";
       "DisableSnapshotCopy"; "EnableLogging"; "EnableSnapshotCopy"; "ModifyCluster"; "ModifyClusterDbRevision";
       "ModifyClusterIamRoles"; "ModifyClusterMaintenance"; "ModifyClusterSnapshotSchedule";
       "ModifySnapshotCopyRetentionPeriod"; "RebootCluster"; "ResizeCluster"; "RestoreFromClusterSnapshot";
       "ClusterIdentifier"; "RotateEncryptionKey"]
  then result (cluster (detail @ "requestParameters.clusterIdentifier"))
  else if ev_in ["CreateClusterSubnetGroup"]
  then [change (accountID md) false (eventName md)
          (arn_String (arnOf "ec2" (region md) (accountID md)
             ("vpc/" +:+ detail @ "responseElements.clusterSubnetGroup.vpcId"))) Ec2VpcSchema]
  else if ev_in ["CreateEventSubscription"; "ModifyEventSubscription"]
  then
    let resourceType := detail @ "requestParameters.sourceType" in
    let resourceIDs := Array (Get detail "requestParameters.sourceIds") in
    if decide (resourceType ≠ "cluster" ∧ resourceType ≠ "") then []
    else if decide (resourceType = "" ∨ length resourceIDs = 0%nat)
    then [scan (accountID md) (eventName md) "" RedshiftClusterSchema]
    else (λ resourceID, each (Str resourceID)) <$> resourceIDs
  else if ev_in ["CreateSnapshotSchedule"; "ModifySnapshotSchedule"]
  then (λ c, each (c @ "clusterIdentifier")) <$> Array (Get detail "responseElements.associatedClusters")
  else if ev_in ["CreateTags"; "DeleteTags"]
  then match arn_Parse (detail @ "requestParameters.resourceName") with
       | Ok resourceARN => if has_prefix "cluster:" (Resource resourceARN) then result resourceARN else []
       | Err _ => []
       end
  else [].

(** *** s3.go *)
Definition classifyS3 (detail : J) (md : CloudTrailMetadata) : list resourceChange :=
  let bucketName := detail @ "requestParameters.bucketName" in
  if decide (bucketName = "") then []
  else [change (accountID md) (String.eqb (eventName md) "DeleteBucket") (eventName md)
          (arn_String (arnOf "s3" "" "" bucketName)) S3BucketSchema].

(** *** waf.go and waf-regional.go *)
Definition waf_ignored (eventName : string) : bool :=
  has_suffix "Set" eventName || has_suffix "Rule" eventName || has_suffix "RuleGroup" eventName.

Definition waf_result (md : CloudTrailMetadata) (wafARN : string) : list resourceChange :=
  match arn_Parse wafARN with
  | Err _ => []
  | Ok parsedARN =>
      [change (accountID md) (String.eqb (eventName md) "DeleteWebACL") (eventName md) (arn_String parsedARN)
         WafWebAclSchema]
  end.

Definition classifyWAF (detail : J) (md : CloudTrailMetadata) : list resourceChange :=
  let ev_in := oneOf (eventName md) in
  if has_prefix "Update" (eventName md) && negb (String.eqb (eventName md) "UpdateWebACL")
  then [scan (accountID md) (eventName md) GlobalRegion WafWebAclSchema]
  else if waf_ignored (eventName md) then []
  else if ev_in ["CreateWebACL"] then waf_result md (detail @ "responseElements.webACL.webACLArn")
  else if ev_in ["DeleteLoggingConfiguration"] then waf_result md (detail @ "requestParameters.resourceArn")
  else if ev_in ["DeleteWebACL"; "UpdateWebACL"]
  then waf_result md ("arn:aws:waf::" +:+ accountID md +:+ ":webacl/" +:+ detail @ "requestParameters.webACLId")
  else if ev_in ["PutLoggingConfiguration"]
  then waf_result md (detail @ "requestParameters.loggingConfiguration.resourceArn")
  else [].

Definition classifyWAFRegional (detail : J) (md : CloudTrailMetadata) : list resourceChange :=
  let ev_in := oneOf (eventName md) in
  let loadbalancer :=
    let resourceARN := match arn_Parse (detail @ "requestParameters.resourceArn") with
                       | Ok a => a | Err _ => zeroARN end in
    if has_prefix "loadbalancer/" (Resource resourceARN)
    then [change (accountID md) false (eventName md) (arn_String resourceARN) Elbv2LoadBalancerSchema]
    else [] in
  if has_prefix "Update" (eventName md) && negb (String.eqb (eventName md) "UpdateWebACL")
  then [scan (accountID md) (eventName md) GlobalRegion WafWebAclSchema]
  else if waf_ignored (eventName md) then []
  else if ev_in ["CreateWebACL"] then waf_result md (detail @ "responseElements.webACL.webACLArn")
  else if ev_in ["DeleteLoggingConfiguration"] then waf_result md (detail @ "requestParameters.resourceArn")
  else if ev_in ["DeleteWebACL"; "UpdateWebACL"]
  then waf_result md ("arn:aws:waf-regional:" +:+ region md +:+ ":" +:+ accountID md +:+ ":webacl/"
                      +:+ detail @ "requestParameters.webACLId")
  else if ev_in ["PutLoggingConfiguration"]
  then waf_result md (detail @ "requestParameters.loggingConfiguration.resourceArn")
  else if ev_in ["AssociateWebACL"]
  then loadbalancer ++
       [change (accountID md) false (eventName md)
          (arn_String (arnOf "waf-regional" (region md) (accountID md)
             ("webacl/" +:+ detail @ "requestParameters.webAclId"))) WafRegionalWebAclSchema]
  else if ev_in ["DisassociateWebACL"]
  then loadbalancer ++ [scan (accountID md) (eventName md) (region md) WafRegionalWebAclSchema]
  else [].

(** *** The classifier of an event source *)
Definition classifiers (source : string) : option (J → CloudTrailMetadata → outcome (list resourceChange)) :=
  let pure (f : J → CloudTrailMetadata → list resourceChange) := Some (λ detail md, Ret (f detail md)) in
  if decide (source = "acm.amazonaws.com") then pure classifyACM
  else if decide (source = "cloudformation.amazonaws.com") then pure classifyCloudFormation
  else if decide (source = "cloudtrail.amazonaws.com") then pure classifyCloudTrail
  else if decide (source = "config.amazonaws.com") then pure classifyConfig
  else if decide (source = "dynamodb.amazonaws.com") then pure classifyDynamoDB
  else if decide (source = "ec2.amazonaws.com") then pure classifyEC2
  else if decide (source = "ecs.amazonaws.com") then pure classifyECS
  else if decide (source = "elasticloadbalancing.amazonaws.com") then Some classifyELBV2
  else if decide (source = "guardduty.amazonaws.com") then pure classifyGuardDuty
  else if decide (source = "iam.amazonaws.com") then pure classifyIAM
  else if decide (source = "kms.amazonaws.com") then pure classifyKMS
  else if decide (source = "lambda.amazonaws.com") then Some classifyLambda
  else if decide (source = "logs.amazonaws.com") then pure classifyCloudWatchLogGroup
  else if decide (source = "rds.amazonaws.com") then pure classifyRDS
  else if decide (source = "redshift.amazonaws.com") then pure classifyRedshift
  else if decide (source = "s3.amazonaws.com") then pure classifyS3
  else if decide (source = "waf.amazonaws.com") then pure classifyWAF
  else if decide (source = "waf-regional.amazonaws.com") then pure classifyWAFRegional
  else None.

(** ** Well-formed changes *)

Definition schemas : list string :=
  [AcmCertificateSchema; CloudFormationStackSchema; CloudTrailSchema; CloudWatchLogGroupSchema;
   ConfigServiceSchema; DynamoDBTableSchema; Ec2AmiSchema; Ec2InstanceSchema; Ec2NetworkAclSchema;
   Ec2SecurityGroupSchema; Ec2VolumeSchema; Ec2VpcSchema; EcsClusterSchema; Elbv2LoadBalancerSchema;
   GuardDutySchema; IAMGroupSchema; IAMPolicySchema; IAMRoleSchema; IAMRootUserSchema; IAMUserSchema;
   KmsKeySchema; LambdaFunctionSchema; PasswordPolicySchema; RDSInstanceSchema; RedshiftClusterSchema;
   S3BucketSchema; WafRegionalWebAclSchema; WafWebAclSchema].

(** the event is the one classified; SQS accepts the delay; the type is a
    schema of the poller; a region is given only for scans *)
Definition wf_change (event : string) (c : resourceChange) : Prop :=
  EventName c = event ∧ 0 ≤ Delay c ≤ 900 ∧ ResourceType c ∈ schemas ∧
  (Region c ≠ "" → ResourceID c = "" ∧ Delete c = false).

Lemma wf_one account del event id type : oneOf type schemas = true → wf_change event (change account del event id type).
Proof. intros H%bool_decide_eq_true. unfold wf_change; simpl. by split_and!. Qed.

Lemma wf_scan account event rg type : oneOf type schemas = true → wf_change event (scan account event rg type).
Proof. intros H%bool_decide_eq_true. unfold wf_change; simpl. by split_and!. Qed.

Lemma wf_delayed event c : wf_change event c → wf_change event (delayed 120 c).
Proof. intros (?&?&?&?). unfold wf_change; simpl. by split_and!. Qed.

Lemma oneOf_single name s : oneOf name [s] = true → name = s.
Proof. intros H%bool_decide_eq_true. set_solver. Qed.

Lemma iam_user_schema userName resource type : iam_user userName = (resource, type) → oneOf type schemas = true.
Proof. unfold iam_user. case_decide; intros [= <- <-]; vm_compute; reflexivity. Qed.

(** the proof follows the shape of the code *)
#[local] Ltac wf_walk :=
  repeat match goal with
  | |- Forall _ [] => constructor
  | |- Forall _ (_ :: _) => constructor
  | |- Forall _ (_ ++ _) => apply Forall_app_2
  | |- Forall _ (_ <$> _) => apply Forall_fmap, Forall_true; intros ?; unfold compose
  | |- Forall _ (concat (_ <$> _)) => apply Forall_concat, Forall_fmap, Forall_true; intros ?; unfold compose
  | |- Forall _ (match ?x with _ => _ end) => destruct x eqn:?
  | |- wf_change _ (delayed 120 _) => apply wf_delayed
  | |- wf_change _ (change _ _ _ _ _) => apply wf_one; (by eapply iam_user_schema) || (repeat case_decide; vm_compute; reflexivity)
  | |- wf_change _ (scan _ _ _ _) => apply wf_scan; vm_compute; reflexivity
  end.

Lemma wf_ACM detail md : Forall (wf_change (eventName md)) (classifyACM detail md).
Proof. unfold classifyACM. wf_walk. Qed.
Lemma wf_CloudFormation detail md : Forall (wf_change (eventName md)) (classifyCloudFormation detail md).
Proof. unfold classifyCloudFormation. wf_walk. Qed.
Lemma wf_CloudTrail detail md : Forall (wf_change (eventName md)) (classifyCloudTrail detail md).
Proof. unfold classifyCloudTrail. wf_walk. Qed.
Lemma wf_LogGroup detail md : Forall (wf_change (eventName md)) (classifyCloudWatchLogGroup detail md).
Proof. unfold classifyCloudWatchLogGroup. wf_walk. Qed.
Lemma wf_Config detail md : Forall (wf_change (eventName md)) (classifyConfig detail md).
Proof. unfold classifyConfig. wf_walk. Qed.
Lemma wf_GuardDuty detail md : Forall (wf_change (eventName md)) (classifyGuardDuty detail md).
Proof. unfold classifyGuardDuty. wf_walk. Qed.
Lemma wf_DynamoDB detail md : Forall (wf_change (eventName md)) (classifyDynamoDB detail md).
Proof. unfold classifyDynamoDB. cbv zeta. wf_walk. Qed.
Lemma wf_ECS detail md : Forall (wf_change (eventName md)) (classifyECS detail md).
Proof. unfold classifyECS, ecs_result. cbv zeta. wf_walk. Qed.
Lemma wf_IAM detail md : Forall (wf_change (eventName md)) (classifyIAM detail md).
Proof. unfold classifyIAM. cbv zeta. wf_walk. Qed.
Lemma wf_KMS detail md : Forall (wf_change (eventName md)) (classifyKMS detail md).
Proof. unfold classifyKMS. cbv zeta. wf_walk. Qed.
Lemma wf_RDS detail md : Forall (wf_change (eventName md)) (classifyRDS detail md).
Proof. unfold classifyRDS. cbv zeta. wf_walk. Qed.
Lemma wf_Redshift detail md : Forall (wf_change (eventName md)) (classifyRedshift detail md).
Proof. unfold classifyRedshift. cbv zeta. wf_walk. Qed.
Lemma wf_S3 detail md : Forall (wf_change (eventName md)) (classifyS3 detail md).
Proof. unfold classifyS3. cbv zeta. wf_walk. Qed.
Lemma wf_WAF detail md : Forall (wf_change (eventName md)) (classifyWAF detail md).
Proof. unfold classifyWAF, waf_result. cbv zeta. wf_walk. Qed.
Lemma wf_WAFRegional detail md : Forall (wf_change (eventName md)) (classifyWAFRegional detail md).
Proof. unfold classifyWAFRegional, waf_result. cbv zeta. wf_walk. Qed.

Lemma wf_ec2_change md account del type resource :
  oneOf type schemas = true → Forall (wf_change (eventName md)) (ec2_change md account del type resource).
Proof. intros. constructor; [|constructor]. by apply wf_one. Qed.

Lemma wf_ec2_instances md del items : Forall (wf_change (eventName md)) (ec2_instances md del items).
Proof. unfold ec2_instances. wf_walk. Qed.

Lemma wf_ec2_guess detail md guesses :
  Forall (λ g, oneOf g.1.2 schemas = true) guesses → Forall (wf_change (eventName md)) (ec2_guess detail md guesses).
Proof.
  induction 1 as [|[[path type] prefix] guesses Hg _ IH]; [constructor|]. cbn [ec2_guess]. cbv zeta.
  case_decide; [by apply wf_ec2_change|done].
Qed.

Lemma wf_EC2 detail md : Forall (wf_change (eventName md)) (classifyEC2 detail md).
Proof.
  unfold classifyEC2, peering_change, ec2_tagged. cbv zeta.
  repeat (wf_walk; try (apply wf_ec2_change; vm_compute; reflexivity); try apply wf_ec2_instances);
    [..|apply wf_ec2_guess; repeat constructor];
    match goal with H : oneOf _ ["AcceptVpcPeeringConnection"] = true |- _ => apply oneOf_single in H; rewrite H end;
    apply wf_one; vm_compute; reflexivity.
Qed.

Lemma wf_ELBV2 detail md l : classifyELBV2 detail md = Ret l → Forall (wf_change (eventName md)) l.
Proof.
  assert (∀ d a, wf_change (eventName md) (elb_change md d a)) as Hc
    by (intros; unfold elb_change; apply wf_one; vm_compute; reflexivity).
  assert (∀ arns, Forall (wf_change (eventName md)) (elb_tagged md arns)) as Ht.
  { induction arns as [|a arns IH]; cbn [elb_tagged]; wf_walk; auto. }
  assert (∀ arns, Forall (wf_change (eventName md)) (elb_created md arns)) as Hcr.
  { induction arns as [|a arns IH]; cbn [elb_created]; wf_walk; auto. }
  assert (∀ rules l, elb_priorities md rules = Ret l → Forall (wf_change (eventName md)) l) as Hp.
  { induction rules as [|a rules IH]; intros l'; cbn [elb_priorities]; [intros [= <-]; constructor|].
    destruct (elb_resource a); [|done]. run.
    destruct (elb_priorities md rules); [|done]. intros [= <-]. constructor; auto. }
  unfold classifyELBV2. cbv zeta.
  repeat match goal with |- (if ?b then _ else _) = _ → _ => destruct b end;
    try (destruct (elb_resource _); [|done]; cbn [mbind outcome_bind]);
    try apply Hp; intros [= <-]; auto; repeat constructor; auto.
Qed.

Lemma wf_Lambda detail md l : classifyLambda detail md = Ret l → Forall (wf_change (eventName md)) l.
Proof.
  unfold classifyLambda. cbv zeta.
  repeat match goal with |- (if ?b then _ else _) = _ → _ => destruct b end;
    try (destruct (lambdaName _); [|done]; cbn [mbind outcome_bind]); try case_match;
    intros [= <-]; wf_walk.
Qed.

Lemma classifiers_wf source f detail md l :
  classifiers source = Some f → f detail md = Ret l → Forall (wf_change (eventName md)) l.
Proof.
  unfold classifiers. cbv zeta. intros Hf.
  repeat (case_decide; [injection Hf as <-; cbn beta;
    first [apply wf_ELBV2 | apply wf_Lambda | intros [= <-];
           first [apply wf_ACM|apply wf_CloudFormation|apply wf_CloudTrail|apply wf_Config|apply wf_DynamoDB
                 |apply wf_EC2|apply wf_ECS|apply wf_GuardDuty|apply wf_IAM|apply wf_KMS|apply wf_LogGroup
                 |apply wf_RDS|apply wf_Redshift|apply wf_S3|apply wf_WAF|apply wf_WAFRegional]]|]).
  done.
Qed.

(** C26: whatever classifier handles an event, and whatever the event says,
    every change it reports carries the event's name, a resource type of the
    poller and a delay that SQS accepts, and names a region only for a scan,
    which has no resource id and is no deletion: the combination that the
    delivery leaves undefined never occurs. *)
Theorem classifiers_wellformed source f detail md l :
  classifiers source = Some f → f detail md = Ret l → Forall (wf_change (eventName md)) l.
Proof. apply classifiers_wf. Qed.

(** an event without a function name makes the Lambda classifier panic *)
Lemma classifyLambda_panics detail md :
  detail @ "requestParameters.functionName" = "" →
  oneOf (getLambdaBaseEventName (eventName md)) ["PublishLayerVersion"; "UpdateEventSourceMapping"] = true →
  ∃ why, classifyLambda detail md = Panic why.
Proof.
  intros Hf Hb. unfold classifyLambda. cbv zeta.
  assert (oneOf (getLambdaBaseEventName (eventName md)) ["AddPermission"; "CreateAlias";
    "CreateEventSourceMapping"; "CreateFunction"; "DeleteAlias"; "DeleteFunction"; "DeleteFunctionConcurrency";
    "PublishVersion"; "PublishLayerVersion"; "PutFunctionConcurrency"; "RemovePermission"; "UpdateAlias";
    "UpdateEventSourceMapping"; "UpdateFunctionCode"; "UpdateFunctionConfiguration"] = true) as ->.
  { unfold oneOf in *. rewrite bool_decide_eq_true in *. set_solver. }
  rewrite Hf. eexists. reflexivity.
Qed.
End Classifiers.

(** ** Concrete instances *)

Inductive json :=
| JNull
| JStr (s : string)
| JBool (b : bool)
| JArr (l : list json)
| JObj (fields : list (string * json)).

Definition json_field (j : json) (k : string) : json :=
  match j with
  | JObj fields => default JNull (snd <$> List.find (λ p, String.eqb p.1 k) fields)
  | _ => JNull
  end.

(** paths of names; [texts] gives the value of each JSON text *)
#[export] Instance demo_gjson (texts : string → json) : GJson json := {|
  Get := λ j path, foldl json_field j (split_on "." path);
  Exists := λ j, match j with JNull => false | _ => true end;
  Str := λ j, match j with JStr s => s | _ => "" end;
  Bool := λ j, match j with JBool b => b | _ => false end;
  Array := λ j, match j with JArr l => l | JNull => [] | j => [j] end;
  Parse := texts;
  GetIn := λ s path, foldl json_field (texts s) (split_on "." path)
|}.

#[export] Instance demo_arn : AwsArn := {|
  arn_Parse := λ s, match split_on ":" s with
                    | "arn" :: p :: sv :: r :: a :: ((_ :: _) as rest) =>
                        Ok {| Partition := p; Service := sv; arnRegion := r; arnAccountID := a;
                              Resource := join_with ":" rest |}
                    | _ => Err (ErrMsg "arn: invalid prefix")
                    end;
  arn_String := λ a, "arn:" +:+ Partition a +:+ ":" +:+ Service a +:+ ":" +:+ arnRegion a +:+ ":"
                     +:+ arnAccountID a +:+ ":" +:+ Resource a
|}.

Definition demo_md (source name : string) : CloudTrailMetadata :=
  {| region := "us-west-2"; accountID := "123456789012"; eventSource := source; eventName := name |}.

Definition demo_texts (_ : string) : json := JNull.

Lemma classifiers_wellformed_witness :
  ∃ l, classifyLambda (gjson := demo_gjson demo_texts)
         (JObj [("requestParameters", JObj [("functionName", JStr "123456789012:function:f:v1")])])
         (demo_md "lambda.amazonaws.com" "DeleteFunction20150331") = Ret l ∧
    (ResourceID <$> l) = ["arn:aws:lambda:us-west-2:123456789012:function:f"] ∧
    (Delete <$> l) = [true] ∧ Forall (wf_change "DeleteFunction20150331") l.
Proof.
  eexists. split; [vm_compute; reflexivity|]. split; [reflexivity|]. split; [reflexivity|].
  exact (classifiers_wellformed (gjson := demo_gjson demo_texts) "lambda.amazonaws.com"
    (classifyLambda (gjson := demo_gjson demo_texts))
    (JObj [("requestParameters", JObj [("functionName", JStr "123456789012:function:f:v1")])])
    (demo_md "lambda.amazonaws.com" "DeleteFunction20150331") _ eq_refl ltac:(vm_compute; reflexivity)).
Defined.
