(* ===== verification/AwsEventProcessor.v ===== *)
(** * AWS event processor

    Model of src/internal/compliance/aws_event_processor/processor: process.go
    (which events matter and which change of a resource is kept), accounts.go
    (the caches of registered accounts and of accounts seen through CloudWatch
    events), handler.go (a batch of notifications, and the requests that
    follow from it) and sns_confirmation.go.  S3, the source API, the
    resources API and SNS are parameters; SQS is reached through
    [Sqsbatch.SendMessageBatch]. *)

From S2P Require Import Prelude GoTime Backoff Sqsbatch AwsClassifiers.

#[local] Open Scope Z_scope.

(** ** process.go *)

Definition ignoredEvents : list string :=
  ["ExportCertificate"; "ResendValidationEmail"; "StartSchemaCreation"; "DeleteChangeSet"; "DetectStackDrift";
   "DetectStackResourceDrift"; "DetectStackSetDrift"; "CreateStackSet"; "EstimateTemplateCost";
   "ValidateTemplate"; "LookupEvents"; "CancelExportTask"; "CreateExportTask"; "PutDestination";
   "PutDestinationPolicy"; "PutLogEvents"; "PutResourcePolicy"; "StartQuery"; "StopQuery"; "TestMetricFilter";
   "CreateLogStream"; "FilterLogEvents"; "ConfirmForgotPassword"; "ConfirmDevice"; "ForgotPassword";
   "UpdateUserAttributes"; "BatchGetResourceConfig"; "SelectResourceConfig"; "PutAggregationAuthorization";
   "PutConfigurationAggregator"; "PutDeliveryChannel"; "PutEvaluations"; "PutRemediationConfigurations";
   "PutRetentionConfiguration"; "StartRemediationExecution"; "TagResource"; "UntagResource";
   "DeleteDeliveryChannel"; "DeleteEvaluationResults"; "DeletePendingAggregationRequest";
   "DeleteRemediationConfiguration"; "DeleteRetentionConfiguration"; "DeliverConfigSnapshot";
   "DeleteAggregationAuthorization"; "DeleteConfigRule"; "DeleteConfigurationAggregator"; "PutConfigRule";
   "BatchGetItem"; "ConditionCheckItem"; "DeleteBackup"; "DeleteItem"; "PutItem"; "Query"; "Scan";
   "UpdateItem"; "BatchWriteItem"; "DeleteNetworkInterface"; "CreateInternetGateway"; "DeleteInternetGateway";
   "DeleteAccountSetting"; "DeregisterTaskDefinition"; "PutAccountSetting"; "PutAccountSettingDefault";
   "RegisterTaskDefinition"; "UpdateContainerAgent"; "DeleteTargetGroup"; "CreateTargetGroup";
   "ModifyTargetGroup"; "ModifyTargetGroupAttributes"; "RegisterTargets"; "DeregisterTargets";
   "ArchiveFindings"; "CreateIPSet"; "CreatePublishingDestination"; "CreateSampleFindings";
   "CreateThreatIntelSet"; "DeclineInvitations"; "DeleteFilter"; "DeleteIPSet"; "DeleteInvitations";
   "DeleteThreatIntelSet"; "InviteMembers"; "UnarchiveFindings"; "UpdateFilter"; "UpdateFindingsFeedback";
   "UpdateIPSet"; "UpdateThreatIntelSet"; "CreateFilter"; "ChangePassword"; "ResetServiceSpecificCredential";
   "GenerateCredentialReport"; "CreateVirtualMFADevice"; "DeleteVirtualMFADevice"; "CreateInstanceProfile";
   "CreateGrant"; "Decrypt"; "Encrypt"; "GenerateDataKey"; "GenerateDataKeyWithoutPlaintext"; "ReEncrypt";
   "RetireGrant"; "AddLayerVersionPermission"; "InvokeAsync"; "InvokeFunction"; "CreateDBClusterEndpoint";
   "DeleteDBClusterEndpoint"; "CreateDBSecurityGroup"; "DeleteDBSecurityGroup";
   "AuthorizeDBSecurityGroupIngress"; "DeleteDBSubnetGroup"; "DownloadDBLogFilePortion";
   "ModifyCurrentDBClusterCapacity"; "ModifyDBClusterEndpoint"; "ModifyDBClusterSnapshotAttribute";
   "RestoreDBClusterFromS3"; "RestoreDBClusterFromSnapshot"; "RestoreDBClusterToPointInTime";
   "RevokeDBSecurityGroupIngress"; "StartActivityStream"; "StopActivityStream"; "AcceptReservedNodeExchange";
   "CreateClusterSecurityGroup"; "CreateHsmClientCertificate"; "CreateHsmConfiguration";
   "DeleteClusterParameterGroup"; "DeleteClusterSecurityGroup"; "DeleteClusterSubnetGroup";
   "DeleteEventSubscription"; "DeleteHsmClientCertificate"; "DeleteHsmConfiguration";
   "DeleteSnapshotCopyGrant"; "DeleteSnapshotSchedule"; "ModifyClusterParameterGroup";
   "ModifyClusterSubnetGroup"; "ResetClusterParameterGroup"; "RevokeClusterSecurityGroupIngress";
   "CreateClusterParameterGroup"; "UploadPart"; "CreateMultipartUpload"; "CompleteMultipartUpload";
   "HeadBucket"; "PutObject"; "DeletePermissionPolicy"; "PutPermissionPolicy"; "SetUserMFAPreference";
   "InitiateAuth"; "RespondToAuthChallenge"; "AssumeRole"].

Definition ignoredPrefixes : list string := ["Get"; "Describe"; "List"].

Definition hasIgnoredPrefix (eventName : string) : bool :=
  existsb (λ prefix, has_prefix prefix eventName) ignoredPrefixes.

Definition isIgnoredEvent (eventName : string) : bool :=
  oneOf eventName ignoredEvents || hasIgnoredPrefix eventName.

Section Process.
Context {J : Type} {gjson : GJson J} {awsarn : AwsArn}.

(** [Ok None]: nothing to do *)
Definition preprocessCloudTrailLog (detail : J) : result (option CloudTrailMetadata) :=
  let name := Get detail "eventName" in
  if negb (Exists name) then
    Err (ErrMsg ("unable to extract CloudTrail eventName field for eventSource '"
                 +:+ Str (Get detail "evenSource") +:+ "'"))
  else if isIgnoredEvent (Str name) then Ok None
  else
    let source := Get detail "eventSource" in
    if negb (Exists source) then
      Err (ErrMsg ("unable to extract CloudTrail eventSource field for eventName " +:+ Str name))
    else
      let account := Get detail "userIdentity.accountId" in
      if negb (Exists account) then
        Err (ErrMsg ("unable to extract CloudTrail accountId field for " +:+ Str source +:+ " event " +:+ Str name))
      else
        let awsRegion := Get detail "awsRegion" in
        if negb (Exists awsRegion) then
          Err (ErrMsg ("unable to extract CloudTrail awsRegion field for " +:+ Str source +:+ " event "
                       +:+ Str name +:+ " from account " +:+ Str account))
        else Ok (Some {| region := Str awsRegion; accountID := Str account; eventSource := Str source;
                         eventName := Str name |}).

(** api/lambda/source/models.SourceIntegration, as far as it is read *)
Record SourceIntegration := { siAWSAccountID : option string; siIntegrationID : option string }.

Notation changeMap := (gmap string resourceChange).

Definition stamped (integrationID eventTime : string) (c : resourceChange) : resourceChange :=
  {| AwsAccountID := AwsAccountID c; Delay := Delay c; Delete := Delete c; EventName := EventName c;
     EventTime := eventTime; IntegrationID := integrationID; Region := Region c;
     ResourceID := ResourceID c; ResourceType := ResourceType c |}.

Definition change_key (c : resourceChange) : string := ResourceID c +:+ ResourceType c +:+ Region c.

(** keep the newest event of a resource *)
Definition record_change (changes : changeMap) (c : resourceChange) : changeMap :=
  match changes !! change_key c with
  | Some entry => if sltb (EventTime entry) (EventTime c) then <[change_key c := c]> changes else changes
  | None => <[change_key c := c]> changes
  end.

Definition processCloudTrailLog (accounts : gmap string SourceIntegration) (detail : J)
    (md : CloudTrailMetadata) (changes : changeMap) : outcome changeMap :=
  match accounts !! accountID md with
  | None => Ret changes
  | Some integration =>
      match classifiers (eventSource md) with
      | None => Ret changes
      | Some classifier =>
          if decide (Str (Get detail "errorCode") ≠ "") then Ret changes
          else
            newChanges ← classifier detail md;
            match newChanges, siIntegrationID integration with
            | [], _ => Ret changes
            | _ :: _, None => Panic "nil pointer dereference"
            | _ :: _, Some integrationID =>
                Ret (foldl (λ m c, record_change m (stamped integrationID (Str (Get detail "eventTime")) c))
                       changes newChanges)
            end
      end
  end.
End Process.

(** ** accounts.go *)

Definition Minute : Z := 60 * Second.
Definition cweAccountTimeout : Z := 15 * Minute.
Definition refreshInterval : Z := 2 * Minute.

(** the package's variables; [ticks] counts the readings of the clock *)
Record caches := {
  accounts : gmap string SourceIntegration;
  accountsLastUpdated : Time;
  cweAccounts : gmap string Time;
  ticks : nat
}.

Definition with_cwe (c : caches) (m : gmap string Time) (t : nat) : caches :=
  {| accounts := accounts c; accountsLastUpdated := accountsLastUpdated c; cweAccounts := m; ticks := t |}.

(** ** The data of handler.go *)

(** an SQS record: the string value of the attribute id, if any, and the body *)
Record SQSRecord := { idAttribute : option (option string); Body : string }.

(** poller.ScanEntry; ScanAllResources is false *)
Record ScanEntry := {
  seAWSAccountID : string;
  seIntegrationID : string;
  seRegion : option string;
  seResourceID : option string;
  seResourceType : string
}.

Definition scan_entry (c : resourceChange) : ScanEntry :=
  {| seAWSAccountID := AwsAccountID c; seIntegrationID := IntegrationID c;
     seRegion := if decide (Region c ≠ "") then Some (Region c) else None;
     seResourceID := if decide (ResourceID c ≠ "") then Some (ResourceID c) else None;
     seResourceType := ResourceType c |}.

Definition generateSourceKey (md : CloudTrailMetadata) : string := accountID md +:+ "/" +:+ region md.

(** bufio.Reader.ReadString: the lines of a text with their newline; what
    follows the last newline is never processed *)
Fixpoint read_lines (cur text : string) : list string :=
  match text with
  | EmptyString => []
  | String c text' =>
      let cur := cur +:+ String c "" in
      if decide (c = ascii_of_nat 10) then cur :: read_lines "" text' else read_lines cur text'
  end.

Section Handler.
Context {J : Type} {gjson : GJson J} {awsarn : AwsArn}.
Context (now : nat → Time).
(** S3Notification records of a message; the decompressed text of an object
    and the error its reader ends with, if it is not EOF *)
Context (UnmarshalNotification : string → result (list (string * string)))
        (GetObject : string → string → result (result (string * option error))).

Notation changeMap := (gmap string resourceChange).

Definition checkCWECache (c : caches) (key : string) : caches * bool :=
  match cweAccounts c !! key with
  | None => (c, false)
  | Some timestamp =>
      let t := now (ticks c) in
      if decide (cweAccountTimeout < t - timestamp)
      then (with_cwe c (delete key (cweAccounts c)) (S (ticks c)), false)
      else (with_cwe c (cweAccounts c) (S (ticks c)), true)
  end.

Fixpoint add_accounts (m : gmap string SourceIntegration) (l : list SourceIntegration)
    : outcome (gmap string SourceIntegration) :=
  match l with
  | [] => Ret m
  | integration :: l =>
      match siAWSAccountID integration with
      | None => Panic "nil pointer dereference"
      | Some id => add_accounts (<[id := integration]> m) l
      end
  end.

(** [output] is the answer of the source API *)
Definition refreshAccounts (output : result (list SourceIntegration)) (c : caches)
    : outcome (caches * option error) :=
  let cached := bool_decide (accounts c ≠ ∅) in
  let t := now (ticks c) in
  let c := {| accounts := accounts c; accountsLastUpdated := accountsLastUpdated c;
              cweAccounts := cweAccounts c; ticks := if cached then S (ticks c) else ticks c |} in
  if cached && After (accountsLastUpdated c + refreshInterval) t then Ret (c, None)
  else
    match output with
    | Err e => Ret (c, Some e)
    | Ok l =>
        m ← add_accounts (accounts c) l;
        Ret ({| accounts := m; accountsLastUpdated := now (ticks c); cweAccounts := cweAccounts c;
                ticks := S (ticks c) |}, None)
    end.

(** ** handler.go *)

Notation hstate := (caches * changeMap)%type (only parsing).

Definition handleCloudTrail (cloudtrail : J) (st : hstate) : outcome (hstate * option error) :=
  let '(c, changes) := st in
  match preprocessCloudTrailLog cloudtrail with
  | Err e => Ret (st, Some e)
  | Ok None => Ret (st, None)
  | Ok (Some md) =>
      let c := with_cwe c (<[generateSourceKey md := now (ticks c)]> (cweAccounts c)) (S (ticks c)) in
      changes ← processCloudTrailLog (accounts c) cloudtrail md changes;
      Ret ((c, changes), None)
  end.

Fixpoint handle_lines (lines : list string) (err : option error) (st : hstate)
    : outcome (hstate * option error) :=
  match lines with
  | [] => Ret (st, ErrWrap "unexpected error reading line from s3" <$> err)
  | line :: lines =>
      let '(c, changes) := st in
      let detail := Parse line in
      match preprocessCloudTrailLog detail with
      | Err e => Ret (st, Some e)
      | Ok None => handle_lines lines err st
      | Ok (Some md) =>
          let '(c, seen) := checkCWECache c (generateSourceKey md) in
          if (seen : bool) then handle_lines lines err (c, changes)
          else
            changes ← processCloudTrailLog (accounts c) detail md changes;
            handle_lines lines err (c, changes)
      end
  end.

Definition handleS3Download (bucket key : string) (st : hstate) : outcome (hstate * option error) :=
  match GetObject bucket key with
  | Err e => Ret (st, Some (ErrWrap "error reading CloudTrail from S3" e))
  | Ok (Err e) => Ret (st, Some (ErrWrap "error creating gzip reader for S3 output" e))
  | Ok (Ok (text, err)) => handle_lines (read_lines "" text) err st
  end.

Fixpoint handle_objects (objects : list (string * string)) (st : hstate) : outcome (hstate * option error) :=
  match objects with
  | [] => Ret (st, None)
  | (bucket, key) :: objects =>
      '(st, err) ← handleS3Download bucket key st;
      match err with
      | Some e => Ret (st, Some e)
      | None => handle_objects objects st
      end
  end.

(** the flag says that the message was such a notification *)
Definition handleLogProcessorCloudTrail (messageBody : string) (st : hstate)
    : outcome (hstate * result bool) :=
  match UnmarshalNotification messageBody with
  | Err e => Ret (st, Err (ErrWrap "failed to unmarshal record" e))
  | Ok [] => Ret (st, Ok false)
  | Ok objects =>
      '(st, err) ← handle_objects objects st;
      match err with
      | Some e => Ret (st, Err e)
      | None => Ret (st, Ok true)
      end
  end.

(** ** sns_confirmation.go *)
Context (ConfirmSubscription : string → string → string → option error). (* region, token, topic *)

Definition handleSnsConfirmation (c : caches) (topicArn : ARN) (token : string) : option error :=
  match accounts c !! arnAccountID topicArn with
  | None => None
  | Some _ =>
      if decide (token = "") then None
      else ConfirmSubscription (arnRegion topicArn) token (arn_String topicArn)
  end.

(** one record of the batch, from the raw CloudTrail check on *)
Definition handle_message (body : string) (st : hstate) : outcome (hstate * option error) :=
  let detail := GetIn body "detail" in
  if Exists detail then
    '(st, _) ← handleCloudTrail detail st;
    Ret (st, None)
  else
    let type := Str (GetIn body "Type") in
    if decide (type = "Notification") then
      let detail := GetIn (Str (GetIn body "Message")) "detail" in
      if negb (Exists detail) then Ret (st, None)
      else
        '(st, _) ← handleCloudTrail detail st;
        Ret (st, None)
    else if decide (type = "SubscriptionConfirmation") then
      (* the error of arn.Parse is not checked: the code tests another variable *)
      let topicArn := match arn_Parse (Str (GetIn body "TopicArn")) with Ok a => a | Err _ => zeroARN end in
      Ret (st, handleSnsConfirmation st.1 topicArn (Str (GetIn body "Token")))
    else Ret (st, None).

Definition handle_record (record : SQSRecord) (st : hstate) : outcome (hstate * option error) :=
  if decide (idAttribute record = Some (Some "AWS.CloudTrail")) then
    '(st, r) ← handleLogProcessorCloudTrail (Body record) st;
    match r with
    | Err e => Ret (st, Some e)
    | Ok true => Ret (st, None)
    | Ok false => handle_message (Body record) st
    end
  else handle_message (Body record) st.

Fixpoint handle_records (records : list SQSRecord) (st : hstate) : outcome (hstate * option error) :=
  match records with
  | [] => Ret (st, None)
  | record :: records =>
      '(st, err) ← handle_record record st;
      match err with
      | Some e => Ret (st, Some e)
      | None => handle_records records st
      end
  end.

(** ** Delivering the changes *)

Context {W : Type} (client : W → list Entry → W * result SendMessageBatchOutput) `{!Backoff}.
Context (DeleteResources : list string → option error)
        (MarshalScan : list ScanEntry → result string).
(** the orders in which the two maps are iterated *)
Context (order : list (string * resourceChange) → list (string * resourceChange))
        (order_requests : list (Z * list ScanEntry) → list (Z * list ScanEntry)).

Definition add_request (requests : gmap Z (list ScanEntry)) (c : resourceChange) : gmap Z (list ScanEntry) :=
  if Delete c then requests
  else <[Delay c := default [] (requests !! Delay c) ++ [scan_entry c]]> requests.

Definition requestsByDelay (changes : list resourceChange) : gmap Z (list ScanEntry) :=
  foldl add_request ∅ changes.

Definition deleteRequest (changes : list resourceChange) : list string :=
  ResourceID <$> filter (λ c, Delete c = true) changes.

Fixpoint request_entries (requests : list (Z * list ScanEntry)) : result (list Entry) :=
  match requests with
  | [] => Ok []
  | (delay, request) :: requests =>
      match MarshalScan request with
      | Err e => Err (ErrWrap "resource queueing failed: json marshal" e)
      | Ok body =>
          rest ← request_entries requests;
          Ok ({| Id := Some (itoa delay); MessageBody := Some body; DelaySeconds := Some delay |} :: rest)
      end
  end.

(** the world after it, the delete request that was accepted, and the error *)
Definition submitChanges (w : W) (changes : changeMap) : outcome (W * list string * option error) :=
  let cs := (order (map_to_list changes)).*2 in
  let deletes := deleteRequest cs in
  match (if decide (deletes = []) then None else DeleteResources deletes) with
  | Some e => Ret (w, [], Some (ErrWrap "resource deletion failed" e))
  | None =>
      let requests := requestsByDelay cs in
      if decide (requests = ∅) then Ret (w, deletes, None)
      else
        match request_entries (order_requests (map_to_list requests)) with
        | Err e => Ret (w, deletes, Some e)
        | Ok entries =>
            '(r, _, err) ← SendMessageBatch client w entries;
            Ret (world r, deletes, err)
        end
  end.

Definition Handle (output : result (list SourceIntegration)) (batch : list SQSRecord) (c : caches) (w : W)
    : outcome (caches * W * list string * option error) :=
  '(c, err) ← refreshAccounts output c;
  match err with
  | Some e => Ret (c, w, [], Some e)
  | None =>
      '(st, err) ← handle_records batch (c, ∅);
      match err with
      | Some e => Ret (st.1, w, [], Some e)
      | None =>
          '(w, deletes, err) ← submitChanges w st.2;
          Ret (st.1, w, deletes, err)
      end
  end.
End Handler.
