(* ===== verification/AwsEventSpec.v ===== *)
(** * AWS event processor: what a batch of notifications leads to

    The specification of aws_event_processor/processor: the events a batch
    carries, the newest change of every resource, and the requests that reach
    the resources API and the poller queue. *)

From S2P Require Import Prelude GoStrings GoTime Backoff Sqsbatch AwsClassifiers AwsEventProcessor.

#[local] Open Scope Z_scope.

Notation changeMap := (gmap string resourceChange).

(** ** The newest change of a resource *)

(** [c] is kept out of [cs]: it is later than every change of its resource
    before it, and none after it is later *)
Definition is_newest (cs : list resourceChange) (c : resourceChange) : Prop :=
  ∃ l1 l2, cs = l1 ++ c :: l2 ∧
    Forall (λ c', change_key c' = change_key c → slt (EventTime c') (EventTime c)) l1 ∧
    Forall (λ c', change_key c' = change_key c → ¬ slt (EventTime c) (EventTime c')) l2.

Lemma is_newest_snoc_old cs c c' :
  (change_key c' = change_key c → ¬ slt (EventTime c) (EventTime c')) →
  is_newest cs c → is_newest (cs ++ [c']) c.
Proof.
  intros Hc (l1&l2&->&H1&H2). exists l1, (l2 ++ [c']).
  split_and!; [by rewrite <- (assoc_L (++))|done|]. by apply Forall_snoc.
Qed.

Lemma is_newest_snoc_inv cs c c' :
  is_newest (cs ++ [c']) c →
  (c = c' ∧ Forall (λ x, change_key x = change_key c → slt (EventTime x) (EventTime c)) cs) ∨
  (is_newest cs c ∧ (change_key c' = change_key c → ¬ slt (EventTime c) (EventTime c'))).
Proof.
  intros (l1&l2&Heq&H1&H2). destruct l2 as [|x l2 _] using rev_ind.
  - apply app_inj_tail in Heq as [-> ->]. left. by split.
  - rewrite app_comm_cons, (assoc_L (++)) in Heq. apply app_inj_tail in Heq as [-> ->].
    apply Forall_app in H2 as [H2 Hx]. right. split; [by exists l1, l2|by inversion Hx].
Qed.

Lemma is_newest_max cs c x :
  is_newest cs c → x ∈ cs → change_key x = change_key c → ¬ slt (EventTime c) (EventTime x).
Proof.
  intros (l1&l2&->&H1&H2) Hx Hk. rewrite Forall_forall in H1, H2.
  apply elem_of_app in Hx as [Hx|[->|Hx]%elem_of_cons]; [|apply slt_irrefl|auto].
  intros Hlt. apply (slt_irrefl (EventTime c)). etrans; [done|auto].
Qed.

Lemma is_newest_snoc_new cs c e :
  is_newest cs e → change_key e = change_key c → slt (EventTime e) (EventTime c) → is_newest (cs ++ [c]) c.
Proof.
  intros He Hk Hlt. exists cs, []. split_and!; [done| |done]. apply Forall_forall. intros x Hx Hxk.
  assert (¬ slt (EventTime e) (EventTime x)) by (eapply is_newest_max; [done|done|congruence]).
  destruct (decide (slt (EventTime x) (EventTime e))); [by etrans|].
  by rewrite <- (slt_total (EventTime e) (EventTime x)).
Qed.

Lemma is_newest_unique cs c d : is_newest cs c → is_newest cs d → change_key c = change_key d → c = d.
Proof.
  revert c d. induction cs as [|x cs IH] using rev_ind; intros c d.
  { intros (l1&?&?&_). by destruct l1. }
  intros [[-> Hc]|[Hc Hxc]]%is_newest_snoc_inv [[-> Hd]|[Hd Hxd]]%is_newest_snoc_inv Hk; auto; exfalso.
  - apply Hxd; [done|]. rewrite Forall_forall in Hc. apply Hc; [|done].
    destruct Hd as (?&?&->&_). set_solver.
  - apply Hxc; [done|]. rewrite Forall_forall in Hd. apply Hd; [|done].
    destruct Hc as (?&?&->&_). set_solver.
Qed.

Lemma record_change_ne (m : changeMap) c k : change_key c ≠ k → record_change m c !! k = m !! k.
Proof.
  intros. unfold record_change. destruct (m !! change_key c); [destruct (sltb _ _)|];
    by rewrite ?lookup_insert_ne by done.
Qed.

Lemma record_change_eq (m : changeMap) c :
  record_change m c !! change_key c =
  match m !! change_key c with
  | Some e => if sltb (EventTime e) (EventTime c) then Some c else Some e
  | None => Some c
  end.
Proof.
  unfold record_change. destruct (m !! change_key c) eqn:E; [destruct (sltb _ _)|];
    by rewrite ?lookup_insert_eq, ?E.
Qed.

(** folding [record_change] computes exactly the newest changes *)
Lemma foldl_record_newest cs :
  (∀ k, foldl record_change (∅ : changeMap) cs !! k = None → Forall (λ c, change_key c ≠ k) cs) ∧
  (∀ k c, foldl record_change (∅ : changeMap) cs !! k = Some c → change_key c = k ∧ is_newest cs c).
Proof.
  induction cs as [|d cs [IHn IHs]] using rev_ind; [by split; intros; simplify_map_eq|].
  rewrite foldl_snoc. set (m := foldl record_change ∅ cs) in *.
  split; intros k; [|intros c]; destruct (decide (change_key d = k)) as [<-|Hd];
    rewrite ?record_change_eq, ?record_change_ne by done.
  - destruct (m !! _) as [e|]; [destruct (sltb _ _)|]; done.
  - intros. apply Forall_snoc; auto.
  - destruct (m !! _) as [e|] eqn:He.
    + apply IHs in He as [Hk He]. destruct (sltb _ _) eqn:Hlt; intros [= <-]; split; try done.
      * by eapply is_newest_snoc_new.
      * apply is_newest_snoc_old; [|done]. unfold slt. congruence.
    + intros [= <-]. split; [done|]. exists cs, []. split_and!; [done| |done].
      eapply Forall_impl; [by apply IHn|]. done.
  - intros Hc%IHs. destruct Hc as [<- ?]. split; [done|]. by apply is_newest_snoc_old.
Qed.

Lemma foldl_record_lookup cs k c :
  foldl record_change (∅ : changeMap) cs !! k = Some c ↔ change_key c = k ∧ is_newest cs c.
Proof.
  destruct (foldl_record_newest cs) as [Hn Hs]. split; [apply Hs|]. intros [<- Hc].
  destruct (_ !! change_key c) as [d|] eqn:Hd.
  - apply Hs in Hd as [Hk Hd]. f_equal. by eapply is_newest_unique.
  - apply Hn in Hd. rewrite Forall_forall in Hd. destruct Hc as (?&?&->&_). destruct (Hd c); set_solver.
Qed.

#[export] Instance resourceChange_eq_dec : EqDecision resourceChange.
Proof. solve_decision. Defined.

(** two changes of one resource at one time are the same change *)
Definition no_ties (cs : list resourceChange) : Prop :=
  ∀ x y, x ∈ cs → y ∈ cs → change_key x = change_key y → EventTime x = EventTime y → x = y.

Lemma is_newest_no_ties cs c :
  no_ties cs →
  is_newest cs c ↔
  c ∈ cs ∧ ∀ x, x ∈ cs → change_key x = change_key c → ¬ slt (EventTime c) (EventTime x).
Proof.
  intros Ht. split.
  - intros Hc. split; [destruct Hc as (?&?&->&_); set_solver|]. intros. by eapply is_newest_max.
  - intros [Hin Hmax]. destruct (list_elem_of_split_l cs c Hin) as (l1&l2&->&Hl1).
    exists l1, l2. split_and!; [done| |apply Forall_forall; set_solver].
    apply Forall_forall. intros x Hx Hk.
    destruct (decide (slt (EventTime x) (EventTime c))) as [?|Hle]; [done|exfalso].
    assert (x = c) as ->; [|done]. apply Ht; [set_solver|set_solver|done|].
    apply slt_total; [done|]. apply Hmax; [set_solver|done].
Qed.

(** what is kept of a stream of changes depends on the set of changes
    only: events may arrive out of order and be delivered more than once, as
    long as two different changes of one resource have different times. *)
Theorem record_change_order_independent cs cs' :
  no_ties cs → (∀ c, c ∈ cs ↔ c ∈ cs') →
  foldl record_change (∅ : changeMap) cs = foldl record_change ∅ cs'.
Proof.
  intros Ht Hset.
  assert (no_ties cs') as Ht' by (intros x y Hx Hy; apply Ht; by apply Hset).
  apply map_eq. intros k. apply option_eq. intros c.
  rewrite !foldl_record_lookup, !is_newest_no_ties by done.
  split; intros (?&?&Hm); (split; [done|]); (split; [by apply Hset|]); intros x Hx; by apply Hm, Hset.
Qed.

(** ** The events of a batch *)

Section Spec.
Context {J : Type} {gjson : GJson J} {awsarn : AwsArn}.
Context (now : nat → Time).
Context (UnmarshalNotification : string → result (list (string * string)))
        (GetObject : string → string → result (result (string * option error))).
Context (ConfirmSubscription : string → string → string → option error).

(** the changes an event of a registered account stands for *)
Definition event_changes (accounts : gmap string SourceIntegration) (detail : J) (md : CloudTrailMetadata)
    : list resourceChange :=
  match accounts !! accountID md, classifiers (eventSource md) with
  | Some integration, Some classifier =>
      match classifier detail md with
      | Ret l => if decide (Str (Get detail "errorCode") ≠ "") then []
                 else stamped (default "" (siIntegrationID integration)) (Str (Get detail "eventTime")) <$> l
      | Panic _ => []
      end
  | _, _ => []
  end.

(** an event reaches the processor through CloudWatch or in a log file *)
Inductive channel := CloudWatch | LogFile.

Definition message_events (body : string) : list (channel * J) :=
  let detail := GetIn body "detail" in
  if Exists detail then [(CloudWatch, detail)]
  else if decide (Str (GetIn body "Type") = "Notification") then
    let detail := GetIn (Str (GetIn body "Message")) "detail" in
    if Exists detail then [(CloudWatch, detail)] else []
  else [].

Fixpoint line_events (lines : list string) (err : option error) : result (list (channel * J)) :=
  match lines with
  | [] => match err with
          | Some e => Err (ErrWrap "unexpected error reading line from s3" e)
          | None => Ok []
          end
  | line :: lines =>
      match preprocessCloudTrailLog (Parse line) with
      | Err e => Err e
      | Ok _ => rest ← line_events lines err; Ok ((LogFile, Parse line) :: rest)
      end
  end.

Definition object_events (bucket key : string) : result (list (channel * J)) :=
  match GetObject bucket key with
  | Err e => Err (ErrWrap "error reading CloudTrail from S3" e)
  | Ok (Err e) => Err (ErrWrap "error creating gzip reader for S3 output" e)
  | Ok (Ok (text, err)) => line_events (read_lines "" text) err
  end.

Fixpoint objects_events (objects : list (string * string)) : result (list (channel * J)) :=
  match objects with
  | [] => Ok []
  | (bucket, key) :: objects =>
      evs ← object_events bucket key; rest ← objects_events objects; Ok (evs ++ rest)
  end.

(** the error of confirming a subscription, if the message asks for it *)
Definition confirmation (accounts : gmap string SourceIntegration) (body : string) : option error :=
  if Exists (GetIn body "detail") then None
  else if decide (Str (GetIn body "Type") = "SubscriptionConfirmation") then
    let topic := match arn_Parse (Str (GetIn body "TopicArn")) with Ok a => a | Err _ => zeroARN end in
    let token := Str (GetIn body "Token") in
    match accounts !! arnAccountID topic with
    | Some _ => if decide (token = "") then None
                else ConfirmSubscription (arnRegion topic) token (arn_String topic)
    | None => None
    end
  else None.

Definition body_events (accounts : gmap string SourceIntegration) (body : string) : result (list (channel * J)) :=
  match confirmation accounts body with
  | Some e => Err e
  | None => Ok (message_events body)
  end.

Definition record_events (accounts : gmap string SourceIntegration) (record : SQSRecord)
    : result (list (channel * J)) :=
  if decide (idAttribute record = Some (Some "AWS.CloudTrail")) then
    match UnmarshalNotification (Body record) with
    | Err e => Err (ErrWrap "failed to unmarshal record" e)
    | Ok [] => body_events accounts (Body record)
    | Ok objects => objects_events objects
    end
  else body_events accounts (Body record).

Fixpoint batch_events (accounts : gmap string SourceIntegration) (batch : list SQSRecord)
    : result (list (channel * J)) :=
  match batch with
  | [] => Ok []
  | record :: batch =>
      evs ← record_events accounts record; rest ← batch_events accounts batch; Ok (evs ++ rest)
  end.

(** the changes of a stream of events: one from a log file is left out while
    its account and region are seen through CloudWatch *)
Fixpoint stream_changes (evs : list (channel * J)) (c : caches) : caches * list resourceChange :=
  match evs with
  | [] => (c, [])
  | (ch, detail) :: evs =>
      match preprocessCloudTrailLog detail with
      | Ok (Some md) =>
          let '(c, skip) :=
            match ch with
            | CloudWatch => (with_cwe c (<[generateSourceKey md := now (ticks c)]> (cweAccounts c)) (S (ticks c)), false)
            | LogFile => checkCWECache now c (generateSourceKey md)
            end in
          let '(c', cs) := stream_changes evs c in
          (c', (if skip : bool then [] else event_changes (accounts c) detail md) ++ cs)
      | _ => stream_changes evs c
      end
  end.

(** an event whose classifier answers, and whose account has an integration *)
Definition classifiable (accounts : gmap string SourceIntegration) (detail : J) : Prop :=
  ∀ md integration f, preprocessCloudTrailLog detail = Ok (Some md) →
    accounts !! accountID md = Some integration → classifiers (eventSource md) = Some f →
    Str (Get detail "errorCode") = "" →
    is_Some (siIntegrationID integration) ∧ ∃ l, f detail md = Ret l.

Lemma processCloudTrailLog_spec accts detail md m :
  classifiable accts detail → preprocessCloudTrailLog detail = Ok (Some md) →
  processCloudTrailLog accts detail md m = Ret (foldl record_change m (event_changes accts detail md)).
Proof.
  intros Hc Hp. unfold processCloudTrailLog, event_changes.
  destruct (accts !! accountID md) as [integ|] eqn:Ha; [|done].
  destruct (classifiers (eventSource md)) as [f|] eqn:Hf; [|done].
  destruct (decide (Str (Get detail "errorCode") = "")) as [He|He].
  - destruct (Hc _ _ _ Hp Ha Hf He) as [[i Hi] [l Hl]].
    rewrite Hl, Hi. rewrite !(decide_False (P := _ ≠ "")) by tauto. cbn.
    destruct l as [|x l]; [done|]. f_equal. generalize (x :: l). clear. intros l. revert m.
    induction l as [|y l IH]; intros m; [done|]. cbn. apply IH.
  - destruct (f detail md); rewrite !(decide_True (P := _ ≠ "")) by done; done.
Qed.

Lemma checkCWECache_accounts c key c' b : checkCWECache now c key = (c', b) → accounts c' = accounts c.
Proof. unfold checkCWECache. repeat case_match; intros; simplify_eq; done. Qed.

Lemma stream_changes_accounts evs c : accounts (stream_changes evs c).1 = accounts c.
Proof.
  revert c. induction evs as [|[ch d] evs IH]; intros c; [done|]. cbn [stream_changes].
  destruct (preprocessCloudTrailLog d) as [[md|]|]; [|apply IH|apply IH].
  destruct ch.
  - specialize (IH (with_cwe c (<[generateSourceKey md := now (ticks c)]> (cweAccounts c)) (S (ticks c)))).
    by destruct (stream_changes evs _).
  - destruct (checkCWECache now c _) as [c1 b] eqn:Hc. apply checkCWECache_accounts in Hc. rewrite <- Hc, <- (IH c1).
    revert IH. by destruct (stream_changes evs _).
Qed.

Lemma stream_changes_app evs1 evs2 c :
  stream_changes (evs1 ++ evs2) c =
  let '(c1, cs1) := stream_changes evs1 c in let '(c2, cs2) := stream_changes evs2 c1 in (c2, cs1 ++ cs2).
Proof.
  revert c. induction evs1 as [|[ch d] evs1 IH]; intros c; [cbn; by destruct (stream_changes evs2 c)|].
  cbn [app stream_changes]. destruct (preprocessCloudTrailLog d) as [[md|]|]; [|apply IH|apply IH].
  destruct (match ch with CloudWatch => _ | LogFile => _ end) as [c1 b]. rewrite IH.
  destruct (stream_changes evs1 c1) as [c2 cs1]. destruct (stream_changes evs2 c2). by rewrite (assoc_L (++)).
Qed.

(** a handler [run] that goes through the events [r], or fails with the error [r] *)
Notation hstate := (caches * changeMap)%type.
Definition runs (accts : gmap string SourceIntegration) (run : hstate → outcome (hstate * option error))
    (r : result (list (channel * J))) : Prop :=
  ∀ c m, accounts c = accts →
  (∀ st err, run (c, m) = Ret (st, err) →
     accounts st.1 = accts ∧ err = match r with Ok _ => None | Err e => Some e end) ∧
  (∀ evs, r = Ok evs → Forall (λ ev, classifiable accts ev.2) evs →
     run (c, m) = Ret (let '(c', cs) := stream_changes evs c in ((c', foldl record_change m cs), None))).

Lemma runs_seq accts run1 run2 r1 r2 :
  runs accts run1 r1 → runs accts run2 r2 →
  runs accts (λ st, '(st, err) ← run1 st; match err with Some e => Ret (st, Some e) | None => run2 st end)
    (evs ← r1; rest ← r2; Ok (evs ++ rest)).
Proof.
  intros H1 H2 c m Hc. destruct (H1 c m Hc) as [H1r H1o]. split.
  - intros st err. destruct (run1 (c, m)) as [[[c1 m1] err1]|] eqn:Hr; [|done]. cbn.
    destruct (H1r _ _ eq_refl) as [Ha ->]. destruct r1 as [evs|e]; cbn; [|by intros [= <- <-]].
    intros Hr2. destruct (H2 c1 m1 Ha) as [H2r _]. destruct (H2r _ _ Hr2) as [? ->]. by destruct r2.
  - intros evs. destruct r1 as [evs1|]; [|done]. destruct r2 as [evs2|]; [|done]. cbn. intros [= <-] [F1 F2]%Forall_app.
    rewrite (H1o evs1) by done. cbn. rewrite stream_changes_app.
    pose proof (stream_changes_accounts evs1 c) as Ha. destruct (stream_changes evs1 c) as [c1 cs1]. cbn in *.
    destruct (H2 c1 (foldl record_change m cs1)) as [_ H2o]; [congruence|]. rewrite (H2o evs2) by done.
    destruct (stream_changes evs2 c1). by rewrite foldl_app.
Qed.

Lemma runs_nil accts : runs accts (λ st, Ret (st, None)) (Ok []).
Proof. intros c m Hc. split; [by intros st err [= <- <-]|]. by intros evs [= <-] _. Qed.

Lemma runs_err accts e : runs accts (λ st, Ret (st, Some e)) (Err e).
Proof. intros c m Hc. split; [by intros st err [= <- <-]|done]. Qed.

Lemma runs_ext accts run1 run2 r : (∀ st, run1 st = run2 st) → runs accts run1 r → runs accts run2 r.
Proof. intros He H c m Hc. rewrite <- He. by apply H. Qed.

(** an event: the caches move on, its changes are recorded unless it is skipped *)
Lemma runs_event accts ch detail md :
  preprocessCloudTrailLog detail = Ok (Some md) →
  runs accts (λ '(c, m),
    let '(c, skip) :=
      match ch with
      | CloudWatch => (with_cwe c (<[generateSourceKey md := now (ticks c)]> (cweAccounts c)) (S (ticks c)), false)
      | LogFile => checkCWECache now c (generateSourceKey md)
      end in
    if (skip : bool) then Ret ((c, m), None)
    else m ← processCloudTrailLog (accounts c) detail md m; Ret ((c, m), None)) (Ok [(ch, detail)]).
Proof.
  intros Hp c m Hc. cbv beta iota.
  destruct (match ch with CloudWatch => _ | LogFile => _ end) as [c1 skip] eqn:E.
  assert (accounts c1 = accts) as H1.
  { destruct ch; [by injection E as <- _|]. apply checkCWECache_accounts in E. congruence. }
  split.
  - intros st err. destruct skip; [by intros [= <- <-]|].
    destruct (processCloudTrailLog _ _ _ _); [|done]. cbn. by intros [= <- <-].
  - intros evs [= <-] Hcl. inversion Hcl as [|? ? Hd _ Heq]; subst. cbn [snd] in Hd. cbn [stream_changes]. rewrite Hp, E.
    destruct skip; [done|]. cbv beta iota. rewrite <- H1 in Hd. rewrite processCloudTrailLog_spec by (exact Hd || exact Hp).
    cbn. by rewrite app_nil_r.
Qed.

Lemma handleCloudTrail_runs accts detail :
  runs accts (λ st, '(st, _) ← handleCloudTrail now detail st; Ret (st, None)) (Ok [(CloudWatch, detail)]).
Proof.
  destruct (preprocessCloudTrailLog detail) as [[md|]|e] eqn:Hp.
  - eapply runs_ext; [|by apply (runs_event accts CloudWatch detail md)].
    intros [c m]. unfold handleCloudTrail. rewrite Hp. cbn. by destruct (processCloudTrailLog _ _ _ _).
  - intros c m Hc. cbn. rewrite Hp. split; [by intros st err [= <- <-]|].
    intros evs [= <-] _. cbn [stream_changes]. by rewrite Hp.
  - intros c m Hc. cbn. rewrite Hp. split; [by intros st err [= <- <-]|].
    intros evs [= <-] _. cbn [stream_changes]. by rewrite Hp.
Qed.

Lemma handle_lines_runs accts lines err : runs accts (handle_lines now lines err) (line_events lines err).
Proof.
  induction lines as [|line lines IH]; cbn [handle_lines line_events].
  { destruct err; [apply runs_err|apply runs_nil]. }
  destruct (preprocessCloudTrailLog (Parse line)) as [[md|]|e] eqn:Hp.
  - pose proof (runs_seq _ _ _ _ _ (runs_event accts LogFile _ _ Hp) IH) as Hs.
    cbn [mbind result_bind app] in Hs. eapply runs_ext; [|exact Hs]. intros [c m]. cbn.
    destruct (checkCWECache now c _) as [c1 [|]]; [done|]. by destruct (processCloudTrailLog _ _ _ _).
  - intros c m Hc. destruct (IH c m Hc) as [IH1 IH2]. split.
    + intros st er Hr. destruct (IH1 _ _ Hr) as [? ->]. by destruct (line_events lines err).
    + intros evs. destruct (line_events lines err) as [rest|]; [|done]. cbn.
      intros [= <-] [_ HF]%Forall_cons. rewrite (IH2 rest) by done. cbn [stream_changes]. by rewrite Hp.
  - eapply runs_ext; [|apply runs_err]. by intros [c m].
Qed.

Lemma handleS3Download_runs accts bucket key :
  runs accts (handleS3Download now GetObject bucket key) (object_events bucket key).
Proof.
  unfold handleS3Download, object_events.
  destruct (GetObject bucket key) as [[[text err]|e]|e]; [apply handle_lines_runs|apply runs_err|apply runs_err].
Qed.

Lemma handle_objects_runs accts objects :
  runs accts (handle_objects now GetObject objects) (objects_events objects).
Proof.
  induction objects as [|[bucket key] objects IH]; [apply runs_nil|]. cbn [handle_objects objects_events].
  apply runs_seq; [apply handleS3Download_runs|done].
Qed.

Lemma handle_message_runs accts body :
  runs accts (handle_message now ConfirmSubscription body) (body_events accts body).
Proof.
  unfold handle_message, body_events, confirmation, message_events. cbv zeta.
  destruct (Exists (GetIn body "detail")); [apply handleCloudTrail_runs|].
  destruct (decide (Str (GetIn body "Type") = "Notification")) as [Ht|Ht].
  { rewrite (decide_False (P := _ = "SubscriptionConfirmation")) by (rewrite Ht; discriminate).
    destruct (Exists _); [apply handleCloudTrail_runs|apply runs_nil]. }
  case_decide; [|apply runs_nil]. intros c m Hc. unfold handleSnsConfirmation. cbn [fst]. rewrite Hc.
  set (o := match accts !! _ with Some _ => _ | None => _ end). destruct o as [e|];
    [apply runs_err|apply runs_nil]; done.
Qed.

Lemma handle_record_runs accts record :
  runs accts (handle_record now UnmarshalNotification GetObject ConfirmSubscription record)
    (record_events accts record).
Proof.
  unfold handle_record, record_events, handleLogProcessorCloudTrail.
  case_decide; [|apply handle_message_runs].
  destruct (UnmarshalNotification (Body record)) as [[|o os]|e]; [apply handle_message_runs| |apply runs_err].
  intros c m Hc. destruct (handle_objects_runs accts (o :: os) c m Hc) as [H1 H2].
  generalize dependent (objects_events (o :: os)). intros r H1 H2. split.
  - intros st err. destruct (handle_objects _ _ _ _) as [[st1 err1]|]; [|done]. cbn.
    destruct (H1 _ _ eq_refl) as [Ha ->]. destruct r; by intros [= <- <-].
  - intros evs He HF. rewrite (H2 _ He HF). cbn. by destruct (stream_changes evs c).
Qed.

Lemma handle_records_runs accts batch :
  runs accts (handle_records now UnmarshalNotification GetObject ConfirmSubscription batch)
    (batch_events accts batch).
Proof.
  induction batch as [|record batch IH]; [apply runs_nil|]. cbn [handle_records batch_events].
  apply runs_seq; [apply handle_record_runs|done].
Qed.

(** the changes of a stream are well formed *)
Definition deliverable (c : resourceChange) : Prop :=
  0 ≤ Delay c ≤ 900 ∧ ResourceType c ∈ schemas ∧ (Region c ≠ "" → ResourceID c = "" ∧ Delete c = false).

Lemma event_changes_deliverable accts detail md : Forall deliverable (event_changes accts detail md).
Proof.
  unfold event_changes. destruct (accts !! _); [|constructor].
  destruct (classifiers _) as [f|] eqn:Hf; [|constructor]. destruct (f detail md) as [l|] eqn:Hl; [|constructor].
  case_decide; [constructor|]. apply Forall_fmap. eapply Forall_impl; [by eapply classifiers_wf|].
  by intros c (_&?&?&?).
Qed.

Lemma stream_changes_deliverable evs c : Forall deliverable (stream_changes evs c).2.
Proof.
  revert c. induction evs as [|[ch d] evs IH]; intros c; [constructor|]. cbn [stream_changes].
  destruct (preprocessCloudTrailLog d) as [[md|]|]; [|apply IH|apply IH].
  destruct (match ch with CloudWatch => _ | LogFile => _ end) as [c1 b].
  specialize (IH c1). destruct (stream_changes evs c1) as [c2 cs]. apply Forall_app. split; [|done].
  destruct b; [constructor|apply event_changes_deliverable].
Qed.

End Spec.

(** ** What is submitted *)

(** the scans of the changes with delay [d] *)
Definition scans_at (kept : list resourceChange) (d : Z) : list ScanEntry :=
  scan_entry <$> filter (λ c, Delete c = false ∧ Delay c = d) kept.

Lemma requestsByDelay_lookup cs d :
  requestsByDelay cs !! d = if decide (scans_at cs d = []) then None else Some (scans_at cs d).
Proof.
  unfold requestsByDelay. induction cs as [|c cs IH] using rev_ind; [done|].
  rewrite foldl_snoc. unfold add_request at 1, scans_at. rewrite filter_app, fmap_app. fold (scans_at cs d).
  rewrite filter_cons, filter_nil. destruct (Delete c) eqn:Hdel.
  { rewrite (decide_False (P := _ ∧ _)) by naive_solver. cbn. by rewrite app_nil_r. }
  destruct (decide (Delay c = d)) as [<-|Hd].
  - rewrite lookup_insert_eq, IH. rewrite (decide_True (P := _ ∧ _)) by done. cbn.
    rewrite (decide_False (P := _ ++ _ = [])) by (by destruct (scans_at cs (Delay c))).
    case_decide as E; [by rewrite E|done].
  - rewrite lookup_insert_ne, IH by done. rewrite (decide_False (P := _ ∧ _)) by naive_solver.
    cbn. by rewrite app_nil_r.
Qed.

#[export] Instance scans_at_perm : Proper ((≡ₚ) ==> (=) ==> (≡ₚ)) scans_at.
Proof. intros l l' Hl d ? <-. unfold scans_at. by rewrite Hl. Qed.

(** the entry of the poller queue for the scans [l] with delay [d] *)
Definition entry_for (MarshalScan : list ScanEntry → result string) (req : Z * list ScanEntry) (e : Entry) : Prop :=
  ∃ body, MarshalScan req.2 = Ok body ∧
    e = {| Id := Some (itoa req.1); MessageBody := Some body; DelaySeconds := Some req.1 |}.

(** exactly the deletions and scans of [kept] are requested: the scans
    grouped by their delay, one message per delay *)
Definition submitted MarshalScan (kept : list resourceChange) (deletes : list string) (entries : list Entry) : Prop :=
  deletes ≡ₚ ResourceID <$> filter (λ c, Delete c = true) kept ∧
  ∃ reqs : list (Z * list ScanEntry),
    NoDup reqs.*1 ∧
    (∀ d l, (d, l) ∈ reqs → l ≡ₚ scans_at kept d) ∧
    (∀ d, d ∈ reqs.*1 ↔ scans_at kept d ≠ []) ∧
    Forall2 (entry_for MarshalScan) reqs entries.

Lemma request_entries_ok MarshalScan reqs entries :
  request_entries MarshalScan reqs = Ok entries → Forall2 (entry_for MarshalScan) reqs entries.
Proof.
  revert entries. induction reqs as [|[d l] reqs IH]; intros entries; cbn.
  { intros [= <-]. constructor. }
  destruct (MarshalScan l) as [body|] eqn:Hm; [|done]. destruct (request_entries _ reqs) as [es|]; [|done].
  cbn. intros [= <-]. constructor; [|auto]. by exists body.
Qed.

Lemma request_entries_total MarshalScan reqs :
  (∀ d l, (d, l) ∈ reqs → ∃ body, MarshalScan l = Ok body) → ∃ entries, request_entries MarshalScan reqs = Ok entries.
Proof.
  induction reqs as [|[d l] reqs IH]; intros H; cbn; [eauto|].
  destruct (H d l) as [body ->]; [set_solver|]. destruct IH as [es ->]; [set_solver|]. cbn. eauto.
Qed.

Section Delivery.
Context {J : Type} {gjson : GJson J} {awsarn : AwsArn}.
Context (now : nat → Time).
Context (UnmarshalNotification : string → result (list (string * string)))
        (GetObject : string → string → result (result (string * option error))).
Context (ConfirmSubscription : string → string → string → option error).
Context {W : Type} (client : W → list Entry → W * result SendMessageBatchOutput).
Context (queue : W → list Entry) (requests : W → list (list Entry)).
Context (Hclient : SqsClient client queue requests) {backoff : Backoff}.
Context (DeleteResources : list string → option error)
        (MarshalScan : list ScanEntry → result string).
Context (order : list (string * resourceChange) → list (string * resourceChange))
        (order_requests : list (Z * list ScanEntry) → list (Z * list ScanEntry)).
Context (order_perm : ∀ l, order l ≡ₚ l) (order_requests_perm : ∀ l, order_requests l ≡ₚ l).

Notation submit := (submitChanges client DeleteResources MarshalScan order order_requests).
Notation handle := (Handle now UnmarshalNotification GetObject ConfirmSubscription client
                      DeleteResources MarshalScan order order_requests).

(** the requests made for the changes [kept] fit into a message *)
Definition fits (kept : list resourceChange) : Prop :=
  ∀ sub body, sub ⊆+ kept → MarshalScan (scan_entry <$> sub) = Ok body → slen body ≤ maxMessageBytes.

Lemma requests_reqs cs :
  let reqs := order_requests (map_to_list (requestsByDelay cs)) in
  NoDup reqs.*1 ∧ (∀ d l, (d, l) ∈ reqs → l = scans_at cs d) ∧ (∀ d, d ∈ reqs.*1 ↔ scans_at cs d ≠ []).
Proof.
  intros reqs. subst reqs.
  assert (∀ d l, (d, l) ∈ order_requests (map_to_list (requestsByDelay cs)) ↔
                 scans_at cs d ≠ [] ∧ l = scans_at cs d) as Hin.
  { intros d l. rewrite order_requests_perm, elem_of_map_to_list, requestsByDelay_lookup.
    case_decide; naive_solver. }
  split_and!.
  - rewrite order_requests_perm. apply NoDup_fst_map_to_list.
  - intros d l Hdl. by apply Hin in Hdl as [_ ?].
  - intros d. rewrite list_elem_of_fmap. split.
    + intros ([d' l]&->&Hdl). by apply Hin in Hdl as [? _].
    + intros Hd. exists (d, scans_at cs d). split; [done|]. by apply Hin.
Qed.

Lemma entries_small cs reqs entries :
  fits cs → (∀ d l, (d, l) ∈ reqs → l = scans_at cs d) → Forall2 (entry_for MarshalScan) reqs entries →
  Forall (λ e, entrySize e ≤ maxMessageBytes) entries.
Proof.
  intros Hf Hr HF. induction HF as [|[d l] e reqs es (body&Hm&->) _ IH]; constructor.
  - cbn in *. unfold entrySize. cbn. apply (Hf (filter (λ c, Delete c = false ∧ Delay c = d) cs) body).
    + apply sublist_submseteq, sublist_filter.
    + fold (scans_at cs d). rewrite <- (Hr d l); [done|set_solver].
  - apply IH. intros. apply Hr. set_solver.
Qed.

Lemma submitChanges_spec w changes kept :
  kept ≡ₚ (map_to_list changes).*2 → fits kept → Forall batch_ok (requests w) →
  ∃ w' deletes err, submit w changes = Ret (w', deletes, err) ∧ Forall batch_ok (requests w') ∧
    match err with
    | None => ∃ entries, submitted MarshalScan kept deletes entries ∧ queue w' ≡ₚ queue w ++ entries
    | Some _ => queue w ⊆+ queue w'
    end.
Proof.
  intros Hk Hf Hw. unfold submitChanges. set (cs := (order (map_to_list changes)).*2).
  assert (cs ≡ₚ kept) as Hcs by (subst cs; by rewrite Hk, order_perm).
  assert (fits cs) as Hfc by (intros sub body Hs; apply Hf; by rewrite <- Hcs).
  destruct (if decide (deleteRequest cs = []) then None else _) as [e|].
  { eexists _, _, _. split; [done|]. by split. }
  destruct (requests_reqs cs) as (Hnd&Hl&Hd).
  assert (deleteRequest cs ≡ₚ ResourceID <$> filter (λ c, Delete c = true) kept) as Hdel
    by (unfold deleteRequest; by rewrite Hcs).
  assert (∀ entries, Forall2 (entry_for MarshalScan) (order_requests (map_to_list (requestsByDelay cs))) entries →
          submitted MarshalScan kept (deleteRequest cs) entries) as Hsub.
  { intros entries HF. split; [done|]. eexists. split_and!; [exact Hnd| | |exact HF].
    - intros d l Hin. by rewrite (Hl d l Hin), Hcs.
    - intros d. rewrite Hd. split; intros Hne He; apply Hne; apply Permutation_nil_r; rewrite <- He;
        by rewrite Hcs. }
  case_decide as Hemp.
  { eexists _, _, _. split; [done|]. split; [done|]. exists []. split; [|by rewrite app_nil_r].
    apply Hsub. rewrite Hemp, map_to_list_empty.
    assert (order_requests [] = []) as -> by apply Permutation_nil_r, order_requests_perm. constructor. }
  destruct (request_entries MarshalScan _) as [entries|e] eqn:He.
  - apply request_entries_ok in He.
    destruct (SendMessageBatch_queue client queue requests Hclient w entries) as (r&left&err&->&Hr&Herr);
      [by eapply entries_small|done|]. run. eexists _, _, _. split; [done|]. split; [done|].
    destruct err as [e|]; [done|]. exists entries. split; [by apply Hsub|done].
  - eexists _, _, _. split; [done|]. by split.
Qed.

(** C3: end to end, when the events of a batch can be read and classified:
    Handle does not panic; without an error, exactly one request is made for
    every resource the batch changed, the one of its newest event: the
    deletions go to the resources API, the scans to the poller queue, grouped
    into one message per delay, which SQS accepts as a delay. *)
Theorem Handle_correct output batch c w c1 evs c2 cs :
  refreshAccounts now output c = Ret (c1, None) →
  batch_events UnmarshalNotification GetObject ConfirmSubscription (accounts c1) batch = Ok evs →
  Forall (λ ev, classifiable (accounts c1) ev.2) evs →
  stream_changes now evs c1 = (c2, cs) →
  fits cs → Forall batch_ok (requests w) →
  ∃ w' deletes err, handle output batch c w = Ret (c2, w', deletes, err) ∧
    Forall batch_ok (requests w') ∧
    match err with
    | None => ∃ kept entries,
        NoDup (change_key <$> kept) ∧ (∀ x, x ∈ kept ↔ is_newest cs x) ∧ Forall deliverable kept ∧
        submitted MarshalScan kept deletes entries ∧ queue w' ≡ₚ queue w ++ entries
    | Some _ => queue w ⊆+ queue w'
    end.
Proof.
  intros Href Hevs Hcl Hst Hf Hw. unfold Handle. rewrite Href. run.
  destruct (handle_records_runs now UnmarshalNotification GetObject ConfirmSubscription
              (accounts c1) batch c1 ∅ eq_refl) as [_ Hrun].
  rewrite (Hrun evs Hevs Hcl), Hst. cbn [mbind outcome_bind fst snd].
  set (changes := foldl record_change ∅ cs).
  assert (∀ k x, (k, x) ∈ map_to_list changes ↔ change_key x = k ∧ is_newest cs x) as Hin
    by (intros; subst changes; by rewrite elem_of_map_to_list, foldl_record_lookup).
  set (kept := (map_to_list changes).*2).
  assert (change_key <$> kept = (map_to_list changes).*1) as Hkeys.
  { subst kept. rewrite <- list_fmap_compose. apply list_fmap_ext. intros i [k x] Hi. cbn.
    apply list_elem_of_lookup_2 in Hi. by apply Hin in Hi as [? _]. }
  assert (NoDup (change_key <$> kept)) as Hnd by (rewrite Hkeys; apply NoDup_fst_map_to_list).
  assert (∀ x, x ∈ kept ↔ is_newest cs x) as Hkept.
  { intros x. subst kept. rewrite list_elem_of_fmap. split.
    - intros ([k y]&->&Hy). by apply Hin in Hy as [_ ?].
    - intros Hx. exists (change_key x, x). split; [done|]. by apply Hin. }
  destruct (submitChanges_spec w changes kept) as (w'&deletes&err&->&Hb&Herr); [done| |done|].
  { intros sub body Hsub. apply Hf. etrans; [exact Hsub|]. apply NoDup_submseteq; [by eapply NoDup_fmap_1|].
    intros x (?&?&->&_)%Hkept. set_solver. }
  cbn. eexists _, _, _. split; [done|]. split; [done|]. destruct err as [e|]; [done|].
  destruct Herr as (entries&?&?). exists kept, entries. split_and!; try done.
  apply Forall_forall. intros x (?&?&Hcs&_)%Hkept.
  pose proof (stream_changes_deliverable now evs c1) as HF. rewrite Hst in HF. cbn in HF.
  rewrite Forall_forall in HF. apply HF. rewrite Hcs. set_solver.
Qed.

(** a batch that cannot be read (a notification that is not JSON, an
    object that cannot be downloaded, a log line without its fields, a
    subscription that cannot be confirmed) is not processed in part: Handle
    returns the error, so that the batch is retried, and requests nothing. *)
Theorem Handle_error output batch c w c1 e :
  refreshAccounts now output c = Ret (c1, None) →
  batch_events UnmarshalNotification GetObject ConfirmSubscription (accounts c1) batch = Err e →
  match handle output batch c w with
  | Ret (_, w', deletes, err) => w' = w ∧ deletes = [] ∧ err = Some e
  | Panic _ => True
  end.
Proof.
  intros Href Hevs. unfold Handle. rewrite Href. run.
  destruct (handle_records_runs now UnmarshalNotification GetObject ConfirmSubscription
              (accounts c1) batch c1 ∅ eq_refl) as [Hrun _].
  destruct (handle_records _ _ _ _ _ _) as [[st err]|]; [|done]. run.
  destruct (Hrun _ _ eq_refl) as [_ ->]. by rewrite Hevs.
Qed.
End Delivery.

(** ** The cache of accounts seen through CloudWatch *)

Section Window.
Context {J : Type} {gjson : GJson J} {awsarn : AwsArn}.
Context (now : nat → Time) (now_mono : ∀ i j, (i ≤ j)%nat → now i ≤ now j).

Definition after_event (ev : channel * J) (c : caches) : caches := (stream_changes now [ev] c).1.

(** the reference: the time of the last CloudWatch event of every account and
    region, never forgotten *)
Fixpoint last_seen (evs : list (channel * J)) (c : caches) (m : gmap string Time) : gmap string Time :=
  match evs with
  | [] => m
  | (ch, d) :: evs =>
      last_seen evs (after_event (ch, d) c)
        (match ch, preprocessCloudTrailLog d with
         | CloudWatch, Ok (Some md) => <[generateSourceKey md := now (ticks c)]> m
         | _, _ => m
         end)
  end.

(** the cache forgets only what has expired *)
Definition cache_inv (c : caches) (m : gmap string Time) : Prop :=
  ∀ k, match cweAccounts c !! k with
       | Some t => m !! k = Some t
       | None => ∀ t, m !! k = Some t → ∃ i, (i < ticks c)%nat ∧ cweAccountTimeout < now i - t
       end.

Lemma cache_inv_tick c m c' :
  cweAccounts c' = cweAccounts c → (ticks c ≤ ticks c')%nat → cache_inv c m → cache_inv c' m.
Proof.
  intros Hw Ht H k. specialize (H k). rewrite Hw. destruct (_ !! k); [done|].
  intros t Hk. destruct (H t Hk) as (i&?&?). exists i. split; [lia|done].
Qed.

Lemma checkCWECache_inv c m k :
  cache_inv c m → cache_inv (checkCWECache now c k).1 m.
Proof.
  intros H. unfold checkCWECache. destruct (cweAccounts c !! k) as [t|] eqn:Hk; [|done].
  case_decide as Hexp; cbn [fst]; [|by eapply cache_inv_tick; [..|exact H]; [done|cbn; lia]].
  intros k'. cbn. destruct (decide (k = k')) as [<-|Hne].
  - rewrite lookup_delete_eq. intros t' Ht'. specialize (H k). rewrite Hk in H. simplify_eq.
    exists (ticks c). split; [lia|done].
  - rewrite lookup_delete_ne by done. specialize (H k'). destruct (_ !! k'); [done|].
    intros t' Ht'. destruct (H t' Ht') as (i&?&?). exists i. split; [lia|done].
Qed.

Lemma cache_inv_seen c m k :
  cache_inv c m → cache_inv (with_cwe c (<[k := now (ticks c)]> (cweAccounts c)) (S (ticks c)))
    (<[k := now (ticks c)]> m).
Proof.
  intros H k'. cbn. destruct (decide (k = k')) as [<-|Hne]; [by rewrite !lookup_insert_eq|].
  rewrite !lookup_insert_ne by done. specialize (H k'). destruct (_ !! k'); [done|].
  intros t Ht. destruct (H t Ht) as (i&?&?). exists i. split; [lia|done].
Qed.

Lemma last_seen_inv evs c m :
  cache_inv c m → cache_inv (stream_changes now evs c).1 (last_seen evs c m).
Proof.
  revert c m. induction evs as [|[ch d] evs IH]; intros c m H; [done|].
  change ((ch, d) :: evs) with ([(ch, d)] ++ evs) at 1. rewrite stream_changes_app. cbn [last_seen].
  unfold after_event. destruct (stream_changes now [(ch, d)] c) as [c1 cs1] eqn:E1.
  cbn [fst]. specialize (IH c1). destruct (stream_changes now evs c1) as [c2 cs2]. cbn [fst] in *.
  apply IH. cbn [stream_changes] in E1.
  destruct (preprocessCloudTrailLog d) as [[md|]|]; [|by destruct ch; simplify_eq..].
  destruct ch; [injection E1 as <- _; by apply cache_inv_seen|].
  pose proof (checkCWECache_inv c m (generateSourceKey md) H) as Hc.
  destruct (checkCWECache now c _). by injection E1 as <- _.
Qed.

(** after any stream of events, an event in a log file is left out
    exactly when its account and region were last seen through CloudWatch at
    most fifteen minutes ago: evicting expired entries changes nothing. *)
Theorem log_file_window evs c c1 cs d md :
  cweAccounts c = ∅ → stream_changes now evs c = (c1, cs) → preprocessCloudTrailLog d = Ok (Some md) →
  (stream_changes now [(LogFile, d)] c1).2 =
  match last_seen evs c ∅ !! generateSourceKey md with
  | Some t => if decide (now (ticks c1) - t ≤ 15 * 60 * Second) then [] else event_changes (accounts c) d md
  | None => event_changes (accounts c) d md
  end.
Proof.
  intros Hc Hst Hd.
  assert (cache_inv c1 (last_seen evs c ∅)) as Hinv.
  { pose proof (last_seen_inv evs c ∅) as Hi. rewrite Hst in Hi. apply Hi. intros k. by rewrite Hc, lookup_empty. }
  assert (accounts c1 = accounts c) as Ha.
  { pose proof (stream_changes_accounts now evs c) as H. by rewrite Hst in H. }
  specialize (Hinv (generateSourceKey md)).
  cbn [stream_changes]. rewrite Hd. unfold checkCWECache.
  change (15 * 60 * Second) with cweAccountTimeout. generalize dependent cweAccountTimeout. intros timeout Hinv.
  destruct (cweAccounts c1 !! generateSourceKey md) as [t|].
  - rewrite Hinv. repeat case_decide; cbn; rewrite ?app_nil_r; try done; try lia. by rewrite Ha.
  - cbn. rewrite app_nil_r, Ha. destruct (last_seen evs c ∅ !! _) as [t|]; [|done].
    destruct (Hinv t eq_refl) as (i&Hi&Hexp). rewrite decide_False; [done|].
    pose proof (now_mono i (ticks c1) ltac:(lia)). lia.
Qed.
End Window.

(** ** Events the processor loses *)

Section Lost.
Context {J : Type} {gjson : GJson J} {awsarn : AwsArn}.

(** a TagResource or UntagResource event is dropped before it reaches a
    classifier, whatever its service, although the DynamoDB, ECS, GuardDuty,
    KMS and Lambda classifiers turn it into a scan of the resource. *)
Theorem tag_events_dropped (now : nat → Time) detail st :
  Exists (Get detail "eventName") = true →
  Str (Get detail "eventName") ∈ ["TagResource"; "UntagResource"] →
  handleCloudTrail now detail st = Ret (st, None).
Proof.
  intros Hex Hname. unfold handleCloudTrail, preprocessCloudTrailLog. rewrite Hex. cbv zeta.
  assert (isIgnoredEvent (Str (Get detail "eventName")) = true) as ->; [|by destruct st].
  unfold isIgnoredEvent. apply orb_true_iff. left.
  repeat (apply elem_of_cons in Hname as [->|Hname]; [vm_compute; reflexivity|]). by apply not_elem_of_nil in Hname.
Qed.

(** one Lambda event of a registered account that names no function, such
    as the publication of a layer, panics the handler, and the rest of the
    batch is not processed. *)
Theorem lambda_layer_panics (now : nat → Time) UnmarshalNotification GetObject ConfirmSubscription
    {W} (client : W → list Entry → W * result SendMessageBatchOutput) {backoff : Backoff}
    DeleteResources MarshalScan order order_requests output record batch c w c1 md :
  let detail := GetIn (Body record) "detail" in
  refreshAccounts now output c = Ret (c1, None) →
  idAttribute record = None → Exists detail = true →
  preprocessCloudTrailLog detail = Ok (Some md) →
  is_Some (accounts c1 !! accountID md) →
  eventSource md = "lambda.amazonaws.com" →
  getLambdaBaseEventName (eventName md) ∈ ["PublishLayerVersion"; "UpdateEventSourceMapping"] →
  Str (Get detail "requestParameters.functionName") = "" →
  Str (Get detail "errorCode") = "" →
  ∃ why, Handle now UnmarshalNotification GetObject ConfirmSubscription client DeleteResources MarshalScan
           order order_requests output (record :: batch) c w = Panic why.
Proof.
  intros detail Href Hid Hex Hp [integ Ha] Hsrc Hname Hfn Herr. unfold Handle. rewrite Href.
  cbn [mbind outcome_bind handle_records]. unfold handle_record. rewrite Hid. rewrite decide_False by done.
  unfold handle_message. cbv zeta. fold detail. rewrite Hex. cbn [handleCloudTrail]. rewrite Hp.
  unfold processCloudTrailLog. cbn [with_cwe accounts]. rewrite Ha, Hsrc.
  change (classifiers "lambda.amazonaws.com") with (Some (classifyLambda (J := J))).
  cbv beta iota.
  rewrite decide_False by tauto.
  destruct (classifyLambda_panics detail md) as [why ->]; [done|by apply bool_decide_eq_true|].
  by exists why.
Qed.
End Lost.

(** ** Witnesses *)

(** two events of the bucket b, delivered out of order, and a tag event *)
Definition demo_event (name time : string) (params : json) : json :=
  JObj [("detail", JObj [("eventName", JStr name); ("eventSource", JStr "s3.amazonaws.com");
    ("userIdentity", JObj [("accountId", JStr "123456789012")]); ("awsRegion", JStr "us-west-2");
    ("eventTime", JStr time); ("requestParameters", params)])].

Definition demo_bodies (s : string) : json :=
  let bucket := JObj [("bucketName", JStr "b")] in
  if decide (s = "delete") then demo_event "DeleteBucket" "2020-07-01T12:00:05Z" bucket
  else if decide (s = "create") then demo_event "CreateBucket" "2020-07-01T12:00:00Z" bucket
  else if decide (s = "layer") then
    JObj [("detail", JObj [("eventName", JStr "PublishLayerVersion20181031");
      ("eventSource", JStr "lambda.amazonaws.com");
      ("userIdentity", JObj [("accountId", JStr "123456789012")]); ("awsRegion", JStr "us-west-2")])]
  else if decide (s = "tag") then
    JObj [("eventName", JStr "TagResource"); ("eventSource", JStr "dynamodb.amazonaws.com");
      ("userIdentity", JObj [("accountId", JStr "123456789012")]); ("awsRegion", JStr "us-west-2");
      ("requestParameters", JObj [("resourceArn", JStr "arn:aws:dynamodb:us-west-2:123456789012:table/t")])]
  else JNull.

Definition demo_accounts : list SourceIntegration :=
  [{| siAWSAccountID := Some "123456789012"; siIntegrationID := Some "integration" |}].

Definition demo_caches : caches :=
  {| accounts := ∅; accountsLastUpdated := 0; cweAccounts := ∅; ticks := 0 |}.

Definition demo_clock (n : nat) : Time := Z.of_nat n * Second.
Definition demo_batch : list SQSRecord :=
  [{| idAttribute := None; Body := "delete" |}; {| idAttribute := None; Body := "create" |}].
Definition demo_marshal (l : list ScanEntry) : result string :=
  Ok (join_with "," (seResourceType <$> l)).


Definition demo_handle :=
  Handle (gjson := demo_gjson demo_bodies) demo_clock (λ _, Err (ErrMsg "not json")) (λ _ _, Err (ErrMsg "no object"))
    (λ _ _ _, None) queue_all (H := bounded_backoff 1) (λ _, None) demo_marshal id id.

Definition demo_refreshed : caches :=
  {| accounts := list_to_map ((λ i, (default "" (siAWSAccountID i), i)) <$> demo_accounts);
     accountsLastUpdated := 0; cweAccounts := ∅; ticks := 1 |}.

Definition demo_evs : list (channel * json) :=
  (λ r, (CloudWatch, json_field (demo_bodies (Body r)) "detail")) <$> demo_batch.

Definition demo_stream : caches * list resourceChange :=
  stream_changes (gjson := demo_gjson demo_bodies) demo_clock demo_evs demo_refreshed.

Lemma demo_fits : fits demo_marshal demo_stream.2.
Proof.
  intros sub body Hsub.
  assert (∀ x, x ∈ sub → seResourceType (scan_entry x) = "AWS.S3.Bucket") as Ht.
  { intros x Hx. assert (x ∈ demo_stream.2) as Hin by (by eapply elem_of_submseteq).
    revert Hin. change demo_stream.2 with (ltac:(let l := eval vm_compute in demo_stream.2 in exact l)).
    intros [->|[->|[]%not_elem_of_nil]%elem_of_cons]%elem_of_cons; reflexivity. }
  apply submseteq_length in Hsub. change (length demo_stream.2) with 2%nat in Hsub.
  unfold demo_marshal. intros [= <-].
  destruct sub as [|x [|y [|]]]; cbn [length fmap list_fmap] in *; [| | |lia];
    rewrite ?Ht by set_solver; vm_compute; discriminate.
Qed.

Lemma Handle_correct_witness :
  ∃ w' deletes err, demo_handle (Ok demo_accounts) demo_batch demo_caches ([], []) =
      Ret (demo_stream.1, w', deletes, err) ∧
    Forall batch_ok w'.2 ∧
    match err with
    | None => ∃ kept entries,
        NoDup (change_key <$> kept) ∧ (∀ x, x ∈ kept ↔ is_newest demo_stream.2 x) ∧ Forall deliverable kept ∧
        submitted demo_marshal kept deletes entries ∧ w'.1 ≡ₚ [] ++ entries
    | Some _ => [] ⊆+ w'.1
    end.
Proof.
  eapply (Handle_correct (gjson := demo_gjson demo_bodies) demo_clock _ _ _ queue_all fst snd queue_all_ok
    (backoff := bounded_backoff 1) _ demo_marshal id id ltac:(done) ltac:(done)
    (Ok demo_accounts) demo_batch demo_caches ([], []) demo_refreshed demo_evs).
  - vm_compute. reflexivity.
  - vm_compute. reflexivity.
  - apply Forall_cons_2; [|apply Forall_cons_2; [|apply Forall_nil_2]]; intros md integ f Hp Ha Hf He; vm_compute in Hp; injection Hp as <-;
      vm_compute in Ha; injection Ha as <-; vm_compute in Hf; injection Hf as <-;
      (split; [by eexists|eexists; vm_compute; reflexivity]).
  - apply surjective_pairing.
  - apply demo_fits.
  - constructor.
Defined.

Lemma record_change_order_independent_witness :
  foldl record_change (∅ : changeMap) demo_stream.2 = foldl record_change ∅ (reverse demo_stream.2 ++ demo_stream.2).
Proof.
  apply record_change_order_independent; [|set_solver].
  intros x y Hx Hy. revert Hx Hy. change demo_stream.2 with (ltac:(let l := eval vm_compute in demo_stream.2 in exact l)).
  intros [->|[->|[]%not_elem_of_nil]%elem_of_cons]%elem_of_cons
         [->|[->|[]%not_elem_of_nil]%elem_of_cons]%elem_of_cons; done.
Defined.

(** the S3 notification cannot be parsed: nothing is submitted *)
Lemma Handle_error_witness :
  match demo_handle (Ok demo_accounts) (demo_batch ++ [{| idAttribute := Some (Some "AWS.CloudTrail"); Body := "x" |}])
          demo_caches ([], []) with
  | Ret (_, w', deletes, err) => w' = ([], []) ∧ deletes = [] ∧
      err = Some (ErrWrap "failed to unmarshal record" (ErrMsg "not json"))
  | Panic _ => True
  end.
Proof.
  apply (Handle_error (gjson := demo_gjson demo_bodies) demo_clock (λ _, Err (ErrMsg "not json"))
    (λ _ _, Err (ErrMsg "no object")) (λ _ _ _, None) queue_all (backoff := bounded_backoff 1) (λ _, None)
    demo_marshal id id (Ok demo_accounts)
    (demo_batch ++ [{| idAttribute := Some (Some "AWS.CloudTrail"); Body := "x" |}]) demo_caches ([], []) demo_refreshed
    (ErrWrap "failed to unmarshal record" (ErrMsg "not json")));
    vm_compute; reflexivity.
Defined.

(** a log line twenty minutes after the last CloudWatch event is processed,
    one five minutes after it is not *)
Definition slow_clock (minutes : Z) (n : nat) : Time := Z.of_nat n * (minutes * 60 * Second).

Lemma log_file_window_witness :
  let d := json_field (demo_bodies "create") "detail" in
  let st minutes := stream_changes (gjson := demo_gjson demo_bodies) (slow_clock minutes) demo_evs demo_refreshed in
  (stream_changes (gjson := demo_gjson demo_bodies) (slow_clock 20) [(LogFile, d)] (st 20).1).2 =
    event_changes (gjson := demo_gjson demo_bodies) (accounts demo_refreshed) d (demo_md "s3.amazonaws.com" "CreateBucket") ∧
  (stream_changes (gjson := demo_gjson demo_bodies) (slow_clock 5) [(LogFile, d)] (st 5).1).2 = [].
Proof.
  intros d st.
  assert (∀ minutes, 0 ≤ minutes → ∀ i j, (i ≤ j)%nat → slow_clock minutes i ≤ slow_clock minutes j) as Hm
    by (intros m Hm i j Hij; unfold slow_clock, Second; nia).
  split.
  - rewrite (log_file_window (gjson := demo_gjson demo_bodies) (slow_clock 20) (Hm 20 ltac:(lia)) demo_evs
      demo_refreshed (st 20).1 (st 20).2 d (demo_md "s3.amazonaws.com" "CreateBucket"));
      [vm_compute; reflexivity|reflexivity|apply surjective_pairing|vm_compute; reflexivity].
  - rewrite (log_file_window (gjson := demo_gjson demo_bodies) (slow_clock 5) (Hm 5 ltac:(lia)) demo_evs
      demo_refreshed (st 5).1 (st 5).2 d (demo_md "s3.amazonaws.com" "CreateBucket"));
      [vm_compute; reflexivity|reflexivity|apply surjective_pairing|vm_compute; reflexivity].
Defined.

(** the tag event is dropped, while the classifier of its service would scan the table *)
Lemma tag_events_dropped_witness :
  let detail := demo_bodies "tag" in
  handleCloudTrail (gjson := demo_gjson demo_bodies) demo_clock detail (demo_refreshed, ∅) =
    Ret ((demo_refreshed, ∅), None) ∧
  ResourceID <$> classifyDynamoDB (gjson := demo_gjson demo_bodies) detail
    (demo_md "dynamodb.amazonaws.com" "TagResource") = ["arn:aws:dynamodb:us-west-2:123456789012:table/t"].
Proof.
  intros detail. split; [|vm_compute; reflexivity].
  apply (tag_events_dropped (gjson := demo_gjson demo_bodies)); [vm_compute; reflexivity|].
  change (Str _) with "TagResource". set_solver.
Defined.

Lemma lambda_layer_panics_witness :
  ∃ why, demo_handle (Ok demo_accounts) ({| idAttribute := None; Body := "layer" |} :: demo_batch)
           demo_caches ([], []) = Panic why.
Proof.
  apply (lambda_layer_panics (gjson := demo_gjson demo_bodies) demo_clock _ _ _ queue_all (backoff := bounded_backoff 1)
    _ demo_marshal id id (Ok demo_accounts) {| idAttribute := None; Body := "layer" |} demo_batch demo_caches ([], [])
    demo_refreshed (demo_md "lambda.amazonaws.com" "PublishLayerVersion20181031"));
    try (vm_compute; reflexivity).
  - eexists. vm_compute. reflexivity.
  - change (getLambdaBaseEventName _) with "PublishLayerVersion". set_solver.
Defined.
