(* ===== verification/AlertOutputs.v ===== *)
(** * Alert delivery: the output integrations

    Model of src/internal/core/alert_delivery/outputs and of the data it
    works on (alert_delivery/models, api/lambda/outputs/models): what each
    integration sends for an alert, and which failures are permanent.  The
    JSON encoder, net/http and the AWS clients are parameters. *)

From S2P Require Import Prelude GoTime Base64 AwsClassifiers.

#[local] Open Scope Z_scope.

(** ** Data *)

(** a time.Time read from JSON: the instant and the offset of its zone in seconds *)
Record ZonedTime := { instant : Time; zoneOffset : Z }.

(** models.Alert; a Go pointer is an [option] *)
Record Alert := {
  CreatedAt : option ZonedTime;
  OutputIDs : list (option string);
  PolicyDescription : option string;
  PolicyID : option string;
  PolicyName : option string;
  PolicyVersionID : option string;
  Runbook : option string;
  Severity : option string;
  Tags : list (option string);
  AlertID : option string;
  alertType : option string;
  Title : option string
}.

Definition RuleType : string := "RULE".
Definition PolicyType : string := "POLICY".

Record SlackConfig := { slackWebhookURL : option string }.
Record SnsConfig := { TopicArn : option string }.
Record PagerDutyConfig := { IntegrationKey : option string }.
Record GithubConfig := { RepoName : option string; Token : option string }.
Record JiraConfig := {
  OrgDomain : option string; ProjectKey : option string; UserName : option string;
  jiraAPIKey : option string; AssigneeID : option string; jiraType : option string
}.
Record OpsgenieConfig := { opsgenieAPIKey : option string }.
Record MsTeamsConfig := { teamsWebhookURL : option string }.
Record SqsConfig := { QueueURL : option string }.
Record AsanaConfig := { PersonalAccessToken : option string; ProjectGids : list (option string) }.

Record OutputConfig := {
  cSlack : option SlackConfig; cSns : option SnsConfig; cPagerDuty : option PagerDutyConfig;
  cGithub : option GithubConfig; cJira : option JiraConfig; cOpsgenie : option OpsgenieConfig;
  cMsTeams : option MsTeamsConfig; cSqs : option SqsConfig; cAsana : option AsanaConfig
}.

(** models.AlertOutput, without who created and modified it *)
Record AlertOutput := {
  DisplayName : option string;
  OutputID : option string;
  OutputType : option string;
  outputConfig : option OutputConfig;
  DefaultForSeverity : list (option string)
}.

Record AlertDeliveryError := { Message : string; Permanent : bool }.

(** interface{}: what a request body is made of *)
Inductive value :=
| VStr (s : string)
| VBool (b : bool)
| VPtr (p : option string)
| VList (l : list value)
| VMap (m : list (string * value)).

Record PostInput := { url : string; body : value; headers : gmap string string }.

(** ** The language and its library *)

(** aws.StringValue, aws.StringValueSlice and the dereference of a pointer *)
Definition StringValue (p : option string) : string := default "" p.
Definition StringValueSlice (l : list (option string)) : list string := StringValue <$> l.
Definition load {A} (p : option A) : outcome A :=
  match p with Some a => Ret a | None => Panic "nil pointer dereference" end.

Fixpoint errText (e : error) : string :=
  match e with
  | ErrMsg m => m
  | ErrText pre e => pre +:+ errText e
  | ErrWrap m e => m +:+ ": " +:+ errText e
  | ErrPermanent e => errText e
  | ErrAWS code m => code +:+ ": " +:+ m
  | ErrNum fn input range =>
      "strconv." +:+ fn +:+ ": parsing " +:+ String "034" input +:+ String "034" ": "
        +:+ if range then "value out of range" else "invalid syntax"
  | ErrBadPattern => "syntax error in pattern"
  | ErrEOF => "EOF"
  end.

Definition newline : string := String "010" "".

Fixpoint Join (sep : string) (l : list string) : string :=
  match l with
  | [] => ""
  | [s] => s
  | s :: l => s +:+ sep +:+ Join sep l
  end.

Definition pad04 (z : Z) : string :=
  let digits := itoa (Z.abs z) in
  (if z <? 0 then "-" else "") +:+
  Nat.iter (4 - String.length digits) (String "0") digits.

(** Format(time.RFC3339) *)
Definition FormatRFC3339 (t : ZonedTime) : string :=
  let l := instant t + zoneOffset t * Second in
  let zone := Z.quot (zoneOffset t) 60 in
  pad04 (Year l) +:+ "-" +:+ pad02 (Month l) +:+ "-" +:+ pad02 (Day l) +:+ "T" +:+
  pad02 (HourOf l) +:+ ":" +:+ pad02 (l mod Hour / (60 * Second)) +:+ ":" +:+ pad02 (l mod (60 * Second) / Second) +:+
  if decide (zoneOffset t = 0) then "Z"
  else (if zone <? 0 then "-" else "+") +:+ pad02 (Z.abs zone / 60) +:+ ":" +:+ pad02 (Z.abs zone mod 60).

(** base64.StdEncoding.EncodeToString *)
Definition std_encode (s : string) : string := replace_byte "_" "/" (replace_byte "-" "+" (b64_encode s)).

(** ** Texts *)

Definition getDisplayName (alert : Alert) : outcome string :=
  if decide (StringValue (PolicyName alert) ≠ "") then load (PolicyName alert) else load (PolicyID alert).

Definition is_rule (alert : Alert) : bool := bool_decide (StringValue (alertType alert) = RuleType).

Definition generateAlertMessage (alert : Alert) : outcome string :=
  name ← getDisplayName alert;
  Ret (if is_rule alert then name +:+ " failed" else name +:+ " failed on new resources").

Definition generateAlertTitle (alert : Alert) : outcome string :=
  match Title alert with
  | Some title => Ret ("New Alert: " +:+ title)
  | None =>
      name ← getDisplayName alert;
      Ret (if is_rule alert then "New Alert: " +:+ name else "Policy Failure: " +:+ name)
  end.

Section Outputs.
Context (policyURLPrefix alertURLPrefix : string).

Definition generateURL (alert : Alert) : outcome string :=
  if is_rule alert then id ← load (AlertID alert); Ret (alertURLPrefix +:+ id)
  else id ← load (PolicyID alert); Ret (policyURLPrefix +:+ id).

Definition generateDetailedAlertMessage (alert : Alert) : outcome string :=
  message ← generateAlertMessage alert;
  link ← generateURL alert;
  Ret (message +:+ newline +:+ "For more details please visit: " +:+ link +:+ newline +:+ "Severity: "
       +:+ StringValue (Severity alert) +:+ newline +:+ "Runbook: " +:+ StringValue (Runbook alert) +:+ newline
       +:+ "Description:" +:+ StringValue (PolicyDescription alert)).

(** ** post.go *)

Definition AuthorizationHTTPHeader : string := "Authorization".

Record Request := { rURL : string; rBody : string; rHeaders : gmap string string }.
Record Response := { StatusCode : Z; rStatus : string; rText : string }.

(** what the clients do to the world *)
Context {W : Type}.
Context (Marshal : value → result string) (NewRequest : string → option error)
        (Do : W → Request → W * result Response).

Definition post (w : W) (input : PostInput) : W * option AlertDeliveryError :=
  match Marshal (body input) with
  | Err e => (w, Some {| Message := "json marshal error: " +:+ errText e; Permanent := true |})
  | Ok payload =>
      match NewRequest (url input) with
      | Some e => (w, Some {| Message := "http request error: " +:+ errText e; Permanent := true |})
      | None =>
          let request := {| rURL := url input; rBody := payload;
            rHeaders := headers input ∪ {["Content-Type" := "application/json"; "Accept" := "application/json"]} |} in
          match Do w request with
          | (w, Err e) => (w, Some {| Message := "network error: " +:+ errText e; Permanent := false |})
          | (w, Ok response) =>
              if decide (StatusCode response < 200 ∨ 299 < StatusCode response)
              then (w, Some {| Message := "request failed: " +:+ rStatus response +:+ ": " +:+ rText response;
                               Permanent := false |})
              else (w, None)
          end
      end
  end.

(** ** The integrations: the request of each *)

Definition severityColors (severity : string) : string :=
  if decide (severity = "CRITICAL") then "#425a70"
  else if decide (severity = "HIGH") then "#cb2e2e"
  else if decide (severity = "MEDIUM") then "#d9822b"
  else if decide (severity = "LOW") then "#f7d154"
  else if decide (severity = "INFO") then "#47b881"
  else "".

Definition Slack (alert : Alert) (config : option SlackConfig) : outcome PostInput :=
  link ← generateURL alert;
  title ← generateAlertTitle alert;
  let fields := VList
    [VMap [("value", VStr ("<" +:+ link +:+ "|Click here to view in the Panther UI>")); ("short", VBool false)];
     VMap [("title", VStr "Runbook"); ("value", VStr (StringValue (Runbook alert))); ("short", VBool false)];
     VMap [("title", VStr "Severity"); ("value", VStr (StringValue (Severity alert))); ("short", VBool true)]] in
  let payload := VMap [("attachments", VList [VMap
    [("fallback", VStr title); ("color", VStr (severityColors (StringValue (Severity alert))));
     ("title", VStr title); ("fields", fields)]])] in
  config ← load config;
  endpoint ← load (slackWebhookURL config);
  Ret {| url := endpoint; body := payload; headers := ∅ |}.

Definition pagerDutyEndpoint : string := "https://events.pagerduty.com/v2/enqueue".

Definition pantherSeverityToPagerDuty (severity : option string) : outcome (string + AlertDeliveryError) :=
  s ← load severity;
  Ret (if decide (s ∈ ["INFO"; "LOW"]) then inl "info"
       else if decide (s = "MEDIUM") then inl "warning"
       else if decide (s = "HIGH") then inl "error"
       else if decide (s = "CRITICAL") then inl "critical"
       else inr {| Message := "unknown severity" +:+ s; Permanent := false |}).

Definition PagerDuty (alert : Alert) (config : option PagerDutyConfig)
    : outcome (PostInput + AlertDeliveryError) :=
  r ← pantherSeverityToPagerDuty (Severity alert);
  match r with
  | inr err => Ret (inr err)
  | inl severity =>
      title ← generateAlertTitle alert;
      createdAt ← load (CreatedAt alert);
      config ← load config;
      key ← load (IntegrationKey config);
      Ret (inl {| url := pagerDutyEndpoint; headers := ∅;
        body := VMap
          [("payload", VMap
             [("summary", VStr title); ("severity", VStr severity); ("timestamp", VStr (FormatRFC3339 createdAt));
              ("source", VStr "pantherlabs");
              ("custom_details", VMap [("description", VStr (StringValue (PolicyDescription alert)));
                                       ("runbook", VStr (StringValue (Runbook alert)))])]);
           ("routing_key", VStr key); ("event_action", VStr "trigger")] |})
  end.

Definition githubEndpoint : string := "https://api.github.com/repos/".
Definition requestType : string := "/issues".

(** the text of an issue, with [b] around its headings *)
Definition issue_text (b : string) (alert : Alert) (link : string) : string :=
  b +:+ "Description:" +:+ b +:+ " " +:+ StringValue (PolicyDescription alert) +:+
  newline +:+ " [Click here to view in the Panther UI](" +:+ link +:+ ")" +:+
  newline +:+ " " +:+ b +:+ "Runbook:" +:+ b +:+ " " +:+ StringValue (Runbook alert) +:+
  newline +:+ " " +:+ b +:+ "Severity:" +:+ b +:+ " " +:+ StringValue (Severity alert) +:+
  newline +:+ " " +:+ b +:+ "Tags:" +:+ b +:+ " " +:+ Join ", " (StringValueSlice (Tags alert)).

Definition Github (alert : Alert) (config : option GithubConfig) : outcome PostInput :=
  link ← generateURL alert;
  title ← generateAlertTitle alert;
  config ← load config;
  token ← load (Token config);
  repo ← load (RepoName config);
  Ret {| url := githubEndpoint +:+ repo +:+ requestType;
         body := VMap [("title", VStr title); ("body", VStr (issue_text "**" alert link))];
         headers := {[AuthorizationHTTPHeader := "token " +:+ token]} |}.

Definition jiraEndpoint : string := "/rest/api/latest/issue/".

Definition Jira (alert : Alert) (config : option JiraConfig) : outcome PostInput :=
  link ← generateURL alert;
  title ← generateAlertTitle alert;
  config ← load config;
  let fields :=
    [("summary", VStr title); ("description", VStr (issue_text "*" alert link));
     ("project", VMap [("key", VPtr (ProjectKey config))]); ("issuetype", VMap [("name", VPtr (jiraType config))])] ++
    if decide (StringValue (AssigneeID config) ≠ "") then [("assignee", VMap [("id", VPtr (AssigneeID config))])]
    else [] in
  user ← load (UserName config);
  key ← load (jiraAPIKey config);
  domain ← load (OrgDomain config);
  Ret {| url := domain +:+ jiraEndpoint; body := VMap [("fields", VMap fields)];
         headers := {[AuthorizationHTTPHeader := "Basic " +:+ std_encode (user +:+ ":" +:+ key)]} |}.

Definition opsgenieEndpoint : string := "https://api.opsgenie.com/v2/alerts".

Definition pantherToOpsGeniePriority (severity : string) : string :=
  if decide (severity = "CRITICAL") then "P1"
  else if decide (severity = "HIGH") then "P2"
  else if decide (severity = "MEDIUM") then "P3"
  else if decide (severity = "LOW") then "P4"
  else if decide (severity = "INFO") then "P5"
  else "".

Definition Opsgenie (alert : Alert) (config : option OpsgenieConfig) : outcome PostInput :=
  link ← generateURL alert;
  title ← generateAlertTitle alert;
  config ← load config;
  key ← load (opsgenieAPIKey config);
  let description := "<strong>Description:</strong> " +:+ StringValue (PolicyDescription alert) +:+
    newline +:+ "<a href=" +:+ String "034" link +:+ String "034" ">Click here to view in the Panther UI</a>" +:+
    newline +:+ " <strong>Runbook:</strong> " +:+ StringValue (Runbook alert) +:+
    newline +:+ " <strong>Severity:</strong> " +:+ StringValue (Severity alert) in
  Ret {| url := opsgenieEndpoint;
         body := VMap [("message", VStr title); ("description", VStr description);
                       ("tags", VList (VStr <$> StringValueSlice (Tags alert)));
                       ("priority", VStr (pantherToOpsGeniePriority (StringValue (Severity alert))))];
         headers := {[AuthorizationHTTPHeader := "GenieKey " +:+ key]} |}.

Definition fact (name v : string) : value := VMap [("name", VStr name); ("value", VStr v)].

Definition MsTeams (alert : Alert) (config : option MsTeamsConfig) : outcome PostInput :=
  title ← generateAlertTitle alert;
  let text := "[Click here to view in the Panther UI](" +:+ policyURLPrefix +:+ StringValue (PolicyID alert)
                +:+ ")." +:+ newline in
  uri ← generateURL alert;
  config ← load config;
  endpoint ← load (teamsWebhookURL config);
  Ret {| url := endpoint; headers := ∅;
         body := VMap
           [("@context", VStr "http://schema.org/extensions"); ("@type", VStr "MessageCard"); ("text", VStr title);
            ("sections", VList [VMap
              [("facts", VList [fact "Description" (StringValue (PolicyDescription alert));
                                fact "Runbook" (StringValue (Runbook alert));
                                fact "Severity" (StringValue (Severity alert));
                                fact "Tags" (Join ", " (StringValueSlice (Tags alert)))]);
               ("text", VStr text)]]);
            ("potentialAction", VList [VMap
              [("@type", VStr "OpenUri"); ("name", VStr "Click here to view in the Panther UI");
               ("targets", VList [VMap [("os", VStr "default"); ("uri", VStr uri)]])]])] |}.

Definition asanaCreateTaskURL : string := "https://app.asana.com/api/1.0/tasks".

Definition Asana (alert : Alert) (config : option AsanaConfig) : outcome PostInput :=
  title ← generateAlertTitle alert;
  config ← load config;
  notes ← generateDetailedAlertMessage alert;
  Ret {| url := asanaCreateTaskURL;
         body := VMap [("data", VMap [("name", VStr title); ("projects", VList (VPtr <$> ProjectGids config));
                                      ("notes", VStr notes)])];
         headers := {[AuthorizationHTTPHeader := "Bearer " +:+ StringValue (PersonalAccessToken config)]} |}.

(** ** SNS and SQS *)

(** snsDefaultMessage and sqsOutputMessage *)
Record OutputMessage := {
  omID : option string; omName : option string; omVersionID : option string; omDescription : option string;
  omRunbook : option string; omSeverity : option string; omTags : list (option string)
}.

Definition output_message (alert : Alert) : OutputMessage :=
  {| omID := PolicyID alert; omName := PolicyName alert; omVersionID := PolicyVersionID alert;
     omDescription := PolicyDescription alert; omRunbook := Runbook alert; omSeverity := Severity alert;
     omTags := Tags alert |}.

Record snsMessage := { DefaultMessage : string; EmailMessage : string }.
Record PublishInput := { piTopicArn : string; piMessage : string; piSubject : string }.

(** the clients made so far, by region *)
Record OutputClient := { world : W; sqsClients : gset string; snsClients : gset string }.

Context (MarshalMessage : OutputMessage → result string) (MarshalSns : snsMessage → result string)
        (Publish : W → string → PublishInput → W * option error)
        (SendMessage : W → string → string → string → W * option error). (* region, queue, body *)
Context {awsarn : AwsArn}.

Definition getSnsClient (c : OutputClient) (topicArn : string) : result (OutputClient * string) :=
  match arn_Parse topicArn with
  | Err e => Err e
  | Ok parsed => Ok ({| world := world c; sqsClients := sqsClients c;
                        snsClients := {[arnRegion parsed]} ∪ snsClients c |}, arnRegion parsed)
  end.

Definition failed (msg : string) (permanent : bool) : option AlertDeliveryError :=
  Some {| Message := msg; Permanent := permanent |}.

Definition Sns (c : OutputClient) (alert : Alert) (config : option SnsConfig)
    : outcome (OutputClient * option AlertDeliveryError) :=
  match MarshalMessage (output_message alert) with
  | Err _ => Ret (c, failed "Failed to serialize default message" true)
  | Ok default_message =>
      email ← generateDetailedAlertMessage alert;
      match MarshalSns {| DefaultMessage := default_message; EmailMessage := email |} with
      | Err _ => Ret (c, failed "Failed to serialize message" true)
      | Ok message =>
          config ← load config;
          title ← generateAlertTitle alert;
          topic ← load (TopicArn config);
          match getSnsClient c topic with
          | Err _ => Ret (c, failed "Failed to create SNS client for topic" true)
          | Ok (c, region) =>
              let '(w, err) := Publish (world c) region
                {| piTopicArn := topic; piMessage := message; piSubject := title |} in
              let c := {| world := w; sqsClients := sqsClients c; snsClients := snsClients c |} in
              match err with
              | Some _ => Ret (c, failed "Failed to send message to SNS topic" false)
              | None => Ret (c, None)
              end
          end
      end
  end.

Definition getSqsClient (c : OutputClient) (queueURL : string) : outcome (OutputClient * string) :=
  match split_on "." queueURL !! 1%nat with
  | None => Panic "index out of range"
  | Some region => Ret ({| world := world c; sqsClients := {[region]} ∪ sqsClients c;
                           snsClients := snsClients c |}, region)
  end.

Definition Sqs (c : OutputClient) (alert : Alert) (config : option SqsConfig)
    : outcome (OutputClient * option AlertDeliveryError) :=
  match MarshalMessage (output_message alert) with
  | Err _ => Ret (c, failed "Failed to serialize message" false)
  | Ok message =>
      config ← load config;
      queue ← load (QueueURL config);
      '(c, region) ← getSqsClient c queue;
      let '(w, err) := SendMessage (world c) region queue message in
      let c := {| world := w; sqsClients := sqsClients c; snsClients := snsClients c |} in
      match err with
      | Some _ => Ret (c, failed "Failed to send message to SQS queue" false)
      | None => Ret (c, None)
      end
  end.

Definition posted (c : OutputClient) (r : outcome PostInput) : outcome (OutputClient * option AlertDeliveryError) :=
  input ← r;
  let '(w, err) := post (world c) input in
  Ret ({| world := w; sqsClients := sqsClients c; snsClients := snsClients c |}, err).

(** the switch of send: [None] for an unsupported type *)
Definition deliver (c : OutputClient) (alert : Alert) (output : AlertOutput)
    : outcome (OutputClient * option (option AlertDeliveryError)) :=
  type ← load (OutputType output);
  let with_config {C R} (f : OutputConfig → C) (k : C → outcome R) : outcome R :=
    config ← load (outputConfig output); k (f config) in
  let some (r : outcome (OutputClient * option AlertDeliveryError)) :=
    '(c, err) ← r; Ret (c, Some err) in
  if decide (type = "slack") then some (with_config cSlack (λ cfg, posted c (Slack alert cfg)))
  else if decide (type = "pagerduty") then
    some (with_config cPagerDuty (λ cfg,
      r ← PagerDuty alert cfg;
      match r with inr err => Ret (c, Some err) | inl input => posted c (Ret input) end))
  else if decide (type = "github") then some (with_config cGithub (λ cfg, posted c (Github alert cfg)))
  else if decide (type = "opsgenie") then some (with_config cOpsgenie (λ cfg, posted c (Opsgenie alert cfg)))
  else if decide (type = "jira") then some (with_config cJira (λ cfg, posted c (Jira alert cfg)))
  else if decide (type = "msteams") then some (with_config cMsTeams (λ cfg, posted c (MsTeams alert cfg)))
  else if decide (type = "sqs") then some (with_config cSqs (Sqs c alert))
  else if decide (type = "sns") then some (with_config cSns (Sns c alert))
  else if decide (type = "asana") then some (with_config cAsana (λ cfg, posted c (Asana alert cfg)))
  else Ret (c, None).
End Outputs.
