(* ===== verification/AlertDelivery.v ===== *)
(** * Alert delivery

    Model of src/internal/core/alert_delivery/delivery and its Lambda handler:
    the outputs an alert goes to, the goroutines that send it, and the alerts
    that go back to the queue.  The goroutines of dispatch are modelled twice:
    as a step relation with the blocking channel they report to and the client
    maps they share without a lock, and as the function [collect] for a given
    interleaving; the theorems relate the two. *)

From S2P Require Import Prelude GoTime Backoff Sqsbatch AwsClassifiers AlertOutputs.

#[local] Open Scope Z_scope.

(** ** Environment *)

Definition Minute : Z := 60 * Second.

Definition mustParseInt (text : string) : outcome Z :=
  match atoi text with Ok val => Ret val | Err e => Panic (errText e) end.

(** the environment variables that are read *)
Record environment := {
  ALERT_RETRY_DURATION_MINS : string;
  MIN_RETRY_DELAY_SECS : string;
  MAX_RETRY_DELAY_SECS : string;
  OUTPUTS_REFRESH_INTERVAL_MIN : string
}.

Definition getMaxRetryDuration (env : environment) : outcome Z :=
  mins ← mustParseInt (ALERT_RETRY_DURATION_MINS env); Ret (int64 (mins * Minute)).

Definition getRefreshInterval (env : environment) : outcome Z :=
  let intervalMins := OUTPUTS_REFRESH_INTERVAL_MIN env in
  mins ← mustParseInt (if decide (intervalMins = "") then "5" else intervalMins);
  Ret (int64 (mins * Minute)).

(** time.Since: the difference of two times saturates *)
Definition Since (now t : Time) : Z := Z.max (- two63) (Z.min (two63 - 1) (now - t)).

(** ** dispatch.go: one output *)

Record outputStatus := { outputID : string; success : bool; needsRetry : bool }.

(** ** The shared client maps *)

(** OutputClient keeps one map of API clients for SNS and one for SQS *)
Inductive clientMap := snsClientMap | sqsClientMap.

#[export] Instance clientMap_eq_dec : EqDecision clientMap.
Proof. solve_decision. Defined.

Definition client_map (output : AlertOutput) : option clientMap :=
  match OutputType output with
  | Some type =>
      if decide (type = "sns") then Some snsClientMap
      else if decide (type = "sqs") then Some sqsClientMap else None
  | None => None
  end.

(** the lookup in getSnsClient and getSqsClient, which comes before the
    insertion; an output whose region cannot be read does not reach it *)
Definition client_cached {W : Type} `{!AwsArn} (c : OutputClient (W := W)) (output : AlertOutput) : bool :=
  match client_map output, outputConfig output with
  | Some snsClientMap, Some config =>
      match TopicArn <$> cSns config with
      | Some (Some topic) =>
          match arn_Parse topic with Ok parsed => bool_decide (arnRegion parsed ∈ snsClients c) | Err _ => true end
      | _ => true
      end
  | Some sqsClientMap, Some config =>
      match QueueURL <$> cSqs config with
      | Some (Some url) =>
          match split_on "." url !! 1%nat with Some region => bool_decide (region ∈ sqsClients c) | None => true end
      | _ => true
      end
  | _, _ => true
  end.

Section Delivery.
(** the integrations: [None] for a type that is not supported *)
Context {C : Type} (deliver : C → Alert → AlertOutput → outcome (C * option (option AlertDeliveryError))).

(** a panic before the deferred function is set up is not recovered *)
Definition send (c : C) (alert : Alert) (output : AlertOutput) : outcome (C * outputStatus) :=
  id ← load (OutputID output);
  _ ← load (PolicyID alert);
  let status ok retry := {| outputID := id; success := ok; needsRetry := retry |} in
  match _ ← load (DisplayName output); deliver c alert output with
  | Panic _ => Ret (c, status false false)
  | Ret (c, None) => Ret (c, status false false)
  | Ret (c, Some (Some err)) => Ret (c, status false (negb (Permanent err)))
  | Ret (c, Some None) => Ret (c, status true false)
  end.

(** the loop that receives the statuses *)
Definition receive (retryOutputs : list string) (st : outputStatus) : list string :=
  if needsRetry st then retryOutputs ++ [outputID st] else retryOutputs.

(** ** dispatch.go: the goroutines *)

(** whether the client of an output's region is already in its map *)
Context (cached : C → AlertOutput → bool).

(** a goroutine may look up, and add, a client in the shared map of its
    output type; it sends the alert, then blocks until its status is received *)
Inductive task := Running (output : AlertOutput) | InMap (output : AlertOutput) | Blocked (st : outputStatus).

Inductive dstate :=
| Crashed
| Dispatching (tasks : list task) (expected : nat) (retryOutputs : list string) (c : C).

(** the task in which the goroutine of an output delivers *)
Definition delivering (output : AlertOutput) : task :=
  match client_map output with Some _ => InMap output | None => Running output end.

(** The maps have no lock: the process ends when two goroutines are in the
    same map and one of them adds a client.  A goroutine stays in the map
    until it has delivered, which is longer than the lookup and the insertion
    take: the runs below include all those of the code. *)
Inductive step (alert : Alert) : dstate → dstate → Prop :=
| step_map l1 o l2 n retry c :
    is_Some (client_map o) →
    step alert (Dispatching (l1 ++ Running o :: l2) n retry c) (Dispatching (l1 ++ InMap o :: l2) n retry c)
| step_race l1 o1 l2 o2 l3 n retry c :
    client_map o1 = client_map o2 → cached c o1 = false ∨ cached c o2 = false →
    step alert (Dispatching (l1 ++ InMap o1 :: l2 ++ InMap o2 :: l3) n retry c) Crashed
| step_send l1 o l2 n retry c c' st :
    send c alert o = Ret (c', st) →
    step alert (Dispatching (l1 ++ delivering o :: l2) n retry c) (Dispatching (l1 ++ Blocked st :: l2) n retry c')
| step_crash l1 o l2 n retry c why :
    send c alert o = Panic why →
    step alert (Dispatching (l1 ++ delivering o :: l2) n retry c) Crashed
| step_receive l1 st l2 n retry c :
    step alert (Dispatching (l1 ++ Blocked st :: l2) (S n) retry c)
               (Dispatching (l1 ++ l2) n (receive retry st) c).

Definition started (outputs : list AlertOutput) (c : C) : dstate :=
  Dispatching (Running <$> outputs) (length outputs) [] c.

(** ** dispatch.go: the result for a given interleaving *)

(** an interleaving: the order in which the goroutines send, and the order in
    which their statuses are received *)
Record interleaving := {
  sends : list AlertOutput → list AlertOutput;
  receives : list outputStatus → list outputStatus
}.

Fixpoint send_all (c : C) (alert : Alert) (outputs : list AlertOutput) : outcome (C * list outputStatus) :=
  match outputs with
  | [] => Ret (c, [])
  | o :: outputs =>
      '(c, st) ← send c alert o;
      '(c, sts) ← send_all c alert outputs;
      Ret (c, st :: sts)
  end.

Definition collect (il : interleaving) (c : C) (alert : Alert) (outputs : list AlertOutput)
    : outcome (C * list string) :=
  '(c, sts) ← send_all c alert (sends il outputs);
  Ret (c, foldl receive [] (receives il sts)).

(** ** outputs.go *)

(** the state of the process; [ticks] counts the readings of the clock *)
Record dispatcher := { clients : C; cache : option (list AlertOutput * Time); ticks : nat }.

Context (now : nat → Time) (refreshInterval : Z).
(** the answer of the outputs API when it is asked at a reading of the clock *)
Context (GetOutputs : nat → result (list AlertOutput)).

Fixpoint severity_matches (severity : option string) (output : AlertOutput) (l : list (option string))
    : outcome (list AlertOutput) :=
  match l with
  | [] => Ret []
  | s :: l =>
      a ← load severity; b ← load s;
      rest ← severity_matches severity output l;
      Ret (if decide (a = b) then output :: rest else rest)
  end.

Fixpoint getOutputsBySeverity (outputs : list AlertOutput) (severity : option string) : outcome (list AlertOutput) :=
  match outputs with
  | [] => Ret []
  | output :: outputs =>
      l ← severity_matches severity output (DefaultForSeverity output);
      rest ← getOutputsBySeverity outputs severity;
      Ret (l ++ rest)
  end.

Fixpoint id_matches (output : AlertOutput) (ids : list (option string)) : outcome (list AlertOutput) :=
  match ids with
  | [] => Ret []
  | alertOutputID :: ids =>
      a ← load (OutputID output); b ← load alertOutputID;
      rest ← id_matches output ids;
      Ret (if decide (a = b) then output :: rest else rest)
  end.

Fixpoint outputs_by_id (outputs : list AlertOutput) (ids : list (option string)) : outcome (list AlertOutput) :=
  match outputs with
  | [] => Ret []
  | output :: outputs =>
      l ← id_matches output ids;
      rest ← outputs_by_id outputs ids;
      Ret (l ++ rest)
  end.

(** the refresh of the cache: the outputs it holds, or the error *)
Definition refresh (d : dispatcher) : dispatcher * result (list AlertOutput) :=
  let stale := match cache d with
               | None => true
               | Some (_, timestamp) => bool_decide (refreshInterval < Since (now (ticks d)) timestamp)
               end in
  let t := match cache d with None => ticks d | Some _ => S (ticks d) end in
  if stale then
    match GetOutputs t with
    | Err e => ({| clients := clients d; cache := cache d; ticks := t |}, Err e)
    | Ok outputs => ({| clients := clients d; cache := Some (outputs, now t); ticks := S t |}, Ok outputs)
    end
  else ({| clients := clients d; cache := cache d; ticks := t |},
        Ok (match cache d with Some (outputs, _) => outputs | None => [] end)).

Definition getAlertOutputs (d : dispatcher) (alert : Alert) : outcome (dispatcher * result (list AlertOutput)) :=
  match refresh d with
  | (d, Err e) => Ret (d, Err e)
  | (d, Ok outputs) =>
      result ← (match OutputIDs alert with
                | [] => getOutputsBySeverity outputs (Severity alert)
                | ids => outputs_by_id outputs ids
                end);
      Ret (d, Ok result)
  end.

Definition with_outputs (alert : Alert) (ids : list string) : Alert :=
  {| CreatedAt := CreatedAt alert; OutputIDs := Some <$> ids; PolicyDescription := PolicyDescription alert;
     PolicyID := PolicyID alert; PolicyName := PolicyName alert; PolicyVersionID := PolicyVersionID alert;
     Runbook := Runbook alert; Severity := Severity alert; Tags := Tags alert; AlertID := AlertID alert;
     alertType := alertType alert; Title := Title alert |}.

(** the alert as dispatch leaves it, and whether it was sent *)
Definition dispatch (il : interleaving) (d : dispatcher) (alert : Alert) : outcome (dispatcher * Alert * bool) :=
  '(d, r) ← getAlertOutputs d alert;
  match r with
  | Err _ =>
      _ ← load (PolicyID alert); _ ← load (Severity alert);
      Ret (d, alert, false)
  | Ok [] =>
      _ ← load (PolicyID alert); _ ← load (Severity alert);
      Ret (d, alert, true)
  | Ok outputs =>
      '(c, retryOutputs) ← collect il (clients d) alert outputs;
      let d := {| clients := c; cache := cache d; ticks := ticks d |} in
      match retryOutputs with
      | [] => Ret (d, alert, true)
      | _ => Ret (d, with_outputs alert retryOutputs, false)
      end
  end.

(** ** retry.go *)

Context (env : environment) (Intn : nat → Z → Z) (MarshalAlert : Alert → result string).
Context {Q : Type} (sqs : Q → list Entry → Q * result SendMessageBatchOutput) {backoff : Backoff}.

Definition randomInt (i : nat) (lower upper : Z) : outcome Z :=
  let n := int64 (upper - lower) in
  if decide (n ≤ 0) then Panic "invalid argument to Intn" else Ret (int64 (Intn i n + lower)).

Fixpoint retry_entries (i : nat) (minDelaySeconds maxDelaySeconds : Z) (alerts : list Alert) : outcome (list Entry) :=
  match alerts with
  | [] => Ret []
  | alert :: alerts =>
      match MarshalAlert alert with
      | Err e => Panic "error encoding alert as JSON"
      | Ok body =>
          delay ← randomInt i minDelaySeconds maxDelaySeconds;
          rest ← retry_entries (S i) minDelaySeconds maxDelaySeconds alerts;
          Ret ({| Id := Some (itoa (Z.of_nat i)); MessageBody := Some body; DelaySeconds := Some delay |} :: rest)
      end
  end.

(** an error of the queue is only logged *)
Definition retry (q : Q) (alerts : list Alert) : outcome Q :=
  minDelaySeconds ← mustParseInt (MIN_RETRY_DELAY_SECS env);
  maxDelaySeconds ← mustParseInt (MAX_RETRY_DELAY_SECS env);
  entries ← retry_entries 0 minDelaySeconds maxDelaySeconds alerts;
  '(r, _, _) ← SendMessageBatch sqs q entries;
  Ret (Sqsbatch.world r).

(** ** handle.go *)

(** the loop over the alerts: those that go back to the queue *)
Fixpoint handle_loop (ils : nat → interleaving) (n : nat) (d : dispatcher) (alerts : list Alert)
    : outcome (dispatcher * list Alert) :=
  match alerts with
  | [] => Ret (d, [])
  | alert :: alerts =>
      '(d, alert, ok) ← dispatch (ils n) d alert;
      if (ok : bool) then handle_loop ils (S n) d alerts
      else
        createdAt ← load (CreatedAt alert);
        max ← getMaxRetryDuration env;
        let expired := bool_decide (max < Since (now (ticks d)) (instant createdAt)) in
        let d := {| clients := clients d; cache := cache d; ticks := S (ticks d) |} in
        _ ← load (PolicyID alert); _ ← load (Severity alert);
        '(d, failedAlerts) ← handle_loop ils (S n) d alerts;
        Ret (d, if expired then failedAlerts else alert :: failedAlerts)
  end.

Definition HandleAlerts (ils : nat → interleaving) (d : dispatcher) (q : Q) (alerts : list Alert)
    : outcome (dispatcher * Q) :=
  '(d, failedAlerts) ← handle_loop ils 0 d alerts;
  match failedAlerts with
  | [] => Ret (d, q)
  | _ => q ← retry q failedAlerts; Ret (d, q)
  end.

(** ** main/lambda.go *)

Context (UnmarshalAlert : string → result Alert) (validationError : Alert → error).

(** the validate tags of models.Alert *)
Definition valid_alert (a : Alert) : bool :=
  bool_decide (is_Some (CreatedAt a)) && bool_decide (is_Some (PolicyID a)) &&
  match Severity a with
  | Some s => bool_decide (s ∈ ["INFO"; "LOW"; "MEDIUM"; "HIGH"; "CRITICAL"])
  | None => false
  end &&
  match alertType a with
  | Some t => bool_decide (t ∈ [RuleType; PolicyType])
  | None => true
  end.

(** the alerts of the records, and the error of the last record *)
Fixpoint parse_records (records : list string) (err : option error) : list Alert * option error :=
  match records with
  | [] => ([], err)
  | record :: records =>
      match UnmarshalAlert record with
      | Err e => parse_records records (Some e)
      | Ok alert =>
          if valid_alert alert then
            let '(alerts, err) := parse_records records None in (alert :: alerts, err)
          else parse_records records (Some (validationError alert))
      end
  end.

Definition lambdaHandler (ils : nat → interleaving) (d : dispatcher) (q : Q) (records : list string)
    : outcome (dispatcher * Q * option error) :=
  let '(alerts, err) := parse_records records None in
  '(d, q) ← HandleAlerts ils d q alerts;
  Ret (d, q, err).
End Delivery.
