(* ===== verification/AlertDeliverySpec.v ===== *)
(** * Alert delivery: the guarantees

    The goroutines of dispatch, when no two of them use the same client map,
    never deadlock and always end, with a result that some sequential order of
    the sends gives; an alert goes to its
    designated outputs, and is retried with exactly those that asked for it. *)

From stdpp Require Import relations.
From S2P Require Import Prelude GoTime Backoff Sqsbatch AwsClassifiers AlertOutputs AlertDelivery.

#[local] Open Scope Z_scope.

#[export] Instance outputStatus_eq_dec : EqDecision outputStatus.
Proof. solve_decision. Defined.

(** ** The goroutines *)

Section Goroutines.
Context {C : Type} (deliver : C → Alert → AlertOutput → outcome (C * option (option AlertDeliveryError))).

Lemma send_total c alert o :
  is_Some (PolicyID alert) → is_Some (OutputID o) →
  ∃ c' st, send deliver c alert o = Ret (c', st) ∧ OutputID o = Some (outputID st).
Proof.
  intros [p Hp] [i Hi]. unfold send. rewrite Hp, Hi. cbn.
  destruct (load (DisplayName o)) as [n|]; cbn; [|by eexists _, _].
  destruct (deliver c alert o) as [[c' [[e|]|]]|]; by eexists _, _.
Qed.

Lemma send_all_snoc c alert l o c' sts :
  send_all deliver c alert l = Ret (c', sts) →
  send_all deliver c alert (l ++ [o]) = ('(c'', st) ← send deliver c' alert o; Ret (c'', sts ++ [st])).
Proof.
  revert c sts. induction l as [|x l IH]; intros c sts; cbn.
  { intros [= <- <-]. by destruct (send deliver c alert o) as [[? ?]|]. }
  destruct (send deliver c alert x) as [[c1 st1]|]; [|done]. cbn.
  destruct (send_all deliver c1 alert l) as [[c2 sts2]|] eqn:E; [|done]. cbn.
  intros [= <- <-]. rewrite (IH _ _ E). by destruct (send deliver c2 alert o) as [[? ?]|].
Qed.

(** ** The runs of the goroutines *)

Context (cached : C → AlertOutput → bool).

Definition running (l : list task) : list AlertOutput :=
  omap (λ t, match t with Running o | InMap o => Some o | Blocked _ => None end) l.
Definition blocked (l : list task) : list outputStatus :=
  omap (λ t, match t with Running _ | InMap _ => None | Blocked st => Some st end) l.

(** the steps that are left: into the map, the send, the receive *)
Definition steps_left (t : task) : nat :=
  match t with Running _ => 3 | InMap _ => 2 | Blocked _ => 1 end.

Lemma running_delivering l1 o l2 : running (l1 ++ delivering o :: l2) = running l1 ++ o :: running l2.
Proof. unfold running, delivering. rewrite omap_app. by destruct (client_map o). Qed.

Lemma blocked_delivering l1 o l2 : blocked (l1 ++ delivering o :: l2) = blocked l1 ++ blocked l2.
Proof. unfold blocked, delivering. rewrite omap_app. by destruct (client_map o). Qed.

Lemma delivering_left o : (2 ≤ steps_left (delivering o))%nat.
Proof. unfold delivering. destruct (client_map o); cbn; lia. Qed.

(** after [n] steps: [ran] sent the alert, the statuses [r] were received *)
Definition reached (alert : Alert) (outputs : list AlertOutput) (c : C) (n : nat) (s : dstate) : Prop :=
  ∃ tasks c' ran sts r,
    s = Dispatching tasks (length tasks) (foldl receive [] r) c' ∧
    outputs ≡ₚ ran ++ running tasks ∧ sts ≡ₚ r ++ blocked tasks ∧
    send_all deliver c alert ran = Ret (c', sts) ∧ (n + sum_list_with steps_left tasks ≤ 3 * length outputs)%nat ∧
    Forall (λ t, match t with InMap o => is_Some (client_map o) | _ => True end) tasks.

Lemma reached_started alert outputs c : reached alert outputs c 0 (started outputs c).
Proof.
  exists (Running <$> outputs), c, [], [], []. split_and!; try done.
  - unfold started. by rewrite length_fmap.
  - cbn. unfold running. induction outputs as [|o l IH]; cbn; [done|]. by rewrite <- IH.
  - cbn. unfold blocked. induction outputs as [|o l IH]; cbn; [done|]. done.
  - induction outputs as [|o l IH]; cbn in *; lia.
  - by apply Forall_fmap, Forall_true.
Qed.

(** two goroutines are never in the same map *)
Lemma no_race outputs ran l1 o1 l2 o2 l3 :
  NoDup (omap client_map outputs) → outputs ≡ₚ ran ++ running (l1 ++ InMap o1 :: l2 ++ InMap o2 :: l3) →
  is_Some (client_map o1) → client_map o1 ≠ client_map o2.
Proof.
  intros Hnd Hout [m Hm] Heq. rewrite Hout in Hnd.
  assert (running (l1 ++ InMap o1 :: l2 ++ InMap o2 :: l3) = running l1 ++ [o1] ++ running l2 ++ [o2] ++ running l3) as Hr.
  { change (InMap o1 :: l2 ++ InMap o2 :: l3) with ([InMap o1] ++ l2 ++ [InMap o2] ++ l3).
    unfold running. by rewrite !omap_app. }
  rewrite Hr, !omap_app in Hnd.
  assert (omap client_map [o1] = [m] ∧ omap client_map [o2] = [m]) as [H1 H2].
  { cbn. by rewrite <- Heq, Hm. }
  rewrite H1, H2 in Hnd.
  apply NoDup_app in Hnd as (_&_&Hnd). apply NoDup_app in Hnd as (_&_&Hnd).
  apply NoDup_cons in Hnd as [Hnot _]. apply Hnot. set_solver.
Qed.

Lemma reached_step alert outputs c n s s' :
  is_Some (PolicyID alert) → Forall (λ o, is_Some (OutputID o)) outputs → NoDup (omap client_map outputs) →
  reached alert outputs c n s → step deliver cached alert s s' → reached alert outputs c (S n) s'.
Proof.
  intros Hp Ho Hnd (tasks&c'&ran&sts&r&->&Hout&Hsts&Hrun&Hn&Hmap) Hstep.
  inversion Hstep as [l1 o l2 n0 retry c0 Hm|l1 o1 l2 o2 l3 n0 retry c0 Hm Hc|l1 o l2 n0 retry c0 c1 st Hs
    |l1 o l2 n0 retry c0 why Hs|l1 st l2 n0 retry c0]; subst.
  - exists (l1 ++ InMap o :: l2), c', ran, sts, r. rewrite !length_app in *. cbn [length] in *. split_and!; try done.
    + unfold running in *. rewrite omap_app in *. done.
    + unfold blocked in *. rewrite omap_app in *. done.
    + rewrite sum_list_with_app in *. cbn in *. lia.
    + apply Forall_app in Hmap as [? [_ ?]%Forall_cons]. apply Forall_app. split; [done|]. by constructor.
  - exfalso. apply Forall_app in Hmap as [_ [Hm1 _]%Forall_cons]. by eapply no_race.
  - rewrite running_delivering in Hout. rewrite blocked_delivering in Hsts.
    exists (l1 ++ Blocked st :: l2), c1, (ran ++ [o]), (sts ++ [st]), r.
    rewrite !length_app in *. cbn [length] in *. split_and!; try done.
    + rewrite Hout. unfold running. rewrite !omap_app. cbn. solve_Permutation.
    + rewrite Hsts. unfold blocked. rewrite !omap_app. cbn. solve_Permutation.
    + rewrite (send_all_snoc _ _ _ _ _ _ Hrun), Hs. done.
    + rewrite sum_list_with_app in *. cbn in *. pose proof (delivering_left o). lia.
    + apply Forall_app in Hmap as [? [_ ?]%Forall_cons]. apply Forall_app. split; [done|]. by constructor.
  - exfalso. rewrite Hout, running_delivering in Ho. apply Forall_app in Ho as [_ Ho].
    apply Forall_app in Ho as [_ [Ho _]%Forall_cons].
    destruct (send_total c' alert o Hp Ho) as (?&?&?&?). congruence.
  - exists (l1 ++ l2), c', ran, sts, (r ++ [st]).
    rewrite !length_app in *. cbn [length] in *. split_and!; try done.
    + rewrite foldl_app. cbn. f_equal. lia.
    + rewrite Hout. unfold running. rewrite !omap_app. done.
    + rewrite Hsts. unfold blocked. rewrite !omap_app. cbn. solve_Permutation.
    + rewrite sum_list_with_app in *. cbn in *. lia.
    + apply Forall_app in Hmap as [? [_ ?]%Forall_cons]. by apply Forall_app.
Qed.

Lemma reached_steps alert outputs c m n s s' :
  is_Some (PolicyID alert) → Forall (λ o, is_Some (OutputID o)) outputs → NoDup (omap client_map outputs) →
  reached alert outputs c m s → nsteps (step deliver cached alert) n s s' → reached alert outputs c (m + n) s'.
Proof.
  intros Hp Ho Hnd Hr Hn. revert m Hr. induction Hn as [s|n s1 s2 s3 Hstep _ IH]; intros m Hr.
  { by rewrite Nat.add_0_r. }
  rewrite Nat.add_succ_r, <- Nat.add_succ_l. apply IH. by eapply reached_step.
Qed.

Lemma reached_progress alert outputs c n s :
  is_Some (PolicyID alert) → Forall (λ o, is_Some (OutputID o)) outputs →
  reached alert outputs c n s →
  (∃ s', step deliver cached alert s s') ∨
  (∃ c' ran sts r, s = Dispatching [] 0 (foldl receive [] r) c' ∧
     ran ≡ₚ outputs ∧ r ≡ₚ sts ∧ send_all deliver c alert ran = Ret (c', sts)).
Proof.
  intros Hp Ho (tasks&c'&ran&sts&r&->&Hout&Hsts&Hrun&_&Hmap).
  assert (∀ o l, is_Some (OutputID o) → ∃ s',
    step deliver cached alert (Dispatching (delivering o :: l) (length tasks) (foldl receive [] r) c') s') as Hsend.
  { intros o l Hi. destruct (send_total c' alert o Hp Hi) as (c1&st&Hs&_).
    eexists. by apply (step_send deliver cached alert [] o l _ _ _ _ _ Hs). }
  destruct tasks as [|[o|o|st] tasks].
  - right. exists c', ran, sts, r. cbn in *. rewrite app_nil_r in *. by split_and!.
  - left. destruct (client_map o) eqn:Hm.
    { eexists. apply (step_map deliver cached alert [] o tasks). by rewrite Hm. }
    rewrite Hout in Ho. apply Forall_app in Ho as [_ [Ho _]%Forall_cons].
    specialize (Hsend o tasks Ho). unfold delivering in Hsend. by rewrite Hm in Hsend.
  - left. apply Forall_cons in Hmap as [[m Hm] _].
    rewrite Hout in Ho. apply Forall_app in Ho as [_ [Ho _]%Forall_cons].
    specialize (Hsend o tasks Ho). unfold delivering in Hsend. by rewrite Hm in Hsend.
  - left. eexists. cbn [length]. by apply (step_receive deliver cached alert [] st tasks).
Qed.

(** C15: the goroutines of dispatch, with the client maps they share without a
    lock: when the alert and its outputs have identifiers and at most one of
    the outputs is an SNS and at most one an SQS output, so that no map is
    used by two goroutines, no run crashes or blocks forever; every run ends
    after at most three steps per output (into the map, the send, the
    receive), and then the outputs collected for a retry and the state of the
    clients are those of some order of the sends and of the receives.
    ([dispatch_race] is the crash with two outputs of one map.) *)
Theorem dispatch_goroutines alert outputs c n s :
  is_Some (PolicyID alert) → Forall (λ o, is_Some (OutputID o)) outputs → NoDup (omap client_map outputs) →
  nsteps (step deliver cached alert) n (started outputs c) s →
  (n ≤ 3 * length outputs)%nat ∧
  ((∃ s', s ≠ Crashed ∧ step deliver cached alert s s') ∨
   (∃ il c' retryOutputs, s = Dispatching [] 0 retryOutputs c' ∧
      sends il outputs ≡ₚ outputs ∧ (∀ sts, receives il sts ≡ₚ sts) ∧
      collect deliver il c alert outputs = Ret (c', retryOutputs))).
Proof.
  intros Hp Ho Hnd Hn.
  assert (reached alert outputs c n s) as Hr by (eapply (reached_steps _ _ _ 0); eauto using reached_started).
  split; [destruct Hr as (?&?&?&?&?&_&_&_&_&?&_); lia|].
  destruct (reached_progress _ _ _ _ _ Hp Ho Hr) as [[s' ?]|(c'&ran&sts&r&->&Hran&Hrecv&Hsend)].
  { left. exists s'. split; [|done]. by destruct Hr as (?&?&?&?&?&->&_). }
  right. eexists {| sends := λ _, ran; receives := λ l, if decide (l = sts) then r else l |}, c', _.
  split_and!; [done|done| |].
  - intros l. cbn. case_decide; [by subst|done].
  - unfold collect. cbn. rewrite Hsend. cbn. by rewrite decide_True.
Qed.

(** two outputs of one map, one of them in a region without a client: the
    process can end before any alert is sent *)
Lemma dispatch_race alert o1 o2 c :
  is_Some (client_map o1) → client_map o1 = client_map o2 → cached c o1 = false →
  nsteps (step deliver cached alert) 3 (started [o1; o2] c) Crashed.
Proof.
  intros Hm Heq Hc.
  eapply nsteps_l; [apply (step_map deliver cached alert [] o1 [Running o2]); done|].
  eapply nsteps_l; [apply (step_map deliver cached alert [InMap o1] o2 []); by rewrite <- Heq|].
  eapply nsteps_l; [|apply nsteps_O].
  apply (step_race deliver cached alert [] o1 [] o2 []); [done|by left].
Qed.
End Goroutines.

(** ** The outputs of an alert *)

(** every pointer that is followed is set, and no identifier or severity is
    listed twice *)
Definition wf_output (o : AlertOutput) : Prop :=
  is_Some (OutputID o) ∧ NoDup (DefaultForSeverity o) ∧ Forall is_Some (DefaultForSeverity o).
Definition wf_outputs (l : list AlertOutput) : Prop := Forall wf_output l ∧ NoDup (OutputID <$> l).
Definition wf_alert (a : Alert) : Prop :=
  is_Some (CreatedAt a) ∧ is_Some (PolicyID a) ∧ is_Some (Severity a) ∧
  NoDup (OutputIDs a) ∧ Forall is_Some (OutputIDs a).

(** the outputs an alert is meant for: those it names, otherwise those that
    are the default for its severity *)
Definition targets (a : Alert) (outputs : list AlertOutput) : list AlertOutput :=
  match OutputIDs a with
  | [] => filter (λ o, Severity a ∈ DefaultForSeverity o) outputs
  | ids => filter (λ o, OutputID o ∈ ids) outputs
  end.

Lemma severity_matches_spec sev o l :
  is_Some sev → Forall is_Some l → NoDup l →
  severity_matches sev o l = Ret (if decide (sev ∈ l) then [o] else []).
Proof.
  intros [a ->] Hl Hnd. induction Hl as [|x l [b ->] Hl IH]; [done|].
  apply NoDup_cons in Hnd as [Hx Hnd]. cbn. rewrite (IH Hnd). cbn. f_equal.
  destruct (decide (a = b)) as [<-|Hab].
  - rewrite (decide_False (P := Some a ∈ l)) by done. by rewrite decide_True by set_solver.
  - destruct (decide (Some a ∈ l)); [by rewrite decide_True by set_solver|].
    by rewrite decide_False by set_solver.
Qed.

Lemma getOutputsBySeverity_spec outputs sev :
  is_Some sev → Forall wf_output outputs →
  getOutputsBySeverity outputs sev = Ret (filter (λ o, sev ∈ DefaultForSeverity o) outputs).
Proof.
  intros Hs. induction 1 as [|o outputs (_&Hnd&Hall) _ IH]; [done|]. cbn [getOutputsBySeverity].
  rewrite severity_matches_spec, IH, filter_cons by done. run. by case_decide.
Qed.

Lemma id_matches_spec o ids :
  is_Some (OutputID o) → Forall is_Some ids → NoDup ids →
  id_matches o ids = Ret (if decide (OutputID o ∈ ids) then [o] else []).
Proof.
  intros Ho Hl Hnd. rewrite <- (severity_matches_spec (OutputID o) o ids) by done.
  clear Hl Hnd. induction ids as [|x ids IH]; [done|]. cbn. by rewrite IH.
Qed.

Lemma outputs_by_id_spec outputs ids :
  Forall is_Some ids → NoDup ids → Forall wf_output outputs →
  outputs_by_id outputs ids = Ret (filter (λ o, OutputID o ∈ ids) outputs).
Proof.
  intros Hi Hnd. induction 1 as [|o outputs (Ho&_&_) _ IH]; [done|]. cbn [outputs_by_id].
  rewrite id_matches_spec, IH, filter_cons by done. run. by case_decide.
Qed.

(** [Ret] of what an alert's outputs are *)
Lemma targets_spec a outputs :
  wf_alert a → Forall wf_output outputs →
  (match OutputIDs a with
   | [] => getOutputsBySeverity outputs (Severity a)
   | ids => outputs_by_id outputs ids
   end) = Ret (targets a outputs).
Proof.
  intros (_&_&Hs&Hnd&Hi) Ho. unfold targets. destruct (OutputIDs a);
    [by apply getOutputsBySeverity_spec|by apply outputs_by_id_spec].
Qed.

Lemma targets_wf a outputs : wf_outputs outputs → wf_outputs (targets a outputs).
Proof.
  intros [Ho Hnd]. unfold targets.
  assert (∀ (P : AlertOutput → Prop) `{!∀ x, Decision (P x)}, wf_outputs (filter P outputs)) as Hf.
  { intros P HP. split; [eapply Forall_forall; intros x Hx%list_elem_of_filter; rewrite Forall_forall in Ho; apply Ho; tauto|].
    eapply sublist_NoDup; [exact Hnd|]. apply fmap_sublist, sublist_filter. }
  destruct (OutputIDs a); apply Hf.
Qed.

(** ** Dispatching one alert *)

Section Dispatch.
Context {C : Type} (deliver : C → Alert → AlertOutput → outcome (C * option (option AlertDeliveryError))).
Context (now : nat → Time) (refreshInterval : Z) (GetOutputs : nat → result (list AlertOutput)).
Context (GetOutputs_wf : ∀ i outputs, GetOutputs i = Ok outputs → wf_outputs outputs).

Definition wf_interleaving (il : interleaving) : Prop :=
  (∀ l, sends il l ≡ₚ l) ∧ (∀ l, receives il l ≡ₚ l).

Definition wf_dispatcher (d : dispatcher (C := C)) : Prop :=
  match cache d with Some (outputs, _) => wf_outputs outputs | None => True end.

(** the identifiers a retry is asked for *)
Definition retry_ids (sts : list outputStatus) : list string :=
  outputID <$> filter (λ st, needsRetry st = true) sts.

Lemma foldl_receive acc sts : foldl receive acc sts = acc ++ retry_ids sts.
Proof.
  revert acc. unfold retry_ids. induction sts as [|st sts IH]; intros acc; cbn [foldl]; [by rewrite app_nil_r|].
  rewrite IH, filter_cons. unfold receive. destruct (needsRetry st); [|done].
  rewrite decide_True by done. cbn. by rewrite <- (assoc_L (++)).
Qed.

Lemma send_all_total c a outputs :
  is_Some (PolicyID a) → Forall (λ o, is_Some (OutputID o)) outputs →
  ∃ c' sts, send_all deliver c a outputs = Ret (c', sts) ∧ OutputID <$> outputs = Some ∘ outputID <$> sts.
Proof.
  intros Hp Ho. revert c. induction Ho as [|o l Ho _ IH]; intros c; cbn; [by eexists _, _|].
  destruct (send_total deliver c a o Hp Ho) as (c1&st&->&Hid). cbn.
  destruct (IH c1) as (c2&sts&->&Hsts). cbn. eexists _, _. split; [done|]. cbn. by rewrite Hid, Hsts.
Qed.

Lemma refresh_wf d d' r :
  wf_dispatcher d → refresh now refreshInterval GetOutputs d = (d', r) →
  wf_dispatcher d' ∧ clients d' = clients d ∧ match r with Ok outputs => wf_outputs outputs | Err _ => True end.
Proof.
  unfold wf_dispatcher, refresh. intros Hd.
  destruct (cache d) as [[outputs t]|] eqn:E.
  - case_bool_decide; [destruct (GetOutputs _) eqn:G|]; intros [= <- <-]; cbn; eauto.
  - destruct (GetOutputs _) eqn:G; intros [= <- <-]; cbn; eauto.
Qed.

(** one output is tried: an output without a name, an unsupported type, a
    panic, a success and a permanent error end it; another error asks for a
    retry *)
Definition asks_retry (r : option (option AlertDeliveryError)) : bool :=
  match r with Some (Some err) => if Permanent err then false else true | _ => false end.

Inductive tried (c : C) (a : Alert) (o : AlertOutput) : C → bool → Prop :=
| tried_unnamed : DisplayName o = None → tried c a o c false
| tried_panic why : is_Some (DisplayName o) → deliver c a o = Panic why → tried c a o c false
| tried_answer c' r : is_Some (DisplayName o) → deliver c a o = Ret (c', r) → tried c a o c' (asks_retry r).

(** outputs one after the other, and those of them that asked for a retry *)
Inductive delivers (a : Alert) : C → list AlertOutput → C → list string → Prop :=
| delivers_nil c : delivers a c [] c []
| delivers_cons c o id c1 again outputs c2 ids :
    OutputID o = Some id → tried c a o c1 again → delivers a c1 outputs c2 ids →
    delivers a c (o :: outputs) c2 (if again then id :: ids else ids).

Lemma send_all_delivers c a outputs c' sts :
  send_all deliver c a outputs = Ret (c', sts) → delivers a c outputs c' (retry_ids sts).
Proof.
  revert c sts. induction outputs as [|o outputs IH]; intros c sts; cbn; [intros [= <- <-]; constructor|].
  destruct (send deliver c a o) as [[c1 st]|] eqn:Es; run; [|done].
  destruct (send_all deliver c1 a outputs) as [[c2 sts']|] eqn:Ea; run; [|done]. intros [= <- <-].
  apply IH in Ea. unfold retry_ids. rewrite filter_cons. fold (retry_ids sts').
  revert Es. unfold send. destruct (OutputID o) as [id|] eqn:Eo; cbn; [|done].
  destruct (PolicyID a); cbn; [|done].
  assert (∀ again, tried c a o c1 again → needsRetry st = again → outputID st = id →
    delivers a c (o :: outputs) c2 (if decide (needsRetry st = true) then outputID st :: retry_ids sts' else retry_ids sts')) as Hk.
  { intros again Ht Hn Hi. pose proof (delivers_cons a c o id c1 again outputs c2 (retry_ids sts') Eo Ht Ea) as H.
    rewrite Hn, Hi. by destruct again. }
  assert (∀ b (l l' : list outputStatus), outputID <$> (if decide (b = true) then l else l') =
    if decide (b = true) then outputID <$> l else outputID <$> l') as Hd by (intros []; by intros).
  rewrite Hd, fmap_cons. fold (retry_ids sts').
  destruct (DisplayName o) as [name|] eqn:En; cbn.
  - destruct (deliver c a o) as [[c' [[err|]|]]|why] eqn:Ed; intros [= -> <-]; (eapply Hk; [|done..]).
    + assert (negb (Permanent err) = asks_retry (Some (Some err))) as -> by (cbn; by destruct (Permanent err)).
      by apply tried_answer.
    + change false with (asks_retry (Some None)). by apply tried_answer.
    + change false with (asks_retry None). by apply tried_answer.
    + by eapply tried_panic.
  - intros [= -> <-]. eapply Hk; [by apply tried_unnamed|done..].
Qed.

Lemma tried_det c a o c1 b1 c2 b2 : tried c a o c1 b1 → tried c a o c2 b2 → c1 = c2 ∧ b1 = b2.
Proof.
  destruct 1 as [Hn|why Hn H|c' r Hn H]; destruct 1 as [Hn'|why' Hn' H'|c'' r' Hn' H'];
    try (rewrite Hn in Hn'; by destruct Hn'); try (rewrite Hn' in Hn; by destruct Hn); try done; naive_solver congruence.
Qed.

Lemma delivers_det a c outputs c1 l1 : delivers a c outputs c1 l1 → ∀ c2 l2, delivers a c outputs c2 l2 → c1 = c2 ∧ l1 = l2.
Proof.
  induction 1 as [c|c o id c1 again outputs c2 ids Hid Ht _ IH]; inversion 1 as [|? ? id' c1' again' ? ? ids' Hid' Ht' Hd']; subst; [done|].
  destruct (tried_det _ _ _ _ _ _ _ Ht Ht') as [<- <-]. destruct (IH _ _ Hd') as [<- <-].
  assert (id = id') as <- by congruence. done.
Qed.

(** the alert with other outputs *)
Definition narrowed (a : Alert) (ids : list string) (a' : Alert) : Prop :=
  OutputIDs a' = Some <$> ids ∧ CreatedAt a' = CreatedAt a ∧ PolicyDescription a' = PolicyDescription a ∧
  PolicyID a' = PolicyID a ∧ PolicyName a' = PolicyName a ∧ PolicyVersionID a' = PolicyVersionID a ∧
  Runbook a' = Runbook a ∧ Severity a' = Severity a ∧ Tags a' = Tags a ∧ AlertID a' = AlertID a ∧
  alertType a' = alertType a ∧ Title a' = Title a.

(** what one call of dispatch does; [r] is what refreshing the cache gives:
    without an answer of the outputs API the alert is kept as it is; otherwise
    it is sent to each of its targets, and an alert that is not done is left
    with exactly the outputs that asked for a retry as its next targets *)
Definition dispatched (il : interleaving) (c : C) (a : Alert) (r : result (list AlertOutput))
    (c' : C) (a' : Alert) (ok : bool) : Prop :=
  match r with
  | Err _ => c' = c ∧ a' = a ∧ ok = false
  | Ok outputs => ∃ again,
      delivers a c (sends il (targets a outputs)) c' again ∧
      (if ok then a' = a ∧ again = []
       else again ≠ [] ∧ (∃ ids, ids ≡ₚ again ∧ narrowed a ids a') ∧
         ∀ later, targets a' later = filter (λ o, OutputID o ∈ Some <$> again) later)
  end.

(** what dispatch leaves of the cache and of the clock *)
Lemma dispatch_cache il d a d' a' ok :
  dispatch deliver now refreshInterval GetOutputs il d a = Ret (d', a', ok) →
  cache d' = cache (refresh now refreshInterval GetOutputs d).1 ∧
  ticks d' = ticks (refresh now refreshInterval GetOutputs d).1.
Proof.
  unfold dispatch, getAlertOutputs. destruct (refresh _ _ _ d) as [d1 [outputs|e]]; cbn [fst].
  - destruct (match OutputIDs a with [] => _ | _ => _ end) as [[|o l]|]; cbn; [| |done].
    + destruct (load (PolicyID a)), (load (Severity a)); cbn; try done. by intros [= <- _ _].
    + destruct (collect _ _ _ _ _) as [[c retry]|]; [|done]. cbn. destruct retry; by intros [= <- _ _].
  - cbn. destruct (load (PolicyID a)), (load (Severity a)); cbn; try done. by intros [= <- _ _].
Qed.

Lemma dispatch_spec il d a :
  wf_interleaving il → wf_dispatcher d → wf_alert a →
  ∃ d' a' ok, dispatch deliver now refreshInterval GetOutputs il d a = Ret (d', a', ok) ∧
    wf_dispatcher d' ∧ wf_alert a' ∧
    dispatched il (clients d) a (refresh now refreshInterval GetOutputs d).2 (clients d') a' ok.
Proof.
  intros [Hil1 Hil2] Hd Ha. unfold dispatch, getAlertOutputs.
  destruct (refresh now refreshInterval GetOutputs d) as [d1 r] eqn:Hr.
  destruct (refresh_wf _ _ _ Hd Hr) as (Hd1&Hc&Hro). pose proof Ha as (Hcr&Hp&Hs&Hnd&Hi).
  destruct r as [outputs|e]; cbn [mbind outcome_bind snd].
  2:{ destruct Hp as [p ->], Hs as [s ->]. cbn. eexists _, _, _. by split_and!. }
  rewrite targets_spec by (done || apply Hro). run.
  pose proof (targets_wf a outputs Hro) as [Hto Htn]. set (ts := targets a outputs) in *.
  destruct (send_all_total (clients d) a (sends il ts) Hp) as (c'&sts&Hsend&Hids).
  { rewrite Hil1. eapply Forall_impl; [exact Hto|]. by intros o [? _]. }
  assert (NoDup (outputID <$> sts)) as Hstn.
  { apply (NoDup_fmap_1 Some). rewrite <- list_fmap_compose, <- Hids. by rewrite Hil1. }
  destruct ts as [|t ts'] eqn:Ets.
  { destruct Hp as [p ->], Hs as [s ->]. cbn. eexists _, _, _. split_and!; try done.
    assert (sends il [] = []) as Hnil by apply Permutation_nil_r, Hil1. rewrite Hnil in Hsend.
    cbn in Hsend. injection Hsend as <- <-. exists []. split; [|done].
    fold ts. rewrite Ets, Hnil, Hc. constructor. }
  rewrite <- Ets in *. unfold collect. rewrite Hc, Hsend. run.
  rewrite foldl_receive. cbn [app].
  assert (retry_ids (receives il sts) ≡ₚ retry_ids sts) as Hperm by (unfold retry_ids; by rewrite Hil2).
  destruct (retry_ids (receives il sts)) as [|i ids] eqn:E.
  - eexists _, _, _. split_and!; try done. exists (retry_ids sts). split; [by apply send_all_delivers|]. split; [done|].
    by apply Permutation_nil_r.
  - eexists _, _, _. split_and!; try done.
    + split_and!; try done; cbn.
      * rewrite <- (fmap_cons Some). apply NoDup_fmap_2; [apply _|]. rewrite Hperm.
        eapply sublist_NoDup; [exact Hstn|]. apply fmap_sublist, sublist_filter.
      * rewrite <- (fmap_cons Some). apply Forall_fmap, Forall_true. by eexists.
    + exists (retry_ids sts). split; [by apply send_all_delivers|]. cbn beta iota. split_and!.
      * intros Hnil. rewrite Hnil in Hperm. by apply Permutation_nil_r in Hperm.
      * by exists (i :: ids).
      * intros later. unfold targets. cbn [OutputIDs with_outputs fmap list_fmap].
        apply list_filter_iff. intros o. rewrite <- (fmap_cons Some). by rewrite Hperm.
Qed.

(** dispatch sends an alert to each output it is meant for exactly once
    and never panics; an alert that needs a retry is left with exactly the
    outputs that asked for one, so that no output that took the alert, or
    refused it for good, gets it again. *)
Theorem dispatch_correct il d a :
  wf_interleaving il → wf_dispatcher d → wf_alert a →
  ∃ d' a' ok, dispatch deliver now refreshInterval GetOutputs il d a = Ret (d', a', ok) ∧
    wf_dispatcher d' ∧ wf_alert a' ∧
    dispatched il (clients d) a (refresh now refreshInterval GetOutputs d).2 (clients d') a' ok.
Proof. apply dispatch_spec. Qed.
End Dispatch.

(** ** A batch of alerts *)

Section Batch.
Context {C : Type} (deliver : C → Alert → AlertOutput → outcome (C * option (option AlertDeliveryError))).
Context (now : nat → Time) (refreshInterval : Z) (GetOutputs : nat → result (list AlertOutput)).
Context (GetOutputs_wf : ∀ i outputs, GetOutputs i = Ok outputs → wf_outputs outputs).
Context (env : environment) (Intn : nat → Z → Z) (MarshalAlert : Alert → result string).
Context (Intn_range : ∀ i n, 0 < n → 0 ≤ Intn i n < n).
Context {Q : Type} (sqs : Q → list Entry → Q * result SendMessageBatchOutput).
Context (queue : Q → list Entry) (requests : Q → list (list Entry)).
Context (Hsqs : SqsClient sqs queue requests) {backoff : Backoff}.

(** what became of an alert *)
Inductive verdict := Sent | Requeued (a : Alert) | Expired.

Definition requeued (vs : list verdict) : list Alert :=
  omap (λ v, match v with Requeued a => Some a | _ => None end) vs.

(** the outputs that dispatch works with, the cache it leaves and the next
    reading of the clock: the cached outputs while they are fresh, otherwise
    the answer of the outputs API, which replaces them unless it is an error *)
Definition asks (d : dispatcher (C := C)) (k : nat) : Prop :=
  (cache d = None ∧ k = ticks d) ∨
  (∃ outputs t, cache d = Some (outputs, t) ∧ refreshInterval < Since (now (ticks d)) t ∧ k = S (ticks d)).

Inductive knows (d : dispatcher (C := C)) : result (list AlertOutput) → option (list AlertOutput * Time) → nat → Prop :=
| knows_fresh outputs t :
    cache d = Some (outputs, t) → Since (now (ticks d)) t ≤ refreshInterval →
    knows d (Ok outputs) (cache d) (S (ticks d))
| knows_answer k outputs :
    asks d k → GetOutputs k = Ok outputs → knows d (Ok outputs) (Some (outputs, now k)) (S k)
| knows_error k e :
    asks d k → GetOutputs k = Err e → knows d (Err e) (cache d) k.

(** the run over a batch: each alert is dispatched from the state that the one
    before it left, with the outputs known then, and is sent, or has expired,
    or is requeued as dispatch left it *)
Inductive handled (maxRetry : Z) (ils : nat → interleaving)
    : nat → dispatcher (C := C) → list Alert → dispatcher (C := C) → list verdict → Prop :=
| handled_nil n d : handled maxRetry ils n d [] d []
| handled_cons n d a alerts r known t c a' ok created v d' vs :
    knows d r known t → dispatched deliver (ils n) (clients d) a r c a' ok → CreatedAt a = Some created →
    match v with
    | Sent => ok = true
    | Requeued f => ok = false ∧ f = a' ∧ Since (now t) (instant created) ≤ maxRetry
    | Expired => ok = false ∧ maxRetry < Since (now t) (instant created)
    end →
    handled maxRetry ils (S n) {| clients := c; cache := known; ticks := if ok then t else S t |} alerts d' vs →
    handled maxRetry ils n d (a :: alerts) d' (v :: vs).

Lemma refresh_knows d :
  let '(d', r) := refresh now refreshInterval GetOutputs d in knows d r (cache d') (ticks d').
Proof.
  unfold refresh. destruct (cache d) as [[outputs t]|] eqn:E.
  - case_bool_decide as Hs.
    + assert (asks d (S (ticks d))) as Ha by (right; eauto).
      destruct (GetOutputs _) eqn:G; cbn; [by eapply knows_answer|]. rewrite <- E. by eapply knows_error.
    + cbn. rewrite <- E. eapply knows_fresh; [done|lia].
  - assert (asks d (ticks d)) as Ha by (by left).
    destruct (GetOutputs _) eqn:G; cbn; [by eapply knows_answer|]. rewrite <- E. by eapply knows_error.
Qed.

Notation loop := (handle_loop deliver now refreshInterval GetOutputs env).

Lemma dispatched_created il c a r c' a' ok :
  dispatched deliver il c a r c' a' ok → CreatedAt a' = CreatedAt a.
Proof.
  unfold dispatched. destruct r; [|by intros (_&->&_)]. intros (sts&_&H). destruct ok.
  - by destruct H as [-> _].
  - by destruct H as (_&(ids&_&_&?&_)&_).
Qed.

Lemma handle_loop_spec ils n d alerts mins :
  (∀ n, wf_interleaving (ils n)) → wf_dispatcher d → Forall wf_alert alerts →
  atoi (ALERT_RETRY_DURATION_MINS env) = Ok mins →
  ∃ d' vs, loop ils n d alerts = Ret (d', requeued vs) ∧
    handled (int64 (mins * Minute)) ils n d alerts d' vs.
Proof.
  intros Hil Hd Ha Hmins. revert n d Hd. induction Ha as [|a alerts Ha _ IH]; intros n d Hd.
  { exists d, []. split; [done|constructor]. }
  cbn [handle_loop].
  destruct (dispatch_spec deliver now refreshInterval GetOutputs GetOutputs_wf (ils n) d a (Hil n) Hd Ha)
    as (d1&a1&ok&Hrun&Hd1&Ha1&Hdis).
  destruct (dispatch_cache _ _ _ _ _ _ _ _ _ _ Hrun) as [Hcache Hticks]. rewrite Hrun. run.
  pose proof (refresh_knows d) as Hk.
  destruct (refresh now refreshInterval GetOutputs d) as [d0 r]. cbn [fst snd] in *.
  rewrite <- Hcache, <- Hticks in Hk.
  pose proof (dispatched_created _ _ _ _ _ _ _ Hdis) as Hcr.
  pose proof Ha1 as ([created Hc1]&[p Hp]&[s Hs]&_).
  assert (CreatedAt a = Some created) as Hc by congruence.
  destruct ok.
  - destruct (IH (S n) d1 Hd1) as (d'&vs&->&HF). exists d', (Sent :: vs). split; [done|].
    eapply handled_cons; [exact Hk|exact Hdis|exact Hc|done|]. by destruct d1.
  - rewrite Hc1, Hp, Hs. cbn [load mbind outcome_bind]. unfold getMaxRetryDuration, mustParseInt. rewrite Hmins.
    run. cbv zeta.
    set (d2 := {| clients := clients d1; cache := cache d1; ticks := S (ticks d1) |}).
    destruct (IH (S n) d2 Hd1) as (d'&vs&->&HF). run.
    case_bool_decide as Hage.
    + exists d', (Expired :: vs). split; [done|]. by eapply handled_cons.
    + exists d', (Requeued a1 :: vs). split; [done|]. eapply handled_cons; [exact Hk|exact Hdis|exact Hc| |done].
      cbn. split_and!; [done|done|lia].
Qed.

(** the message of a requeued alert *)
Definition requeues (minDelay maxDelay : Z) (a : Alert) (e : Entry) : Prop :=
  ∃ body delay, MarshalAlert a = Ok body ∧ MessageBody e = Some body ∧
    DelaySeconds e = Some delay ∧ minDelay ≤ delay < maxDelay.

Definition marshals (a : Alert) : Prop := ∃ body, MarshalAlert a = Ok body ∧ slen body ≤ maxMessageBytes.

Lemma retry_entries_spec i mn mx alerts :
  0 ≤ mn < mx → mx < two63 → Forall marshals alerts →
  ∃ entries, retry_entries Intn MarshalAlert i mn mx alerts = Ret entries ∧
    Forall2 (requeues mn mx) alerts entries ∧ Forall (λ e, entrySize e ≤ maxMessageBytes) entries ∧
    Id <$> entries = (λ k, Some (itoa (Z.of_nat k))) <$> seq i (length alerts).
Proof.
  intros Hmn Hmx Ha. revert i. induction Ha as [|a alerts (body&Hb&Hsz) _ IH]; intros i.
  { exists []. split_and!; constructor. }
  cbn [retry_entries]. rewrite Hb. unfold randomInt.
  rewrite (int64_id (mx - mn)) by (unfold in_int64; lia). rewrite decide_False by lia.
  pose proof (Intn_range i (mx - mn) ltac:(lia)) as Hr.
  rewrite int64_id by (unfold in_int64; lia).
  destruct (IH (S i)) as (entries&->&HF&Hs&Hid). run.
  eexists. split; [done|]. split_and!.
  - constructor; [|done]. exists body, (Intn i (mx - mn) + mn). cbn. split_and!; try done; lia.
  - constructor; [done|done].
  - cbn. by rewrite Hid.
Qed.

(** what [retry] leaves in the queue: it asks for the entries to be queued,
    and an error of the queue loses only entries *)
Definition queued (q : Q) (entries : list Entry) (q' : Q) : Prop :=
  if entries is [] then q' = q
  else ∃ r left err, SendMessageBatch sqs q entries = Ret (r, left, err) ∧ q' = Sqsbatch.world r ∧
    match err with
    | None => queue q' ≡ₚ queue q ++ entries
    | Some _ => queue q ⊆+ queue q'
    end.

End Batch.

(** ** The Lambda handler *)

Section Lambda.
Context {C : Type} (deliver : C → Alert → AlertOutput → outcome (C * option (option AlertDeliveryError))).
Context (now : nat → Time) (refreshInterval : Z) (GetOutputs : nat → result (list AlertOutput)).
Context (env : environment) (Intn : nat → Z → Z) (MarshalAlert : Alert → result string).
Context {Q : Type} (sqs : Q → list Entry → Q * result SendMessageBatchOutput) {backoff : Backoff}.
Context (UnmarshalAlert : string → result Alert) (validationError : Alert → error).

(** the alert of a record, or why it has none *)
Definition record_alert (record : string) : Alert + error :=
  match UnmarshalAlert record with
  | Err e => inr e
  | Ok a => if valid_alert a then inl a else inr (validationError a)
  end.

Definition record_alerts (records : list string) : list Alert :=
  omap (λ r, match record_alert r with inl a => Some a | inr _ => None end) records.

Lemma parse_records_spec records err :
  parse_records UnmarshalAlert validationError records err =
  (record_alerts records,
   match last records with
   | None => err
   | Some r => match record_alert r with inl _ => None | inr e => Some e end
   end).
Proof.
  revert err. unfold record_alerts. induction records as [|r records IH]; intros err; [done|].
  rewrite last_cons. cbn [parse_records omap list_omap]. unfold record_alert at 1 2.
  destruct (UnmarshalAlert r) as [a|e] eqn:Hr; [destruct (valid_alert a) eqn:Hv|]; rewrite IH;
    (destruct (last records); [done|]); unfold record_alert; by rewrite Hr, ?Hv.
Qed.

(** the handler delivers every valid alert of a batch, but what it
    returns depends on the last record alone: an invalid last record fails
    the batch after its alerts were delivered, so that they are delivered
    again, and an invalid record before a valid one is lost in silence. *)
Theorem lambdaHandler_last_record ils d q records r :
  lambdaHandler deliver now refreshInterval GetOutputs env Intn MarshalAlert sqs UnmarshalAlert validationError
    ils d q (records ++ [r]) =
  ('(d', q') ← HandleAlerts deliver now refreshInterval GetOutputs env Intn MarshalAlert sqs ils d q
                 (record_alerts (records ++ [r]));
   Ret (d', q', match record_alert r with inl _ => None | inr e => Some e end)).
Proof. unfold lambdaHandler. by rewrite parse_records_spec, last_snoc. Qed.

Lemma valid_alert_wf a :
  valid_alert a = true → NoDup (OutputIDs a) → Forall is_Some (OutputIDs a) → wf_alert a.
Proof.
  unfold valid_alert. rewrite !andb_true_iff, !bool_decide_eq_true. intros [[[? ?] Hs] _] Hnd Hi.
  split_and!; try done. by destruct (Severity a).
Qed.
End Lambda.

(** ** The integrations make one request *)

Section Requests.
Context (policyURLPrefix alertURLPrefix : string) {W : Type}.
Context (Marshal : value → result string) (NewRequest : string → option error)
        (Do : W → Request → W * result Response).
Context (MarshalMessage : OutputMessage → result string) (MarshalSns : snsMessage → result string)
        (Publish : W → string → PublishInput → W * option error)
        (SendMessage : W → string → string → string → W * option error) {awsarn : AwsArn}.
(** the number of requests made *)
Context (made : W → nat).
Context (Do_made : ∀ w r, made (Do w r).1 = S (made w))
        (Publish_made : ∀ w r p, made (Publish w r p).1 = S (made w))
        (SendMessage_made : ∀ w r u b, made (SendMessage w r u b).1 = S (made w)).

Definition one_request (c c' : OutputClient (W := W)) (err : option AlertDeliveryError) : Prop :=
  match err with
  | None => made (world c') = S (made (world c))
  | Some e => (made (world c') ≤ S (made (world c)))%nat ∧ (Permanent e = true → world c' = world c)
  end.

Lemma posted_one c r c' err :
  posted Marshal NewRequest Do c r = Ret (c', err) → one_request c c' err.
Proof.
  unfold posted, post. destruct r as [input|]; [|done]. cbn.
  destruct (Marshal _) as [payload|e]; [|intros [= <- <-]; cbn; split; [lia|done]].
  destruct (NewRequest _); [intros [= <- <-]; cbn; split; [lia|done]|].
  match goal with |- context [Do ?w ?r] => pose proof (Do_made w r) as Hm end.
  destruct (Do _ _) as [w r]. cbn in Hm.
  destruct r as [resp|e]; [case_decide|]; intros [= <- <-]; cbn; try done; split; (lia || done).
Qed.

Lemma Sns_one c a cfg c' err :
  Sns policyURLPrefix alertURLPrefix MarshalMessage MarshalSns Publish c a cfg = Ret (c', err) → one_request c c' err.
Proof.
  unfold Sns. destruct (MarshalMessage _); [|intros [= <- <-]; cbn; split; [lia|done]].
  destruct (generateDetailedAlertMessage _ _ _); [|done]. run.
  destruct (MarshalSns _); [|intros [= <- <-]; cbn; split; [lia|done]].
  destruct (load cfg); [|done]. run.
  destruct (generateAlertTitle a); [|done]. run.
  destruct (load (TopicArn _)) as [topic|]; [|done]. run.
  unfold getSnsClient. destruct (arn_Parse topic); [|intros [= <- <-]; cbn; split; [lia|done]].
  cbn [world]. match goal with |- context [Publish ?w ?r ?p] => pose proof (Publish_made w r p) end.
  destruct (Publish _ _ _) as [w [e|]]; intros [= <- <-]; cbn in *; [split; [lia|done]|done].
Qed.

Lemma Sqs_one c a cfg c' err :
  Sqs MarshalMessage SendMessage c a cfg = Ret (c', err) → one_request c c' err.
Proof.
  unfold Sqs. destruct (MarshalMessage _); [|intros [= <- <-]; cbn; split; [lia|done]].
  destruct (load cfg); [|done]. run.
  destruct (load (QueueURL _)) as [u|]; [|done]. run.
  unfold getSqsClient. destruct (split_on "." u !! 1%nat); [|done]. cbn [mbind outcome_bind world].
  match goal with |- context [SendMessage ?w ?r ?p ?b] => pose proof (SendMessage_made w r p b) end.
  destruct (SendMessage _ _ _ _) as [w [e|]]; intros [= <- <-]; cbn in *; [split; [lia|done]|done].
Qed.

(** delivering an alert to an output makes at most one request, and
    exactly one when it succeeds; a failure reported as permanent comes
    before any request, and an unsupported output type has no effect. *)
Theorem deliver_one_request c a o c' r :
  deliver policyURLPrefix alertURLPrefix Marshal NewRequest Do MarshalMessage MarshalSns Publish SendMessage c a o
    = Ret (c', r) →
  match r with
  | None => c' = c
  | Some err => one_request c c' err
  end.
Proof.
  unfold deliver. destruct (load (OutputType o)) as [type|]; [|done]. run.
  assert (∀ X : outcome (OutputClient * option AlertDeliveryError),
    (∀ c' err, X = Ret (c', err) → one_request c c' err) →
    ('(c, err) ← X; Ret (c, Some err)) = Ret (c', r) →
    match r with None => c' = c | Some err => one_request c c' err end) as Hsome.
  { intros [[c1 e1]|]; [|done]. cbn. intros H [= <- <-]. by apply H. }
  destruct (load (outputConfig o)) as [cfg|]; run;
    [|repeat (case_decide; [done|]); by intros [= <- <-]].
  repeat (case_decide; [apply Hsome; intros ? ?; first [apply posted_one|apply Sqs_one|apply Sns_one|idtac]|]);
    [|by intros [= <- <-]].
  intros Hr. destruct (PagerDuty _ _) as [[input|e]|]; cbn [mbind outcome_bind] in Hr; [by apply posted_one in Hr| |done].
  injection Hr as <- <-. cbn. split; [lia|done].
Qed.
End Requests.

(** ** Witnesses *)

(** a server that answers 200, or 500 at one address; the log of the requests *)
Definition demo_do (w : list string) (r : Request) : list string * result Response :=
  (w ++ [rURL r], Ok (if decide (rURL r = "https://down") then {| StatusCode := 500; rStatus := "500"; rText := "" |}
                      else {| StatusCode := 200; rStatus := "200"; rText := "" |})).

Definition demo_deliver :=
  deliver "https://policies/" "https://alerts/" (λ _, Ok "{}") (λ _, None) demo_do (λ _, Ok "{}") (λ _, Ok "{}")
    (λ w _ _, (w ++ ["sns"], None)) (λ w _ _ _, (w ++ ["sqs"], None)).

Definition demo_output (id address : string) : AlertOutput :=
  {| DisplayName := Some id; OutputID := Some id; OutputType := Some "slack";
     outputConfig := Some {| cSlack := Some {| slackWebhookURL := Some address |}; cSns := None; cPagerDuty := None;
       cGithub := None; cJira := None; cOpsgenie := None; cMsTeams := None; cSqs := None; cAsana := None |};
     DefaultForSeverity := [Some "HIGH"] |}.

Definition demo_outputs : list AlertOutput := [demo_output "o1" "https://up"; demo_output "o2" "https://down"].

Definition demo_alert : Alert :=
  {| CreatedAt := Some {| instant := 0; zoneOffset := 0 |}; OutputIDs := []; PolicyDescription := None;
     PolicyID := Some "policy"; PolicyName := None; PolicyVersionID := None; Runbook := None;
     Severity := Some "HIGH"; Tags := []; AlertID := None; alertType := None; Title := None |}.

Definition demo_client : OutputClient (W := list string) := {| world := []; sqsClients := ∅; snsClients := ∅ |}.
Definition after_requests (l : list string) : OutputClient (W := list string) :=
  {| world := l; sqsClients := ∅; snsClients := ∅ |}.

Definition in_order : interleaving := {| sends := id; receives := id |}.
Definition demo_dispatcher : dispatcher := {| clients := demo_client; cache := None; ticks := 0 |}.

(** an SNS output *)
Definition demo_sns : AlertOutput :=
  {| DisplayName := Some "o3"; OutputID := Some "o3"; OutputType := Some "sns";
     outputConfig := Some {| cSlack := None; cSns := Some {| TopicArn := Some "arn:aws:sns:us-east-1:1:topic" |};
       cPagerDuty := None; cGithub := None; cJira := None; cOpsgenie := None; cMsTeams := None; cSqs := None;
       cAsana := None |};
     DefaultForSeverity := [Some "HIGH"] |}.

(** a complete run: the SNS output enters its map first, the one that fails
    sends first and is received last *)
Lemma dispatch_goroutines_witness :
  let outputs := [demo_sns; demo_output "o2" "https://down"] in
  ∃ s, nsteps (step demo_deliver client_cached demo_alert) 5 (started outputs demo_client) s ∧
  (5 ≤ 3 * length outputs)%nat ∧
  ((∃ s', s ≠ Crashed ∧ step demo_deliver client_cached demo_alert s s') ∨
   (∃ il c' retryOutputs, s = Dispatching [] 0 retryOutputs c' ∧
      sends il outputs ≡ₚ outputs ∧ (∀ sts, receives il sts ≡ₚ sts) ∧
      collect demo_deliver il demo_client demo_alert outputs = Ret (c', retryOutputs))).
Proof.
  intros outputs.
  pose (up := {| outputID := "o3"; success := true; needsRetry := false |}).
  pose (down := {| outputID := "o2"; success := false; needsRetry := true |}).
  pose (client' := {| world := ["https://down"; "sns"]; sqsClients := ∅; snsClients := {["us-east-1"]} |}
    : OutputClient (W := list string)).
  assert (nsteps (step demo_deliver client_cached demo_alert) 5 (started outputs demo_client)
    (Dispatching [] 0 ["o2"] client')) as Hn.
  { eapply nsteps_l; [apply (step_map demo_deliver client_cached demo_alert [] demo_sns
      [Running (demo_output "o2" "https://down")]); by eexists|].
    eapply nsteps_l.
    { apply (step_send demo_deliver client_cached demo_alert [InMap demo_sns]
               (demo_output "o2" "https://down") [] _ _ _ (after_requests ["https://down"]) down). vm_compute. reflexivity. }
    eapply nsteps_l.
    { apply (step_send demo_deliver client_cached demo_alert [] demo_sns [Blocked down] _ _ _ client' up).
      vm_compute. reflexivity. }
    eapply nsteps_l; [apply (step_receive demo_deliver client_cached demo_alert [] up [Blocked down])|].
    eapply nsteps_l; [apply (step_receive demo_deliver client_cached demo_alert [] down [])|]. apply nsteps_O. }
  eexists. split; [exact Hn|].
  apply (dispatch_goroutines demo_deliver client_cached demo_alert outputs demo_client 5); [by eexists| | |exact Hn].
  - repeat constructor; by eexists.
  - cbn. apply NoDup_singleton.
Defined.

Lemma demo_outputs_wf : wf_outputs demo_outputs.
Proof.
  split.
  - repeat constructor; (by eexists) || (apply not_elem_of_nil).
  - cbn. apply NoDup_cons. split; [set_solver|apply NoDup_singleton].
Qed.

Lemma demo_get_wf i outputs : (λ _ : nat, Ok demo_outputs) i = Ok outputs → wf_outputs outputs.
Proof. intros [= <-]. apply demo_outputs_wf. Qed.

Lemma demo_alert_wf : wf_alert demo_alert.
Proof. split_and!; [by eexists..|constructor|constructor]. Qed.

Lemma in_order_wf : wf_interleaving in_order.
Proof. by split. Qed.

(** the output that answered is not a target of the retry *)
Lemma dispatch_correct_witness :
  ∃ d' a' ok, dispatch demo_deliver (λ _, 0) 0 (λ _, Ok demo_outputs) in_order demo_dispatcher demo_alert = Ret (d', a', ok) ∧
    ok = false ∧ targets a' demo_outputs = [demo_output "o2" "https://down"] ∧
    dispatched demo_deliver in_order demo_client demo_alert (Ok demo_outputs) (clients d') a' ok.
Proof.
  destruct (dispatch_correct demo_deliver (λ _, 0) 0 (λ _, Ok demo_outputs) demo_get_wf in_order demo_dispatcher
    demo_alert in_order_wf I demo_alert_wf) as (d'&a'&ok&Hd&_&_&Hdis).
  exists d', a', ok. split; [exact Hd|]. vm_compute in Hd. injection Hd as <- <- <-.
  split; [done|]. split; [vm_compute; reflexivity|exact Hdis].
Defined.

Definition demo_env : environment :=
  {| ALERT_RETRY_DURATION_MINS := "60"; MIN_RETRY_DELAY_SECS := "30"; MAX_RETRY_DELAY_SECS := "300";
     OUTPUTS_REFRESH_INTERVAL_MIN := "" |}.

(** the state after the run, whose clock was read twice *)
Definition demo_after : dispatcher :=
  {| clients := after_requests ["https://up"; "https://down"]; cache := Some (demo_outputs, 0); ticks := 2 |}.


Lemma deliver_one_request_witness :
  ∃ c', demo_deliver demo_client demo_alert (demo_output "o1" "https://up") = Ret (c', Some None) ∧
    length (world c') = 1%nat.
Proof.
  eexists. split; [vm_compute; reflexivity|].
  apply (deliver_one_request "https://policies/" "https://alerts/" (λ _, Ok "{}") (λ _, None) demo_do (λ _, Ok "{}")
    (λ _, Ok "{}") (λ w _ _, (w ++ ["sns"], None)) (λ w _ _ _, (w ++ ["sqs"], None)) length
    ltac:(intros; cbn; rewrite length_app; cbn; lia) ltac:(intros; cbn; rewrite length_app; cbn; lia)
    ltac:(intros; cbn; rewrite length_app; cbn; lia) demo_client demo_alert (demo_output "o1" "https://up")
    _ (Some None)). vm_compute. reflexivity.
Defined.
