(* ===== verification/Suppression.v ===== *)
(** * Suppressed resources

    Model of isSuppressed of src/internal/compliance/resource_processor/
    processor/handler.go: a pattern with wildcards is quoted, turned into a
    regular expression and matched.  The part of Go's regexp it uses
    (QuoteMeta, Compile and MatchString on the expressions that arise) is
    modelled on bytes: patterns and identifiers come from JSON and are valid
    UTF-8, where bytes and runes match alike (Go's Compile refuses a pattern
    that is not, and isSuppressed skips it).  The theorems show that the result is wildcard matching,
    and compare it with the matching of the compliance API. *)

From S2P Require Import Prelude Compliance.

(** ** regexp and strings *)

Definition special (c : ascii) : bool := contains_byte c "\.+*?()|[]{}^$".

Fixpoint QuoteMeta (s : string) : string :=
  match s with
  | EmptyString => EmptyString
  | String c s => if special c then String "\" (String c (QuoteMeta s)) else String c (QuoteMeta s)
  end.

(** strings.ReplaceAll(s, `\*`, `.*`) *)
Fixpoint unquote_stars (s : string) : string :=
  match s with
  | EmptyString => EmptyString
  | String c1 s1 =>
      match s1 with
      | EmptyString => String c1 ""
      | String c2 s2 =>
          if decide (c1 = "\"%char ∧ c2 = "*"%char) then String "." (String "*" (unquote_stars s2))
          else String c1 (unquote_stars s1)
      end
  end.

(** the expressions that arise *)
Inductive item := IBegin | IEnd | ILit (c : ascii) | IAnyStar.

Fixpoint Compile (s : string) : result (list item) :=
  match s with
  | EmptyString => Ok []
  | String c s =>
      if decide (c = "\"%char) then
        match s with
        | String d s' => if special d then rest ← Compile s'; Ok (ILit d :: rest) else Err (ErrMsg "escape")
        | EmptyString => Err (ErrMsg "trailing backslash")
        end
      else if decide (c = "."%char) then
        match s with
        | String "*"%char s' => rest ← Compile s'; Ok (IAnyStar :: rest)
        | _ => Err (ErrMsg "single dot")
        end
      else if decide (c = "^"%char) then rest ← Compile s; Ok (IBegin :: rest)
      else if decide (c = "$"%char) then rest ← Compile s; Ok (IEnd :: rest)
      else if special c then Err (ErrMsg "operator")
      else rest ← Compile s; Ok (ILit c :: rest)
  end.

Definition newline_byte : ascii := "010".

(** a match that starts here; [.] does not match a newline *)
Fixpoint match_here (r : list item) (start : bool) (s : string) : bool :=
  match r with
  | [] => true
  | IBegin :: r => start && match_here r start s
  | IEnd :: r => bool_decide (s = "") && match_here r start s
  | ILit c :: r =>
      match s with
      | String d s' => bool_decide (c = d) && match_here r false s'
      | EmptyString => false
      end
  | IAnyStar :: r =>
      (fix any (start : bool) (s : string) : bool :=
         match_here r start s ||
         match s with
         | String d s' => bool_decide (d ≠ newline_byte) && any false s'
         | EmptyString => false
         end) start s
  end.

Fixpoint MatchString (r : list item) (start : bool) (s : string) : bool :=
  match_here r start s ||
  match s with
  | String _ s' => MatchString r false s'
  | EmptyString => false
  end.

(** ** isSuppressed *)

Fixpoint isSuppressed (resourceID : string) (suppressions : list string) : bool :=
  match suppressions with
  | [] => false
  | pattern :: suppressions =>
      match Compile ("^" +:+ unquote_stars (QuoteMeta pattern) +:+ "$") with
      | Err _ => isSuppressed resourceID suppressions
      | Ok matcher => MatchString matcher true resourceID || isSuppressed resourceID suppressions
      end
  end.

(** ** What it means *)

(** [*] stands for any text without a newline, every other byte for itself *)
Inductive glob : string → string → Prop :=
| glob_nil : glob "" ""
| glob_byte c p s : c ≠ "*"%char → glob p s → glob (String c p) (String c s)
| glob_star_none p s : glob p s → glob (String "*" p) s
| glob_star_more p c s : c ≠ newline_byte → glob (String "*" p) s → glob (String "*" p) (String c s).

Fixpoint items (p : string) : list item :=
  match p with
  | EmptyString => []
  | String c p => (if decide (c = "*"%char) then IAnyStar else ILit c) :: items p
  end.

(** the quoted pattern never starts with a bare star *)
Lemma QuoteMeta_no_star p s : QuoteMeta p ≠ String "*" s.
Proof.
  destruct p as [|c p]; [done|]. cbn [QuoteMeta]. destruct (special c) eqn:Hc; intros H; [discriminate H|].
  injection H as -> _. by vm_compute in Hc.
Qed.

Definition quote (c : ascii) : string :=
  if decide (c = "*"%char) then ".*" else if special c then String "\" (String c "") else String c "".

Lemma unquote_stars_cons c d s :
  ¬ (c = "\"%char ∧ d = "*"%char) →
  unquote_stars (String c (String d s)) = String c (unquote_stars (String d s)).
Proof. intros H. cbn [unquote_stars]. by rewrite decide_False. Qed.

Lemma unquote_stars_copy c s : c ≠ "\"%char → unquote_stars (String c s) = String c (unquote_stars s).
Proof. intros Hc. destruct s as [|d s]; [done|]. apply unquote_stars_cons. naive_solver. Qed.

Lemma unquote_QuoteMeta c p :
  unquote_stars (QuoteMeta (String c p)) = quote c +:+ unquote_stars (QuoteMeta p).
Proof.
  cbn [QuoteMeta]. unfold quote. destruct (decide (c = "*"%char)) as [->|Hstar]; [done|].
  destruct (special c) eqn:Hs.
  - rewrite unquote_stars_cons by naive_solver. rewrite !string_app_cons, string_app_nil_l. f_equal.
    destruct (decide (c = "\"%char)) as [->|Hb]; [|by rewrite unquote_stars_copy].
    destruct (QuoteMeta p) as [|d q] eqn:Hq; [done|]. apply unquote_stars_cons.
    intros [_ ->]. by apply (QuoteMeta_no_star p q).
  - rewrite unquote_stars_copy; [by rewrite string_app_cons, string_app_nil_l|]. intros ->. by vm_compute in Hs.
Qed.

Lemma Compile_quoted p rest :
  Compile (unquote_stars (QuoteMeta p) +:+ rest) = (r ← Compile rest; Ok (items p ++ r)).
Proof.
  induction p as [|c p IH]; [cbn [QuoteMeta unquote_stars]; rewrite string_app_nil_l; by destruct (Compile rest)|].
  rewrite unquote_QuoteMeta, string_app_assoc. unfold quote. cbn [items].
  destruct (decide (c = "*"%char)) as [->|Hstar].
  - rewrite !string_app_cons, string_app_nil_l. cbn [Compile]. rewrite decide_False, decide_True by done.
    rewrite IH. by destruct (Compile rest).
  - destruct (special c) eqn:Hs.
    + rewrite !string_app_cons, string_app_nil_l. cbn [Compile]. rewrite decide_True, Hs, IH by done.
      by destruct (Compile rest).
    + rewrite string_app_cons, string_app_nil_l. cbn [Compile].
      rewrite !decide_False by (intros ->; by vm_compute in Hs). rewrite Hs, IH. by destruct (Compile rest).
Qed.

Lemma Compile_pattern p :
  Compile ("^" +:+ unquote_stars (QuoteMeta p) +:+ "$") = Ok (IBegin :: items p ++ [IEnd]).
Proof.
  rewrite string_app_cons, string_app_nil_l. cbn [Compile]. rewrite !decide_False, decide_True by done.
  by rewrite Compile_quoted.
Qed.

Lemma match_items p start s : match_here (items p ++ [IEnd]) start s = true ↔ glob p s.
Proof.
  revert start s. induction p as [|c p IH]; intros start s; cbn [items app match_here].
  { rewrite andb_true_r, bool_decide_eq_true. split; [intros ->; constructor|by inversion 1]. }
  destruct (decide (c = "*"%char)) as [->|Hc]; cbn [match_here].
  - revert start. induction s as [|d s IHs]; intros start.
    + rewrite orb_false_r, IH. split; [by constructor|]. by inversion 1.
    + rewrite orb_true_iff, andb_true_iff, bool_decide_eq_true, IH, IHs. split.
      * intros [?|[? ?]]; by constructor.
      * inversion 1; subst; auto; done.
  - destruct s as [|d s]; [split; [done|by inversion 1]|].
    rewrite andb_true_iff, bool_decide_eq_true, IH. split.
    + intros [-> ?]. by constructor.
    + inversion 1; subst; done.
Qed.

Lemma MatchString_anchored r s : MatchString (IBegin :: r) true s = match_here r true s.
Proof.
  assert (∀ s, MatchString (IBegin :: r) false s = false) as Hf.
  { intros x. induction x as [|a x IHx]; [done|exact IHx]. }
  destruct s; cbn [MatchString match_here andb]; by rewrite ?Hf, orb_false_r.
Qed.

(** C27: a resource is suppressed exactly when its identifier matches one of
    the patterns, where a star stands for any text and every other byte,
    special to regular expressions or not, for itself: quoting loses nothing. *)
Theorem isSuppressed_glob resourceID suppressions :
  isSuppressed resourceID suppressions = true ↔ Exists (λ p, glob p resourceID) suppressions.
Proof.
  induction suppressions as [|p suppressions IH]; cbn [isSuppressed]; [by rewrite Exists_nil|].
  rewrite Compile_pattern, MatchString_anchored, orb_true_iff, match_items, IH. by rewrite Exists_cons.
Qed.

(** the resource processor and the compliance API do not agree on what a
    suppression is: a star that has to match a slash suppresses the resource
    when it is analyzed, but not when the policy's suppressions change. *)
Theorem suppression_disagrees :
  isSuppressed "arn:aws:iam::123456789012:role/admin" ["arn:aws:iam:*"] = true ∧
  isIgnored "arn:aws:iam::123456789012:role/admin" ["arn:aws:iam:*"] = Ok false.
Proof. split; vm_compute; reflexivity. Qed.
