(* ===== verification/ResourceProcessor.v ===== *)
(** * Resource processor

    Model of src/internal/compliance/resource_processor/processor: a batch of
    updated resources and policies is analyzed by the policy engine, and the
    results go to the compliance API and to the alert processor.  The policy
    engine, the analysis, resources and compliance APIs and the JSON encoder
    are parameters; SQS is reached through [Sqsbatch.SendMessageBatch]. *)

From S2P Require Import Prelude GoTime Backoff Sqsbatch Compliance Suppression.

#[local] Open Scope Z_scope.

(** ** Data *)

(** resources and policies, as far as they are read; [A] is the type of the
    attributes of a resource *)
Record Resource (A : Type) := {
  resID : string;
  resType : string;
  resIntegrationID : string;
  Attributes : option A
}.
Arguments resID {A}. Arguments resType {A}. Arguments resIntegrationID {A}. Arguments Attributes {A}.

(** analysis models.Policy and models.EnabledPolicy have these fields in common *)
Record EnabledPolicy := {
  polBody : string;
  polID : string;
  polResourceTypes : list string;
  polSeverity : string;
  polSuppressions : list string;
  polVersionID : string
}.

Record SetStatusEntry := {
  ssPolicyID : string;
  ssPolicySeverity : string;
  ssResourceID : string;
  ssResourceType : string;
  ssSuppressed : bool;
  ssIntegrationID : string;
  ssStatus : string;
  ssErrorMessage : string
}.

(** alertmodels.ComplianceNotification; every pointer is set here *)
Record ComplianceNotification := {
  cnResourceID : string;
  cnPolicyID : string;
  cnPolicyVersionID : string;
  cnShouldAlert : bool;
  cnTimestamp : Time
}.

(** the policy engine *)
Record EnginePolicy := { epBody : string; epID : string; epResourceTypes : list string }.
Record EngineResource (A : Type) := { erAttributes : option A; erID : string; erType : string }.
Arguments erAttributes {A}. Arguments erID {A}. Arguments erType {A}.
Record PolicyEngineInput (A : Type) := { Policies : list EnginePolicy; Resources : list (EngineResource A) }.
(** enginemodels.Result: policies that errored (with the message), failed and passed *)
Record EngineResult := {
  resultID : string; Errored : list (string * string); FailedPolicies : list string; Passed : list string
}.

Definition defaultDelaySeconds : Z := 30.
Definition globalPolicy : string := "aws_globals".
Definition cacheDuration : Z := 30 * Second.
Definition resourcePageSize : Z := 2000.

Record batchResults := { StatusEntries : list SetStatusEntry; Alerts : list Entry }.

(** the process: the cache of policies, and the readings of the clock *)
Record procState := { policyCache : option (gmap string EnabledPolicy) * Time; ticks : nat }.

Inductive StatusResponse := StatusNotFound | StatusError (e : error) | StatusFound (status : string).

Section Processor.
Context {A : Type}.
Notation resourceMap := (gmap string (Resource A)).
Notation policyMap := (gmap string EnabledPolicy).

Context (now : nat → Time).

(** ** Messages *)

Context (UnmarshalResource : string → result (Resource A)) (UnmarshalPolicy : string → result EnabledPolicy)
        (UnmarshalLookup : string → result string).

Inductive message := MResource (r : Resource A) | MPolicy (p : EnabledPolicy) | MLookup (id : string) | MNone.

Definition parseQueueMsg (body : string) : message :=
  let lookup := match UnmarshalLookup body with
                | Ok id => if decide (id ≠ "") then MLookup id else MNone
                | Err _ => MNone
                end in
  let policy := match UnmarshalPolicy body with
                | Ok policy => if decide (polBody policy ≠ "") then MPolicy policy else lookup
                | Err _ => lookup
                end in
  match UnmarshalResource body with
  | Ok resource =>
      if decide (is_Some (Attributes resource) ∧ resType resource ≠ "") then MResource resource else policy
  | Err _ => policy
  end.

(** ** analysis_api.go and resources_api.go *)

Context (GetEnabledPolicies : result (list EnabledPolicy)) (GetPolicy : string → result EnabledPolicy)
        (ListResources : list string → Z → result (list (Resource A) * option Z))
        (GetResource : string → result (Resource A)).

Definition cache_fresh (st : procState) : bool :=
  bool_decide (is_Some (policyCache st).1) && After ((policyCache st).2 + cacheDuration) (now (ticks st)).

(** the clock is read when there is a cache *)
Definition cache_read (st : procState) : procState :=
  {| policyCache := policyCache st;
     ticks := match (policyCache st).1 with Some _ => S (ticks st) | None => ticks st end |}.

Definition policies_by_id (l : list EnabledPolicy) : policyMap :=
  foldl (λ m p, <[polID p := p]> m) ∅ l.

Definition getPolicies (st : procState) : procState * result policyMap :=
  let st' := cache_read st in
  if cache_fresh st then (st', Ok (default ∅ (policyCache st).1))
  else
    match GetEnabledPolicies with
    | Err e => (st', Err e)
    | Ok l =>
        let policies := policies_by_id l in
        ({| policyCache := (Some policies, now (ticks st')); ticks := S (ticks st') |}, Ok policies)
    end.

Definition getGlobalPolicy (st : procState) : procState * result EnabledPolicy :=
  let st' := cache_read st in
  match (if cache_fresh st then default ∅ (policyCache st).1 !! globalPolicy else None) with
  | Some p => (st', Ok p)
  | None => (st', GetPolicy globalPolicy)
  end.

Definition resources_by_id (l : list (Resource A)) : resourceMap :=
  foldl (λ m r, <[resID r := r]> m) ∅ l.

Definition getResources (resourceTypes : list string) (pageno : Z) : outcome (result (resourceMap * Z)) :=
  match ListResources resourceTypes pageno with
  | Err e => Ret (Err e)
  | Ok (_, None) => Panic "nil pointer dereference"
  | Ok (l, Some totalPages) => Ret (Ok (resources_by_id l, totalPages))
  end.

(** ** The policy engine *)

(** the orders in which the maps are iterated *)
Context (order_policies : list EnabledPolicy → list EnabledPolicy)
        (order_resources : list (Resource A) → list (Resource A)).
Context (MarshalInput : PolicyEngineInput A → result string)
        (Invoke : string → result (option string * string))      (* FunctionError, Payload *)
        (UnmarshalOutput : string → result (list EngineResult)).

Definition engine_input (policies : policyMap) (resources : resourceMap) : PolicyEngineInput A :=
  {| Policies := (λ p, {| epBody := polBody p; epID := polID p; epResourceTypes := polResourceTypes p |}) <$>
                 order_policies (map_to_list policies).*2;
     Resources := (λ r, {| erAttributes := Attributes r; erID := resID r; erType := resType r |}) <$>
                  order_resources (map_to_list resources).*2 |}.

Definition evaluatePolicies (policies : policyMap) (resources : resourceMap) : result (list EngineResult) :=
  body ← MarshalInput (engine_input policies resources);
  match Invoke body with
  | Err e => Err e
  | Ok (functionError, payload) =>
      if decide (default "" functionError ≠ "") then Err (ErrMsg ("policy engine error: " +:+ payload))
      else UnmarshalOutput payload
  end.

(** ** analyze *)

Definition buildStatus (policy : option EnabledPolicy) (resource : option (Resource A)) (status : string)
    : outcome SetStatusEntry :=
  match policy, resource with
  | Some policy, Some resource =>
      Ret {| ssPolicyID := polID policy; ssPolicySeverity := polSeverity policy; ssResourceID := resID resource;
             ssResourceType := resType resource;
             ssSuppressed := isSuppressed (resID resource) (polSuppressions policy);
             ssIntegrationID := resIntegrationID resource; ssStatus := status; ssErrorMessage := "" |}
  | _, _ => Panic "nil pointer dereference"
  end.

Definition with_message (e : SetStatusEntry) (msg : string) : SetStatusEntry :=
  {| ssPolicyID := ssPolicyID e; ssPolicySeverity := ssPolicySeverity e; ssResourceID := ssResourceID e;
     ssResourceType := ssResourceType e; ssSuppressed := ssSuppressed e; ssIntegrationID := ssIntegrationID e;
     ssStatus := ssStatus e; ssErrorMessage := msg |}.

Definition add_entry (r : batchResults) (e : SetStatusEntry) : batchResults :=
  {| StatusEntries := StatusEntries r ++ [e]; Alerts := Alerts r |}.

Fixpoint add_errored (policies : policyMap) (resource : option (Resource A)) (l : list (string * string))
    (r : batchResults) : outcome batchResults :=
  match l with
  | [] => Ret r
  | (id, msg) :: l =>
      entry ← buildStatus (policies !! id) resource StatusERROR;
      add_errored policies resource l (add_entry r (with_message entry msg))
  end.

Fixpoint add_passed (policies : policyMap) (resource : option (Resource A)) (l : list string)
    (r : batchResults) : outcome batchResults :=
  match l with
  | [] => Ret r
  | id :: l =>
      entry ← buildStatus (policies !! id) resource StatusPASS;
      add_passed policies resource l (add_entry r entry)
  end.

(** the compliance API and the encoder of the notifications *)
Context (GetStatus : string → string → StatusResponse)
        (MarshalNotification : ComplianceNotification → result string).

Definition add_alert (r : batchResults) (body : string) : batchResults :=
  {| StatusEntries := StatusEntries r;
     Alerts := Alerts r ++ [{| Id := Some (itoa (Z.of_nat (length (Alerts r)))); MessageBody := Some body;
                               DelaySeconds := Some defaultDelaySeconds |}] |}.

Fixpoint add_failed (policies : policyMap) (resourceID : string) (resource : option (Resource A)) (l : list string)
    (st : procState) (r : batchResults) : outcome (procState * batchResults * option error) :=
  match l with
  | [] => Ret (st, r, None)
  | policyID :: l =>
      entry ← buildStatus (policies !! policyID) resource StatusFAIL;
      let r := add_entry r entry in
      if ssSuppressed entry then add_failed policies resourceID resource l st r
      else
        match GetStatus policyID resourceID with
        | StatusError e => Ret (st, r, Some e)
        | response =>
            let status := match response with StatusFound s => s | _ => StatusPASS end in
            match policies !! policyID, resource with
            | Some policy, Some resource' =>
                let notification :=
                  {| cnResourceID := resID resource'; cnPolicyID := polID policy;
                     cnPolicyVersionID := polVersionID policy; cnTimestamp := now (ticks st);
                     cnShouldAlert := bool_decide (status ≠ StatusFAIL) |} in
                let st := {| policyCache := policyCache st; ticks := S (ticks st) |} in
                match MarshalNotification notification with
                | Err e => Ret (st, r, Some e)
                | Ok body => add_failed policies resourceID resource l st (add_alert r body)
                end
            | _, _ => Panic "nil pointer dereference"
            end
        end
  end.

Fixpoint add_results (policies : policyMap) (resources : resourceMap) (l : list EngineResult)
    (st : procState) (r : batchResults) : outcome (procState * batchResults * option error) :=
  match l with
  | [] => Ret (st, r, None)
  | result :: l =>
      let resource := resources !! resultID result in
      r ← add_errored policies resource (Errored result) r;
      '(st, r, err) ← add_failed policies (resultID result) resource (FailedPolicies result) st r;
      match err with
      | Some e => Ret (st, r, Some e)
      | None =>
          r ← add_passed policies resource (Passed result) r;
          add_results policies resources l st r
      end
  end.

(** [policies]: those of the caller, if any *)
Definition analyze (resources : resourceMap) (policies : option policyMap) (st : procState) (r : batchResults)
    : outcome (procState * batchResults * option error) :=
  if decide (resources = ∅) then Ret (st, r, None)
  else
    let '(st, p) := match policies with Some m => (st, Ok m) | None => getPolicies st end in
    match p with
    | Err e => Ret (st, r, Some e)
    | Ok policies =>
        if decide (policies = ∅) then Ret (st, r, None)
        else
          match evaluatePolicies policies resources with
          | Err e => Ret (st, r, Some e)
          | Ok results => add_results policies resources results st r
          end
    end.

(** the loop over the pages of resources; [fuel] bounds the number of pages *)
Fixpoint page_loop (fuel : nat) (policy : EnabledPolicy) (policies : policyMap) (pageno totalPages : Z)
    (st : procState) (r : batchResults) : outcome (option (procState * batchResults * option error)) :=
  if decide (totalPages < pageno) then Ret (Some (st, r, None))
  else
    match fuel with
    | O => Ret None
    | S fuel =>
        page ← getResources (polResourceTypes policy) pageno;
        match page with
        | Err e => Ret (Some (st, r, Some e))
        | Ok (resources, pageCount) =>
            '(st, r, err) ← analyze resources (Some policies) st r;
            match err with
            | Some e => Ret (Some (st, r, Some e))
            | None => page_loop fuel policy policies (pageno + 1) pageCount st r
            end
        end
    end.

(** [None]: the loop did not end within [fuel] pages *)
Definition analyzeUpdatedPolicy (fuel : nat) (policy : EnabledPolicy) (st : procState) (r : batchResults)
    : outcome (option (procState * batchResults * option error)) :=
  match getGlobalPolicy st with
  | (st, Err e) => Ret (Some (st, r, Some e))
  | (st, Ok globalFile) =>
      page_loop fuel policy (<[globalPolicy := globalFile]> {[polID policy := policy]}) 1 1 st r
  end.

(** ** deliver and Handle *)

Context {W : Type} (sqs : W → list Entry → W * result SendMessageBatchOutput) {backoff : Backoff}.
Context (SetStatus : list SetStatusEntry → option error).

(** the queue after it, the entries the compliance API accepted, and the error *)
Definition deliver (w : W) (r : batchResults) : outcome (W * list SetStatusEntry * option error) :=
  if decide (StatusEntries r = []) then Ret (w, [], None)
  else
    match SetStatus (StatusEntries r) with
    | Some e => Ret (w, [], Some e)
    | None =>
        if decide (Alerts r = []) then Ret (w, StatusEntries r, None)
        else
          '(res, _, err) ← SendMessageBatch sqs w (Alerts r);
          Ret (Sqsbatch.world res, StatusEntries r, err)
    end.

(** the loop over the records: the resources to analyze *)
Fixpoint handle_records (fuel : nat) (records : list string) (resources : resourceMap) (st : procState) (r : batchResults)
    : outcome (option (resourceMap * procState * batchResults * option error)) :=
  match records with
  | [] => Ret (Some (resources, st, r, None))
  | record :: records =>
      match parseQueueMsg record with
      | MPolicy policy =>
          out ← analyzeUpdatedPolicy fuel policy st r;
          match out with
          | None => Ret None
          | Some (st, r, Some e) => Ret (Some (resources, st, r, Some e))
          | Some (st, r, None) => handle_records fuel records resources st r
          end
      | MResource resource => handle_records fuel records (<[resID resource := resource]> resources) st r
      | MLookup id =>
          match GetResource id with
          | Err _ => handle_records fuel records resources st r
          | Ok resource => handle_records fuel records (<[resID resource := resource]> resources) st r
          end
      | MNone => handle_records fuel records resources st r
      end
  end.

Definition Handle (fuel : nat) (batch : list string) (st : procState) (w : W)
    : outcome (option (procState * W * list SetStatusEntry * option error)) :=
  out ← handle_records fuel batch ∅ st {| StatusEntries := []; Alerts := [] |};
  match out with
  | None => Ret None
  | Some (_, st, _, Some e) => Ret (Some (st, w, [], Some e))
  | Some (resources, st, r, None) =>
      '(st, r, err) ← analyze resources None st r;
      match err with
      | Some e => Ret (Some (st, w, [], Some e))
      | None =>
          '(w, sent, err) ← deliver w r;
          Ret (Some (st, w, sent, err))
      end
  end.
End Processor.
