(* ===== verification/ResourceProcessorSpec.v ===== *)
(** * Resource processor: the guarantees

    A batch leads to exactly one status per evaluated policy and resource, and
    to one notification per failure that is not suppressed, which asks for an
    alert exactly when the failure is new; the loop over pages ends. *)

From S2P Require Import Prelude GoTime Backoff Sqsbatch Compliance Suppression ResourceProcessor.

#[local] Open Scope Z_scope.

Section Spec.
Context {A : Type}.
Notation resourceMap := (gmap string (Resource A)).
Notation policyMap := (gmap string EnabledPolicy).
Context (now : nat → Time).
Context (GetStatus : string → string → StatusResponse)
        (MarshalNotification : ComplianceNotification → result string).

(** ** One answer of the policy engine *)

(** the engine answers for policies and resources it was given *)
Definition known (policies : policyMap) (resources : resourceMap) (r : EngineResult) : Prop :=
  is_Some (resources !! resultID r) ∧
  Forall (λ id, is_Some (policies !! id)) ((Errored r).*1 ++ FailedPolicies r ++ Passed r).

Definition status_for (p : EnabledPolicy) (r : Resource A) (status msg : string) : SetStatusEntry :=
  {| ssPolicyID := polID p; ssPolicySeverity := polSeverity p; ssResourceID := resID r; ssResourceType := resType r;
     ssSuppressed := isSuppressed (resID r) (polSuppressions p); ssIntegrationID := resIntegrationID r;
     ssStatus := status; ssErrorMessage := msg |}.

Definition lookups {X} (m : gmap string X) (ids : list string) : list X := omap (λ id, m !! id) ids.

(** the statuses of a result *)
Definition result_statuses (policies : policyMap) (resources : resourceMap) (r : EngineResult) : list SetStatusEntry :=
  match resources !! resultID r with
  | None => []
  | Some res =>
      omap (λ '(id, msg), (λ p, status_for p res StatusERROR msg) <$> policies !! id) (Errored r) ++
      ((λ p, status_for p res StatusFAIL "") <$> lookups policies (FailedPolicies r)) ++
      ((λ p, status_for p res StatusPASS "") <$> lookups policies (Passed r))
  end.

(** the failures that are not suppressed: the identifiers the engine gave, the policy and the resource *)
Definition result_failures (policies : policyMap) (resources : resourceMap) (r : EngineResult)
    : list (string * string * EnabledPolicy * Resource A) :=
  match resources !! resultID r with
  | None => []
  | Some res =>
      filter (λ f, isSuppressed (resID f.2) (polSuppressions f.1.2) = false)
        (omap (λ id, (λ p, (id, resultID r, p, res)) <$> policies !! id) (FailedPolicies r))
  end.

(** the message of a failure: an alert is asked for when the pair did not fail before *)
Definition notifies (f : string * string * EnabledPolicy * Resource A) (e : Entry) : Prop :=
  let '(pid, rid, p, res) := f in
  ∃ n body, MarshalNotification n = Ok body ∧ MessageBody e = Some body ∧ DelaySeconds e = Some defaultDelaySeconds ∧
    cnResourceID n = resID res ∧ cnPolicyID n = polID p ∧ cnPolicyVersionID n = polVersionID p ∧
    (∃ i, cnTimestamp n = now i) ∧
    cnShouldAlert n = match GetStatus pid rid with
                      | StatusFound s => bool_decide (s ≠ StatusFAIL)
                      | _ => true
                      end.

Definition ids_ok (r : batchResults) : Prop :=
  Id <$> Alerts r = (λ i, Some (itoa (Z.of_nat i))) <$> seq 0 (length (Alerts r)).

(** [r'] extends [r] by these statuses and notifications *)
Definition extends (r : batchResults) (ss : list SetStatusEntry) (fs : list (string * string * EnabledPolicy * Resource A))
    (r' : batchResults) : Prop :=
  StatusEntries r' = StatusEntries r ++ ss ∧
  ∃ new, Alerts r' = Alerts r ++ new ∧ Forall2 notifies fs new ∧ (ids_ok r → ids_ok r').

Lemma extends_nil r : extends r [] [] r.
Proof. split; [by rewrite app_nil_r|]. exists []. split_and!; [by rewrite app_nil_r|constructor|done]. Qed.

Lemma extends_trans r1 s1 f1 r2 s2 f2 r3 :
  extends r1 s1 f1 r2 → extends r2 s2 f2 r3 → extends r1 (s1 ++ s2) (f1 ++ f2) r3.
Proof.
  intros (H1&n1&A1&F1&I1) (H2&n2&A2&F2&I2). split; [by rewrite H2, H1, (assoc_L (++))|].
  exists (n1 ++ n2). split_and!; [by rewrite A2, A1, (assoc_L (++))|by apply Forall2_app|auto].
Qed.

Lemma extends_entry r e : extends r [e] [] (add_entry r e).
Proof. split; [done|]. exists []. split_and!; [by rewrite app_nil_r|constructor|done]. Qed.

Lemma add_errored_spec policies res l r :
  Forall (λ id, is_Some (policies !! id)) l.*1 →
  ∃ r', add_errored policies (Some res) l r = Ret r' ∧
    extends r (omap (λ '(id, msg), (λ p, status_for p res StatusERROR msg) <$> policies !! id) l) [] r'.
Proof.
  revert r. induction l as [|[id msg] l IH]; intros r HF; [by eauto using extends_nil|].
  apply Forall_cons in HF as [[p Hp] HF]. cbn in Hp. cbn [add_errored]. rewrite Hp. cbn [buildStatus mbind outcome_bind].
  edestruct IH as (r'&->&He); [done|]. eexists. split; [done|]. cbn. rewrite Hp. cbn.
  apply (extends_trans r [_] [] _ _ [] _ (extends_entry r _) He).
Qed.

Lemma add_passed_spec policies res l r :
  Forall (λ id, is_Some (policies !! id)) l →
  ∃ r', add_passed policies (Some res) l r = Ret r' ∧
    extends r ((λ p, status_for p res StatusPASS "") <$> lookups policies l) [] r'.
Proof.
  revert r. induction l as [|id l IH]; intros r HF; [by eauto using extends_nil|].
  apply Forall_cons in HF as [[p Hp] HF]. cbn [add_passed]. rewrite Hp. cbn [buildStatus mbind outcome_bind].
  edestruct IH as (r'&->&He); [done|]. eexists. split; [done|]. unfold lookups. cbn. rewrite Hp. cbn.
  apply (extends_trans r [_] [] _ _ [] _ (extends_entry r _) He).
Qed.

Lemma extends_alert r e pid rid p res n body :
  MarshalNotification n = Ok body → cnResourceID n = resID res → cnPolicyID n = polID p →
  cnPolicyVersionID n = polVersionID p → (∃ i, cnTimestamp n = now i) →
  cnShouldAlert n = match GetStatus pid rid with
                    | StatusFound s => bool_decide (s ≠ StatusFAIL)
                    | _ => true
                    end →
  extends r [e] [(pid, rid, p, res)] (add_alert (add_entry r e) body).
Proof.
  intros. split; [done|]. eexists [_]. split_and!; [done| |].
  - constructor; [|constructor]. exists n, body. by split_and!.
  - unfold ids_ok. cbn. intros Hid. rewrite length_app, fmap_app, Hid, Nat.add_1_r, seq_S, fmap_app. done.
Qed.

Lemma add_failed_spec policies rid res l st r :
  Forall (λ id, is_Some (policies !! id)) l →
  ∃ st' r' err, add_failed now GetStatus MarshalNotification policies rid (Some res) l st r = Ret (st', r', err) ∧
    policyCache st' = policyCache st ∧
    (err = None → extends r ((λ p, status_for p res StatusFAIL "") <$> lookups policies l)
       (filter (λ f, isSuppressed (resID f.2) (polSuppressions f.1.2) = false)
          (omap (λ id, (λ p, (id, rid, p, res)) <$> policies !! id) l)) r').
Proof.
  revert st r. induction l as [|id l IH]; intros st r HF; [by eexists _, _, _; eauto using extends_nil|].
  apply Forall_cons in HF as [[p Hp] HF]. cbn [add_failed]. rewrite Hp. cbn [buildStatus mbind outcome_bind ssSuppressed].
  unfold lookups. cbn [omap list_omap fmap list_fmap]. rewrite Hp. cbn [fmap option_fmap option_map list_fmap].
  rewrite filter_cons. cbn [fst snd].
  destruct (isSuppressed (resID res) (polSuppressions p)) eqn:Hs.
  { rewrite decide_False by done. destruct (IH st (add_entry r (status_for p res StatusFAIL "")) HF)
      as (st'&r'&err&Hr&Hc&He). unfold status_for in Hr. rewrite Hs in Hr. rewrite Hr.
    eexists _, _, _. split; [done|]. split; [done|]. intros Herr.
    apply (extends_trans r [_] [] _ _ _ _ (extends_entry r _)). auto. }
  rewrite decide_True by done.
  destruct (GetStatus id rid) as [|e|s] eqn:Hg; [|by eexists _, _, _|];
    (destruct (MarshalNotification _) as [body|e] eqn:Hm; [|by eexists _, _, _]);
    (edestruct IH as (st'&r'&err&->&Hc&He); [done|]; eexists _, _, _; split; [done|]; split; [done|]; intros Herr;
     eapply (extends_trans r [_] [_]); [|by apply He]; unfold status_for; rewrite Hs;
     eapply extends_alert; [exact Hm|..]; cbn; rewrite ?Hg; eauto).
Qed.

Lemma add_results_spec policies resources l st r :
  Forall (known policies resources) l →
  ∃ st' r' err, add_results now GetStatus MarshalNotification policies resources l st r = Ret (st', r', err) ∧
    policyCache st' = policyCache st ∧
    (err = None → extends r (concat (result_statuses policies resources <$> l))
                            (concat (result_failures policies resources <$> l)) r').
Proof.
  revert st r. induction l as [|x l IH]; intros st r HF; [by eexists _, _, _; eauto using extends_nil|].
  apply Forall_cons in HF as [[[res Hres] Hids] HF]. rewrite !Forall_app in Hids. destruct Hids as (He&Hf&Hp).
  cbn [add_results]. rewrite Hres.
  destruct (add_errored_spec policies res (Errored x) r He) as (r1&->&E1). run.
  destruct (add_failed_spec policies (resultID x) res (FailedPolicies x) st r1 Hf) as (st2&r2&err&->&C2&E2).
  run. destruct err as [e|]; [by eexists _, _, _|]. specialize (E2 eq_refl).
  destruct (add_passed_spec policies res (Passed x) r2 Hp) as (r3&->&E3). run.
  destruct (IH st2 r3 HF) as (st4&r4&err&->&C4&E4). eexists _, _, _. split; [done|]. split; [congruence|].
  intros Herr. cbn. eapply extends_trans; [|by apply E4]. unfold result_statuses, result_failures. rewrite Hres.
  pose proof (extends_trans _ _ _ _ _ _ _ E1 (extends_trans _ _ _ _ _ _ _ E2 E3)) as E.
  by rewrite app_nil_r in E.
Qed.
End Spec.

(** ** A batch *)

(** a map from identifiers to what carries them *)
Definition keyed {X} (id : X → string) (m : gmap string X) : Prop := ∀ k x, m !! k = Some x → id x = k.

Lemma keyed_empty {X} (id : X → string) : keyed id ∅.
Proof. intros k x. by rewrite lookup_empty. Qed.

Lemma keyed_insert {X} (id : X → string) m k x : id x = k → keyed id m → keyed id (<[k := x]> m).
Proof. intros Hx Hm k' y. rewrite lookup_insert_Some. intros [[<- <-]|[_ ?]]; [done|by apply Hm]. Qed.

Lemma keyed_foldl {X} (id : X → string) m l : keyed id m → keyed id (foldl (λ m x, <[id x := x]> m) m l).
Proof. revert m. induction l as [|x l IH]; intros m Hm; [done|]. cbn. apply IH. by apply keyed_insert. Qed.

(** the map from identifiers to the last element of a list that carries them *)
Definition by_id {X} (id : X → string) (l : list X) (m : gmap string X) : Prop :=
  ∀ k, m !! k = last (filter (λ x, id x = k) l).

Lemma by_id_foldl {X} (id : X → string) l : by_id id l (foldl (λ m x, <[id x := x]> m) ∅ l).
Proof.
  intros k. induction l as [|x l IH] using rev_ind; [done|].
  rewrite foldl_app, filter_app. cbn [foldl]. rewrite filter_cons.
  destruct (decide (id x = k)) as [<-|Hne]; cbn [filter list_filter].
  - by rewrite lookup_insert_eq, last_snoc.
  - by rewrite lookup_insert_ne, app_nil_r.
Qed.

Section Batch.
Context {A : Type}.
Notation resourceMap := (gmap string (Resource A)).
Notation policyMap := (gmap string EnabledPolicy).
Context (now : nat → Time).
Context (UnmarshalResource : string → result (Resource A)) (UnmarshalPolicy : string → result EnabledPolicy)
        (UnmarshalLookup : string → result string).
Context (GetEnabledPolicies : result (list EnabledPolicy)) (GetPolicy : string → result EnabledPolicy)
        (ListResources : list string → Z → result (list (Resource A) * option Z))
        (GetResource : string → result (Resource A)).
Context (order_policies : list EnabledPolicy → list EnabledPolicy)
        (order_resources : list (Resource A) → list (Resource A)).
Context (MarshalInput : PolicyEngineInput A → result string)
        (Invoke : string → result (option string * string))
        (UnmarshalOutput : string → result (list EngineResult)).
Context (GetStatus : string → string → StatusResponse)
        (MarshalNotification : ComplianceNotification → result string).

Notation evaluate := (evaluatePolicies order_policies order_resources MarshalInput Invoke UnmarshalOutput).
Notation extends := (extends now GetStatus MarshalNotification).

(** the orders of the maps are permutations *)
Context (order_policies_perm : ∀ l, order_policies l ≡ₚ l) (order_resources_perm : ∀ l, order_resources l ≡ₚ l).
(** the policy engine answers for what it was given *)
Context (engine_known : ∀ policies resources results,
           keyed polID policies → keyed resID resources → evaluate policies resources = Ok results → Forall (known policies resources) results).
(** the analysis API answers with the policy it is asked for *)
Context (GetPolicy_id : ∀ id p, GetPolicy id = Ok p → polID p = id).
(** the number of pages of a listing is that of every page *)
Context (pages : list string → nat).
Context (pages_ok : ∀ types n l t, ListResources types n = Ok (l, t) → t = Some (Z.of_nat (pages types))).

(** the question to the policy engine: every policy and every resource once *)
Definition asked (work : policyMap * resourceMap) (i : PolicyEngineInput A) : Prop :=
  Policies A i ≡ₚ (λ '(_, p), {| epBody := polBody p; epID := polID p; epResourceTypes := polResourceTypes p |}) <$>
                  map_to_list work.1 ∧
  Resources A i ≡ₚ (λ '(_, r), {| erAttributes := Attributes r; erID := resID r; erType := resType r |}) <$>
                   map_to_list work.2.

(** what is evaluated, and the answers of the engine *)
Definition evaluated (work : policyMap * resourceMap) (results : list EngineResult) : Prop :=
  if decide (work.2 = ∅ ∨ work.1 = ∅) then results = []
  else ∃ i body functionError payload, asked work i ∧ MarshalInput i = Ok body ∧
    Invoke body = Ok (functionError, payload) ∧ default "" functionError = "" ∧ UnmarshalOutput payload = Ok results.

Lemma evaluate_asked m resources results :
  m ≠ ∅ → resources ≠ ∅ → evaluate m resources = Ok results → evaluated (m, resources) results.
Proof.
  intros Hm Hr He. unfold evaluated. rewrite decide_False by (intros [H|H]; cbn in H; congruence).
  unfold evaluatePolicies in He. destruct (MarshalInput _) as [body|] eqn:Hb; [|done]. cbn in He.
  destruct (Invoke body) as [[ferr payload]|] eqn:Hi; [|done]. case_decide as Hd; [done|].
  eexists _, body, ferr, payload. split; [|split; [exact Hb|split; [done|split; [exact Hd|done]]]].
  unfold asked, engine_input. cbn.
  rewrite order_policies_perm, order_resources_perm, <- !list_fmap_compose.
  split; (erewrite list_fmap_ext; [reflexivity|]); by intros ? [? ?] ?.
Qed.

Definition statuses (work : policyMap * resourceMap) (results : list EngineResult) : list SetStatusEntry :=
  concat (result_statuses work.1 work.2 <$> results).
Definition failures (work : policyMap * resourceMap) (results : list EngineResult)
    : list (string * string * EnabledPolicy * Resource A) :=
  concat (result_failures work.1 work.2 <$> results).

(** evaluating [work] takes [r] to [r'] *)
Definition analyzed (work : list (policyMap * resourceMap)) (r r' : batchResults) : Prop :=
  ∃ answers, Forall2 evaluated work answers ∧
    extends r (concat (zip_with statuses work answers)) (concat (zip_with failures work answers)) r'.

Lemma analyzed_nil r : analyzed [] r r.
Proof. exists []. split; [constructor|apply extends_nil]. Qed.

Lemma analyzed_app w1 w2 r1 r2 r3 : analyzed w1 r1 r2 → analyzed w2 r2 r3 → analyzed (w1 ++ w2) r1 r3.
Proof.
  intros (a1&F1&E1) (a2&F2&E2). exists (a1 ++ a2). split; [by apply Forall2_app|].
  apply Forall2_length in F1. rewrite !zip_with_app, !concat_app by done. by eapply extends_trans.
Qed.

Definition cache_ok (st : procState) : Prop :=
  match (policyCache st).1 with Some m => keyed polID m | None => True end.

Definition the_policies (policies : option policyMap) (st : procState) : procState * result policyMap :=
  match policies with Some m => (st, Ok m) | None => getPolicies now GetEnabledPolicies st end.

Notation analyze := (analyze now GetEnabledPolicies order_policies order_resources MarshalInput Invoke
                       UnmarshalOutput GetStatus MarshalNotification).

Lemma the_policies_keyed policies st st' m :
  cache_ok st → match policies with Some m => keyed polID m | None => True end →
  the_policies policies st = (st', Ok m) → cache_ok st' ∧ keyed polID m.
Proof.
  unfold cache_ok, the_policies, getPolicies. destruct policies as [m'|]; [by intros ? ? [= <- <-]|].
  intros Hc _. destruct (cache_fresh now st) eqn:Hf.
  - intros [= <- <-]. cbn. unfold cache_fresh in Hf. by destruct (policyCache st).1.
  - destruct GetEnabledPolicies as [l|]; [|done]. intros [= <- <-]. cbn.
    split; apply keyed_foldl, keyed_empty.
Qed.

Lemma the_policies_cache policies st : cache_ok st →
  match policies with Some m => keyed polID m | None => True end → cache_ok (the_policies policies st).1.
Proof.
  intros Hc Hm. destruct (the_policies policies st) as [st' [m|e]] eqn:E.
  - by eapply the_policies_keyed in E as [? _].
  - unfold the_policies, getPolicies in E. destruct policies; [done|].
    destruct (cache_fresh now st); [done|]. destruct GetEnabledPolicies; [done|]. by injection E as <- _.
Qed.

Lemma analyze_spec resources policies st r :
  keyed resID resources → cache_ok st → match policies with Some m => keyed polID m | None => True end →
  ∃ st' r' err, analyze resources policies st r = Ret (st', r', err) ∧ cache_ok st' ∧
    (err = None → if decide (resources = ∅) then r' = r
                  else ∃ m st1, the_policies policies st = (st1, Ok m) ∧ analyzed [(m, resources)] r r').
Proof.
  intros Hkr Hco Hkp. unfold ResourceProcessor.analyze. fold (the_policies policies st).
  case_decide as Hr; [by eexists _, _, _|]. pose proof (the_policies_cache policies st Hco Hkp) as Hc1.
  destruct (the_policies policies st) as [st1 [m|e]] eqn:Hthe; [|by eexists _, _, _].
  destruct (the_policies_keyed _ _ _ _ Hco Hkp Hthe) as [_ Hkm].
  case_decide as Hm.
  { eexists _, _, _. split; [done|]. split; [done|]. intros _. exists m, st1. split; [done|].
    exists [[]]. split; [|apply extends_nil]. constructor; [|constructor]. unfold evaluated.
    by rewrite decide_True by tauto. }
  destruct (evaluate m resources) as [results|e] eqn:He; [|by eexists _, _, _].
  destruct (add_results_spec now GetStatus MarshalNotification m resources results st1 r (engine_known _ _ _ Hkm Hkr He))
    as (st2&r2&err&->&Hcs&E). eexists _, _, _. split; [done|].
  split; [unfold cache_ok in *; cbn in Hc1; by rewrite Hcs|]. intros Herr. exists m, st1. split; [done|].
  exists [results]. split.
  - constructor; [|constructor]. by apply evaluate_asked.
  - cbn. rewrite !app_nil_r. by apply E.
Qed.

(** the work of a policy: the resources of its types, page by page *)
Definition policy_maps (g p : EnabledPolicy) : policyMap := <[globalPolicy := g]> {[polID p := p]}.
Definition page_work (g p : EnabledPolicy) (n : nat) (w : policyMap * resourceMap) : Prop :=
  ∃ l t, ListResources (polResourceTypes p) (Z.of_nat n) = Ok (l, t) ∧ w.1 = policy_maps g p ∧ by_id resID l w.2.

Notation page_loop := (page_loop now GetEnabledPolicies ListResources order_policies order_resources MarshalInput
                         Invoke UnmarshalOutput GetStatus MarshalNotification).

Lemma page_loop_spec g p n k fuel st r total :
  polID g = globalPolicy → cache_ok st →
  total = Z.of_nat (n + k) - 1 ∨ n = 1%nat ∧ total = 1 ∧ k = Nat.max 1 (pages (polResourceTypes p)) →
  (n + k - 1 = Nat.max 1 (pages (polResourceTypes p)))%nat → (1 ≤ n)%nat → (k ≤ fuel)%nat →
  ∃ st' r' err, page_loop fuel p (policy_maps g p) (Z.of_nat n) total st r = Ret (Some (st', r', err)) ∧
    cache_ok st' ∧ (err = None → ∃ work, Forall2 (page_work g p) (seq n k) work ∧ analyzed work r r').
Proof.
  revert n k st r total. induction fuel as [|fuel IH]; intros n k st r total Hg Hco Ht Hk Hn Hf.
  { assert (k = 0)%nat as -> by lia. destruct Ht as [->|(_&_&?)]; [|lia]. cbn [ResourceProcessor.page_loop].
    rewrite decide_True by lia. eexists _, _, _. split; [done|]. split; [done|]. intros _. exists []. split; [constructor|apply analyzed_nil]. }
  cbn [ResourceProcessor.page_loop]. destruct k as [|k].
  { destruct Ht as [->|(_&_&?)]; [|lia]. rewrite decide_True by lia. eexists _, _, _. split; [done|].
    split; [done|]. intros _. exists []. split; [constructor|apply analyzed_nil]. }
  rewrite decide_False by (destruct Ht as [->|(->&->&_)]; lia). unfold getResources.
  destruct (ListResources (polResourceTypes p) (Z.of_nat n)) as [[l t]|e] eqn:Hl; [|by eexists _, _, _].
  pose proof (pages_ok _ _ _ _ Hl) as ->. run.
  destruct (analyze_spec (resources_by_id l) (Some (policy_maps g p)) st r) as (st1&r1&err&->&Hc1&Ha);
    [apply keyed_foldl, keyed_empty|done|by repeat apply keyed_insert; [..|apply keyed_empty]|].
  run. destruct err as [e|]; [by eexists _, _, _|]. specialize (Ha eq_refl).
  assert (analyzed [(policy_maps g p, resources_by_id l)] r r1) as Hw.
  { case_decide as Hemp; [|by destruct Ha as (m&?&[= <- <-]&?)]. subst r1.
    exists [[]]. split; [|apply extends_nil]. constructor; [|constructor]. unfold evaluated.
    by rewrite decide_True by (cbn; tauto). }
  replace (Z.of_nat n + 1) with (Z.of_nat (S n)) by lia.
  assert (∃ st' r' err, page_loop fuel p (policy_maps g p) (Z.of_nat (S n)) (Z.of_nat (pages (polResourceTypes p))) st1 r1 =
      Ret (Some (st', r', err)) ∧ cache_ok st' ∧
    (err = None → ∃ work, Forall2 (page_work g p) (seq (S n) k) work ∧ analyzed work r1 r')) as (st2&r2&err&->&Hc2&H2).
  { destruct (decide (pages (polResourceTypes p) = 0%nat)) as [H0|H0].
    - assert (k = 0%nat ∧ n = 1%nat) as [-> ->] by lia. rewrite H0. destruct fuel; cbn [ResourceProcessor.page_loop];
        (rewrite decide_True by lia); eexists _, _, _; (split; [done|]); (split; [done|]); intros _; exists []; split;
        (constructor || apply analyzed_nil).
    - apply IH; [done|done|left; lia|lia|lia|lia]. }
  eexists _, _, _. split; [done|]. split; [done|]. intros Herr. destruct (H2 Herr) as (work&HF&Hwork).
  exists ((policy_maps g p, resources_by_id l) :: work). split.
  - cbn. constructor; [|done]. exists l, (Some (Z.of_nat (pages (polResourceTypes p)))).
    split_and!; [done|done|apply by_id_foldl].
  - by apply (analyzed_app [_] work r r1 r2).
Qed.

(** ** The whole batch *)

(** a message is a resource, or else a policy, or else the identifier of a
    resource to look up, or else nothing *)
Definition as_resource (body : string) : option (message (A := A)) :=
  match UnmarshalResource body with
  | Ok r => if decide (is_Some (Attributes r) ∧ resType r ≠ "") then Some (MResource r) else None
  | Err _ => None
  end.
Definition as_policy (body : string) : option (message (A := A)) :=
  match UnmarshalPolicy body with Ok p => if decide (polBody p = "") then None else Some (MPolicy p) | Err _ => None end.
Definition as_lookup (body : string) : option (message (A := A)) :=
  match UnmarshalLookup body with Ok id => if decide (id = "") then None else Some (MLookup id) | Err _ => None end.
Definition message_of (body : string) : message (A := A) :=
  default MNone (head (omap id [as_resource body; as_policy body; as_lookup body])).

Lemma parseQueueMsg_message body : parseQueueMsg UnmarshalResource UnmarshalPolicy UnmarshalLookup body = message_of body.
Proof.
  unfold parseQueueMsg, message_of, as_resource, as_policy, as_lookup.
  assert (∀ (s : string) (X Y : message (A := A)), (if decide (s ≠ "") then X else Y) = (if decide (s = "") then Y else X)) as Hif.
  { intros s X Y. destruct (decide (s = "")); [by rewrite decide_False by tauto|by rewrite decide_True]. }
  destruct (UnmarshalResource body); [case_decide; [done|]|];
    (destruct (UnmarshalPolicy body); [rewrite Hif; case_decide|]);
    (destruct (UnmarshalLookup body); [rewrite ?Hif; try case_decide|]); done.
Qed.

(** the resources that a batch names, in order *)
Definition updated_resource (record : string) : option (Resource A) :=
  match message_of record with
  | MResource r => Some r
  | MLookup id => match GetResource id with Ok r => Some r | Err _ => None end
  | _ => None
  end.

(** the cached policies, while they are fresh *)
Definition usable (st : procState) : option policyMap :=
  match policyCache st with
  | (Some m, t) => if decide (now (ticks st) < t + cacheDuration) then Some m else None
  | (None, _) => None
  end.

(** the enabled policies, and the global policy, as the process knows them in a state *)
Definition enabled (st : procState) (m : policyMap) : Prop :=
  match usable st with
  | Some m' => m = m'
  | None => ∃ l, GetEnabledPolicies = Ok l ∧ by_id polID l m
  end.
Definition global (st : procState) (g : EnabledPolicy) : Prop :=
  match usable st ≫= (.!! globalPolicy) with
  | Some g' => g = g'
  | None => GetPolicy globalPolicy = Ok g
  end.

Context (fuel : nat) (enough : ∀ types, (Nat.max 1 (pages types) ≤ fuel)%nat).

Notation handle_records := (handle_records now UnmarshalResource UnmarshalPolicy UnmarshalLookup GetEnabledPolicies
  GetPolicy ListResources GetResource order_policies order_resources MarshalInput Invoke UnmarshalOutput GetStatus
  MarshalNotification fuel).

Notation no_results := {| StatusEntries := []; Alerts := [] |}.

(** the state of the process when it comes to a record: after those before it *)
Definition state_after (st : procState) (before : list string) (st' : procState) : Prop :=
  ∃ m r, handle_records before ∅ st no_results = Ret (Some (m, st', r, None)).

(** the work of an updated policy: the policy and the global one, with the
    resources of its types, page by page *)
Definition policy_work (st : procState) (p : EnabledPolicy) (work : list (policyMap * resourceMap)) : Prop :=
  ∃ g, global st g ∧ Forall2 (page_work g p) (seq 1 (Nat.max 1 (pages (polResourceTypes p)))) work.

(** the work of the policies of a batch, in order *)
Fixpoint records_work (st : procState) (before records : list string) (work : list (policyMap * resourceMap)) : Prop :=
  match records with
  | [] => work = []
  | record :: records =>
      match message_of record with
      | MPolicy p => ∃ st' w1 w2, state_after st before st' ∧ work = w1 ++ w2 ∧ policy_work st' p w1 ∧
                       records_work st (before ++ [record]) records w2
      | _ => records_work st (before ++ [record]) records work
      end
  end.

(** all the work of a batch: that of its policies, then the resources it
    names, the last one for each identifier, with the policies that are
    enabled when the records have been read *)
Definition batch_work (st : procState) (records : list string) (work : list (policyMap * resourceMap)) : Prop :=
  ∃ w1 w2 m, work = w1 ++ w2 ∧ records_work st [] records w1 ∧ by_id resID (omap updated_resource records) m ∧
    if decide (m = ∅) then w2 = []
    else ∃ st' policies, state_after st records st' ∧ enabled st' policies ∧ w2 = [(policies, m)].

Definition add_record (m : resourceMap) (record : string) : resourceMap :=
  match updated_resource record with Some r => <[resID r := r]> m | None => m end.

Lemma add_records records : by_id resID (omap updated_resource records) (foldl add_record ∅ records).
Proof.
  assert (∀ m, foldl add_record m records = foldl (λ m x, <[resID x := x]> m) m (omap updated_resource records)) as ->;
    [|apply by_id_foldl].
  induction records as [|x l IH]; intros m; [done|]. cbn. unfold add_record at 2.
  destruct (updated_resource x); cbn; apply IH.
Qed.

Lemma handle_records_snoc before record m st r m' st' r' :
  handle_records before m st r = Ret (Some (m', st', r', None)) →
  handle_records (before ++ [record]) m st r = handle_records [record] m' st' r'.
Proof.
  revert m st r. induction before as [|x l IH]; intros m st r; [by intros [= <- <- <-]|].
  cbn [app ResourceProcessor.handle_records].
  destruct (parseQueueMsg _ _ _ x) as [res|p|id|]; [apply IH| | |apply IH].
  - destruct (analyzeUpdatedPolicy _ _ _ _ _ _ _ _ _ _ _ _ _ _ _) as [[[[st1 r1] [e|]]|]|]; cbn; try done. apply IH.
  - destruct (GetResource id); apply IH.
Qed.

Lemma getPolicies_enabled st st' m : getPolicies now GetEnabledPolicies st = (st', Ok m) → enabled st m.
Proof.
  unfold getPolicies, cache_fresh, enabled, usable, After. destruct (policyCache st) as [[m'|] t]; cbn.
  - destruct (decide (now (ticks st) < t + cacheDuration)) as [H|H]; [rewrite (proj2 (Z.ltb_lt _ _) H)|rewrite (proj2 (Z.ltb_ge _ _)) by lia]; cbn.
    + by intros [= _ <-].
    + destruct GetEnabledPolicies as [l|]; [|done]. intros [= _ <-]. exists l. split; [done|apply by_id_foldl].
  - destruct GetEnabledPolicies as [l|]; [|done]. intros [= _ <-]. exists l. split; [done|apply by_id_foldl].
Qed.

Lemma getGlobalPolicy_global st st' g : getGlobalPolicy now GetPolicy st = (st', Ok g) → global st g.
Proof.
  unfold getGlobalPolicy, cache_fresh, global, usable, After. destruct (policyCache st) as [[m'|] t]; cbn.
  - destruct (decide (now (ticks st) < t + cacheDuration)) as [H|H]; [rewrite (proj2 (Z.ltb_lt _ _) H)|rewrite (proj2 (Z.ltb_ge _ _)) by lia]; cbn.
    + destruct (m' !! globalPolicy); by intros [= _ <-].
    + by intros [= _ ->].
  - by intros [= _ ->].
Qed.

Lemma add_record_keyed m record : keyed resID m → keyed resID (add_record m record).
Proof. intros Hm. unfold add_record. destruct (updated_resource record); [by apply keyed_insert|done]. Qed.

Lemma getGlobalPolicy_id st st' g :
  cache_ok st → getGlobalPolicy now GetPolicy st = (st', Ok g) → polID g = globalPolicy ∧ cache_ok st'.
Proof.
  unfold getGlobalPolicy, cache_ok. intros Hc. destruct (if cache_fresh now st then _ else None) as [p|] eqn:E.
  - intros [= <- <-]. split; [|done]. destruct (cache_fresh now st); [|done].
    destruct (policyCache st).1 as [m|]; [by apply Hc in E|done].
  - destruct (GetPolicy globalPolicy) eqn:G; [|done]. intros [= <- <-]. split; [by apply GetPolicy_id|done].
Qed.

Lemma handle_records_spec st0 before records resources st r :
  handle_records before ∅ st0 no_results = Ret (Some (resources, st, r, None)) →
  keyed resID resources → cache_ok st →
  ∃ m st' r' err, handle_records records resources st r = Ret (Some (m, st', r', err)) ∧
    cache_ok st' ∧ keyed resID m ∧
    (err = None → m = foldl add_record resources records ∧
       ∃ work, records_work st0 before records work ∧ analyzed work r r').
Proof.
  revert before resources st r. induction records as [|record records IH]; intros before resources st r Hbefore Hk Hc.
  { eexists _, _, _, _. split; [done|]. split; [done|]. split; [done|]. intros _. split; [done|]. exists []. split; [done|apply analyzed_nil]. }
  cbn [records_work foldl].
  pose proof (add_record_keyed resources record Hk) as Hk1.
  pose proof (handle_records_snoc before record _ _ _ _ _ _ Hbefore) as Hnext.
  cbn [ResourceProcessor.handle_records] in Hnext |- *. rewrite parseQueueMsg_message in Hnext |- *.
  assert (add_record resources record =
    match updated_resource record with Some r => <[resID r := r]> resources | None => resources end) as Hadd by done.
  rewrite Hadd in Hk1 |- *. unfold updated_resource in Hk1 |- *. clear Hadd.
  destruct (message_of record) as [res|p|id|] eqn:Hp; [by apply IH| | |by apply IH].
  2:{ destruct (GetResource id); by apply IH. }
  unfold analyzeUpdatedPolicy in Hnext |- *.
  destruct (getGlobalPolicy now GetPolicy st) as [st1 [g|e]] eqn:Hgl.
  2:{ eexists _, _, _, _. split; [done|]. split; [|by split]. unfold getGlobalPolicy in Hgl.
      destruct (if cache_fresh now st then _ else None); [done|]. by injection Hgl as <- _. }
  destruct (getGlobalPolicy_id _ _ _ Hc Hgl) as [Hg Hc1]. fold (policy_maps g p) in Hnext |- *.
  destruct (page_loop_spec g p 1 (Nat.max 1 (pages (polResourceTypes p))) fuel st1 r 1)
    as (st2&r2&err&Hl&Hc2&Hw); [done|done|right; lia|lia|lia|apply enough|].
  change (Z.of_nat 1) with 1 in Hl. rewrite Hl in Hnext |- *. cbn [mbind outcome_bind] in Hnext |- *.
  destruct err as [e|]; [by eexists _, _, _, _|]. destruct (Hw eq_refl) as (w1&HF&H1).
  destruct (IH (before ++ [record]) resources st2 r2 Hnext Hk Hc2) as (m&st3&r3&err&->&Hc3&Hkm&H3).
  eexists _, _, _, _. split; [done|]. split; [done|]. split; [done|]. intros Herr.
  destruct (H3 Herr) as (->&w2&Hr2&H2). split; [done|]. exists (w1 ++ w2). split; [|by eapply analyzed_app].
  exists st, w1, w2. split_and!; [by eexists _, _|done| |done]. exists g. split; [by eapply getGlobalPolicy_global|done].
Qed.

(** Handle up to the delivery of the results *)
Definition collect_results (batch : list string) (st : procState)
    : outcome (option (procState * batchResults * option error)) :=
  out ← handle_records batch ∅ st no_results;
  match out with
  | None => Ret None
  | Some (_, st, r, Some e) => Ret (Some (st, r, Some e))
  | Some (resources, st, r, None) => '(st, r, err) ← analyze resources None st r; Ret (Some (st, r, err))
  end.

Lemma collect_results_spec batch st :
  cache_ok st →
  ∃ st' r err, collect_results batch st = Ret (Some (st', r, err)) ∧
    (err = None → ∃ work, batch_work st batch work ∧ analyzed work no_results r).
Proof.
  intros Hc. unfold collect_results.
  destruct (handle_records_spec st [] batch ∅ st no_results eq_refl (keyed_empty _) Hc) as (m&st1&r1&err&Hrun&Hc1&Hkm&H1).
  rewrite Hrun. run. destruct err as [e|]; [by eexists _, _, _|].
  destruct (H1 eq_refl) as (->&w1&Hw1&A1). pose proof (add_records batch) as Hid.
  set (m := foldl add_record ∅ batch) in *.
  destruct (analyze_spec m None st1 r1 Hkm Hc1 I) as (st2&r2&err&->&_&H2).
  run. eexists _, _, _. split; [done|]. intros Herr. specialize (H2 Herr).
  destruct (decide (m = ∅)) as [He|He].
  - subst r2. exists (w1 ++ []). split; [|by rewrite app_nil_r].
    exists w1, [], m. split_and!; [done|done|done|]. by rewrite decide_True.
  - destruct H2 as (ps&st3&Hm&A2). exists (w1 ++ [(ps, m)]). split; [|by eapply analyzed_app].
    exists w1, [(ps, m)], m. split_and!; [done|done|done|]. rewrite decide_False by done.
    exists st1, ps. split_and!; [by eexists _, _|by eapply getPolicies_enabled|done].
Qed.

Lemma failures_statuses policies resources x :
  (length (result_failures policies resources x) ≤ length (result_statuses (A := A) policies resources x))%nat.
Proof.
  unfold result_failures, result_statuses. destruct (resources !! resultID x) as [res|]; [|done].
  rewrite !length_app, length_fmap. etrans; [apply length_filter|].
  assert (∀ l, length (omap (λ id, (λ p, (id, resultID x, p, res)) <$> policies !! id) l) =
               length (lookups policies l)) as ->; [|lia].
  unfold lookups. induction l as [|id l IH]; [done|]. cbn. destruct (policies !! id); cbn; by rewrite ?IH.
Qed.

Lemma analyzed_no_status work r :
  analyzed work {| StatusEntries := []; Alerts := [] |} r → StatusEntries r = [] → Alerts r = [].
Proof.
  intros (answers&_&Hs&new&Ha&HF&_) Hnil. cbn in Hs, Ha. rewrite Ha. rewrite Hs in Hnil.
  apply Forall2_length in HF.
  assert (∀ w a, length (failures w a) ≤ length (statuses w a))%nat as Hle.
  { intros w a. unfold failures, statuses. induction a as [|x a IH]; [done|]. cbn. rewrite !length_app.
    pose proof (failures_statuses w.1 w.2 x). lia. }
  assert (length (concat (zip_with failures work answers)) ≤ length (concat (zip_with statuses work answers)))%nat as Hl.
  { revert answers HF Hnil Hs. clear -Hle. intros answers _ _ _. revert answers.
    induction work as [|w work IH]; intros [|a answers]; cbn; try lia. rewrite !length_app.
    specialize (Hle w a). specialize (IH answers). lia. }
  rewrite Hnil in Hl. cbn in Hl. destruct new; [done|]. cbn in *. lia.
Qed.

Context {W : Type} (sqs : W → list Entry → W * result SendMessageBatchOutput).
Context (queue : W → list Entry) (requests : W → list (list Entry)).
Context (Hsqs : SqsClient sqs queue requests) {backoff : Backoff} (SetStatus : list SetStatusEntry → option error).

Notation Handle := (Handle now UnmarshalResource UnmarshalPolicy UnmarshalLookup GetEnabledPolicies GetPolicy
  ListResources GetResource order_policies order_resources MarshalInput Invoke UnmarshalOutput GetStatus
  MarshalNotification sqs SetStatus fuel).

Lemma Handle_collect batch st w :
  Handle batch st w =
  (out ← collect_results batch st;
   match out with
   | None => Ret None
   | Some (st, _, Some e) => Ret (Some (st, w, [], Some e))
   | Some (st, r, None) => '(w, sent, err) ← deliver sqs SetStatus w r; Ret (Some (st, w, sent, err))
   end).
Proof.
  unfold ResourceProcessor.Handle, collect_results.
  destruct (handle_records _ _ _ _) as [[[[[m st1] r1] [e|]]|]|]; try done. run.
  by destruct (analyze m None st1 r1) as [[[st2 r2] [e|]]|].
Qed.

Lemma deliver_spec w r :
  Forall (λ e, entrySize e ≤ maxMessageBytes) (Alerts r) → Forall batch_ok (requests w) →
  (StatusEntries r = [] → Alerts r = []) →
  ∃ w' sent err, deliver sqs SetStatus w r = Ret (w', sent, err) ∧ Forall batch_ok (requests w') ∧
    match err with
    | None => sent = StatusEntries r ∧ queue w' ≡ₚ queue w ++ Alerts r
    | Some _ => queue w ⊆+ queue w'
    end.
Proof.
  intros Hs Hw Hnone. unfold deliver. case_decide as He.
  { eexists _, _, _. split; [done|]. split; [done|]. rewrite Hnone, app_nil_r by done. by rewrite He. }
  destruct (SetStatus _); [by eexists _, _, _|]. case_decide as Ha.
  { eexists _, _, _. split; [done|]. split; [done|]. by rewrite Ha, app_nil_r. }
  destruct (SendMessageBatch_queue sqs queue requests Hsqs w (Alerts r) Hs Hw) as (res&left&err&->&Hr&Herr).
  run. eexists _, _, _. split; [done|]. split; [done|]. by destruct err.
Qed.

(** C8: a batch of updated resources and policies never panics, and the loop
    over the pages of resources ends.  Without an error, each updated policy
    was evaluated with the global policy on every page of the resources of its
    types, and the updated resources, the last version of each, with the
    policies enabled when the records have been read (the cached ones while
    they are fresh, otherwise those of the analysis API); every result of
    these evaluations gives exactly one status, and every failure among them
    that is not suppressed exactly one notification, which asks for an alert
    if and only if the pair was not failing before; all of them reach the
    compliance API and the queue.  (A pair is evaluated twice when both its
    policy and its resource are in the batch.)  With an error of the APIs, the
    engine or an encoder nothing is sent and the error is returned, so that
    the batch is retried. *)
Theorem resource_batch_correct batch st w :
  cache_ok st → Forall batch_ok (requests w) →
  ∃ st' r err, collect_results batch st = Ret (Some (st', r, err)) ∧
    match err with
    | Some e => Handle batch st w = Ret (Some (st', w, [], Some e))
    | None =>
        (∃ work, batch_work st batch work ∧ analyzed work no_results r) ∧
        NoDup (Id <$> Alerts r) ∧
        (Forall (λ e, entrySize e ≤ maxMessageBytes) (Alerts r) →
         ∃ w' sent err', Handle batch st w = Ret (Some (st', w', sent, err')) ∧ Forall batch_ok (requests w') ∧
           match err' with
           | None => sent = StatusEntries r ∧ queue w' ≡ₚ queue w ++ Alerts r
           | Some _ => queue w ⊆+ queue w'
           end)
    end.
Proof.
  intros Hco Hw. destruct (collect_results_spec batch st Hco) as (st'&r&err&Hc&Hwork).
  exists st', r, err. split; [done|]. rewrite Handle_collect, Hc. run.
  destruct err as [e|]; [done|]. destruct (Hwork eq_refl) as (work&Hb&Ha). split; [by exists work|]. split.
  - destruct Ha as (answers&_&_&new&_&_&Hid). rewrite Hid by done. apply NoDup_itoa_seq.
  - intros Hs. destruct (deliver_spec w r Hs Hw) as (w'&sent&err&->&Hr&Herr); [by eapply analyzed_no_status|].
    cbn. eexists _, _, _. split; [done|]. by split.
Qed.
End Batch.

(** ** Witness *)

Definition demo_policy (id : string) : EnabledPolicy :=
  {| polBody := "def policy(): ..."; polID := id; polResourceTypes := ["AWS.S3.Bucket"]; polSeverity := "HIGH";
     polSuppressions := ["test-*"]; polVersionID := "v1" |}.
Definition demo_globals : EnabledPolicy :=
  {| polBody := "def helper(): ..."; polID := globalPolicy; polResourceTypes := []; polSeverity := "INFO";
     polSuppressions := []; polVersionID := "v1" |}.
Definition demo_resource (id : string) : Resource unit :=
  {| resID := id; resType := "AWS.S3.Bucket"; resIntegrationID := "i"; Attributes := Some tt |}.

(** an engine that fails the policy p1 on the bucket r1, and passes p2 on r2 *)
Definition demo_asked (i : PolicyEngineInput unit) (p r : string) : bool :=
  bool_decide (p ∈ epID <$> Policies _ i ∧ r ∈ erID <$> Resources _ i).
Definition demo_marshal_input (i : PolicyEngineInput unit) : result string :=
  Ok (if demo_asked i "p1" "r1" then "fails" else if demo_asked i "p2" "r2" then "passes" else "none").
Definition demo_output (payload : string) : result (list EngineResult) :=
  Ok (if decide (payload = "fails")
      then [{| resultID := "r1"; Errored := []; FailedPolicies := ["p1"]; Passed := [] |}]
      else if decide (payload = "passes")
      then [{| resultID := "r2"; Errored := []; FailedPolicies := []; Passed := ["p2"] |}] else []).

Definition demo_evaluate := evaluatePolicies id id demo_marshal_input (λ body, Ok (None, body)) demo_output.

Lemma demo_asked_known (policies : gmap string EnabledPolicy) (resources : gmap string (Resource unit)) p r :
  keyed polID policies → keyed resID resources → demo_asked (engine_input id id policies resources) p r = true →
  is_Some (resources !! r) ∧ is_Some (policies !! p).
Proof.
  intros Hp Hr. unfold demo_asked, engine_input. cbn [Policies Resources]. intros [H1 H2]%bool_decide_eq_true_1.
  apply list_elem_of_fmap in H1 as (ep&->&(q&->&H1)%list_elem_of_fmap).
  apply list_elem_of_fmap in H1 as ([k p']&->&H1%elem_of_map_to_list).
  apply list_elem_of_fmap in H2 as (er&->&(x&->&H2)%list_elem_of_fmap).
  apply list_elem_of_fmap in H2 as ([k' x']&->&H2%elem_of_map_to_list). cbn in *.
  rewrite (Hr _ _ H2), (Hp _ _ H1). by split; eexists.
Qed.

Lemma demo_engine_known policies resources results :
  keyed polID policies → keyed resID resources →
  demo_evaluate policies resources = Ok results → Forall (known policies resources) results.
Proof.
  intros Hp Hr. unfold demo_evaluate, evaluatePolicies, demo_marshal_input, demo_output. run.
  rewrite (decide_False (P := default "" None ≠ "")) by (cbn; tauto).
  destruct (demo_asked _ "p1" "r1") eqn:H1; [|destruct (demo_asked _ "p2" "r2") eqn:H2]; cbn [decide];
    intros [= <-]; [| |constructor]; (constructor; [|constructor]).
  - apply demo_asked_known in H1 as [? ?]; [|done..]. split; [done|]. by repeat constructor.
  - apply demo_asked_known in H2 as [? ?]; [|done..]. split; [done|]. by repeat constructor.
Qed.

Definition demo_unmarshal_resource (s : string) : result (Resource unit) :=
  if decide (s = "r1") then Ok (demo_resource "r1") else Err ErrEOF.
Definition demo_unmarshal_policy (s : string) : result EnabledPolicy :=
  if decide (s = "p2") then Ok (demo_policy "p2") else Err ErrEOF.
Definition demo_get_policy (s : string) : result EnabledPolicy :=
  if decide (s = globalPolicy) then Ok demo_globals else Err ErrEOF.
Definition demo_list (_ : list string) (_ : Z) : result (list (Resource unit) * option Z) :=
  Ok ([demo_resource "r2"], Some 1).
Definition demo_start : procState := {| policyCache := (None, 0); ticks := 0 |}.

Definition demo_collect := collect_results (λ _, 0) demo_unmarshal_resource demo_unmarshal_policy (λ _, Err ErrEOF)
  (Ok [demo_policy "p1"]) demo_get_policy demo_list (λ _, Err ErrEOF) id id demo_marshal_input (λ body, Ok (None, body))
  demo_output (λ _ _, StatusNotFound) (λ _, Ok "notification") 1.
Definition demo_handle := Handle (λ _, 0) demo_unmarshal_resource demo_unmarshal_policy (λ _, Err ErrEOF)
  (Ok [demo_policy "p1"]) demo_get_policy demo_list (λ _, Err ErrEOF) id id demo_marshal_input (λ body, Ok (None, body))
  demo_output (λ _ _, StatusNotFound) (λ _, Ok "notification") queue_all (backoff := bounded_backoff 1) (λ _, None) 1.

(** an updated bucket that fails an enabled policy, and an updated policy that
    another bucket passes: one status for each pair, and one alert *)
Lemma resource_batch_correct_witness :
  ∃ st' r w' sent err, demo_collect ["r1"; "p2"] demo_start = Ret (Some (st', r, None)) ∧
    ((λ e, (ssPolicyID e, ssResourceID e, ssStatus e)) <$> StatusEntries r) =
      [("p2", "r2", StatusPASS); ("p1", "r1", StatusFAIL)] ∧
    length (Alerts r) = 1%nat ∧
    demo_handle ["r1"; "p2"] demo_start ([], []) = Ret (Some (st', w', sent, err)).
Proof.
  destruct (resource_batch_correct (λ _, 0) demo_unmarshal_resource demo_unmarshal_policy (λ _, Err ErrEOF)
    (Ok [demo_policy "p1"]) demo_get_policy demo_list (λ _, Err ErrEOF) id id demo_marshal_input (λ body, Ok (None, body))
    demo_output (λ _ _, StatusNotFound) (λ _, Ok "notification") (λ l, reflexivity l) (λ l, reflexivity l) demo_engine_known
    ltac:(intros i p; unfold demo_get_policy; case_decide; [by intros [= <-]|done]) (λ _, 1%nat)
    ltac:(intros types n l t Hl; by inversion Hl) 1%nat ltac:(intros ?; cbn; lia) queue_all fst snd queue_all_ok
    (backoff := bounded_backoff 1) (λ _, None) ["r1"; "p2"] demo_start ([], []) I (Forall_nil_2 _))
    as (st'&r&err&Hc&H).
  vm_compute in Hc. injection Hc as <- <- <-. destruct H as (_&_&H).
  destruct H as (w'&sent&err&Hh&_); [repeat constructor; vm_compute; discriminate|].
  eexists _, _, w', sent, err. split; [vm_compute; reflexivity|]. split; [reflexivity|]. split; [reflexivity|].
  exact Hh.
Defined.
