(* ===== verification/AlertProcessor.v ===== *)
(** * Compliance alerts

    Model of src/internal/compliance/alert_processor (a failing policy leads
    to an alert, at most one per policy and hour, and to a remediation) and of
    src/internal/compliance/alert_forwarder (the alerts of the table go to the
    queue of alert delivery).  The compliance, analysis and remediation APIs
    and the JSON encoder are parameters; the table of recent alerts is a map
    with DynamoDB's conditional update, and its items may expire. *)

From S2P Require Import Prelude GoTime Compliance ResourceProcessor AlertOutputs AlertDelivery.

#[local] Open Scope Z_scope.

(** ** Data *)

(** models.ComplianceNotification as it is received *)
Record Notification := {
  nResourceID : option string;
  nPolicyID : option string;
  nPolicyVersionID : option string;
  nShouldAlert : option bool;
  nTimestamp : option ZonedTime
}.

(** the policy, as far as it is read *)
Record PolicyInfo := {
  piDescription : string; piDisplayName : string; piRunbook : string; piSeverity : string;
  piTags : list string; piAutoRemediationID : string
}.

Definition alertSuppressPeriod : Z := 3600.

(** an item of the table of recent alerts *)
Record RecentAlert := { lastUpdated : Z; alertConfig : string; expiresAt : Z }.

(** the table, the alerts that were written to it with their times, and the
    remediations that were asked for *)
Record alertWorld := {
  recent : gmap string RecentAlert;
  raised : list (string * Z * string);
  remediated : list (string * string)
}.

Section Processor.
Context (GetStatus : string → string → StatusResponse) (GetPolicy : string → result PolicyInfo)
        (MarshalAlert : Alert → result string) (BuildExpression : RecentAlert → option error)
        (UpdateError : alertWorld → option error) (RemediateResourceAsync : string → string → option error).

Definition shouldTriggerActions (event : Notification) : outcome (result bool) :=
  policyID ← load (nPolicyID event);
  resourceID ← load (nResourceID event);
  Ret match GetStatus policyID resourceID with
      | StatusNotFound => Ok false
      | StatusError e => Err e
      | StatusFound status => Ok (bool_decide (status = StatusFAIL))
      end.

Definition getAlertConfigPolicy (event : Notification) : outcome (result (Alert * bool)) :=
  policyID ← load (nPolicyID event);
  Ret match GetPolicy policyID with
      | Err e => Err e
      | Ok policy =>
          Ok ({| CreatedAt := nTimestamp event; OutputIDs := []; PolicyDescription := Some (piDescription policy);
                 PolicyID := nPolicyID event; PolicyName := Some (piDisplayName policy);
                 PolicyVersionID := nPolicyVersionID event; Runbook := Some (piRunbook policy);
                 Severity := Some (piSeverity policy); Tags := Some <$> piTags policy; AlertID := None;
                 alertType := Some PolicyType; Title := None |},
              bool_decide (piAutoRemediationID policy ≠ ""))
      end.

Definition ErrCodeConditionalCheckFailedException : string := "ConditionalCheckFailedException".

(** DynamoDB's UpdateItem with the condition of triggerAlert *)
Definition UpdateItem (w : alertWorld) (policyID : string) (item : RecentAlert) (timeNow : Z) : alertWorld * option error :=
  match UpdateError w with
  | Some e => (w, Some e)
  | None =>
      if match recent w !! policyID with
         | Some old => bool_decide (lastUpdated old < timeNow - alertSuppressPeriod)
         | None => true
         end
      then ({| recent := <[policyID := item]> (recent w);
               raised := raised w ++ [(policyID, timeNow, alertConfig item)]; remediated := remediated w |}, None)
      else (w, Some (ErrAWS ErrCodeConditionalCheckFailedException "The conditional request failed"))
  end.

(** [timeNow]: the Unix time at which the event is handled *)
Definition triggerAlert (w : alertWorld) (timeNow : Z) (event : Notification)
    : outcome (alertWorld * result bool) :=
  if negb (default false (nShouldAlert event)) then
    _ ← load (nPolicyID event); Ret (w, Ok false)
  else
    policyID ← load (nPolicyID event);
    config ← getAlertConfigPolicy event;
    match config with
    | Err e => Ret (w, Err (ErrWrap ("encountered issue when getting policy: " +:+ policyID) e))
    | Ok (alert, canRemediate) =>
        match MarshalAlert alert with
        | Err e => Ret (w, Err (ErrWrap ("failed to marshal alerting config for policy " +:+ policyID) e))
        | Ok marshalled =>
            let item := {| lastUpdated := timeNow; alertConfig := marshalled;
                           expiresAt := alertSuppressPeriod + timeNow |} in
            match BuildExpression item with
            | Some e => Ret (w, Err (ErrWrap ("could not build ddb expression for policy: " +:+ policyID) e))
            | None =>
                match UpdateItem w policyID item timeNow with
                | (w, Some (ErrAWS code _ as e)) =>
                    if decide (code = ErrCodeConditionalCheckFailedException) then Ret (w, Ok false)
                    else Ret (w, Err (ErrWrap ("experienced issue while updating ddb table for policy: " +:+ policyID) e))
                | (w, Some e) =>
                    Ret (w, Err (ErrWrap ("experienced issue while updating ddb table for policy: " +:+ policyID) e))
                | (w, None) => Ret (w, Ok canRemediate)
                end
            end
        end
    end.

Definition triggerRemediation (w : alertWorld) (event : Notification) : outcome (alertWorld * option error) :=
  policyID ← load (nPolicyID event);
  resourceID ← load (nResourceID event);
  Ret match RemediateResourceAsync policyID resourceID with
      | Some e => (w, Some (ErrWrap ("failed to trigger remediation on policy " +:+ policyID +:+ " for resource "
                                     +:+ resourceID) e))
      | None => ({| recent := recent w; raised := raised w; remediated := remediated w ++ [(policyID, resourceID)] |}, None)
      end.

Definition Handle (w : alertWorld) (timeNow : Z) (event : Notification) : outcome (alertWorld * option error) :=
  _ ← load (nResourceID event);
  actions ← shouldTriggerActions event;
  match actions with
  | Err e => Ret (w, Some e)
  | Ok false => Ret (w, None)
  | Ok true =>
      '(w, r) ← triggerAlert w timeNow event;
      match r with
      | Err e => Ret (w, Some e)
      | Ok false => Ret (w, None)
      | Ok true => triggerRemediation w event
      end
  end.

(** ** main: a batch of messages, with the time each is handled *)

Context (UnmarshalNotification : string → result Notification).

(** the validate tags of ComplianceNotification *)
Definition valid_notification (n : Notification) : bool :=
  bool_decide (default "" (nResourceID n) ≠ "") && bool_decide (default "" (nPolicyID n) ≠ "").

Fixpoint processor_reporterHandler (w : alertWorld) (records : list (string * Z)) : outcome (alertWorld * option error) :=
  match records with
  | [] => Ret (w, None)
  | (body, timeNow) :: records =>
      match UnmarshalNotification body with
      | Err _ => processor_reporterHandler w records
      | Ok input =>
          if valid_notification input then
            '(w, err) ← Handle w timeNow input;
            match err with
            | Some e => Ret (w, Some (ErrWrap "encountered issue while processing event" e))
            | None => processor_reporterHandler w records
            end
          else processor_reporterHandler w records
      end
  end.
End Processor.

(** ** The alert forwarder *)

Section Forwarder.
Context (MarshalAlert : Alert → result string) (UnmarshalAlert : string → result Alert).
Context {Q : Type} (SendMessage : Q → string → Q * option error).

Definition forwarder_Handle (q : Q) (event : Alert) : outcome (Q * option error) :=
  _ ← load (PolicyID event);
  match MarshalAlert event with
  | Err e => Ret (q, Some e)
  | Ok msgBody => Ret (SendMessage q msgBody)
  end.

(** a record of the stream: the new image, if any, and its alertConfig *)
Fixpoint forwarder_reporterHandler (q : Q) (records : list (option (option string))) : outcome (Q * option error) :=
  match records with
  | [] => Ret (q, None)
  | None :: records => forwarder_reporterHandler q records
  | Some image :: records =>
      match image with
      | None => Panic "UnsupportedTypeError"
      | Some config =>
          match UnmarshalAlert config with
          | Err _ => forwarder_reporterHandler q records
          | Ok alert =>
              if valid_alert alert then
                '(q, err) ← forwarder_Handle q alert;
                match err with
                | Some e => Ret (q, Some (ErrWrap "encountered issue while processing event" e))
                | None => forwarder_reporterHandler q records
                end
              else forwarder_reporterHandler q records
          end
      end
  end.
End Forwarder.

(** ** The spacing of alerts *)

(** DynamoDB removes an item some time after it expired *)
Definition expire (w : alertWorld) (timeNow : Z) (policyID : string) : alertWorld :=
  match recent w !! policyID with
  | Some item => if decide (expiresAt item < timeNow)
                 then {| recent := delete policyID (recent w); raised := raised w; remediated := remediated w |}
                 else w
  | None => w
  end.

Section Spacing.
Context (GetStatus : string → string → StatusResponse) (GetPolicy : string → result PolicyInfo)
        (MarshalAlert : Alert → result string) (BuildExpression : RecentAlert → option error)
        (UpdateError : alertWorld → option error) (RemediateResourceAsync : string → string → option error).
Notation Handle := (Handle GetStatus GetPolicy MarshalAlert BuildExpression UpdateError RemediateResourceAsync).

(** what happens to the table: an event is handled, or an item expires *)
Inductive astep : Z → alertWorld → alertWorld → Prop :=
| astep_handle t w event w' err : Handle w t event = Ret (w', err) → astep t w w'
| astep_expire t w policyID : astep t w (expire w t policyID).

(** runs with a clock that does not go back *)
Inductive aruns : Z → alertWorld → Z → alertWorld → Prop :=
| aruns_refl t w : aruns t w t w
| aruns_step t1 w1 t2 w2 t3 w3 : aruns t1 w1 t2 w2 → t2 ≤ t3 → astep t3 w2 w3 → aruns t1 w1 t3 w3.

(** the alerts of a policy, with their times *)
Definition times (w : alertWorld) (policyID : string) : list Z :=
  omap (λ '(p, t, _), if decide (p = policyID) then Some t else None) (raised w).

(** until [t]: the alerts of each policy are spaced, the last one is in the
    table unless it is over an hour old *)
Definition spaced (t : Z) (w : alertWorld) : Prop :=
  ∀ p, StronglySorted (λ a b, a + alertSuppressPeriod < b) (times w p) ∧
    Forall (λ a, a ≤ t) (times w p) ∧
    match recent w !! p with
    | Some item => expiresAt item = alertSuppressPeriod + lastUpdated item ∧
                   Forall (λ a, a ≤ lastUpdated item) (times w p)
    | None => Forall (λ a, a + alertSuppressPeriod < t) (times w p)
    end.

Lemma spaced_later t t' w : t ≤ t' → spaced t w → spaced t' w.
Proof.
  intros Ht Hs p. destruct (Hs p) as (H1&H2&H3). split_and!; [done|eapply Forall_impl; [done|]; cbn; lia|].
  destruct (recent w !! p); [done|]. eapply Forall_impl; [done|]. cbn. lia.
Qed.

Lemma UpdateItem_spaced w p item t w' err :
  spaced t w → lastUpdated item = t → expiresAt item = alertSuppressPeriod + t →
  UpdateItem UpdateError w p item t = (w', err) → spaced t w'.
Proof.
  intros Hs Hl He. unfold UpdateItem. destruct (UpdateError w); [by intros [= <- <-]|].
  destruct (match recent w !! p with Some _ => _ | None => _ end) eqn:Hok; intros [= <- <-]; [|done].
  assert (Forall (λ a, a + alertSuppressPeriod < t) (times w p)) as Hall.
  { destruct (Hs p) as (_&_&H3). destruct (recent w !! p) as [old|]; [|done].
    apply bool_decide_eq_true in Hok. destruct H3 as [_ H3]. eapply Forall_impl; [exact H3|]. cbn. lia. }
  intros q. unfold times. cbn [raised recent]. rewrite omap_app. cbn. fold (times w q).
  destruct (decide (p = q)) as [<-|Hne]; destruct (Hs p) as (H1&H2&_).
  - rewrite lookup_insert_eq. split_and!.
    + apply StronglySorted_app_2; [|done|repeat constructor]. intros a b Ha ->%list_elem_of_singleton.
      rewrite Forall_forall in Hall. by apply Hall.
    + apply Forall_app. split; [done|]. by repeat constructor.
    + lia.
    + apply Forall_app. rewrite Hl. split; [done|]. by repeat constructor.
  - rewrite lookup_insert_ne by done. rewrite app_nil_r. apply Hs.
Qed.

Lemma Handle_spaced w t event w' err : spaced t w → Handle w t event = Ret (w', err) → spaced t w'.
Proof.
  intros Hs. unfold AlertProcessor.Handle, shouldTriggerActions.
  destruct (load (nResourceID event)) as [r|]; [|done]. cbn.
  destruct (load (nPolicyID event)) as [p|] eqn:Hp; [|done]. cbn.
  assert (∀ b w0, spaced t w0 →
    match b with Ok true => triggerRemediation RemediateResourceAsync w0 event
               | Ok false => Ret (w0, None) | Err e => Ret (w0, Some e) end = Ret (w', err) → spaced t w') as Hrem.
  { intros [[|]|] w0 Hw0; [|by intros [= <- <-]..]. unfold triggerRemediation. rewrite Hp.
    destruct (load (nResourceID event)); [|done]. cbn. destruct (RemediateResourceAsync _ _); by intros [= <- <-]. }
  assert (∀ w1 b, triggerAlert GetPolicy MarshalAlert BuildExpression UpdateError w t event = Ret (w1, b) →
            spaced t w1) as Hta.
  { intros w1 b. unfold triggerAlert, getAlertConfigPolicy. rewrite Hp. cbn.
    destruct (negb _); [by intros [= <- _]|]. destruct (GetPolicy p); [|by intros [= <- _]].
    destruct (MarshalAlert _) as [m|]; [|by intros [= <- _]]. destruct (BuildExpression _); [by intros [= <- _]|].
    destruct (UpdateItem _ _ _ _ _) as [w2 e2] eqn:Hu. eapply UpdateItem_spaced in Hu; [|done..].
    destruct e2 as [[]|]; try (by intros [= <- _]). case_decide; by intros [= <- _]. }
  destruct (GetStatus p r) as [|e|s]; [by intros [= <- <-]..|]. case_bool_decide; [|by intros [= <- <-]].
  destruct (triggerAlert _ _ _ _ _ _ _) as [[w1 b]|]; [|done]. cbn.
  apply Hrem. by eapply Hta.
Qed.

Lemma expire_spaced w t p : spaced t w → spaced t (expire w t p).
Proof.
  intros Hs. unfold expire. destruct (recent w !! p) as [item|] eqn:Hi; [|done]. case_decide as He; [|done].
  intros q. change (times {| recent := _; raised := raised w; remediated := remediated w |} q) with (times w q).
  destruct (Hs q) as (H1&H2&H3). split_and!; [done|done|]. cbn [recent].
  destruct (decide (p = q)) as [<-|Hne]; [|by rewrite lookup_delete_ne].
  rewrite lookup_delete_eq. rewrite Hi in H3. destruct H3 as [Hx H3].
  eapply Forall_impl; [exact H3|]. cbn. lia.
Qed.

Definition no_alerts : alertWorld := {| recent := ∅; raised := []; remediated := [] |}.

(** C28: however events arrive and items of the table expire, two alerts of one
    policy are more than an hour apart. *)
Theorem alerts_spaced t0 t w p :
  aruns t0 no_alerts t w → StronglySorted (λ a b, a + alertSuppressPeriod < b) (times w p).
Proof.
  intros Hr. assert (spaced t w) as Hs; [|by destruct (Hs p)].
  remember no_alerts as w0 eqn:Hw0. induction Hr as [t w|t1 w1 t2 w2 t3 w3 Hr IH Ht Hstep].
  - subst. intros q. split_and!; constructor.
  - specialize (IH Hw0). eapply spaced_later in IH; [|exact Ht].
    inversion Hstep as [t w1' event w' err Hh|t w1' q]; subst; [by eapply Handle_spaced|by apply expire_spaced].
Qed.

(** remediation depends on alerting: a failing resource of a policy with
    an automatic remediation is not remediated when the policy raised an
    alert in the last hour, for this or for any other resource, or when the
    notification does not ask for an alert; the event counts as handled. *)
Theorem remediation_suppressed w t event policyID resourceID :
  nPolicyID event = Some policyID → nResourceID event = Some resourceID →
  GetStatus policyID resourceID = StatusFound StatusFAIL →
  default false (nShouldAlert event) = false ∨
  (∃ item info config, recent w !! policyID = Some item ∧ t - alertSuppressPeriod ≤ lastUpdated item ∧
     UpdateError w = None ∧ GetPolicy policyID = Ok info ∧
     (∀ alert, MarshalAlert alert = Ok config) ∧ (∀ item, BuildExpression item = None)) →
  Handle w t event = Ret (w, None).
Proof.
  intros Hp Hr Hst Hcase. unfold AlertProcessor.Handle, shouldTriggerActions. rewrite Hp, Hr. cbn. rewrite Hst.
  rewrite bool_decide_eq_true_2 by done. unfold triggerAlert, getAlertConfigPolicy. rewrite Hp. cbn.
  destruct Hcase as [->|(item&info&config&Hi&Hl&Hu&Hg&Hm&Hb)]; [done|].
  destruct (default false (nShouldAlert event)); [|done]. cbn. rewrite Hg. cbn. rewrite Hm, Hb.
  unfold UpdateItem. rewrite Hu, Hi. rewrite bool_decide_eq_false_2 by lia. cbn.
  by rewrite decide_True.
Qed.

(** ** From a failing resource to the queue of alert delivery *)

(** the alert of an event for a policy *)
Definition policy_alert (event : Notification) (policy : PolicyInfo) : Alert :=
  {| CreatedAt := nTimestamp event; OutputIDs := []; PolicyDescription := Some (piDescription policy);
     PolicyID := nPolicyID event; PolicyName := Some (piDisplayName policy);
     PolicyVersionID := nPolicyVersionID event; Runbook := Some (piRunbook policy);
     Severity := Some (piSeverity policy); Tags := Some <$> piTags policy; AlertID := None;
     alertType := Some PolicyType; Title := None |}.

Context (UnmarshalAlert : string → result Alert).
Context (alert_roundtrip : ∀ a s, MarshalAlert a = Ok s → UnmarshalAlert s = Ok a).
Context {Q : Type} (SendMessage : Q → string → Q * option error).

(** a resource that newly fails a policy with no alert in the last hour
    leads to an alert of that policy, written to the table once, remediated
    if the policy says so, and forwarded to the queue of alert delivery as a
    message that reads back as that alert and is valid there. *)
Theorem new_failure_alerts w t q event policyID resourceID policy config :
  nPolicyID event = Some policyID → nResourceID event = Some resourceID → is_Some (nTimestamp event) →
  nShouldAlert event = Some true → GetStatus policyID resourceID = StatusFound StatusFAIL →
  GetPolicy policyID = Ok policy → piSeverity policy ∈ ["INFO"; "LOW"; "MEDIUM"; "HIGH"; "CRITICAL"] →
  MarshalAlert (policy_alert event policy) = Ok config → (∀ item, BuildExpression item = None) →
  UpdateError w = None → recent w !! policyID = None → RemediateResourceAsync policyID resourceID = None →
  ∃ w', Handle w t event = Ret (w', None) ∧
    raised w' = raised w ++ [(policyID, t, config)] ∧
    remediated w' = remediated w ++ (if decide (piAutoRemediationID policy = "") then [] else [(policyID, resourceID)]) ∧
    UnmarshalAlert config = Ok (policy_alert event policy) ∧ valid_alert (policy_alert event policy) = true ∧
    forwarder_reporterHandler MarshalAlert UnmarshalAlert SendMessage q [Some (Some config)] =
      (let '(q, err) := SendMessage q config in Ret (q, ErrWrap "encountered issue while processing event" <$> err)).
Proof.
  intros Hp Hr [ts Ht] Hs Hst Hg Hsev Hm Hb Hu Hw Hrem.
  assert (valid_alert (policy_alert event policy) = true) as Hv.
  { unfold valid_alert. cbn. rewrite Ht, Hp. rewrite !andb_true_iff. split_and!; try apply bool_decide_eq_true; (done || by eexists || set_solver). }
  pose proof (alert_roundtrip _ _ Hm) as Hrt.
  unfold AlertProcessor.Handle, shouldTriggerActions. rewrite Hp, Hr. cbn. rewrite Hst.
  rewrite bool_decide_eq_true_2 by done. unfold triggerAlert, getAlertConfigPolicy. rewrite Hs.
  assert (getAlertConfigPolicy GetPolicy event =
            Ret (Ok (policy_alert event policy, bool_decide (piAutoRemediationID policy ≠ "")))) as Hcfg
    by (unfold getAlertConfigPolicy, policy_alert; rewrite Hp; cbn; by rewrite Hg).
  unfold getAlertConfigPolicy in Hcfg. rewrite Hcfg, Hp. cbn [load mbind outcome_bind negb default id].
  rewrite Hm, Hb. unfold UpdateItem. rewrite Hu, Hw. cbn.
  assert (forwarder_reporterHandler MarshalAlert UnmarshalAlert SendMessage q [Some (Some config)] =
      (let '(q, err) := SendMessage q config in Ret (q, ErrWrap "encountered issue while processing event" <$> err))) as Hf.
  { cbn. rewrite Hrt, Hv. unfold forwarder_Handle. cbn. rewrite Hp. cbn. rewrite Hm. cbn.
    by destruct (SendMessage q config) as [q' [e|]]. }
  destruct (decide (piAutoRemediationID policy = "")) as [Hauto|Hauto];
    [rewrite bool_decide_eq_false_2 by (by intros ?)|rewrite bool_decide_eq_true_2 by done]; cbn.
  - eexists. split; [done|]. cbn. rewrite app_nil_r. by split_and!.
  - unfold triggerRemediation. rewrite Hp, Hr. cbn. rewrite Hrem. eexists. split; [done|]. by split_and!.
Qed.
End Spacing.

(** ** Witnesses *)

Definition demo_notification (resource : string) : Notification :=
  {| nResourceID := Some resource; nPolicyID := Some "p1"; nPolicyVersionID := Some "v1"; nShouldAlert := Some true;
     nTimestamp := Some {| instant := 0; zoneOffset := 0 |} |}.
Definition demo_info : PolicyInfo :=
  {| piDescription := ""; piDisplayName := "Encryption"; piRunbook := ""; piSeverity := "HIGH"; piTags := [];
     piAutoRemediationID := "AWS.S3.EnableBucketEncryption" |}.
Definition demo_get_info (id : string) : result PolicyInfo := if decide (id = "p1") then Ok demo_info else Err ErrEOF.

Definition demo_process := Handle (λ _ _, StatusFound StatusFAIL) demo_get_info (λ _, Ok "alert") (λ _, None) (λ _, None)
  (λ _ _, None).

Lemma alerts_spaced_witness :
  ∃ w, aruns (λ _ _, StatusFound StatusFAIL) demo_get_info (λ _, Ok "alert") (λ _, None) (λ _, None) (λ _ _, None)
         0 no_alerts 8000 w ∧
    times w "p1" = [100; 8000] ∧ StronglySorted (λ a b, a + alertSuppressPeriod < b) (times w "p1").
Proof.
  assert (∃ w, aruns (λ _ _, StatusFound StatusFAIL) demo_get_info (λ _, Ok "alert") (λ _, None) (λ _, None) (λ _ _, None)
         0 no_alerts 8000 w ∧ times w "p1" = [100; 8000]) as (w&Hr&Ht).
  { eexists. split.
    - eapply aruns_step; [eapply aruns_step; [eapply aruns_step; [apply aruns_refl| |]| |]| |].
      + instantiate (1 := 100). lia.
      + apply (astep_handle _ _ _ _ _ _ _ _ (demo_notification "r1") _ None). vm_compute. reflexivity.
      + instantiate (1 := 200). lia.
      + apply (astep_handle _ _ _ _ _ _ _ _ (demo_notification "r2") _ None). vm_compute. reflexivity.
      + lia.
      + apply (astep_handle _ _ _ _ _ _ _ _ (demo_notification "r1") _ None). vm_compute. reflexivity.
    - vm_compute. reflexivity. }
  exists w. split; [exact Hr|]. split; [exact Ht|]. exact (alerts_spaced _ _ _ _ _ _ _ _ _ _ Hr).
Defined.

(** a second bucket fails the policy a minute later, and is not remediated *)
Lemma remediation_suppressed_witness :
  ∃ w, demo_process no_alerts 100 (demo_notification "r1") = Ret (w, None) ∧ remediated w = [("p1", "r1")] ∧
    demo_process w 160 (demo_notification "r2") = Ret (w, None).
Proof.
  eexists. split; [vm_compute; reflexivity|]. split; [reflexivity|].
  apply (remediation_suppressed (λ _ _, StatusFound StatusFAIL) demo_get_info (λ _, Ok "alert") (λ _, None) (λ _, None)
    (λ _ _, None) _ 160 (demo_notification "r2") "p1" "r2"); [done|done|done|].
  right. eexists _, demo_info, "alert". split_and!; [vm_compute; reflexivity|vm_compute; discriminate|done..].
Defined.

(** an encoder of one alert *)
#[export] Instance ZonedTime_eq_dec : EqDecision ZonedTime.
Proof. solve_decision. Defined.
#[export] Instance Alert_eq_dec : EqDecision Alert.
Proof. solve_decision. Defined.

Definition demo_alert_config : Alert := policy_alert (demo_notification "r1") demo_info.
Definition demo_marshal_alert (a : Alert) : result string :=
  if decide (a = demo_alert_config) then Ok "alert" else Err ErrEOF.
Definition demo_unmarshal_alert (s : string) : result Alert :=
  if decide (s = "alert") then Ok demo_alert_config else Err ErrEOF.

Lemma demo_alert_roundtrip a s : demo_marshal_alert a = Ok s → demo_unmarshal_alert s = Ok a.
Proof. unfold demo_marshal_alert. case_decide as Ha; [|done]. intros [= <-]. by rewrite Ha. Qed.

Lemma new_failure_alerts_witness :
  ∃ w', Handle (λ _ _, StatusFound StatusFAIL) demo_get_info demo_marshal_alert (λ _, None) (λ _, None) (λ _ _, None)
      no_alerts 100 (demo_notification "r1") = Ret (w', None) ∧
    raised w' = [("p1", 100, "alert")] ∧ remediated w' = [("p1", "r1")] ∧
    forwarder_reporterHandler demo_marshal_alert demo_unmarshal_alert (λ q m, (q ++ [m], None)) [] [Some (Some "alert")] =
      Ret (["alert"], None).
Proof.
  destruct (new_failure_alerts (λ _ _, StatusFound StatusFAIL) demo_get_info demo_marshal_alert (λ _, None) (λ _, None)
    (λ _ _, None) demo_unmarshal_alert demo_alert_roundtrip (λ (q : list string) m, (q ++ [m], None)) no_alerts 100 []
    (demo_notification "r1") "p1" "r1" demo_info "alert") as (w'&H1&H2&H3&_&_&H6);
    [first [reflexivity|vm_compute; reflexivity|by eexists|done|set_solver]..|].
  exists w'. split_and!; [exact H1|exact H2|exact H3|exact H6].
Defined.
