(* ===== verification/SqsOversized.v ===== *)
(** * pkg/awsbatch/sqsbatch: calls with oversized messages

    SendMessageBatch hands messages over 260000 bytes back to its caller.
    That works as long as no oversized message is followed by one that fills
    a batch alone ([separated]); [SendMessageBatch_adjacent] shows what happens
    otherwise. *)

From S2P Require Import Prelude AlertOutputs Backoff Sqsbatch.

#[local] Open Scope Z_scope.

Notation big e := (entrySize e > maxMessageBytes).

Definition bigs (l : list Entry) : list Entry := filter (λ e, big e) l.
Definition smalls (l : list Entry) : list Entry := filter (λ e, ¬ big e) l.

Fixpoint separated (l : list Entry) : Prop :=
  match l with
  | x :: l' =>
      match l' with
      | [] => True
      | y :: _ => ¬ (big x ∧ maxMessageBytes ≤ entrySize y) ∧ separated l'
      end
  | [] => True
  end.

Lemma separated_tail x l : separated (x :: l) → separated l.
Proof. destruct l; [done|]. by intros [_ ?]. Qed.

Lemma separated_app l1 l2 : separated (l1 ++ l2) → separated l2.
Proof. induction l1 as [|x l1 IH]; [done|]. intros H%separated_tail. auto. Qed.

Lemma bigs_app l1 l2 : bigs (l1 ++ l2) = bigs l1 ++ bigs l2.
Proof. apply filter_app. Qed.
Lemma smalls_app l1 l2 : smalls (l1 ++ l2) = smalls l1 ++ smalls l2.
Proof. apply filter_app. Qed.
Lemma bigs_cons e l : bigs (e :: l) = (if decide (big e) then [e] else []) ++ bigs l.
Proof. unfold bigs. rewrite filter_cons. by case_decide. Qed.
Lemma smalls_cons e l : smalls (e :: l) = (if decide (big e) then [] else [e]) ++ smalls l.
Proof. unfold smalls. rewrite filter_cons. repeat case_decide; tauto || done. Qed.

Lemma split_perm l : l ≡ₚ bigs l ++ smalls l.
Proof.
  induction l as [|e l IH]; [done|]. rewrite bigs_cons, smalls_cons. case_decide; cbn.
  - by rewrite <-IH.
  - by rewrite <-Permutation_middle, <-IH.
Qed.

Lemma fill_step e next rest batch big0 size :
  let batch' := if decide (big e) then batch else batch ++ [e] in
  let size' := if decide (big e) then size else size + entrySize e in
  let big' := if decide (big e) then big0 ++ [e] else big0 in
  fill (e :: next :: rest) batch big0 size =
  if decide (length batch' = maxMessages ∨ maxMessageBytes ≤ size' + entrySize next)
  then (batch', big', next :: rest) else fill (next :: rest) batch' big' size'.
Proof. done. Qed.

(** a batch takes a prefix: its small messages, while its oversized ones are
    set aside; an empty batch ends the input *)
Lemma fill_prefix e rest batch big0 :
  separated (e :: rest) → batch_ok batch → (¬ big e → batch_ok (batch ++ [e])) →
  ∃ taken rest', e :: rest = taken ++ rest' ∧ taken ≠ [] ∧
    fill (e :: rest) batch big0 (totalSize batch) = (batch ++ smalls taken, big0 ++ bigs taken, rest') ∧
    batch_ok (batch ++ smalls taken) ∧ (batch ++ smalls taken = [] → rest' = []).
Proof.
  revert e batch big0. induction rest as [|next rest IH]; intros e batch big0 Hsep Hb Hbe.
  - exists [e], []. cbn [fill]. rewrite bigs_cons, smalls_cons. 
    change (bigs []) with (@nil Entry). change (smalls []) with (@nil Entry).
    destruct (decide (big e)); cbn [app]; rewrite ?app_nil_r; split_and!; auto.
  - rewrite fill_step. cbv zeta. destruct Hsep as [Hne Hsep].
    set (batch' := if decide (big e) then batch else batch ++ [e]).
    set (big' := if decide (big e) then big0 ++ [e] else big0).
    assert (batch' = batch ++ smalls [e] ∧ big' = big0 ++ bigs [e]) as [Eb Eg].
    { unfold batch', big'. rewrite bigs_cons, smalls_cons.
      change (bigs []) with (@nil Entry). change (smalls []) with (@nil Entry).
      destruct (decide (big e)); cbn [app]; by rewrite ?app_nil_r. }
    assert (batch_ok batch') as Hb' by (unfold batch'; case_decide; auto).
    assert ((if decide (big e) then totalSize batch else totalSize batch + entrySize e) = totalSize batch') as ->
      by (unfold batch'; case_decide; [done|by rewrite totalSize_snoc]).
    case_decide as Hstop.
    + exists [e], (next :: rest). rewrite <-Eb, <-Eg. split_and!; [done..|]. intros He. exfalso.
      destruct Hstop as [Hl|Hs]; [by rewrite He in Hl|]. rewrite He in Hs. cbn in Hs.
      unfold batch' in He. case_decide; [|by destruct batch]. tauto.
    + destruct (IH next batch' big' Hsep Hb') as (taken&rest'&Hr&_&Hf&Hok&Hnil).
      { intros _. destruct Hb' as [Hl _]. split; [rewrite length_app; cbn; unfold maxMessages in *; lia|].
        rewrite totalSize_snoc. lia. }
      exists (e :: taken), rest'. rewrite Hf, Hr.
      rewrite (bigs_app [e] taken : bigs (e :: taken) = _), (smalls_app [e] taken : smalls (e :: taken) = _).
      rewrite !(assoc_L (++)), <-Eb, <-Eg. split_and!; auto.
Qed.

(** an error of Retry is one of its operation *)
Lemma Retry_error `{!Backoff} {S} (op : operation S) s s' e :
  Retry op s = Ret (s', Some e) → ∃ t t', op t = Ret (t', Some e) ∨ op t = Ret (t', Some (ErrPermanent e)).
Proof.
  intros HR. pose proof (Retry_run op s) as Hrun. rewrite HR in Hrun. clear HR. remember (Ret (s', Some e)) as o.
  induction Hrun; simplify_eq; eauto.
Qed.

Section Oversized.
Context {W : Type} (client : W → list Entry → W * result SendMessageBatchOutput).
Context (queue : W → list Entry) (requests : W → list (list Entry)).
Context (Hclient : SqsClient client queue requests) {backoff : Backoff}.
(** the text of an error of the client names more than the code *)
Context (client_text : ∀ w es w' e, client w es = (w', Err e) → errText e ≠ ErrCodeBatchRequestTooLong).

Lemma send_error_text t t' e : send client t = Ret (t', Some e) → errText e ≠ ErrCodeBatchRequestTooLong.
Proof.
  unfold send. destruct (client (world t) (entries t)) as [w' [out|e']] eqn:Hc.
  - destruct (Failed out) as [|f fs]; [done|]. destruct (deref (fMessage f)) as [msg|]; run; [|done].
    destruct (retryIDs _) as [ids|]; run; [|done]. destruct (retryEntries _ _) as [again|]; run; [|done].
    intros [= _ <-]. cbn [errText].
    match goal with |- context [?n +:+ " unprocessed items"] => generalize n end. intros n Heq.
    pose proof (has_suffix_app (msg +:+ ": " +:+ n) " unprocessed items") as Hs.
    rewrite !string_app_assoc, Heq in Hs. by vm_compute in Hs.
  - intros [= _ <-]. cbn [errText]. by eapply client_text.
Qed.

Lemma send_loop_oversized acc fuel taken rest r :
  separated rest → (length rest ≤ fuel)%nat → done_inv queue requests acc (smalls taken) 0 r →
  ∃ r' back err, send_loop client fuel (taken ++ rest) rest (bigs taken) r = Ret (r', back, err) ∧
    requests_ok requests r' ∧
    match err with
    | None => bigs (taken ++ rest) = [] ∧ queue (world r') ≡ₚ acc ++ taken ++ rest
    | Some e =>
        (e = ErrMsg ErrCodeBatchRequestTooLong ∧ back = bigs (taken ++ rest) ∧
         queue (world r') ≡ₚ acc ++ smalls (taken ++ rest)) ∨
        (errText e ≠ ErrCodeBatchRequestTooLong ∧ acc ⊆+ queue (world r'))
    end.
Proof.
  assert (∀ taken r, done_inv queue requests acc (smalls taken) 0 r → ∃ r' back err,
    Ret (finish r (bigs taken)) = Ret (r', back, err) ∧ requests_ok requests r' ∧
    match err with
    | None => bigs (taken ++ []) = [] ∧ queue (world r') ≡ₚ acc ++ taken ++ []
    | Some e =>
        (e = ErrMsg ErrCodeBatchRequestTooLong ∧ back = bigs (taken ++ []) ∧
         queue (world r') ≡ₚ acc ++ smalls (taken ++ [])) ∨
        (errText e ≠ ErrCodeBatchRequestTooLong ∧ acc ⊆+ queue (world r'))
    end) as Hfin.
  { clear. intros taken r (Hreq&Hq&_). rewrite app_nil_r. pose proof (split_perm taken) as Hsp.
    destruct (bigs taken) as [|b bs]; cbn [finish]; eexists _, _, _; (split; [done|]); (split; [done|]).
    - split; [done|]. rewrite Hq. cbn [app] in Hsp. by rewrite <-Hsp.
    - left. auto. }
  revert taken rest r. induction fuel as [|fuel IH]; intros taken rest r Hsep Hfuel Hd.
  { destruct rest; [|cbn in *; lia]. cbn [send_loop]. by apply Hfin. }
  destruct rest as [|e rest]; [cbn [send_loop]; by apply Hfin|].
  destruct (fill_prefix e rest [] (bigs taken) Hsep) as (more&rest'&Hr&Hne&Hf&Hb&Hnil).
  { unfold batch_ok, maxMessageBytes, maxMessages. cbn. lia. }
  { intros Hs. unfold batch_ok, maxMessages. cbn. lia. }
  cbn [send_loop]. change 0 with (totalSize []). rewrite Hf. cbn [app] in *. rewrite <-bigs_app.
  rewrite Hr in Hsep, Hfuel |- *. apply separated_app in Hsep.
  destruct (smalls more) as [|b bs] eqn:Hsm.
  { rewrite (Hnil eq_refl), (assoc_L (++) taken more []). apply Hfin.
    destruct Hd as (?&?&?). rewrite smalls_app, Hsm, app_nil_r. done. }
  destruct (sqs_batch_step client queue requests Hclient acc (smalls taken) (b :: bs) r Hb Hd)
    as (r2&[err|]&HR&Hx); rewrite HR; run.
  - rewrite <-Hsm, <-smalls_app in Hx. destruct Hx as (Hreq&dn&left&Hq&Hp&Hn).
    assert (Z.of_nat (length dn) ≤ Z.of_nat (length (taken ++ more ++ rest'))) as Hle.
    { apply Permutation_length in Hp. rewrite length_app in Hp.
      assert (length (smalls (taken ++ more)) ≤ length (taken ++ more))%nat by apply length_filter.
      rewrite (assoc_L (++)), length_app. lia. }
    unfold unsent. rewrite decide_True by lia. run. eexists _, _, _. split; [done|]. split; [done|].
    right. split.
    + destruct (Retry_error _ _ _ _ HR) as (t&t'&[Ht|Ht]); by apply send_error_text in Ht.
    + etrans; [|exact Hq]. by apply submseteq_inserts_r.
  - rewrite (assoc_L (++)). apply IH; [done| |].
    + rewrite length_app in Hfuel. destruct more; [done|]. cbn in *. lia.
    + by rewrite smalls_app, Hsm.
Qed.

(** what the callers rely on when messages may be oversized: the others are
    queued once, and those handed back are exactly the oversized ones *)
Lemma SendMessageBatch_oversized w all :
  separated all → Forall batch_ok (requests w) →
  ∃ r back err, SendMessageBatch client w all = Ret (r, back, err) ∧ Forall batch_ok (requests (world r)) ∧
    match err with
    | None => bigs all = [] ∧ queue (world r) ≡ₚ queue w ++ all
    | Some e =>
        (e = ErrMsg ErrCodeBatchRequestTooLong ∧ back = bigs all ∧ queue (world r) ≡ₚ queue w ++ smalls all) ∨
        (errText e ≠ ErrCodeBatchRequestTooLong ∧ queue w ⊆+ queue (world r))
    end.
Proof.
  intros Hsep Hw. apply (send_loop_oversized (queue w) (length all) [] all); [done..|].
  split_and!; [done|by rewrite app_nil_r|done].
Qed.
End Oversized.
