(* ===== verification/ResourcesApi.v ===== *)
(** * Resources API

    Model of src/internal/compliance/resources_api/handlers: the table of
    cloud resources (add, delete, get, list, overview) and the cache of their
    compliance status.  DynamoDB, the builder of its expressions, JSON, the
    compliance API, SQS and the generated validators, which only call
    go-openapi/validate, are parameters; a filter is a term of [Condition]
    with DynamoDB's documented meaning [sat].  Identifiers are ASCII, as
    [to_lower] is. *)

From S2P Require Import Prelude GoTime GoSort GoPath Compliance ComplianceHandlers Backoff Dynamodbbatch.
From S2P Require Import Sqsbatch AlertOutputs.

#[local] Open Scope Z_scope.

(** ** Data *)

(** interface{}: nil, a JSON object or any other JSON value *)
Inductive Attributes (V : Type) :=
| AttrNil
| AttrMap (m : gmap string V)
| AttrOther (v : V).
Arguments AttrNil {V}. Arguments AttrMap {V} m. Arguments AttrOther {V} v.

(** the struct stored in Dynamo *)
Record resourceItem (V : Type) := {
  riAttributes : Attributes V;
  riDeleted : bool;
  riID : string;
  riIntegrationID : string;
  riIntegrationType : string;
  riLastModified : Time;
  riType : string;
  riExpiresAt : Z;
  riLowerID : string
}.
Arguments riAttributes {V}. Arguments riDeleted {V}. Arguments riID {V}. Arguments riIntegrationID {V}.
Arguments riIntegrationType {V}. Arguments riLastModified {V}. Arguments riType {V}.
Arguments riExpiresAt {V}. Arguments riLowerID {V}.

(** models.Resource *)
Record Resource (V : Type) := {
  reAttributes : Attributes V;
  reComplianceStatus : string;
  reDeleted : bool;
  reID : string;
  reIntegrationID : string;
  reIntegrationType : string;
  reLastModified : Time;
  reType : string
}.
Arguments reAttributes {V}. Arguments reComplianceStatus {V}. Arguments reDeleted {V}. Arguments reID {V}.
Arguments reIntegrationID {V}. Arguments reIntegrationType {V}. Arguments reLastModified {V}.
Arguments reType {V}.

(** resourceItem.Resource *)
Definition to_Resource {V} (status : string) (r : resourceItem V) : Resource V :=
  {| reAttributes := riAttributes r; reComplianceStatus := status; reDeleted := riDeleted r; reID := riID r;
     reIntegrationID := riIntegrationID r; reIntegrationType := riIntegrationType r;
     reLastModified := riLastModified r; reType := riType r |}.

(** models.Paging and models.ResourceList *)
Record Paging := { pgThisPage : Z; pgTotalItems : Z; pgTotalPages : Z }.
Record ResourceList (V : Type) := { rlPaging : Paging; rlResources : list (Resource V) }.
Arguments rlPaging {V}. Arguments rlResources {V}.

Record ResourceTypeSummary := { rtCount : Z; rtType : string }.

Inductive payload (V : Type) :=
| PEmpty
| PError (e : error)
| PResource (r : Resource V)
| PList (l : ResourceList V)
| POverview (l : list ResourceTypeSummary).
Arguments PEmpty {V}. Arguments PError {V} e. Arguments PResource {V} r. Arguments PList {V} l.
Arguments POverview {V} l.

(** events.APIGatewayProxyResponse *)
Record proxyResponse (V : Type) := { prStatusCode : Z; prBody : payload V }.
Arguments prStatusCode {V}. Arguments prBody {V}.

Definition status_only {V} (n : Z) : proxyResponse V := {| prStatusCode := n; prBody := PEmpty |}.

(** ** Requests for a list *)

Definition validSortFields : list string := ["complianceStatus"; "id"; "lastModified"; "type"].

Definition defaultFields : list string :=
  ["complianceStatus"; "deleted"; "id"; "integrationId"; "integrationType"; "lastModified"; "type"].

(** operations.ListResourcesParams; the last four have defaults *)
Record ListResourcesParams := {
  lpComplianceStatus : option string;
  lpDeleted : option bool;
  lpIDContains : option string;
  lpIntegrationID : option string;
  lpIntegrationType : option string;
  lpTypes : list string;
  lpFields : list string;
  lpSortBy : string;
  lpSortDir : string;
  lpPageSize : Z;
  lpPage : Z
}.

(** strconv.ParseInt(s, 10, 64) *)
Definition ParseInt64 (s : string) : result Z :=
  match atoi s with Err (ErrNum _ i r) => Err (ErrNum "ParseInt" i r) | x => x end.

(** a parameter that is set: [f] of its text *)
Definition optional {A} (s : string) (f : string → result A) : result (option A) :=
  if decide (s = "") then Ok None else a ← f s; Ok (Some a).

Definition validated (pre : string) (validate : string → option error) (s : string) : result string :=
  match validate s with Some e => Err (ErrText pre e) | None => Ok s end.

Definition positive (pre msg s : string) : result Z :=
  n ← or_prefix pre (ParseInt64 s); if decide (n < 1) then Err (ErrMsg msg) else Ok n.

(** the loop over the requested types, which only checks them *)
Fixpoint check_types (i : Z) (types : list string) : result unit :=
  match types with
  | [] => Ok tt
  | rawType :: types =>
      match QueryUnescape rawType with
      | Err e => Err (ErrText ("invalid resourceType[" +:+ itoa i +:+ "] " +:+ rawType +:+ ": ") e)
      | Ok _ => check_types (i + 1) types
      end
  end.

Definition comma : ascii := ","%char.

Section Parse.
Context (validateIntegrationID validateIntegrationType : string → option error).

Definition parseListResources (query : gmap string string) : result ListResourcesParams :=
  status ← optional (param query "complianceStatus") (validated "invalid complianceStatus: " validateStatus);
  deleted ← optional (param query "deleted") (λ s, or_prefix "invalid deleted: " (ParseBool s));
  contains ← optional (param query "idContains")
    (λ s, v ← or_prefix "invalid idContains: " (QueryUnescape s); Ok (to_lower v));
  integrationID ← optional (param query "integrationId") (validated "invalid integrationId: " validateIntegrationID);
  integrationType ← optional (param query "integrationType")
    (validated "invalid integrationType: " validateIntegrationType);
  let types := param query "types" in
  types ← (if decide (types = "") then Ok []
           else _ ← check_types 0 (split_on comma types); Ok (split_on comma types));
  let fields := param query "fields" in
  let fields := if decide (fields = "") then defaultFields
                else filter (λ field, field ≠ "") (split_on comma fields) in
  sortBy ← optional (param query "sortBy")
    (λ s, if decide (s ∈ validSortFields) then Ok s else Err (ErrMsg ("invalid sortBy: " +:+ s)));
  sortDir ← optional (param query "sortDir")
    (λ s, if decide (s ≠ "ascending" ∧ s ≠ "descending")
          then Err (ErrMsg "invalid sortDir: must be ascending or descending") else Ok s);
  pageSize ← optional (param query "pageSize") (positive "invalid pageSize: " "invalid pageSize: must be positive");
  page ← optional (param query "page") (positive "invalid page: " "invalid pageSize: must be positive");
  Ok {| lpComplianceStatus := status; lpDeleted := deleted; lpIDContains := contains;
        lpIntegrationID := integrationID; lpIntegrationType := integrationType; lpTypes := types;
        lpFields := fields; lpSortBy := default "id" sortBy; lpSortDir := default "ascending" sortDir;
        lpPageSize := default 25 pageSize; lpPage := default 1 page |}.
End Parse.

(** ** Filters and projections *)

(** the terms of the expression package that are used *)
Inductive Value := VBool (b : bool) | VStr (s : string) | VSet (l : list string).

Inductive Condition :=
| AttributeExists (name : string)
| AttributeNotExists (name : string)
| Equal (name : string) (v : Value)
| Contains (name : string) (s : string)
| And (a b : Condition)
| Or (a b : Condition).

Record ScanInput := { siFilter : Condition; siProjection : list string }.

(** expression.NamesList starts a projection, AddNames extends one *)
Fixpoint projection_names (i : nat) (projection fields : list string) : list string :=
  match fields with
  | [] => projection
  | field :: fields =>
      projection_names (S i)
        (if decide (field = "complianceStatus") then projection
         else if decide (i = 0%nat) then [field] else projection ++ [field]) fields
  end.

Definition and_opt {A} (f : A → Condition) (o : option A) (filter : Condition) : Condition :=
  match o with Some a => And filter (f a) | None => filter end.

Definition type_filter (types : list string) (filter : Condition) : Condition :=
  match types with
  | [] => filter
  | t :: types =>
      And filter (foldl (λ c t, Or c (Equal "type" (VStr t))) (Equal "type" (VStr t)) types)
  end.

Definition list_filter (params : ListResourcesParams) : Condition :=
  let filter := AttributeExists "type" in
  let filter := and_opt (λ b, Equal "deleted" (VBool b)) (lpDeleted params) filter in
  let filter := and_opt (Contains "lowerId") (lpIDContains params) filter in
  let filter := and_opt (λ s, Equal "integrationId" (VStr s)) (lpIntegrationID params) filter in
  let filter := and_opt (λ s, Equal "integrationType" (VStr s)) (lpIntegrationType params) filter in
  type_filter (lpTypes params) filter.

(** ** The cache of compliance status *)

Definition complianceCacheDuration : Z := 3 * Second.

Record complianceStatus := { csSortIndex : Z; csStatus : string }.
Record complianceCacheEntry := { ccExpiresAt : Time; ccResources : gmap string complianceStatus }.

(** the process: the cache and how often the clock was read *)
Record apiState := { complianceCache : option complianceCacheEntry; clock : nat }.

Section Cache.
(** the readings of the clock, and what DescribeOrg answers between them: the
    identifiers (pointers) and status of all resources, the top failing first *)
Context (now : nat → Time) (DescribeOrg : nat → result (list (option string * string))).

Fixpoint cache_resources (i : Z) (l : list (option string * string)) (m : gmap string complianceStatus)
    : outcome (gmap string complianceStatus) :=
  match l with
  | [] => Ret m
  | (id, status) :: l =>
      id ← deref id; cache_resources (i + 1) l (<[id := {| csSortIndex := i; csStatus := status |}]> m)
  end.

Definition load_compliance (st : apiState) : outcome (apiState * result complianceCacheEntry) :=
  match DescribeOrg (clock st) with
  | Err e => Ret (st, Err e)
  | Ok payload =>
      resources ← cache_resources 0 payload ∅;
      let entry := {| ccExpiresAt := now (clock st) + complianceCacheDuration; ccResources := resources |} in
      Ret ({| complianceCache := Some entry; clock := S (clock st) |}, Ok entry)
  end.

Definition getOrgCompliance (st : apiState) : outcome (apiState * result complianceCacheEntry) :=
  match complianceCache st with
  | Some entry =>
      let st' := {| complianceCache := complianceCache st; clock := S (clock st) |} in
      if After (ccExpiresAt entry) (now (clock st)) then Ret (st', Ok entry) else load_compliance st'
  | None => load_compliance st
  end.

(** the status of a resource in the cache *)
Definition status_in (resources : gmap string complianceStatus) (id : string) : complianceStatus :=
  default {| csSortIndex := -1; csStatus := StatusPASS |} (resources !! id).

Definition getComplianceStatus (st : apiState) (resourceID : string)
    : outcome (apiState * result complianceStatus) :=
  '(st, r) ← getOrgCompliance st;
  Ret (st, match r with Err e => Err e | Ok entry => Ok (status_in (ccResources entry) resourceID) end).
End Cache.

(** ** Sorting and paging *)

(** map lookup: any other status gets the zero value *)
Definition statusSortPriority (status : string) : Z :=
  if decide (status = StatusPASS) then 1 else if decide (status = StatusFAIL) then 2
  else if decide (status = StatusERROR) then 3 else 0.

(** [x < y], or [x > y] when not ascending *)
Definition str_less (ascending : bool) (x y : string) : bool := if ascending then sltb x y else sltb y x.
Definition int_less (ascending : bool) (x y : Z) : bool :=
  if ascending then bool_decide (x < y) else bool_decide (y < x).

Section Sort.
Context {V : Type} (dateString : Time → string).    (* strfmt.DateTime.String *)
Implicit Types left right : Resource V.

Definition less_by_id (ascending : bool) left right : bool := str_less ascending (reID left) (reID right).

Definition less_by_time (ascending : bool) left right : bool :=
  let leftTime := dateString (reLastModified left) in
  let rightTime := dateString (reLastModified right) in
  if decide (leftTime ≠ rightTime) then str_less ascending leftTime rightTime
  else less_by_id ascending left right.

Definition less_by_type (ascending : bool) left right : bool :=
  if decide (reType left ≠ reType right) then str_less ascending (reType left) (reType right)
  else less_by_id ascending left right.

Definition less_by_status (resourceStatus : gmap string complianceStatus) (ascending : bool) left right
    : outcome bool :=
  if decide (reComplianceStatus left ≠ reComplianceStatus right) then
    Ret (int_less ascending (statusSortPriority (reComplianceStatus left))
           (statusSortPriority (reComplianceStatus right)))
  else if decide (reComplianceStatus left = StatusERROR ∨ reComplianceStatus left = StatusFAIL) then
    l ← deref (resourceStatus !! reID left);
    r ← deref (resourceStatus !! reID right);
    Ret (int_less (negb ascending) (csSortIndex l) (csSortIndex r))
  else Ret (less_by_id ascending left right).

Definition sortResources (st : apiState) (resources : list (Resource V)) (sortBy : string) (ascending : bool)
    : outcome (list (Resource V)) :=
  if decide (length resources ≤ 1)%nat then Ret resources
  else if decide (sortBy = "complianceStatus") then
    cache ← deref (complianceCache st);
    sort_slice_outcome (less_by_status (ccResources cache) ascending) resources
  else if decide (sortBy = "lastModified") then
    sort_slice_outcome (λ l r, Ret (less_by_time ascending l r)) resources
  else if decide (sortBy = "type") then
    sort_slice_outcome (λ l r, Ret (less_by_type ascending l r)) resources
  else sort_slice_outcome (λ l r, Ret (less_by_id ascending l r)) resources.

Definition intMin (x y : Z) : Z := if decide (x < y) then x else y.

(** [l[lower:upper]] with [upper] at most the length *)
Definition slice {A} (l : list A) (lower upper : Z) : outcome (list A) :=
  if decide (0 ≤ lower ∧ lower ≤ upper) then Ret (take (Z.to_nat (upper - lower)) (drop (Z.to_nat lower) l))
  else Panic "slice bounds out of range".

Definition pageResources (resources : list (Resource V)) (pageSize page : Z) : outcome (ResourceList V) :=
  let n := Z.of_nat (length resources) in
  if decide (n = 0) then
    Ret {| rlPaging := {| pgThisPage := 0; pgTotalItems := 0; pgTotalPages := 0 |}; rlResources := [] |}
  else if decide (pageSize = 0) then Panic "integer divide by zero"
  else
    let totalPages := Z.quot n pageSize in
    let totalPages := if decide (0 < Z.rem n pageSize) then totalPages + 1 else totalPages in
    let lowerBound := intMin (int64 (int64 (page - 1) * pageSize)) n in
    let upperBound := intMin (int64 (page * pageSize)) n in
    l ← slice resources lowerBound upperBound;
    Ret {| rlPaging := {| pgThisPage := page; pgTotalItems := n; pgTotalPages := totalPages |};
           rlResources := l |}.
End Sort.

(** ** Scans: a handler is run on every item of every page, until it fails *)

Section Scan.
Context {X Raw St : Type} (UnmarshalPage : Raw → result (list X)).
Context (handler : St → X → outcome (St * option error)).

Fixpoint handle_page (st : St) (items : list X) : outcome (St * option error) :=
  match items with
  | [] => Ret (st, None)
  | item :: items =>
      '(st, err) ← handler st item;
      match err with Some e => Ret (st, Some e) | None => handle_page st items end
  end.

Fixpoint scan_loop (st : St) (pages : list Raw) (err : option error) : outcome (St * option error) :=
  match pages with
  | [] => Ret (st, err)
  | page :: pages =>
      match UnmarshalPage page with
      | Err e => Ret (st, Some e)
      | Ok items =>
          '(st, e) ← handle_page st items;
          match e with Some e => Ret (st, Some e) | None => scan_loop st pages err end
      end
  end.
End Scan.

(** ** The handlers *)

Record AddResourceEntry (V : Type) := {
  aeAttributes : Attributes V; aeID : string; aeIntegrationID : string; aeIntegrationType : string;
  aeType : string
}.
Arguments aeAttributes {V}. Arguments aeID {V}. Arguments aeIntegrationID {V}.
Arguments aeIntegrationType {V}. Arguments aeType {V}.

(** what an update of an item sets *)
Record Update := { upDeleted : bool; upExpiresAt : Z }.

Definition ErrCodeConditionalCheckFailed : string := "ConditionalCheckFailedException".
Definition deleteWindowSecs : Z := 30 * 24 * 60 * 60.

Section Handlers.
Context {V : Type} (now : nat → Time) (DescribeOrg : nat → result (list (option string * string))).
Context (dateString : Time → string) (MarshalToString : payload V → result string).
Context (validateResourceID validateIntegrationID validateIntegrationType : string → option error).

Definition MarshalResponse (body : payload V) (statusCode : Z) : proxyResponse V :=
  match MarshalToString body with
  | Err _ => status_only 500
  | Ok _ => {| prStatusCode := statusCode; prBody := body |}
  end.

Definition badRequest (e : error) : proxyResponse V := MarshalResponse (PError e) 400.

(** *** Scans: [D] is the state of the table, [Raw] a page of raw items *)
Context {D Raw : Type} (Build : Condition → list string → option error).
Context (ScanPages : D → ScanInput → list Raw * option error)
        (UnmarshalPage : Raw → result (list (resourceItem V))).

Definition buildListScan (params : ListResourcesParams) : result ScanInput :=
  let projection := projection_names 0 [] (lpFields params) in
  match Build (list_filter params) projection with
  | Some e => Err e
  | None => Ok {| siFilter := list_filter params; siProjection := projection |}
  end.

Definition scanPages {St} (d : D) (input : ScanInput)
    (handler : St → resourceItem V → outcome (St * option error)) (st : St) : outcome (St * option error) :=
  let '(pages, err) := ScanPages d input in scan_loop UnmarshalPage handler st pages err.

(** the handler of ListResources: the process and the resources so far *)
Definition list_item (params : ListResourcesParams) (s : apiState * list (Resource V)) (item : resourceItem V)
    : outcome (apiState * list (Resource V) * option error) :=
  let '(st, result) := s in
  if decide ("complianceStatus" ∉ lpFields params) then Ret (st, result ++ [to_Resource "" item], None)
  else
    '(st, status) ← getComplianceStatus now DescribeOrg st (riID item);
    match status with
    | Err e => Ret (st, result, Some e)
    | Ok status =>
        if match lpComplianceStatus params with Some s => bool_decide (s ≠ csStatus status) | None => false end
        then Ret (st, result, None)
        else Ret (st, result ++ [to_Resource (csStatus status) item], None)
    end.

Definition listFilteredResources (d : D) (input : ScanInput) (params : ListResourcesParams) (st : apiState)
    : outcome (apiState * list (Resource V) * option error) :=
  scanPages d input (list_item params) (st, []).

Definition ListResources (d : D) (query : gmap string string) (st : apiState)
    : outcome (apiState * proxyResponse V) :=
  match parseListResources validateIntegrationID validateIntegrationType query with
  | Err e => Ret (st, badRequest e)
  | Ok params =>
      match buildListScan params with
      | Err _ => Ret (st, status_only 500)
      | Ok scanInput =>
          '(st, resources, err) ← listFilteredResources d scanInput params st;
          match err with
          | Some _ => Ret (st, status_only 500)
          | None =>
              resources ← sortResources dateString st resources (lpSortBy params)
                            (bool_decide (lpSortDir params ≠ "descending"));
              result ← pageResources resources (lpPageSize params) (lpPage params);
              Ret (st, MarshalResponse (PList result) 200)
          end
      end
  end.

(** *** OrgOverview; [order] is the order in which the map is iterated *)
Context (order : list (string * Z) → list (string * Z)).

Definition buildOrgOverviewScan : result ScanInput :=
  let filter := Equal "deleted" (VBool false) in
  match Build filter ["type"] with
  | Some e => Err e
  | None => Ok {| siFilter := filter; siProjection := ["type"] |}
  end.

Definition count_type (m : gmap string Z) (item : resourceItem V) : gmap string Z :=
  <[riType item := int64 (default 0 (m !! riType item) + 1)]> m.

Definition OrgOverview (d : D) : outcome (proxyResponse V) :=
  match buildOrgOverviewScan with
  | Err _ => Ret (status_only 500)
  | Ok scanInput =>
      '(m, err) ← scanPages d scanInput (λ m item, Ret (count_type m item, None)) ∅;
      match err with
      | Some _ => Ret (status_only 500)
      | None =>
          Ret (MarshalResponse (POverview
                 ((λ kv, {| rtCount := kv.2; rtType := kv.1 |}) <$> order (map_to_list m))) 200)
      end
  end.

(** *** GetResource; [None]: an item without attributes *)
Context {RawItem : Type} (GetItem : D → string → result (option RawItem))
        (UnmarshalMap : RawItem → result (resourceItem V)).

Definition parseGetResource (query : gmap string string) : result string :=
  escaped ← or_prefix "invalid resourceId: " (QueryUnescape (param query "resourceId"));
  validated "invalid resourceId: " validateResourceID escaped.

Definition GetResource (d : D) (query : gmap string string) (st : apiState)
    : outcome (apiState * proxyResponse V) :=
  match parseGetResource query with
  | Err e => Ret (st, badRequest e)
  | Ok resourceID =>
      match GetItem d resourceID with
      | Err _ => Ret (st, status_only 500)
      | Ok None => Ret (st, status_only 404)
      | Ok (Some raw) =>
          match UnmarshalMap raw with
          | Err _ => Ret (st, status_only 500)
          | Ok item =>
              '(st, status) ← getComplianceStatus now DescribeOrg st resourceID;
              match status with
              | Err _ => Ret (st, status_only 500)
              | Ok status => Ret (st, MarshalResponse (PResource (to_Resource (csStatus status) item)) 200)
              end
          end
      end
  end.

(** *** DeleteResources; [C] is the state of the compliance API *)
Context {C : Type} (BuildUpdate : string → Update → option error)
        (UpdateItem : D → string → Update → D * option error)
        (DeleteStatus : C → list DeleteStatusEntry → C * option error).
Context (UnmarshalDelete : string → result (list string)) (validateDelete : list string → option error).

(** the update has the condition that the item exists *)
Definition doUpdate (d : D) (update : Update) (resourceID : string) : D * proxyResponse V :=
  match BuildUpdate resourceID update with
  | Some _ => (d, status_only 500)
  | None =>
      match UpdateItem d resourceID update with
      | (d, None) => (d, status_only 200)
      | (d, Some (ErrAWS code _)) =>
          if decide (code = ErrCodeConditionalCheckFailed) then (d, status_only 404) else (d, status_only 500)
      | (d, Some _) => (d, status_only 500)
      end
  end.

Definition parseDeleteResources (body : string) : result (list string) :=
  ids ← UnmarshalDelete body; match validateDelete ids with Some e => Err e | None => Ok ids end.

(** the loop over the resources; the response when it stops early *)
Fixpoint mark_deleted (d : D) (update : Update) (ids : list string) : D * option (proxyResponse V) :=
  match ids with
  | [] => (d, None)
  | id :: ids =>
      let '(d, response) := doUpdate d update id in
      if decide (prStatusCode response = 200 ∨ prStatusCode response = 404) then mark_deleted d update ids
      else (d, Some response)
  end.

Definition DeleteResources (d : D) (c : C) (body : string) (st : apiState)
    : D * C * apiState * proxyResponse V :=
  match parseDeleteResources body with
  | Err e => (d, c, st, badRequest e)
  | Ok ids =>
      let update := {| upDeleted := true; upExpiresAt := int64 (ToUnix (now (clock st)) + deleteWindowSecs) |} in
      let st := {| complianceCache := complianceCache st; clock := S (clock st) |} in
      match mark_deleted d update ids with
      | (d, Some response) => (d, c, st, response)
      | (d, None) =>
          match DeleteStatus c ((λ id, {| dePolicy := None; deResource := Some id |}) <$> ids) with
          | (c, Some _) => (d, c, st, status_only 500)
          | (c, None) => (d, c, st, status_only 200)
          end
      end
  end.

(** *** AddResources; [M] is a marshalled item, [Q] the state of the queue *)
Context {M Q : Type} {backoff : Backoff} (ResourcesTable : string).
Context (client_BatchWriteItem : D → gmap string (list M) → D * result (gmap string (list M)))
        (client_SendMessageBatch : Q → list Entry → Q * result SendMessageBatchOutput).
Context (UnmarshalAdd : string → result (list (option (AddResourceEntry V))))
        (validateAdd : list (AddResourceEntry V) → option error).
Context (MarshalMap : resourceItem V → result M) (MarshalBody : Resource V → result string)
        (MarshalLookup : string → result string).

(** the entries, or the error of the first one without attributes; attributes
    that are not an object and null entries panic *)
Fixpoint check_attributes (i : Z) (l : list (option (AddResourceEntry V)))
    : outcome (result (list (AddResourceEntry V))) :=
  match l with
  | [] => Ret (Ok [])
  | r :: l =>
      r ← deref r;
      match aeAttributes r with
      | AttrMap m =>
          if decide (m = ∅) then Ret (Err (ErrMsg ("resources[" +:+ itoa i +:+ "].attributes cannot be empty")))
          else rest ← check_attributes (i + 1) l;
               Ret (match rest with Ok rest => Ok (r :: rest) | Err e => Err e end)
      | _ => Panic "interface conversion"
      end
  end.

Definition parseAddResources (body : string) : outcome (result (list (AddResourceEntry V))) :=
  match UnmarshalAdd body with
  | Err e => Ret (Err e)
  | Ok l =>
      r ← check_attributes 0 l;
      Ret (match r with
           | Err e => Err e
           | Ok entries => match validateAdd entries with Some e => Err e | None => Ok entries end
           end)
  end.

Definition item_of (t : Time) (r : AddResourceEntry V) : resourceItem V :=
  {| riAttributes := aeAttributes r; riDeleted := false; riID := aeID r; riIntegrationID := aeIntegrationID r;
     riIntegrationType := aeIntegrationType r; riLastModified := t; riType := aeType r; riExpiresAt := 0;
     riLowerID := to_lower (aeID r) |}.

Definition message (i : nat) (body : string) : Entry :=
  {| Id := Some (itoa (Z.of_nat i)); MessageBody := Some body; DelaySeconds := None |}.

Fixpoint add_entries (t : Time) (i : nat) (l : list (AddResourceEntry V)) : result (list M * list Entry) :=
  match l with
  | [] => Ok ([], [])
  | r :: l =>
      m ← MarshalMap (item_of t r);
      body ← MarshalBody (to_Resource "" (item_of t r));
      '(ms, es) ← add_entries t (S i) l;
      Ok (m :: ms, message i body :: es)
  end.

(** [input.Resources[i]] *)
Definition index {A} (l : list A) (i : Z) : outcome A :=
  if decide (0 ≤ i) then
    match l !! Z.to_nat i with Some x => Ret x | None => Panic "index out of range" end
  else Panic "index out of range".

(** [None]: answered with status 500 *)
Fixpoint lookup_entries (input : list (AddResourceEntry V)) (i : nat) (bigMessages : list Entry)
    : outcome (option (list Entry)) :=
  match bigMessages with
  | [] => Ret (Some [])
  | msg :: bigMessages =>
      id ← deref (Id msg);
      match atoi id with
      | Err _ => Ret None
      | Ok inputIndex =>
          r ← index input inputIndex;
          match MarshalLookup (aeID r) with
          | Err _ => Ret None
          | Ok body =>
              rest ← lookup_entries input (S i) bigMessages;
              Ret (match rest with Some es => Some (message i body :: es) | None => None end)
          end
      end
  end.

Definition handleBigMessages (q : Q) (bigMessages : list Entry) (input : list (AddResourceEntry V))
    : outcome (Q * proxyResponse V) :=
  sqsRetries ← lookup_entries input 0 bigMessages;
  match sqsRetries with
  | None => Ret (q, status_only 500)
  | Some sqsRetries =>
      '(r, _, err) ← SendMessageBatch client_SendMessageBatch q sqsRetries;
      Ret (Sqsbatch.world r, match err with Some _ => status_only 500 | None => status_only 201 end)
  end.

Definition AddResources (d : D) (q : Q) (body : string) (st : apiState)
    : outcome (D * Q * apiState * proxyResponse V) :=
  input ← parseAddResources body;
  match input with
  | Err e => Ret (d, q, st, badRequest e)
  | Ok input =>
      let t := now (clock st) in
      let st := {| complianceCache := complianceCache st; clock := S (clock st) |} in
      match add_entries t 0 input with
      | Err _ => Ret (d, q, st, status_only 500)
      | Ok (writeRequests, sqsEntries) =>
          '(r, err) ← Dynamodbbatch.BatchWriteItem client_BatchWriteItem d [(ResourcesTable, writeRequests)];
          let d := Dynamodbbatch.world r in
          match err with
          | Some _ => Ret (d, q, st, status_only 500)
          | None =>
              '(r, failures, err) ← SendMessageBatch client_SendMessageBatch q sqsEntries;
              let q := Sqsbatch.world r in
              match err with
              | None => Ret (d, q, st, status_only 201)
              | Some e =>
                  if decide (errText e = ErrCodeBatchRequestTooLong) then
                    '(q, response) ← handleBigMessages q failures input;
                    Ret (d, q, st, response)
                  else Ret (d, q, st, status_only 500)
              end
          end
      end
  end.
End Handlers.
