(* ===== verification/ResourcesApiSpec.v ===== *)
(** * Resources API: what it promises

    The table as DynamoDB documents it ([ResourceTable]), the reference
    meaning of a request for a list, and the theorems about the handlers of
    [ResourcesApi]. *)

From S2P Require Import Prelude GoStrings GoTime GoSort GoPath Compliance ComplianceHandlers Backoff.
From S2P Require Import Dynamodbbatch Sqsbatch AlertOutputs ResourcesApi.

#[local] Open Scope Z_scope.

(** ** DynamoDB *)

(** the attributes of an item that a filter can name *)
Definition attribute {V} (item : resourceItem V) (name : string) : option Value :=
  if decide (name = "deleted") then Some (VBool (riDeleted item))
  else if decide (name = "id") then Some (VStr (riID item))
  else if decide (name = "integrationId") then Some (VStr (riIntegrationID item))
  else if decide (name = "integrationType") then Some (VStr (riIntegrationType item))
  else if decide (name = "type") then Some (VStr (riType item))
  else if decide (name = "lowerId") then Some (VStr (riLowerID item))
  else None.

#[export] Instance Value_eq_dec : EqDecision Value.
Proof. solve_decision. Defined.

(** the documented meaning of a filter expression on an item whose attributes
    are [attr]: a string contains a substring, a set an element *)
Fixpoint holds (attr : string → option Value) (c : Condition) : bool :=
  match c with
  | AttributeExists name => bool_decide (is_Some (attr name))
  | AttributeNotExists name => negb (bool_decide (is_Some (attr name)))
  | Equal name v => bool_decide (attr name = Some v)
  | Contains name s =>
      match attr name with
      | Some (VStr t) => contains s t
      | Some (VSet l) => bool_decide (s ∈ l)
      | _ => false
      end
  | And a b => holds attr a && holds attr b
  | Or a b => holds attr a || holds attr b
  end.

Definition sat {V} (c : Condition) (item : resourceItem V) : bool := holds (attribute item) c.

(** an item reduced to some attributes: the others unmarshal to zero values *)
Definition project {V} (names : list string) (item : resourceItem V) : resourceItem V :=
  let get {A} name (a zero : A) := if decide (name ∈ names) then a else zero in
  {| riAttributes := get "attributes" (riAttributes item) AttrNil;
     riDeleted := get "deleted" (riDeleted item) false;
     riID := get "id" (riID item) "";
     riIntegrationID := get "integrationId" (riIntegrationID item) "";
     riIntegrationType := get "integrationType" (riIntegrationType item) "";
     riLastModified := get "lastModified" (riLastModified item) 0;
     riType := get "type" (riType item) "";
     riExpiresAt := get "expiresAt" (riExpiresAt item) 0;
     riLowerID := get "lowerId" (riLowerID item) "" |}.

(** What the handlers rely on: a scan that ends without an error delivers, in
    pages and in any order, exactly the items that satisfy the filter, reduced
    to the projection; identifiers are keys. *)
Class ResourceTable {V D Raw : Type} (items : D → list (resourceItem V))
    (ScanPages : D → ScanInput → list Raw * option error)
    (UnmarshalPage : Raw → result (list (resourceItem V))) : Prop := {
  items_keys : ∀ d, NoDup (riID <$> items d);
  scan_ok : ∀ d input pages, ScanPages d input = (pages, None) →
    ∃ found, Forall2 (λ page l, UnmarshalPage page = Ok l) pages found ∧
      concat found ≡ₚ project (siProjection input) <$> filter (λ i, sat (siFilter input) i = true) (items d)
}.

(** ** The cache *)

Section CacheSpec.
Context (now : nat → Time) (DescribeOrg : nat → result (list (option string * string))).

(** the entry was loaded when the clock had been read [k] times *)
Definition loaded_at (k : nat) (e : complianceCacheEntry) : Prop :=
  ∃ payload, DescribeOrg k = Ok payload ∧ cache_resources 0 payload ∅ = Ret (ccResources e) ∧
    ccExpiresAt e = now k + complianceCacheDuration.

Definition cache_inv (st : apiState) : Prop :=
  ∀ e, complianceCache st = Some e → ∃ k, (k < clock st)%nat ∧ loaded_at k e.

Lemma load_compliance_fresh st st' r :
  load_compliance now DescribeOrg st = Ret (st', r) → cache_inv st →
  cache_inv st' ∧ ∀ e, r = Ok e → loaded_at (clock st) e ∧ clock st' = S (clock st).
Proof.
  unfold load_compliance. intros H Hi. destruct (DescribeOrg (clock st)) as [payload|e] eqn:E; [|by simplify_eq].
  destruct (cache_resources 0 payload ∅) as [m|w] eqn:Em; [|done]. revert H. run. intros [= <- <-].
  assert (loaded_at (clock st) {| ccExpiresAt := now (clock st) + complianceCacheDuration; ccResources := m |})
    as Hl by by exists payload.
  split; [|by intros e [= <-]]. intros e [= <-]. exists (clock st). split; [cbn; lia|done].
Qed.

(** the status a handler sees is never older than the cache allows: every
    answer of getComplianceStatus comes from one answer of the compliance API
    that was obtained less than three seconds before the last look at the
    clock, and a resource the compliance API does not list is passing; failed
    loads never enter the cache. *)
Theorem compliance_cache_fresh st id st' status :
  (∀ i j, (i ≤ j)%nat → now i ≤ now j) → cache_inv st →
  getComplianceStatus now DescribeOrg st id = Ret (st', Ok status) →
  cache_inv st' ∧ ∃ k j e, (k ≤ j)%nat ∧ (j < clock st')%nat ∧ loaded_at k e ∧
    now j < now k + complianceCacheDuration ∧ status = status_in (ccResources e) id.
Proof.
  intros Hmono Hi. unfold getComplianceStatus, getOrgCompliance.
  assert (∀ s r, cache_inv s → load_compliance now DescribeOrg s = Ret (st', r) →
    match r with Err e => Err e | Ok entry => Ok (status_in (ccResources entry) id) end = Ok status →
    cache_inv st' ∧ ∃ k j e, (k ≤ j)%nat ∧ (j < clock st')%nat ∧ loaded_at k e ∧
    now j < now k + complianceCacheDuration ∧ status = status_in (ccResources e) id) as Hload.
  { intros s r His Hs Hr. destruct (load_compliance_fresh _ _ _ Hs His) as [Hi' He].
    split; [done|]. destruct r as [e|]; [|done]. destruct (He e) as [Hl Hc]; [done|].
    exists (clock s), (clock s), e. split_and!; [lia|lia|done| |by simplify_eq].
    unfold complianceCacheDuration, Second. lia. }
  destruct (complianceCache st) as [e|] eqn:Ec; run.
  2:{ destruct (load_compliance now DescribeOrg st) as [[s r]|] eqn:El; [|done]. run.
      intros [= -> Hr]. by eapply Hload. }
  destruct (After _ _) eqn:Ea; run.
  - intros [= <- <-]. apply Z.ltb_lt in Ea. destruct (Hi e Ec) as (k&Hk&Hl). split.
    + intros e' [= <-]. exists k. split; [cbn; lia|done].
    + exists k, (clock st), e. split_and!; [lia|cbn; lia|done| |done]. by destruct Hl as (?&_&_&<-).
  - destruct (load_compliance now DescribeOrg _) as [[s r]|] eqn:El; [|done]. run.
    intros [= -> Hr]. eapply Hload; [|exact El|done]. intros e' [= <-].
    destruct (Hi e Ec) as (k&Hk&Hl). exists k. split; [cbn; lia|done].
Qed.
End CacheSpec.

(** ** Filters *)

Definition agrees {A} (o : option A) (P : A → bool) : bool := match o with Some a => P a | None => true end.

(** the items a request asks for, its compliance status aside *)
Definition wanted {V} (params : ListResourcesParams) (item : resourceItem V) : bool :=
  agrees (lpDeleted params) (λ b, bool_decide (riDeleted item = b)) &&
  agrees (lpIDContains params) (λ s, contains s (riLowerID item)) &&
  agrees (lpIntegrationID params) (λ s, bool_decide (riIntegrationID item = s)) &&
  agrees (lpIntegrationType params) (λ s, bool_decide (riIntegrationType item = s)) &&
  (bool_decide (lpTypes params = []) || bool_decide (riType item ∈ lpTypes params)).

Lemma holds_str attr name t s :
  attr name = Some (VStr t) → holds attr (Equal name (VStr s)) = bool_decide (t = s).
Proof. intros H. cbn [holds]. rewrite H. apply bool_decide_ext. naive_solver. Qed.

Lemma holds_bool attr name b b' :
  attr name = Some (VBool b) → holds attr (Equal name (VBool b')) = bool_decide (b = b').
Proof. intros H. cbn [holds]. rewrite H. apply bool_decide_ext. naive_solver. Qed.

Lemma holds_and_opt {A} attr (f : A → Condition) o c P :
  (∀ a, holds attr (f a) = P a) → holds attr (and_opt f o c) = holds attr c && agrees o P.
Proof. intros Hf. destruct o; cbn; [by rewrite Hf|by rewrite andb_true_r]. Qed.

Lemma sat_types {V} (item : resourceItem V) types c :
  sat (foldl (λ c t, Or c (Equal "type" (VStr t))) c types) item = sat c item || bool_decide (riType item ∈ types).
Proof.
  revert c. induction types as [|t types IH]; intros c; cbn [foldl].
  { rewrite bool_decide_false by set_solver. by rewrite orb_false_r. }
  rewrite IH. change (sat (Or c ?x) item) with (sat c item || sat x item).
  unfold sat at 2. rewrite (holds_str _ "type" (riType item)) by done. rewrite <-orb_assoc. f_equal.
  rewrite <-bool_decide_or. apply bool_decide_ext. set_solver.
Qed.

Lemma sat_type_filter {V} (item : resourceItem V) types c :
  sat (type_filter types c) item =
  sat c item && (bool_decide (types = []) || bool_decide (riType item ∈ types)).
Proof.
  destruct types as [|t types]; cbn [type_filter].
  { rewrite (bool_decide_true ([] = [])) by done. by rewrite andb_true_r. }
  change (sat (And c ?x) item) with (sat c item && sat x item). f_equal.
  rewrite sat_types. unfold sat. rewrite (holds_str _ "type" (riType item)) by done.
  rewrite (bool_decide_false (_ = [])) by done. cbn [orb].
  rewrite <-bool_decide_or. apply bool_decide_ext. set_solver.
Qed.

Lemma sat_list_filter {V} params (item : resourceItem V) : sat (list_filter params) item = wanted params item.
Proof.
  unfold list_filter, wanted. rewrite sat_type_filter. f_equal.
  unfold sat.
  do 4 (erewrite holds_and_opt; [|intros; first [by apply holds_str | by apply holds_bool | reflexivity]]).
  cbn [holds]. by rewrite bool_decide_true by eauto.
Qed.

(** ** What the compliance API said

    The place of a resource in the answer, which starts with the top failing
    ones, and its status; the last entry of a resource counts, and one without
    an entry passes. *)

Fixpoint said (i : Z) (answer : list (option string * string)) (id : string) : option (Z * string) :=
  match answer with
  | [] => None
  | (name, status) :: answer =>
      match said (i + 1) answer id with
      | Some r => Some r
      | None => if decide (name = Some id) then Some (i, status) else None
      end
  end.

Definition place (answer : list (option string * string)) (id : string) : Z := from_option fst (-1) (said 0 answer id).
Definition status_said (answer : list (option string * string)) (id : string) : string :=
  from_option snd "PASS" (said 0 answer id).

Lemma cache_resources_said answer i m rs id :
  cache_resources i answer m = Ret rs →
  rs !! id = match said i answer id with
             | Some (k, status) => Some {| csSortIndex := k; csStatus := status |}
             | None => m !! id
             end.
Proof.
  revert i m. induction answer as [|[[name|] status] answer IH]; intros i m; cbn; [by intros [= <-]| |done].
  run. intros Hr. rewrite (IH _ _ Hr). destruct (said (i + 1) answer id) as [[k s]|]; [done|].
  destruct (decide (name = id)) as [->|Hne]; [by rewrite decide_True, lookup_insert_eq|].
  by rewrite decide_False, lookup_insert_ne by congruence.
Qed.

Lemma status_in_said answer rs id :
  cache_resources 0 answer ∅ = Ret rs →
  status_in rs id = {| csSortIndex := place answer id; csStatus := status_said answer id |}.
Proof.
  intros Hr. unfold status_in. rewrite (cache_resources_said _ _ _ _ _ Hr), lookup_empty.
  unfold place, status_said. by destruct (said 0 answer id) as [[k s]|].
Qed.

(** ** Sorting *)

Definition dir_le {K} (le : K → K → Prop) (ascending : bool) : K → K → Prop :=
  if ascending then le else flip le.

#[export] Instance dir_le_trans {K} (le : K → K → Prop) asc : Transitive le → Transitive (dir_le le asc).
Proof. intros H x y z. destruct asc; cbn; [apply H|]. intros ??. by eapply H. Qed.

#[export] Instance dir_le_antisymm {K} (le : K → K → Prop) asc : AntiSymm (=) le → AntiSymm (=) (dir_le le asc).
Proof. intros H x y. destruct asc; cbn; intros; by apply H. Qed.

Lemma sltb_asym x y : sltb x y = true → sltb y x = false.
Proof.
  intros H. destruct (sltb y x) eqn:E; [|done]. exfalso. apply (slt_irrefl x).
  by transitivity y.
Qed.

Lemma sltb_irrefl x : sltb x x = false.
Proof. destruct (sltb x x) eqn:E; [|done]. by destruct (slt_irrefl x). Qed.

Lemma str_less_asym asc x y : str_less asc x y = true → str_less asc y x = false.
Proof. destruct asc; apply sltb_asym. Qed.

Lemma int_less_asym asc x y : int_less asc x y = true → int_less asc y x = false.
Proof. destruct asc; cbn; rewrite bool_decide_eq_true, bool_decide_eq_false; lia. Qed.

Section SortSpec.
Context {V : Type} (dateString : Time → string) (rs : gmap string complianceStatus).
Implicit Types l r x y : Resource V.

(** by one text, then by another *)
Definition lex_less (k1 k2 : Resource V → string) (asc : bool) l r : bool :=
  if decide (k1 l ≠ k1 r) then str_less asc (k1 l) (k1 r) else str_less asc (k2 l) (k2 r).

Lemma lex_less_asym k1 k2 asc l r : lex_less k1 k2 asc l r = true → lex_less k1 k2 asc r l = false.
Proof.
  unfold lex_less. destruct (decide (k1 l = k1 r)) as [E|E].
  - rewrite E, !decide_False by (by intros []). apply str_less_asym.
  - rewrite !decide_True by congruence. apply str_less_asym.
Qed.

Lemma lex_less_le k1 k2 asc x y :
  lex_less k1 k2 asc y x = false ↔ dir_le pair_le asc (k1 x, k2 x) (k1 y, k2 y).
Proof.
  assert (∀ a b, lex_less k1 k2 true b a = false ↔ pair_le (k1 a, k2 a) (k1 b, k2 b)) as H.
  { intros a b. unfold lex_less, pair_le, str_less. cbn [fst snd].
    destruct (decide (k1 b = k1 a)) as [E|E].
    - rewrite E, decide_False by (by intros []). rewrite sltb_leb. split; [|by intros [_ ?]; auto].
      intros ?. split; [|done]. by apply sltb_leb, sltb_irrefl.
    - rewrite decide_True, sltb_leb by done. split; [|tauto]. intros ?. split; [done|]. congruence. }
  destruct asc; cbn [dir_le]; [apply H|]. unfold flip. rewrite <-H. unfold lex_less, str_less.
  destruct (decide (k1 x = k1 y)) as [E|E].
  - rewrite E, !decide_False by (by intros []). done.
  - by rewrite !decide_True by congruence.
Qed.

(** the comparison by status, when every failing resource is in the cache *)
Definition status_less (asc : bool) l r : bool :=
  if decide (reComplianceStatus l ≠ reComplianceStatus r) then
    int_less asc (statusSortPriority (reComplianceStatus l)) (statusSortPriority (reComplianceStatus r))
  else if decide (reComplianceStatus l = StatusERROR ∨ reComplianceStatus l = StatusFAIL) then
    int_less (negb asc) (csSortIndex (status_in rs (reID l))) (csSortIndex (status_in rs (reID r)))
  else str_less asc (reID l) (reID r).

Lemma status_less_asym asc l r : status_less asc l r = true → status_less asc r l = false.
Proof.
  unfold status_less. destruct (decide (reComplianceStatus l = reComplianceStatus r)) as [E|E].
  - rewrite E, !(decide_False (P := reComplianceStatus r ≠ reComplianceStatus r)) by (by intros []). case_decide; [apply int_less_asym|apply str_less_asym].
  - rewrite !decide_True by congruence. apply int_less_asym.
Qed.

Definition sort_less (sortBy : string) (asc : bool) : Resource V → Resource V → bool :=
  if decide (sortBy = "complianceStatus") then status_less asc
  else if decide (sortBy = "lastModified") then lex_less (λ r, dateString (reLastModified r)) reID asc
  else if decide (sortBy = "type") then lex_less reType reID asc
  else lex_less (λ _, "") reID asc.

Lemma sort_less_asym sortBy asc l r : sort_less sortBy asc l r = true → sort_less sortBy asc r l = false.
Proof. unfold sort_less. repeat case_decide; auto using status_less_asym, lex_less_asym. Qed.

(** the status of a resource is that of the cache *)
Definition status_known (l : list (Resource V)) : Prop :=
  Forall (λ x, reComplianceStatus x = csStatus (status_in rs (reID x))) l.

Lemma sorts_short (f : Resource V → Resource V → bool) (l : list (Resource V)) : (length l ≤ 1)%nat → sorts f l l.
Proof. destruct l as [|x [|]]; cbn; [repeat constructor..|lia]. Qed.

Lemma sortResources_sorts st (l : list (Resource V)) sortBy asc :
  (sortBy = "complianceStatus" → status_known l ∧
     (l ≠ [] → ∃ e, complianceCache st = Some e ∧ ccResources e = rs)) →
  ∃ l' : list (Resource V), sortResources dateString st l sortBy asc = Ret l' ∧ sorts (sort_less sortBy asc) l l'.
Proof.
  intros Hst. unfold sortResources. case_decide; [eauto using sorts_short|].
  pose proof (sort_less_asym sortBy asc) as Has. unfold sort_less in *.
  destruct (decide (sortBy = "complianceStatus")).
  - destruct Hst as [Hk He]; [done|]. destruct He as (entry&->&Hrs); [by intros ->; cbn in *; lia|].
    cbn [deref]. run. rewrite Hrs.
    apply sort_slice_outcome_sorts; [|done]. intros x y Hx Hy. unfold less_by_status, status_less.
    destruct (decide (reComplianceStatus x = reComplianceStatus y)) as [Heq|Heq];
      [|by rewrite !decide_True by done].
    rewrite Heq, !(decide_False (P := reComplianceStatus y ≠ reComplianceStatus y)) by (by intros []).
    case_decide as Hf; [|done]. rewrite <-Heq in Hf.
    assert (∀ z, z ∈ l → reComplianceStatus z = reComplianceStatus x →
      rs !! reID z = Some (status_in rs (reID z))) as Hin.
    { intros z Hz Hzx. unfold status_known in Hk. rewrite Forall_forall in Hk. specialize (Hk z Hz).
      unfold status_in in *. destruct (rs !! reID z); [done|]. cbn in Hk.
      rewrite <-Hzx, Hk in Hf. by destruct Hf. }
    rewrite !Hin by auto. done.
  - repeat case_decide; apply sort_slice_outcome_sorts; done.
Qed.

(** the cache: distinct resources have distinct indices, and every status is
    one of the three *)
Definition cache_ok : Prop :=
  (∀ i j a b, rs !! i = Some a → rs !! j = Some b → csSortIndex a = csSortIndex b → i = j) ∧
  (∀ id, csStatus (status_in rs id) ∈ [StatusERROR; StatusFAIL; StatusPASS]).

Lemma NoDup_id_inj (l : list (Resource V)) x y :
  NoDup (reID <$> l) → x ∈ l → y ∈ l → reID x = reID y → x = y.
Proof.
  intros Hnd (i&Hi)%list_elem_of_lookup (j&Hj)%list_elem_of_lookup Hid.
  assert (i = j) as -> by
    (eapply (NoDup_lookup (reID <$> l) i j (reID x)); [done|by rewrite list_lookup_fmap, Hi
    |rewrite list_lookup_fmap, Hj; cbn; congruence]).
  congruence.
Qed.

Lemma lex_keyed k1 asc (l : list (Resource V)) :
  NoDup (reID <$> l) →
  keyed_by (dir_le pair_le asc) (lex_less k1 reID asc) (λ x, (k1 x, reID x)) l.
Proof.
  intros Hnd. split; [intros; apply lex_less_le|]. intros x y Hx Hy [= _ Hid]. by eapply NoDup_id_inj.
Qed.

Definition status_key x : list Z * string :=
  let prio := statusSortPriority (reComplianceStatus x) in
  if decide (reComplianceStatus x = StatusERROR ∨ reComplianceStatus x = StatusFAIL)
  then ([prio; - csSortIndex (status_in rs (reID x))], "") else ([prio], reID x).

Lemma status_less_le asc x y :
  reComplianceStatus x ∈ [StatusERROR; StatusFAIL; StatusPASS] →
  reComplianceStatus y ∈ [StatusERROR; StatusFAIL; StatusPASS] →
  status_less asc y x = false ↔ dir_le key_le asc (status_key x) (status_key y).
Proof.
  intros Hx Hy.
  assert (∀ a b, reComplianceStatus a ∈ [StatusERROR; StatusFAIL; StatusPASS] →
    reComplianceStatus b ∈ [StatusERROR; StatusFAIL; StatusPASS] →
    status_less true b a = false ↔ key_le (status_key a) (status_key b)) as H.
  { intros a b Ha Hb. rewrite !elem_of_cons, elem_of_nil in Ha, Hb.
    unfold status_less, status_key, key_le, int_less, str_less.
    destruct_or! Ha; destruct_or! Hb; try done; rewrite Ha, Hb; cbn [fst snd key_leb negb]; cbn -[sltb String.leb];
      repeat case_decide; rewrite ?sltb_leb, ?bool_decide_eq_false; try lia; try done;
      cbn [fst snd key_leb]; repeat case_decide; try lia; intuition (congruence || lia). }
  destruct asc; [by apply H|]. cbn [dir_le]. unfold flip. rewrite <-H by done.
  unfold status_less, int_less, str_less. destruct (decide (reComplianceStatus x = reComplianceStatus y)) as [E|E].
  - rewrite E, !(decide_False (P := reComplianceStatus y ≠ reComplianceStatus y)) by (by intros []).
    case_decide; done.
  - by rewrite !decide_True by congruence.
Qed.

Lemma status_keyed asc (l : list (Resource V)) :
  cache_ok → status_known l → NoDup (reID <$> l) →
  keyed_by (dir_le key_le asc) (status_less asc) status_key l.
Proof.
  intros [Hinj Henum] Hk Hnd. unfold status_known in Hk. rewrite Forall_forall in Hk. split.
  - intros x y Hx Hy. apply status_less_le; rewrite Hk by done; apply Henum.
  - intros x y Hx Hy. unfold status_key.
    assert (∀ z, z ∈ l → reComplianceStatus z = StatusERROR ∨ reComplianceStatus z = StatusFAIL →
      rs !! reID z = Some (status_in rs (reID z))) as Hin.
    { intros z Hz Hf. rewrite Hk in Hf by done. unfold status_in in *. destruct (rs !! reID z); [done|].
      by destruct Hf. }
    repeat case_decide; intros [= H1 H2]; [|by eapply NoDup_id_inj..].
    apply (NoDup_id_inj l); [done..|]. eapply Hinj; [by apply Hin..|lia].
Qed.

Lemma sorted_unique sortBy asc (l l' l1 l2 : list (Resource V)) :
  NoDup (reID <$> l) → (sortBy = "complianceStatus" → cache_ok ∧ status_known l) → l' ≡ₚ l →
  sorts (sort_less sortBy asc) l l1 → sorts (sort_less sortBy asc) l' l2 → l1 = l2.
Proof.
  intros Hnd Hst Hl. unfold sort_less. case_decide.
  { destruct Hst as [Hc Hk]; [done|]. eapply (sorts_unique_by (dir_le key_le asc)); [by apply status_keyed|done]. }
  repeat case_decide; eapply (sorts_unique_by (dir_le pair_le asc)); (by apply lex_keyed) || done.
Qed.
End SortSpec.

(** *** The order that is asked for

    Ascending: by status, passing before failing before in error, those that
    fail or are in error with the top failing ones last, and the others by
    identifier; by the time of the last change or by type, ties by identifier;
    or by identifier.  Descending: the other way round. *)
Section Order.
Context {V : Type} (dateString : Time → string) (answer : list (option string * string)).

Definition status_rank (status : string) : Z :=
  if decide (status = "PASS") then 1 else if decide (status = "FAIL") then 2 else 3.

Definition status_place (x : Resource V) : list Z * string :=
  if decide (reComplianceStatus x = "PASS") then ([status_rank "PASS"], reID x)
  else ([status_rank (reComplianceStatus x); - place answer (reID x)], "").

Definition resource_le (sortBy : string) (ascending : bool) (x y : Resource V) : Prop :=
  if decide (sortBy = "complianceStatus") then dir_le key_le ascending (status_place x) (status_place y)
  else if decide (sortBy = "lastModified") then
    dir_le pair_le ascending (dateString (reLastModified x), reID x) (dateString (reLastModified y), reID y)
  else if decide (sortBy = "type") then dir_le pair_le ascending (reType x, reID x) (reType y, reID y)
  else dir_le pair_le ascending ("", reID x) ("", reID y).

Definition sorted_as (sortBy : string) (ascending : bool) (l L : list (Resource V)) : Prop :=
  L ≡ₚ l ∧ StronglySorted (resource_le sortBy ascending) L.

Lemma StronglySorted_mono {A} (R R' : A → A → Prop) l :
  (∀ x y, x ∈ l → y ∈ l → R x y → R' x y) → StronglySorted R l → StronglySorted R' l.
Proof.
  intros HR Hs. induction Hs as [|x l Hs IH Hall]; [constructor|]. constructor; [apply IH; set_solver|].
  rewrite Forall_forall in Hall |- *. intros y Hy. apply HR; [set_solver|set_solver|auto].
Qed.

Lemma status_place_key rs x :
  cache_resources 0 answer ∅ = Ret rs → reComplianceStatus x ∈ [StatusERROR; StatusFAIL; StatusPASS] →
  status_key rs x = status_place x.
Proof.
  intros Hr Hx. unfold status_key, status_place. rewrite (status_in_said _ _ _ Hr). cbn [csSortIndex].
  rewrite !elem_of_cons, elem_of_nil in Hx. destruct_or! Hx; try done; rewrite Hx; done.
Qed.

Lemma sorts_sorted_as rs sortBy asc (l L : list (Resource V)) :
  cache_resources 0 answer ∅ = Ret rs → NoDup (reID <$> l) →
  (sortBy = "complianceStatus" → cache_ok rs ∧ status_known rs l) →
  sorts (sort_less dateString rs sortBy asc) l L ↔ sorted_as sortBy asc l L.
Proof.
  intros Hr Hnd Hst. unfold sort_less, sorted_as, resource_le. case_decide as Hby.
  { destruct (Hst Hby) as [Hc Hk]. rewrite (sorts_keyed_by (dir_le key_le asc) _ _ _ _ (status_keyed rs asc l Hc Hk Hnd)).
    assert (∀ x, x ∈ l → status_key rs x = status_place x) as Hkey.
    { intros x Hx. apply (status_place_key _ _ Hr). destruct Hc as [_ Henum]. unfold status_known in Hk.
      rewrite Forall_forall in Hk. rewrite Hk by done. apply Henum. }
    split; intros [Hp Hs]; (split; [done|]); (eapply StronglySorted_mono; [|exact Hs]); intros x y Hx Hy;
      rewrite Hp in Hx, Hy; by rewrite !Hkey by done. }
  repeat case_decide; by rewrite (sorts_keyed_by (dir_le pair_le asc) _ _ _ _ (lex_keyed _ asc l Hnd)).
Qed.
End Order.

Lemma cache_resources_ok payload i m rs :
  cache_resources i payload m = Ret rs → cache_ok m →
  Forall (λ p, p.2 ∈ [StatusERROR; StatusFAIL; StatusPASS]) payload →
  (∀ id a, m !! id = Some a → csSortIndex a < i) → cache_ok rs.
Proof.
  revert i m. induction payload as [|[[id|] status] payload IH]; intros i m; cbn; [by intros [= <-]| |done].
  run. intros Hr [Hinj Henum] [Hs Hp]%Forall_cons Hlt. eapply IH; [exact Hr| |done|].
  - split.
    + intros a b x y. rewrite !lookup_insert_Some. intros [[<- <-]|[_ Ha]] [[<- <-]|[_ Hb]] Hix; try done; cbn in *.
      * apply Hlt in Hb. lia.
      * apply Hlt in Ha. lia.
      * eauto.
    + intros a. unfold status_in. destruct (decide (a = id)) as [->|Hne]; [by rewrite lookup_insert_eq|].
      rewrite lookup_insert_ne by done. apply Henum.
  - intros a x. rewrite lookup_insert_Some. intros [[_ <-]|[_ Ha]]; cbn; [lia|]. apply Hlt in Ha. lia.
Qed.

Lemma cache_ok_empty : cache_ok ∅.
Proof. split; [done|]. intros id. unfold status_in. rewrite lookup_empty. cbn. set_solver. Qed.

(** ** Listing *)

Definition stored_fields (fields : list string) : list string := filter (λ f, f ≠ "complianceStatus") fields.

Lemma projection_names_go i p fields :
  i = 0%nat ∧ p = [] ∨ i ≠ 0%nat → projection_names i p fields = p ++ stored_fields fields.
Proof.
  revert i p. induction fields as [|f fields IH]; intros i p Hi; cbn [projection_names].
  { by rewrite app_nil_r. }
  rewrite IH by (right; done). unfold stored_fields. rewrite filter_cons.
  destruct (decide (f = "complianceStatus")) as [->|Hf].
  - by rewrite decide_False by (by intros []).
  - rewrite (decide_True (P := f ≠ _)) by done. case_decide as H0.
    + destruct Hi as [[_ ->]|?]; done.
    + by rewrite <-(assoc_L (++)).
Qed.

Lemma projection_names_eq fields : projection_names 0 [] fields = stored_fields fields.
Proof. by rewrite projection_names_go by (by left). Qed.

(** a handler that never fails on items that satisfy [Q] and appends [f item]
    to the result *)
Section ScanSpec.
Context {X Raw St B : Type} (UnmarshalPage : Raw → result (list X)).
Context (handler : St * list B → X → outcome (St * list B * option error)).
Context (f : X → list B) (I : St → list B → Prop) (Q : X → Prop).
Context (Hstep : ∀ st acc item, Q item → I st acc →
  ∃ st', handler (st, acc) item = Ret (st', acc ++ f item, None) ∧ I st' (acc ++ f item)).

Lemma handle_page_appends st acc items : Forall Q items → I st acc →
  ∃ st', handle_page handler (st, acc) items = Ret (st', acc ++ (items ≫= f), None) ∧ I st' (acc ++ (items ≫= f)).
Proof.
  intros HQ. revert st acc. induction HQ as [|item items Hq HQ IH]; intros st acc HI; cbn.
  { rewrite app_nil_r. eauto. }
  destruct (Hstep st acc item Hq HI) as (st1&->&HI1). run.
  destruct (IH _ _ HI1) as (st2&->&HI2). exists st2. rewrite <-(assoc_L (++)) in HI2 |- *. done.
Qed.

Lemma scan_loop_appends st acc pages found :
  Forall2 (λ page l, UnmarshalPage page = Ok l) pages found → Forall Q (concat found) → I st acc →
  ∃ st', scan_loop UnmarshalPage handler (st, acc) pages None = Ret (st', acc ++ (concat found ≫= f), None) ∧
    I st' (acc ++ (concat found ≫= f)).
Proof.
  intros Hf. revert st acc. induction Hf as [|page l pages found Hp _ IH]; intros st acc HQ HI; cbn.
  { rewrite app_nil_r. eauto. }
  cbn [concat] in HQ. apply Forall_app in HQ as [Hq HQ].
  rewrite Hp. destruct (handle_page_appends _ _ l Hq HI) as (st1&->&HI1). run.
  destruct (IH _ _ HQ HI1) as (st2&->&HI2). exists st2. rewrite bind_app.
  rewrite <-(assoc_L (++)) in HI2 |- *. done.
Qed.
End ScanSpec.

(** *** Paging *)

Section PageSpec.
Context {V : Type}.
Implicit Types L : list (Resource V).

Definition page_items {A} (L : list A) (size page : Z) : list A :=
  take (Z.to_nat size) (drop (Z.to_nat ((page - 1) * size)) L).

Definition total_pages (n size : Z) : Z := (n + size - 1) / size.

Definition page_ref L (size page : Z) : ResourceList V :=
  let n := Z.of_nat (length L) in
  {| rlPaging := {| pgThisPage := if decide (L = []) then 0 else page; pgTotalItems := n;
                    pgTotalPages := total_pages n size |};
     rlResources := page_items L size page |}.

Lemma total_pages_eq n size : 0 ≤ n → 1 ≤ size →
  (if decide (0 < Z.rem n size) then Z.quot n size + 1 else Z.quot n size) = total_pages n size.
Proof.
  intros Hn Hs. rewrite Z.rem_mod_nonneg, Z.quot_div_nonneg by lia. unfold total_pages.
  pose proof (Z.div_mod n size ltac:(lia)) as Hd. pose proof (Z.mod_pos_bound n size ltac:(lia)) as Hm.
  case_decide.
  - apply (Z.div_unique _ _ _ (n mod size - 1)); lia.
  - apply (Z.div_unique _ _ _ (size - 1)); lia.
Qed.

(** the bounds of a page, computed on 64 bits *)
Lemma slice_page {A} (L : list A) size page :
  let n := Z.of_nat (length L) in
  1 ≤ page → 1 ≤ size → page * size < two63 →
  slice L (intMin (int64 (int64 (page - 1) * size)) n) (intMin (int64 (page * size)) n) =
  Ret (page_items L size page).
Proof.
  intros n Hp Hs Hb. unfold two63 in *.
  rewrite (int64_id (page - 1)) by (unfold in_int64, two63; nia).
  rewrite (int64_id ((page - 1) * size)), (int64_id (page * size)) by (unfold in_int64, two63; nia).
  unfold slice. rewrite decide_True by (unfold intMin; repeat case_decide; nia).
  f_equal. unfold page_items, intMin.
  destruct (decide ((page - 1) * size < n)) as [Hlo|Hlo].
  - destruct (decide (page * size < n)) as [Hhi|Hhi]; [f_equal; lia|].
    rewrite !take_ge by (rewrite length_drop; unfold n in *; lia). done.
  - rewrite decide_False by nia. rewrite (drop_ge L (Z.to_nat ((page - 1) * size))) by (unfold n in *; lia).
    rewrite (drop_ge L) by (unfold n; lia). by rewrite !take_nil.
Qed.

Lemma pageResources_ref L size page :
  1 ≤ page → 1 ≤ size → page * size < two63 → pageResources L size page = Ret (page_ref L size page).
Proof.
  intros Hp Hs Hb. unfold pageResources, page_ref. set (n := Z.of_nat (length L)).
  destruct (decide (L = [])) as [->|HL].
  { unfold n, total_pages, page_items. cbn [length Z.of_nat]. rewrite Z.div_small by lia.
    by rewrite drop_nil, take_nil. }
  rewrite decide_False by (destruct L; [done|unfold n; cbn; lia]). rewrite decide_False by lia.
  rewrite total_pages_eq by lia. unfold n. rewrite slice_page by done. run. done.
Qed.

(** consecutive pages *)
Lemma pages_concat L size k :
  1 ≤ size → concat ((λ p, page_items L size (Z.of_nat p + 1)) <$> seq 0 k) = take (Z.to_nat (Z.of_nat k * size)) L.
Proof.
  intros Hs. induction k as [|k IH]; [done|].
  rewrite seq_S, fmap_app, concat_app, IH. cbn [plus fmap list_fmap concat]. rewrite app_nil_r. unfold page_items.
  replace (Z.of_nat k + 1 - 1) with (Z.of_nat k) by lia.
  rewrite <-(take_drop (Z.to_nat (Z.of_nat k * size)) L) at 3. rewrite take_app.
  replace (Z.to_nat (Z.of_nat (S k) * size)) with (Z.to_nat (Z.of_nat k * size) + Z.to_nat size)%nat by lia.
  rewrite take_take, length_take.
  replace ((Z.to_nat (Z.of_nat k * size) + Z.to_nat size) `min` Z.to_nat (Z.of_nat k * size))%nat
    with (Z.to_nat (Z.of_nat k * size)) by lia. f_equal.
  destruct (decide (Z.to_nat (Z.of_nat k * size) ≤ length L)%nat).
  - f_equal. lia.
  - rewrite drop_ge by lia. by rewrite !take_nil.
Qed.

(** the pages of a list are complete and do not overlap: requested one
    after the other, from 1 to the announced number of pages, pageResources
    answers each without a panic, and together they are the whole list, every
    resource once and in order. *)
Theorem pages_cover L size :
  1 ≤ size → Z.of_nat (length L) + size < two63 →
  let total := total_pages (Z.of_nat (length L)) size in
  ∃ answers, Forall2 (λ p answer, pageResources L size (Z.of_nat p + 1) = Ret answer)
      (seq 0 (Z.to_nat total)) answers ∧
    concat (rlResources <$> answers) = L ∧
    Forall (λ answer, pgTotalPages (rlPaging answer) = total ∧
      pgTotalItems (rlPaging answer) = Z.of_nat (length L) ∧
      Z.of_nat (length (rlResources answer)) ≤ size) answers.
Proof.
  intros Hs Hb total. exists ((λ p, page_ref L size (Z.of_nat p + 1)) <$> seq 0 (Z.to_nat total)).
  assert (0 ≤ total ∧ total * size < Z.of_nat (length L) + size ∧ Z.of_nat (length L) ≤ total * size) as (H0&H1&H2).
  { unfold total, total_pages. pose proof (Z.div_mod (Z.of_nat (length L) + size - 1) size ltac:(lia)).
    pose proof (Z.mod_pos_bound (Z.of_nat (length L) + size - 1) size ltac:(lia)). nia. }
  split_and!.
  - apply Forall2_fmap_r, Forall_Forall2_diag, Forall_forall. intros p Hp%elem_of_seq.
    apply pageResources_ref; [lia..|]. nia.
  - rewrite <-list_fmap_compose. unfold compose. cbn [page_ref rlResources].
    rewrite (pages_concat L size) by done. rewrite Z2Nat.id by done. by apply take_ge; lia.
  - apply Forall_fmap, Forall_forall. intros p _. cbn. split_and!; [done..|].
    unfold page_items. rewrite length_take. lia.
Qed.

(** A page number whose offset does not fit 64 bits makes the handler
    panic instead of answering with an empty page: the offset becomes
    negative and the slice is out of range. *)
Theorem page_overflow_panics L size page :
  L ≠ [] → 1 ≤ size → two63 ≤ (page - 1) * size < two64 → in_int64 page →
  pageResources L size page = Panic "slice bounds out of range".
Proof.
  intros HL Hs Ho Hp. unfold pageResources. set (n := Z.of_nat (length L)).
  rewrite decide_False by (destruct L; [done|unfold n; cbn; lia]). rewrite decide_False by lia.
  unfold in_int64 in Hp. rewrite (int64_id (page - 1)) by (unfold in_int64, two63, two64 in *; nia).
  assert (int64 ((page - 1) * size) < 0) as Hneg.
  { unfold int64, two63, two64 in *.
    rewrite <-(Z.mod_unique ((page - 1) * size + 9223372036854775808) _ 1
      ((page - 1) * size + 9223372036854775808 - 18446744073709551616)); lia. }
  unfold slice. rewrite (decide_False (P := _ ∧ _)); [done|]. unfold intMin. intros [? _]. case_decide; unfold n in *; lia.
Qed.
End PageSpec.

(** *** The whole request *)

Lemma optional_positive pre msg s n : optional s (positive pre msg) = Ok n → 1 ≤ default 1 n.
Proof.
  unfold optional, positive. case_decide; [by intros [= <-]|]. run.
  destruct (or_prefix pre (ParseInt64 s)); run; [|done]. case_decide; run; [done|].
  intros [= <-]. cbn. lia.
Qed.

Lemma parse_bounds vi vt query params :
  parseListResources vi vt query = Ok params → 1 ≤ lpPage params ∧ 1 ≤ lpPageSize params.
Proof.
  unfold parseListResources. cbv zeta.
  do 8 (match goal with |- (?r ≫= _) = _ → _ => destruct r; run; [|done] end).
  destruct (optional (param query "pageSize") _) as [size|] eqn:Es; run; [|done].
  destruct (optional (param query "page") _) as [page|] eqn:Ep; run; [|done].
  intros [= <-]. cbn [lpPage lpPageSize]. apply optional_positive in Es, Ep.
  split; [done|]. by destruct size.
Qed.

Section ListSpec.
Context {V D Raw : Type} (items : D → list (resourceItem V)).
Context (ScanPages : D → ScanInput → list Raw * option error)
        (UnmarshalPage : Raw → result (list (resourceItem V))).
Context {table : ResourceTable items ScanPages UnmarshalPage}.
Context (now : nat → Time) (DescribeOrg : nat → result (list (option string * string))).
Context (dateString : Time → string) (MarshalToString : payload V → result string).
Context (validateIntegrationID validateIntegrationType : string → option error).
Context (Build : Condition → list string → option error).

(** during the request the compliance API gives one answer, [rs] *)
Context (answer : list (option string * string)) (rs : gmap string complianceStatus).
Context (Hanswer : ∀ n, DescribeOrg n = Ok answer) (Hrs : cache_resources 0 answer ∅ = Ret rs).

Definition stable (st : apiState) : Prop := ∀ e, complianceCache st = Some e → ccResources e = rs.

Lemma getComplianceStatus_stable st id : stable st →
  ∃ st', getComplianceStatus now DescribeOrg st id = Ret (st', Ok (status_in rs id)) ∧ stable st' ∧
    is_Some (complianceCache st').
Proof.
  intros Hst. unfold getComplianceStatus, getOrgCompliance.
  assert (∀ s, ∃ s' e, load_compliance now DescribeOrg s = Ret (s', Ok e) ∧ ccResources e = rs ∧ stable s' ∧
    is_Some (complianceCache s')) as Hload.
  { intros s. unfold load_compliance. rewrite Hanswer, Hrs. run. eexists _, _. split; [done|].
    split; [done|]. split; [|by eexists]. by intros e [= <-]. }
  destruct (complianceCache st) as [e|] eqn:Ec.
  2:{ destruct (Hload st) as (s'&e&->&Hr&Hs&Hc). run. rewrite Hr. eauto. }
  destruct (After _ _); [|destruct (Hload {| complianceCache := Some e; clock := S (clock st) |})
                            as (s'&e'&->&Hr&Hs&Hc); run; rewrite Hr; eauto].
  run. rewrite (Hst e Ec). eexists. split; [done|]. split; [|by eexists]. intros e' [= <-]. by apply Hst.
Qed.

(** the resources of the answer, before they are sorted *)
Definition status_of (fields : list string) (id : string) : string :=
  if decide ("complianceStatus" ∈ fields) then status_said answer id else "".

Definition shown (params : ListResourcesParams) (id : string) : bool :=
  bool_decide ("complianceStatus" ∉ lpFields params) ||
  agrees (lpComplianceStatus params) (λ s, bool_decide (s = status_said answer id)).

Definition resource_of (params : ListResourcesParams) (i : resourceItem V) : Resource V :=
  to_Resource (status_of (lpFields params) (riID i)) (project (stored_fields (lpFields params)) i).

Definition listing (d : D) (params : ListResourcesParams) : list (Resource V) :=
  resource_of params <$> filter (λ i, wanted params i && shown params (riID i) = true) (items d).

(** what the handler appends for an item of the scan *)
Definition appended (params : ListResourcesParams) (i : resourceItem V) : list (Resource V) :=
  if shown params (riID i) then [to_Resource (status_of (lpFields params) (riID i)) i] else [].

Definition list_inv (params : ListResourcesParams) (st : apiState) (acc : list (Resource V)) : Prop :=
  stable st ∧ ("complianceStatus" ∈ lpFields params → acc ≠ [] → is_Some (complianceCache st)).

Lemma list_item_step params st acc item : list_inv params st acc →
  ∃ st', list_item now DescribeOrg params (st, acc) item = Ret (st', acc ++ appended params item, None) ∧
    list_inv params st' (acc ++ appended params item).
Proof.
  intros [Hst Hc]. unfold list_item, appended, shown, status_of.
  destruct (decide ("complianceStatus" ∈ lpFields params)) as [Hin|Hin].
  2:{ rewrite decide_True, bool_decide_true by done. exists st. split; [done|]. by split. }
  rewrite decide_False, bool_decide_false by tauto. cbn [orb].
  destruct (getComplianceStatus_stable st (riID item) Hst) as (st'&->&Hst'&Hc'). run.
  exists st'. split; [|by split]. unfold agrees. rewrite (status_in_said _ _ _ Hrs). cbn [csStatus].
  destruct (lpComplianceStatus params) as [s|]; [|done].
  destruct (decide (s = status_said answer (riID item))) as [->|Hne].
  - rewrite bool_decide_false by (by intros []). by rewrite bool_decide_true.
  - rewrite bool_decide_true by done. rewrite bool_decide_false by done. by rewrite app_nil_r.
Qed.

Lemma project_id names (i : resourceItem V) : "id" ∈ names → riID (project names i) = riID i.
Proof. intros H. cbn. by rewrite decide_True. Qed.

Lemma id_stored fields : "id" ∈ fields → "id" ∈ stored_fields fields.
Proof. intros H. by apply list_elem_of_filter. Qed.

Lemma appended_listing params l : "id" ∈ lpFields params →
  (project (stored_fields (lpFields params)) <$> filter (λ i, sat (list_filter params) i = true) l)
    ≫= appended params =
  resource_of params <$> filter (λ i, wanted params i && shown params (riID i) = true) l.
Proof.
  intros Hid. induction l as [|i l IH]; [done|]. rewrite !filter_cons, sat_list_filter.
  destruct (wanted params i); cbn [andb];
    [rewrite (decide_True (P := true = true)) by done|by rewrite !decide_False by done].
  rewrite fmap_cons, bind_cons, IH. unfold appended. rewrite project_id by by apply id_stored.
  destruct (shown params (riID i)).
  - rewrite decide_True by done. rewrite fmap_cons. unfold resource_of.
    by rewrite ?project_id by by apply id_stored.
  - by rewrite decide_False by done.
Qed.

Lemma listing_ids d params : "id" ∈ lpFields params → NoDup (reID <$> listing d params).
Proof.
  intros Hid. unfold listing. rewrite <-list_fmap_compose.
  rewrite (list_fmap_ext _ riID); [|intros k i _; cbn; by apply project_id, id_stored].
  eapply sublist_NoDup; [apply (items_keys d)|]. by apply fmap_sublist, sublist_filter.
Qed.

Lemma listing_status d params :
  "id" ∈ lpFields params → "complianceStatus" ∈ lpFields params → status_known rs (listing d params).
Proof.
  intros Hid Hc. unfold status_known, listing. apply Forall_fmap, Forall_forall. intros i _. cbn.
  rewrite (decide_True (P := "id" ∈ _)) by by apply id_stored. unfold status_of.
  by rewrite decide_True, (status_in_said _ _ _ Hrs).
Qed.

Notation ListResources' :=
  (ListResources now DescribeOrg dateString MarshalToString validateIntegrationID validateIntegrationType Build
     ScanPages UnmarshalPage).

Definition scan_of (params : ListResourcesParams) : ScanInput :=
  {| siFilter := list_filter params; siProjection := stored_fields (lpFields params) |}.

Lemma listFilteredResources_listing d params st pages :
  "id" ∈ lpFields params → stable st → ScanPages d (scan_of params) = (pages, None) →
  ∃ st' l, listFilteredResources now DescribeOrg ScanPages UnmarshalPage d (scan_of params) params st =
      Ret (st', l, None) ∧ l ≡ₚ listing d params ∧ list_inv params st' l.
Proof.
  intros Hid Hst Hscan. unfold listFilteredResources, scanPages. rewrite Hscan.
  destruct (scan_ok d _ _ Hscan) as (found&Hf&Hp).
  destruct (scan_loop_appends UnmarshalPage (list_item now DescribeOrg params) (appended params) (list_inv params)
    (λ _, True) (λ st acc i _, list_item_step params st acc i) st [] pages found Hf) as (st'&->&HI);
    [by apply Forall_true|by split|].
  eexists _, _. split; [done|]. split; [|done]. cbn [app]. rewrite Hp. cbn [siProjection siFilter scan_of].
  by rewrite appended_listing.
Qed.

(** C9: a request for a list is answered with the requested page of the
    resources it asks for.  When the parameters are valid, the identifier is
    among the fields, the scan succeeds and the compliance API gives one
    answer, ListResources does not panic and returns status 200: the resources
    are exactly the stored ones that satisfy every filter (and the compliance
    status, when that field is selected), reduced to the selected fields, with
    the status of the compliance API, sorted as asked, ties by identifier;
    only one list [L] is sorted so, and the answer does not depend on the order
    in which the table is scanned; totals count all of them.  The identifier is
    among the fields, and so is the status when it is sorted by; the number of
    the last item of the page fits 64 bits. *)
Theorem list_resources_correct d query params pages st :
  parseListResources validateIntegrationID validateIntegrationType query = Ok params →
  Build (list_filter params) (stored_fields (lpFields params)) = None →
  ScanPages d (scan_of params) = (pages, None) →
  (∀ l, ∃ s, MarshalToString (PList l) = Ok s) →
  "id" ∈ lpFields params → (lpSortBy params = "complianceStatus" → "complianceStatus" ∈ lpFields params) →
  lpPage params * lpPageSize params < two63 →
  Forall (λ p, p.2 ∈ [StatusERROR; StatusFAIL; StatusPASS]) answer → stable st →
  let sorted := sorted_as dateString answer (lpSortBy params) (bool_decide (lpSortDir params ≠ "descending"))
                  (listing d params) in
  ∃ st' L, sorted L ∧ (∀ L', sorted L' → L' = L) ∧
    ListResources' d query st =
      Ret (st', {| prStatusCode := 200; prBody := PList (page_ref L (lpPageSize params) (lpPage params)) |}) ∧
    stable st'.
Proof.
  intros Hq Hb Hscan Hm Hid Hsort Hpage Henum Hst sorted. destruct (parse_bounds _ _ _ _ Hq) as [Hp1 Hp2].
  unfold ListResources, buildListScan. rewrite Hq, projection_names_eq, Hb.
  destruct (listFilteredResources_listing d params st pages Hid Hst Hscan) as (st'&l&Hl&Hperm&Hst'&Hc).
  unfold scan_of in Hl. rewrite Hl. run.
  assert (cache_ok rs) as Hok by (eapply cache_resources_ok; [exact Hrs|apply cache_ok_empty|done|done]).
  destruct (sortResources_sorts dateString rs st' l (lpSortBy params)
    (bool_decide (lpSortDir params ≠ "descending"))) as (l'&->&Hs).
  { intros Hby. specialize (Hsort Hby). split.
    - unfold status_known. rewrite Hperm. by apply listing_status.
    - intros Hne. destruct (Hc Hsort Hne) as [e He]. exists e. split; [done|]. by apply Hst'. }
  run. assert (lpSortBy params = "complianceStatus" → cache_ok rs ∧ status_known rs (listing d params)) as Hk.
  { intros Hby. split; [done|]. apply listing_status; auto. }
  pose proof (listing_ids d params Hid) as Hnd.
  exists st', l'. split_and!; [| |rewrite pageResources_ref by done; run|done].
  - apply (sorts_sorted_as _ _ rs); [done..|]. destruct Hs as [Hp Hs]. split; [by rewrite Hp|done].
  - intros L' HL. apply (sorts_sorted_as _ _ rs) in HL; [|done..]. by eapply (sorted_unique dateString rs).
  - unfold MarshalResponse. by destruct (Hm (page_ref l' (lpPageSize params) (lpPage params))) as [? ->].
Qed.

(** Without the identifier among the fields the reported status is
    meaningless: the status of every resource is looked up under the empty
    identifier, so all of them are reported as passing, and a request for the
    failing ones gets none. *)
Theorem status_without_id d params st pages :
  "complianceStatus" ∈ lpFields params → "id" ∉ lpFields params → said 0 answer "" = None →
  stable st → ScanPages d (scan_of params) = (pages, None) →
  ∃ st' l, listFilteredResources now DescribeOrg ScanPages UnmarshalPage d (scan_of params) params st =
      Ret (st', l, None) ∧
    Forall (λ r, reComplianceStatus r = StatusPASS) l ∧
    (lpComplianceStatus params = Some StatusFAIL → l = []).
Proof.
  intros Hc Hid Hno Hst Hscan. unfold listFilteredResources, scanPages. rewrite Hscan.
  destruct (scan_ok d _ _ Hscan) as (found&Hf&Hp).
  destruct (scan_loop_appends UnmarshalPage (list_item now DescribeOrg params) (appended params) (list_inv params)
    (λ _, True) (λ st acc i _, list_item_step params st acc i) st [] pages found Hf) as (st'&->&HI);
    [by apply Forall_true|by split|].
  eexists _, _. split; [done|]. cbn [app].
  assert (Forall (λ i, riID i = "") (concat found)) as He.
  { rewrite Hp. apply Forall_fmap, Forall_forall. intros i _. cbn. rewrite decide_False; [done|].
    intros [_ ?]%list_elem_of_filter. done. }
  assert (status_said answer "" = StatusPASS) as Hpass by (unfold status_said; by rewrite Hno).
  clear Hp Hf HI. induction He as [|i l Hi _ [IH1 IH2]]; [done|].
  assert (appended params i = if shown params "" then [to_Resource StatusPASS i] else []) as Ha.
  { unfold appended, status_of. by rewrite Hi, Hpass, decide_True. }
  rewrite bind_cons, Ha. split.
  - apply Forall_app. split; [|done]. by destruct (shown params ""); repeat constructor.
  - intros Hs. rewrite IH2 by done. unfold shown. rewrite Hs, bool_decide_false by tauto. cbn.
    by rewrite Hpass.
Qed.

Lemma list_item_plain params st (acc : list (Resource V)) item :
  "complianceStatus" ∉ lpFields params →
  list_item now DescribeOrg params (st, acc) item = Ret (st, acc ++ [to_Resource "" item], None).
Proof. intros H. unfold list_item. by rewrite decide_True. Qed.

(** Sorting by compliance status without selecting that field panics in a
    new process: no status was loaded, the cache is a nil pointer, and
    sortResources dereferences it as soon as two resources are found. *)
Theorem sort_by_status_panics d query params pages st :
  parseListResources validateIntegrationID validateIntegrationType query = Ok params →
  Build (list_filter params) (stored_fields (lpFields params)) = None →
  ScanPages d (scan_of params) = (pages, None) →
  lpSortBy params = "complianceStatus" → "complianceStatus" ∉ lpFields params → complianceCache st = None →
  (2 ≤ length (filter (λ i, wanted params i = true) (items d)))%nat →
  ListResources' d query st = Panic "nil pointer dereference".
Proof.
  intros Hq Hb Hscan Hby Hno Hcold Htwo. unfold ListResources, buildListScan.
  rewrite Hq, projection_names_eq, Hb. unfold listFilteredResources, scanPages.
  change {| siFilter := _; siProjection := _ |} with (scan_of params). rewrite Hscan.
  destruct (scan_ok d _ _ Hscan) as (found&Hf&Hp).
  destruct (scan_loop_appends UnmarshalPage (list_item now DescribeOrg params) (λ i, [to_Resource "" i])
    (λ s _, s = st) (λ _, True)) with (st := st) (acc := @nil (Resource V)) (pages := pages) (found := found)
    as (st'&->&->); [intros ??? _ ->; eauto using list_item_plain|done|by apply Forall_true|done|].
  run. unfold sortResources. rewrite decide_False.
  { rewrite (decide_True (P := _ = _)), Hcold by done. done. }
  cbn [app]. assert (length (concat found ≫= λ i, [to_Resource "" i]) = length (concat found)) as ->.
  { clear. induction (concat found); cbn; auto. }
  rewrite Hp, length_fmap. cbn [siFilter scan_of].
  assert (length (filter (λ i, sat (list_filter params) i = true) (items d)) =
          length (filter (λ i, wanted params i = true) (items d))) as ->.
  { f_equal. apply list_filter_iff. intros i. by rewrite sat_list_filter. }
  lia.
Qed.
End ListSpec.
