(* ===== verification/ResourcesApiWrites.v ===== *)
(** * Resources API: adding and deleting resources, and the overview *)

From S2P Require Import Prelude GoTime GoSort GoPath Compliance ComplianceHandlers AlertOutputs Backoff Dynamodbbatch.
From S2P Require Import Sqsbatch SqsOversized ResourcesApi ResourcesApiSpec.

#[local] Open Scope Z_scope.

(** ** AddResources *)

Section AddSpec.
Context {V D M Q : Type} (now : nat → Time) (MarshalToString : payload V → result string).
Context {backoff : Backoff} (ResourcesTable : string).
Context (ddb : D → gmap string (list M) → D * result (gmap string (list M)))
        (written : D → list (string * M)) (writes : D → list (gmap string (list M))).
Context (sqs : Q → list Entry → Q * result SendMessageBatchOutput)
        (queue : Q → list Entry) (requests : Q → list (list Entry)).
Context (UnmarshalAdd : string → result (list (option (AddResourceEntry V))))
        (validateAdd : list (AddResourceEntry V) → option error).
Context (MarshalMap : resourceItem V → result M) (MarshalBody : Resource V → result string)
        (MarshalLookup : string → result string).
(** the services, as documented *)
Context (Hddb : DynamoClient ddb written writes) (Hsqs : SqsClient sqs queue requests).
Context (sqs_text : ∀ w es w' e, sqs w es = (w', Err e) → errText e ≠ ErrCodeBatchRequestTooLong).
(** the encoders do not fail, and a lookup of an identifier is short *)
Context (enc_item : resourceItem V → M) (enc_body : Resource V → string) (enc_lookup : string → string).
Context (item_ok : ∀ i, MarshalMap i = Ok (enc_item i)) (body_ok : ∀ r, MarshalBody r = Ok (enc_body r))
        (lookup_ok : ∀ id, MarshalLookup id = Ok (enc_lookup id)).

Notation AddResources' :=
  (AddResources now MarshalToString ResourcesTable ddb sqs UnmarshalAdd validateAdd MarshalMap MarshalBody
     MarshalLookup).

(** the item of a resource that is added at [t], and the resource it announces *)
Definition added_item (t : Time) (r : AddResourceEntry V) : resourceItem V :=
  {| riAttributes := aeAttributes r; riDeleted := false; riID := aeID r; riIntegrationID := aeIntegrationID r;
     riIntegrationType := aeIntegrationType r; riLastModified := t; riType := aeType r; riExpiresAt := 0;
     riLowerID := to_lower (aeID r) |}.
Definition added_resource (t : Time) (r : AddResourceEntry V) : Resource V :=
  {| reAttributes := aeAttributes r; reComplianceStatus := ""; reDeleted := false; reID := aeID r;
     reIntegrationID := aeIntegrationID r; reIntegrationType := aeIntegrationType r; reLastModified := t;
     reType := aeType r |}.

(** the body of the message of a resource *)
Definition body_of (t : Time) (r : AddResourceEntry V) : string := enc_body (added_resource t r).

Definition entries_from (t : Time) (i : nat) (l : list (AddResourceEntry V)) : list Entry :=
  imap (λ k r, message (i + k) (body_of t r)) l.

Lemma entries_from_cons t i r l :
  entries_from t i (r :: l) = message i (body_of t r) :: entries_from t (S i) l.
Proof.
  unfold entries_from. rewrite imap_cons, Nat.add_0_r. f_equal. apply imap_ext. intros k x _. cbn.
  f_equal. lia.
Qed.

Lemma add_entries_eq t i l :
  add_entries MarshalMap MarshalBody t i l = Ok ((λ r, enc_item (added_item t r)) <$> l, entries_from t i l).
Proof.
  revert i. induction l as [|r l IH]; intros i; [done|]. cbn [add_entries].
  change (item_of t r) with (added_item t r). change (to_Resource "" (added_item t r)) with (added_resource t r).
  rewrite item_ok, body_ok. run.
  rewrite IH. run. by rewrite entries_from_cons.
Qed.

(** a resource whose message is too long for the queue *)
Definition oversized (t : Time) (r : AddResourceEntry V) : Prop := maxMessageBytes < slen (body_of t r).

#[local] Instance oversized_dec t r : Decision (oversized t r).
Proof. unfold oversized. apply _. Defined.

(** what is queued for a resource: itself, or its identifier *)
Definition delivered (t : Time) (r : AddResourceEntry V) : option string :=
  Some (if decide (oversized t r) then enc_lookup (aeID r) else body_of t r).

Lemma bigs_entries t i l :
  Forall2 (λ e r, ∃ k, Id e = Some (itoa (Z.of_nat (i + k))) ∧ l !! k = Some r)
    (bigs (entries_from t i l)) (filter (oversized t) l).
Proof.
  revert i. induction l as [|r l IH]; intros i; [constructor|].
  rewrite entries_from_cons, bigs_cons, filter_cons.
  assert (Forall2 (λ e r', ∃ k, Id e = Some (itoa (Z.of_nat (i + k))) ∧ (r :: l) !! k = Some r')
    (bigs (entries_from t (S i) l)) (filter (oversized t) l)) as Ht.
  { eapply Forall2_impl; [apply IH|]. intros e r' (k&He&Hk). exists (S k). split; [|done].
    rewrite He. do 3 f_equal. lia. }
  unfold oversized at 1. change (entrySize (message i (body_of t r))) with (slen (body_of t r)).
  destruct (decide (maxMessageBytes < slen (body_of t r))) as [Hb|Hb].
  - rewrite decide_True by lia. constructor; [|done]. exists 0%nat. by rewrite Nat.add_0_r.
  - by rewrite decide_False by lia.
Qed.

Lemma lookup_entries_eq (input : list (AddResourceEntry V)) i ms rs :
  Forall2 (λ e r, ∃ k, Id e = Some (itoa (Z.of_nat k)) ∧ input !! k = Some r) ms rs →
  Z.of_nat (length input) < two63 →
  lookup_entries MarshalLookup input i ms =
    Ret (Some (imap (λ k r, message (i + k) (enc_lookup (aeID r))) rs)).
Proof.
  intros Hf Hlen. revert i. induction Hf as [|e r ms rs (k&He&Hk) _ IH]; intros i; [done|].
  cbn [lookup_entries]. rewrite He. cbn [deref]. run. pose proof (lookup_lt_Some _ _ _ Hk) as Hlt.
  rewrite atoi_itoa by lia. unfold index. rewrite decide_True, Nat2Z.id, Hk by lia. run.
  rewrite lookup_ok, IH. run. rewrite imap_cons, Nat.add_0_r. do 3 f_equal. apply imap_ext.
  intros j x _. cbn. f_equal. lia.
Qed.

Lemma delivered_bodies t l :
  (MessageBody <$> smalls (entries_from t 0 l)) ++ ((λ r, Some (enc_lookup (aeID r))) <$> filter (oversized t) l)
  ≡ₚ delivered t <$> l.
Proof.
  generalize 0%nat as i. induction l as [|r l IH]; intros i; [done|].
  rewrite entries_from_cons, smalls_cons, filter_cons, fmap_cons. unfold delivered at 1.
  change (entrySize (message i (body_of t r))) with (slen (body_of t r)). rewrite <-(IH (S i)).
  destruct (decide (oversized t r)) as [Hb|Hb]; unfold oversized in Hb.
  - rewrite decide_True by lia. cbn [app]. by rewrite (fmap_cons _ r), <-Permutation_middle.
  - rewrite decide_False by lia. cbn [app]. by rewrite fmap_cons.
Qed.

Lemma lookup_bodies i (rs : list (AddResourceEntry V)) :
  MessageBody <$> imap (λ k r, message (i + k) (enc_lookup (aeID r))) rs =
  (λ r, Some (enc_lookup (aeID r))) <$> rs.
Proof.
  revert i. induction rs as [|r rs IH]; intros i; [done|]. rewrite imap_cons, !fmap_cons. f_equal.
  rewrite <-(IH (S i)). f_equal. apply imap_ext. intros j x _. cbn. f_equal. lia.
Qed.

Definition stored (t : Time) (r : AddResourceEntry V) : string * M := (ResourcesTable, enc_item (added_item t r)).

Lemma flat_items_one (l : list M) : flat_items [(ResourcesTable, l)] = (ResourcesTable,.) <$> l.
Proof. unfold flat_items. cbn. by rewrite app_nil_r. Qed.

(** C10: a batch of resources is stored and announced completely.  When no
    oversized resource is directly followed by one that fills a message,
    AddResources returns without a panic; status 201 means that every resource
    was written to the table, with the time of the call and marked as not
    deleted, and that the queue got exactly one message for each, its own text
    or, when that is over 260000 bytes, a lookup of its identifier; otherwise
    the answer is status 500 and nothing that was stored or queued is lost. *)
Theorem add_resources_correct d q body st input :
  parseAddResources UnmarshalAdd validateAdd body = Ret (Ok input) → Z.of_nat (length input) < two63 →
  let t := now (clock st) in
  separated (entries_from t 0 input) →
  Forall (λ r, slen (enc_lookup (aeID r)) ≤ maxMessageBytes) input →
  Forall (λ m, writeItemCount m ≤ Z.of_nat maxBatchWriteItems) (writes d) → Forall batch_ok (requests q) →
  ∃ d' q' st' code, AddResources' d q body st = Ret (d', q', st', status_only code) ∧
    written d ⊆+ written d' ∧ queue q ⊆+ queue q' ∧
    (code = 500 ∨ code = 201 ∧ written d ++ (stored t <$> input) ⊆+ written d' ∧
      MessageBody <$> queue q' ≡ₚ (MessageBody <$> queue q) ++ (delivered t <$> input)).
Proof.
  intros Hparse Hlen t Hsep Hshort Hwr Hreq. unfold AddResources. rewrite Hparse. run. change (now (clock st)) with t. rewrite add_entries_eq.
  destruct (BatchWriteItem_spec ddb written writes Hddb d
    [(ResourcesTable, (λ r, enc_item (added_item t r)) <$> input)] Hwr) as (r&err&->&_&Hd).
  run. rewrite flat_items_one, <-list_fmap_compose in Hd.
  assert (written d ⊆+ written (Dynamodbbatch.world r)) as Hkeep.
  { destruct err as [e|].
    - destruct Hd as (dn&rest&_&Hd&_). etrans; [|exact Hd]. by apply submseteq_inserts_r.
    - destruct Hd as [Hd _]. etrans; [|exact Hd]. by apply submseteq_inserts_r. }
  destruct err as [e|]; [by eexists _, _, _, 500; auto|]. destruct Hd as [Hd _].
  destruct (SendMessageBatch_oversized sqs queue requests Hsqs sqs_text q (entries_from t 0 input) Hsep Hreq)
    as (r2&back&[e|]&->&Hreq2&Hq); run.
  - destruct Hq as [(->&->&Hq)|[Htext Hq]].
    2:{ rewrite decide_False by done. eexists _, _, _, 500. auto. }
    rewrite decide_True by done. unfold handleBigMessages.
    rewrite (lookup_entries_eq _ _ _ (filter (oversized t) input)) by
      (done || (eapply Forall2_impl; [apply (bigs_entries t 0 input)|done])).
    run. set (retries := imap _ _).
    destruct (SendMessageBatch_queue sqs queue requests Hsqs (Sqsbatch.world r2) retries) as (r3&?&err&->&_&Hq3).
    { apply Forall_forall. intros x Hx. assert (MessageBody x ∈ MessageBody <$> retries) as Hb
        by by apply list_elem_of_fmap_2. unfold retries in Hb. rewrite (lookup_bodies 0) in Hb.
      apply list_elem_of_fmap in Hb as (y&Hy&Hin). apply list_elem_of_filter in Hin as [_ Hin].
      rewrite Forall_forall in Hshort. specialize (Hshort y Hin). unfold entrySize. by rewrite Hy. }
    { done. }
    run. assert (queue q ⊆+ queue (Sqsbatch.world r2)) as Hk2 by (rewrite Hq; by apply submseteq_inserts_r).
    destruct err as [e|].
    + eexists _, _, _, 500. split; [done|]. split; [done|]. split; [by etrans|by left].
    + eexists _, _, _, 201. split; [done|]. split; [done|]. split; [by rewrite Hq3; apply submseteq_inserts_r|].
      right. split; [done|]. split; [done|]. rewrite Hq3, Hq, !fmap_app. unfold retries.
      rewrite (lookup_bodies 0), <-(assoc_L (++)). by rewrite delivered_bodies.
  - destruct Hq as [Hno Hq]. eexists _, _, _, 201. split; [done|]. split; [done|].
    split; [rewrite Hq; by apply submseteq_inserts_r|]. right. split; [done|]. split; [done|].
    rewrite Hq, fmap_app. f_equiv. rewrite <-delivered_bodies.
    pose proof (bigs_entries t 0 input) as Hb. rewrite Hno in Hb. inversion_clear Hb.
    cbn [fmap list_fmap]. rewrite app_nil_r. apply fmap_Permutation.
    rewrite (split_perm (entries_from t 0 input)) at 1. by rewrite Hno.
Qed.

(** a batch that starts with two neighbouring oversized resources is
    answered with status 201 although only the first one is announced: the
    other resources of the batch are stored but never analyzed, whatever their
    size. *)
Theorem add_resources_unannounced d q body st r1 r2 rest wr sr left :
  let t := now (clock st) in
  let input := r1 :: r2 :: rest in
  let msg := message 0 (enc_lookup (aeID r1)) in
  parseAddResources UnmarshalAdd validateAdd body = Ret (Ok input) →
  oversized t r1 → maxMessageBytes ≤ slen (body_of t r2) →
  entrySize msg ≤ maxMessageBytes → Forall batch_ok (requests q) →
  Dynamodbbatch.BatchWriteItem ddb d [(ResourcesTable, (λ r, enc_item (added_item t r)) <$> input)] = Ret (wr, None) →
  SendMessageBatch sqs q [msg] = Ret (sr, left, None) →
  ∃ st', AddResources' d q body st =
      Ret (Dynamodbbatch.world wr, Sqsbatch.world sr, st', status_only 201) ∧
    queue (Sqsbatch.world sr) ≡ₚ queue q ++ [msg].
Proof.
  intros t input msg Hparse Hb1 Hb2 Hl Hreq Hwr Hsr. unfold AddResources. rewrite Hparse. run.
  change (now (clock st)) with t. rewrite add_entries_eq, Hwr. run.
  unfold input. rewrite !entries_from_cons.
  rewrite SendMessageBatch_adjacent; [|unfold oversized in Hb1; unfold entrySize; cbn; lia|done].
  run. rewrite decide_True by done. unfold handleBigMessages. cbn [lookup_entries deref message Id].
  run. change (atoi (itoa (Z.of_nat 0))) with (Ok 0). run. unfold index. rewrite decide_True by lia.
  change ((r1 :: r2 :: rest) !! Z.to_nat 0) with (Some r1). run. rewrite lookup_ok. run. change (message 0 (enc_lookup (aeID r1))) with msg. cbn [Sqsbatch.world]. rewrite Hsr. run.
  eexists. split; [done|].
  destruct (SendMessageBatch_queue sqs queue requests Hsqs q [msg]) as (r'&l'&e'&Hr'&_&Hq);
    [by apply Forall_singleton|done|]. rewrite Hsr in Hr'. by simplify_eq.
Qed.
End AddSpec.

(** ** DeleteResources *)

Definition set_update {V} (u : Update) (i : resourceItem V) : resourceItem V :=
  {| riAttributes := riAttributes i; riDeleted := upDeleted u; riID := riID i;
     riIntegrationID := riIntegrationID i; riIntegrationType := riIntegrationType i;
     riLastModified := riLastModified i; riType := riType i; riExpiresAt := upExpiresAt u;
     riLowerID := riLowerID i |}.

(** What is relied on: an update with the condition that the item exists is
    applied to that item when it succeeds, and changes no other item. *)
Record UpdateClient {V D : Type} (tbl : D → gmap string (resourceItem V))
    (UpdateItem : D → string → Update → D * option error) : Prop := {
  update_ok : ∀ d id u d', UpdateItem d id u = (d', None) →
    is_Some (tbl d !! id) ∧ tbl d' = alter (set_update u) id (tbl d);
  update_missing : ∀ d id u d' msg, UpdateItem d id u = (d', Some (ErrAWS ErrCodeConditionalCheckFailed msg)) →
    tbl d !! id = None ∧ tbl d' = tbl d;
  update_err : ∀ d id u d' e, UpdateItem d id u = (d', Some e) →
    tbl d' = tbl d ∨ tbl d' = alter (set_update u) id (tbl d)
}.

Section DeleteSpec.
Context {V D C : Type} (now : nat → Time) (MarshalToString : payload V → result string).
Context (BuildUpdate : string → Update → option error)
        (UpdateItem : D → string → Update → D * option error)
        (DeleteStatus : C → list DeleteStatusEntry → C * option error).
Context (UnmarshalDelete : string → result (list string)) (validateDelete : list string → option error).
Context (tbl : D → gmap string (resourceItem V)) (Hupdate : UpdateClient tbl UpdateItem).

Lemma doUpdate_spec d u id :
  ∃ d' code, doUpdate (V := V) BuildUpdate UpdateItem d u id = (d', status_only code) ∧
    (∀ k, k ≠ id → tbl d' !! k = tbl d !! k) ∧
    (code = 200 ∨ code = 404 → tbl d' = alter (set_update u) id (tbl d)) ∧
    (code = 200 ∨ code = 404 ∨ code = 500).
Proof.
  unfold doUpdate. destruct (BuildUpdate id u); [eexists _, 500; split_and!; try done; lia|].
  destruct (UpdateItem d id u) as [d' [e|]] eqn:E.
  - assert (∀ k, k ≠ id → tbl d' !! k = tbl d !! k) as Hk.
    { intros k Hne. destruct (update_err _ _ Hupdate _ _ _ _ _ E) as [->| ->]; [done|]. by rewrite lookup_alter_ne. }
    assert (∀ n, (∀ k, k ≠ id → tbl d' !! k = tbl d !! k) → n = 500 → ∃ d2 code,
      (d', status_only n) = (d2, status_only (V := V) code) ∧ (∀ k, k ≠ id → tbl d2 !! k = tbl d !! k) ∧
      (code = 200 ∨ code = 404 → tbl d2 = alter (set_update u) id (tbl d)) ∧
      (code = 200 ∨ code = 404 ∨ code = 500)) as H500.
    { intros n ? ->. eexists _, 500. split_and!; try done; lia. }
    destruct e; try by apply H500. case_decide as Hc; [|by apply H500]. subst.
    eexists _, 404. split_and!; [done|done| |lia]. intros _.
    destruct (update_missing _ _ Hupdate _ _ _ _ _ E) as [Hn ->].
    apply map_eq. intros k. destruct (decide (k = id)) as [->|]; [by rewrite lookup_alter_eq, Hn|by rewrite lookup_alter_ne].
  - destruct (update_ok _ _ Hupdate _ _ _ _ E) as [_ Ht]. eexists _, 200. split_and!; [done| |done|lia].
    intros k Hne. by rewrite Ht, lookup_alter_ne.
Qed.

Lemma mark_deleted_spec d u ids :
  ∃ d' resp, mark_deleted (V := V) BuildUpdate UpdateItem d u ids = (d', resp) ∧
    (∀ k, k ∉ ids → tbl d' !! k = tbl d !! k) ∧
    match resp with
    | None => ∀ k, k ∈ ids → tbl d' !! k = set_update u <$> tbl d !! k
    | Some r => r = status_only 500
    end.
Proof.
  revert d. induction ids as [|id ids IH]; intros d; cbn [mark_deleted].
  { eexists _, None. split_and!; [done|done|]. intros k Hk. by apply not_elem_of_nil in Hk. }
  destruct (doUpdate_spec d u id) as (d1&code&->&Ho&Hin&Hcode). cbn [prStatusCode status_only].
  case_decide as Hc.
  - specialize (Hin Hc). destruct (IH d1) as (d2&resp&->&Ho2&Hr). eexists _, _. split; [done|]. split.
    + intros k [Hne Hk]%not_elem_of_cons. by rewrite Ho2, Ho.
    + destruct resp; [done|]. intros k Hk. destruct (decide (k ∈ ids)) as [Hki|Hki].
      * rewrite Hr by done. destruct (decide (k = id)) as [->|Hne]; [|by rewrite Ho].
        rewrite Hin, lookup_alter_eq. by destruct (tbl d !! id).
      * assert (k = id) as -> by set_solver. by rewrite Ho2, Hin, lookup_alter_eq.
  - eexists _, _. split; [done|]. split; [|destruct Hcode as [?|[?| ->]]; tauto].
    intros k [Hne Hk]%not_elem_of_cons. by apply Ho.
Qed.

Notation DeleteResources' :=
  (DeleteResources now MarshalToString BuildUpdate UpdateItem DeleteStatus UnmarshalDelete validateDelete).

(** deleting marks exactly the listed resources.  After DeleteResources
    every other resource is as before; status 200 means that each listed
    resource that exists is marked as deleted and expires thirty days after
    the call, and that the compliance API deleted the status of all listed
    resources, also of those that no longer exist; the only other answer to a
    valid request is status 500. *)
Theorem delete_resources_correct d c body st ids :
  parseDeleteResources UnmarshalDelete validateDelete body = Ok ids →
  let u := {| upDeleted := true; upExpiresAt := int64 (ToUnix (now (clock st)) + deleteWindowSecs) |} in
  ∃ d' c' st' code, DeleteResources' d c body st = (d', c', st', status_only code) ∧
    (∀ k, k ∉ ids → tbl d' !! k = tbl d !! k) ∧
    (code = 500 ∨ code = 200 ∧ (∀ k, k ∈ ids → tbl d' !! k = set_update u <$> tbl d !! k) ∧
       DeleteStatus c ((λ id, {| dePolicy := None; deResource := Some id |}) <$> ids) = (c', None)).
Proof.
  intros Hp u. unfold DeleteResources. rewrite Hp. fold u.
  destruct (mark_deleted_spec d u ids) as (d'&[resp|]&->&Ho&Hr).
  - subst. eexists _, _, _, 500. auto.
  - destruct (DeleteStatus c _) as [c' [e|]] eqn:E.
    + eexists _, _, _, 500. auto.
    + eexists _, _, _, 200. auto 10.
Qed.
End DeleteSpec.

(** ** OrgOverview *)

Section OverviewSpec.
Context {V D Raw : Type} (items : D → list (resourceItem V)).
Context (ScanPages : D → ScanInput → list Raw * option error)
        (UnmarshalPage : Raw → result (list (resourceItem V))).
Context {table : ResourceTable items ScanPages UnmarshalPage}.
Context (MarshalToString : payload V → result string) (Build : Condition → list string → option error).
Context (order : list (string * Z) → list (string * Z)) (Horder : ∀ l, order l ≡ₚ l).

Definition of_type (ty : string) (l : list (resourceItem V)) : Z :=
  Z.of_nat (length (filter (λ i, riType i = ty) l)).

Definition alive (d : D) : list (resourceItem V) := filter (λ i, riDeleted i = false) (items d).

Lemma count_types_spec l m base :
  Z.of_nat (length (base ++ l)) < two63 →
  (∀ ty n, m !! ty = Some n ↔ n = of_type ty base ∧ 0 < n) →
  ∀ ty n, foldl count_type m l !! ty = Some n ↔ n = of_type ty (base ++ l) ∧ 0 < n.
Proof.
  revert m base. induction l as [|i l IH]; intros m base Hlen Hm; cbn [foldl]; [by rewrite app_nil_r|].
  rewrite cons_middle, (assoc_L (++)). apply IH; [by rewrite <-(assoc_L (++))|].
  assert (default 0 (m !! riType i) = of_type (riType i) base) as Hd.
  { destruct (m !! riType i) as [n|] eqn:E; [by apply Hm in E as [-> _]|]. cbn.
    destruct (decide (of_type (riType i) base = 0)) as [|Hne]; [done|].
    assert (m !! riType i = Some (of_type (riType i) base)) by (apply Hm; unfold of_type in *; lia). congruence. }
  assert (∀ ty, of_type ty (base ++ [i]) = of_type ty base + if decide (riType i = ty) then 1 else 0) as Hs.
  { intros ty. unfold of_type. rewrite filter_app, length_app, filter_cons, filter_nil. case_decide; cbn; lia. }
  assert (∀ ty, 0 ≤ of_type ty base ≤ Z.of_nat (length base)) as Hb.
  { intros ty. unfold of_type. pose proof (length_filter (λ i, riType i = ty) base). lia. }
  intros ty n. unfold count_type. rewrite Hs. destruct (decide (riType i = ty)) as [<-|Hne].
  - rewrite lookup_insert_eq, Hd. rewrite length_app in Hlen. cbn in Hlen.
    specialize (Hb (riType i)). rewrite int64_id by (unfold in_int64, two63 in *; lia).
    split; [intros [= <-]; lia|intros [-> ?]; done].
  - rewrite lookup_insert_ne, Hm, Z.add_0_r by done. done.
Qed.

(** The overview counts the resources that are not deleted: when the scan
    succeeds, every resource type that occurs is listed once, with the number
    of its resources, and no other type, whatever the order of the map. *)
Theorem org_overview_correct d pages :
  (∀ l, ∃ s, MarshalToString (POverview l) = Ok s) →
  Build (Equal "deleted" (VBool false)) ["type"] = None →
  ScanPages d {| siFilter := Equal "deleted" (VBool false); siProjection := ["type"] |} = (pages, None) →
  Z.of_nat (length (items d)) < two63 →
  ∃ l, OrgOverview MarshalToString Build ScanPages UnmarshalPage order d =
      Ret {| prStatusCode := 200; prBody := POverview l |} ∧
    NoDup (rtType <$> l) ∧
    ∀ ty n, {| rtCount := n; rtType := ty |} ∈ l ↔ n = of_type ty (alive d) ∧ 0 < n.
Proof.
  intros Hm Hb Hscan Hlen. unfold OrgOverview, buildOrgOverviewScan. rewrite Hb. unfold scanPages. rewrite Hscan.
  destruct (scan_ok d _ _ Hscan) as (found&Hf&Hp).
  assert (∀ m, scan_loop UnmarshalPage (λ m item, Ret (count_type m item, None)) m pages None =
    Ret (foldl count_type m (concat found), None)) as Hloop.
  { clear -Hf. induction Hf as [|page l pages found Hp _ IH]; intros m; cbn; [done|]. rewrite Hp.
    assert (∀ m, handle_page (λ m item, Ret (count_type m item, None)) m l = Ret (foldl count_type m l, None)) as ->.
    { clear. induction l as [|x l IH]; intros m; cbn; [done|]. run. apply IH. }
    run. rewrite IH, foldl_app. done. }
  rewrite Hloop. run. set (m := foldl count_type ∅ (concat found)).
  unfold MarshalResponse. destruct (Hm ((λ kv, {| rtCount := kv.2; rtType := kv.1 |}) <$> order (map_to_list m)))
    as [s ->]. eexists. split; [done|]. split.
  - rewrite <-list_fmap_compose. change (rtType ∘ _) with (@fst string Z). rewrite Horder.
    apply NoDup_fst_map_to_list.
  - intros ty n.
    assert (filter (λ i, sat (Equal "deleted" (VBool false)) i = true) (items d) = alive d) as Ha.
    { apply list_filter_iff. intros i. unfold sat. rewrite (holds_bool _ "deleted" (riDeleted i)) by done.
      by rewrite bool_decide_eq_true. }
    cbn [siFilter siProjection] in Hp. rewrite Ha in Hp.
    assert (∀ ty, of_type ty (concat found) = of_type ty (alive d)) as Hof.
    { intros ty'. unfold of_type. rewrite Hp. clear. induction (alive d) as [|i l IH]; [done|].
      rewrite fmap_cons, !filter_cons. cbn [project riType]. 
      change (if decide ("type" ∈ ["type"]) then riType i else "") with (riType i).
      case_decide; cbn [length]; lia. }
    assert (m !! ty = Some n ↔ n = of_type ty (alive d) ∧ 0 < n) as <-.
    { rewrite <-Hof. apply (count_types_spec (concat found) ∅ []).
      - cbn. rewrite Hp, length_fmap. unfold alive. pose proof (length_filter (λ i, riDeleted i = false) (items d)). lia.
      - intros ty' n'. rewrite lookup_empty. unfold of_type. cbn. split; [done|]. intros [-> ?]. lia. }
    rewrite list_elem_of_fmap. split.
    + intros ([ty' n']&[= -> ->]&Hin). rewrite Horder in Hin. by apply elem_of_map_to_list in Hin.
    + intros Hin. exists (ty, n). split; [done|]. rewrite Horder. by apply elem_of_map_to_list.
Qed.
End OverviewSpec.

(** ** Witnesses *)

Definition demo_item (id ty : string) (deleted : bool) : resourceItem unit :=
  {| riAttributes := AttrMap {["a" := tt]}; riDeleted := deleted; riID := id; riIntegrationID := "i";
     riIntegrationType := "aws"; riLastModified := 5; riType := ty; riExpiresAt := 0; riLowerID := to_lower id |}.

Definition demo_items : list (resourceItem unit) :=
  [demo_item "B" "bucket" false; demo_item "a" "user" false; demo_item "C" "bucket" false; demo_item "d" "user" true].

Definition demo_scan (_ : unit) (input : ScanInput) : list (list (resourceItem unit)) * option error :=
  ([project (siProjection input) <$> filter (λ i, sat (siFilter input) i = true) demo_items], None).

Lemma demo_table : ResourceTable (λ _ : unit, demo_items) demo_scan Ok.
Proof.
  split.
  - intros _. refine (bool_decide_unpack _ _). by vm_compute.
  - intros d input pages [= <-]. exists [project (siProjection input) <$>
      filter (λ i, sat (siFilter input) i = true) demo_items].
    split; [repeat constructor|]. cbn [concat]. by rewrite app_nil_r.
Qed.

Definition demo_now (n : nat) : Time := Z.of_nat n.
Definition demo_answer : list (option string * string) := [(Some "C", "FAIL"); (Some "B", "FAIL")].
Definition demo_rs : gmap string complianceStatus :=
  <["B" := {| csSortIndex := 1; csStatus := "FAIL" |}]> {["C" := {| csSortIndex := 0; csStatus := "FAIL" |}]}.
Definition demo_start : apiState := {| complianceCache := None; clock := 0 |}.
Definition ok_none {A} (_ : A) : option error := None.
Definition ok_build (_ : Condition) (_ : list string) : option error := None.
Definition ok_marshal {V} (_ : payload V) : result string := Ok "".
Definition demo_query : gmap string string :=
  <["sortBy" := "complianceStatus"]> (<["sortDir" := "descending"]> {["deleted" := "false"]}).

Definition demo_params (status : option string) (deleted : option bool) (fields : list string)
    (sortBy sortDir : string) : ListResourcesParams :=
  {| lpComplianceStatus := status; lpDeleted := deleted; lpIDContains := None; lpIntegrationID := None;
     lpIntegrationType := None; lpTypes := []; lpFields := fields; lpSortBy := sortBy; lpSortDir := sortDir;
     lpPageSize := 25; lpPage := 1 |}.

Lemma compliance_cache_fresh_witness :
  ∃ st', cache_inv demo_now (λ _, Ok demo_answer) st' ∧
    ∃ k j e, (k ≤ j)%nat ∧ (j < clock st')%nat ∧ loaded_at demo_now (λ _, Ok demo_answer) k e ∧
      demo_now j < demo_now k + complianceCacheDuration ∧
      {| csSortIndex := 1; csStatus := "FAIL" |} = status_in (ccResources e) "B".
Proof.
  eexists. apply (compliance_cache_fresh demo_now (λ _, Ok demo_answer) demo_start "B").
  - intros i j Hij. unfold demo_now. lia.
  - intros e He. discriminate He.
  - vm_compute. reflexivity.
Defined.

Lemma pages_cover_witness :
  ∃ answers, Forall2 (λ p answer, pageResources (to_Resource "" <$> demo_items) 3 (Z.of_nat p + 1) = Ret answer)
      (seq 0 (Z.to_nat (total_pages 4 3))) answers ∧
    concat (rlResources <$> answers) = to_Resource "" <$> demo_items ∧
    Forall (λ answer, pgTotalPages (rlPaging answer) = total_pages 4 3 ∧ pgTotalItems (rlPaging answer) = 4 ∧
      Z.of_nat (length (rlResources answer)) ≤ 3) answers.
Proof.
  assert (1 ≤ 3) as H1 by lia. assert (Z.of_nat (length demo_items) + 3 < two63) as H2 by by vm_compute.
  exact (pages_cover (to_Resource "" <$> demo_items) 3 H1 H2).
Defined.

Lemma page_overflow_panics_witness :
  pageResources (to_Resource "" <$> demo_items) 2 (2 ^ 62 + 1) = Panic "slice bounds out of range".
Proof. apply page_overflow_panics; [done|lia|split; done|split; done]. Defined.

Lemma demo_stable : stable demo_rs demo_start.
Proof. intros e He. discriminate He. Qed.

Definition demo_list_params : ListResourcesParams :=
  demo_params None (Some false) defaultFields "complianceStatus" "descending".

Definition demo_sorted : list (Resource unit) :=
  sort_slice (sort_less (λ _, "") demo_rs "complianceStatus" false)
    (listing (λ _ : unit, demo_items) demo_answer tt demo_list_params).

Lemma list_resources_correct_witness :
  reID <$> demo_sorted = ["C"; "B"; "a"] ∧
  ∃ st', ListResources demo_now (λ _, Ok demo_answer) (λ _, "") ok_marshal ok_none ok_none ok_build demo_scan Ok tt
      demo_query demo_start =
    Ret (st', {| prStatusCode := 200; prBody := PList (page_ref demo_sorted 25 1) |}) ∧ stable demo_rs st'.
Proof.
  split; [vm_compute; reflexivity|].
  destruct (list_resources_correct (table := demo_table) (λ _, demo_items) demo_scan Ok demo_now (λ _, Ok demo_answer) (λ _, "")
    ok_marshal ok_none ok_none ok_build demo_answer demo_rs (λ _, eq_refl) eq_refl tt demo_query demo_list_params
    (demo_scan tt (scan_of demo_list_params)).1 demo_start)
    as (st'&L&HL&Huniq&Hlist&Hst).
  - vm_compute. reflexivity.
  - reflexivity.
  - reflexivity.
  - intros l. by exists "".
  - refine (bool_decide_unpack _ _). by vm_compute.
  - intros _. refine (bool_decide_unpack _ _). by vm_compute.
  - vm_compute. reflexivity.
  - refine (bool_decide_unpack _ _). by vm_compute.
  - apply demo_stable.
  - rewrite (Huniq demo_sorted); [by exists st'|]. apply (sorts_sorted_as _ _ demo_rs); [reflexivity| | |].
    + refine (bool_decide_unpack _ _). by vm_compute.
    + intros _. split; [|refine (bool_decide_unpack _ _); by vm_compute].
      eapply (cache_resources_ok demo_answer 0 ∅); [reflexivity|apply cache_ok_empty| |done].
      refine (bool_decide_unpack _ _). by vm_compute.
    + apply sort_slice_sorts. intros x y. apply sort_less_asym.
Defined.

Lemma status_without_id_witness :
  ∃ st' l, listFilteredResources demo_now (λ _, Ok demo_answer) demo_scan Ok tt
      (scan_of (demo_params (Some "FAIL") None ["complianceStatus"; "type"] "id" "ascending"))
      (demo_params (Some "FAIL") None ["complianceStatus"; "type"] "id" "ascending") demo_start = Ret (st', l, None) ∧
    Forall (λ r, reComplianceStatus r = StatusPASS) l ∧ (Some "FAIL" = Some StatusFAIL → l = []).
Proof.
  eapply (status_without_id (table := demo_table) (λ _, demo_items) demo_scan Ok demo_now (λ _, Ok demo_answer)
    demo_answer demo_rs (λ _, eq_refl) eq_refl tt
    (demo_params (Some "FAIL") None ["complianceStatus"; "type"] "id" "ascending")).
  - refine (bool_decide_unpack _ _). by vm_compute.
  - refine (bool_decide_unpack _ _). by vm_compute.
  - reflexivity.
  - apply demo_stable.
  - reflexivity.
Defined.

Lemma sort_by_status_panics_witness :
  ListResources demo_now (λ _, Ok demo_answer) (λ _, "") ok_marshal ok_none ok_none ok_build demo_scan Ok tt
    (<["fields" := "id,type"]> {["sortBy" := "complianceStatus"]}) demo_start = Panic "nil pointer dereference".
Proof.
  eapply (sort_by_status_panics (table := demo_table) (λ _, demo_items) demo_scan Ok demo_now (λ _, Ok demo_answer)
    (λ _, "") ok_marshal ok_none ok_none ok_build tt _
    (demo_params None None ["id"; "type"] "complianceStatus" "ascending")).
  - vm_compute. reflexivity.
  - reflexivity.
  - reflexivity.
  - reflexivity.
  - refine (bool_decide_unpack _ _). by vm_compute.
  - reflexivity.
  - vm_compute. lia.
Defined.

Lemma org_overview_correct_witness :
  ∃ l, OrgOverview ok_marshal ok_build demo_scan Ok (λ l, l) tt = Ret {| prStatusCode := 200; prBody := POverview l |} ∧
    NoDup (rtType <$> l) ∧
    ∀ ty n, {| rtCount := n; rtType := ty |} ∈ l ↔ n = of_type ty (alive (λ _ : unit, demo_items) tt) ∧ 0 < n.
Proof.
  eapply (org_overview_correct (table := demo_table) (λ _, demo_items) demo_scan Ok ok_marshal ok_build (λ l, l)).
  - done.
  - intros l. by exists "".
  - reflexivity.
  - reflexivity.
  - vm_compute. reflexivity.
Defined.

(** a table that is a map *)
Definition demo_update (d : gmap string (resourceItem unit)) (id : string) (u : Update)
    : gmap string (resourceItem unit) * option error :=
  match d !! id with
  | Some _ => (alter (set_update u) id d, None)
  | None => (d, Some (ErrAWS ErrCodeConditionalCheckFailed ""))
  end.

Lemma demo_update_ok : UpdateClient (λ d, d) demo_update.
Proof.
  split; unfold demo_update; intros d id u d'; destruct (d !! id) eqn:E; intros; simplify_eq; eauto.
Qed.

Lemma delete_resources_correct_witness :
  ∃ d' c' st' code,
    DeleteResources (V := unit) demo_now ok_marshal (λ _ _, None) demo_update (λ (c : nat) l, ((c + length l)%nat, None))
      (λ _, Ok ["B"; "gone"]) ok_none {["B" := demo_item "B" "bucket" false]} 0%nat "" demo_start =
      (d', c', st', status_only code) ∧
    (∀ k, k ∉ ["B"; "gone"] → d' !! k = ({["B" := demo_item "B" "bucket" false]} : gmap _ _) !! k) ∧
    (code = 500 ∨ code = 200 ∧
      (∀ k, k ∈ ["B"; "gone"] → d' !! k =
         set_update {| upDeleted := true; upExpiresAt := int64 (ToUnix (demo_now 0) + deleteWindowSecs) |} <$>
         ({["B" := demo_item "B" "bucket" false]} : gmap _ _) !! k) ∧
      ((0 + 2)%nat, @None error) = (c', None)).
Proof.
  apply (delete_resources_correct demo_now ok_marshal (λ _ _, None) demo_update
    (λ (c : nat) l, ((c + length l)%nat, None)) (λ _, Ok ["B"; "gone"]) ok_none (λ d, d) demo_update_ok
    {["B" := demo_item "B" "bucket" false]} 0%nat "" demo_start ["B"; "gone"]).
  reflexivity.
Defined.

Definition demo_entry (id : string) : AddResourceEntry unit :=
  {| aeAttributes := AttrMap {["a" := tt]}; aeID := id; aeIntegrationID := "i"; aeIntegrationType := "aws";
     aeType := "bucket" |}.

Definition demo_body (r : Resource unit) : string :=
  if decide (reID r = "big") then body 260001 else reID r.

Definition demo_enc (i : resourceItem unit) : nat := String.length (riID i).

Lemma entrySize_big i r : reID r = "big" → entrySize (message i (demo_body r)) = 260001.
Proof. intros H. unfold demo_body. rewrite decide_True by done. by apply entrySize_body. Qed.

Lemma demo_separated :
  separated (entries_from demo_body 0 0 (demo_entry <$> ["a"; "big"; "c"])).
Proof.
  cbn [fmap list_fmap]. rewrite !entries_from_cons. cbn [separated]. split; [|split; [|done]].
  - intros [H _]. by vm_compute in H.
  - intros [_ H]. by vm_compute in H.
Qed.

Lemma add_resources_correct_witness :
  ∃ d' q' st' code,
    AddResources demo_now ok_marshal (backoff := bounded_backoff 3) "t" write_all queue_all
      (λ _, Ok (Some <$> (demo_entry <$> ["a"; "big"; "c"]))) ok_none (λ i, Ok (demo_enc i)) (λ r, Ok (demo_body r))
      (λ id, Ok ("lookup " +:+ id)) ([], []) ([], []) "" demo_start = Ret (d', q', st', status_only code) ∧
    [] ⊆+ d'.1 ∧ [] ⊆+ q'.1 ∧
    (code = 500 ∨ code = 201 ∧ [] ++ [("t", 1%nat); ("t", 3%nat); ("t", 1%nat)] ⊆+ d'.1 ∧
      MessageBody <$> q'.1 ≡ₚ
        [] ++ (delivered demo_body (λ id, "lookup " +:+ id) 0 <$> (demo_entry <$> ["a"; "big"; "c"]))).
Proof.
  refine (add_resources_correct demo_now ok_marshal (backoff := bounded_backoff 3) "t" write_all fst snd queue_all fst snd
    (λ _, Ok (Some <$> (demo_entry <$> ["a"; "big"; "c"]))) ok_none (λ i, Ok (demo_enc i)) (λ r, Ok (demo_body r))
    (λ id, Ok ("lookup " +:+ id)) write_all_ok queue_all_ok _ demo_enc demo_body (λ id, "lookup " +:+ id)
    (λ _, eq_refl) (λ _, eq_refl) (λ _, eq_refl) ([], []) ([], []) "" demo_start
    (demo_entry <$> ["a"; "big"; "c"]) _ _ demo_separated _ _ _).
  - intros w es w' e. unfold queue_all. destruct (forallb _ es); intros; by simplify_eq.
  - vm_compute. reflexivity.
  - vm_compute. reflexivity.
  - repeat constructor; by vm_compute.
  - constructor.
  - constructor.
Defined.

Lemma add_resources_unannounced_witness :
  ∃ st', AddResources demo_now ok_marshal (backoff := bounded_backoff 3) "t" write_all queue_all
      (λ _, Ok (Some <$> (demo_entry <$> ["big"; "big"; "c"]))) ok_none (λ i, Ok (demo_enc i)) (λ r, Ok (demo_body r))
      (λ id, Ok id) ([], []) ([], []) "" demo_start =
    Ret (Dynamodbbatch.world (W := list (string * nat) * list (gmap string (list nat))) (T := nat)
           {| Dynamodbbatch.world := ([("t", 3%nat); ("t", 3%nat); ("t", 1%nat)], [{["t" := [3; 3; 1]%nat]}]);
              RequestItems := {["t" := [3; 3; 1]%nat]}; Dynamodbbatch.successCount := 3 |},
         Sqsbatch.world {| Sqsbatch.world := ([message 0 "big"], [[message 0 "big"]]);
                           entries := [message 0 "big"]; successCount := 1 |}, st', status_only 201) ∧
    [message 0 "big"] ≡ₚ [] ++ [message 0 "big"].
Proof.
  refine (add_resources_unannounced demo_now ok_marshal (backoff := bounded_backoff 3) "t" write_all queue_all fst snd
    (λ _, Ok (Some <$> (demo_entry <$> ["big"; "big"; "c"]))) ok_none (λ i, Ok (demo_enc i)) (λ r, Ok (demo_body r))
    (λ id, Ok id) queue_all_ok demo_enc demo_body (λ id, id) (λ _, eq_refl) (λ _, eq_refl) (λ _, eq_refl)
    ([], []) ([], []) "" demo_start (demo_entry "big") (demo_entry "big") [demo_entry "c"] _ _ [] _ _ _ _ _ _ _).
  - vm_compute. reflexivity.
  - unfold oversized. change (slen _) with (entrySize (message 0 (demo_body (to_Resource "" (item_of 0 (demo_entry "big")))))).
    by rewrite entrySize_big.
  - change (slen _) with (entrySize (message 0 (demo_body (to_Resource "" (item_of 0 (demo_entry "big")))))).
    by rewrite entrySize_big.
  - by vm_compute.
  - constructor.
  - vm_compute. reflexivity.
  - vm_compute. reflexivity.
Defined.
