(* ===== verification/AnalysisApi.v ===== *)
(** * Analysis API: policies and rules

    Model of src/internal/core/analysis_api/handlers without list.go and
    bulk_upload.go ([AnalysisList], [AnalysisBulk]): the table of policies and
    rules, their versions in S3, and what a change means for the compliance
    status.  DynamoDB, S3, SQS, JSON, the compliance API and the generated
    validators are parameters; the types of the compliance API are those of
    [ComplianceHandlers] and the cache of its answers is that of
    [ResourcesApi], whose code is the same.  The tests of a policy are not
    null. *)

From S2P Require Import Prelude GoTime GoSort GoPath Compliance ComplianceHandlers Backoff Dynamodbbatch.
From S2P Require Import Sqsbatch AlertOutputs ResourcesApi.

#[local] Open Scope Z_scope.

(** ** Data *)

Definition typePolicy : string := "POLICY".
Definition typeRule : string := "RULE".

Definition errNotExists : error := ErrMsg "policy/rule does not exist".
Definition errExists : error := ErrMsg "policy/rule already exists".
Definition errWrongType : error := ErrMsg "trying to replace a rule with a policy (or vice versa)".

(** models.UnitTest *)
Record UnitTest := {
  utExpectedResult : bool; utName : string; utResource : string; utResourceType : string
}.

#[export] Instance UnitTest_eq_dec : EqDecision UnitTest.
Proof. solve_decision. Defined.

(** the fields that the table, policies and rules have in common *)
Record commonFields := {
  Body : string;
  Description : string;
  DisplayName : string;
  Enabled : bool;
  ID : string;
  Reference : string;
  Runbook : string;
  Severity : string
}.

#[export] Instance commonFields_eq_dec : EqDecision commonFields.
Proof. solve_decision. Defined.

(** when and by whom it was created and changed *)
Record audit := { CreatedAt : Time; CreatedBy : string; LastModified : Time; LastModifiedBy : string }.

#[export] Instance audit_eq_dec : EqDecision audit.
Proof. solve_decision. Defined.

(** tableItem *)
Record tableItem := {
  tiCommon : commonFields;
  AutoRemediationID : string;
  AutoRemediationParameters : gmap string string;
  ResourceTypes : list string;
  Suppressions : list string;
  Tags : list string;
  Tests : list UnitTest;
  tiAudit : audit;
  VersionID : string;
  DedupPeriodMinutes : Z;
  Type_ : string;
  LowerDisplayName : string;
  LowerID : string;
  LowerTags : list string
}.

(** models.Policy and models.Rule *)
Record Policy := {
  poCommon : commonFields;
  poAutoRemediationID : string;
  poAutoRemediationParameters : gmap string string;
  poComplianceStatus : string;
  poResourceTypes : list string;
  poSuppressions : list string;
  poTags : list string;
  poTests : list UnitTest;
  poAudit : audit;
  poVersionID : string
}.

#[export] Instance Policy_eq_dec : EqDecision Policy.
Proof. solve_decision. Defined.

Record Rule := {
  ruCommon : commonFields;
  ruLogTypes : list string;
  ruTags : list string;
  ruTests : list UnitTest;
  ruAudit : audit;
  ruVersionID : string;
  ruDedupPeriodMinutes : Z
}.

(** assignments to some fields of an item *)
Definition with_sets (i : tableItem) (types suppressions tags : list string) (tests : list UnitTest) : tableItem :=
  {| tiCommon := tiCommon i; AutoRemediationID := AutoRemediationID i;
     AutoRemediationParameters := AutoRemediationParameters i; ResourceTypes := types;
     Suppressions := suppressions; Tags := tags; Tests := tests; tiAudit := tiAudit i; VersionID := VersionID i;
     DedupPeriodMinutes := DedupPeriodMinutes i; Type_ := Type_ i; LowerDisplayName := LowerDisplayName i;
     LowerID := LowerID i; LowerTags := LowerTags i |}.

Definition with_audit (i : tableItem) (a : audit) : tableItem :=
  {| tiCommon := tiCommon i; AutoRemediationID := AutoRemediationID i;
     AutoRemediationParameters := AutoRemediationParameters i; ResourceTypes := ResourceTypes i;
     Suppressions := Suppressions i; Tags := Tags i; Tests := Tests i; tiAudit := a; VersionID := VersionID i;
     DedupPeriodMinutes := DedupPeriodMinutes i; Type_ := Type_ i; LowerDisplayName := LowerDisplayName i;
     LowerID := LowerID i; LowerTags := LowerTags i |}.

Definition with_version (i : tableItem) (v : string) : tableItem :=
  {| tiCommon := tiCommon i; AutoRemediationID := AutoRemediationID i;
     AutoRemediationParameters := AutoRemediationParameters i; ResourceTypes := ResourceTypes i;
     Suppressions := Suppressions i; Tags := Tags i; Tests := Tests i; tiAudit := tiAudit i; VersionID := v;
     DedupPeriodMinutes := DedupPeriodMinutes i; Type_ := Type_ i; LowerDisplayName := LowerDisplayName i;
     LowerID := LowerID i; LowerTags := LowerTags i |}.

Definition with_lower (i : tableItem) (name id : string) (tags : list string) : tableItem :=
  {| tiCommon := tiCommon i; AutoRemediationID := AutoRemediationID i;
     AutoRemediationParameters := AutoRemediationParameters i; ResourceTypes := ResourceTypes i;
     Suppressions := Suppressions i; Tags := Tags i; Tests := Tests i; tiAudit := tiAudit i; VersionID := VersionID i;
     DedupPeriodMinutes := DedupPeriodMinutes i; Type_ := Type_ i; LowerDisplayName := name; LowerID := id;
     LowerTags := tags |}.

(** ** Sets of strings (util.go) *)

(** the lowercased strings, each once, in the order of their first occurrence *)
Fixpoint lower_go (seen : gset string) (set : list string) : list string :=
  match set with
  | [] => []
  | item :: set =>
      let lower := to_lower item in
      if decide (lower ∈ seen) then lower_go seen set else lower :: lower_go ({[lower]} ∪ seen) set
  end.
Definition lowerSet (set : list string) : list string := lower_go ∅ set.

Definition setDifference (first second : list string) : list string :=
  let secondMap : gset string := list_to_set second in filter (λ x, x ∉ secondMap) first.

Definition setEquality (first second : list string) : bool :=
  let firstMap : gset string := list_to_set first in
  let secondMap : gset string := list_to_set second in
  if decide (size firstMap ≠ size secondMap) then false
  else forallb (λ x, bool_decide (x ∈ secondMap)) (elements firstMap).

Definition ci_less (a b : string) : bool :=
  if decide (to_lower a = to_lower b) then sltb a b else sltb (to_lower a) (to_lower b).

Definition sortCaseInsensitive : list string → list string := sort_slice ci_less.

(** ** Items (dynamo.go) *)

Definition addExtraFields (r : tableItem) : tableItem :=
  with_lower r (to_lower (DisplayName (tiCommon r))) (to_lower (ID (tiCommon r))) (lowerSet (Tags r)).

Definition normalize (r : tableItem) : tableItem :=
  with_sets r (sortCaseInsensitive (ResourceTypes r)) (sortCaseInsensitive (Suppressions r))
    (sortCaseInsensitive (Tags r)) (Tests r).

(** the conversions also normalize the item itself: [to_Policy] is applied to
    the normalized item *)
Definition to_Policy (status : string) (r : tableItem) : Policy :=
  {| poCommon := tiCommon r; poAutoRemediationID := AutoRemediationID r;
     poAutoRemediationParameters := AutoRemediationParameters r; poComplianceStatus := status;
     poResourceTypes := ResourceTypes r; poSuppressions := Suppressions r; poTags := Tags r; poTests := Tests r;
     poAudit := tiAudit r; poVersionID := VersionID r |}.

Definition Policy_of (status : string) (r : tableItem) : Policy := to_Policy status (normalize r).

Definition Rule_of (r : tableItem) : Rule :=
  let r := normalize r in
  {| ruCommon := tiCommon r; ruLogTypes := ResourceTypes r; ruTags := Tags r; ruTests := Tests r;
     ruAudit := tiAudit r; ruVersionID := VersionID r; ruDedupPeriodMinutes := DedupPeriodMinutes r |}.

(** ** Equality of policies (util.go) *)

Section Equality.
(** a JSON object written in alphabetical order *)
Context (normalizeJSON : string → result string).

(** the tests, rewritten in place up to the first that is not JSON *)
Fixpoint standardizeTests (tests : list UnitTest) : list UnitTest * option error :=
  match tests with
  | [] => ([], None)
  | t :: tests =>
      match normalizeJSON (utResource t) with
      | Err e => (t :: tests, Some e)
      | Ok normalized =>
          let '(tests, err) := standardizeTests tests in
          ({| utExpectedResult := utExpectedResult t; utName := utName t; utResource := normalized;
              utResourceType := utResourceType t |} :: tests, err)
      end
  end.

Definition with_tests (i : tableItem) (tests : list UnitTest) : tableItem :=
  with_sets i (ResourceTypes i) (Suppressions i) (Tags i) tests.

(** reflect.DeepEqual after the automatic fields of [p2] are copied to [p1] *)
Definition same_policy (p1 p2 : Policy) : bool :=
  bool_decide ({| poCommon := poCommon p1; poAutoRemediationID := poAutoRemediationID p1;
                  poAutoRemediationParameters := poAutoRemediationParameters p1;
                  poComplianceStatus := poComplianceStatus p1; poResourceTypes := poResourceTypes p1;
                  poSuppressions := poSuppressions p1; poTags := poTags p1; poTests := poTests p1;
                  poAudit := poAudit p2; poVersionID := poVersionID p2 |} = p2).

(** the two items, normalized and with their tests rewritten, and the answer *)
Definition policiesEqual (first second : tableItem) : tableItem * tableItem * bool * option error :=
  let first := normalize first in
  let second := normalize second in
  match standardizeTests (Tests first) with
  | (tests, Some e) => (with_tests first tests, second, false, Some e)
  | (tests, None) =>
      let first := with_tests first tests in
      match standardizeTests (Tests second) with
      | (tests, Some e) => (first, with_tests second tests, false, Some e)
      | (tests, None) =>
          let second := with_tests second tests in
          (first, second, same_policy (to_Policy "" first) (to_Policy "" second), None)
      end
  end.
End Equality.

(** ** Writing items *)

Inductive changeType := noChange | newItem | updatedItem.

#[export] Instance changeType_eq_dec : EqDecision changeType.
Proof. solve_decision. Defined.

Section Write.
Context {D B C Q : Type}.

(** the table, the bucket, the compliance API, the queue of resources and
    policies to analyze, and the process *)
Record world := { wTable : D; wBucket : B; wCompliance : C; wQueue : Q; wApi : apiState }.

Definition set_table (w : world) (d : D) : world :=
  {| wTable := d; wBucket := wBucket w; wCompliance := wCompliance w; wQueue := wQueue w; wApi := wApi w |}.
Definition set_bucket (w : world) (b : B) : world :=
  {| wTable := wTable w; wBucket := b; wCompliance := wCompliance w; wQueue := wQueue w; wApi := wApi w |}.
Definition set_compliance (w : world) (c : C) : world :=
  {| wTable := wTable w; wBucket := wBucket w; wCompliance := c; wQueue := wQueue w; wApi := wApi w |}.
Definition set_queue (w : world) (q : Q) : world :=
  {| wTable := wTable w; wBucket := wBucket w; wCompliance := wCompliance w; wQueue := q; wApi := wApi w |}.
Definition set_api (w : world) (s : apiState) : world :=
  {| wTable := wTable w; wBucket := wBucket w; wCompliance := wCompliance w; wQueue := wQueue w; wApi := s |}.

Context (now : nat → Time) (normalizeJSON : string → result string).

(** time.Now() *)
Definition tick (w : world) : world * Time :=
  (set_api w {| complianceCache := complianceCache (wApi w); clock := S (clock (wApi w)) |}, now (clock (wApi w))).

(** *** dynamo.go and s3.go; raw items are unmarshalled by the client here *)
Context (GetItem : D → string → result (option tableItem)) (PutItem : D → tableItem → D * option error)
        (MarshalMapErr : tableItem → option error).
Context (MarshalItem : tableItem → result string) (PutObject : B → string → string → B * result (option string)).

Definition dynamoGet (w : world) (policyID : string) : result (option tableItem) := GetItem (wTable w) policyID.

Definition dynamoPut (w : world) (policy : tableItem) : world * tableItem * option error :=
  let policy := addExtraFields policy in
  match MarshalMapErr policy with
  | Some e => (w, policy, Some e)
  | None => let '(d, err) := PutItem (wTable w) policy in (set_table w d, policy, err)
  end.

(** the automatic fields are not stored in S3 *)
Definition s3Upload (w : world) (policy : tableItem) : outcome (world * tableItem * option error) :=
  let policy := with_version (with_lower policy "" "" []) "" in
  match MarshalItem policy with
  | Err e => Ret (w, policy, Some e)
  | Ok body =>
      let '(b, r) := PutObject (wBucket w) (ID (tiCommon policy)) body in
      let w := set_bucket w b in
      match r with
      | Err e => Ret (w, policy, Some e)
      | Ok versionId => v ← deref versionId; Ret (w, with_version policy v, None)
      end
  end.

(** *** compliance.go and sqs.go *)
Context (DeleteStatus : C → list DeleteStatusEntry → C * option error)
        (UpdateMetadata : C → UpdateMetadataInput → C * option error).
Context (MarshalPolicy : Policy → result string) (SendMessage : Q → string → Q * option error).

Definition uncache (ids : list string) (s : apiState) : apiState :=
  {| complianceCache :=
       (λ e, {| ccExpiresAt := ccExpiresAt e; ccResources := foldl (λ m id, delete id m) (ccResources e) ids |})
       <$> complianceCache s;
     clock := clock s |}.

Definition complianceBatchDelete (w : world) (policies resourceTypes : list string) : world * option error :=
  let entries := (λ id, {| dePolicy := Some {| dpID := id; dpResourceTypes := resourceTypes |};
                           deResource := None |}) <$> policies in
  match DeleteStatus (wCompliance w) entries with
  | (c, Some e) => (set_compliance w c, Some e)
  | (c, None) => (set_api (set_compliance w c) (uncache policies (wApi w)), None)
  end.

Definition updateComplianceMetadata (w : world) (policy : tableItem) : world * option error :=
  let '(c, err) := UpdateMetadata (wCompliance w)
    {| umPolicyID := ID (tiCommon policy); umSeverity := Severity (tiCommon policy);
       umSuppressions := Suppressions policy |} in
  (set_compliance w c, err).

Definition queuePolicy (w : world) (policy : tableItem) : world * tableItem * option error :=
  let policy := normalize policy in
  match MarshalPolicy (to_Policy "" policy) with
  | Err e => (w, policy, Some e)
  | Ok body => let '(q, err) := SendMessage (wQueue w) body in (set_queue w q, policy, err)
  end.

(** must the whole policy be evaluated again? *)
Definition needs_analysis (oldItem : option tableItem) (new : tableItem) : bool :=
  match oldItem with
  | None => true
  | Some old =>
      negb (Enabled (tiCommon old)) || bool_decide (Body (tiCommon old) ≠ Body (tiCommon new)) ||
      (bool_decide (ResourceTypes old ≠ []) && bool_decide (ResourceTypes new = [])) ||
      bool_decide (setDifference (ResourceTypes new) (ResourceTypes old) ≠ [])
  end.

(** the status of the resource types that no longer apply is deleted *)
Definition delete_old_types (w : world) (oldItem : option tableItem) (new : tableItem) : world * option error :=
  match oldItem with
  | Some old =>
      if decide (ResourceTypes new ≠ []) then
        let deletedTypes := setDifference (ResourceTypes old) (ResourceTypes new) in
        if decide (deletedTypes ≠ []) then complianceBatchDelete w [ID (tiCommon new)] deletedTypes
        else (w, None)
      else (w, None)
  | None => (w, None)
  end.

(** the severity or the suppressions differ *)
Definition metadata_changed (oldItem : option tableItem) (new : tableItem) : bool :=
  match oldItem with
  | Some old => bool_decide (Severity (tiCommon old) ≠ Severity (tiCommon new)) ||
                negb (setEquality (Suppressions old) (Suppressions new))
  | None => false
  end.

Definition updateComplianceStatus (w : world) (oldItem : option tableItem) (new : tableItem)
    : world * tableItem * option error :=
  if negb (Enabled (tiCommon new)) then
    match oldItem with
    | Some old =>
        if Enabled (tiCommon old) then
          let '(w, err) := complianceBatchDelete w [ID (tiCommon new)] [] in (w, new, err)
        else (w, new, None)
    | None => (w, new, None)
    end
  else
    match delete_old_types w oldItem new with
    | (w, Some e) => (w, new, Some e)
    | (w, None) =>
        if needs_analysis oldItem new then queuePolicy w new
        else if metadata_changed oldItem new then
          let '(w, err) := updateComplianceMetadata w new in (w, new, err)
        else (w, new, None)
    end.

(** *** writeItem; the item is changed in place *)

(** what is written: the last step of writeItem *)
Definition store_item (w : world) (oldItem : option tableItem) (item : tableItem) (change : changeType)
    : outcome (world * tableItem * changeType * option error) :=
  '(w, item, err) ← s3Upload w item;
  match err with
  | Some e => Ret (w, item, change, Some e)
  | None =>
      match dynamoPut w item with
      | (w, item, Some e) => Ret (w, item, change, Some e)
      | (w, item, None) =>
          if decide (Type_ item = typeRule) then Ret (w, item, change, None)
          else
            (* a failure to update the compliance status is only logged *)
            let '(w, item, _) := updateComplianceStatus w oldItem item in Ret (w, item, change, None)
      end
  end.

Definition writeItem (w : world) (item : tableItem) (userID : string) (mustExist : option bool)
    : outcome (world * tableItem * changeType * option error) :=
  match dynamoGet w (ID (tiCommon item)) with
  | Err e => Ret (w, item, noChange, Some e)
  | Ok oldItem =>
      match mustExist, oldItem with
      | Some true, None => Ret (w, item, noChange, Some errNotExists)
      | Some false, Some _ => Ret (w, item, noChange, Some errExists)
      | _, None =>
          let '(w, created) := tick w in
          let '(w, modified) := tick w in
          store_item w None
            (with_audit item {| CreatedAt := created; CreatedBy := userID; LastModified := modified;
                                LastModifiedBy := userID |}) newItem
      | _, Some old =>
          if decide (Type_ old ≠ Type_ item) then Ret (w, item, noChange, Some errWrongType)
          else
            let '(old, item, equal, err) := policiesEqual normalizeJSON old item in
            if equal && bool_decide (is_Some err) then Ret (w, item, noChange, None)
            else
              let '(w, modified) := tick w in
              store_item w (Some old)
                (with_audit item {| CreatedAt := CreatedAt (tiAudit old); CreatedBy := CreatedBy (tiAudit old);
                                    LastModified := modified; LastModifiedBy := userID |}) updatedItem
      end
  end.
End Write.
Arguments world : clear implicits.

(** ** The handlers *)

Record UpdatePolicy := {
  upCommon : commonFields; upAutoRemediationID : string; upAutoRemediationParameters : gmap string string;
  upResourceTypes : list string; upSuppressions : list string; upTags : list string; upTests : list UnitTest;
  upUserID : string
}.

Record UpdateRule := {
  urCommon : commonFields; urDedupPeriodMinutes : Z; urLogTypes : list string; urTags : list string;
  urTests : list UnitTest; urUserID : string
}.

Record EnabledPolicy := {
  epBody : string; epID : string; epResourceTypes : list string; epSeverity : string;
  epSuppressions : list string; epVersionID : string; epDedupPeriodMinutes : Z
}.

Inductive analysisBody :=
| AEmpty
| AError (message : string)
| APolicy (p : Policy)
| ARule (r : Rule)
| AEnabled (l : list EnabledPolicy).

Record analysisResponse := { arStatusCode : Z; arBody : analysisBody }.
Definition plain (n : Z) : analysisResponse := {| arStatusCode := n; arBody := AEmpty |}.

Definition no_audit : audit := {| CreatedAt := 0; CreatedBy := ""; LastModified := 0; LastModifiedBy := "" |}.

Definition item_of_policy (input : UpdatePolicy) : tableItem :=
  {| tiCommon := upCommon input; AutoRemediationID := upAutoRemediationID input;
     AutoRemediationParameters := upAutoRemediationParameters input; ResourceTypes := upResourceTypes input;
     Suppressions := upSuppressions input; Tags := upTags input; Tests := upTests input; tiAudit := no_audit;
     VersionID := ""; DedupPeriodMinutes := 0; Type_ := typePolicy; LowerDisplayName := ""; LowerID := "";
     LowerTags := [] |}.

Definition item_of_rule (input : UpdateRule) : tableItem :=
  {| tiCommon := urCommon input; AutoRemediationID := ""; AutoRemediationParameters := ∅;
     ResourceTypes := urLogTypes input; Suppressions := []; Tags := urTags input; Tests := urTests input;
     tiAudit := no_audit; VersionID := ""; DedupPeriodMinutes := urDedupPeriodMinutes input; Type_ := typeRule;
     LowerDisplayName := ""; LowerID := ""; LowerTags := [] |}.

Definition defaultDedupPeriodMinutes : Z := 60.

Section Handlers.
Context {D B C Q : Type}.
Notation W := (world D B C Q).
Context (now : nat → Time) (normalizeJSON : string → result string).
Context (GetItem : D → string → result (option tableItem)) (PutItem : D → tableItem → D * option error)
        (MarshalMapErr : tableItem → option error).
Context (MarshalItem : tableItem → result string) (PutObject : B → string → string → B * result (option string)).
Context (DeleteStatus : C → list DeleteStatusEntry → C * option error)
        (UpdateMetadata : C → UpdateMetadataInput → C * option error).
Context (MarshalPolicy : Policy → result string) (SendMessage : Q → string → Q * option error).
Context (DescribeOrg : nat → result (list (option string * string))) (MarshalToString : analysisBody → result string).

Notation write := (writeItem now normalizeJSON GetItem PutItem MarshalMapErr MarshalItem PutObject DeleteStatus
  UpdateMetadata MarshalPolicy SendMessage).

(** gatewayapi.MarshalResponse *)
Definition respond (body : analysisBody) (statusCode : Z) : analysisResponse :=
  match MarshalToString body with
  | Err _ => plain 500
  | Ok _ => {| arStatusCode := statusCode; arBody := body |}
  end.

Definition failedRequest (message : string) (status : Z) : analysisResponse := respond (AError message) status.
Definition bad_request (e : error) : analysisResponse := failedRequest (errText e) 400.

(** the cache of compliance.go; its code is that of the resources API *)
Definition policyStatus (w : W) (policyID : string) : outcome (W * result complianceStatus) :=
  '(s, r) ← getComplianceStatus now DescribeOrg (wApi w) policyID; Ret (set_api w s, r).

(** *** Create and modify; [input] is the parsed and validated request *)

Definition CreatePolicy (w : W) (input : result UpdatePolicy) : outcome (W * analysisResponse) :=
  match input with
  | Err e => Ret (w, bad_request e)
  | Ok input =>
      '(w, item, _, err) ← write w (item_of_policy input) (upUserID input) (Some false);
      Ret (w, match err with
              | Some e => if decide (e = errExists) then plain 409 else plain 500
              | None => respond (APolicy (Policy_of StatusPASS item)) 201
              end)
  end.

Definition ModifyPolicy (w : W) (input : result UpdatePolicy) : outcome (W * analysisResponse) :=
  match input with
  | Err e => Ret (w, bad_request e)
  | Ok input =>
      '(w, item, _, err) ← write w (item_of_policy input) (upUserID input) (Some true);
      match err with
      | Some e => Ret (w, if decide (e = errNotExists ∨ e = errWrongType) then plain 404 else plain 500)
      | None =>
          '(w, status) ← policyStatus w (ID (upCommon input));
          Ret (w, match status with
                  | Err _ => plain 500
                  | Ok status => respond (APolicy (Policy_of (csStatus status) item)) 200
                  end)
      end
  end.

(** parseUpdateRule sets the default before it validates *)
Definition default_dedup (input : UpdateRule) : UpdateRule :=
  {| urCommon := urCommon input;
     urDedupPeriodMinutes := if decide (urDedupPeriodMinutes input = 0) then defaultDedupPeriodMinutes
                             else urDedupPeriodMinutes input;
     urLogTypes := urLogTypes input; urTags := urTags input; urTests := urTests input;
     urUserID := urUserID input |}.

Definition parseUpdateRule (decoded : result UpdateRule) (validate : UpdateRule → option error) : result UpdateRule :=
  input ← decoded;
  let input := default_dedup input in
  match validate input with Some e => Err e | None => Ok input end.

Definition parseUpdatePolicy (decoded : result UpdatePolicy) (validate : UpdatePolicy → option error)
    : result UpdatePolicy :=
  input ← decoded; match validate input with Some e => Err e | None => Ok input end.

Definition CreateRule (w : W) (input : result UpdateRule) : outcome (W * analysisResponse) :=
  match input with
  | Err e => Ret (w, bad_request e)
  | Ok input =>
      '(w, item, _, err) ← write w (item_of_rule input) (urUserID input) (Some false);
      Ret (w, match err with
              | Some e => if decide (e = errExists) then plain 409 else plain 500
              | None => respond (ARule (Rule_of item)) 201
              end)
  end.

Definition ModifyRule (w : W) (input : result UpdateRule) : outcome (W * analysisResponse) :=
  match input with
  | Err e => Ret (w, bad_request e)
  | Ok input =>
      '(w, item, _, err) ← write w (item_of_rule input) (urUserID input) (Some true);
      Ret (w, match err with
              | Some e => if decide (e = errNotExists ∨ e = errWrongType) then plain 404 else plain 500
              | None => respond (ARule (Rule_of item)) 200
              end)
  end.

(** *** Suppress: [AddSuppressions] is the conditional update, which answers
    with the new item *)
Context (BuildUpdateErr : option error)
        (AddSuppressions : D → string → list string → D * result tableItem).

Fixpoint addSuppressions (w : W) (policyIDs patterns : list string) : W * result (list tableItem) :=
  match policyIDs with
  | [] => (w, Ok [])
  | policyID :: policyIDs =>
      let '(d, r) := AddSuppressions (wTable w) policyID patterns in
      let w := set_table w d in
      match r with
      | Ok item =>
          let '(w, rest) := addSuppressions w policyIDs patterns in
          (w, match rest with Ok l => Ok (item :: l) | Err e => Err e end)
      | Err (ErrAWS code msg) =>
          if decide (code = ErrCodeConditionalCheckFailed) then addSuppressions w policyIDs patterns
          else (w, Err (ErrAWS code msg))
      | Err e => (w, Err e)
      end
  end.

(** the errors of the compliance API are only logged *)
Definition update_all (w : W) (updates : list tableItem) : W :=
  foldl (λ w policy, (updateComplianceMetadata UpdateMetadata w policy).1) w updates.

Definition Suppress (w : W) (input : result (list string * list string)) : W * analysisResponse :=
  match input with
  | Err e => (w, bad_request e)
  | Ok (policyIDs, patterns) =>
      match BuildUpdateErr with
      | Some _ => (w, plain 500)
      | None =>
          match addSuppressions w policyIDs patterns with
          | (w, Err _) => (w, plain 500)
          | (w, Ok updates) => (update_all w updates, plain 200)
          end
      end
  end.

Definition parseSuppress (decoded : result (list string * list string))
    (validate : list string * list string → option error) : result (list string * list string) :=
  input ← decoded;
  match validate input with
  | Some e => Err e
  | None => if decide (input.2 = []) then Err (ErrMsg "invalid resourcePatterns: at least one is required")
            else Ok input
  end.

(** *** Delete *)
Context (table : string) {backoff : Backoff}
        (client_BatchWriteItem : D → gmap string (list string) → D * result (gmap string (list string)))
        (DeleteObjects : B → list string → B * option error).

(** the requests are deletions, given by their keys *)
Definition dynamoBatchDelete (w : W) (ids : list string) : outcome (W * option error) :=
  '(r, err) ← Dynamodbbatch.BatchWriteItem client_BatchWriteItem (wTable w) [(table, ids)];
  Ret (set_table w (Dynamodbbatch.world r), err).

Definition s3BatchDelete (w : W) (ids : list string) : W * option error :=
  let '(b, err) := DeleteObjects (wBucket w) ids in (set_bucket w b, err).

Definition DeletePolicies (w : W) (input : result (list string)) : outcome (W * analysisResponse) :=
  match input with
  | Err e => Ret (w, bad_request e)
  | Ok ids =>
      '(w, err) ← dynamoBatchDelete w ids;
      match err with
      | Some _ => Ret (w, plain 500)
      | None =>
          match s3BatchDelete w ids with
          | (w, Some _) => Ret (w, plain 500)
          | (w, None) =>
              match complianceBatchDelete DeleteStatus w ids [] with
              | (w, Some _) => Ret (w, plain 500)
              | (w, None) => Ret (w, plain 200)
              end
          end
      end
  end.

(** *** Get *)
Context (GetObject : B → string → string → result string) (UnmarshalItem : string → result tableItem).
Context (validateID validateVersionID : string → option error).

Definition s3Get (w : W) (policyID versionID : string) : result tableItem :=
  body ← GetObject (wBucket w) policyID versionID;
  policy ← UnmarshalItem body;
  Ok (with_version policy versionID).

Definition parseGet (query : gmap string string) (codeType : string) : result (string * string) :=
  let versionID := param query "versionId" in
  let idKey := if decide (codeType = typeRule) then "ruleId" else "policyId" in
  let pre := "invalid " +:+ idKey +:+ ": " in
  id ← or_prefix pre (QueryUnescape (param query idKey));
  id ← validated pre validateID id;
  _ ← (if decide (versionID ≠ "") then validated "invalid versionId: " validateVersionID versionID else Ok "");
  Ok (id, versionID).

Definition handleGet (w : W) (query : gmap string string) (codeType : string) : outcome (W * analysisResponse) :=
  match parseGet query codeType with
  | Err e => Ret (w, bad_request e)
  | Ok (id, versionID) =>
      let text (pre : string) := pre +:+ id +:+ " (" +:+ codeType +:+ ")" in
      let item := if decide (versionID = "") then dynamoGet GetItem w id
                  else match s3Get w id versionID with Ok i => Ok (Some i) | Err e => Err e end in
      match item with
      | Err _ => Ret (w, failedRequest (text "Internal error finding ") 500)
      | Ok None => Ret (w, failedRequest (text "Cannot find ") 404)
      | Ok (Some item) =>
          if decide (Type_ item ≠ codeType) then Ret (w, failedRequest (text "Cannot find ") 404)
          else if decide (codeType = typePolicy) then
            '(w, status) ← policyStatus w id;
            Ret (w, match status with
                    | Err _ => failedRequest (text "Internal error finding ") 500
                    | Ok status => respond (APolicy (Policy_of (csStatus status) item)) 200
                    end)
          else Ret (w, respond (ARule (Rule_of item)) 200)
      end
  end.

Definition GetPolicy (w : W) (query : gmap string string) := handleGet w query typePolicy.
Definition GetRule (w : W) (query : gmap string string) := handleGet w query typeRule.

(** *** GetEnabledPolicies *)
Context {Raw : Type} (Build : Condition → list string → option error)
        (ScanPages : D → ScanInput → list Raw * option error) (UnmarshalPage : Raw → result (list tableItem)).

Definition scanPages {St} (d : D) (input : ScanInput) (handler : St → tableItem → outcome (St * option error))
    (st : St) : outcome (St * option error) :=
  let '(pages, err) := ScanPages d input in scan_loop UnmarshalPage handler st pages err.

Definition enabled_of (policy : tableItem) : EnabledPolicy :=
  {| epBody := Body (tiCommon policy); epID := ID (tiCommon policy); epResourceTypes := ResourceTypes policy;
     epSeverity := Severity (tiCommon policy); epSuppressions := Suppressions policy;
     epVersionID := VersionID policy; epDedupPeriodMinutes := DedupPeriodMinutes policy |}.

Definition upper_byte (c : ascii) : ascii :=
  let n := nat_of_ascii c in if ((97 <=? n) && (n <=? 122))%nat then ascii_of_nat (n - 32) else c.
Definition to_upper : string → string := map_bytes upper_byte.

Definition parseAnalysisType (query : gmap string string) : result string :=
  let analysisType := to_upper (param query "type") in
  if decide (analysisType = "") then Err (ErrMsg "'type' is a required parameter") else Ok analysisType.

Definition buildEnabledScan (ruleType : string) : result ScanInput :=
  let filter := And (Equal "enabled" (VBool true)) (Equal "type" (VStr ruleType)) in
  let projection := ["body"; "id"; "resourceTypes"; "severity"; "suppressions"; "versionId"; "dedupPeriodMinutes"] in
  match Build filter projection with
  | Some e => Err e
  | None => Ok {| siFilter := filter; siProjection := projection |}
  end.

Definition GetEnabledPolicies (w : W) (query : gmap string string) : outcome analysisResponse :=
  match parseAnalysisType query with
  | Err e => Ret (bad_request e)
  | Ok analysisType =>
      match buildEnabledScan analysisType with
      | Err _ => Ret (plain 500)
      | Ok scanInput =>
          '(policies, err) ← scanPages (wTable w) scanInput (λ l policy, Ret (l ++ [enabled_of policy], None)) [];
          Ret (match err with Some _ => plain 500 | None => respond (AEnabled policies) 200 end)
      end
  end.
End Handlers.
