(* ===== verification/AnalysisApiSpec.v ===== *)
(** * Analysis API: what a write promises

    The table, the bucket with its versions and the compliance status after a
    policy or rule was written. *)

From S2P Require Import Prelude GoStrings GoTime GoSort GoPath Compliance ComplianceHandlers Backoff Dynamodbbatch.
From S2P Require Import Sqsbatch AlertOutputs ResourcesApi ResourcesApiSpec AnalysisApi.

#[local] Open Scope Z_scope.

(** ** Sets of strings *)

Lemma elem_of_setDifference x first second : x ∈ setDifference first second ↔ x ∈ first ∧ x ∉ second.
Proof. unfold setDifference. rewrite list_elem_of_filter, elem_of_list_to_set. tauto. Qed.

(** setEquality decides equality as sets *)
Lemma setEquality_spec first second : setEquality first second = true ↔ ∀ x, x ∈ first ↔ x ∈ second.
Proof.
  unfold setEquality. set (m1 := list_to_set first : gset string). set (m2 := list_to_set second : gset string).
  assert (∀ x, x ∈ first ↔ x ∈ m1) as H1 by (intros; unfold m1; by rewrite elem_of_list_to_set).
  assert (∀ x, x ∈ second ↔ x ∈ m2) as H2 by (intros; unfold m2; by rewrite elem_of_list_to_set).
  assert ((∀ x, x ∈ first ↔ x ∈ second) ↔ m1 = m2) as ->.
  { rewrite set_eq. split; intros H x; specialize (H x); rewrite ?H1, ?H2 in *; naive_solver. }
  case_decide as Hs; [split; [done|]; intros ->; by destruct Hs|].
  assert (size m1 = size m2) as Hsz by lia. rewrite forallb_forall. split.
  - intros Hsub. assert (m1 ⊆ m2) as Hm.
    { intros x Hx. apply elem_of_elements in Hx. rewrite list_elem_of_In in Hx. specialize (Hsub x Hx).
      by apply bool_decide_eq_true in Hsub. }
    apply (anti_symm (⊆)); [done|]. intros x Hx. destruct (decide (x ∈ m1)) as [|Hn]; [done|].
    exfalso. assert (m1 ⊂ m2) as Hss by set_solver. apply subset_size in Hss. lia.
  - intros -> x Hx. apply bool_decide_eq_true. rewrite <-list_elem_of_In in Hx. by apply elem_of_elements in Hx.
Qed.

Lemma lower_go_spec seen set :
  NoDup (lower_go seen set) ∧ (∀ x, x ∈ lower_go seen set ↔ x ∉ seen ∧ ∃ y, y ∈ set ∧ x = to_lower y).
Proof.
  revert seen. induction set as [|y set IH]; intros seen; cbn.
  { split; [constructor|]. intros x. split; [by intros ?%not_elem_of_nil|]. intros (_&y&?%not_elem_of_nil&_). done. }
  case_decide as Hin.
  - destruct (IH seen) as [Hn He]. split; [done|]. intros x. rewrite He. split.
    + intros (Hx&z&Hz&->). split; [done|]. exists z. set_solver.
    + intros (Hx&z&[->|Hz]%elem_of_cons&->); [done|]. eauto.
  - destruct (IH ({[to_lower y]} ∪ seen)) as [Hn He]. split.
    + constructor; [|done]. rewrite He. set_solver.
    + intros x. rewrite elem_of_cons, He. split.
      * intros [->|(Hx&z&Hz&->)]; [split; [done|]; exists y; set_solver|]. split; [set_solver|].
        exists z. set_solver.
      * intros (Hx&z&[->|Hz]%elem_of_cons&->); [by left|].
        destruct (decide (to_lower z = to_lower y)) as [|Hne]; [by left|right]. split; [set_solver|]. eauto.
Qed.

(** ** Items up to the order of their sets *)

(** the same item, the fields for filtering aside *)
Definition same_item (i j : tableItem) : Prop :=
  tiCommon i = tiCommon j ∧ AutoRemediationID i = AutoRemediationID j ∧
  AutoRemediationParameters i = AutoRemediationParameters j ∧ ResourceTypes i ≡ₚ ResourceTypes j ∧
  Suppressions i ≡ₚ Suppressions j ∧ Tags i ≡ₚ Tags j ∧ Tests i = Tests j ∧ tiAudit i = tiAudit j ∧
  VersionID i = VersionID j ∧ DedupPeriodMinutes i = DedupPeriodMinutes j ∧ Type_ i = Type_ j.

#[export] Instance same_item_equiv : Equivalence same_item.
Proof.
  split.
  - intros i. unfold same_item. split_and!; done.
  - intros i j H. unfold same_item in *. destruct_and! H. split_and!; by symmetry.
  - intros i j k Hij Hjk. unfold same_item in *. destruct_and! Hij. destruct_and! Hjk. split_and!; by etrans.
Qed.

Lemma ci_less_asym a b : ci_less a b = true → ci_less b a = false.
Proof.
  unfold ci_less. destruct (decide (to_lower a = to_lower b)) as [E|E].
  - rewrite decide_True by done. apply sltb_asym.
  - rewrite decide_False by congruence. apply sltb_asym.
Qed.

Lemma sortCaseInsensitive_perm l : sortCaseInsensitive l ≡ₚ l.
Proof. apply (sort_slice_sorts ci_less l ci_less_asym). Qed.

Lemma normalize_same i : same_item (normalize i) i.
Proof. unfold same_item. cbn. split_and!; done || apply sortCaseInsensitive_perm. Qed.

(** what a test is apart from the text of its resource *)
Definition test_key (t : UnitTest) : bool * string * string := (utExpectedResult t, utName t, utResourceType t).

(** an item with the content of a request *)
Definition same_request (i j : tableItem) : Prop :=
  tiCommon i = tiCommon j ∧ AutoRemediationID i = AutoRemediationID j ∧
  AutoRemediationParameters i = AutoRemediationParameters j ∧ ResourceTypes i ≡ₚ ResourceTypes j ∧
  Suppressions i ≡ₚ Suppressions j ∧ Tags i ≡ₚ Tags j ∧ test_key <$> Tests i = test_key <$> Tests j ∧
  DedupPeriodMinutes i = DedupPeriodMinutes j ∧ Type_ i = Type_ j.

Lemma standardizeTests_keys norm tests : test_key <$> (standardizeTests norm tests).1 = test_key <$> tests.
Proof.
  induction tests as [|t tests IH]; [done|]. cbn. destruct (norm (utResource t)); [|done].
  destruct (standardizeTests norm tests) as [tests' err]. cbn in *. by rewrite IH.
Qed.

Lemma policiesEqual_items norm old new old' new' b err :
  policiesEqual norm old new = (old', new', b, err) →
  same_request new' new ∧ same_request old' old ∧ tiAudit old' = tiAudit old ∧ tiAudit new' = tiAudit new ∧
  (b = true → err = None).
Proof.
  unfold policiesEqual. pose proof (standardizeTests_keys norm (Tests (normalize old))) as H1.
  pose proof (standardizeTests_keys norm (Tests (normalize new))) as H2.
  destruct (standardizeTests norm (Tests (normalize old))) as [t1 [e1|]];
    [|destruct (standardizeTests norm (Tests (normalize new))) as [t2 [e2|]]];
    intros; simplify_eq; unfold same_request; cbn in *;
    split_and!; try done; try apply sortCaseInsensitive_perm; eauto.
Qed.

(** ** Writing *)

(** What is relied on: the table keeps what is put (string sets have no order),
    the bucket keeps every version of every object, and the JSON of an item is
    read back exactly, which for its times means that they have the millisecond
    precision of strfmt.DateTime. *)
Class VersionedStore {D B : Type} (GetItem : D → string → result (option tableItem))
    (PutItem : D → tableItem → D * option error) (PutObject : B → string → string → B * result (option string))
    (GetObject : B → string → string → result string) (MarshalItem : tableItem → result string)
    (UnmarshalItem : string → result tableItem) : Prop := {
  put_get : ∀ d i d', PutItem d i = (d', None) → ∃ j, GetItem d' (ID (tiCommon i)) = Ok (Some j) ∧ same_item j i;
  put_other : ∀ d i d' err k, PutItem d i = (d', err) → k ≠ ID (tiCommon i) → GetItem d' k = GetItem d k;
  object_versioned : ∀ b k body b' v, PutObject b k body = (b', Ok v) → is_Some v;
  object_new : ∀ b k body b' v, PutObject b k body = (b', Ok (Some v)) → GetObject b' k v = Ok body;
  object_keep : ∀ b k body b' r k' v x, PutObject b k body = (b', r) → GetObject b k' v = Ok x → GetObject b' k' v = Ok x;
  json_item : ∀ i s, MarshalItem i = Ok s → UnmarshalItem s = Ok i
}.

Section WriteSpec.
Context {D B C Q : Type}.
Notation W := (world D B C Q).
Implicit Types w : W.
Context (now : nat → Time) (normalizeJSON : string → result string).
Context (GetItem : D → string → result (option tableItem)) (PutItem : D → tableItem → D * option error)
        (MarshalMapErr : tableItem → option error).
Context (MarshalItem : tableItem → result string) (PutObject : B → string → string → B * result (option string)).
Context (DeleteStatus : C → list DeleteStatusEntry → C * option error)
        (UpdateMetadata : C → UpdateMetadataInput → C * option error).
Context (MarshalPolicy : Policy → result string) (SendMessage : Q → string → Q * option error).
Context (GetObject : B → string → string → result string) (UnmarshalItem : string → result tableItem).
Context {Hstore : VersionedStore GetItem PutItem PutObject GetObject MarshalItem UnmarshalItem}.

Notation write := (writeItem now normalizeJSON GetItem PutItem MarshalMapErr MarshalItem PutObject DeleteStatus
  UpdateMetadata MarshalPolicy SendMessage).
Notation store := (store_item PutItem MarshalMapErr MarshalItem PutObject DeleteStatus UpdateMetadata MarshalPolicy
  SendMessage).
Notation table_get := (dynamoGet GetItem).
Notation version_get := (s3Get GetObject UnmarshalItem).
Notation update := (updateComplianceStatus DeleteStatus UpdateMetadata MarshalPolicy SendMessage).

(** the compliance update leaves the table and the bucket alone *)
Lemma update_frame w old new w' new' err :
  update w old new = (w', new', err) → wTable w' = wTable w ∧ wBucket w' = wBucket w ∧ same_item new' new.
Proof.
  assert (∀ w ids types w1 e, complianceBatchDelete DeleteStatus w ids types = (w1, e) →
    wTable w1 = wTable w ∧ wBucket w1 = wBucket w) as Hdel.
  { clear. intros w ids types w1 e. unfold complianceBatchDelete.
    destruct (DeleteStatus _ _) as [c [e'|]]; intros; by simplify_eq. }
  unfold updateComplianceStatus. destruct (negb _).
  { destruct old as [o|]; [|by intros; simplify_eq]. destruct (Enabled (tiCommon o)); [|by intros; simplify_eq].
    destruct (complianceBatchDelete _ _ _ _) as [w1 e] eqn:E. intros; simplify_eq. by apply Hdel in E as [-> ->]. }
  assert (∀ w1 e, delete_old_types DeleteStatus w old new = (w1, e) →
    wTable w1 = wTable w ∧ wBucket w1 = wBucket w) as Hold.
  { intros w1 e. unfold delete_old_types. destruct old; [|by intros; simplify_eq].
    repeat case_decide; try (by intros; simplify_eq). apply Hdel. }
  destruct (delete_old_types _ _ _ _) as [w1 [e|]] eqn:E; destruct (Hold _ _ eq_refl) as [<- <-];
    [by intros; simplify_eq|].
  destruct (needs_analysis old new).
  - unfold queuePolicy. destruct (MarshalPolicy _).
    + destruct (SendMessage _ _). intros; simplify_eq. cbn. auto using normalize_same.
    + intros; simplify_eq. auto using normalize_same.
  - destruct (metadata_changed old new); [|by intros; simplify_eq].
    unfold updateComplianceMetadata. destruct (UpdateMetadata _ _). intros; by simplify_eq.
Qed.

(** nothing is lost: earlier versions and other items *)
Definition kept w w' (id : string) : Prop :=
  (∀ k v i, version_get w k v = Ok i → version_get w' k v = Ok i) ∧
  (∀ k, k ≠ id → table_get w' k = table_get w k).

Lemma kept_refl w w' id : wTable w' = wTable w → wBucket w' = wBucket w → kept w w' id.
Proof. intros Ht Hb. unfold kept, s3Get, dynamoGet. rewrite Ht, Hb. done. Qed.

(** the item is stored as the current one and as a version *)
Definition stored_as w (i : tableItem) : Prop :=
  (∃ j, table_get w (ID (tiCommon i)) = Ok (Some j) ∧ same_item j i) ∧
  (∃ j, version_get w (ID (tiCommon i)) (VersionID i) = Ok j ∧ same_item j i).

Lemma s3Get_body w k v body i :
  GetObject (wBucket w) k v = Ok body → UnmarshalItem body = Ok i → version_get w k v = Ok (with_version i v).
Proof. intros H1 H2. unfold s3Get. rewrite H1. run. rewrite H2. done. Qed.

Lemma store_item_spec w old item change :
  ∃ w' item' err, store w old item change = Ret (w', item', change, err) ∧ kept w w' (ID (tiCommon item)) ∧
    (err = None → same_request item' item ∧ tiAudit item' = tiAudit item ∧ stored_as w' item').
Proof.
  unfold store_item, s3Upload. set (clean := with_version (with_lower item "" "" []) "").
  destruct (MarshalItem clean) as [body|e] eqn:Em; run.
  2:{ eexists _, _, _. split; [done|]. split; [by apply kept_refl|done]. }
  destruct (PutObject (wBucket w) (ID (tiCommon clean)) body) as [b' r] eqn:Ep.
  assert (kept w (set_bucket w b') (ID (tiCommon item))) as Hkeep.
  { split; [|done]. intros k v i. unfold s3Get. destruct (GetObject (wBucket w) k v) as [x|] eqn:Eg; [|done].
    cbn [wBucket set_bucket]. by rewrite (object_keep _ _ _ _ _ _ _ _ Ep Eg). }
  destruct r as [[v|]|e]; [|by destruct (object_versioned _ _ _ _ _ Ep)|]; cbn [deref]; run.
  2:{ eexists _, _, _. split; [done|]. split; [done|done]. }
  unfold dynamoPut. set (item2 := addExtraFields (with_version clean v)).
  destruct (MarshalMapErr item2); [eexists _, _, _; by split_and!|].
  cbn [wTable set_bucket]. destruct (PutItem (wTable w) item2) as [d' err] eqn:Ed.
  set (w2 := set_table (set_bucket w b') d').
  assert (kept w w2 (ID (tiCommon item))) as Hkeep2.
  { split; [apply Hkeep|]. intros k Hk. unfold dynamoGet. by eapply put_other in Ed. }
  destruct err as [e|]; [eexists _, _, _; by split_and!|].
  assert (same_request item2 item ∧ tiAudit item2 = tiAudit item ∧ stored_as w2 item2) as (Hreq&Haud&Hst).
  { split; [by unfold same_request; split_and!|]. split; [done|]. split.
    - by apply put_get in Ed.
    - eexists. split; [eapply s3Get_body; [by eapply object_new in Ep|by eapply json_item in Em]|].
      unfold same_item; split_and!; done. }
  case_decide; [eexists _, _, _; by split_and!|].
  destruct (update w2 old item2) as [[w3 item3] e3] eqn:Eu. apply update_frame in Eu as (Ht&Hb&Hs).
  eexists _, _, _. split; [done|]. split.
  { destruct Hkeep2 as [Hv Htb]. unfold kept, s3Get, dynamoGet in *. by rewrite Ht, Hb. }
  intros _. unfold same_item in Hs. destruct_and! Hs.
  assert (same_item item3 item2) as Hs3 by (unfold same_item; split_and!; done).
  unfold same_request in *. destruct_and! Hreq. split_and!; try (by etrans); try congruence.
  destruct Hst as [(j&Hj&Hsj) (j'&Hj'&Hsj')]. unfold stored_as, s3Get, dynamoGet in *. rewrite Ht, Hb.
  assert (ID (tiCommon item3) = ID (tiCommon item2)) as -> by congruence.
  assert (VersionID item3 = VersionID item2) as -> by done.
  split; [exists j|exists j']; (split; [done|]); by rewrite Hs3.
Qed.

(** an existing item is replaced *)
Lemma replace_item_spec w old item user :
  ∃ w' item' change err,
    (if decide (Type_ old ≠ Type_ item) then Ret (w, item, noChange, Some errWrongType)
     else let '(old', item', equal, err) := policiesEqual normalizeJSON old item in
       if equal && bool_decide (is_Some err) then Ret (w, item', noChange, None)
       else let '(w, modified) := tick now w in
         store w (Some old') (with_audit item' {| CreatedAt := CreatedAt (tiAudit old');
           CreatedBy := CreatedBy (tiAudit old'); LastModified := modified; LastModifiedBy := user |}) updatedItem) =
      Ret (w', item', change, err) ∧ kept w w' (ID (tiCommon item)) ∧
    (err = None → same_request item' item ∧ stored_as w' item' ∧ LastModifiedBy (tiAudit item') = user ∧
      change = updatedItem ∧ Type_ old = Type_ item ∧ CreatedAt (tiAudit item') = CreatedAt (tiAudit old) ∧
      CreatedBy (tiAudit item') = CreatedBy (tiAudit old)).
Proof.
  destruct (decide (Type_ old = Type_ item)) as [Ht|Ht].
  2:{ rewrite decide_True by done. eexists _, _, _, _. split; [done|]. split; [by apply kept_refl|done]. }
  rewrite decide_False by (by intros []).
  destruct (policiesEqual normalizeJSON old item) as [[[old' item1] b] err] eqn:Eq.
  apply policiesEqual_items in Eq as (Hr&Hro&Ha&Ha1&Hb).
  assert (b && bool_decide (is_Some err) = false) as ->.
  { destruct b; [|done]. by rewrite (Hb eq_refl). }
  cbn [tick]. set (item2 := with_audit item1 _).
  destruct (store_item_spec (tick now w).1 (Some old') item2 updatedItem) as (w'&item'&err'&Hs&Hk&Hok).
  change (set_api w _) with (tick now w).1. rewrite Hs. eexists _, _, _, _. split; [done|].
  assert (ID (tiCommon item2) = ID (tiCommon item)) as Hid by (destruct Hr as [Hr _]; cbn; congruence).
  rewrite Hid in Hk. split; [exact Hk|]. intros He. destruct (Hok He) as (Hreq&Haud&Hst).
  rewrite Haud. cbn. split_and!; try done; [|congruence..].
  unfold same_request in *. destruct_and! Hreq. destruct_and! Hr. cbn in *.
  split_and!; try (by etrans); congruence.
Qed.

Lemma writeItem_spec w item user mustExist :
  ∃ w' item' change err, write w item user mustExist = Ret (w', item', change, err) ∧
    kept w w' (ID (tiCommon item)) ∧
    (err = None →
      same_request item' item ∧ stored_as w' item' ∧ LastModifiedBy (tiAudit item') = user ∧
      match table_get w (ID (tiCommon item)) with
      | Ok (Some old) => change = updatedItem ∧ mustExist ≠ Some false ∧ Type_ old = Type_ item ∧
          CreatedAt (tiAudit item') = CreatedAt (tiAudit old) ∧ CreatedBy (tiAudit item') = CreatedBy (tiAudit old)
      | Ok None => change = newItem ∧ mustExist ≠ Some true ∧ CreatedBy (tiAudit item') = user
      | Err _ => False
      end).
Proof.
  unfold writeItem. destruct (table_get w (ID (tiCommon item))) as [[old|]|e] eqn:Eg.
  3:{ eexists _, _, _, _. split; [done|]. split; [by apply kept_refl|done]. }
  - destruct (replace_item_spec w old item user) as (w'&item'&change&err&Hw&Hk&Hok).
    destruct mustExist as [[|]|]; [|by eexists _, _, _, _; split; [done|]; split; [by apply kept_refl|]|];
      rewrite Hw; eexists _, _, _, _; (split; [done|]); (split; [done|]); intros He; specialize (Hok He);
      destruct_and! Hok; by split_and!.
  - destruct mustExist as [[|]|]; [by eexists _, _, _, _; split; [done|]; split; [by apply kept_refl|]|..];
      cbn [tick]; change (set_api (set_api w ?a) ?b) with (set_api w b);
      match goal with |- context [store ?w1 None ?i newItem] =>
        destruct (store_item_spec w1 None i newItem) as (w'&item'&err&->&Hk&Hok) end;
      eexists _, _, _, _; (split; [done|]); (split; [exact Hk|]); intros He; destruct (Hok He) as (Hreq&Haud&Hst);
      rewrite Haud; by split_and!.
Qed.

(** C11: writing a policy or rule keeps every version.  writeItem never panics;
    whatever happens, every version that could be read can still be read, and
    all other items are unchanged.  On success the item has the content of
    the request, it is both the current item of the table and the version in
    S3 that its version identifier names, it is marked as changed by the
    caller, and who created it is kept for an existing item, which must have
    the same type; a new item is only made, and an existing one only
    replaced, when the caller allows it. *)
Theorem write_item_correct w item user mustExist :
  ∃ w' item' change err, write w item user mustExist = Ret (w', item', change, err) ∧
    kept w w' (ID (tiCommon item)) ∧
    (err = None →
      same_request item' item ∧ stored_as w' item' ∧ LastModifiedBy (tiAudit item') = user ∧
      match table_get w (ID (tiCommon item)) with
      | Ok (Some old) => change = updatedItem ∧ mustExist ≠ Some false ∧ Type_ old = Type_ item ∧
          CreatedAt (tiAudit item') = CreatedAt (tiAudit old) ∧ CreatedBy (tiAudit item') = CreatedBy (tiAudit old)
      | Ok None => change = newItem ∧ mustExist ≠ Some true ∧ CreatedBy (tiAudit item') = user
      | Err _ => False
      end).
Proof. apply writeItem_spec. Qed.
End WriteSpec.

(** ** What a change means for the compliance status *)

(** the resource types a policy is evaluated on; none listed means all *)
Definition applies (i : tableItem) (ty : string) : Prop :=
  Enabled (tiCommon i) = true ∧ (ResourceTypes i = [] ∨ ty ∈ ResourceTypes i).

(** the result for resources of a type can differ from the recorded one *)
Definition result_may_change (old : option tableItem) (new : tableItem) (ty : string) : Prop :=
  applies new ty ∧ ¬ ∃ o, old = Some o ∧ applies o ty ∧ Body (tiCommon o) = Body (tiCommon new).

Lemma needs_analysis_complete old new ty : result_may_change old new ty → needs_analysis old new = true.
Proof.
  intros [[He Ht] Hno]. destruct old as [o|]; [|done]. cbn.
  destruct (Enabled (tiCommon o)) eqn:Eo; [|done]. cbn [negb orb].
  destruct (decide (Body (tiCommon o) = Body (tiCommon new))) as [Hb|Hb]; [|by rewrite bool_decide_true by done].
  rewrite (bool_decide_false (Body _ ≠ _)) by (by intros []). cbn [orb].
  assert (ResourceTypes o ≠ [] ∧ ty ∉ ResourceTypes o) as [Hne Hni].
  { split; intros H; apply Hno; exists o; unfold applies; auto. }
  rewrite (bool_decide_true (ResourceTypes o ≠ [])) by done. cbn [andb]. apply orb_true_iff.
  destruct Ht as [Ht|Ht]; [left; by apply bool_decide_eq_true|right]. apply bool_decide_eq_true.
  intros Hd. assert (ty ∈ setDifference (ResourceTypes new) (ResourceTypes o)) as Hin
    by by apply elem_of_setDifference. rewrite Hd in Hin. by apply not_elem_of_nil in Hin.
Qed.

(** the requests an update makes *)
Inductive action := DeleteTypes (types : list string) | Analyze | Metadata.

Section ChangeSpec.
Context {D B C Q : Type}.
Notation W := (world D B C Q).
Implicit Types w : W.
Context (DeleteStatus : C → list DeleteStatusEntry → C * option error)
        (UpdateMetadata : C → UpdateMetadataInput → C * option error).
Context (MarshalPolicy : Policy → result string) (SendMessage : Q → string → Q * option error).
Notation update := (updateComplianceStatus DeleteStatus UpdateMetadata MarshalPolicy SendMessage).

(** the policy that is queued: the item as it is, its sets in order, without a status *)
Definition queued_policy (new : tableItem) : Policy :=
  {| poCommon := tiCommon new; poAutoRemediationID := AutoRemediationID new;
     poAutoRemediationParameters := AutoRemediationParameters new; poComplianceStatus := "";
     poResourceTypes := sortCaseInsensitive (ResourceTypes new); poSuppressions := sortCaseInsensitive (Suppressions new);
     poTags := sortCaseInsensitive (Tags new); poTests := Tests new; poAudit := tiAudit new; poVersionID := VersionID new |}.

(** deleting also forgets the cached status of the policy *)
Definition perform (new : tableItem) w (a : action) : W :=
  match a with
  | DeleteTypes types =>
      let entry := {| dePolicy := Some {| dpID := ID (tiCommon new); dpResourceTypes := types |}; deResource := None |} in
      set_api (set_compliance w (DeleteStatus (wCompliance w) [entry]).1) (uncache [ID (tiCommon new)] (wApi w))
  | Analyze =>
      match MarshalPolicy (queued_policy new) with
      | Ok body => set_queue w (SendMessage (wQueue w) body).1
      | Err _ => w
      end
  | Metadata =>
      set_compliance w (UpdateMetadata (wCompliance w)
        {| umPolicyID := ID (tiCommon new); umSeverity := Severity (tiCommon new);
           umSuppressions := Suppressions new |}).1
  end.

(** what the requests must be for the status to be up to date; deleting for no
    types means deleting for all *)
Definition brings_up_to_date (old : option tableItem) (new : tableItem) (actions : list action) : Prop :=
  if Enabled (tiCommon new) then
    ((∃ ty, result_may_change old new ty) → Analyze ∈ actions) ∧
    (∀ o ty, old = Some o → ty ∈ ResourceTypes o → ¬ applies new ty → ∃ ts, DeleteTypes ts ∈ actions ∧ ty ∈ ts) ∧
    (∀ ts, DeleteTypes ts ∈ actions → ts ≠ [] ∧ ∀ ty, ty ∈ ts → ¬ applies new ty) ∧
    (∀ o, old = Some o → Analyze ∉ actions →
       (Severity (tiCommon o) ≠ Severity (tiCommon new) ∨ ¬ ∀ x, x ∈ Suppressions o ↔ x ∈ Suppressions new) →
       Metadata ∈ actions)
  else actions = match old with Some o => if Enabled (tiCommon o) then [DeleteTypes []] else [] | None => [] end.

Definition types_actions (old : option tableItem) (new : tableItem) : list action :=
  match old with
  | Some o =>
      let ts := setDifference (ResourceTypes o) (ResourceTypes new) in
      if decide (ResourceTypes new ≠ [] ∧ ts ≠ []) then [DeleteTypes ts] else []
  | None => []
  end.

Definition last_action (old : option tableItem) (new : tableItem) : list action :=
  if needs_analysis old new then [Analyze] else if metadata_changed old new then [Metadata] else [].

Section Accepting.
Context (delete_ok : ∀ c l, (DeleteStatus c l).2 = None) (send_ok : ∀ q b, (SendMessage q b).2 = None)
        (metadata_ok : ∀ c u, (UpdateMetadata c u).2 = None) (marshal_ok : ∀ p, ∃ s, MarshalPolicy p = Ok s).

Lemma complianceBatchDelete_ok w new types :
  complianceBatchDelete DeleteStatus w [ID (tiCommon new)] types = (perform new w (DeleteTypes types), None).
Proof.
  unfold complianceBatchDelete, perform. cbn [fmap list_fmap].
  match goal with |- context [DeleteStatus ?c ?l] => pose proof (delete_ok c l) as H end.
  destruct (DeleteStatus _ _) as [c [e|]]; done.
Qed.

Lemma delete_old_types_actions w old new :
  delete_old_types DeleteStatus w old new = (foldl (perform new) w (types_actions old new), None).
Proof.
  unfold delete_old_types, types_actions. destruct old as [o|]; [|done].
  set (ts := setDifference _ _). destruct (decide (ResourceTypes new = [])) as [Hn|Hn].
  { rewrite decide_False by (by intros []). rewrite decide_False by (by intros [[] _]). done. }
  rewrite decide_True by done. destruct (decide (ts = [])) as [Ht|Ht].
  { rewrite decide_False by (by intros []). rewrite decide_False by (by intros [_ []]). done. }
  rewrite decide_True, decide_True by done. apply complianceBatchDelete_ok.
Qed.

Lemma last_action_performed w old new :
  (if needs_analysis old new then queuePolicy MarshalPolicy SendMessage w new
   else if metadata_changed old new then
     let '(w, err) := updateComplianceMetadata UpdateMetadata w new in (w, new, err)
   else (w, new, None)) =
  (foldl (perform new) w (last_action old new), if needs_analysis old new then normalize new else new, None).
Proof.
  unfold last_action. destruct (needs_analysis old new).
  - cbn. unfold queuePolicy. change (to_Policy "" (normalize new)) with (queued_policy new).
    destruct (marshal_ok (queued_policy new)) as [b ->]. pose proof (send_ok (wQueue w) b) as H. destruct (SendMessage _ _) as [q e]. cbn in *. by subst.
  - destruct (metadata_changed old new); [|done]. cbn. unfold updateComplianceMetadata.
    match goal with |- context [UpdateMetadata ?c ?u] => pose proof (metadata_ok c u) as H end.
    destruct (UpdateMetadata _ _) as [c e]. cbn in *. by subst.
Qed.

Lemma actions_up_to_date old new :
  Enabled (tiCommon new) = true → brings_up_to_date old new (types_actions old new ++ last_action old new).
Proof.
  intros He. unfold brings_up_to_date. rewrite He.
  assert (∀ ts, DeleteTypes ts ∈ last_action old new → False) as Hlast.
  { intros ts. unfold last_action. repeat case_match; set_solver. }
  assert (∀ a, a ∈ types_actions old new → ∃ ts, a = DeleteTypes ts) as Htypes.
  { intros a. unfold types_actions. destruct old; [|set_solver]. case_decide; set_solver. }
  split_and!.
  - intros [ty Hty]. apply elem_of_app. right. unfold last_action.
    rewrite (needs_analysis_complete _ _ _ Hty). set_solver.
  - intros o ty -> Hty Hno. assert (ResourceTypes new ≠ [] ∧ ty ∉ ResourceTypes new) as [Hne Hni].
    { split; intros H; apply Hno; unfold applies; auto. }
    assert (ty ∈ setDifference (ResourceTypes o) (ResourceTypes new)) as Hin by by apply elem_of_setDifference.
    eexists. split; [|exact Hin]. apply elem_of_app. left. cbn. rewrite decide_True; [set_solver|].
    split; [done|]. intros Hnil. rewrite Hnil in Hin. by apply not_elem_of_nil in Hin.
  - intros ts [Hts|?%Hlast]%elem_of_app; [|done]. unfold types_actions in Hts. destruct old as [o|]; [|set_solver].
    case_decide as Hd; [|set_solver]. apply list_elem_of_singleton in Hts as [= ->]. split; [tauto|].
    intros ty [_ Hni]%elem_of_setDifference [_ [Hnil|?]]; tauto.
  - intros o -> Hno Hch. apply elem_of_app. right. unfold last_action in *.
    destruct (needs_analysis (Some o) new); [exfalso; apply Hno, elem_of_app; right; set_solver|].
    assert (metadata_changed (Some o) new = true) as ->; [|set_solver]. cbn. apply orb_true_iff.
    destruct Hch as [Hs|Hs]; [left; by apply bool_decide_eq_true|right].
    apply negb_true_iff, not_true_iff_false. by rewrite setEquality_spec.
Qed.

Lemma update_performs w old new :
  ∃ actions item', update w old new = (foldl (perform new) w actions, item', None) ∧
    brings_up_to_date old new actions.
Proof.
  unfold updateComplianceStatus. destruct (Enabled (tiCommon new)) eqn:He; cbn [negb].
  - rewrite delete_old_types_actions. eexists _, _. rewrite last_action_performed, <-foldl_app.
    split; [done|]. by apply actions_up_to_date.
  - unfold brings_up_to_date. rewrite He.
    destruct old as [o|]; [|by eexists [], _]. destruct (Enabled (tiCommon o)); [|by eexists [], _].
    eexists [DeleteTypes []], _. split; [|done]. by rewrite complianceBatchDelete_ok.
Qed.

(** C12: a changed policy brings its compliance status up to date.  When the
    compliance API and the queue accept the requests, updateComplianceStatus
    succeeds and makes the requests that are needed: if the result can change
    for any resource type (a new or newly enabled policy, another body, more
    types) the policy is queued for analysis; the status of every listed type
    that no longer applies is deleted, and no other; a change of only severity
    or suppressions is sent to the compliance API; a policy that is disabled
    loses its whole status. *)
Theorem policy_change_propagates w old new :
  ∃ actions item', update w old new = (foldl (perform new) w actions, item', None) ∧
    brings_up_to_date old new actions.
Proof. apply update_performs. Qed.
End Accepting.

(** a policy that applied to all resource types and is restricted to some
    keeps the status of all other types: nothing is deleted, although the
    types no longer apply, because only listed types are compared. *)
Theorem restricted_policy_keeps_status w o new :
  Enabled (tiCommon new) = true → ResourceTypes o = [] → ResourceTypes new ≠ [] →
  (∀ ty, Enabled (tiCommon o) = true → ty ∉ ResourceTypes new → applies o ty ∧ ¬ applies new ty) ∧
  wCompliance (update w (Some o) new).1.1 = wCompliance w.
Proof.
  intros He Ho Hn. split.
  { intros ty Heo Hty. split; [by split; auto|]. intros [_ [?|?]]; done. }
  unfold updateComplianceStatus. rewrite He. cbn [negb]. unfold delete_old_types. rewrite Ho.
  rewrite decide_True, decide_False by (done || by intros []).
  assert (needs_analysis (Some o) new = true) as ->.
  { cbn. rewrite Ho. apply orb_true_iff. right. apply bool_decide_eq_true. unfold setDifference.
    destruct (ResourceTypes new) as [|t ts]; [done|]. rewrite filter_cons, decide_True by set_solver. done. }
  unfold queuePolicy. destruct (MarshalPolicy _); [|done]. by destruct (SendMessage _ _).
Qed.
End ChangeSpec.

(** ** Witnesses *)

#[export] Instance tableItem_eq_dec : EqDecision tableItem.
Proof. solve_decision. Defined.

Definition demo_common (enabled : bool) (body : string) : commonFields :=
  {| Body := body; Description := ""; DisplayName := "Name"; Enabled := enabled; ID := "P"; Reference := "";
     Runbook := ""; Severity := "LOW" |}.

Definition demo_policy (enabled : bool) (body : string) (types : list string) : tableItem :=
  item_of_policy {| upCommon := demo_common enabled body; upAutoRemediationID := "";
                    upAutoRemediationParameters := ∅; upResourceTypes := types; upSuppressions := ["s"];
                    upTags := ["T"]; upTests := []; upUserID := "u" |}.

Definition clock_of (n : nat) : Time := Z.of_nat n.

(** what is uploaded for the policy below *)
Definition demo_uploaded : tableItem :=
  with_audit (demo_policy true "def" ["a"]) {| CreatedAt := 0; CreatedBy := "u"; LastModified := 1;
                                                LastModifiedBy := "u" |}.

Definition demo_marshal (i : tableItem) : result string :=
  if decide (i = demo_uploaded) then Ok "policy" else Err (ErrMsg "not encoded").
Definition demo_unmarshal (s : string) : result tableItem :=
  if decide (s = "policy") then Ok demo_uploaded else Err ErrEOF.

(** a table that is a map and a bucket that is the list of all uploads *)
Definition map_get (d : gmap string tableItem) (k : string) : result (option tableItem) := Ok (d !! k).
Definition map_put (d : gmap string tableItem) (i : tableItem) : gmap string tableItem * option error :=
  (<[ID (tiCommon i) := i]> d, None).
Definition log_put (b : list (string * string)) (k body : string) : list (string * string) * result (option string) :=
  (b ++ [(k, body)], Ok (Some (itoa (Z.of_nat (length b))))).

Fixpoint log_find (b : list (string * string)) (i : nat) (k v : string) : result string :=
  match b with
  | [] => Err (ErrMsg "NoSuchVersion")
  | (k', body) :: b =>
      if decide (k' = k ∧ v = itoa (Z.of_nat i)) then Ok body else log_find b (S i) k v
  end.
Definition log_get (b : list (string * string)) (k v : string) : result string := log_find b 0 k v.

Lemma log_find_app b k body i k' v x :
  log_find b i k' v = Ok x → log_find (b ++ [(k, body)]) i k' v = Ok x.
Proof. revert i. induction b as [|[k1 b1] b IH]; intros i; cbn; [done|]. case_decide; [done|]. apply IH. Qed.

Lemma log_find_new b k body i :
  log_find (b ++ [(k, body)]) i k (itoa (Z.of_nat (i + length b))) = Ok body.
Proof.
  revert i. induction b as [|[k1 b1] b IH]; intros i; cbn.
  { by rewrite Nat.add_0_r, decide_True. }
  rewrite decide_False.
  - replace (i + S (length b))%nat with (S i + length b)%nat by lia. apply IH.
  - intros [_ H]. apply (inj pretty) in H. lia.
Qed.

Lemma demo_store : VersionedStore map_get map_put log_put log_get demo_marshal demo_unmarshal.
Proof.
  split.
  - intros d i d' [= <-]. exists i. split; [|done]. unfold map_get. by rewrite lookup_insert_eq.
  - intros d i d' err k [= <- <-] Hk. unfold map_get. by rewrite lookup_insert_ne.
  - intros b k body b' v [= _ <-]. eauto.
  - intros b k body b' v [= <- <-]. apply (log_find_new b k body 0).
  - intros b k body b' r k' v x [= <- <-]. apply log_find_app.
  - intros i s. unfold demo_marshal, demo_unmarshal. case_decide; [|done]. intros [= <-]. subst.
    by rewrite decide_True.
Qed.

Definition demo_world : world (gmap string tableItem) (list (string * string)) nat (list string) :=
  {| wTable := ∅; wBucket := []; wCompliance := 0%nat; wQueue := [];
     wApi := {| complianceCache := None; clock := 0 |} |}.

Definition demo_delete (c : nat) (_ : list DeleteStatusEntry) : nat * option error := (S c, None).
Definition demo_metadata (c : nat) (_ : UpdateMetadataInput) : nat * option error := (S c, None).
Definition demo_policy_text (p : Policy) : result string := Ok (ID (poCommon p)).
Definition demo_send (q : list string) (s : string) : list string * option error := (q ++ [s], None).

Lemma write_item_correct_witness :
  ∃ w' item' change err,
    writeItem clock_of Ok map_get map_put (λ _, None) demo_marshal log_put demo_delete demo_metadata
      demo_policy_text demo_send demo_world (demo_policy true "def" ["a"]) "u" (Some false) =
      Ret (w', item', change, err) ∧
    kept map_get log_get demo_unmarshal demo_world w' "P" ∧
    (err = None →
      same_request item' (demo_policy true "def" ["a"]) ∧ stored_as map_get log_get demo_unmarshal w' item' ∧
      LastModifiedBy (tiAudit item') = "u" ∧
      change = newItem ∧ Some false ≠ Some true ∧ CreatedBy (tiAudit item') = "u").
Proof.
  exact (write_item_correct (Hstore := demo_store) clock_of Ok map_get map_put (λ _, None) demo_marshal log_put
    demo_delete demo_metadata demo_policy_text demo_send log_get demo_unmarshal demo_world
    (demo_policy true "def" ["a"]) "u" (Some false)).
Defined.

(** the write of the witness succeeds *)
Lemma demo_write_succeeds :
  match writeItem clock_of Ok map_get map_put (λ _, None) demo_marshal log_put demo_delete demo_metadata
          demo_policy_text demo_send demo_world (demo_policy true "def" ["a"]) "u" (Some false) with
  | Ret (w', item', change, err) => err = None ∧ change = newItem ∧ wQueue w' = ["P"] ∧ VersionID item' = "0"
  | Panic _ => False
  end.
Proof. vm_compute. done. Qed.

Lemma policy_change_propagates_witness :
  ∃ actions item',
    updateComplianceStatus demo_delete demo_metadata demo_policy_text demo_send demo_world
      (Some (demo_policy true "def" ["a"; "b"])) (demo_policy true "def" ["b"; "c"]) =
      (foldl (perform demo_delete demo_metadata demo_policy_text demo_send (demo_policy true "def" ["b"; "c"]))
         demo_world actions, item', None) ∧
    brings_up_to_date (Some (demo_policy true "def" ["a"; "b"])) (demo_policy true "def" ["b"; "c"]) actions.
Proof.
  apply (policy_change_propagates demo_delete demo_metadata demo_policy_text demo_send).
  - done.
  - done.
  - done.
  - intros p. by eexists.
Defined.

Lemma restricted_policy_keeps_status_witness :
  (∀ ty, true = true → ty ∉ ["b"] → applies (demo_policy true "def" []) ty ∧ ¬ applies (demo_policy true "def" ["b"]) ty) ∧
  wCompliance (updateComplianceStatus demo_delete demo_metadata demo_policy_text demo_send demo_world
    (Some (demo_policy true "def" [])) (demo_policy true "def" ["b"])).1.1 = 0%nat.
Proof.
  refine (restricted_policy_keeps_status demo_delete demo_metadata demo_policy_text demo_send demo_world
    (demo_policy true "def" []) (demo_policy true "def" ["b"]) _ _ _); done.
Defined.
