(* ===== verification/AnalysisList.v ===== *)
(** * Analysis API: listing policies and rules

    Model of src/internal/core/analysis_api/handlers/list.go and the theorems
    about it.  Scans and their filters are those of [ResourcesApi] and
    [ResourcesApiSpec]. *)

From S2P Require Import Prelude GoStrings GoTime GoSort GoPath Compliance ComplianceHandlers Backoff Dynamodbbatch.
From S2P Require Import Sqsbatch AlertOutputs ResourcesApi ResourcesApiSpec AnalysisApi AnalysisApiSpec.

#[local] Open Scope Z_scope.

(** ** Parameters *)

Record listParams := {
  pComplianceStatus : string;
  nameContains : string;
  pEnabled : option bool;
  hasRemediation : option bool;
  pResourceTypes : gset string;
  pSeverity : string;
  pTags : list string;
  sortBy : string;
  sortAscending : bool;
  pPageSize : Z;
  pPage : Z
}.

Definition validated_if_set (pre : string) (validate : string → option error) (s : string) : result string :=
  if decide (s = "") then Ok s else validated pre validate s.

Fixpoint parse_types (typeKey : string) (i : Z) (rawTypes : list string) (acc : gset string) : result (gset string) :=
  match rawTypes with
  | [] => Ok acc
  | rawType :: rawTypes =>
      if decide (rawType = "") then parse_types typeKey (i + 1) rawTypes acc
      else
        t ← or_prefix ("invalid " +:+ typeKey +:+ "[" +:+ itoa i +:+ "]: ") (QueryUnescape rawType);
        parse_types typeKey (i + 1) rawTypes ({[t]} ∪ acc)
  end.

Fixpoint parse_tags (rawTags : list string) : result (list string) :=
  match rawTags with
  | [] => Ok []
  | rawTag :: rawTags =>
      if decide (rawTag = "") then parse_tags rawTags
      else
        tag ← or_prefix "invalid tag: " (QueryUnescape rawTag);
        rest ← parse_tags rawTags;
        Ok (to_lower tag :: rest)
  end.

Definition positive_int (pre msg s : string) : result Z :=
  n ← or_prefix pre (atoi s); if decide (n < 1) then Err (ErrMsg msg) else Ok n.

(** sortBy, sortAscending, pageSize and page *)
Definition parseSortingPaging (query : gmap string string) : result (string * bool * Z * Z) :=
  let by_ := param query "sortBy" in
  let dir := param query "sortDir" in
  asc ← (if decide (dir = "") then Ok false
         else if decide (dir = "ascending") then Ok true
         else if decide (dir = "descending") then Ok false
         else Err (ErrMsg ("invalid sortDir: " +:+ dir)));
  size ← optional (param query "pageSize") (positive_int "invalid pageSize: " "invalid pageSize: must be positive");
  page ← optional (param query "page") (positive_int "invalid page: " "invalid page: must be positive");
  Ok (if decide (by_ = "") then "severity" else by_, asc, default 25 size, default 1 page).

Definition parseList (validateSeverity : string → option error) (query : gmap string string) (codeType : string)
    : result listParams :=
  status ← validated_if_set "invalid complianceStatus: " validateStatus (param query "complianceStatus");
  name ← or_prefix "invalid nameContains: " (QueryUnescape (param query "nameContains"));
  enabled ← optional (param query "enabled") (λ s, or_prefix "invalid enabled: " (ParseBool s));
  hasRem ← optional (param query "hasRemediation") (λ s, or_prefix "invalid hasRemediation: " (ParseBool s));
  let typeKey := if decide (codeType = typeRule) then "logTypes" else "resourceTypes" in
  types ← parse_types typeKey 0 (split_on comma (param query typeKey)) ∅;
  severity ← validated_if_set "invalid severity: " validateSeverity (param query "severity");
  tags ← parse_tags (split_on comma (param query "tags"));
  '(by_, asc, size, page) ← parseSortingPaging query;
  Ok {| pComplianceStatus := status; nameContains := to_lower name; pEnabled := enabled; hasRemediation := hasRem;
        pResourceTypes := types; pSeverity := severity; pTags := tags; sortBy := by_; sortAscending := asc;
        pPageSize := size; pPage := page |}.

(** ** The scan *)

Definition list_projection : list string :=
  ["autoRemediationId"; "autoRemediationParameters"; "displayName"; "enabled"; "id"; "lastModified";
   "resourceTypes"; "severity"; "suppressions"; "tags"].

(** [types] in the order in which the map is iterated *)
Definition policy_filter (params : listParams) (codeType : string) (types : list string) : Condition :=
  let filter := Equal "type" (VStr codeType) in
  let filter := if decide (nameContains params = "") then filter
                else And filter (Or (Contains "lowerId" (nameContains params))
                                    (Contains "lowerDisplayName" (nameContains params))) in
  let filter := and_opt (λ b, Equal "enabled" (VBool b)) (pEnabled params) filter in
  let filter := and_opt (λ b, if (b : bool) then AttributeExists "autoRemediationId"
                              else AttributeNotExists "autoRemediationId") (hasRemediation params) filter in
  let filter := if decide (pResourceTypes params = ∅) then filter
                else And filter (foldl (λ c t, Or c (Contains "resourceTypes" t))
                                       (AttributeNotExists "resourceTypes") types) in
  let filter := if decide (pSeverity params = "") then filter
                else And filter (Equal "severity" (VStr (pSeverity params))) in
  if decide (pTags params = []) then filter
  else And filter (foldl (λ c t, And c (Contains "lowerTags" t)) (AttributeExists "lowerTags") (pTags params)).

(** ** Summaries *)

(** models.PolicySummary and models.RuleSummary *)
Record PolicySummary := {
  suAutoRemediationID : string; suAutoRemediationParameters : gmap string string; suComplianceStatus : string;
  suDisplayName : string; suEnabled : bool; suID : string; suLastModified : Time; suResourceTypes : list string;
  suSeverity : string; suSuppressions : list string; suTags : list string
}.

Record RuleSummary := {
  rsmDisplayName : string; rsmEnabled : bool; rsmID : string; rsmLastModified : Time; rsmLogTypes : list string;
  rsmSeverity : string; rsmTags : list string
}.

Definition to_PolicySummary (status : string) (r : tableItem) : PolicySummary :=
  let r := normalize r in
  {| suAutoRemediationID := AutoRemediationID r; suAutoRemediationParameters := AutoRemediationParameters r;
     suComplianceStatus := status; suDisplayName := DisplayName (tiCommon r); suEnabled := Enabled (tiCommon r);
     suID := ID (tiCommon r); suLastModified := LastModified (tiAudit r); suResourceTypes := ResourceTypes r;
     suSeverity := Severity (tiCommon r); suSuppressions := Suppressions r; suTags := Tags r |}.

Definition to_RuleSummary (p : PolicySummary) : RuleSummary :=
  {| rsmDisplayName := suDisplayName p; rsmEnabled := suEnabled p; rsmID := suID p;
     rsmLastModified := suLastModified p; rsmLogTypes := suResourceTypes p; rsmSeverity := suSeverity p;
     rsmTags := suTags p |}.

(** ** Sorting and paging *)

Definition severitySortPriority (s : string) : Z :=
  if decide (s = "INFO") then 1 else if decide (s = "LOW") then 2 else if decide (s = "MEDIUM") then 3
  else if decide (s = "HIGH") then 4 else if decide (s = "CRITICAL") then 5 else 0.

Section Sort.
Context (dateString : Time → string).
Implicit Types left right : PolicySummary.

Definition by_id left right : bool := sltb (suID left) (suID right).

Definition sortByStatus_less (policyStatus : gmap string complianceStatus) (ascending : bool) left right
    : outcome bool :=
  if decide (suComplianceStatus left ≠ suComplianceStatus right) then
    Ret (int_less ascending (statusSortPriority (suComplianceStatus left))
           (statusSortPriority (suComplianceStatus right)))
  else if decide (suComplianceStatus left = StatusERROR ∨ suComplianceStatus left = StatusFAIL) then
    l ← deref (policyStatus !! suID left);
    r ← deref (policyStatus !! suID right);
    Ret (int_less (negb ascending) (csSortIndex l) (csSortIndex r))
  else Ret (by_id left right).

Definition sortByEnabled_less (ascending : bool) left right : bool :=
  if suEnabled left && negb (suEnabled right) then negb ascending
  else if negb (suEnabled left) && suEnabled right then ascending
  else by_id left right.

Definition sortByLastModified_less (ascending : bool) left right : bool :=
  let leftTime := dateString (suLastModified left) in
  let rightTime := dateString (suLastModified right) in
  if decide (leftTime ≠ rightTime) then str_less ascending leftTime rightTime else by_id left right.

(** the first differing pair of types, if any *)
Fixpoint types_differ (ls rs : list string) : option (string * string) :=
  match ls, rs with
  | l :: ls, r :: rs => if decide (l ≠ r) then Some (l, r) else types_differ ls rs
  | _, _ => None
  end.

Definition sortByType_less (ascending : bool) left right : bool :=
  match types_differ (suResourceTypes left) (suResourceTypes right) with
  | Some (leftType, rightType) => str_less ascending leftType rightType
  | None => by_id left right
  end.

Definition sortBySeverity_less (ascending : bool) left right : bool :=
  let leftSort := severitySortPriority (suSeverity left) in
  let rightSort := severitySortPriority (suSeverity right) in
  if decide (leftSort ≠ rightSort) then int_less ascending leftSort rightSort else by_id left right.

Definition sortByID_less (ascending : bool) left right : bool := str_less ascending (suID left) (suID right).

Definition sortPolicies (st : apiState) (policies : list PolicySummary) (by_ : string) (ascending : bool)
    : outcome (list PolicySummary) :=
  let total f := sort_slice_outcome (λ l r, Ret (f l r)) policies in
  if decide (length policies ≤ 1)%nat then Ret policies
  else if decide (by_ = "complianceStatus") then
    cache ← deref (complianceCache st);
    sort_slice_outcome (sortByStatus_less (ccResources cache) ascending) policies
  else if decide (by_ = "enabled") then total (sortByEnabled_less ascending)
  else if decide (by_ = "lastModified") then total (sortByLastModified_less ascending)
  else if decide (by_ = "logTypes" ∨ by_ = "resourceTypes") then total (sortByType_less ascending)
  else if decide (by_ = "severity") then total (sortBySeverity_less ascending)
  else total (sortByID_less ascending).
End Sort.

Definition pagePolicies (policies : list PolicySummary) (pageSize page : Z) : outcome (Paging * list PolicySummary) :=
  let n := Z.of_nat (length policies) in
  if decide (pageSize = 0) then Panic "integer divide by zero"
  else
    let totalPages := Z.quot n pageSize in
    let totalPages := if decide (0 < Z.rem n pageSize) then totalPages + 1 else totalPages in
    let lowerBound := intMin (int64 (int64 (page - 1) * pageSize)) n in
    let upperBound := intMin (int64 (page * pageSize)) n in
    l ← slice policies lowerBound upperBound;
    Ret ({| pgThisPage := page; pgTotalItems := n; pgTotalPages := totalPages |}, l).

(** ** The handler *)

Inductive listBody :=
| LEmpty
| LError (message : string)
| LPolicies (p : Paging) (l : list PolicySummary)
| LRules (p : Paging) (l : list RuleSummary).

Record listResponse := { lrStatusCode : Z; lrBody : listBody }.

Section List.
Context {D Raw : Type} (now : nat → Time) (DescribeOrg : nat → result (list (option string * string))).
Context (dateString : Time → string) (MarshalList : listBody → result string).
Context (validateSeverity : string → option error) (Build : Condition → list string → option error).
Context (ScanPages : D → ScanInput → list Raw * option error) (UnmarshalPage : Raw → result (list tableItem)).
Context (order : gset string → list string).

Definition list_respond (body : listBody) (statusCode : Z) : listResponse :=
  match MarshalList body with
  | Err _ => {| lrStatusCode := 500; lrBody := LEmpty |}
  | Ok _ => {| lrStatusCode := statusCode; lrBody := body |}
  end.

Definition server_error : listResponse := {| lrStatusCode := 500; lrBody := LEmpty |}.

Definition buildListScan (params : listParams) (codeType : string) : result ScanInput :=
  let filter := policy_filter params codeType (order (pResourceTypes params)) in
  match Build filter list_projection with
  | Some e => Err e
  | None => Ok {| siFilter := filter; siProjection := list_projection |}
  end.

Definition filter_item (params : listParams) (s : apiState * list PolicySummary) (item : tableItem)
    : outcome (apiState * list PolicySummary * option error) :=
  let '(st, result) := s in
  if decide (Type_ item = typeRule) then Ret (st, result ++ [to_PolicySummary "" item], None)
  else
    '(st, status) ← getComplianceStatus now DescribeOrg st (ID (tiCommon item));
    match status with
    | Err e => Ret (st, result, Some e)
    | Ok status =>
        if decide (pComplianceStatus params ≠ "" ∧ csStatus status ≠ pComplianceStatus params)
        then Ret (st, result, None)
        else Ret (st, result ++ [to_PolicySummary (csStatus status) item], None)
    end.

Definition listFiltered (d : D) (scanInput : ScanInput) (params : listParams) (st : apiState)
    : outcome (apiState * list PolicySummary * option error) :=
  AnalysisApi.scanPages ScanPages UnmarshalPage d scanInput (filter_item params) (st, []).

(** the answer of a list of either kind *)
Definition list_body (codeType : string) (paging : Paging) (l : list PolicySummary) : listBody :=
  if decide (codeType = typePolicy) then LPolicies paging l else LRules paging (to_RuleSummary <$> l).

Definition handleList (d : D) (query : gmap string string) (codeType : string) (st : apiState)
    : outcome (apiState * listResponse) :=
  match parseList validateSeverity query codeType with
  | Err e => Ret (st, list_respond (LError (errText e)) 400)
  | Ok params =>
      match buildListScan params codeType with
      | Err _ => Ret (st, server_error)
      | Ok scanInput =>
          '(st, policies, err) ← listFiltered d scanInput params st;
          match err with
          | Some _ => Ret (st, server_error)
          | None =>
              match policies with
              | [] => Ret (st, list_respond (list_body codeType
                               {| pgThisPage := 0; pgTotalItems := 0; pgTotalPages := 0 |} []) 200)
              | _ :: _ =>
                  policies ← sortPolicies dateString st policies (sortBy params) (sortAscending params);
                  '(paging, page) ← pagePolicies policies (pPageSize params) (pPage params);
                  Ret (st, list_respond (list_body codeType paging page) 200)
              end
          end
      end
  end.

Definition ListPolicies (d : D) (query : gmap string string) (st : apiState) := handleList d query typePolicy st.
Definition ListRules (d : D) (query : gmap string string) (st : apiState) := handleList d query typeRule st.
End List.
