(* ===== verification/AnalysisListSpec.v ===== *)
(** * Analysis API: what listing promises *)

From S2P Require Import Prelude GoStrings GoTime GoSort GoPath Compliance ComplianceHandlers Backoff Dynamodbbatch.
From S2P Require Import Sqsbatch AlertOutputs ResourcesApi ResourcesApiSpec AnalysisApi AnalysisApiSpec AnalysisList.

#[local] Open Scope Z_scope.

(** ** The table *)

Definition if_set {A} `{EqDecision A} (a zero : A) (v : Value) : option Value :=
  if decide (a = zero) then None else Some v.

(** the attributes of an item that the filters name; empty ones are omitted *)
Definition policy_attribute (i : tableItem) (name : string) : option Value :=
  if decide (name = "type") then Some (VStr (Type_ i))
  else if decide (name = "enabled") then Some (VBool (Enabled (tiCommon i)))
  else if decide (name = "severity") then Some (VStr (Severity (tiCommon i)))
  else if decide (name = "autoRemediationId") then if_set (AutoRemediationID i) "" (VStr (AutoRemediationID i))
  else if decide (name = "lowerId") then if_set (LowerID i) "" (VStr (LowerID i))
  else if decide (name = "lowerDisplayName") then if_set (LowerDisplayName i) "" (VStr (LowerDisplayName i))
  else if decide (name = "resourceTypes") then if_set (ResourceTypes i) [] (VSet (ResourceTypes i))
  else if decide (name = "lowerTags") then if_set (LowerTags i) [] (VSet (LowerTags i))
  else None.

(** an item reduced to some attributes *)
Definition project_item (names : list string) (i : tableItem) : tableItem :=
  let get {A} name (a zero : A) := if decide (name ∈ names) then a else zero in
  let c := tiCommon i in
  {| tiCommon := {| Body := get "body" (Body c) ""; Description := get "description" (Description c) "";
                    DisplayName := get "displayName" (DisplayName c) ""; Enabled := get "enabled" (Enabled c) false;
                    ID := get "id" (ID c) ""; Reference := get "reference" (Reference c) "";
                    Runbook := get "runbook" (Runbook c) ""; Severity := get "severity" (Severity c) "" |};
     AutoRemediationID := get "autoRemediationId" (AutoRemediationID i) "";
     AutoRemediationParameters := get "autoRemediationParameters" (AutoRemediationParameters i) ∅;
     ResourceTypes := get "resourceTypes" (ResourceTypes i) []; Suppressions := get "suppressions" (Suppressions i) [];
     Tags := get "tags" (Tags i) []; Tests := get "tests" (Tests i) [];
     tiAudit := {| CreatedAt := get "createdAt" (CreatedAt (tiAudit i)) 0;
                   CreatedBy := get "createdBy" (CreatedBy (tiAudit i)) "";
                   LastModified := get "lastModified" (LastModified (tiAudit i)) 0;
                   LastModifiedBy := get "lastModifiedBy" (LastModifiedBy (tiAudit i)) "" |};
     VersionID := get "versionId" (VersionID i) "";
     DedupPeriodMinutes := get "dedupPeriodMinutes" (DedupPeriodMinutes i) 0; Type_ := get "type" (Type_ i) "";
     LowerDisplayName := get "lowerDisplayName" (LowerDisplayName i) ""; LowerID := get "lowerId" (LowerID i) "";
     LowerTags := get "lowerTags" (LowerTags i) [] |}.

Class PolicyTable {D Raw : Type} (items : D → list tableItem)
    (ScanPages : D → ScanInput → list Raw * option error)
    (UnmarshalPage : Raw → result (list tableItem)) : Prop := {
  policy_keys : ∀ d, NoDup ((λ i, ID (tiCommon i)) <$> items d);
  policy_scan : ∀ d input pages, ScanPages d input = (pages, None) →
    ∃ found, Forall2 (λ page l, UnmarshalPage page = Ok l) pages found ∧
      concat found ≡ₚ project_item (siProjection input) <$>
        filter (λ i, holds (policy_attribute i) (siFilter input) = true) (items d)
}.

(** ** Filters *)

(** the items a request asks for, the compliance status aside; a policy
    without resource types applies to all of them *)
Definition wanted_policy (params : listParams) (codeType : string) (i : tableItem) : bool :=
  bool_decide (Type_ i = codeType) &&
  (bool_decide (nameContains params = "") || contains (nameContains params) (LowerID i) ||
     contains (nameContains params) (LowerDisplayName i)) &&
  agrees (pEnabled params) (λ b, bool_decide (Enabled (tiCommon i) = b)) &&
  agrees (hasRemediation params) (λ b, bool_decide (bool_decide (AutoRemediationID i ≠ "") = b)) &&
  (bool_decide (pResourceTypes params = ∅) || bool_decide (ResourceTypes i = []) ||
     existsb (λ t, bool_decide (t ∈ pResourceTypes params)) (ResourceTypes i)) &&
  (bool_decide (pSeverity params = "") || bool_decide (Severity (tiCommon i) = pSeverity params)) &&
  forallb (λ t, bool_decide (t ∈ LowerTags i)) (pTags params).

Lemma holds_contains_text i name text s :
  policy_attribute i name = if_set text "" (VStr text) → s ≠ "" →
  holds (policy_attribute i) (Contains name s) = contains s text.
Proof.
  intros H Hs. cbn [holds]. rewrite H. unfold if_set. case_decide as Ht; [|done]. subst. by destruct s.
Qed.

Lemma holds_contains_set i name l s :
  policy_attribute i name = if_set l [] (VSet l) →
  holds (policy_attribute i) (Contains name s) = bool_decide (s ∈ l).
Proof.
  intros H. cbn [holds]. rewrite H. unfold if_set. case_decide as Ht; [|done]. subst.
  by rewrite bool_decide_false by apply not_elem_of_nil.
Qed.

Lemma holds_or_types i c types :
  holds (policy_attribute i) (foldl (λ c t, Or c (Contains "resourceTypes" t)) c types) =
  holds (policy_attribute i) c || existsb (λ t, bool_decide (t ∈ ResourceTypes i)) types.
Proof.
  revert c. induction types as [|t types IH]; intros c; cbn [foldl existsb]; [by rewrite orb_false_r|].
  rewrite IH. change (holds ?a (Or c ?x)) with (holds a c || holds a x).
  rewrite (holds_contains_set i "resourceTypes" (ResourceTypes i)) by done. by rewrite orb_assoc.
Qed.

Lemma holds_and_tags i c tags :
  holds (policy_attribute i) (foldl (λ c t, And c (Contains "lowerTags" t)) c tags) =
  holds (policy_attribute i) c && forallb (λ t, bool_decide (t ∈ LowerTags i)) tags.
Proof.
  revert c. induction tags as [|t tags IH]; intros c; cbn [foldl forallb]; [by rewrite andb_true_r|].
  rewrite IH. change (holds ?a (And c ?x)) with (holds a c && holds a x).
  rewrite (holds_contains_set i "lowerTags" (LowerTags i)) by done. by rewrite andb_assoc.
Qed.

Lemma existsb_swap (l l' : list string) (m : gset string) :
  l' ≡ₚ elements m → existsb (λ t, bool_decide (t ∈ l)) l' = existsb (λ t, bool_decide (t ∈ m)) l.
Proof.
  intros Hp. apply eq_bool_prop_intro. rewrite !Is_true_true, !existsb_exists.
  setoid_rewrite bool_decide_eq_true. setoid_rewrite <-list_elem_of_In. setoid_rewrite Hp.
  setoid_rewrite elem_of_elements. naive_solver.
Qed.

Section FilterParts.
Context (i : tableItem) (params : listParams).
Notation sat_i := (holds (policy_attribute i)).

Lemma filter_tags c :
  sat_i (if decide (pTags params = []) then c
         else And c (foldl (λ c t, And c (Contains "lowerTags" t)) (AttributeExists "lowerTags") (pTags params))) =
  sat_i c && forallb (λ t, bool_decide (t ∈ LowerTags i)) (pTags params).
Proof.
  case_decide as Ht; [rewrite Ht; by rewrite andb_true_r|].
  change (sat_i (And c ?x)) with (sat_i c && sat_i x). rewrite holds_and_tags. f_equal.
  cbn [holds]. change (policy_attribute i "lowerTags") with (if_set (LowerTags i) [] (VSet (LowerTags i))).
  unfold if_set. case_decide as Hl; [|by rewrite bool_decide_true by eauto].
  destruct (pTags params) as [|t ts]; [done|]. cbn [forallb]. rewrite Hl.
  rewrite (bool_decide_false (t ∈ [])) by apply not_elem_of_nil. by rewrite andb_false_r.
Qed.

Lemma filter_severity c :
  sat_i (if decide (pSeverity params = "") then c else And c (Equal "severity" (VStr (pSeverity params)))) =
  sat_i c && (bool_decide (pSeverity params = "") || bool_decide (Severity (tiCommon i) = pSeverity params)).
Proof.
  case_decide as Hs; [rewrite (bool_decide_true (_ = "")) by done; by rewrite andb_true_r|].
  rewrite (bool_decide_false (_ = "")) by done. cbn [orb]. change (sat_i (And c ?x)) with (sat_i c && sat_i x).
  by rewrite (holds_str _ "severity" (Severity (tiCommon i))) by done.
Qed.

Lemma filter_types c types :
  types ≡ₚ elements (pResourceTypes params) →
  sat_i (if decide (pResourceTypes params = ∅) then c
         else And c (foldl (λ c t, Or c (Contains "resourceTypes" t)) (AttributeNotExists "resourceTypes") types)) =
  sat_i c && (bool_decide (pResourceTypes params = ∅) || bool_decide (ResourceTypes i = []) ||
              existsb (λ t, bool_decide (t ∈ pResourceTypes params)) (ResourceTypes i)).
Proof.
  intros Hty. case_decide as Hs; [rewrite (bool_decide_true (_ = ∅)) by done; by rewrite andb_true_r|].
  rewrite (bool_decide_false (_ = ∅)) by done. cbn [orb].
  change (sat_i (And c ?x)) with (sat_i c && sat_i x). rewrite holds_or_types, (existsb_swap _ _ _ Hty). f_equal.
  f_equal. cbn [holds].
  change (policy_attribute i "resourceTypes") with (if_set (ResourceTypes i) [] (VSet (ResourceTypes i))).
  unfold if_set. case_decide as Hr.
  - by rewrite (bool_decide_true (ResourceTypes i = [])) by done.
  - rewrite (bool_decide_true (is_Some _)) by eauto. by rewrite (bool_decide_false (ResourceTypes i = [])) by done.
Qed.

Lemma filter_remediation (b : bool) :
  sat_i (if b then AttributeExists "autoRemediationId" else AttributeNotExists "autoRemediationId") =
  bool_decide (bool_decide (AutoRemediationID i ≠ "") = b).
Proof.
  destruct b; cbn [holds];
    change (policy_attribute i "autoRemediationId")
      with (if_set (AutoRemediationID i) "" (VStr (AutoRemediationID i)));
    unfold if_set; destruct (decide (AutoRemediationID i = "")) as [E|E]; rewrite ?E; try done;
    rewrite (bool_decide_true (is_Some _)) by eauto;
    by rewrite (bool_decide_true (AutoRemediationID i ≠ "")) by done.
Qed.

Lemma filter_name codeType :
  sat_i (if decide (nameContains params = "") then Equal "type" (VStr codeType)
         else And (Equal "type" (VStr codeType)) (Or (Contains "lowerId" (nameContains params))
                                                    (Contains "lowerDisplayName" (nameContains params)))) =
  bool_decide (Type_ i = codeType) &&
  (bool_decide (nameContains params = "") || contains (nameContains params) (LowerID i) ||
   contains (nameContains params) (LowerDisplayName i)).
Proof.
  assert (sat_i (Equal "type" (VStr codeType)) = bool_decide (Type_ i = codeType)) as Ht by by apply holds_str.
  destruct (decide (nameContains params = "")) as [Hn|Hn].
  - rewrite (bool_decide_true (nameContains params = "")) by exact Hn. cbn [orb]. by rewrite andb_true_r, Ht.
  - rewrite (bool_decide_false (nameContains params = "")) by exact Hn. cbn [orb].
    change (sat_i (And ?c (Or ?x ?y))) with (sat_i c && (sat_i x || sat_i y)).
    rewrite (holds_contains_text i "lowerId" (LowerID i)) by done.
    rewrite (holds_contains_text i "lowerDisplayName" (LowerDisplayName i)) by done. by rewrite Ht.
Qed.

Lemma holds_policy_filter codeType types :
  types ≡ₚ elements (pResourceTypes params) →
  sat_i (policy_filter params codeType types) = wanted_policy params codeType i.
Proof.
  intros Hty. unfold policy_filter, wanted_policy.
  rewrite filter_tags, filter_severity, (filter_types _ _ Hty).
  rewrite (holds_and_opt _ _ _ _ _ filter_remediation).
  rewrite (holds_and_opt _ _ _ _ (λ b, bool_decide (Enabled (tiCommon i) = b))); [|intros b; by apply holds_bool].
  by rewrite filter_name.
Qed.
End FilterParts.

(** ** Sorting *)

(** ties are broken by identifier, ascending in every direction *)
Definition z_less (prim : PolicySummary → Z) (asc : bool) (l r : PolicySummary) : bool :=
  if decide (prim l ≠ prim r) then int_less asc (prim l) (prim r) else by_id l r.

Lemma z_less_asym prim asc l r : z_less prim asc l r = true → z_less prim asc r l = false.
Proof.
  unfold z_less. destruct (decide (prim l = prim r)) as [E|E].
  - rewrite E, !(decide_False (P := prim r ≠ prim r)) by (by intros []). apply sltb_asym.
  - rewrite !decide_True by congruence. apply int_less_asym.
Qed.

Definition z_key (prim : PolicySummary → Z) (asc : bool) (x : PolicySummary) : list Z * string :=
  ([if asc then prim x else - prim x], suID x).

Lemma z_less_le prim asc x y : z_less prim asc y x = false ↔ key_le (z_key prim asc x) (z_key prim asc y).
Proof.
  unfold z_less, z_key, key_le, by_id, int_less. cbn [fst snd key_leb].
  destruct (decide (prim y = prim x)) as [E|E].
  - rewrite E, (decide_False (P := prim x ≠ prim x)) by (by intros []). rewrite sltb_leb.
    destruct asc; by rewrite !decide_False by lia.
  - rewrite (decide_True (P := prim y ≠ prim x)) by done. destruct asc; rewrite bool_decide_eq_false;
      repeat case_decide; try lia; naive_solver lia.
Qed.

Definition enabled_rank (p : PolicySummary) : Z := if suEnabled p then 1 else 0.
Definition severity_rank (p : PolicySummary) : Z := severitySortPriority (suSeverity p).

Lemma sortByEnabled_z asc l r : sortByEnabled_less asc l r = z_less enabled_rank asc l r.
Proof.
  unfold sortByEnabled_less, z_less, enabled_rank, int_less.
  destruct (suEnabled l), (suEnabled r), asc; cbn; try done; by rewrite decide_False by (by intros []).
Qed.

(** times in one direction, identifiers ascending *)
Definition mixed_le (asc : bool) (x y : string * string) : Prop :=
  (if asc then String.leb x.1 y.1 else String.leb y.1 x.1) = true ∧ (x.1 = y.1 → String.leb x.2 y.2 = true).

#[export] Instance mixed_le_trans asc : Transitive (mixed_le asc).
Proof.
  intros [a1 a2] [b1 b2] [c1 c2] [H1 H2] [H3 H4]. unfold mixed_le. cbn [fst snd] in *. destruct asc.
  - split; [by eapply leb_trans|]. intros ->. assert (c1 = b1) as -> by by apply String.leb_antisym.
    eapply leb_trans; eauto.
  - split; [by eapply leb_trans|]. intros ->. assert (c1 = b1) as -> by by apply String.leb_antisym.
    eapply leb_trans; eauto.
Qed.

#[export] Instance mixed_le_antisymm asc : AntiSymm (=) (mixed_le asc).
Proof.
  intros [a1 a2] [b1 b2] [H1 H2] [H3 H4]. cbn in *.
  assert (a1 = b1) as -> by (destruct asc; by apply String.leb_antisym). f_equal. apply String.leb_antisym; auto.
Qed.

Section SortSpec.
Context (dateString : Time → string) (rs : gmap string complianceStatus).
Implicit Types l r x y : PolicySummary.

Definition time_of (p : PolicySummary) : string := dateString (suLastModified p).

Lemma time_less_asym asc l r :
  sortByLastModified_less dateString asc l r = true → sortByLastModified_less dateString asc r l = false.
Proof.
  unfold sortByLastModified_less. fold (time_of l) (time_of r). destruct (decide (time_of l = time_of r)) as [E|E].
  - rewrite E, !(decide_False (P := time_of r ≠ time_of r)) by (by intros []). apply sltb_asym.
  - rewrite !decide_True by congruence. apply str_less_asym.
Qed.

Lemma time_less_le asc x y :
  sortByLastModified_less dateString asc y x = false ↔ mixed_le asc (time_of x, suID x) (time_of y, suID y).
Proof.
  unfold sortByLastModified_less, mixed_le, str_less, by_id. fold (time_of x) (time_of y). cbn [fst snd].
  destruct (decide (time_of y = time_of x)) as [E|E].
  - rewrite E, (decide_False (P := time_of x ≠ time_of x)) by (by intros []). rewrite sltb_leb.
    split; [|by intros [_ ?]; auto]. intros ?. split; [|done]. destruct asc; by apply sltb_leb, sltb_irrefl.
  - rewrite decide_True by done. destruct asc; rewrite sltb_leb; (split; [|tauto]); intros ?; (split; [done|]);
      congruence.
Qed.

(** by status, when every failing policy is in the cache *)
Definition pstatus_less (asc : bool) l r : bool :=
  if decide (suComplianceStatus l ≠ suComplianceStatus r) then
    int_less asc (statusSortPriority (suComplianceStatus l)) (statusSortPriority (suComplianceStatus r))
  else if decide (suComplianceStatus l = StatusERROR ∨ suComplianceStatus l = StatusFAIL) then
    int_less (negb asc) (csSortIndex (status_in rs (suID l))) (csSortIndex (status_in rs (suID r)))
  else by_id l r.

Lemma pstatus_less_asym asc l r : pstatus_less asc l r = true → pstatus_less asc r l = false.
Proof.
  unfold pstatus_less. destruct (decide (suComplianceStatus l = suComplianceStatus r)) as [E|E].
  - rewrite E, !(decide_False (P := suComplianceStatus r ≠ suComplianceStatus r)) by (by intros []).
    case_decide; [apply int_less_asym|apply sltb_asym].
  - rewrite !decide_True by congruence. apply int_less_asym.
Qed.

Definition pstatus_key (asc : bool) x : list Z * string :=
  let sign z := if asc then z else - z in
  let prio := sign (statusSortPriority (suComplianceStatus x)) in
  if decide (suComplianceStatus x = StatusERROR ∨ suComplianceStatus x = StatusFAIL)
  then ([prio; sign (- csSortIndex (status_in rs (suID x)))], "") else ([prio], suID x).

Lemma pstatus_less_le asc x y :
  suComplianceStatus x ∈ [StatusERROR; StatusFAIL; StatusPASS] →
  suComplianceStatus y ∈ [StatusERROR; StatusFAIL; StatusPASS] →
  pstatus_less asc y x = false ↔ key_le (pstatus_key asc x) (pstatus_key asc y).
Proof.
  intros Hx Hy. rewrite !elem_of_cons, elem_of_nil in Hx, Hy.
  unfold pstatus_less, pstatus_key, key_le, int_less, by_id.
  destruct_or! Hx; destruct_or! Hy; try done; rewrite Hx, Hy; destruct asc; cbn -[sltb String.leb];
    repeat case_decide; rewrite ?sltb_leb, ?bool_decide_eq_false; try lia; try done;
    cbn [fst snd key_leb]; repeat case_decide; try lia; intuition (congruence || lia).
Qed.

Definition summary_less (by_ : string) (asc : bool) : PolicySummary → PolicySummary → bool :=
  if decide (by_ = "complianceStatus") then pstatus_less asc
  else if decide (by_ = "enabled") then sortByEnabled_less asc
  else if decide (by_ = "lastModified") then sortByLastModified_less dateString asc
  else if decide (by_ = "severity") then sortBySeverity_less asc
  else sortByID_less asc.

(** the types of a policy are not an order; see [sort_by_type_unstable] *)
Definition by_order (by_ : string) : Prop := by_ ≠ "logTypes" ∧ by_ ≠ "resourceTypes".

Lemma summary_less_asym by_ asc l r : summary_less by_ asc l r = true → summary_less by_ asc r l = false.
Proof.
  unfold summary_less. repeat case_decide; try apply pstatus_less_asym; try apply time_less_asym.
  - rewrite !sortByEnabled_z. apply z_less_asym.
  - apply (z_less_asym severity_rank).
  - apply str_less_asym.
Qed.

Definition pstatus_known (l : list PolicySummary) : Prop :=
  Forall (λ x, suComplianceStatus x = csStatus (status_in rs (suID x))) l.

Lemma sortPolicies_sorts st (l : list PolicySummary) by_ asc :
  by_order by_ →
  (by_ = "complianceStatus" → pstatus_known l ∧
     (l ≠ [] → ∃ e, complianceCache st = Some e ∧ ccResources e = rs)) →
  ∃ l' : list PolicySummary, sortPolicies dateString st l by_ asc = Ret l' ∧ sorts (summary_less by_ asc) l l'.
Proof.
  intros [Ho1 Ho2] Hst. unfold sortPolicies. case_decide as Hlen.
  { exists l. split; [done|]. destruct l as [|x [|]]; cbn in *; [by repeat constructor..|lia]. }
  pose proof (summary_less_asym by_ asc) as Has. unfold summary_less in *.
  destruct (decide (by_ = "complianceStatus")) as [Hby|Hby].
  - destruct Hst as [Hk He]; [done|]. destruct He as (entry&->&Hrs); [by intros ->; cbn in *; lia|].
    cbn [deref]. run. rewrite Hrs.
    apply sort_slice_outcome_sorts; [|done]. intros x y Hx Hy. unfold sortByStatus_less, pstatus_less.
    destruct (decide (suComplianceStatus x = suComplianceStatus y)) as [Heq|Heq];
      [|by rewrite !decide_True by done].
    rewrite Heq, !(decide_False (P := suComplianceStatus y ≠ suComplianceStatus y)) by (by intros []).
    case_decide as Hf; [|done]. rewrite <-Heq in Hf.
    assert (∀ z, z ∈ l → suComplianceStatus z = suComplianceStatus x →
      rs !! suID z = Some (status_in rs (suID z))) as Hin.
    { intros z Hz Hzx. unfold pstatus_known in Hk. rewrite Forall_forall in Hk. specialize (Hk z Hz).
      unfold status_in in *. destruct (rs !! suID z); [done|]. cbn in Hk.
      rewrite <-Hzx, Hk in Hf. by destruct Hf. }
    rewrite !Hin by auto. done.
  - destruct (decide (by_ = "enabled")); [by apply sort_slice_outcome_sorts|].
    destruct (decide (by_ = "lastModified")); [by apply sort_slice_outcome_sorts|].
    rewrite (decide_False (P := _ ∨ _)) by (by intros [?|?]).
    destruct (decide (by_ = "severity")); by apply sort_slice_outcome_sorts.
Qed.

Lemma suID_inj (l : list PolicySummary) x y :
  NoDup (suID <$> l) → x ∈ l → y ∈ l → suID x = suID y → x = y.
Proof.
  intros Hnd (i&Hi)%list_elem_of_lookup (j&Hj)%list_elem_of_lookup Hid.
  assert (i = j) as -> by
    (eapply (NoDup_lookup (suID <$> l) i j (suID x)); [done|by rewrite list_lookup_fmap, Hi
    |rewrite list_lookup_fmap, Hj; cbn; congruence]).
  congruence.
Qed.

Lemma pstatus_keyed asc (l : list PolicySummary) :
  cache_ok rs → pstatus_known l → NoDup (suID <$> l) →
  keyed_by key_le (pstatus_less asc) (pstatus_key asc) l.
Proof.
  intros [Hinj Henum] Hk Hnd. unfold pstatus_known in Hk. rewrite Forall_forall in Hk. split.
  - intros x y Hx Hy. apply pstatus_less_le; rewrite Hk by done; apply Henum.
  - intros x y Hx Hy. unfold pstatus_key.
    assert (∀ z, z ∈ l → suComplianceStatus z = StatusERROR ∨ suComplianceStatus z = StatusFAIL →
      rs !! suID z = Some (status_in rs (suID z))) as Hin.
    { intros z Hz Hf. rewrite Hk in Hf by done. unfold status_in in *. destruct (rs !! suID z); [done|].
      by destruct Hf. }
    repeat case_decide; intros [= H1 H2]; [|by eapply suID_inj..].
    apply (suID_inj l); [done..|]. eapply Hinj; [by apply Hin..|destruct asc; lia].
Qed.

Lemma id_keyed {K} (le : K → K → Prop) less (key : PolicySummary → K) (l : list PolicySummary) :
  NoDup (suID <$> l) → (∀ x y, less y x = false ↔ le (key x) (key y)) → (∀ x y, key x = key y → suID x = suID y) →
  keyed_by le less key l.
Proof.
  intros Hnd Hle Hid. split; [intros; apply Hle|]. intros x y Hx Hy Hxy. eapply suID_inj; eauto.
Qed.

Lemma sortByID_le asc x y : sortByID_less asc y x = false ↔ dir_le key_le asc ([], suID x) ([], suID y).
Proof. unfold sortByID_less, str_less, dir_le, key_le, flip. destruct asc; cbn [fst snd key_leb]; apply sltb_leb. Qed.

Lemma policies_sorted_unique by_ asc (l l' l1 l2 : list PolicySummary) :
  NoDup (suID <$> l) → (by_ = "complianceStatus" → cache_ok rs ∧ pstatus_known l) → l' ≡ₚ l →
  sorts (summary_less by_ asc) l l1 → sorts (summary_less by_ asc) l' l2 → l1 = l2.
Proof.
  intros Hnd Hst Hl. unfold summary_less. case_decide.
  { destruct Hst as [Hc Hk]; [done|]. eapply (sorts_unique_by key_le); [by apply pstatus_keyed|done]. }
  case_decide; [|case_decide; [|case_decide]].
  - eapply (sorts_unique_by key_le); [|done]. apply (id_keyed _ _ (z_key enabled_rank asc)); [done| |by intros x y [= _ ?]].
    intros x y. rewrite sortByEnabled_z. apply z_less_le.
  - eapply (sorts_unique_by (mixed_le asc)); [|done].
    apply (id_keyed _ _ (λ x, (time_of x, suID x))); [done|apply time_less_le|by intros x y [= _ ?]].
  - eapply (sorts_unique_by key_le); [|done].
    apply (id_keyed _ _ (z_key severity_rank asc)); [done|apply (z_less_le severity_rank)|by intros x y [= _ ?]].
  - eapply (sorts_unique_by (dir_le key_le asc)); [|done].
    apply (id_keyed _ _ (λ x, ([], suID x))); [done|apply sortByID_le|by intros x y [= ?]].
Qed.
End SortSpec.

(** *** The order that is asked for

    Ascending: by status, passing before failing before in error, those that
    fail or are in error with the top failing ones last; disabled before
    enabled; by the time of the last change; by severity from INFO to CRITICAL;
    or by identifier.  Descending: the other way round.  Ties are in the
    ascending order of the identifiers both ways. *)
Section Order.
Context (dateString : Time → string) (answer : list (option string * string)).

Definition severity_place (p : PolicySummary) : Z :=
  from_option (λ f, Z.of_nat f.1) (-1) (list_find (λ s, s = suSeverity p) ["INFO"; "LOW"; "MEDIUM"; "HIGH"; "CRITICAL"]).

Definition toward (ascending : bool) (z : Z) : Z := if ascending then z else - z.

Definition policy_status_place (ascending : bool) (x : PolicySummary) : list Z * string :=
  if decide (suComplianceStatus x = "PASS") then ([toward ascending (status_rank "PASS")], suID x)
  else ([toward ascending (status_rank (suComplianceStatus x)); toward ascending (- place answer (suID x))], "").

Definition policy_le (by_ : string) (ascending : bool) (x y : PolicySummary) : Prop :=
  if decide (by_ = "complianceStatus") then key_le (policy_status_place ascending x) (policy_status_place ascending y)
  else if decide (by_ = "enabled") then
    key_le ([toward ascending (if suEnabled x then 1 else 0)], suID x) ([toward ascending (if suEnabled y then 1 else 0)], suID y)
  else if decide (by_ = "lastModified") then
    mixed_le ascending (dateString (suLastModified x), suID x) (dateString (suLastModified y), suID y)
  else if decide (by_ = "severity") then
    key_le ([toward ascending (severity_place x)], suID x) ([toward ascending (severity_place y)], suID y)
  else dir_le key_le ascending ([], suID x) ([], suID y).

Definition policies_sorted_as (by_ : string) (ascending : bool) (l L : list PolicySummary) : Prop :=
  L ≡ₚ l ∧ StronglySorted (policy_le by_ ascending) L.

Lemma severity_rank_place p : severity_rank p = severity_place p + 1.
Proof.
  unfold severity_rank, severitySortPriority, severity_place. cbn [list_find]. generalize (suSeverity p). intros s.
  destruct (decide (s = "INFO")) as [->|]; [done|]. destruct (decide (s = "LOW")) as [->|]; [done|].
  destruct (decide (s = "MEDIUM")) as [->|]; [done|]. destruct (decide (s = "HIGH")) as [->|]; [done|].
  destruct (decide (s = "CRITICAL")) as [->|]; [done|]. by rewrite !decide_False by congruence.
Qed.

Lemma sortBySeverity_z asc l r : sortBySeverity_less asc l r = z_less severity_place asc l r.
Proof.
  unfold sortBySeverity_less, z_less. fold (severity_rank l) (severity_rank r). rewrite !severity_rank_place.
  destruct (decide (severity_place l = severity_place r)) as [E|E].
  - rewrite E, !decide_False by (by intros []). done.
  - rewrite !decide_True by lia. unfold int_less. destruct asc; apply bool_decide_ext; lia.
Qed.

Lemma policy_status_place_key rs asc x :
  cache_resources 0 answer ∅ = Ret rs → suComplianceStatus x ∈ [StatusERROR; StatusFAIL; StatusPASS] →
  pstatus_key rs asc x = policy_status_place asc x.
Proof.
  intros Hr Hx. unfold pstatus_key, policy_status_place. rewrite (status_in_said _ _ _ Hr). cbn [csSortIndex].
  rewrite !elem_of_cons, elem_of_nil in Hx. destruct_or! Hx; try done; rewrite Hx; done.
Qed.

Lemma policies_sorts_sorted_as rs by_ asc (l L : list PolicySummary) :
  cache_resources 0 answer ∅ = Ret rs → NoDup (suID <$> l) →
  (by_ = "complianceStatus" → cache_ok rs ∧ pstatus_known rs l) →
  sorts (summary_less dateString rs by_ asc) l L ↔ policies_sorted_as by_ asc l L.
Proof.
  intros Hr Hnd Hst. unfold policies_sorted_as, policy_le, summary_less. case_decide as Hby.
  { destruct (Hst Hby) as [Hc Hk]. rewrite (sorts_keyed_by key_le _ _ _ _ (pstatus_keyed rs asc l Hc Hk Hnd)).
    assert (∀ x, x ∈ l → pstatus_key rs asc x = policy_status_place asc x) as Hkey.
    { intros x Hx. apply (policy_status_place_key _ _ _ Hr). destruct Hc as [_ Henum]. unfold pstatus_known in Hk.
      rewrite Forall_forall in Hk. rewrite Hk by done. apply Henum. }
    split; intros [Hp Hs]; (split; [done|]); (eapply StronglySorted_mono; [|exact Hs]); intros x y Hx Hy;
      rewrite Hp in Hx, Hy; by rewrite !Hkey by done. }
  case_decide; [|case_decide; [|case_decide]].
  - rewrite (sorts_keyed_by key_le _ (z_key enabled_rank asc)); [done|].
    apply id_keyed; [done|intros x y; rewrite sortByEnabled_z; apply z_less_le|by intros x y [= _ ?]].
  - rewrite (sorts_keyed_by (mixed_le asc) _ (λ x, (time_of dateString x, suID x))); [done|].
    apply id_keyed; [done|apply time_less_le|by intros x y [= _ ?]].
  - rewrite (sorts_keyed_by key_le _ (z_key severity_place asc)); [done|].
    apply id_keyed; [done|intros x y; rewrite sortBySeverity_z; apply z_less_le|by intros x y [= _ ?]].
  - rewrite (sorts_keyed_by (dir_le key_le asc) _ (λ x, ([], suID x))); [done|].
    apply id_keyed; [done|apply sortByID_le|by intros x y [= ?]].
Qed.
End Order.

(** ** The whole request *)

(** listed fields are enough for a summary *)
Lemma summary_projected status i :
  to_PolicySummary status (project_item list_projection i) = to_PolicySummary status i.
Proof. reflexivity. Qed.

Lemma project_item_id i : ID (tiCommon (project_item list_projection i)) = ID (tiCommon i).
Proof. reflexivity. Qed.

(** the kind of an item is not among the fields a list reads *)
Lemma project_item_type i : Type_ (project_item list_projection i) = "".
Proof. reflexivity. Qed.

Lemma optional_positive_int pre msg s n : optional s (positive_int pre msg) = Ok n → 1 ≤ default 1 n.
Proof.
  unfold optional, positive_int. case_decide; [by intros [= <-]|]. run.
  destruct (or_prefix pre (atoi s)); run; [|done]. case_decide; run; [done|].
  intros [= <-]. cbn. lia.
Qed.

Lemma parseSortingPaging_bounds query by_ asc size page :
  parseSortingPaging query = Ok (by_, asc, size, page) → 1 ≤ size ∧ 1 ≤ page.
Proof.
  unfold parseSortingPaging. cbv zeta. match goal with |- (?r ≫= _) = _ → _ => destruct r; run; [|done] end.
  destruct (optional (param query "pageSize") _) as [s|] eqn:Es; run; [|done].
  destruct (optional (param query "page") _) as [p|] eqn:Ep; run; [|done].
  intros [= _ _ <- <-]. apply optional_positive_int in Es, Ep. split; [|done]. by destruct s.
Qed.

Lemma parseList_bounds vs query codeType params :
  parseList vs query codeType = Ok params → 1 ≤ pPageSize params ∧ 1 ≤ pPage params.
Proof.
  unfold parseList. cbv zeta.
  do 7 (match goal with |- (?r ≫= _) = _ → _ => destruct r; run; [|done] end).
  destruct (parseSortingPaging query) as [[[[by_ asc] size] page]|] eqn:E; run; [|done].
  intros [= <-]. by eapply parseSortingPaging_bounds.
Qed.

(** the reference answer *)
Definition paging_ref {A} (L : list A) (size page : Z) : Paging :=
  let n := Z.of_nat (length L) in
  {| pgThisPage := if decide (n = 0) then 0 else page; pgTotalItems := n; pgTotalPages := total_pages n size |}.

Lemma pagePolicies_ref L size page :
  L ≠ [] → 1 ≤ page → 1 ≤ size → page * size < two63 →
  pagePolicies L size page = Ret (paging_ref L size page, page_items L size page).
Proof.
  intros HL Hp Hs Hb. unfold pagePolicies. rewrite decide_False by lia. rewrite total_pages_eq by lia.
  rewrite slice_page by done. run. unfold paging_ref. by rewrite decide_False by (destruct L; [done|cbn; lia]).
Qed.

Section ListSpec.
Context {D Raw : Type} (items : D → list tableItem).
Context (ScanPages : D → ScanInput → list Raw * option error) (UnmarshalPage : Raw → result (list tableItem)).
Context {table : PolicyTable items ScanPages UnmarshalPage}.
Context (now : nat → Time) (DescribeOrg : nat → result (list (option string * string))).
Context (dateString : Time → string) (MarshalList : listBody → result string).
Context (validateSeverity : string → option error) (Build : Condition → list string → option error).
Context (order : gset string → list string) (Horder : ∀ m, order m ≡ₚ elements m).

Notation handleList' :=
  (handleList now DescribeOrg dateString MarshalList validateSeverity Build ScanPages UnmarshalPage order).

Definition policy_scan_of (params : listParams) (codeType : string) : ScanInput :=
  {| siFilter := policy_filter params codeType (order (pResourceTypes params)); siProjection := list_projection |}.

(** the items a list reads *)
Lemma policies_found d params codeType pages :
  ScanPages d (policy_scan_of params codeType) = (pages, None) →
  ∃ found, Forall2 (λ page l, UnmarshalPage page = Ok l) pages found ∧
    concat found ≡ₚ project_item list_projection <$> filter (λ i, wanted_policy params codeType i = true) (items d).
Proof using table Horder.
  intros Hscan. destruct (policy_scan d _ _ Hscan) as (found&Hf&Hp). exists found. split; [done|].
  rewrite Hp. cbn [siProjection siFilter policy_scan_of].
  erewrite list_filter_iff; [done|]. intros i. by rewrite holds_policy_filter.
Qed.

Section Stable.
(** during the request the compliance API gives one answer, [rs] *)
Context (answer : list (option string * string)) (rs : gmap string complianceStatus).
Context (Hanswer : ∀ n, DescribeOrg n = Ok answer) (Hrs : cache_resources 0 answer ∅ = Ret rs).

Definition policy_status (i : tableItem) : string := status_said answer (ID (tiCommon i)).

Definition policy_shown (params : listParams) (i : tableItem) : bool :=
  bool_decide (pComplianceStatus params = "") || bool_decide (policy_status i = pComplianceStatus params).

Definition listed_summary (i : tableItem) : PolicySummary := to_PolicySummary (policy_status i) i.

(** the summaries of the answer, before they are sorted *)
Definition policy_listing (d : D) (params : listParams) (codeType : string) : list PolicySummary :=
  listed_summary <$> filter (λ i, wanted_policy params codeType i && policy_shown params i = true) (items d).

Definition policy_appended (params : listParams) (i : tableItem) : list PolicySummary :=
  if policy_shown params i then [listed_summary i] else [].

Definition policy_inv (st : apiState) (acc : list PolicySummary) : Prop :=
  stable rs st ∧ (acc ≠ [] → is_Some (complianceCache st)).

Lemma filter_item_step params st acc item : Type_ item = "" → policy_inv st acc →
  ∃ st', filter_item now DescribeOrg params (st, acc) item = Ret (st', acc ++ policy_appended params item, None) ∧
    policy_inv st' (acc ++ policy_appended params item).
Proof using Hanswer Hrs.
  intros Hty [Hst Hc]. unfold filter_item. rewrite decide_False by by rewrite Hty.
  destruct (getComplianceStatus_stable now DescribeOrg answer rs Hanswer Hrs st (ID (tiCommon item)) Hst)
    as (st'&->&Hst'&Hc'). run.
  exists st'. split; [|by split]. unfold policy_appended, policy_shown, listed_summary, policy_status.
  rewrite (status_in_said _ _ _ Hrs). cbn [csStatus].
  destruct (decide (pComplianceStatus params = "")) as [->|Hne]; [by rewrite decide_False by (by intros [[] _])|].
  rewrite (bool_decide_false (pComplianceStatus params = "")) by done. cbn [orb].
  destruct (decide (status_said answer (ID (tiCommon item)) = pComplianceStatus params)) as [->|Hs].
  - rewrite bool_decide_true by done. by rewrite decide_False by (by intros [_ []]).
  - rewrite bool_decide_false by done. rewrite decide_True by done. by rewrite app_nil_r.
Qed.

Lemma appended_policies params codeType l :
  (project_item list_projection <$> filter (λ i, wanted_policy params codeType i = true) l) ≫= policy_appended params =
  listed_summary <$> filter (λ i, wanted_policy params codeType i && policy_shown params i = true) l.
Proof.
  induction l as [|i l IH]; [done|]. rewrite !filter_cons.
  destruct (wanted_policy params codeType i); cbn [andb];
    [rewrite (decide_True (P := true = true)) by done|by rewrite !decide_False by done].
  rewrite fmap_cons, bind_cons, IH.
  change (policy_appended params (project_item list_projection i)) with (policy_appended params i).
  unfold policy_appended. destruct (policy_shown params i); [by rewrite decide_True|by rewrite decide_False].
Qed.

Lemma policy_listing_ids d params codeType : NoDup (suID <$> policy_listing d params codeType).
Proof using table.
  unfold policy_listing. rewrite <-list_fmap_compose.
  eapply sublist_NoDup; [apply (policy_keys d)|]. by apply fmap_sublist, sublist_filter.
Qed.

Lemma policy_listing_status d params codeType : pstatus_known rs (policy_listing d params codeType).
Proof using Hrs.
  unfold pstatus_known, policy_listing. apply Forall_fmap, Forall_forall. intros i _. cbn.
  by rewrite (status_in_said _ _ _ Hrs).
Qed.

Lemma listFiltered_listing d params codeType st pages :
  stable rs st → ScanPages d (policy_scan_of params codeType) = (pages, None) →
  ∃ st' l, listFiltered now DescribeOrg ScanPages UnmarshalPage d (policy_scan_of params codeType) params st =
      Ret (st', l, None) ∧ l ≡ₚ policy_listing d params codeType ∧ policy_inv st' l.
Proof using table Horder Hanswer Hrs.
  intros Hst Hscan. unfold listFiltered, AnalysisApi.scanPages. rewrite Hscan.
  destruct (policies_found d params codeType pages Hscan) as (found&Hf&Hp).
  destruct (scan_loop_appends UnmarshalPage (filter_item now DescribeOrg params) (policy_appended params)
    policy_inv (λ i, Type_ i = "") (filter_item_step params) st [] pages found Hf) as (st'&->&HI).
  { rewrite Hp. by apply Forall_fmap, Forall_forall. }
  { by split. }
  eexists _, _. split; [done|]. split; [|done]. cbn [app]. by rewrite Hp, appended_policies.
Qed.

(** C13: a request for a list of policies or rules is answered with the
    requested page of what it asks for.  When the parameters are valid, the
    sorting is not by type, the scan succeeds and the compliance API gives one
    answer, handleList does not panic and returns status 200: the items are
    exactly the stored ones of that kind that satisfy every filter (name, tags,
    types, severity, remediation, enabled and the compliance status), sorted as
    asked, ties by identifier; only one list [L] is sorted so, and the answer
    does not depend on the order in which the table is scanned or the requested
    types are iterated; totals count all of them.  The number of the last item
    of the page fits 64 bits. *)
Theorem list_policies_correct d query codeType params pages st :
  parseList validateSeverity query codeType = Ok params →
  Build (policy_filter params codeType (order (pResourceTypes params))) list_projection = None →
  ScanPages d (policy_scan_of params codeType) = (pages, None) →
  (∀ body, ∃ s, MarshalList body = Ok s) →
  by_order (sortBy params) → pPage params * pPageSize params < two63 →
  Forall (λ p, p.2 ∈ [StatusERROR; StatusFAIL; StatusPASS]) answer → stable rs st →
  let sorted := policies_sorted_as dateString answer (sortBy params) (sortAscending params)
                  (policy_listing d params codeType) in
  ∃ st' L, sorted L ∧ (∀ L', sorted L' → L' = L) ∧
    handleList' d query codeType st =
      Ret (st', {| lrStatusCode := 200;
                   lrBody := list_body codeType (paging_ref L (pPageSize params) (pPage params))
                               (page_items L (pPageSize params) (pPage params)) |}) ∧
    stable rs st'.
Proof using table Horder Hanswer Hrs.
  intros Hq Hb Hscan Hm Hord Hpage Henum Hst sorted. destruct (parseList_bounds _ _ _ _ Hq) as [Hp1 Hp2].
  unfold handleList, buildListScan. rewrite Hq, Hb.
  destruct (listFiltered_listing d params codeType st pages Hst Hscan) as (st'&l&Hl&Hperm&Hst'&Hc).
  unfold policy_scan_of in Hl. rewrite Hl. run.
  assert (∀ b, list_respond MarshalList b 200 = {| lrStatusCode := 200; lrBody := b |}) as Hok
    by (intros b; unfold list_respond; by destruct (Hm b) as [? ->]).
  assert (cache_ok rs) as Hcok by (eapply cache_resources_ok; [exact Hrs|apply cache_ok_empty|done|done]).
  destruct (sortPolicies_sorts dateString rs st' l (sortBy params) (sortAscending params)) as (l'&Hl'&Hs); [done| |].
  { intros _. split; [unfold pstatus_known; rewrite Hperm; apply policy_listing_status|].
    intros Hne. destruct (Hc Hne) as [e He]. exists e. split; [done|]. by apply Hst'. }
  assert (sortBy params = "complianceStatus" → cache_ok rs ∧ pstatus_known rs (policy_listing d params codeType)) as Hk.
  { intros _. split; [done|apply policy_listing_status]. }
  pose proof (policy_listing_ids d params codeType) as Hnd. assert (l' ≡ₚ l) as HLl by apply Hs.
  exists st', l'. split_and!; [| | |done].
  - apply (policies_sorts_sorted_as _ _ rs); [done..|]. destruct Hs as [Hp Hs]. split; [by rewrite Hp|done].
  - intros L' HL. apply (policies_sorts_sorted_as _ _ rs) in HL; [|done..]. by eapply (policies_sorted_unique dateString rs).
  - destruct l as [|x l].
    + apply Permutation_nil_r in HLl as ->. rewrite Hok. unfold paging_ref, page_items, total_pages.
      rewrite drop_nil, take_nil. cbn [length Z.of_nat]. by rewrite Z.div_small by lia.
    + rewrite Hl'. run. rewrite pagePolicies_ref; [|intros ->; by apply Permutation_nil_cons in HLl|done..].
      run. by rewrite Hok.
Qed.
End Stable.

(** a new process without the compliance API *)
Section Unavailable.
Context (e : error) (Herr : ∀ n, DescribeOrg n = Err e).

Lemma filter_item_fails params st acc item : Type_ item = "" → complianceCache st = None →
  filter_item now DescribeOrg params (st, acc) item = Ret (st, acc, Some e).
Proof using Herr.
  intros Hty Hc. unfold filter_item. rewrite decide_False by by rewrite Hty.
  unfold getComplianceStatus, getOrgCompliance, load_compliance. rewrite Hc, Herr. run. done.
Qed.

Lemma scan_loop_fails params st acc pages found :
  Forall2 (λ page l, UnmarshalPage page = Ok l) pages found → Forall (λ i, Type_ i = "") (concat found) →
  complianceCache st = None → concat found ≠ [] →
  scan_loop UnmarshalPage (filter_item now DescribeOrg params) (st, acc) pages None = Ret (st, acc, Some e).
Proof using Herr.
  intros Hf HQ Hc Hne. induction Hf as [|page l pages found Hp _ IH]; cbn in *; [done|].
  rewrite Hp. apply Forall_app in HQ as [Hq HQ]. destruct l as [|i l]; cbn [handle_page]; run; [by apply IH|].
  rewrite filter_item_fails by (by inversion Hq || done). run. done.
Qed.

(** Rules have no compliance status, but a list of rules needs the compliance
    API all the same: the kind of an item is not among the fields that are
    read, so no item is recognised as a rule, and a request for rules fails
    when there are any and the status of policies cannot be loaded. *)
Theorem list_rules_needs_compliance d query params pages st :
  parseList validateSeverity query typeRule = Ok params →
  Build (policy_filter params typeRule (order (pResourceTypes params))) list_projection = None →
  ScanPages d (policy_scan_of params typeRule) = (pages, None) →
  complianceCache st = None → filter (λ i, wanted_policy params typeRule i = true) (items d) ≠ [] →
  ListRules now DescribeOrg dateString MarshalList validateSeverity Build ScanPages UnmarshalPage order d query st =
    Ret (st, server_error).
Proof using table Horder Herr.
  intros Hq Hb Hscan Hc Hne. unfold ListRules, handleList, buildListScan. rewrite Hq, Hb.
  unfold listFiltered, AnalysisApi.scanPages.
  change {| siFilter := _; siProjection := _ |} with (policy_scan_of params typeRule). rewrite Hscan.
  destruct (policies_found d params typeRule pages Hscan) as (found&Hf&Hp).
  rewrite (scan_loop_fails params st [] pages found Hf); [by run| |done|].
  - rewrite Hp. by apply Forall_fmap, Forall_forall.
  - intros H0. rewrite H0 in Hp. symmetry in Hp. apply Permutation_nil_r, fmap_nil_inv in Hp. done.
Qed.
End Unavailable.
End ListSpec.

(** ** Sorting by type *)

Definition typed (id : string) (types : list string) : PolicySummary :=
  {| suAutoRemediationID := ""; suAutoRemediationParameters := ∅; suComplianceStatus := "PASS"; suDisplayName := "";
     suEnabled := true; suID := id; suLastModified := 0; suResourceTypes := types; suSeverity := "LOW";
     suSuppressions := []; suTags := [] |}.

(** The comparison by type is not an order: the first differing pair of types
    decides, and the identifier when one list of types is a prefix of the
    other.  Three policies can be in a cycle, and then the list, and what is on
    each page, depends on the order of the scan. *)
Theorem sort_by_type_unstable dateString st :
  let x := typed "1" ["a"; "c"] in let y := typed "2" ["a"] in let z := typed "3" ["a"; "b"] in
  sortByType_less true x y = true ∧ sortByType_less true y z = true ∧ sortByType_less true z x = true ∧
  sortPolicies dateString st [x; y; z] "resourceTypes" true = Ret [x; y; z] ∧
  sortPolicies dateString st [y; z; x] "resourceTypes" true = Ret [y; z; x].
Proof. by vm_compute. Qed.

(** ** Witnesses *)

Definition shelf_item (id severity : string) (types : list string) : tableItem :=
  item_of_policy {| upCommon := {| Body := "def"; Description := ""; DisplayName := id; Enabled := true; ID := id;
                                   Reference := ""; Runbook := ""; Severity := severity |};
                    upAutoRemediationID := ""; upAutoRemediationParameters := ∅; upResourceTypes := types;
                    upSuppressions := []; upTags := []; upTests := []; upUserID := "u" |}.

Definition shelf : list tableItem :=
  [shelf_item "a" "LOW" ["AWS.S3"]; shelf_item "b" "HIGH" []; shelf_item "c" "HIGH" ["AWS.S3"; "AWS.EC2"];
   shelf_item "d" "INFO" ["AWS.EC2"]].

Definition shelf_scan (_ : unit) (input : ScanInput) : list (list tableItem) * option error :=
  ([project_item (siProjection input) <$>
      filter (λ i, holds (policy_attribute i) (siFilter input) = true) shelf], None).

Lemma shelf_table : PolicyTable (λ _ : unit, shelf) shelf_scan Ok.
Proof.
  split.
  - intros []. refine (bool_decide_unpack _ _). by vm_compute.
  - intros [] input pages [= <-]. eexists [_]. split; [by repeat constructor|]. cbn. by rewrite app_nil_r.
Qed.

Definition shelf_answer : list (option string * string) := [(Some "c", "FAIL"); (Some "a", "PASS")].
Definition shelf_rs : gmap string complianceStatus :=
  <["a" := {| csSortIndex := 1; csStatus := "PASS" |}]> {["c" := {| csSortIndex := 0; csStatus := "FAIL" |}]}.
Definition shelf_query : gmap string string := <["resourceTypes" := "AWS.S3,"]> {["pageSize" := "2"]}.
Definition shelf_params (types : gset string) (size : Z) : listParams :=
  {| pComplianceStatus := ""; nameContains := ""; pEnabled := None; hasRemediation := None;
     pResourceTypes := types; pSeverity := ""; pTags := []; sortBy := "severity"; sortAscending := false;
     pPageSize := size; pPage := 1 |}.
Definition shelf_start : apiState := {| complianceCache := None; clock := 0 |}.
Definition shelf_sorted : list PolicySummary :=
  sort_slice (summary_less (λ _, "") shelf_rs "severity" false)
    (policy_listing (λ _ : unit, shelf) shelf_answer tt (shelf_params {["AWS.S3"]} 2) typePolicy).

Lemma shelf_stable : stable shelf_rs shelf_start.
Proof. intros e He. discriminate He. Qed.

Lemma list_policies_correct_witness :
  suID <$> shelf_sorted = ["b"; "c"; "a"] ∧
  ∃ st', handleList (λ _, 0) (λ _, Ok shelf_answer) (λ _, "") (λ _, Ok "") (λ _, None) (λ _ _, None) shelf_scan Ok
      elements tt shelf_query typePolicy shelf_start =
    Ret (st', {| lrStatusCode := 200;
                 lrBody := list_body typePolicy (paging_ref shelf_sorted 2 1) (page_items shelf_sorted 2 1) |}) ∧
    stable shelf_rs st'.
Proof.
  split; [vm_compute; reflexivity|].
  destruct (list_policies_correct (table := shelf_table) (λ _, shelf) shelf_scan Ok (λ _, 0) (λ _, Ok shelf_answer)
    (λ _, "") (λ _, Ok "") (λ _, None) (λ _ _, None) elements (λ m, reflexivity (elements m)) shelf_answer shelf_rs
    (λ _, eq_refl) eq_refl tt shelf_query typePolicy (shelf_params {["AWS.S3"]} 2)
    (shelf_scan tt (policy_scan_of elements (shelf_params {["AWS.S3"]} 2) typePolicy)).1 shelf_start)
    as (st'&L&HL&Huniq&Hlist&Hst).
  - vm_compute. reflexivity.
  - reflexivity.
  - reflexivity.
  - intros l. by exists "".
  - by split.
  - vm_compute. reflexivity.
  - refine (bool_decide_unpack _ _). by vm_compute.
  - apply shelf_stable.
  - assert (shelf_sorted = L) as Heq; [|rewrite Heq; exists st'; exact (conj Hlist Hst)].
    apply Huniq. refine (proj1 (policies_sorts_sorted_as (λ _, "") shelf_answer shelf_rs _ _ _ _ eq_refl _ _) _).
    + refine (bool_decide_unpack _ _). by vm_compute.
    + intros Hby. discriminate Hby.
    + apply sort_slice_sorts. intros x y. apply summary_less_asym.
Defined.
