(* ===== verification/AnalysisBulk.v ===== *)
(** * Analysis API: bulk upload

    Model of src/internal/core/analysis_api/handlers/bulk_upload.go and the
    theorems about it: a zip file of specifications and Python bodies becomes
    a set of policies and rules, which are written in parallel.  The zip, JSON
    and YAML readers are parameters.  The writes of one item are one step of
    the schedule; the items have different identifiers, so their writes touch
    different rows and objects. *)

From S2P Require Import Prelude GoStrings GoTime GoSort GoPath Base64 Compliance ComplianceHandlers Backoff Dynamodbbatch.
From S2P Require Import Sqsbatch AlertOutputs ResourcesApi ResourcesApiSpec AnalysisApi AnalysisApiSpec.

#[local] Open Scope Z_scope.

(** ** Go's filepath and base64 *)

Definition slash : ascii := "/"%char.

(** the text after the last slash *)
Definition last_element (path : string) : string := List.last (split_on slash path) "".

Fixpoint trim_slashes (s : string) : string :=
  match s with
  | EmptyString => ""
  | String c s =>
      let t := trim_slashes s in if decide (t = "" ∧ c = slash) then "" else String c t
  end.

(** filepath.Base *)
Definition Base (path : string) : string :=
  if decide (path = "") then "."
  else
    let name := last_element (trim_slashes path) in
    if decide (name = "") then "/" else name.

(** filepath.Ext *)
Definition Ext (path : string) : string :=
  match split_on "."%char (last_element path) with
  | [] | [_] => ""
  | pieces => "." +:+ List.last pieces ""
  end.

Lemma Base_nonempty path : Base path ≠ "".
Proof. unfold Base. case_decide; [done|]. by case_decide. Qed.

(** base64.StdEncoding.DecodeString: the alphabet of [b64_decode] with + and /
    for - and _ *)
Definition std_decode (s : string) : result string :=
  if contains_byte "-" s || contains_byte "_" s then Err b64_corrupt
  else b64_decode (replace_byte "/" "_" (replace_byte "+" "-" s)).

(** ** Data *)

(** analysis.Test; [J] is interface{} without nil *)
Record Test (J : Type) := {
  teExpectedResult : bool; teName : string; teResource : option J; teLog : option J;
  teResourceType : string; teLogType : string
}.
Arguments teExpectedResult {J}. Arguments teName {J}. Arguments teResource {J}. Arguments teLog {J}.
Arguments teResourceType {J}. Arguments teLogType {J}.

(** analysis.Config *)
Record Config (J : Type) := {
  cfAnalysisType : string; cfAutoRemediationID : string; cfAutoRemediationParameters : gmap string string;
  cfDescription : string; cfDisplayName : string; cfEnabled : bool; cfFilename : string; cfPolicyID : string;
  cfRuleID : string; cfResourceTypes : list string; cfLogTypes : list string; cfReference : string;
  cfRunbook : string; cfSeverity : string; cfSuppressions : list string; cfTags : list string;
  cfTests : list (Test J); cfDedupPeriodMinutes : Z
}.
Arguments cfAnalysisType {J}. Arguments cfAutoRemediationID {J}. Arguments cfAutoRemediationParameters {J}.
Arguments cfDescription {J}. Arguments cfDisplayName {J}. Arguments cfEnabled {J}. Arguments cfFilename {J}.
Arguments cfPolicyID {J}. Arguments cfRuleID {J}. Arguments cfResourceTypes {J}. Arguments cfLogTypes {J}.
Arguments cfReference {J}. Arguments cfRunbook {J}. Arguments cfSeverity {J}. Arguments cfSuppressions {J}.
Arguments cfTags {J}. Arguments cfTests {J}. Arguments cfDedupPeriodMinutes {J}.

Definition zero_config {J} : Config J :=
  {| cfAnalysisType := ""; cfAutoRemediationID := ""; cfAutoRemediationParameters := ∅; cfDescription := "";
     cfDisplayName := ""; cfEnabled := false; cfFilename := ""; cfPolicyID := ""; cfRuleID := "";
     cfResourceTypes := []; cfLogTypes := []; cfReference := ""; cfRunbook := ""; cfSeverity := "";
     cfSuppressions := []; cfTags := []; cfTests := []; cfDedupPeriodMinutes := 0 |}.

(** a file of the archive, and what reading it gives *)
Record zipFile := { zfName : string; readZipFile : result string }.

(** models.BulkUpload and models.BulkUploadResult *)
Record BulkUploadInput := { buData : string; buUserID : string }.

Record BulkUploadResult := {
  ModifiedPolicies : Z; NewPolicies : Z; TotalPolicies : Z; ModifiedRules : Z; NewRules : Z; TotalRules : Z
}.

Record writeResult := { wrItem : option tableItem; wrChange : changeType; wrErr : option error }.

(** ** From the archive to the items *)

Section Extract.
Context {J : Type} (MarshalJSON : option J → result string).
Context (UnmarshalJSON UnmarshalYAML : string → result (Config J)).
Context (NewReader : string → result (list zipFile)).
Context (now : nat → Time) (ValidatePolicy : Policy → option error).
(** the order in which the map of items is iterated *)
Context (order : gmap string tableItem → list tableItem).

Definition buildRuleTest (test : Test J) : result UnitTest :=
  log ← MarshalJSON (teLog test);
  Ok {| utExpectedResult := teExpectedResult test; utName := teName test; utResource := log;
        utResourceType := teLogType test |}.

Definition buildPolicyTest (test : Test J) : result UnitTest :=
  resource ← MarshalJSON (teResource test);
  Ok {| utExpectedResult := teExpectedResult test; utName := teName test; utResource := resource;
        utResourceType := teResourceType test |}.

Fixpoint build_tests (tests : list (Test J)) : result (list UnitTest) :=
  match tests with
  | [] => Ok []
  | test :: tests =>
      t ← match teResource test with None => buildRuleTest test | Some _ => buildPolicyTest test end;
      rest ← build_tests tests;
      Ok (t :: rest)
  end.

(** the item of a specification; its body is still the name of a file *)
Definition config_item (config : Config J) : result tableItem :=
  let type := to_upper (cfAnalysisType config) in
  let rule := bool_decide (type = typeRule) in
  tests ← build_tests (cfTests config);
  Ok {| tiCommon := {| Body := cfFilename config; Description := cfDescription config;
                       DisplayName := cfDisplayName config; Enabled := cfEnabled config;
                       ID := if rule && bool_decide (cfPolicyID config = "") then cfRuleID config
                             else cfPolicyID config;
                       Reference := cfReference config; Runbook := cfRunbook config;
                       Severity := to_upper (cfSeverity config) |};
        AutoRemediationID := cfAutoRemediationID config;
        AutoRemediationParameters := cfAutoRemediationParameters config;
        ResourceTypes := if rule && bool_decide (cfResourceTypes config = []) then cfLogTypes config
                         else cfResourceTypes config;
        Suppressions := cfSuppressions config; Tags := cfTags config; Tests := tests; tiAudit := no_audit;
        VersionID := "";
        DedupPeriodMinutes := if rule then
                                if decide (cfDedupPeriodMinutes config = 0) then defaultDedupPeriodMinutes
                                else cfDedupPeriodMinutes config
                              else 0;
        Type_ := type; LowerDisplayName := ""; LowerID := ""; LowerTags := [] |}.

Inductive fileKind := Directory | Cache | Python | Spec (unmarshal : string → result (Config J)) | Unsupported.

Definition file_kind (name : string) : fileKind :=
  if has_suffix "/" name then Directory
  else if contains "__pycache__" name then Cache
  else
    let ext := to_lower (Ext name) in
    if decide (ext = ".py") then Python
    else if decide (ext = ".json") then Spec UnmarshalJSON
    else if decide (ext = ".yml" ∨ ext = ".yaml") then Spec UnmarshalYAML
    else Unsupported.

(** the bodies by file name, and the items *)
Definition extracted : Type := gmap string string * gmap string tableItem.

Definition add_item (s : extracted) (item : tableItem) : result extracted :=
  match s.2 !! ID (tiCommon item) with
  | Some _ => Err (ErrMsg ("multiple analysis specs with ID " +:+ ID (tiCommon item)))
  | None => Ok (s.1, <[ID (tiCommon item) := item]> s.2)
  end.

Definition extract_file (s : extracted) (f : zipFile) : result extracted :=
  match file_kind (zfName f) with
  | Directory => Ok s
  | kind =>
      bytes ← or_prefix ("file extraction failed: " +:+ zfName f +:+ ": ") (readZipFile f);
      match kind with
      | Directory | Cache => Ok s
      | Python => Ok (<[Base (zfName f) := bytes]> s.1, s.2)
      | Spec unmarshal => config ← unmarshal bytes; item ← config_item config; add_item s item
      | Unsupported => item ← config_item zero_config; add_item s item
      end
  end.

Fixpoint extract_files (s : extracted) (files : list zipFile) : result extracted :=
  match files with
  | [] => Ok s
  | f :: files => s ← extract_file s f; extract_files s files
  end.

Definition with_body (i : tableItem) (body : string) : tableItem :=
  {| tiCommon := {| Body := body; Description := Description (tiCommon i); DisplayName := DisplayName (tiCommon i);
                    Enabled := Enabled (tiCommon i); ID := ID (tiCommon i); Reference := Reference (tiCommon i);
                    Runbook := Runbook (tiCommon i); Severity := Severity (tiCommon i) |};
     AutoRemediationID := AutoRemediationID i; AutoRemediationParameters := AutoRemediationParameters i;
     ResourceTypes := ResourceTypes i; Suppressions := Suppressions i; Tags := Tags i; Tests := Tests i;
     tiAudit := tiAudit i; VersionID := VersionID i; DedupPeriodMinutes := DedupPeriodMinutes i; Type_ := Type_ i;
     LowerDisplayName := LowerDisplayName i; LowerID := LowerID i; LowerTags := LowerTags i |}.

Definition mock_version : string := "mock.version.id.mock.version.id.".

(** [n] readings of the clock were made; the item is normalized on the way *)
Definition validateUploadedPolicy (n : nat) (item : tableItem) (userID : string) : nat * result tableItem :=
  let invalid msg := Err (ErrMsg ("policy ID " +:+ ID (tiCommon item) +:+ " is invalid: " +:+ msg)) in
  if decide (Type_ item ≠ typePolicy ∧ Type_ item ≠ typeRule) then
    (n, invalid ("unknown analysis type " +:+ Type_ item))
  else
    let item := normalize item in
    let t := now n in
    let policy := to_Policy StatusPASS (with_version (with_audit item
      {| CreatedAt := t; CreatedBy := userID; LastModified := t; LastModifiedBy := userID |}) mock_version) in
    (S n, match ValidatePolicy policy with Some e => invalid (errText e) | None => Ok item end).

Fixpoint finish_items (n : nat) (userID : string) (bodies : gmap string string) (items : list tableItem)
    (m : gmap string tableItem) : nat * result (gmap string tableItem) :=
  match items with
  | [] => (n, Ok m)
  | item :: items =>
      match bodies !! Body (tiCommon item) with
      | None => (n, Err (ErrMsg ("policy " +:+ ID (tiCommon item) +:+ " is missing a body")))
      | Some body =>
          match validateUploadedPolicy n (with_body item body) userID with
          | (n, Err e) => (n, Err e)
          | (n, Ok item) => finish_items n userID bodies items (<[ID (tiCommon item) := item]> m)
          end
      end
  end.

Definition extractZipFile (n : nat) (input : BulkUploadInput) : nat * result (gmap string tableItem) :=
  match content ← or_prefix "base64 decoding failed: " (std_decode (buData input));
        files ← or_prefix "zipReader failed: " (NewReader content);
        extract_files (∅, ∅) files with
  | Err e => (n, Err e)
  | Ok (bodies, items) => finish_items n (buUserID input) bodies (order items) items
  end.
End Extract.

(** ** The handler *)

Inductive bulkBody :=
| BEmpty
| BError (message : string)
| BCounts (counts : BulkUploadResult).

Record bulkResponse := { brStatusCode : Z; brBody : bulkBody }.

Definition no_counts : BulkUploadResult :=
  {| ModifiedPolicies := 0; NewPolicies := 0; TotalPolicies := 0; ModifiedRules := 0; NewRules := 0;
     TotalRules := 0 |}.

Definition one (b : bool) : Z := if b then 1 else 0.

Definition count_result (counts : BulkUploadResult) (item : tableItem) (change : changeType) : BulkUploadResult :=
  let new := one (bool_decide (change = newItem)) in
  let modified := one (bool_decide (change = updatedItem)) in
  if decide (Type_ item = typePolicy) then
    {| ModifiedPolicies := ModifiedPolicies counts + modified; NewPolicies := NewPolicies counts + new;
       TotalPolicies := TotalPolicies counts + 1; ModifiedRules := ModifiedRules counts;
       NewRules := NewRules counts; TotalRules := TotalRules counts |}
  else
    {| ModifiedPolicies := ModifiedPolicies counts; NewPolicies := NewPolicies counts;
       TotalPolicies := TotalPolicies counts; ModifiedRules := ModifiedRules counts + modified;
       NewRules := NewRules counts + new; TotalRules := TotalRules counts + 1 |}.

Section Bulk.
Context {D B C Q : Type}.
Notation W := (world D B C Q).
Context (MarshalToString : bulkBody → result string).

Definition bulk_respond (body : bulkBody) (statusCode : Z) : bulkResponse :=
  match MarshalToString body with
  | Err _ => {| brStatusCode := 500; brBody := BEmpty |}
  | Ok _ => {| brStatusCode := statusCode; brBody := body |}
  end.

(** one result is received; the response is set when there was an error *)
Definition collect_result (s : BulkUploadResult * option bulkResponse) (r : writeResult)
    : outcome (BulkUploadResult * option bulkResponse) :=
  let '(counts, response) := s in
  match wrErr r with
  | Some e =>
      if decide (e = errWrongType) then
        item ← deref (wrItem r);
        Ret (counts, Some (bulk_respond (BError ("ID " +:+ ID (tiCommon item) +:+
               " does not have expected type " +:+ Type_ item)) 409))
      else match response with
           | None => Ret (counts, Some {| brStatusCode := 500; brBody := BEmpty |})
           | Some _ => Ret s
           end
  | None => item ← deref (wrItem r); Ret (count_result counts item (wrChange r), response)
  end.

Fixpoint collect_results (s : BulkUploadResult * option bulkResponse) (rs : list writeResult)
    : outcome (BulkUploadResult * option bulkResponse) :=
  match rs with
  | [] => Ret s
  | r :: rs => s ← collect_result s r; collect_results s rs
  end.

Context (write : W → tableItem → string → option bool → outcome (W * tableItem * changeType * option error)).
(** what a write that panics has done before *)
Context (interrupted : W → tableItem → W).

(** a goroutine: a panic is recovered *)
Definition write_one (userID : string) (w : W) (item : tableItem) : W * writeResult :=
  match write w item userID None with
  | Ret (w, item, change, err) => (w, {| wrItem := Some item; wrChange := change; wrErr := err |})
  | Panic _ => (interrupted w item,
                {| wrItem := None; wrChange := noChange; wrErr := Some (ErrMsg "panicked goroutine") |})
  end.

Fixpoint write_all (userID : string) (w : W) (items : list tableItem) : W * list writeResult :=
  match items with
  | [] => (w, [])
  | item :: items =>
      let '(w, r) := write_one userID w item in
      let '(w, rs) := write_all userID w items in
      (w, r :: rs)
  end.

Context {J : Type} (MarshalJSON : option J → result string).
Context (UnmarshalJSON UnmarshalYAML : string → result (Config J)) (NewReader : string → result (list zipFile)).
Context (now : nat → Time) (ValidatePolicy : Policy → option error).
Context (order schedule : gmap string tableItem → list tableItem).
(** the order in which the results are received *)
Context (arrival : list writeResult → list writeResult).

Definition parseBulkUpload (decoded : result BulkUploadInput) (validate : BulkUploadInput → option error)
    : result BulkUploadInput :=
  input ← decoded; match validate input with Some e => Err e | None => Ok input end.

Definition at_clock (w : W) (n : nat) : W :=
  set_api w {| complianceCache := complianceCache (wApi w); clock := n |}.

Definition BulkUpload (w : W) (input : result BulkUploadInput) : outcome (W * bulkResponse) :=
  match input with
  | Err e => Ret (w, bulk_respond (BError (errText e)) 400)
  | Ok input =>
      match extractZipFile MarshalJSON UnmarshalJSON UnmarshalYAML NewReader now ValidatePolicy order
              (clock (wApi w)) input with
      | (n, Err e) => Ret (at_clock w n, bulk_respond (BError (errText e)) 400)
      | (n, Ok policies) =>
          let '(w, results) := write_all (buUserID input) (at_clock w n) (schedule policies) in
          '(counts, response) ← collect_results (no_counts, None) (arrival results);
          Ret (w, match response with Some r => r | None => bulk_respond (BCounts counts) 200 end)
      end
  end.
End Bulk.
