(* ===== verification/AnalysisBulkSpec.v ===== *)
(** * Analysis API: what a bulk upload promises

    The items of an archive against a reference reading of it, and the table,
    the versions and the counts after the upload. *)

From S2P Require Import Prelude GoStrings GoTime GoSort GoPath Base64 Compliance ComplianceHandlers Backoff Dynamodbbatch.
From S2P Require Import Sqsbatch AlertOutputs ResourcesApi ResourcesApiSpec AnalysisApi AnalysisApiSpec AnalysisBulk.

#[local] Open Scope Z_scope.

Definition ok_value {A} (r : result A) : option A := match r with Ok a => Some a | Err _ => None end.
Definition item_id (i : tableItem) : string := ID (tiCommon i).
Definition by_item_id (l : list tableItem) : gmap string tableItem := list_to_map ((λ i, (item_id i, i)) <$> l).

(** ** Extraction *)

Section ExtractSpec.
Context {J : Type} (MarshalJSON : option J → result string).
Context (UnmarshalJSON UnmarshalYAML : string → result (Config J)) (NewReader : string → result (list zipFile)).
Context (now : nat → Time) (ValidatePolicy : Policy → option error).
Context (order : gmap string tableItem → list tableItem).

Notation kind f := (file_kind UnmarshalJSON UnmarshalYAML (zfName f)).
Notation item_of_config := (config_item MarshalJSON).

Definition readable (f : zipFile) : Prop :=
  match kind f with Directory => True | _ => is_Some (ok_value (readZipFile f)) end.

#[export] Instance readable_dec f : Decision (readable f).
Proof. unfold readable. destruct (kind f); apply _. Defined.

(** the Python files by name; the last one of a name counts *)
Definition add_body (m : gmap string string) (f : zipFile) : gmap string string :=
  match kind f, readZipFile f with Python, Ok body => <[Base (zfName f) := body]> m | _, _ => m end.
Definition bodies_of (files : list zipFile) : gmap string string := foldl add_body ∅ files.

(** what a file specifies, if it is meant to *)
Definition spec_of (f : zipFile) : option (option tableItem) :=
  match kind f with
  | Spec unmarshal => Some (ok_value (bytes ← readZipFile f; config ← unmarshal bytes; item_of_config config))
  | Unsupported => Some None
  | _ => None
  end.

(** the policy that is validated, at time [t] *)
Definition uploaded (t : Time) (userID : string) (item : tableItem) : Policy :=
  to_Policy StatusPASS (with_version (with_audit item
    {| CreatedAt := t; CreatedBy := userID; LastModified := t; LastModifiedBy := userID |}) mock_version).

Definition finished (userID : string) (bodies : gmap string string) (i : tableItem) : option tableItem :=
  body ← bodies !! Body (tiCommon i);
  let i := normalize (with_body i body) in
  if decide ((Type_ i = typePolicy ∨ Type_ i = typeRule) ∧ ValidatePolicy (uploaded 0 userID i) = None)
  then Some i else None.

(** reference: the items of an archive, or nothing when it is rejected *)
Definition archive_items (userID : string) (files : list zipFile) : option (list tableItem) :=
  l ← (if decide (Forall readable files) then mapM id (omap spec_of files) else None);
  if decide (NoDup (item_id <$> l)) then mapM (finished userID (bodies_of files)) l else None.

(** as the loop reads it: a file of another kind gives an item without any
    content *)
Definition raw_of (f : zipFile) : option (option tableItem) :=
  match kind f with
  | Unsupported => Some (ok_value (item_of_config zero_config))
  | _ => spec_of f
  end.

Definition insert_item (m : gmap string tableItem) (i : tableItem) : gmap string tableItem := <[item_id i := i]> m.

Lemma extract_file_spec s f s' :
  extract_file MarshalJSON UnmarshalJSON UnmarshalYAML s f = Ok s' ↔
  readable f ∧ match raw_of f with
    | None => s' = (add_body s.1 f, s.2)
    | Some None => False
    | Some (Some i) => s.2 !! item_id i = None ∧ s' = (add_body s.1 f, insert_item s.2 i)
    end.
Proof.
  unfold extract_file, readable, raw_of, spec_of, add_body, item_id, insert_item, or_prefix. destruct s as [b m].
  assert (∀ i, add_item (b, m) i = Ok s' ↔ m !! ID (tiCommon i) = None ∧ s' = (b, <[ID (tiCommon i) := i]> m)) as Hadd.
  { intros i. unfold add_item. cbn [fst snd]. destruct (m !! ID (tiCommon i)); naive_solver. }
  destruct (kind f) as [| | |u|]; cbn [fst snd].
  - naive_solver.
  - destruct (readZipFile f); cbn [ok_value]; run; [naive_solver|]. split; [done|]. by intros [[? [=]] _].
  - destruct (readZipFile f); cbn [ok_value]; run; [naive_solver|]. split; [done|]. by intros [[? [=]] _].
  - destruct (readZipFile f) as [bytes|]; cbn [ok_value]; run; [|split; [done|]; by intros [[? [=]] _]].
    destruct (u bytes) as [config|]; run; [|naive_solver].
    destruct (item_of_config config) as [i|]; run; [|naive_solver]. cbn [ok_value]. rewrite Hadd. naive_solver.
  - destruct (readZipFile f) as [bytes|]; cbn [ok_value]; run; [|split; [done|]; by intros [[? [=]] _]].
    destruct (item_of_config zero_config) as [i|]; run; [|naive_solver]. cbn [ok_value]. rewrite Hadd. naive_solver.
Qed.

Lemma extract_files_spec files s s' :
  extract_files MarshalJSON UnmarshalJSON UnmarshalYAML s files = Ok s' ↔
  Forall readable files ∧ ∃ l, mapM id (omap raw_of files) = Some l ∧ NoDup (item_id <$> l) ∧
    (∀ i, i ∈ l → s.2 !! item_id i = None) ∧ s' = (foldl add_body s.1 files, foldl insert_item s.2 l).
Proof.
  revert s. induction files as [|f files IH]; intros s; cbn [extract_files].
  { destruct s. split.
    - intros [= <-]. split; [constructor|]. exists []. split; [done|]. split; [constructor|].
      split; [by intros ? ?%not_elem_of_nil|done].
    - intros (_&l&[= <-]&_&_&->). done. }
  destruct (extract_file _ _ _ s f) as [s1|e] eqn:E; run.
  - apply extract_file_spec in E as [Hr Hs1]. rewrite IH, Forall_cons. cbn [omap list_omap foldl].
    destruct (raw_of f) as [[i|]|]; [| |subst s1; cbn [fst snd]; naive_solver].
    + destruct Hs1 as [Hi ->]. cbn [fst snd]. split.
      * intros (Hf&l&Hl&Hnd&Hfree&->). split; [done|]. exists (i :: l). cbn. rewrite Hl. split; [done|].
        assert (∀ j, j ∈ l → item_id j ≠ item_id i) as Hne.
        { intros j Hj Hji. specialize (Hfree j Hj). unfold insert_item in Hfree. rewrite <-Hji in Hfree.
          by rewrite lookup_insert_eq in Hfree. }
        split; [constructor; [|done]; intros (j&Hj&?)%list_elem_of_fmap; by apply (Hne j)|].
        split; [|done]. intros j [->|Hj]%elem_of_cons; [done|]. specialize (Hfree j Hj).
        unfold insert_item in Hfree. by rewrite lookup_insert_ne in Hfree by (symmetry; auto).
      * intros (Hf&l0&Hl&Hnd&Hfree&->). split; [tauto|]. cbn in Hl.
        destruct (mapM id (omap raw_of files)) as [l|] eqn:El; cbn in Hl; [|done]. injection Hl as <-.
        apply NoDup_cons in Hnd as [Hni Hnd]. exists l. split; [done|]. split; [done|]. split; [|done].
        intros j Hj. unfold insert_item. rewrite lookup_insert_ne; [apply Hfree; by right|].
        intros Hji. apply Hni. rewrite Hji. by apply list_elem_of_fmap_2.
    + naive_solver.
  - split; [done|]. intros (Hf&l0&Hl&Hnd&Hfree&->). exfalso. apply Forall_cons in Hf as [Hr Hf].
    cbn in Hl. destruct (raw_of f) as [[i|]|] eqn:Er; cbn in Hl; [|done|].
    + destruct (mapM id (omap raw_of files)) as [l|]; cbn in Hl; [|done]. injection Hl as <-.
      assert (extract_file MarshalJSON UnmarshalJSON UnmarshalYAML s f = Ok (add_body s.1 f, insert_item s.2 i)) as H;
        [|congruence]. apply extract_file_spec. rewrite Er. split; [done|]. split; [apply Hfree; by left|done].
    + assert (extract_file MarshalJSON UnmarshalJSON UnmarshalYAML s f = Ok (add_body s.1 f, s.2)) as H;
        [|congruence]. apply extract_file_spec. by rewrite Er.
Qed.

(** an unsupported file, and only that, makes the difference *)
Lemma raw_of_spec f :
  raw_of f = spec_of f ∨ (spec_of f = Some None ∧ ∃ i, raw_of f = Some (Some i) ∧ Body (tiCommon i) = "").
Proof. unfold raw_of, spec_of. destruct (kind f); try (by left). right. split; [done|]. by eexists. Qed.

Lemma raw_specs files :
  match mapM id (omap raw_of files) with
  | Some l => mapM id (omap spec_of files) = Some l ∨
      (mapM id (omap spec_of files) = None ∧ ∃ i, i ∈ l ∧ Body (tiCommon i) = "")
  | None => mapM id (omap spec_of files) = None
  end.
Proof.
  induction files as [|f files IH]; [by left|]. cbn [omap list_omap].
  destruct (raw_of_spec f) as [->|(->&i&->&Hb)].
  - destruct (spec_of f) as [[i|]|]; cbn; [|done|done].
    destruct (mapM id (omap raw_of files)) as [l|]; cbn; [|by rewrite IH].
    destruct IH as [->|(->&j&Hj&?)]; cbn; [by left|]. right. split; [done|]. exists j. set_solver.
  - cbn. destruct (mapM id (omap raw_of files)) as [l|]; cbn; [|done].
    right. split; [done|]. exists i. set_solver.
Qed.

Lemma add_body_empty m f : m !! "" = None → add_body m f !! "" = None.
Proof.
  intros H. unfold add_body. destruct (kind f); try done. destruct (readZipFile f); [|done].
  rewrite lookup_insert_ne; [done|]. apply Base_nonempty.
Qed.

Lemma bodies_of_empty files : bodies_of files !! "" = None.
Proof.
  unfold bodies_of. assert (∀ m : gmap string string, m !! "" = None → foldl add_body m files !! "" = None) as H;
    [|by apply H]. induction files as [|f files IH]; intros m Hm; [done|]. cbn. by apply IH, add_body_empty.
Qed.

(** *** The second loop *)

(** validation does not look at the time *)
Context (Htime : ∀ t userID i, ValidatePolicy (uploaded t userID i) = ValidatePolicy (uploaded 0 userID i)).

Lemma finish_items_spec userID bodies items n m :
  match mapM (finished userID bodies) items with
  | Some l => ∃ n', finish_items now ValidatePolicy n userID bodies items m = (n', Ok (foldl insert_item m l))
  | None => ∃ n' e, finish_items now ValidatePolicy n userID bodies items m = (n', Err e)
  end.
Proof using Htime.
  clear NewReader order UnmarshalJSON UnmarshalYAML MarshalJSON. revert n m. induction items as [|i items IH]; intros n m; [by eexists|].
  assert (match finished userID bodies i with
          | Some j => ∃ n1 body, bodies !! Body (tiCommon i) = Some body ∧
              validateUploadedPolicy now ValidatePolicy n (with_body i body) userID = (n1, Ok j)
          | None => bodies !! Body (tiCommon i) = None ∨ ∃ n1 e body, bodies !! Body (tiCommon i) = Some body ∧
              validateUploadedPolicy now ValidatePolicy n (with_body i body) userID = (n1, Err e)
          end) as Hi.
  { unfold finished. destruct (bodies !! Body (tiCommon i)) as [body|]; simpl; [|by left].
    set (j := normalize (with_body i body)).
    assert (validateUploadedPolicy now ValidatePolicy n (with_body i body) userID =
      if decide (Type_ j = typePolicy ∨ Type_ j = typeRule) then
        (S n, match ValidatePolicy (uploaded 0 userID j) with
              | Some e => Err (ErrMsg ("policy ID " +:+ ID (tiCommon j) +:+ " is invalid: " +:+ errText e))
              | None => Ok j end)
      else (n, Err (ErrMsg ("policy ID " +:+ ID (tiCommon j) +:+ " is invalid: unknown analysis type " +:+ Type_ j))))
      as Hv.
    { unfold validateUploadedPolicy. change (Type_ (with_body i body)) with (Type_ j).
      destruct (decide (Type_ j = typePolicy ∨ Type_ j = typeRule)); [|by rewrite decide_True by tauto].
      rewrite decide_False by tauto. fold j. fold (uploaded (now n) userID j). by rewrite Htime. }
    destruct (decide (Type_ j = typePolicy ∨ Type_ j = typeRule)) as [Ht|Ht];
      [|rewrite decide_False by tauto; right; by eexists _, _, _].
    destruct (ValidatePolicy (uploaded 0 userID j)) as [e|] eqn:Ev.
    - rewrite decide_False by (by intros [_ ?]). right. by eexists _, _, _.
    - rewrite decide_True by done. by eexists _, _. }
  cbn [finish_items]. change (mapM ?f (i :: items)) with (y ← f i; k ← mapM f items; Some (y :: k)).
  destruct (finished userID bodies i) as [j|]; simpl.
  - destruct Hi as (n1&body&->&->). specialize (IH n1 (insert_item m j)).
    destruct (mapM (finished userID bodies) items); done.
  - destruct Hi as [->|(n1&e&body&->&->)]; by eexists _, _.
Qed.

Lemma finished_id userID bodies i j : finished userID bodies i = Some j → item_id j = item_id i.
Proof.
  unfold finished. destruct (bodies !! _); cbn; [|done]. case_decide; [|done]. by intros [= <-].
Qed.

Lemma insert_items_lookup l m id :
  NoDup (item_id <$> l) →
  foldl insert_item m l !! id = match by_item_id l !! id with Some i => Some i | None => m !! id end.
Proof.
  unfold by_item_id. revert m. induction l as [|i l IH]; intros m Hnd; [done|]. cbn [foldl].
  cbn in Hnd. apply NoDup_cons in Hnd as [Hni Hnd]. rewrite IH by done. rewrite fmap_cons. cbn [list_to_map foldr].
  unfold insert_item. destruct (decide (item_id i = id)) as [<-|Hne].
  - rewrite !lookup_insert_eq. destruct (list_to_map _ !! item_id i) as [j|] eqn:E; [|done]. exfalso. apply Hni.
    apply elem_of_list_to_map_2, list_elem_of_fmap in E as (k&[= Hk ->]&Hj). rewrite Hk. by apply list_elem_of_fmap_2.
  - by rewrite !lookup_insert_ne by done.
Qed.

Lemma insert_items_empty l : NoDup (item_id <$> l) → foldl insert_item ∅ l = by_item_id l.
Proof.
  intros Hnd. apply map_eq. intros id. rewrite insert_items_lookup by done. by destruct (by_item_id l !! id).
Qed.

Lemma mapM_perm {A B} (f : A → option B) l l' k :
  l ≡ₚ l' → mapM f l = Some k → ∃ k', mapM f l' = Some k' ∧ k ≡ₚ k'.
Proof.
  intros Hp Hk%mapM_Some. destruct (Permutation.Permutation_Forall2 Hp Hk) as (k'&?&Hk').
  exists k'. split; [by apply mapM_Some|done].
Qed.

Lemma finished_ids userID bodies l k : mapM (finished userID bodies) l = Some k → item_id <$> k = item_id <$> l.
Proof.
  intros Hk%mapM_Some. induction Hk as [|i j l k Hij _ IH]; [done|]. cbn. by rewrite (finished_id _ _ _ _ Hij), IH.
Qed.

Lemma by_item_id_values l : NoDup (item_id <$> l) → (map_to_list (by_item_id l)).*2 ≡ₚ l.
Proof.
  intros Hnd. unfold by_item_id. rewrite map_to_list_to_map.
  - rewrite <-list_fmap_compose. cbn. by rewrite list_fmap_id.
  - by rewrite <-list_fmap_compose.
Qed.

Lemma by_item_id_perm l l' : NoDup (item_id <$> l) → l ≡ₚ l' → by_item_id l = by_item_id l'.
Proof.
  intros Hnd Hp. unfold by_item_id. apply list_to_map_proper; [by rewrite <-list_fmap_compose|by rewrite Hp].
Qed.

(** replacing every item *)
Lemma insert_items_replace l k :
  NoDup (item_id <$> k) → item_id <$> k ≡ₚ item_id <$> l → foldl insert_item (by_item_id l) k = by_item_id k.
Proof.
  intros Hnd Hp. apply map_eq. intros id. rewrite insert_items_lookup by done.
  destruct (by_item_id k !! id) as [i|] eqn:E; [done|]. unfold by_item_id in E |- *.
  apply not_elem_of_list_to_map. apply not_elem_of_list_to_map in E. rewrite <-list_fmap_compose in *.
  by rewrite <-Hp.
Qed.

Context (Horder : ∀ m, order m ≡ₚ (map_to_list m).*2).

Lemma extractZipFile_spec n input content files :
  std_decode (buData input) = Ok content → NewReader content = Ok files →
  match archive_items (buUserID input) files with
  | Some l => ∃ n', extractZipFile MarshalJSON UnmarshalJSON UnmarshalYAML NewReader now ValidatePolicy order n input =
      (n', Ok (by_item_id l))
  | None => ∃ n' e, extractZipFile MarshalJSON UnmarshalJSON UnmarshalYAML NewReader now ValidatePolicy order n input =
      (n', Err e)
  end.
Proof using Htime Horder.
  intros Hd Hz. unfold extractZipFile. rewrite Hd. cbn [or_prefix]. run. rewrite Hz. cbn [or_prefix]. run.
  unfold archive_items. pose proof (raw_specs files) as Hraw.
  destruct (extract_files _ _ _ _ files) as [[b m]|e] eqn:E.
  2:{ assert (¬ ∃ l, Forall readable files ∧ mapM id (omap spec_of files) = Some l ∧ NoDup (item_id <$> l)) as Hno.
      { intros (l&Hr&Hl&Hnd). rewrite Hl in Hraw.
        destruct (mapM id (omap raw_of files)) as [l'|] eqn:El; [|done].
        destruct Hraw as [[= <-]|[? _]]; [|done].
        assert (∃ s', extract_files MarshalJSON UnmarshalJSON UnmarshalYAML (∅, ∅) files = Ok s') as [s' Hs'];
          [|congruence].
        eexists. apply extract_files_spec. split; [done|]. exists l. by split_and!. }
      case_decide as Hr; simpl; [|by eexists _, _].
      destruct (mapM id (omap spec_of files)) as [l|] eqn:El; simpl; [|by eexists _, _].
      rewrite decide_False by naive_solver. by eexists _, _. }
  apply extract_files_spec in E as (Hr&l&Hl&Hnd&_&[= -> ->]). cbn [fst snd]. rewrite Hl in Hraw.
  rewrite insert_items_empty by done. fold (bodies_of files). rewrite (decide_True (P := Forall _ _)) by done. simpl.
  pose proof (finish_items_spec (buUserID input) (bodies_of files) (order (by_item_id l)) n (by_item_id l)) as Hfin.
  assert (l ≡ₚ order (by_item_id l)) as Hp by by rewrite Horder, by_item_id_values.
  destruct Hraw as [->|(->&i&Hi&Hb)]; simpl.
  - rewrite (decide_True (P := NoDup _)) by done.
    destruct (mapM (finished (buUserID input) (bodies_of files)) l) as [k|] eqn:Ek.
    + destruct (mapM_perm _ _ _ _ Hp Ek) as (k'&Ek'&Hk). rewrite Ek' in Hfin. destruct Hfin as [n' ->].
      exists n'. do 2 f_equal. assert (NoDup (item_id <$> k)) as Hndk by by rewrite (finished_ids _ _ _ _ Ek).
      rewrite insert_items_replace; [symmetry; by apply by_item_id_perm|by rewrite <-Hk|].
      by rewrite <-Hk, (finished_ids _ _ _ _ Ek).
    + destruct (mapM (finished _ _) (order _)) as [k'|] eqn:Ek'; [|done].
      by destruct (mapM_perm _ _ _ _ (symmetry Hp) Ek') as (?&?&_); congruence.
  - destruct (mapM (finished _ _) (order _)) as [k'|] eqn:Ek'; [|done]. exfalso.
    apply mapM_Some, Forall2_Forall_l with (Q := λ i, is_Some (finished (buUserID input) (bodies_of files) i)) in Ek';
      [|by apply Forall_forall; eauto].
    rewrite <-Hp, Forall_forall in Ek'. destruct (Ek' i Hi) as [j Hj]. unfold finished in Hj.
    by rewrite Hb, bodies_of_empty in Hj.
Qed.

(** a bulk upload is accepted exactly when every file of the archive can
    be read, every file except Python files, directories and caches is a JSON
    or YAML specification, no two specify the same identifier, every body is in
    the archive and every policy and rule is valid; then the items are the
    specified ones with their bodies.  The order in which the map of items is
    iterated makes no difference. *)
Theorem extract_zip_correct n input content files :
  std_decode (buData input) = Ok content → NewReader content = Ok files →
  match archive_items (buUserID input) files with
  | Some l => ∃ n', extractZipFile MarshalJSON UnmarshalJSON UnmarshalYAML NewReader now ValidatePolicy order n input =
      (n', Ok (by_item_id l))
  | None => ∃ n' e, extractZipFile MarshalJSON UnmarshalJSON UnmarshalYAML NewReader now ValidatePolicy order n input =
      (n', Err e)
  end.
Proof using Htime Horder. apply extractZipFile_spec. Qed.
End ExtractSpec.

(** ** Collecting the results *)

Definition num {A} (P : A → bool) (l : list A) : Z := Z.of_nat (length (filter (λ x, P x = true) l)).

#[export] Instance num_perm {A} (P : A → bool) : Proper ((≡ₚ) ==> (=)) (num P).
Proof. intros l l' Hp. unfold num. by rewrite Hp. Qed.

Lemma num_cons {A} (P : A → bool) x l : num P (x :: l) = one (P x) + num P l.
Proof.
  unfold num, one. rewrite filter_cons. destruct (P x); [|by rewrite decide_False].
  rewrite decide_True by done. cbn [length]. lia.
Qed.

Definition is_policy (i : tableItem) : bool := bool_decide (Type_ i = typePolicy).
Definition counted (P : tableItem → bool) (change : option changeType) (r : writeResult) : bool :=
  match wrItem r with
  | Some i => P i && match change with Some c => bool_decide (wrChange r = c) | None => true end
  | None => false
  end.

Definition counts_of (rs : list writeResult) : BulkUploadResult :=
  let rule i := negb (is_policy i) in
  {| ModifiedPolicies := num (counted is_policy (Some updatedItem)) rs;
     NewPolicies := num (counted is_policy (Some newItem)) rs; TotalPolicies := num (counted is_policy None) rs;
     ModifiedRules := num (counted rule (Some updatedItem)) rs; NewRules := num (counted rule (Some newItem)) rs;
     TotalRules := num (counted rule None) rs |}.

Definition add_counts (a b : BulkUploadResult) : BulkUploadResult :=
  {| ModifiedPolicies := ModifiedPolicies a + ModifiedPolicies b; NewPolicies := NewPolicies a + NewPolicies b;
     TotalPolicies := TotalPolicies a + TotalPolicies b; ModifiedRules := ModifiedRules a + ModifiedRules b;
     NewRules := NewRules a + NewRules b; TotalRules := TotalRules a + TotalRules b |}.

Lemma counts_eq a b :
  ModifiedPolicies a = ModifiedPolicies b → NewPolicies a = NewPolicies b → TotalPolicies a = TotalPolicies b →
  ModifiedRules a = ModifiedRules b → NewRules a = NewRules b → TotalRules a = TotalRules b → a = b.
Proof. destruct a, b; cbn; intros; congruence. Qed.

Lemma count_result_add c r i rs :
  wrItem r = Some i →
  add_counts (count_result c i (wrChange r)) (counts_of rs) = add_counts c (counts_of (r :: rs)).
Proof.
  intros Hr. assert (∀ P ch, counted P ch r =
    P i && match ch with Some c => bool_decide (wrChange r = c) | None => true end) as Hc
    by (intros; unfold counted; by rewrite Hr).
  unfold add_counts, count_result, counts_of.
  apply counts_eq; cbn [ModifiedPolicies NewPolicies TotalPolicies ModifiedRules NewRules TotalRules];
    rewrite num_cons, Hc; destruct (decide (Type_ i = typePolicy)) as [E|E];
    (assert (is_policy i = true) as -> by by apply bool_decide_true) ||
    (assert (is_policy i = false) as -> by by apply bool_decide_false);
    cbn [negb andb ModifiedPolicies NewPolicies TotalPolicies ModifiedRules NewRules TotalRules one]; lia.
Qed.

Definition failed (r : writeResult) : bool := bool_decide (is_Some (wrErr r)).
Definition wrong_type (r : writeResult) : bool := bool_decide (wrErr r = Some errWrongType).

(** the response that errors lead to *)
Definition error_code (rs : list writeResult) : option Z :=
  if existsb wrong_type rs then Some 409 else if existsb failed rs then Some 500 else None.

Section CollectSpec.
Context (MarshalToString : bulkBody → result string) (Hm : ∀ b, ∃ s, MarshalToString b = Ok s).

Lemma bulk_respond_ok b n : bulk_respond MarshalToString b n = {| brStatusCode := n; brBody := b |}.
Proof using Hm. unfold bulk_respond. by destruct (Hm b) as [? ->]. Qed.

Lemma bulk_collect_spec rs c resp :
  Forall (λ r, wrErr r = None ∨ wrErr r = Some errWrongType → is_Some (wrItem r)) rs →
  ∃ c' resp', collect_results MarshalToString (c, resp) rs = Ret (c', resp') ∧
    brStatusCode <$> resp' = (if existsb wrong_type rs then Some 409
                              else match brStatusCode <$> resp with Some n => Some n | None => error_code rs end) ∧
    (existsb failed rs = false → c' = add_counts c (counts_of rs)).
Proof using Hm.
  intros Hrs. revert c resp. induction Hrs as [|r rs Hr Hrs IH]; intros c resp.
  { exists c, resp. split; [done|]. split; [by destruct resp|]. intros _. destruct c. apply counts_eq; unfold counts_of, num; simpl; lia. }
  cbn [collect_results]. unfold collect_result, error_code. cbn [existsb].
  destruct (wrErr r) as [e|] eqn:Ee.
  - assert (failed r = true) as -> by (unfold failed; rewrite Ee; by apply bool_decide_true).
    destruct (decide (e = errWrongType)) as [->|He].
    + assert (wrong_type r = true) as -> by (unfold wrong_type; rewrite Ee; by apply bool_decide_true).
      destruct Hr as [i ->]; [by right|]. cbn [deref]. run. rewrite bulk_respond_ok. cbn [orb].
      destruct (IH c (Some {| brStatusCode := 409; brBody := BError ("ID " +:+ ID (tiCommon i) +:+
        " does not have expected type " +:+ Type_ i) |})) as (c'&resp'&->&Hs&_).
      exists c', resp'. split; [done|]. split; [|done]. rewrite Hs. by destruct (existsb wrong_type rs).
    + assert (wrong_type r = false) as -> by (unfold wrong_type; rewrite Ee; apply bool_decide_false; congruence).
      cbn [orb]. destruct resp as [b|]; run.
      * destruct (IH c (Some b)) as (c'&resp'&->&Hs&_). exists c', resp'. by split_and!.
      * destruct (IH c (Some {| brStatusCode := 500; brBody := BEmpty |})) as (c'&resp'&->&Hs&_).
        exists c', resp'. split_and!; [done| |done]. rewrite Hs. by destruct (existsb wrong_type rs).
  - assert (failed r = false) as -> by (unfold failed; rewrite Ee; by apply bool_decide_false; intros [? [=]]).
    assert (wrong_type r = false) as -> by (unfold wrong_type; rewrite Ee; by apply bool_decide_false).
    destruct Hr as [i Hi]; [by left|]. rewrite Hi. cbn [deref]. run. cbn [orb].
    destruct (IH (count_result c i (wrChange r)) resp) as (c'&resp'&->&Hs&Hc). exists c', resp'.
    split; [done|]. split; [done|]. intros Hf. rewrite (Hc Hf). by apply count_result_add.
Qed.
End CollectSpec.

(** ** The writes *)

Section BulkSpec.
Context {D B C Q : Type}.
Notation W := (world D B C Q).
Implicit Types w : W.
Context (now : nat → Time) (normalizeJSON : string → result string).
Context (GetItem : D → string → result (option tableItem)) (PutItem : D → tableItem → D * option error)
        (MarshalMapErr : tableItem → option error).
Context (MarshalItem : tableItem → result string) (PutObject : B → string → string → B * result (option string)).
Context (DeleteStatus : C → list DeleteStatusEntry → C * option error)
        (UpdateMetadata : C → UpdateMetadataInput → C * option error).
Context (MarshalPolicy : Policy → result string) (SendMessage : Q → string → Q * option error).
Context (GetObject : B → string → string → result string) (UnmarshalItem : string → result tableItem).
Context {Hstore : VersionedStore GetItem PutItem PutObject GetObject MarshalItem UnmarshalItem}.
Context (interrupted : W → tableItem → W).

Notation write := (writeItem now normalizeJSON GetItem PutItem MarshalMapErr MarshalItem PutObject DeleteStatus
  UpdateMetadata MarshalPolicy SendMessage).
Notation table_get := (dynamoGet GetItem).
Notation version_get := (s3Get GetObject UnmarshalItem).
Notation stored_as := (stored_as GetItem GetObject UnmarshalItem).

(** all items but some, and all versions *)
Definition kept_but w w' (ids : list string) : Prop :=
  (∀ k v i, version_get w k v = Ok i → version_get w' k v = Ok i) ∧
  (∀ k, k ∉ ids → table_get w' k = table_get w k).

Lemma stored_kept w w' ids i : kept_but w w' ids → item_id i ∉ ids → stored_as w i → stored_as w' i.
Proof.
  intros [Hv Ht] Hi [(j&Hj&Hsj) (j'&Hj'&Hsj')]. split.
  - exists j. by rewrite Ht.
  - exists j'. split; [by apply Hv|done].
Qed.

(** what the result [r] of writing [item] says, given the world before and
    after all writes *)
Definition result_ok w w' (item : tableItem) (r : writeResult) : Prop :=
  ∃ item', wrItem r = Some item' ∧
    (wrErr r = None → same_request item' item ∧ stored_as w' item' ∧
      match table_get w (item_id item) with
      | Ok (Some old) => wrChange r = updatedItem ∧ Type_ old = Type_ item
      | Ok None => wrChange r = newItem
      | Err _ => False
      end) ∧
    ((∃ old, table_get w (item_id item) = Ok (Some old) ∧ Type_ old ≠ Type_ item) → wrErr r = Some errWrongType).

Lemma write_one_spec user w item :
  ∃ w' r, write_one write interrupted user w item = (w', r) ∧ kept_but w w' [item_id item] ∧ result_ok w w' item r.
Proof using Hstore.
  unfold write_one. destruct (writeItem_spec now normalizeJSON GetItem PutItem MarshalMapErr MarshalItem PutObject
    DeleteStatus UpdateMetadata MarshalPolicy SendMessage GetObject UnmarshalItem w item user None)
    as (w'&item'&change&err&Hw&[Hv Ht]&Hok).
  rewrite Hw. eexists _, _. split; [done|]. split.
  { split; [done|]. intros k Hk. apply Ht. set_solver. }
  exists item'. split; [done|]. cbn [wrErr wrChange]. split.
  - intros He. destruct (Hok He) as (Hr&Hs&_&Hm). split; [done|]. split; [done|].
    unfold item_id. destruct (table_get w (ID (tiCommon item))) as [[old|]|]; naive_solver.
  - intros (old&Ho&Hty). unfold writeItem in Hw. unfold item_id in Ho. rewrite Ho in Hw.
    rewrite decide_True in Hw by done. congruence.
Qed.

Lemma result_ok_frame w0 w w' w1 ids ids' item r :
  kept_but w0 w ids → item_id item ∉ ids → kept_but w' w1 ids' → item_id item ∉ ids' →
  result_ok w w' item r → result_ok w0 w1 item r.
Proof.
  intros Hk Hi Hk' Hi' (item'&Hr&Hok&Hty). exists item'. split; [done|].
  assert (table_get w (item_id item) = table_get w0 (item_id item)) as Heq by by apply Hk.
  rewrite Heq in *. split; [|done]. intros He. destruct (Hok He) as (Hs&Hst&Hm). split; [done|]. split; [|done].
  eapply stored_kept; [done| |done]. unfold item_id in *. destruct Hs as [<- _] in Hi'. done.
Qed.

Lemma write_all_spec user w items : NoDup (item_id <$> items) →
  ∃ w' rs, write_all write interrupted user w items = (w', rs) ∧ kept_but w w' (item_id <$> items) ∧
    Forall2 (result_ok w w') items rs.
Proof using Hstore.
  revert w. induction items as [|item items IH]; intros w Hnd.
  { exists w, []. split; [done|]. split; [by split|constructor]. }
  cbn in Hnd. apply NoDup_cons in Hnd as [Hni Hnd]. cbn [write_all].
  destruct (write_one_spec user w item) as (w1&r&->&Hk1&Hr).
  destruct (IH w1 Hnd) as (w2&rs&->&Hk2&Hrs). exists w2, (r :: rs). split; [done|]. split.
  { destruct Hk1 as [Hv1 Ht1], Hk2 as [Hv2 Ht2]. split; [auto|]. intros k Hk. rewrite fmap_cons in Hk.
    rewrite Ht2, Ht1; [done|set_solver..]. }
  constructor.
  - eapply (result_ok_frame w w w1 w2 []); [by split|apply not_elem_of_nil|done|done|done].
  - apply Forall2_same_length_lookup_2; [by eapply Forall2_length|]. intros k i ri Hi Hri.
    eapply Forall2_lookup_lr in Hrs; [|done..].
    eapply (result_ok_frame w w1 w2 w2 [item_id item] []); [done| |by split|apply not_elem_of_nil|done].
    apply not_elem_of_cons. split; [|apply not_elem_of_nil]. intros Heq. apply Hni. rewrite <-Heq.
    apply list_elem_of_fmap_2. by eapply list_elem_of_lookup_2.
Qed.

Lemma write_all_results user w items :
  Forall2 (λ i r, ∃ w1, r = (write_one write interrupted user w1 i).2) items
    (write_all write interrupted user w items).2.
Proof.
  revert w. induction items as [|i items IH]; intros w; cbn [write_all]; [constructor|].
  destruct (write_one _ _ user w i) as [w1 r] eqn:E. specialize (IH w1).
  destruct (write_all _ _ user w1 items) as [w2 rs]. constructor; [exists w; by rewrite E|done].
Qed.

(** *** The counts *)

Definition is_new w (i : tableItem) : bool := match table_get w (item_id i) with Ok None => true | _ => false end.

Definition upload_counts w (l : list tableItem) : BulkUploadResult :=
  let rule i := negb (is_policy i) in
  {| ModifiedPolicies := num (λ i, is_policy i && negb (is_new w i)) l;
     NewPolicies := num (λ i, is_policy i && is_new w i) l; TotalPolicies := num is_policy l;
     ModifiedRules := num (λ i, rule i && negb (is_new w i)) l; NewRules := num (λ i, rule i && is_new w i) l;
     TotalRules := num rule l |}.

Lemma num_Forall2 {X Y} (P : X → bool) (R : Y → bool) l k : Forall2 (λ x y, P x = R y) l k → num P l = num R k.
Proof. induction 1 as [|x y l k Hxy _ IH]; [done|]. by rewrite !num_cons, Hxy, IH. Qed.

Lemma counts_of_results w w' items rs :
  Forall2 (result_ok w w') items rs → existsb failed rs = false → counts_of rs = upload_counts w items.
Proof.
  intros Hrs Hf. assert (Forall2 (λ i r, ∃ i', wrItem r = Some i' ∧ is_policy i' = is_policy i ∧
    wrChange r = if is_new w i then newItem else updatedItem) items rs) as Hok.
  { clear -Hrs Hf. induction Hrs as [|i r items rs Hr _ IH]; [constructor|]. cbn in Hf.
    apply orb_false_iff in Hf as [Hfr Hf]. constructor; [|by apply IH].
    destruct Hr as (i'&Hi'&Hok&_). exists i'. split; [done|].
    destruct Hok as (Hs&_&Hm).
    { unfold failed in Hfr. apply bool_decide_eq_false in Hfr. by destruct (wrErr r); [destruct Hfr|]. }
    unfold same_request in Hs. destruct_and! Hs. split; [unfold is_policy; by replace (Type_ i') with (Type_ i)|].
    unfold is_new. destruct (table_get w (item_id i)) as [[old|]|]; naive_solver. }
  unfold counts_of, upload_counts.
  apply counts_eq; cbn [ModifiedPolicies NewPolicies TotalPolicies ModifiedRules NewRules TotalRules]; symmetry;
    apply num_Forall2; (eapply Forall2_impl; [exact Hok|]); intros i r (i'&Hi'&Hp&Hc); unfold counted;
    rewrite Hi', ?Hp, ?Hc; by destruct (is_policy i), (is_new w i).
Qed.

(** *** The whole request *)

Context (MarshalToString : bulkBody → result string) (Hm : ∀ b, ∃ s, MarshalToString b = Ok s).
Context {J : Type} (MarshalJSON : option J → result string).
Context (UnmarshalJSON UnmarshalYAML : string → result (Config J)) (NewReader : string → result (list zipFile)).
Context (ValidatePolicy : Policy → option error).
Context (Htime : ∀ t userID i, ValidatePolicy (uploaded t userID i) = ValidatePolicy (uploaded 0 userID i)).
Context (order schedule : gmap string tableItem → list tableItem) (arrival : list writeResult → list writeResult).
Context (Horder : ∀ m, order m ≡ₚ (map_to_list m).*2) (Hschedule : ∀ m, schedule m ≡ₚ (map_to_list m).*2)
        (Harrival : ∀ rs, arrival rs ≡ₚ rs).

Notation items_of := (archive_items MarshalJSON UnmarshalJSON UnmarshalYAML ValidatePolicy).
Notation BulkUpload' := (BulkUpload MarshalToString write interrupted MarshalJSON UnmarshalJSON UnmarshalYAML NewReader
  now ValidatePolicy order schedule arrival).

Lemma archive_items_ids user files l : items_of user files = Some l → NoDup (item_id <$> l).
Proof.
  unfold archive_items. case_decide; simpl; [|done].
  destruct (mapM id _) as [l0|]; simpl; [|done]. case_decide as Hnd; [|done].
  intros Hl. by rewrite (finished_ids _ _ _ _ _ Hl).
Qed.

Lemma result_ok_items w w' items rs : Forall2 (result_ok w w') items rs →
  Forall (λ r, wrErr r = None ∨ wrErr r = Some errWrongType → is_Some (wrItem r)) rs.
Proof. induction 1 as [|i r items rs (i'&Hi'&_) _ IH]; constructor; [by rewrite Hi'|done]. Qed.

Lemma existsb_In {A} (f : A → bool) l : existsb f l = true ↔ ∃ x, x ∈ l ∧ f x = true.
Proof. rewrite existsb_exists. setoid_rewrite <-list_elem_of_In. done. Qed.

(** what some results say about the items they belong to *)
Lemma failed_write user items rs :
  Forall2 (λ i r, ∃ w1, r = (write_one write interrupted user w1 i).2) items rs → existsb failed rs = true →
  ∃ i w1, i ∈ items ∧ is_Some (wrErr (write_one write interrupted user w1 i).2).
Proof.
  intros Hfrom (r&Hr&Hf)%existsb_In. apply list_elem_of_lookup in Hr as [k Hk].
  destruct (Forall2_lookup_r _ _ _ _ _ Hfrom Hk) as (i&Hi&w1&->). exists i, w1.
  split; [by eapply list_elem_of_lookup_2|]. by apply bool_decide_eq_true in Hf.
Qed.

Lemma wrong_type_found w w' items rs i old :
  Forall2 (result_ok w w') items rs → i ∈ items → table_get w (item_id i) = Ok (Some old) → Type_ old ≠ Type_ i →
  existsb wrong_type rs = true.
Proof.
  intros Hrs Hi Ho Hty. apply list_elem_of_lookup in Hi as [k Hk].
  destruct (Forall2_lookup_l _ _ _ _ _ Hrs Hk) as (r&Hr&i'&_&_&Hwt). apply existsb_In. exists r.
  split; [by eapply list_elem_of_lookup_2|]. apply bool_decide_eq_true, Hwt. eauto.
Qed.

Lemma all_stored w w' items rs i :
  Forall2 (result_ok w w') items rs → existsb failed rs = false → i ∈ items →
  ∃ i', same_request i' i ∧ stored_as w' i'.
Proof.
  intros Hrs Hf Hi. apply list_elem_of_lookup in Hi as [k Hk].
  destruct (Forall2_lookup_l _ _ _ _ _ Hrs Hk) as (r&Hr&i'&_&Hok&_). exists i'.
  destruct Hok as (?&?&_); [|done]. destruct (wrErr r) eqn:Er; [|done]. exfalso.
  assert (existsb failed rs = true) as Hft; [|congruence]. apply existsb_In. exists r.
  split; [by eapply list_elem_of_lookup_2|]. apply bool_decide_eq_true. by rewrite Er.
Qed.

Lemma wrong_type_failed rs : existsb wrong_type rs = true → existsb failed rs = true.
Proof.
  intros (r&Hr&Hf)%existsb_In. apply existsb_In. exists r. split; [done|]. unfold wrong_type, failed in *.
  apply bool_decide_eq_true in Hf. apply bool_decide_eq_true. by rewrite Hf.
Qed.

#[local] Instance existsb_perm {A} (f : A → bool) : Proper ((≡ₚ) ==> (=)) (existsb f).
Proof.
  intros l l' Hp. apply eq_bool_prop_intro. rewrite !Is_true_true, !existsb_In. by setoid_rewrite Hp.
Qed.

#[local] Instance counts_of_perm : Proper ((≡ₚ) ==> (=)) counts_of.
Proof. intros rs rs' Hp. unfold counts_of. by rewrite Hp. Qed.

#[local] Instance upload_counts_perm w : Proper ((≡ₚ) ==> (=)) (upload_counts w).
Proof. intros l l' Hp. unfold upload_counts. by rewrite Hp. Qed.

Lemma add_no_counts c : add_counts no_counts c = c.
Proof. by destruct c. Qed.

(** C14: what the answer to a bulk upload means.  For an accepted archive, with
    the writes in any order and their results in any order of arrival, the
    upload does not panic and does not touch anything but the uploaded items;
    status 200 means that every one of them is stored, as the current item and
    as a version, and the numbers are those of the new and the changed
    policies and rules; an item that exists with the other type makes it 409;
    any other status than 200 means that a write failed. *)
Theorem bulk_upload_correct w input content files l :
  std_decode (buData input) = Ok content → NewReader content = Ok files →
  items_of (buUserID input) files = Some l →
  ∃ w' resp, BulkUpload' w (Ok input) = Ret (w', resp) ∧ kept_but w w' (item_id <$> l) ∧
    brStatusCode resp ∈ [200; 409; 500] ∧
    (brStatusCode resp = 200 → brBody resp = BCounts (upload_counts w l) ∧
      ∀ i, i ∈ l → ∃ i', same_request i' i ∧ stored_as w' i') ∧
    ((∃ i old, i ∈ l ∧ table_get w (item_id i) = Ok (Some old) ∧ Type_ old ≠ Type_ i) → brStatusCode resp = 409) ∧
    (brStatusCode resp ≠ 200 →
      ∃ i w1, i ∈ l ∧ is_Some (wrErr (write_one write interrupted (buUserID input) w1 i).2)).
Proof using Hstore Hm Htime Horder Hschedule Harrival.
  intros Hd Hz Hl. pose proof (archive_items_ids _ _ _ Hl) as Hnd.
  pose proof (extractZipFile_spec MarshalJSON UnmarshalJSON UnmarshalYAML NewReader now ValidatePolicy order
    Htime Horder (clock (wApi w)) input content files Hd Hz) as Hx.
  rewrite Hl in Hx. destruct Hx as [n Hx]. unfold BulkUpload. rewrite Hx.
  assert (schedule (by_item_id l) ≡ₚ l) as Hp by by rewrite Hschedule, by_item_id_values.
  set (items := schedule (by_item_id l)) in *. set (user := buUserID input).
  destruct (write_all_spec user (at_clock w n) items) as (w'&rs&Hw&Hk&Hrs); [by rewrite Hp|].
  pose proof (write_all_results user (at_clock w n) items) as Hfrom. rewrite Hw in Hfrom |- *. cbn [snd] in Hfrom.
  change (result_ok (at_clock w n) w') with (result_ok w w') in Hrs.
  destruct (bulk_collect_spec MarshalToString Hm (arrival rs) no_counts None) as (c&resp&->&Hcode&Hc).
  { rewrite Harrival. by eapply result_ok_items. }
  assert (∀ f, existsb f (arrival rs) = existsb f rs) as Hex by (intros f; by rewrite Harrival).
  unfold error_code in Hcode. repeat rewrite Hex in Hcode. rewrite Hex, Harrival, add_no_counts in Hc.
  run. eexists w', _. split; [done|]. split.
  { destruct Hk as [Hv Ht]. split; [done|]. intros k Hnk. rewrite (Ht k); [done|]. by rewrite Hp. }
  pose proof (failed_write _ _ _ Hfrom) as Hfail. pose proof (wrong_type_failed rs) as Hwf.
  pose proof (λ i old, wrong_type_found _ _ _ _ i old Hrs) as Hwrong. setoid_rewrite Hp in Hfail.
  setoid_rewrite Hp in Hwrong. destruct resp as [resp|]; simpl in Hcode.
  - assert (brStatusCode resp = 409 ∨ brStatusCode resp = 500) as Hor
      by (destruct (existsb wrong_type rs), (existsb failed rs); inversion Hcode; auto).
    split; [rewrite !elem_of_cons; tauto|]. split; [intros H; lia|]. split.
    + intros (i&old&?&?&?). rewrite (Hwrong i old) in Hcode by done. by injection Hcode.
    + intros _. apply Hfail. destruct (existsb wrong_type rs); [by apply Hwf|]. by destruct (existsb failed rs).
  - rewrite bulk_respond_ok by done. cbn [brStatusCode brBody].
    destruct (existsb wrong_type rs) eqn:Ewt; [done|]. destruct (existsb failed rs) eqn:Ef; [done|].
    split; [by left|]. split; [|split; [|done]].
    + intros _. split; [by rewrite (Hc eq_refl), (counts_of_results _ _ _ _ Hrs Ef), Hp|].
      intros i Hi. eapply all_stored; [done..|by rewrite Hp].
    + intros (i&old&?&?&?). by specialize (Hwrong i old ltac:(done) ltac:(done) ltac:(done)).
Qed.
End BulkSpec.

(** ** Witnesses *)

Definition demo_config : Config unit :=
  {| cfAnalysisType := "policy"; cfAutoRemediationID := ""; cfAutoRemediationParameters := ∅; cfDescription := "";
     cfDisplayName := "Name"; cfEnabled := true; cfFilename := "p.py"; cfPolicyID := "P"; cfRuleID := "";
     cfResourceTypes := ["a"]; cfLogTypes := []; cfReference := ""; cfRunbook := ""; cfSeverity := "low";
     cfSuppressions := ["s"]; cfTags := ["T"]; cfTests := []; cfDedupPeriodMinutes := 0 |}.

Definition demo_files : list zipFile :=
  [{| zfName := "d/"; readZipFile := Err ErrEOF |}; {| zfName := "d/p.py"; readZipFile := Ok "def" |};
   {| zfName := "d/p.YML"; readZipFile := Ok "spec" |}].

Definition demo_yaml (s : string) : result (Config unit) := if decide (s = "spec") then Ok demo_config else Err ErrEOF.
Definition demo_json (_ : string) : result (Config unit) := Err ErrEOF.
Definition null_text (_ : option unit) : result string := Ok "null".
Definition values (m : gmap string tableItem) : list tableItem := (map_to_list m).*2.
Definition upload_clock (n : nat) : Time := Z.of_nat (n - 1).
Definition demo_input : BulkUploadInput := {| buData := ""; buUserID := "u" |}.

Lemma extract_zip_correct_witness :
  archive_items null_text demo_json demo_yaml (λ _, None) "u" demo_files = Some [demo_policy true "def" ["a"]] ∧
  ∃ n', extractZipFile null_text demo_json demo_yaml (λ _, Ok demo_files) upload_clock (λ _, None) values 0 demo_input =
    (n', Ok (by_item_id [demo_policy true "def" ["a"]])).
Proof.
  split; [vm_compute; reflexivity|].
  exact (extract_zip_correct null_text demo_json demo_yaml (λ _, Ok demo_files) upload_clock (λ _, None) values
    (λ _ _ _, eq_refl) (λ m, reflexivity (values m)) 0 demo_input "" demo_files eq_refl eq_refl).
Defined.

Lemma bulk_upload_correct_witness :
  ∃ w' resp, BulkUpload (λ _, Ok "") (writeItem upload_clock Ok map_get map_put (λ _, None) demo_marshal log_put
        demo_delete demo_metadata demo_policy_text demo_send) (λ w _, w) null_text demo_json demo_yaml
        (λ _, Ok demo_files) upload_clock (λ _, None) values values (λ rs, rs) demo_world (Ok demo_input) =
      Ret (w', resp) ∧ brStatusCode resp = 200 ∧
    (brStatusCode resp = 200 → brBody resp = BCounts (upload_counts map_get demo_world [demo_policy true "def" ["a"]]) ∧
      ∀ i, i ∈ [demo_policy true "def" ["a"]] →
        ∃ i', same_request i' i ∧ stored_as map_get log_get demo_unmarshal w' i').
Proof.
  destruct (bulk_upload_correct (Hstore := demo_store) upload_clock Ok map_get map_put (λ _, None) demo_marshal log_put
    demo_delete demo_metadata demo_policy_text demo_send log_get demo_unmarshal (λ w _, w) (λ _, Ok "")
    (λ _, ex_intro _ "" eq_refl) null_text demo_json demo_yaml (λ _, Ok demo_files) (λ _, None) (λ _ _ _, eq_refl)
    values values (λ rs, rs) (λ m, reflexivity (values m)) (λ m, reflexivity (values m)) (λ rs, reflexivity rs)
    demo_world demo_input "" demo_files [demo_policy true "def" ["a"]] eq_refl eq_refl eq_refl)
    as (w'&resp&Hrun&_&_&Hok&_).
  exists w', resp. split; [exact Hrun|]. split; [|exact Hok].
  vm_compute in Hrun. injection Hrun as _ <-. reflexivity.
Defined.
