(* ===== verification/AnalysisTest.v ===== *)
(** * Analysis API: testing a policy or rule

    Model of src/internal/core/analysis_api/handlers/test_policy.go, and what
    its answer promises.  The engines (Python Lambda functions) and JSON are
    parameters; the tests of a request are not null. *)

From S2P Require Import Prelude GoStrings GoTime Compliance Backoff Sqsbatch AlertOutputs ResourcesApi AnalysisApi.

#[local] Open Scope Z_scope.

(** ** Data of the engines *)

Record PolicyError := { peID : string; peMessage : string }.

(** [X] is interface{} *)
Record EngineResource (X : Type) := { enAttributes : X; enID : string; enType : string }.
Arguments enAttributes {X}. Arguments enID {X}. Arguments enType {X}.

(** the one policy or rule, and the resources or events it is run on *)
Record EngineInput (X : Type) := {
  eiBody : string; eiID : string; eiTypes : list string; eiResources : list (EngineResource X)
}.
Arguments eiBody {X}. Arguments eiID {X}. Arguments eiTypes {X}. Arguments eiResources {X}.

(** analysis.Result, and analysis.EventAnalysis *)
Record Result := { erID : string; Errored : list PolicyError; Failed : list string; Passed : list string }.
Record EventAnalysis := { eaID : string; eaErrored : list PolicyError; Matched : list string; NotMatched : list string }.

Record TestErrorResult := { ErrorMessage : string; teTestName : string }.

Record TestPolicyResult := {
  TestSummary : bool; TestsErrored : list TestErrorResult; TestsFailed : list string; TestsPassed : list string
}.

(** models.TestPolicy *)
Record TestPolicyInput := {
  tpAnalysisType : string; tpBody : string; tpResourceTypes : list string; tpTests : list UnitTest
}.

Inductive testBody := TEmpty | TError (message : string) | TResult (r : TestPolicyResult).
Record testResponse := { trStatusCode : Z; trBody : testBody }.

Definition testPolicyID : string := "PolicyApiTestingPolicy".
Definition testResourceID : string := "Panther:Test:Resource:".

Definition colon : ascii := ":"%char.

(** a true answer of a rule means that it matches *)
Definition result_of_event (e : EventAnalysis) : Result :=
  {| erID := eaID e; Errored := eaErrored e; Failed := NotMatched e; Passed := Matched e |}.

Section TestPolicy.
Context {X : Type} (MarshalToString : testBody → result string).
Context (UnmarshalAttributes : string → result X).
Context (MarshalInput : EngineInput X → result string).
(** lambda.Invoke: whether FunctionError is set, and the payload *)
Context (InvokeRules InvokePolicies : string → result (bool * string)).
(** a null answer is a nil pointer *)
Context (UnmarshalEvents : string → result (option (list EventAnalysis)))
        (UnmarshalResults : string → result (option (list Result))).

Definition test_respond (body : testBody) (statusCode : Z) : testResponse :=
  match MarshalToString body with
  | Err _ => {| trStatusCode := 500; trBody := TEmpty |}
  | Ok _ => {| trStatusCode := statusCode; trBody := body |}
  end.
Definition test_failure : testResponse := {| trStatusCode := 500; trBody := TEmpty |}.

(** the loops that build the resources or events; [what] is "event" or
    "resource" *)
Fixpoint build_resources (what : string) (i : Z) (tests : list UnitTest) : result (list (EngineResource X)) :=
  match tests with
  | [] => Ok []
  | test :: tests =>
      match UnmarshalAttributes (utResource test) with
      | Err e => Err (ErrWrap ("tests[" +:+ itoa i +:+ "]." +:+ what +:+ " is not valid json") e)
      | Ok attrs =>
          rest ← build_resources what (i + 1) tests;
          Ok ({| enAttributes := attrs; enID := testResourceID +:+ itoa i; enType := utResourceType test |} :: rest)
      end
  end.

Definition engine_results {Y} (Invoke : string → result (bool * string)) (Unmarshal : string → result (option Y))
    (what : string) (input : TestPolicyInput) : testResponse + option Y :=
  match build_resources what 0 (tpTests input) with
  | Err e => inl (test_respond (TError (errText e)) 400)
  | Ok resources =>
      match MarshalInput {| eiBody := tpBody input; eiID := testPolicyID; eiTypes := tpResourceTypes input;
                            eiResources := resources |} with
      | Err _ => inl test_failure
      | Ok payload =>
          match Invoke payload with
          | Err _ | Ok (true, _) => inl test_failure
          | Ok (false, answer) =>
              match Unmarshal answer with Err _ => inl test_failure | Ok results => inr results end
          end
      end
  end.

Definition getRuleResults : TestPolicyInput → testResponse + option (list EventAnalysis) :=
  engine_results InvokeRules UnmarshalEvents "event".
Definition getPolicyResults : TestPolicyInput → testResponse + option (list Result) :=
  engine_results InvokePolicies UnmarshalResults "resource".

Definition nonempty {A} (l : list A) : bool := match l with [] => false | _ => true end.

Definition add_result (t : TestPolicyResult) (test : UnitTest) (r : Result) : TestPolicyResult :=
  let expected := utExpectedResult test in
  let errored msg :=
    {| TestSummary := false; TestsErrored := TestsErrored t ++ [{| ErrorMessage := msg; teTestName := utName test |}];
       TestsFailed := TestsFailed t; TestsPassed := TestsPassed t |} in
  match Errored r with
  | e :: _ => errored (peMessage e)
  | [] =>
      if (nonempty (Failed r) && expected) || (nonempty (Passed r) && negb expected) then
        {| TestSummary := false; TestsErrored := TestsErrored t; TestsFailed := TestsFailed t ++ [utName test];
           TestsPassed := TestsPassed t |}
      else if (nonempty (Failed r) && negb expected) || (nonempty (Passed r) && expected) then
        {| TestSummary := TestSummary t; TestsErrored := TestsErrored t; TestsFailed := TestsFailed t;
           TestsPassed := TestsPassed t ++ [utName test] |}
      else errored ("test resource type " +:+ utResourceType test +:+ " is not applicable to this policy")
  end.

(** the test of a result, by its identifier *)
Definition test_index (id : string) : outcome (result Z) :=
  s ← index (split_on colon id) 3; Ret (atoi s).

Fixpoint evaluate (tests : list UnitTest) (t : TestPolicyResult) (results : list Result) : outcome testResponse :=
  match results with
  | [] => Ret (test_respond (TResult t) 200)
  | r :: results =>
      i ← test_index (erID r);
      match i with
      | Err _ => Ret test_failure
      | Ok i => test ← index tests i; evaluate tests (add_result t test r) results
      end
  end.

Definition no_tests : TestPolicyResult :=
  {| TestSummary := true; TestsErrored := []; TestsFailed := []; TestsPassed := [] |}.

Definition parseTestPolicy (decoded : result TestPolicyInput) (validate : TestPolicyInput → option error)
    : result TestPolicyInput :=
  input ← decoded; match validate input with Some e => Err e | None => Ok input end.

Definition TestPolicy (input : result TestPolicyInput) : outcome testResponse :=
  match input with
  | Err e => Ret (test_respond (TError (errText e)) 400)
  | Ok input =>
      if decide (tpAnalysisType input = typeRule) then
        match getRuleResults input with
        | inl response => Ret response
        | inr events => events ← deref events; evaluate (tpTests input) no_tests (result_of_event <$> events)
        end
      else
        match getPolicyResults input with
        | inl response => Ret response
        | inr results => results ← deref results; evaluate (tpTests input) no_tests results
        end
  end.
End TestPolicy.

(** ** What the answer means *)

Inductive verdict := VPassed | VFailed | VErrored (message : string).

(** a result as expected, the opposite, or none *)
Definition verdict_of (test : UnitTest) (r : Result) : verdict :=
  match Errored r, Failed r, Passed r with
  | e :: _, _, _ => VErrored (peMessage e)
  | [], [], [] => VErrored ("test resource type " +:+ utResourceType test +:+ " is not applicable to this policy")
  | [], _ :: _, [] => if utExpectedResult test then VFailed else VPassed
  | [], [], _ :: _ => if utExpectedResult test then VPassed else VFailed
  | [], _ :: _, _ :: _ => VFailed
  end.

Definition names_with {A} (f : verdict → option A) (pairs : list (UnitTest * Result)) : list (A * string) :=
  omap (λ p, (λ a, (a, utName p.1)) <$> f (verdict_of p.1 p.2)) pairs.

Definition passed (v : verdict) : option unit := match v with VPassed => Some tt | _ => None end.
Definition failed_ (v : verdict) : option unit := match v with VFailed => Some tt | _ => None end.
Definition errored_ (v : verdict) : option string := match v with VErrored m => Some m | _ => None end.

(** the report on some tests *)
Definition report (pairs : list (UnitTest * Result)) : TestPolicyResult :=
  {| TestSummary := forallb (λ p, bool_decide (is_Some (passed (verdict_of p.1 p.2)))) pairs;
     TestsErrored := (λ p, {| ErrorMessage := p.1; teTestName := p.2 |}) <$> names_with errored_ pairs;
     TestsFailed := snd <$> names_with failed_ pairs; TestsPassed := snd <$> names_with passed pairs |}.

Lemma names_with_app {A} (f : verdict → option A) l k : names_with f (l ++ k) = names_with f l ++ names_with f k.
Proof. unfold names_with. apply omap_app. Qed.

Lemma add_result_verdict t test r : add_result t test r =
  match verdict_of test r with
  | VPassed => {| TestSummary := TestSummary t; TestsErrored := TestsErrored t; TestsFailed := TestsFailed t;
                  TestsPassed := TestsPassed t ++ [utName test] |}
  | VFailed => {| TestSummary := false; TestsErrored := TestsErrored t; TestsFailed := TestsFailed t ++ [utName test];
                  TestsPassed := TestsPassed t |}
  | VErrored msg => {| TestSummary := false;
                       TestsErrored := TestsErrored t ++ [{| ErrorMessage := msg; teTestName := utName test |}];
                       TestsFailed := TestsFailed t; TestsPassed := TestsPassed t |}
  end.
Proof.
  unfold add_result, verdict_of. destruct (Errored r) as [|e es]; [|done].
  by destruct (Failed r), (Passed r), (utExpectedResult test).
Qed.

Lemma add_result_report pairs test r : add_result (report pairs) test r = report (pairs ++ [(test, r)]).
Proof.
  rewrite add_result_verdict. unfold report. rewrite !names_with_app, !fmap_app, forallb_app.
  assert (∀ A (f : verdict → option A), names_with f [(test, r)] =
    match f (verdict_of test r) with Some a => [(a, utName test)] | None => [] end) as Hone.
  { intros A f. unfold names_with. simpl. by destruct (f (verdict_of test r)). }
  rewrite !Hone. cbn [forallb fst snd]. destruct (verdict_of test r); simpl;
    by rewrite ?andb_true_r, ?andb_false_r, ?app_nil_r.
Qed.

Lemma itoa_without_colon i : 0 ≤ i → contains_byte colon (itoa i) = false.
Proof. intros H. apply digits_no_byte; [done|]. by apply itoa_digits. Qed.

(** the number of a test survives its trip through the engine *)
Lemma test_index_roundtrip i : 0 ≤ i < two63 → test_index (testResourceID +:+ itoa i) = Ret (Ok i).
Proof.
  intros Hi. unfold test_index.
  assert (∀ s, contains_byte colon s = false →
    split_on colon (testResourceID +:+ s) = ["Panther"; "Test"; "Resource"; s]) as Hsplit.
  { intros s Hs. change (testResourceID +:+ s) with
      ("Panther" +:+ String colon ("Test" +:+ String colon ("Resource" +:+ String colon s))).
    by rewrite !split_on_app, split_on_none by done. }
  rewrite Hsplit by (apply itoa_without_colon; lia). 
  change (index ["Panther"; "Test"; "Resource"; itoa i] 3) with (Ret (itoa i)). run. by rewrite atoi_itoa.
Qed.

Section TestSpec.
Context {X : Type} (MarshalToString : testBody → result string) (Hm : ∀ b, ∃ s, MarshalToString b = Ok s).
Context (UnmarshalAttributes : string → result X) (MarshalInput : EngineInput X → result string).
Context (InvokeRules InvokePolicies : string → result (bool * string)).
Context (UnmarshalEvents : string → result (option (list EventAnalysis)))
        (UnmarshalResults : string → result (option (list Result))).

Definition test_id (i : nat) : string := testResourceID +:+ itoa (Z.of_nat i).

(** [r] is about [test] *)
Definition answers (tests : list UnitTest) (test : UnitTest) (r : Result) : Prop :=
  ∃ i, tests !! i = Some test ∧ erID r = test_id i.

Lemma evaluate_pairs tests pairs done_ :
  Z.of_nat (length tests) < two63 → Forall (λ p, answers tests p.1 p.2) pairs →
  evaluate MarshalToString tests (report done_) (snd <$> pairs) =
    Ret (test_respond MarshalToString (TResult (report (done_ ++ pairs))) 200).
Proof.
  intros Hlen Hp. revert done_. induction Hp as [|[test r] pairs (i&Hi&Hr) Hp IH]; intros done_.
  { by rewrite app_nil_r. }
  cbn [fst snd] in Hi, Hr. cbn [fmap list_fmap snd evaluate]. rewrite Hr. unfold test_id.
  pose proof (lookup_lt_Some _ _ _ Hi) as Hlt. rewrite test_index_roundtrip by lia. run. unfold index.
  rewrite decide_True by lia. rewrite Nat2Z.id, Hi. run. rewrite add_result_report, IH.
  by rewrite <-(assoc_L (++)).
Qed.

(** the results of an engine that answers every test once, in any order *)
Lemma pair_results tests results :
  (erID <$> results) ≡ₚ (test_id <$> seq 0 (length tests)) →
  ∃ pairs, snd <$> pairs = results ∧ fst <$> pairs ≡ₚ tests ∧ Forall (λ p, answers tests p.1 p.2) pairs.
Proof.
  intros Hids. destruct (Permutation.Permutation_map_inv test_id _ Hids) as (is_&Heq&Hperm).
  assert (Forall2 (λ i test, tests !! i = Some test) (seq 0 (length tests)) tests) as Hseq.
  { apply Forall2_same_length_lookup_2; [by rewrite length_seq|].
    intros k i test [-> Hk]%lookup_seq Ht. done. }
  destruct (Permutation.Permutation_Forall2 Hperm Hseq) as (sel&Hsel&Hf).
  assert (length sel = length results) as Hlen.
  { rewrite <-(Forall2_length _ _ _ Hf). rewrite <-(length_fmap erID results).
    change (erID <$> results) with (map erID results) in *. rewrite Heq. by rewrite length_map. }
  exists (zip sel results). split; [by apply snd_zip; lia|]. split; [by rewrite fst_zip by lia|].
  apply Forall_forall. intros [test r] (k&Hk)%list_elem_of_lookup.
  apply lookup_zip_Some in Hk as [Hk1 Hk2]. destruct (Forall2_lookup_r _ _ _ _ _ Hf Hk1) as (i&Hi&Ht).
  exists i. split; [done|]. assert ((erID <$> results) !! k = Some (test_id i)) as Hid.
  { change (erID <$> results) with (map erID results) in *. rewrite Heq. by rewrite (list_lookup_fmap test_id), Hi. }
  rewrite list_lookup_fmap, Hk2 in Hid. by injection Hid.
Qed.

(** a rule has the result true on an event that it matches *)
Definition event_result (e : EventAnalysis) : Result :=
  {| erID := eaID e; Errored := eaErrored e; Failed := NotMatched e; Passed := Matched e |}.

(** the results of the engine for a request *)
Definition engine_answer (input : TestPolicyInput) : testResponse + option (list Result) :=
  if decide (tpAnalysisType input = typeRule) then
    match getRuleResults MarshalToString UnmarshalAttributes MarshalInput InvokeRules UnmarshalEvents input with
    | inl r => inl r
    | inr events => inr (option_map (map event_result) events)
    end
  else getPolicyResults MarshalToString UnmarshalAttributes MarshalInput InvokePolicies UnmarshalResults input.

(** testing a policy reports every test once.  When the engine answers
    every test once, in any order, TestPolicy does not panic and returns status
    200 with a report in which each test is listed under exactly one of passed,
    failed and errored, by its own result: passed is the expected result,
    failed the opposite one, and errored an error or no result; the summary
    says whether all passed. *)
Theorem test_policy_correct input results :
  engine_answer input = inr (Some results) → Z.of_nat (length (tpTests input)) < two63 →
  (erID <$> results) ≡ₚ (test_id <$> seq 0 (length (tpTests input))) →
  ∃ pairs, fst <$> pairs ≡ₚ tpTests input ∧ Forall (λ p, answers (tpTests input) p.1 p.2) pairs ∧
    TestPolicy MarshalToString UnmarshalAttributes MarshalInput InvokeRules InvokePolicies UnmarshalEvents
      UnmarshalResults (Ok input) = Ret {| trStatusCode := 200; trBody := TResult (report pairs) |}.
Proof using Hm.
  intros He Hlen Hids. destruct (pair_results _ _ Hids) as (pairs&<-&Hf&Ha). exists pairs. split; [done|].
  split; [done|]. pose proof (evaluate_pairs (tpTests input) pairs [] Hlen Ha) as Hev.
  unfold test_respond in Hev. destruct (Hm (TResult (report ([] ++ pairs)))) as [s Hs]. rewrite Hs in Hev.
  unfold TestPolicy, engine_answer in *. case_decide.
  - destruct (getRuleResults _ _ _ _ _ input) as [|[events|]]; try done. cbn [deref]. run.
    injection He as He. change (result_of_event <$> events) with (map event_result events). rewrite He. exact Hev.
  - rewrite He. cbn [deref]. run. exact Hev.
Qed.
End TestSpec.

(** ** Witness *)

Definition demo_test (name : string) (expected : bool) : UnitTest :=
  {| utExpectedResult := expected; utName := name; utResource := "{}"; utResourceType := "AWS.S3" |}.

Definition demo_test_input : TestPolicyInput :=
  {| tpAnalysisType := "POLICY"; tpBody := "def"; tpResourceTypes := []; tpTests := [demo_test "a" true; demo_test "b" true] |}.

Definition demo_results : list Result :=
  [{| erID := test_id 1; Errored := []; Failed := ["p"]; Passed := [] |};
   {| erID := test_id 0; Errored := []; Failed := []; Passed := ["p"] |}].

Lemma test_policy_correct_witness :
  ∃ pairs, fst <$> pairs ≡ₚ tpTests demo_test_input ∧ Forall (λ p, answers (tpTests demo_test_input) p.1 p.2) pairs ∧
    TestPolicy (λ _, Ok "") (λ _, Ok tt) (λ _, Ok "") (λ _, Ok (false, "")) (λ _, Ok (false, "")) (λ _, Ok None)
      (λ _, Ok (Some demo_results)) (Ok demo_test_input) = Ret {| trStatusCode := 200; trBody := TResult (report pairs) |}.
Proof.
  apply (test_policy_correct (λ _, Ok "") (λ _, ex_intro _ "" eq_refl) (λ _, Ok tt) (λ _, Ok "")
    (λ _, Ok (false, "")) (λ _, Ok (false, "")) (λ _, Ok None) (λ _, Ok (Some demo_results)) demo_test_input demo_results).
  - reflexivity.
  - vm_compute. reflexivity.
  - apply Permutation_swap.
Defined.
