(* ===== verification/GatewayApi.v ===== *)
(** * Gateway API helpers

    Model of src/pkg/gatewayapi: the values that reflection walks over,
    ReplaceMapSliceNils (replace_nils.go) and the routing of requests
    (router.go), with the theorems about them.

    A Go value is a tree: pointers are not shared.  What Go's reflect package
    lets the code assign is tracked by the flags of a location: whether it is
    addressable, and whether it was reached through an unexported field. *)

From S2P Require Import Prelude.

(** ** Values *)

Inductive prim :=
| PString (s : string)
| POther (kind text : string).

#[export] Instance prim_eq_dec : EqDecision prim.
Proof. solve_decision. Defined.

(** reflect.StructField *)
Record structField := {
  sfName : string;
  sfExported : bool;  (* PkgPath is empty *)
  sfAnonymous : bool;
  sfJSON : string;    (* the tag json *)
  sfGeneric : string  (* the tag genericapi *)
}.

#[export] Instance structField_eq_dec : EqDecision structField.
Proof. solve_decision. Defined.

Inductive value :=
| GPrim (p : prim)
| GTime (rfc3339 : string)
| GPtr (o : option value)
| GIface (o : option value)
| GStruct (fields : list (structField * value))
| GSlice (o : option (list value))
| GArray (l : list value)
| GMap (o : option (list (prim * value))).

(** induction with a hypothesis for every value inside *)
Section ValueInd.
Context (P : value → Prop).
Context (Hprim : ∀ p, P (GPrim p)) (Htime : ∀ t, P (GTime t)).
Context (Hptr : ∀ o, (∀ v, o = Some v → P v) → P (GPtr o)) (Hiface : ∀ o, (∀ v, o = Some v → P v) → P (GIface o)).
Context (Hstruct : ∀ fs, Forall (λ f, P f.2) fs → P (GStruct fs)).
Context (Hslice : ∀ o, (∀ l, o = Some l → Forall P l) → P (GSlice o)) (Harray : ∀ l, Forall P l → P (GArray l)).
Context (Hmap : ∀ o, (∀ l, o = Some l → Forall (λ kv, P kv.2) l) → P (GMap o)).

Fixpoint value_ind' (v : value) : P v.
Proof.
  destruct v as [p|t|o|o|fs|o|l|o].
  - apply Hprim.
  - apply Htime.
  - apply Hptr. destruct o as [v|]; [|intros w H; discriminate H]. intros w [= <-]. apply value_ind'.
  - apply Hiface. destruct o as [v|]; [|intros w H; discriminate H]. intros w [= <-]. apply value_ind'.
  - apply Hstruct. induction fs as [|f fs IH]; constructor; [apply value_ind'|exact IH].
  - apply Hslice. destruct o as [l|]; [|intros l H; discriminate H]. intros l' [= <-].
    induction l as [|v l IH]; constructor; [apply value_ind'|exact IH].
  - apply Harray. induction l as [|v l IH]; constructor; [apply value_ind'|exact IH].
  - apply Hmap. destruct o as [l|]; [|intros l H; discriminate H]. intros l' [= <-].
    induction l as [|kv l IH]; constructor; [apply value_ind'|exact IH].
Defined.
End ValueInd.

(** ** What reflection may assign *)

(** addressable, and whether it was reached through an unexported field, which
    is remembered differently for embedded ones *)
Record flags := { addressable : bool; stickyRO : bool; embedRO : bool }.
Definition RO (f : flags) : bool := stickyRO f || embedRO f.
Definition CanSet (f : flags) : bool := addressable f && negb (RO f).

Definition by_pointer (f : flags) : flags := {| addressable := true; stickyRO := stickyRO f; embedRO := embedRO f |}.
Definition by_index (f : flags) : flags := {| addressable := true; stickyRO := RO f; embedRO := false |}.
(** the content of an interface, or a value of a map *)
Definition by_copy (f : flags) : flags := {| addressable := false; stickyRO := RO f; embedRO := false |}.
Definition by_field (d : structField) (f : flags) : flags :=
  {| addressable := addressable f; stickyRO := stickyRO f || (negb (sfExported d) && negb (sfAnonymous d));
     embedRO := negb (sfExported d) && sfAnonymous d |}.

Definition fresh : flags := {| addressable := false; stickyRO := false; embedRO := false |}.

(** ** ReplaceMapSliceNils *)

(** [Set] of a location that holds [old] *)
Definition assign (old new : value) : value := match old with GIface _ => GIface (Some new) | _ => new end.

(** what a location holds after its value was replaced by [r], and then by the
    value that was returned, if the location allows it *)
Definition stored (settable : bool) (r : value * option value) : value :=
  match r.2 with Some new => if settable then assign r.1 new else r.1 | None => r.1 end.

(** The value of the location afterwards, and the value that is returned, which
    is [None] for reflect's invalid value.  Maps, slices and pointers are
    references: what is returned for them sees the changes inside. *)
Fixpoint replaceNils (f : flags) (v : value) {struct v} : value * option value :=
  match v with
  | GPrim _ | GTime _ | GArray _ => (v, Some v)
  | GIface None => (v, None)
  | GIface (Some w) => let '(w, new) := replaceNils (by_copy f) w in (GIface (Some w), new)
  | GMap None => (v, Some (GMap (Some [])))
  | GMap (Some l) =>
      let l := (λ kv, (kv.1, stored (CanSet f) (replaceNils (by_copy f) kv.2))) <$> l in
      (GMap (Some l), Some (GMap (Some l)))
  | GPtr None => (v, Some v)
  | GPtr (Some w) => let w := (replaceNils (by_pointer f) w).1 in (GPtr (Some w), Some (GPtr (Some w)))
  | GSlice None => (v, Some (GSlice (Some [])))
  | GSlice (Some l) =>
      let l := (λ w, stored (CanSet (by_index f)) (replaceNils (by_index f) w)) <$> l in
      (GSlice (Some l), Some (GSlice (Some l)))
  | GStruct fs =>
      let fs := (λ dw, (dw.1, stored (CanSet (by_field dw.1 f)) (replaceNils (by_field dw.1 f) dw.2))) <$> fs in
      (GStruct fs, Some (GStruct fs))
  end.

(** the argument is what the interface{} parameter holds *)
Definition ReplaceMapSliceNils (val : option value) : outcome (option value) :=
  match val with
  | None => Ret None
  | Some (GPtr o) => Ret (Some (replaceNils fresh (GPtr o)).1)
  | Some _ => Panic "ReplaceMapSliceNils expected pointer"
  end.

(** ** What the replacement achieves *)

(** reference: every nil slice and map becomes empty *)
Fixpoint fill (v : value) : value :=
  match v with
  | GPrim _ | GTime _ => v
  | GPtr o => GPtr (fill <$> o)
  | GIface o => GIface (fill <$> o)
  | GStruct fs => GStruct ((λ dw, (dw.1, fill dw.2)) <$> fs)
  | GSlice None => GSlice (Some [])
  | GSlice (Some l) => GSlice (Some (fill <$> l))
  | GArray l => GArray (fill <$> l)
  | GMap None => GMap (Some [])
  | GMap (Some l) => GMap (Some ((λ kv, (kv.1, fill kv.2)) <$> l))
  end.

Fixpoint no_nils (v : value) : bool :=
  match v with
  | GPrim _ | GTime _ => true
  | GPtr o | GIface o => match o with Some w => no_nils w | None => true end
  | GStruct fs => forallb (λ dw, no_nils dw.2) fs
  | GSlice None | GMap None => false
  | GSlice (Some l) | GArray l => forallb no_nils l
  | GMap (Some l) => forallb (λ kv, no_nils kv.2) l
  end.

Lemma forallb_Forall {A} (P : A → bool) l : forallb P l = true ↔ Forall (λ x, P x = true) l.
Proof. rewrite forallb_forall, Forall_forall. setoid_rewrite list_elem_of_In. done. Qed.

Lemma fmap_Forall_id {A} (f : A → A) l : Forall (λ x, f x = x) l → f <$> l = l.
Proof. induction 1 as [|x l Hx _ IH]; [done|]. cbn. by rewrite Hx, IH. Qed.

Lemma fmap_Forall_ext {A B} (f g : A → B) l : Forall (λ x, f x = g x) l → f <$> l = g <$> l.
Proof. induction 1 as [|x l Hx _ IH]; [done|]. cbn. by rewrite Hx, IH. Qed.

Lemma Forall_mp {A} (P Q : A → Prop) l : Forall P l → Forall (λ x, P x → Q x) l → Forall Q l.
Proof. rewrite !Forall_forall. eauto. Qed.

Lemma fill_no_nils v : no_nils (fill v) = true.
Proof.
  induction v as [p|t|o IH|o IH|fs IH|o IH|l IH|o IH] using value_ind'; cbn; try done.
  - destruct o as [w|]; [by apply IH|done].
  - destruct o as [w|]; [by apply IH|done].
  - apply forallb_Forall, Forall_fmap. exact IH.
  - destruct o as [l|]; [|done]. cbn. apply forallb_Forall, Forall_fmap. by apply IH.
  - apply forallb_Forall, Forall_fmap. exact IH.
  - destruct o as [l|]; [|done]. cbn. apply forallb_Forall, Forall_fmap. by apply IH.
Qed.

Lemma pair_eta {A B} (f : B → B) (p : A * B) : f p.2 = p.2 → (p.1, f p.2) = p.
Proof. intros ->. by destruct p. Qed.

Lemma fill_id v : no_nils v = true → fill v = v.
Proof.
  induction v as [p|t|o IH|o IH|fs IH|o IH|l IH|o IH] using value_ind'; cbn; try done; intros Hn.
  - destruct o as [w|]; [|done]. cbn. by rewrite IH.
  - destruct o as [w|]; [|done]. cbn. by rewrite IH.
  - f_equal. apply fmap_Forall_id. rewrite forallb_Forall in Hn. apply (Forall_mp _ _ _ Hn).
    eapply Forall_impl; [exact IH|]. intros dw H Hw. by apply pair_eta, H.
  - destruct o as [l|]; [|done]. do 2 f_equal. apply fmap_Forall_id. rewrite forallb_Forall in Hn.
    apply (Forall_mp _ _ _ Hn). by apply IH.
  - f_equal. apply fmap_Forall_id. rewrite forallb_Forall in Hn. by apply (Forall_mp _ _ _ Hn).
  - destruct o as [l|]; [|done]. do 2 f_equal. apply fmap_Forall_id. rewrite forallb_Forall in Hn.
    apply (Forall_mp _ _ _ Hn). eapply Forall_impl; [by apply IH|]. intros kv H Hw. by apply pair_eta, H.
Qed.

(** a value without nils is left alone *)
Definition returned (v : value) : option value := match v with GIface o => o | _ => Some v end.

Lemma stored_returned b v : stored b (v, returned v) = v.
Proof. unfold stored. destruct v as [| | |o| | | |]; cbn; try (by destruct b). destruct o; [by destruct b|done]. Qed.

(** an interface never holds an interface *)
Fixpoint well_formed (v : value) : bool :=
  match v with
  | GPrim _ | GTime _ => true
  | GPtr o => match o with Some w => well_formed w | None => true end
  | GIface o => match o with Some (GIface _) => false | Some w => well_formed w | None => true end
  | GStruct fs => forallb (λ dw, well_formed dw.2) fs
  | GSlice o => match o with Some l => forallb well_formed l | None => true end
  | GArray l => forallb well_formed l
  | GMap o => match o with Some l => forallb (λ kv, well_formed kv.2) l | None => true end
  end.

Lemma replaceNils_id v : ∀ f, well_formed v = true → no_nils v = true → replaceNils f v = (v, returned v).
Proof.
  induction v as [p|t|o IH|o IH|fs IH|o IH|l IH|o IH] using value_ind'; intros f Hw Hn;
    cbn [replaceNils no_nils well_formed returned] in *; try done.
  - destruct o as [w|]; [|done]. by rewrite IH.
  - destruct o as [w|]; [|done]. rewrite IH by (by destruct w || done). by destruct w.
  - assert ((λ dw, (dw.1, stored (CanSet (by_field dw.1 f)) (replaceNils (by_field dw.1 f) dw.2))) <$> fs = fs) as ->;
      [|done]. apply fmap_Forall_id. rewrite forallb_Forall in Hn, Hw.
    apply (Forall_mp _ _ _ Hn), (Forall_mp _ _ _ Hw). eapply Forall_impl; [exact IH|]. intros [d w] H H1 H2. cbn in *.
    by rewrite H, stored_returned.
  - destruct o as [l|]; [|done]. assert ((λ w, stored (CanSet (by_index f)) (replaceNils (by_index f) w)) <$> l = l) as ->;
      [|done]. apply fmap_Forall_id. rewrite forallb_Forall in Hn, Hw.
    apply (Forall_mp _ _ _ Hn), (Forall_mp _ _ _ Hw). eapply Forall_impl; [by apply IH|]. intros w H H1 H2.
    by rewrite H, stored_returned.
  - destruct o as [l|]; [|done].
    assert ((λ kv, (kv.1, stored (CanSet f) (replaceNils (by_copy f) kv.2))) <$> l = l) as ->; [|done].
    apply fmap_Forall_id. rewrite forallb_Forall in Hn, Hw. apply (Forall_mp _ _ _ Hn), (Forall_mp _ _ _ Hw).
    eapply Forall_impl; [by apply IH|]. intros [k w] H H1 H2. cbn in *. by rewrite H, stored_returned.
Qed.

(** a nil slice or map, possibly in an interface: only the location that holds
    it could be changed *)
Fixpoint nil_ref (v : value) : bool :=
  match v with
  | GSlice None | GMap None => true
  | GIface (Some w) => nil_ref w
  | _ => false
  end.

(** Values whose nils are all replaced; [settable] says whether the location
    is.  The fields of a struct must be exported and, like the values of a map,
    free of nils where they cannot be assigned; a pointer must not lead to a
    nil slice or map; arrays are not visited. *)
Fixpoint visited (settable : bool) (v : value) : bool :=
  match v with
  | GPrim _ | GTime _ => true
  | GPtr o => match o with Some w => negb (nil_ref w) && visited true w | None => true end
  | GIface o => match o with Some w => visited false w | None => true end
  | GStruct fs => forallb (λ dw, sfExported dw.1 && if settable then visited true dw.2 else no_nils dw.2) fs
  | GSlice o => match o with Some l => forallb (visited true) l | None => true end
  | GArray l => forallb no_nils l
  | GMap o => match o with
              | Some l => forallb (λ kv, if settable then visited false kv.2 else no_nils kv.2) l
              | None => true
              end
  end.

Definition visible (f : flags) : Prop := RO f = false.

Lemma CanSet_visible f : visible f → CanSet f = addressable f.
Proof. unfold visible, CanSet. intros ->. apply andb_true_r. Qed.

Lemma visible_by_pointer f : visible f → visible (by_pointer f).
Proof. done. Qed.
Lemma visible_by_index f : visible f → visible (by_index f).
Proof. unfold visible, by_index, RO. cbn. by intros ->. Qed.
Lemma visible_by_copy f : visible f → visible (by_copy f).
Proof. unfold visible, by_copy, RO. cbn. by intros ->. Qed.
Lemma visible_by_field d f : sfExported d = true → visible f → visible (by_field d f).
Proof.
  unfold visible, by_field, RO. cbn. intros -> H. cbn. apply orb_false_iff in H as [-> _]. done.
Qed.

Create HintDb flags.
#[export] Hint Resolve visible_by_pointer visible_by_index visible_by_copy visible_by_field : flags.

Definition is_iface (v : value) : bool := match v with GIface _ => true | _ => false end.

(** the outcome for one location: what is returned is filled, and so is the
    location itself unless it is a nil that only the caller can replace *)
Definition filled (v : value) (r : value * option value) : Prop :=
  r.2 = returned (fill v) ∧ (nil_ref v = false → r.1 = fill v) ∧ is_iface r.1 = is_iface v.

Lemma filled_stored v r : filled v r → stored true r = fill v.
Proof.
  destruct r as [r1 r2]. intros (H2&H1&Hi). cbn [fst snd] in *. subst r2.
  destruct v as [| | |[w|]| |[l|]| |[l|]]; unfold stored; cbn in *; try (by destruct r1); by rewrite H1.
Qed.

Lemma stored_no_nils b f v : well_formed v = true → no_nils v = true → stored b (replaceNils f v) = fill v.
Proof. intros Hw Hn. by rewrite (replaceNils_id v f Hw Hn), stored_returned, fill_id. Qed.

Lemma replaceNils_filled v : ∀ f,
  well_formed v = true → visible f → visited (addressable f) v = true → filled v (replaceNils f v).
Proof.
  induction v as [p|t|o IH|o IH|fs IH|o IH|l IH|o IH] using value_ind'; intros f Hw Hf Hv;
    cbn [replaceNils well_formed visited] in *; try done.
  - destruct o as [w|]; [|done]. apply andb_true_iff in Hv as [Hnil Hv]. apply negb_true_iff in Hnil.
    destruct (IH w eq_refl (by_pointer f) Hw ltac:(auto with flags) Hv) as (_&H1&_).
    unfold filled. cbn. by rewrite H1.
  - destruct o as [w|]; [|done]. assert (well_formed w = true ∧ is_iface w = false) as [Hw' Hi] by by destruct w.
    destruct (IH w eq_refl (by_copy f) Hw' ltac:(auto with flags) Hv) as (H2&H1&_).
    destruct (replaceNils (by_copy f) w) as [w1 new]. unfold filled. cbn in *. split.
    + rewrite H2. by destruct w as [| | | | |[]| |[]].
    + split; [|done]. intros Hnil. by rewrite H1.
  - assert ((λ dw, (dw.1, stored (CanSet (by_field dw.1 f)) (replaceNils (by_field dw.1 f) dw.2))) <$> fs =
            (λ dw, (dw.1, fill dw.2)) <$> fs) as ->; [|done].
    apply fmap_Forall_ext. rewrite forallb_Forall in Hv, Hw. apply (Forall_mp _ _ _ Hv), (Forall_mp _ _ _ Hw).
    eapply Forall_impl; [exact IH|]. intros [d w] H Hw' [He Hv']%andb_true_iff. cbn [fst snd] in *. f_equal.
    assert (visible (by_field d f)) as Hvis by auto with flags. rewrite (CanSet_visible _ Hvis).
    change (addressable (by_field d f)) with (addressable f). destruct (addressable f) eqn:Ea.
    + apply filled_stored, H; [done..|]. cbn. by rewrite Ea.
    + by apply stored_no_nils.
  - destruct o as [l|]; [|done].
    assert ((λ w, stored (CanSet (by_index f)) (replaceNils (by_index f) w)) <$> l = fill <$> l) as ->; [|done].
    apply fmap_Forall_ext. rewrite forallb_Forall in Hv, Hw. apply (Forall_mp _ _ _ Hv), (Forall_mp _ _ _ Hw).
    eapply Forall_impl; [by apply IH|]. intros w H Hw' Hv'. cbn beta in *.
    rewrite CanSet_visible by auto with flags. apply filled_stored, H; auto with flags.
  - unfold filled. cbn. rewrite fmap_Forall_id; [done|]. rewrite forallb_Forall in Hv.
    eapply Forall_impl; [exact Hv|]. intros w. apply fill_id.
  - destruct o as [l|]; [|done].
    assert ((λ kv, (kv.1, stored (CanSet f) (replaceNils (by_copy f) kv.2))) <$> l =
            (λ kv, (kv.1, fill kv.2)) <$> l) as ->; [|done].
    apply fmap_Forall_ext. rewrite forallb_Forall in Hv, Hw. apply (Forall_mp _ _ _ Hv), (Forall_mp _ _ _ Hw).
    eapply Forall_impl; [by apply IH|]. intros [k w] H Hw' Hv'. cbn [fst snd] in *. f_equal.
    rewrite (CanSet_visible _ Hf). destruct (addressable f).
    + apply filled_stored, H; auto with flags.
    + by apply stored_no_nils.
Qed.

(** a response has no null where a list or an object is meant.  For a
    pointer to a struct all of whose nil slices and maps are in places that can
    be assigned, ReplaceMapSliceNils replaces each of them by an empty one and
    changes nothing else. *)
Theorem replace_nils_correct fs :
  well_formed (GStruct fs) = true → visited true (GStruct fs) = true →
  let v := GPtr (Some (GStruct fs)) in
  ReplaceMapSliceNils (Some v) = Ret (Some (fill v)) ∧ no_nils (fill v) = true.
Proof.
  intros Hw Hv v. split; [|apply fill_no_nils].
  destruct (replaceNils_filled v fresh Hw eq_refl) as (_&H&_); [by apply andb_true_iff|].
  cbn [ReplaceMapSliceNils v]. by rewrite <-H.
Qed.

(** Where a nil cannot be assigned it stays: in a struct that is the value of a
    map, and at the top of the result of a handler. *)
Theorem nils_stay d (Hd : sfExported d = true) :
  let inner := GMap (Some [(PString "k", GStruct [(d, GSlice None)])]) in
  ReplaceMapSliceNils (Some (GPtr (Some (GStruct [(d, inner)])))) = Ret (Some (GPtr (Some (GStruct [(d, inner)])))) ∧
  ReplaceMapSliceNils (Some (GPtr (Some (GIface (Some (GSlice None)))))) =
    Ret (Some (GPtr (Some (GIface (Some (GSlice None)))))).
Proof. unfold ReplaceMapSliceNils, replaceNils, stored, CanSet, RO. cbn. by rewrite Hd. Qed.

(** ** Routing requests *)

Section LambdaProxy.
(** [Req] is the rest of the request; the logger that is set up first can
    panic too *)
Context {Req Body : Type} (ConfigureGlobal : string → string → Req → outcome unit).

Record gatewayRequest := { grHTTPMethod : string; grResource : string; grRest : Req }.
Record gatewayResponse := { gwStatusCode : Z; gwBody : option Body }.

(** a handler returns a pointer *)
Definition RequestHandler : Type := gatewayRequest → outcome (option gatewayResponse).

(** what the function does until it returns or panics *)
Definition proxy_body (methodHandlers : gmap string RequestHandler) (input : gatewayRequest)
    : outcome gatewayResponse :=
  _ ← ConfigureGlobal (grHTTPMethod input) (grResource input) (grRest input);
  match methodHandlers !! (grHTTPMethod input +:+ " " +:+ grResource input) with
  | None => Ret {| gwStatusCode := 501; gwBody := None |}
  | Some handler =>
      result ← handler input;
      (* its status code is read for the log *)
      match result with Some r => Ret r | None => Panic "nil pointer dereference" end
  end.

Definition LambdaProxy (methodHandlers : gmap string RequestHandler) (input : gatewayRequest) : gatewayResponse :=
  match proxy_body methodHandlers input with
  | Ret r => r
  | Panic _ => {| gwStatusCode := 500; gwBody := None |}
  end.

(** every request is answered: by its handler, with 501 without one, and with
    500 when anything panics *)
Lemma LambdaProxy_answers methodHandlers input :
  ConfigureGlobal (grHTTPMethod input) (grResource input) (grRest input) = Ret tt →
  LambdaProxy methodHandlers input =
    match methodHandlers !! (grHTTPMethod input +:+ " " +:+ grResource input) with
    | None => {| gwStatusCode := 501; gwBody := None |}
    | Some handler => match handler input with Ret (Some r) => r | _ => {| gwStatusCode := 500; gwBody := None |} end
    end.
Proof.
  intros Hl. unfold LambdaProxy, proxy_body. rewrite Hl. run.
  destruct (methodHandlers !! _) as [handler|]; [|done]. by destruct (handler input) as [[r|]|why].
Qed.
End LambdaProxy.

(** ** Witness *)

Definition public (name : string) : structField :=
  {| sfName := name; sfExported := true; sfAnonymous := false; sfJSON := ""; sfGeneric := "" |}.

Lemma replace_nils_correct_witness :
  ReplaceMapSliceNils (Some (GPtr (Some (GStruct
    [(public "Tags", GSlice None); (public "Items", GSlice (Some [GPtr (Some (GStruct [(public "M", GMap None)]))]))])))) =
  Ret (Some (GPtr (Some (GStruct
    [(public "Tags", GSlice (Some []));
     (public "Items", GSlice (Some [GPtr (Some (GStruct [(public "M", GMap (Some []))]))]))])))).
Proof.
  exact (proj1 (replace_nils_correct [(public "Tags", GSlice None);
    (public "Items", GSlice (Some [GPtr (Some (GStruct [(public "M", GMap None)]))]))] eq_refl eq_refl)).
Defined.
