(* ===== verification/GenericApi.v ===== *)
(** * Lambda API helpers

    Model of src/pkg/genericapi: the errors of the Lambda APIs (errors.go),
    the redaction of requests for the log (redact.go), the router that finds
    and calls the handler of a request (router.go), the check of its handlers
    (verify.go) and the call of another function (invoke.go). *)

From S2P Require Import Prelude AlertOutputs Sqsbatch GatewayApi.

(** ** Errors (errors.go) *)

Inductive errorKind := AlreadyExistsError | DoesNotExistError | InternalError | InUseError | InvalidInputError.

#[export] Instance errorKind_eq_dec : EqDecision errorKind.
Proof. solve_decision. Defined.

(** [PlainError b e]: an error of another type, a struct or a pointer to one
    when [b] *)
Inductive apiErr :=
| ApiError (kind : errorKind) (route message : string)
| AWSError (route method : string) (e : error)
| LambdaError (route functionName : string) (errorMessage errorType : option string)
| PlainError (isStruct : bool) (e : error).

#[export] Instance apiErr_eq_dec : EqDecision apiErr.
Proof. solve_decision. Defined.

Definition ErrorText (e : apiErr) : string :=
  match e with
  | ApiError _ _ message => message
  | AWSError _ _ e => errText e
  | LambdaError route functionName errorMessage _ =>
      (if decide (route = "") then "" else route +:+ " failed: ") +:+ "lambda error returned: " +:+
      (if decide (functionName = "") then "" else functionName +:+ ": ") +:+ default "(nil)" errorMessage
  | PlainError _ e => errText e
  end.

Definition failure (kind : errorKind) (message : string) : apiErr := ApiError kind "" message.
Definition aws_failure (method : string) (e : error) : apiErr := AWSError "" method e.

(** a result or one of these errors *)
Inductive api (A : Type) := Good (a : A) | Bad (e : apiErr).
Arguments Good {A}. Arguments Bad {A}.

#[export] Instance api_ret : MRet api := λ A a, Good a.
#[export] Instance api_bind : MBind api := λ A B f m, match m with Good a => f a | Bad e => Bad e end.

(** a failed call becomes an InternalError with a message, or an AWSError *)
Definition or_internal {A} (pre : string) (r : result A) : api A :=
  match r with Ok a => Good a | Err e => Bad (failure InternalError (pre +:+ errText e)) end.
Definition or_aws {A} (method : string) (r : result A) : api A :=
  match r with Ok a => Good a | Err e => Bad (aws_failure method e) end.

(** ** Redaction (redact.go) *)

(** what the logger gets; [JRaw] is a Go value that is passed on as it is *)
Inductive json :=
| JNil
| JStr (s : string)
| JRaw (v : value)
| JList (l : list json)
| JMap (l : list (prim * json))
| JObj (l : list (string * json)).

(** an entry of a map with string keys *)
Definition obj_insert (k : string) (j : json) (l : list (string * json)) : list (string * json) :=
  filter (λ p, p.1 ≠ k) l ++ [(k, j)].

Definition fieldName (field : structField) : string :=
  let name := hd "" (split_on "," (sfJSON field)) in if decide (name = "") then sfName field else name.

Definition len_text (kind : string) (n : nat) : string :=
  "(redacted " +:+ kind +:+ " len=" +:+ itoa (Z.of_nat n) +:+ ")".

Fixpoint redactedField (input : value) : json :=
  match input with
  | GMap None | GPtr None | GSlice None => JNil
  | GPtr (Some v) => redactedField v
  | GArray l => JStr (len_text "array" (length l))
  | GMap (Some l) => JStr (len_text "map" (length l))
  | GSlice (Some l) => JStr (len_text "slice" (length l))
  | GPrim (PString s) => JStr (len_text "string" (String.length s))
  | GPrim (POther kind _) => JStr ("(redacted " +:+ kind +:+ ")")
  | GTime _ | GStruct _ => JStr "(redacted struct)"
  | GIface _ => JStr "(redacted interface)"
  end.

(** fields that are not visited *)
Definition skipped (d : structField) : bool := negb (sfExported d) && negb (sfAnonymous d).

(** Interface() panics for what was reached through an unexported field *)
Definition exposed (f : flags) (j : json) : outcome json :=
  if RO f then Panic "cannot return value obtained from unexported field or method" else Ret j.

(** the loops of redactedStruct, redactedArray and redactedMap *)
Definition redactedStruct (rec : structField → value → outcome json)
    : list (structField * value) → list (string * json) → outcome (list (string * json)) :=
  fix go fs o :=
    match fs with
    | [] => Ret o
    | (d, v) :: fs =>
        if skipped d then go fs o
        else if decide (sfGeneric d = "redact") then go fs (obj_insert (fieldName d) (redactedField v) o)
        else j ← rec d v; go fs (obj_insert (fieldName d) j o)
    end.

Definition redactedArray (rec : value → outcome json) : list value → outcome (list json) :=
  fix go l := match l with [] => Ret [] | v :: l => j ← rec v; o ← go l; Ret (j :: o) end.

Definition redactedMap (rec : value → outcome json) : list (prim * value) → outcome (list (prim * json)) :=
  fix go l := match l with [] => Ret [] | (k, v) :: l => j ← rec v; o ← go l; Ret ((k, j) :: o) end.

Fixpoint redactedInput (f : flags) (input : value) : outcome json :=
  match input with
  | GTime t => exposed f (JStr t)
  | GPtr None => Ret JNil
  | GPtr (Some v) => redactedInput (by_pointer f) v
  | GStruct fs => o ← redactedStruct (λ d v, redactedInput (by_field d f) v) fs []; Ret (JObj o)
  | GSlice None | GMap None => Ret JNil
  | GSlice (Some l) | GArray l => o ← redactedArray (redactedInput (by_index f)) l; Ret (JList o)
  | GMap (Some l) =>
      (* the keys are passed on as they are *)
      o ← redactedMap (λ v, _ ← exposed f JNil; redactedInput (by_copy f) v) l; Ret (JMap o)
  | GPrim _ | GIface _ => exposed f (JRaw input)
  end.

(** *** What the log can show *)

Fixpoint dots (n : nat) : string := match n with O => "" | S n => String "." (dots n) end.

(** a value of the same outline, without its content *)
Fixpoint mask (v : value) : value :=
  match v with
  | GPrim (PString s) => GPrim (PString (dots (String.length s)))
  | GPrim (POther kind _) => GPrim (POther kind "")
  | GTime _ => GTime ""
  | GPtr o => GPtr (mask <$> o)
  | GIface _ => GIface None
  | GStruct _ => GStruct []
  | GSlice o => GSlice ((λ l, replicate (length l) (GPtr None)) <$> o)
  | GArray l => GArray (replicate (length l) (GPtr None))
  | GMap o => GMap ((λ l, replicate (length l) (PString "", GPtr None)) <$> o)
  end.

(** everything but the content of redacted and skipped fields *)
Fixpoint public_part (v : value) : value :=
  match v with
  | GPrim _ | GTime _ | GIface _ => v
  | GPtr o => GPtr (public_part <$> o)
  | GStruct fs =>
      GStruct ((λ dw, (dw.1, if skipped dw.1 then GPtr None
                             else if decide (sfGeneric dw.1 = "redact") then mask dw.2
                             else public_part dw.2)) <$> fs)
  | GSlice o => GSlice (match o with Some l => Some (public_part <$> l) | None => None end)
  | GArray l => GArray (public_part <$> l)
  | GMap o => GMap (match o with Some l => Some ((λ kv, (kv.1, public_part kv.2)) <$> l) | None => None end)
  end.

Lemma length_dots n : String.length (dots n) = n.
Proof. induction n as [|n IH]; [done|]. cbn. by rewrite IH. Qed.

Lemma redactedField_mask v : redactedField (mask v) = redactedField v.
Proof.
  induction v as [[s|k t]|t|o IH|o IH|fs IH|o IH|l IH|o IH] using value_ind'; cbn; try done.
  - by rewrite length_dots.
  - destruct o as [v|]; cbn; [by apply IH|done].
  - destruct o as [l|]; cbn; [by rewrite length_replicate|done].
  - by rewrite length_replicate.
  - destruct o as [l|]; cbn; [by rewrite length_replicate|done].
Qed.

Lemma redactedArray_fmap rec g l :
  Forall (λ v, rec (g v) = rec v) l → redactedArray rec (g <$> l) = redactedArray rec l.
Proof. induction 1 as [|v l Hv _ IH]; [done|]. cbn in *. rewrite Hv. destruct (rec v); run; [|done]. by rewrite IH. Qed.

Lemma redactedMap_fmap rec (g : value → value) l :
  Forall (λ kv, rec (g kv.2) = rec kv.2) l →
  redactedMap rec ((λ kv, (kv.1, g kv.2)) <$> l) = redactedMap rec l.
Proof.
  induction 1 as [|[k v] l Hv _ IH]; [done|]. cbn in *. rewrite Hv. destruct (rec v); run; [|done]. by rewrite IH.
Qed.

Lemma redactedInput_public v : ∀ f, redactedInput f (public_part v) = redactedInput f v.
Proof.
  induction v as [p|t|o IH|o IH|fs IH|o IH|l IH|o IH] using value_ind'; intros f; try done.
  - destruct o as [v|]; cbn; [by apply IH|done].
  - cbn [public_part redactedInput].
    assert (∀ o, redactedStruct (λ d v, redactedInput (by_field d f) v)
      ((λ dw, (dw.1, if skipped dw.1 then GPtr None else if decide (sfGeneric dw.1 = "redact") then mask dw.2
                     else public_part dw.2)) <$> fs) o =
      redactedStruct (λ d v, redactedInput (by_field d f) v) fs o) as ->; [|done].
    induction IH as [|[d v] fs Hv _ IH]; intros o; [done|]. cbn -[decide]. destruct (skipped d); [apply IH|].
    destruct (decide (sfGeneric d = "redact")); [by rewrite redactedField_mask, IH|].
    cbn [snd] in Hv. rewrite (Hv (by_field d f)). destruct (redactedInput (by_field d f) v); run; [|done]. by rewrite IH.
  - destruct o as [l|]; [|done]. cbn. rewrite redactedArray_fmap; [done|].
    eapply Forall_impl; [by apply IH|]. auto.
  - cbn. rewrite redactedArray_fmap; [done|]. eapply Forall_impl; [exact IH|]. auto.
  - destruct o as [l|]; [|done]. cbn. rewrite redactedMap_fmap; [done|].
    eapply Forall_impl; [by apply IH|]. intros kv H. cbn. destruct (exposed f JNil); run; [apply H|done].
Qed.

(** a redacted field never shows up in the log.  What the router logs of a
    request depends only on its public part: two requests that differ in the
    content of fields with the tag redact (their kind, length and being nil
    aside) or in unexported fields are logged alike. *)
Theorem redaction_hides f v w :
  public_part v = public_part w → redactedInput f v = redactedInput f w.
Proof. intros H. rewrite <-(redactedInput_public v), H. apply redactedInput_public. Qed.

(** ** The router (router.go) *)

Record gotype := { tyName : string; tyError : bool (* implements error *) }.

#[export] Instance gotype_eq_dec : EqDecision gotype.
Proof. solve_decision. Defined.

(** what a handler returns *)
Inductive retval := RVal (v : value) | RErr (e : option apiErr).

Record method := { mIn : list gotype; mOut : list gotype; mCall : value → outcome (list retval) }.

(** [routesByName] also remembers that a method does not exist *)
Record Router := { routes : gmap string method; routesByName : gmap string (option method) }.

(** a field of the input struct: its name, its type (a pointer), and the value
    it points to *)
Record inputField := { ifName : string; ifType : gotype; ifValue : option value }.

Record request := { rqRoute : string; rqInput : value }.

Fixpoint find_request (result : option request) (fields : list inputField) : request + apiErr :=
  match fields with
  | [] => match result with
          | Some r => inl r
          | None => inr (ApiError InvalidInputError "nil" "exactly one route must be specified: found none")
          end
  | field :: fields =>
      match ifValue field, result with
      | None, _ => find_request result fields
      | Some v, None => find_request (Some {| rqRoute := ifName field; rqInput := GPtr (Some v) |}) fields
      | Some _, Some r =>
          inr (ApiError InvalidInputError (rqRoute r)
                 ("exactly one route must be specified: also found " +:+ ifName field))
      end
  end.
Definition findRequest : list inputField → request + apiErr := find_request None.

(** FieldByName panics on what is not a struct *)
Definition toError (e : option apiErr) (routeName : string) : outcome (option apiErr) :=
  match e with
  | None => Ret None
  | Some (ApiError kind _ message) => Ret (Some (ApiError kind routeName message))
  | Some (AWSError _ method e) => Ret (Some (AWSError routeName method e))
  | Some (LambdaError _ functionName m t) => Ret (Some (LambdaError routeName functionName m t))
  | Some (PlainError true e) => Ret (Some (PlainError true e))
  | Some (PlainError false _) => Panic "reflect: call of FieldByName on a value that is not a struct"
  end.

(** Interface(): the content of an interface *)
Definition to_interface (v : value) : option value := match v with GIface o => o | _ => Some v end.

(** ReplaceMapSliceNils(&result) *)
Definition replace_result (result : option value) : option value :=
  match result with
  | None => None
  | Some v => match (replaceNils (by_pointer fresh) (GIface (Some v))).1 with GIface o => o | w => Some w end
  end.

Definition route_results (results : list retval) (route : string) : outcome (option value * option apiErr) :=
  match results with
  | [RErr e] => e ← toError e route; Ret (None, e)
  | RVal v :: RErr e :: _ => e ← toError e route; Ret (replace_result (to_interface v), e)
  | _ => Panic "reflect: unexpected results"
  end.

Section Handle.
Context (validate : list inputField → option error).

(** the handler, from the cache or by reflection *)
Definition find_handler (r : Router) (route : string) : Router * option method :=
  match routesByName r !! route with
  | Some handler => (r, handler)
  | None =>
      let handler := routes r !! route in
      ({| routes := routes r; routesByName := <[route := handler]> (routesByName r) |}, handler)
  end.

(** an argument of another type makes Call panic *)
Definition call (handler : option method) (ty : gotype) (v : value) : outcome (list retval) :=
  match handler with
  | None => Panic "reflect: call of reflect.Value.Call on zero Value"
  | Some m => if decide (mIn m = [ty]) then mCall m v else Panic "reflect: Call with wrong arguments"
  end.

(** the type of the field that holds the request *)
Definition type_of (fields : list inputField) (route : string) : gotype :=
  match List.find (λ field, bool_decide (ifName field = route)) fields with
  | Some field => ifType field
  | None => {| tyName := ""; tyError := false |}
  end.

(** the router afterwards, the logged request, and the two results *)
Definition Handle (r : Router) (input : list inputField)
    : outcome (Router * option json * option value * option apiErr) :=
  match findRequest input with
  | inr err => Ret (r, None, None, Some err)
  | inl req =>
      '(r, out, err) ←
        (match validate input with
         | Some e => Ret (r, None, Some (ApiError InvalidInputError (rqRoute req) (errText e)))
         | None =>
             let '(r, handler) := find_handler r (rqRoute req) in
             results ← call handler (type_of input (rqRoute req)) (rqInput req);
             '(out, err) ← route_results results (rqRoute req);
             Ret (r, out, err)
         end);
      (* deferred *)
      logged ← redactedInput fresh (rqInput req);
      Ret (r, Some logged, out, err)
  end.
End Handle.

(** ** The check of the handlers (verify.go) *)

Definition verifySignature (name : string) (handler : method) (input : gotype) : option apiErr :=
  let bad msg := Some (failure InternalError (name +:+ msg)) in
  match mIn handler with
  | [ty] =>
      if decide (ty ≠ input) then
        bad (" expects an argument of type " +:+ tyName ty +:+ ", input has type " +:+ tyName input)
      else match mOut handler with
           | [o] => if tyError o then None else bad (" returns " +:+ tyName o +:+ ", which does not satisfy error")
           | [_; o] =>
               if tyError o then None else bad (" second return is " +:+ tyName o +:+ ", which does not satisfy error")
           | outs => bad (" should have 1 or 2 returns, found " +:+ itoa (Z.of_nat (length outs)))
           end
  | ins => bad (" should have 1 argument, found " +:+ itoa (Z.of_nat (length ins)))
  end.

Fixpoint verify_fields (r : Router) (fields : list (string * gotype)) : option apiErr :=
  match fields with
  | [] => None
  | (handlerName, ty) :: fields =>
      match routes r !! handlerName with
      | None => Some (failure InternalError ("func " +:+ handlerName +:+ " does not exist"))
      | Some handler =>
          match verifySignature handlerName handler ty with
          | Some e => Some e
          | None => verify_fields r fields
          end
      end
  end.

Definition VerifyHandlers (r : Router) (lambdaInput : list (string * gotype)) : option apiErr :=
  if decide (length lambdaInput ≠ size (routes r)) then
    Some (failure InternalError ("input has " +:+ itoa (Z.of_nat (length lambdaInput)) +:+ " fields but there are " +:+
            itoa (Z.of_nat (size (routes r))) +:+ " handlers"))
  else verify_fields r lambdaInput.

(** ** Calling another function (invoke.go) *)

Section Invoke.
Context {In Out : Type} (MarshalIn : In → result string).
(** lambda.Invoke: FunctionError and the payload *)
Context (InvokeLambda : string → string → result (option string * string)).
Context (UnmarshalError : string → result (option string * option string)) (UnmarshalOut : string → result Out).

(** [wanted]: whether there is a place for the answer *)
Definition Invoke (function : string) (input : In) (wanted : bool) : option Out * option apiErr :=
  match MarshalIn input with
  | Err e => (None, Some (failure InternalError ("jsoniter.Marshal(input) failed: " +:+ errText e)))
  | Ok payload =>
      match InvokeLambda function payload with
      | Err e => (None, Some (aws_failure "lambda.Invoke" e))
      | Ok (Some _, answer) =>
          (None, Some match UnmarshalError answer with
                      | Err e => failure InternalError (function +:+ " invocation failed (" +:+ answer +:+
                                   ") and the response could not be parsed: " +:+ errText e)
                      | Ok (message, type) => LambdaError "" function message type
                      end)
      | Ok (None, answer) =>
          if wanted then
            match UnmarshalOut answer with
            | Err e => (None, Some (failure InternalError
                                      ("jsoniter.Unmarshal(response.Payload) failed: " +:+ errText e)))
            | Ok out => (Some out, None)
            end
          else (None, None)
      end
  end.
End Invoke.

(** ** What the router promises *)

(** no field that is unexported and embedded *)
Fixpoint no_embedded (v : value) : bool :=
  match v with
  | GPrim _ | GTime _ | GIface _ => true
  | GPtr o => match o with Some w => no_embedded w | None => true end
  | GStruct fs => forallb (λ dw, sfExported dw.1 && no_embedded dw.2 || skipped dw.1) fs
  | GSlice o => match o with Some l => forallb no_embedded l | None => true end
  | GArray l => forallb no_embedded l
  | GMap o => match o with Some l => forallb (λ kv, no_embedded kv.2) l | None => true end
  end.

Lemma redactedArray_total rec l : Forall (λ v, ∃ j, rec v = Ret j) l → ∃ o, redactedArray rec l = Ret o.
Proof. induction 1 as [|v l [j Hj] _ [o Ho]]; [by eexists|]. cbn. rewrite Hj. run. setoid_rewrite Ho. run. by eexists. Qed.

Lemma redactedMap_total rec l : Forall (λ kv, ∃ j, rec kv.2 = Ret j) l → ∃ o, redactedMap rec l = Ret o.
Proof. induction 1 as [|[k v] l [j Hj] _ [o Ho]]; [by eexists|]. cbn in *. rewrite Hj. run. setoid_rewrite Ho. run. by eexists. Qed.

Lemma redactedStruct_total rec fs : Forall (λ dv, skipped dv.1 = true ∨ ∃ j, rec dv.1 dv.2 = Ret j) fs →
  ∀ o, ∃ o', redactedStruct rec fs o = Ret o'.
Proof.
  induction 1 as [|[d v] fs Hd _ IH]; intros o; [by eexists|]. cbn [fst snd] in Hd. cbn -[decide].
  destruct Hd as [->|[j Hj]]; [apply IH|]. destruct (skipped d); [apply IH|].
  case_decide; [apply IH|]. rewrite Hj. run. apply IH.
Qed.

Lemma redactedInput_total v : ∀ f, visible f → no_embedded v = true → ∃ j, redactedInput f v = Ret j.
Proof.
  induction v as [p|t|o IH|o IH|fs IH|o IH|l IH|o IH] using value_ind'; intros f Hf Hn; cbn in *.
  - unfold exposed. rewrite Hf. by eexists.
  - unfold exposed. rewrite Hf. by eexists.
  - destruct o as [w|]; [|by eexists]. apply IH; auto with flags.
  - unfold exposed. rewrite Hf. by eexists.
  - destruct (redactedStruct_total (λ d v, redactedInput (by_field d f) v) fs) with (o := @nil (string * json)) as [o ->];
      [|run; by eexists]. rewrite forallb_Forall in Hn. apply (Forall_mp _ _ _ Hn). eapply Forall_impl; [exact IH|].
    intros [d v] H [[? ?]%andb_true_iff|?]%orb_true_iff; [right; apply H; auto with flags|by left].
  - destruct o as [l|]; [|by eexists]. destruct (redactedArray_total (redactedInput (by_index f)) l) as [o ->];
      [|run; by eexists]. rewrite forallb_Forall in Hn. apply (Forall_mp _ _ _ Hn).
    eapply Forall_impl; [by apply IH|]. auto with flags.
  - destruct (redactedArray_total (redactedInput (by_index f)) l) as [o ->]; [|run; by eexists].
    rewrite forallb_Forall in Hn. apply (Forall_mp _ _ _ Hn). eapply Forall_impl; [exact IH|]. auto with flags.
  - destruct o as [l|]; [|by eexists].
    destruct (redactedMap_total (λ v, _ ← exposed f JNil; redactedInput (by_copy f) v) l) as [o ->]; [|run; by eexists].
    rewrite forallb_Forall in Hn. apply (Forall_mp _ _ _ Hn). eapply Forall_impl; [by apply IH|].
    intros [k v] H Hv. unfold exposed. rewrite Hf. run. cbn in *. apply H; auto with flags.
Qed.

Lemma find_request_spec fields result :
  match find_request result fields with
  | inl r => (result = Some r ∧ Forall (λ f, ifValue f = None) fields) ∨
      (result = None ∧ ∃ f v, filter (λ f, is_Some (ifValue f)) fields = [f] ∧ ifValue f = Some v ∧
         r = {| rqRoute := ifName f; rqInput := GPtr (Some v) |})
  | inr e => (∃ route msg, e = ApiError InvalidInputError route msg) ∧
      length (filter (λ f, is_Some (ifValue f)) fields) ≠ (match result with Some _ => 0 | None => 1 end)%nat
  end.
Proof.
  revert result. induction fields as [|f fields IH]; intros result; cbn [find_request].
  { destruct result; [by left|]. split; [by eauto|done]. }
  destruct (ifValue f) as [v|] eqn:Ev.
  - assert (filter (λ f, is_Some (ifValue f)) (f :: fields) = f :: filter (λ f, is_Some (ifValue f)) fields) as Hfil
      by (rewrite filter_cons, decide_True by (rewrite Ev; eauto); done).
    destruct result as [r|]; [rewrite Hfil; split; [by eauto|done]|].
    specialize (IH (Some {| rqRoute := ifName f; rqInput := GPtr (Some v) |})).
    destruct (find_request _ fields) as [r|e].
    + destruct IH as [[[= <-] Hnone]|[? _]]; [|done]. right. split; [done|]. exists f, v. split; [|done].
      rewrite Hfil. f_equal. clear -Hnone. induction Hnone as [|g gs Hg _ IHg]; [done|].
      rewrite filter_cons, decide_False; [done|]. rewrite Hg. by intros [? [=]].
    + destruct IH as [He Hl]. split; [done|]. rewrite Hfil. cbn. lia.
  - assert (filter (λ f, is_Some (ifValue f)) (f :: fields) = filter (λ f, is_Some (ifValue f)) fields) as Hfil
      by (rewrite filter_cons, decide_False by (rewrite Ev; by intros [? [=]]); done).
    specialize (IH result). rewrite Hfil. destruct (find_request result fields) as [r|e]; [|done].
    destruct IH as [[-> Hn]|IH]; [left|by right]. split; [done|]. by constructor.
Qed.

(** the types that reflection sees agree with the values *)
Definition returns (m : method) (rs : list retval) : Prop :=
  match mOut m with
  | [_] => ∃ e, rs = [RErr e]
  | [_; _] => ∃ v e, rs = [RVal v; RErr e]
  | _ => False
  end.

Definition struct_error (e : apiErr) : Prop := match e with PlainError b _ => b = true | _ => True end.

Definition set_route (route : string) (e : apiErr) : apiErr :=
  match e with
  | ApiError kind _ message => ApiError kind route message
  | AWSError _ method e => AWSError route method e
  | LambdaError _ functionName m t => LambdaError route functionName m t
  | PlainError b e => PlainError b e
  end.

(** the answer to a request, from what its handler returned *)
Definition answer_of (route : string) (rs : list retval) : option value * option apiErr :=
  match rs with
  | [RErr e] => (None, set_route route <$> e)
  | [RVal v; RErr e] => (replace_result (to_interface v), set_route route <$> e)
  | _ => (None, None)
  end.

Definition consistent (r : Router) : Prop := ∀ name h, routesByName r !! name = Some h → h = routes r !! name.

Definition errors_ok (rs : list retval) : Prop := Forall (λ ret, match ret with RErr (Some e) => struct_error e | _ => True end) rs.

Lemma toError_route e route : match e with Some e => struct_error e | None => True end →
  toError e route = Ret (set_route route <$> e).
Proof. destruct e as [[| | |[]]|]; done. Qed.

Lemma route_results_answer m rs route :
  returns m rs → errors_ok rs → route_results rs route = Ret (answer_of route rs).
Proof.
  unfold returns, errors_ok. intros Hr He. destruct (mOut m) as [|o1 [|o2 [|]]]; try done.
  - destruct Hr as [e ->]. apply Forall_cons in He as [He _]. cbn. by rewrite toError_route.
  - destruct Hr as (v&e&->). apply Forall_cons in He as [_ He]. apply Forall_cons in He as [He _]. cbn.
    by rewrite toError_route.
Qed.

Lemma verify_fields_spec r fields name ty :
  verify_fields r fields = None → (name, ty) ∈ fields →
  ∃ m, routes r !! name = Some m ∧ mIn m = [ty] ∧ (length (mOut m) = 1 ∨ length (mOut m) = 2)%nat.
Proof.
  induction fields as [|[n t] fields IH]; cbn; [by intros _ ?%not_elem_of_nil|].
  destruct (routes r !! n) as [m|] eqn:Em; [|done]. destruct (verifySignature n m t) eqn:Ev; [done|].
  intros Hv [[= -> ->]|Hin]%elem_of_cons; [|by apply IH]. exists m. split; [done|]. unfold verifySignature in Ev.
  destruct (mIn m) as [|t' [|]]; [done| |done]. case_decide as Ht; [done|]. subst t'.
  split; [done|]. destruct (mOut m) as [|? [|? [|]]]; try done; auto.
Qed.

Lemma find_handler_spec r route : consistent r →
  ∃ r', find_handler r route = (r', routes r !! route) ∧ consistent r' ∧ routes r' = routes r.
Proof.
  intros Hc. unfold find_handler. destruct (routesByName r !! route) as [h|] eqn:E.
  - exists r. split; [|done]. f_equal. by apply Hc.
  - eexists. split; [done|]. split; [|done]. intros name h. cbn.
    destruct (decide (name = route)) as [->|Hne]; [rewrite lookup_insert_eq; by intros [= <-]|].
    rewrite lookup_insert_ne by done. apply Hc.
Qed.

Lemma type_of_field input field :
  NoDup (ifName <$> input) → field ∈ input → type_of input (ifName field) = ifType field.
Proof.
  intros Hnd Hin. unfold type_of. induction input as [|g input IH]; [by apply not_elem_of_nil in Hin|].
  cbn in *. apply NoDup_cons in Hnd as [Hni Hnd]. destruct (decide (ifName g = ifName field)) as [E|E].
  - rewrite bool_decide_true by done. apply elem_of_cons in Hin as [->|Hin]; [done|]. exfalso. apply Hni.
    rewrite E. by apply list_elem_of_fmap_2.
  - rewrite bool_decide_false by done. apply elem_of_cons in Hin as [->|Hin]; [done|]. by apply IH.
Qed.

(** a verified router answers every request.  When VerifyHandlers accepts
    the handlers and they return what their types say, a request with exactly
    one action is validated and given to the handler of that name, and its
    results are returned with the route in the error; without, or with several
    actions, it is an InvalidInputError; the router panics only if the handler
    does, and its cache changes nothing. *)
Theorem router_correct validate r input :
  VerifyHandlers r ((λ f, (ifName f, ifType f)) <$> input) = None → consistent r → NoDup (ifName <$> input) →
  (∀ name m v rs, routes r !! name = Some m → mCall m v = Ret rs → returns m rs ∧ errors_ok rs) →
  Forall (λ f, match ifValue f with Some v => no_embedded v = true | None => True end) input →
  match filter (λ f, is_Some (ifValue f)) input with
  | [field] => ∃ m v j r', routes r !! ifName field = Some m ∧ ifValue field = Some v ∧
      redactedInput fresh (GPtr (Some v)) = Ret j ∧ consistent r' ∧ routes r' = routes r ∧
      Handle validate r input =
        match validate input with
        | Some e => Ret (r, Some j, None, Some (ApiError InvalidInputError (ifName field) (errText e)))
        | None => match mCall m (GPtr (Some v)) with
                  | Ret rs => Ret (r', Some j, (answer_of (ifName field) rs).1, (answer_of (ifName field) rs).2)
                  | Panic why => Panic why
                  end
        end
  | _ => ∃ route msg, Handle validate r input = Ret (r, None, None, Some (ApiError InvalidInputError route msg))
  end.
Proof.
  intros Hver Hcons Hnd Hmeth Hemb. unfold Handle. pose proof (find_request_spec input None) as Hfind.
  unfold findRequest. destruct (find_request None input) as [req|e].
  2:{ destruct Hfind as [(route&msg&->) Hl]. by destruct (filter _ input) as [|f [|]]; eauto. }
  destruct Hfind as [[? _]|(_&field&v&Hfil&Hv&->)]; [done|]. rewrite Hfil. cbn [rqRoute rqInput].
  assert (field ∈ input) as Hin by (apply (list_elem_of_filter (λ f, is_Some (ifValue f))); rewrite Hfil; by left).
  unfold VerifyHandlers in Hver. case_decide; [done|].
  destruct (verify_fields_spec _ _ (ifName field) (ifType field) Hver) as (m&Hm&Hty&_);
    [by apply (list_elem_of_fmap_2 (λ f, (ifName f, ifType f)))|].
  destruct (redactedInput_total (GPtr (Some v)) fresh) as [j Hj]; [done| |].
  { rewrite Forall_forall in Hemb. specialize (Hemb field Hin). by rewrite Hv in Hemb. }
  destruct (find_handler_spec r (ifName field) Hcons) as (r'&Hh&Hc'&Hr').
  exists m, v, j, r'. split_and!; try done. destruct (validate input) as [e|]; run; [by rewrite Hj|].
  rewrite Hh, Hm. unfold call. rewrite (type_of_field _ _ Hnd Hin), decide_True by done.
  destruct (mCall m (GPtr (Some v))) as [rs|why] eqn:Ec; run; [|done].
  destruct (Hmeth _ _ _ _ Hm Ec) as [Hret Hok]. rewrite (route_results_answer m rs) by done. run.
  destruct (answer_of (ifName field) rs). run. by rewrite Hj.
Qed.

(** ** Witnesses *)

Definition secret_field : structField :=
  {| sfName := "Email"; sfExported := true; sfAnonymous := false; sfJSON := "email,omitempty"; sfGeneric := "redact" |}.

Definition secret_input (s : string) : value :=
  GPtr (Some (GStruct [(public "Name", GPrim (PString "n")); (secret_field, GPtr (Some (GPrim (PString s))))])).

Lemma redaction_hides_witness :
  redactedInput fresh (secret_input "abc") = redactedInput fresh (secret_input "xyz") ∧
  redactedInput fresh (secret_input "abc") =
    Ret (JObj [("Name", JRaw (GPrim (PString "n"))); ("email", JStr "(redacted string len=3)")]).
Proof. split; [apply redaction_hides; reflexivity|vm_compute; reflexivity]. Defined.

Definition demo_type : gotype := {| tyName := "*PingInput"; tyError := false |}.
Definition demo_method : method :=
  {| mIn := [demo_type]; mOut := [{| tyName := "[]string"; tyError := false |}; {| tyName := "error"; tyError := true |}];
     mCall := λ _, Ret [RVal (GSlice None); RErr (Some (failure DoesNotExistError "gone"))] |}.
Definition demo_router : Router := {| routes := {["Ping" := demo_method]}; routesByName := ∅ |}.
Definition demo_request : list inputField :=
  [{| ifName := "Ping"; ifType := demo_type; ifValue := Some (GStruct []) |}].

Lemma router_correct_witness :
  ∃ r', Handle (λ _, None) demo_router demo_request =
    Ret (r', Some (JObj []), Some (GSlice None), Some (ApiError DoesNotExistError "Ping" "gone")).
Proof.
  destruct (router_correct (λ _, None) demo_router demo_request) as (m&v&j&r'&Hm&Hv&Hj&_&_&->).
  - vm_compute. reflexivity.
  - intros name h Hh. cbn in Hh. discriminate Hh.
  - apply NoDup_singleton.
  - intros name m v rs Hr. unfold demo_router in Hr. cbn [routes] in Hr.
    apply lookup_singleton_Some in Hr as [<- <-]. intros [= <-]. split; [by eexists _, _|].
    by repeat constructor.
  - by repeat constructor.
  - injection Hv as <-. injection Hm as <-. injection Hj as <-. by exists r'.
Defined.
