(* ===== verification/OutputsApi.v ===== *)
(** * Outputs API

    Model of src/internal/core/outputs_api: the alert outputs, whose
    configuration (with its credentials) is encrypted, in a DynamoDB table with
    an index by name.  DynamoDB, KMS, JSON and UUIDs are parameters. *)

From S2P Require Import Prelude AlertOutputs Sqsbatch GatewayApi GenericApi.

(** ** Data *)

(** who created and changed it *)
Record outputAudit := {
  oaCreatedBy : option string; oaCreationTime : option string; oaLastModifiedBy : option string;
  oaLastModifiedTime : option string
}.

(** models.AlertOutput *)
Record StoredOutput := { soAudit : outputAudit; soOutput : AlertOutput }.

(** table.AlertOutputItem *)
Record AlertOutputItem := {
  aiAudit : outputAudit;
  aiDisplayName : option string;
  aiEncryptedConfig : string;
  aiOutputID : option string;
  aiOutputType : option string;
  aiDefaultForSeverity : list (option string)
}.

(** validated: the pointers of a request are not nil *)
Record AddOutputInput := {
  adUserID : string; adDisplayName : string; adOutputConfig : OutputConfig; adDefaultForSeverity : list (option string)
}.

Record UpdateOutputInput := {
  uoUserID : string; uoDisplayName : string; uoOutputID : string; uoOutputConfig : OutputConfig;
  uoDefaultForSeverity : list (option string)
}.

(** ** Validation and types *)

Definition set {A} (o : option A) : nat := match o with Some _ => 1 | None => 0 end.

(** validator.go: exactly one output *)
Definition ensureOneOutput (c : OutputConfig) : bool :=
  bool_decide (set (cSlack c) + set (cSns c) + set (cPagerDuty c) + set (cGithub c) + set (cJira c) +
               set (cOpsgenie c) + set (cMsTeams c) + set (cSqs c) + set (cAsana c) = 1)%nat.

(** validator.go: an ARN of SNS; [Parse] gives the service of an ARN *)
Definition validateAwsArn (Parse : string → result string) (field : string) : bool :=
  match Parse field with Ok service => bool_decide (service = "sns") | Err _ => false end.

Definition getOutputType (c : OutputConfig) : result string :=
  match cSlack c, cPagerDuty c, cGithub c, cJira c, cOpsgenie c, cMsTeams c, cSns c, cSqs c, cAsana c with
  | Some _, _, _, _, _, _, _, _, _ => Ok "slack"
  | None, Some _, _, _, _, _, _, _, _ => Ok "pagerduty"
  | None, None, Some _, _, _, _, _, _, _ => Ok "github"
  | None, None, None, Some _, _, _, _, _, _ => Ok "jira"
  | None, None, None, None, Some _, _, _, _, _ => Ok "opsgenie"
  | None, None, None, None, None, Some _, _, _, _ => Ok "msteams"
  | None, None, None, None, None, None, Some _, _, _ => Ok "sns"
  | None, None, None, None, None, None, None, Some _, _ => Ok "sqs"
  | None, None, None, None, None, None, None, None, Some _ => Ok "asana"
  | None, None, None, None, None, None, None, None, None =>
      Err (ErrMsg "no valid output configuration specified for alert output")
  end.

(** ** Encryption *)

Section Outputs.
Context (MarshalConfig : OutputConfig → result string) (UnmarshalConfig : string → result OutputConfig).
Context (Encrypt Decrypt : string → result string).

Definition EncryptConfig (config : OutputConfig) : api string :=
  body ← or_internal "failed to marshal config to json " (MarshalConfig config);
  or_aws "kms.Encrypt" (Encrypt body).

Definition DecryptConfig (ciphertext : string) : api OutputConfig :=
  plaintext ← or_aws "kms.Decrypt" (Decrypt ciphertext);
  or_internal "failed to unmarshal config to json " (UnmarshalConfig plaintext).

(** the configuration of an output that is stored is not nil *)
Definition AlertOutputToItem (input : StoredOutput) (config : OutputConfig) : api AlertOutputItem :=
  encrypted ← EncryptConfig config;
  Good {| aiAudit := soAudit input; aiDisplayName := DisplayName (soOutput input); aiEncryptedConfig := encrypted;
          aiOutputID := OutputID (soOutput input); aiOutputType := OutputType (soOutput input);
          aiDefaultForSeverity := DefaultForSeverity (soOutput input) |}.

Definition ItemToAlertOutput (input : AlertOutputItem) : api StoredOutput :=
  config ← DecryptConfig (aiEncryptedConfig input);
  Good {| soAudit := aiAudit input;
          soOutput := {| DisplayName := aiDisplayName input; OutputID := aiOutputID input;
                         OutputType := aiOutputType input; outputConfig := Some config;
                         DefaultForSeverity := aiDefaultForSeverity input |} |}.

(** ** The table *)

Context {D Raw Key : Type}.
(** expression.Build *)
Context (BuildErr : option error).
Context (Query : D → string → result (list Raw)) (Unmarshal : Raw → result AlertOutputItem).
Context (Scan : D → option Key → result (list Raw * option Key)).
Context (GetItem : D → string → result (option Raw)).
Context (MarshalItemErr : AlertOutputItem → option error) (PutItem : D → AlertOutputItem → D * option error).
Context (UpdateItem : D → AlertOutputItem → D * result Raw) (DeleteItem : D → string → D * option error).

Definition ConditionalCheckFailed : string := "ConditionalCheckFailedException".
Definition conditional (e : error) : bool :=
  match e with ErrAWS code _ => bool_decide (code = ConditionalCheckFailed) | _ => false end.

Definition built {A} (k : api A) : api A :=
  match BuildErr with Some e => Bad (failure InternalError ("failed to build expression " +:+ errText e)) | None => k end.

Definition GetOutputByName (d : D) (displayName : string) : api (option AlertOutputItem) :=
  built (items ← or_internal "failed to query table" (Query d displayName);
         match items with
         | [] => Good None
         | raw :: _ => item ← or_internal "failed to unmarshal response" (Unmarshal raw); Good (Some item)
         end).

Fixpoint unmarshal_list (raws : list Raw) : result (list AlertOutputItem) :=
  match raws with
  | [] => Ok []
  | raw :: raws => item ← Unmarshal raw; items ← unmarshal_list raws; Ok (item :: items)
  end.

(** [None]: out of fuel *)
Fixpoint scan_outputs (fuel : nat) (d : D) (start : option Key) (acc : list AlertOutputItem)
    : option (api (list AlertOutputItem)) :=
  match fuel with
  | O => None
  | S fuel =>
      match Scan d start with
      | Err e => Some (Bad (aws_failure "dynamodb.Scan" e))
      | Ok (raws, next) =>
          match or_internal "failed to unmarshal dynamo item to an AlertOutputItem: " (unmarshal_list raws) with
          | Bad e => Some (Bad e)
          | Good items =>
              match next with
              | None => Some (Good (acc ++ items))
              | Some _ => scan_outputs fuel d next (acc ++ items)
              end
          end
      end
  end.

Definition table_GetOutputs (fuel : nat) (d : D) : option (api (list AlertOutputItem)) := scan_outputs fuel d None [].

Definition table_GetOutput (d : D) (outputID : string) : api AlertOutputItem :=
  raw ← or_aws "dynamodb.GetItem" (GetItem d outputID);
  match raw with
  | None => Bad (failure DoesNotExistError ("outputId=" +:+ outputID))
  | Some raw => or_internal "failed to unmarshal dynamo item to an AlertOutputItem: " (Unmarshal raw)
  end.

Definition PutOutput (d : D) (output : AlertOutputItem) : D * option apiErr :=
  match MarshalItemErr output with
  | Some e => (d, Some (failure InternalError ("failed to marshal AlertOutput to a dynamo item: " +:+ errText e)))
  | None =>
      match PutItem d output with
      | (d, None) => (d, None)
      | (d, Some e) =>
          (d, Some (if conditional e then failure DoesNotExistError ("outputId" +:+ default "" (aiOutputID output))
                    else aws_failure "dynamodb.PutItem" e))
      end
  end.

Definition table_UpdateOutput (d : D) (item : AlertOutputItem) : D * api AlertOutputItem :=
  match BuildErr with
  | Some e => (d, Bad (failure InternalError ("failed to build expression " +:+ errText e)))
  | None =>
      match UpdateItem d item with
      | (d, Err e) =>
          (d, Bad (if conditional e then failure DoesNotExistError ("outputId=" +:+ default "" (aiOutputID item))
                   else aws_failure "dynamodb.UpdateItem" e))
      | (d, Ok raw) => (d, or_internal "failed to unmarshal dynamo item to an AlertOutputItem: " (Unmarshal raw))
      end
  end.

Definition table_DeleteOutput (d : D) (outputID : string) : D * option apiErr :=
  match BuildErr with
  | Some e => (d, Some (failure InternalError ("failed to build expression " +:+ errText e)))
  | None =>
      match DeleteItem d outputID with
      | (d, None) => (d, None)
      | (d, Some e) =>
          (d, Some (if conditional e then failure DoesNotExistError ("outputId=" +:+ outputID +:+ " does not exist")
                    else aws_failure "dynamodb.DeleteItem" e))
      end
  end.

(** ** The handlers; [n] counts the readings of the clock *)

Context (NewUUID : nat → string) (now : nat → string).

Definition name_taken (displayName : string) : apiErr :=
  failure AlreadyExistsError ("A destination with the name" +:+ displayName +:+
    " already exists, please choose another display name").

Definition new_output (n : nat) (input : AddOutputInput) (outputType : string) : StoredOutput :=
  {| soAudit := {| oaCreatedBy := Some (adUserID input); oaCreationTime := Some (now n);
                   oaLastModifiedBy := Some (adUserID input); oaLastModifiedTime := Some (now (S n)) |};
     soOutput := {| DisplayName := Some (adDisplayName input); OutputID := Some (NewUUID n);
                    OutputType := Some outputType; outputConfig := Some (adOutputConfig input);
                    DefaultForSeverity := adDefaultForSeverity input |} |}.

(** the check of the name, against the table when it is read *)
Definition add_check (d : D) (input : AddOutputInput) : api unit :=
  item ← GetOutputByName d (adDisplayName input);
  match item with Some _ => Bad (name_taken (adDisplayName input)) | None => Good tt end.

(** the rest *)
Definition add_commit (d : D) (n : nat) (input : AddOutputInput) : D * api StoredOutput :=
  match getOutputType (adOutputConfig input) with
  | Err e => (d, Bad (failure InvalidInputError (errText e)))
  | Ok outputType =>
      let output := new_output n input outputType in
      match AlertOutputToItem output (adOutputConfig input) with
      | Bad e => (d, Bad e)
      | Good item =>
          match PutOutput d item with
          | (d, Some e) => (d, Bad e)
          | (d, None) => (d, Good output)
          end
      end
  end.

Definition AddOutput (d : D) (n : nat) (input : AddOutputInput) : D * api StoredOutput :=
  match add_check d input with Bad e => (d, Bad e) | Good _ => add_commit d n input end.

Definition DeleteOutput (d : D) (outputID : string) : D * option apiErr := table_DeleteOutput d outputID.

Definition GetOutput (d : D) (outputID : string) : api StoredOutput :=
  item ← table_GetOutput d outputID; ItemToAlertOutput item.

Fixpoint convert_items (items : list AlertOutputItem) : api (list StoredOutput) :=
  match items with
  | [] => Good []
  | item :: items => o ← ItemToAlertOutput item; os ← convert_items items; Good (o :: os)
  end.

Definition GetOutputs (fuel : nat) (d : D) : option (api (list StoredOutput)) :=
  match table_GetOutputs fuel d with
  | None => None
  | Some r => Some (items ← r; convert_items items)
  end.

(** the pointers to identifiers that are compared *)
Definition other_id (item : AlertOutputItem) (outputID : string) : outcome bool :=
  id ← deref (aiOutputID item); Ret (bool_decide (id ≠ outputID)).

Definition changed_output (n : nat) (input : UpdateOutputInput) (outputType : string) : StoredOutput :=
  {| soAudit := {| oaCreatedBy := None; oaCreationTime := None; oaLastModifiedBy := Some (uoUserID input);
                   oaLastModifiedTime := Some (now n) |};
     soOutput := {| DisplayName := Some (uoDisplayName input); OutputID := Some (uoOutputID input);
                    OutputType := Some outputType; outputConfig := Some (uoOutputConfig input);
                    DefaultForSeverity := uoDefaultForSeverity input |} |}.

Definition update_commit (d : D) (n : nat) (input : UpdateOutputInput) : D * api StoredOutput :=
  match getOutputType (uoOutputConfig input) with
  | Err e => (d, Bad (PlainError true e))
  | Ok outputType =>
      match AlertOutputToItem (changed_output n input outputType) (uoOutputConfig input) with
      | Bad e => (d, Bad e)
      | Good item =>
          let '(d, r) := table_UpdateOutput d item in
          (d, item ← r; ItemToAlertOutput item)
      end
  end.

Definition UpdateOutput (d : D) (n : nat) (input : UpdateOutputInput) : outcome (D * api StoredOutput) :=
  match GetOutputByName d (uoDisplayName input) with
  | Bad e => Ret (d, Bad e)
  | Good None => Ret (update_commit d n input)
  | Good (Some existing) =>
      other ← other_id existing (uoOutputID input);
      Ret (if (other : bool) then (d, Bad (name_taken (uoDisplayName input))) else update_commit d n input)
  end.
End Outputs.
