(* ===== verification/OutputsApiSpec.v ===== *)
(** * Outputs API: what it promises

    Names stay unique, what is added can be read back with its credentials,
    the scan of the table ends with all of it, and the log shows credentials. *)

From S2P Require Import Prelude AlertOutputs Sqsbatch GatewayApi GenericApi OutputsApi.

(** ** The table *)

Definition same_name (name : string) (i : AlertOutputItem) : Prop := aiDisplayName i = Some name.

(** what an update leaves: who created it, and everything else new *)
Definition merged (old new : AlertOutputItem) : AlertOutputItem :=
  {| aiAudit := {| oaCreatedBy := oaCreatedBy (aiAudit old); oaCreationTime := oaCreationTime (aiAudit old);
                   oaLastModifiedBy := oaLastModifiedBy (aiAudit new);
                   oaLastModifiedTime := oaLastModifiedTime (aiAudit new) |};
     aiDisplayName := aiDisplayName new; aiEncryptedConfig := aiEncryptedConfig new; aiOutputID := aiOutputID old;
     aiOutputType := aiOutputType new; aiDefaultForSeverity := aiDefaultForSeverity new |}.

(** a new item is written with its severities as a set of strings, which keeps
    no order *)
Definition with_severities (sev : list (option string)) (i : AlertOutputItem) : AlertOutputItem :=
  {| aiAudit := aiAudit i; aiDisplayName := aiDisplayName i; aiEncryptedConfig := aiEncryptedConfig i;
     aiOutputID := aiOutputID i; aiOutputType := aiOutputType i; aiDefaultForSeverity := sev |}.
Definition as_set (i i' : AlertOutputItem) : Prop :=
  ∃ sev, sev ≡ₚ aiDefaultForSeverity i ∧ i' = with_severities sev i.

(** What is relied on: items by identifier, conditional writes, reads that are
    eventually consistent, so that queries of the index, reads and scans show
    the items once the table is settled, and scans that go through what they
    see in some order and evaluate at least one item per page that is not the
    last.  A call that fails without a verdict on its condition may have been
    carried out. *)
Class OutputTable {D Raw Key : Type} (items : D → gmap string AlertOutputItem) (settled : D → Prop)
    (Query : D → string → result (list Raw)) (Unmarshal : Raw → result AlertOutputItem)
    (Scan : D → option Key → result (list Raw * option Key)) (GetItem : D → string → result (option Raw))
    (PutItem : D → AlertOutputItem → D * option error) (UpdateItem : D → AlertOutputItem → D * result Raw)
    (DeleteItem : D → string → D * option error) (order : D → list AlertOutputItem)
    (pos : D → option Key → nat) : Prop := {
  item_key : ∀ d id i, items d !! id = Some i → aiOutputID i = Some id;
  query_found : ∀ d name raw raws, settled d → Query d name = Ok (raw :: raws) →
    ∃ id i, Unmarshal raw = Ok i ∧ items d !! id = Some i ∧ same_name name i;
  query_none : ∀ d name, settled d → Query d name = Ok [] → ∀ id i, items d !! id = Some i → ¬ same_name name i;
  get_item : ∀ d id r, settled d → GetItem d id = Ok r →
    match r with Some raw => ∃ i, Unmarshal raw = Ok i ∧ items d !! id = Some i | None => items d !! id = None end;
  put_item : ∀ d i id d' err, aiOutputID i = Some id → PutItem d i = (d', err) →
    (err ≠ None ∧ items d' = items d) ∨
    (match err with Some e => conditional e = false | None => True end ∧ items d !! id = None ∧
     ∃ i', as_set i i' ∧ items d' = <[id := i']> (items d));
  update_item : ∀ d i id d' r, aiOutputID i = Some id → UpdateItem d i = (d', r) →
    match r with
    | Ok raw => ∃ old, items d !! id = Some old ∧ Unmarshal raw = Ok (merged old i) ∧
                  items d' = <[id := merged old i]> (items d)
    | Err e => items d' = items d ∨
                 (conditional e = false ∧ ∃ old, items d !! id = Some old ∧ items d' = <[id := merged old i]> (items d))
    end;
  delete_item : ∀ d id d' err, DeleteItem d id = (d', err) → items d' = items d ∨ items d' = delete id (items d);
  scan_order : ∀ d, settled d → order d ≡ₚ (map_to_list (items d)).*2;
  scan_start : ∀ d, pos d None = 0%nat;
  scan_page : ∀ d k raws next, Scan d k = Ok (raws, next) →
    ∃ n, unmarshal_list Unmarshal raws = Ok (take n (drop (pos d k) (order d))) ∧
      match next with
      | None => (length (order d) ≤ pos d k + n)%nat
      | Some _ => (0 < n)%nat ∧ pos d next = (pos d k + n)%nat ∧ (pos d next ≤ length (order d))%nat
      end
}.

Definition unique_names (m : gmap string AlertOutputItem) : Prop :=
  ∀ id id' i i', m !! id = Some i → m !! id' = Some i' → aiDisplayName i = aiDisplayName i' → id = id'.

Lemma unique_names_insert m id i :
  unique_names m → (∀ id' i', m !! id' = Some i' → id' ≠ id → aiDisplayName i' ≠ aiDisplayName i) →
  unique_names (<[id := i]> m).
Proof.
  intros Hu Hfree a b x y Ha Hb Hn.
  apply lookup_insert_Some in Ha as [[<- <-]|[Hna Ha]], Hb as [[<- <-]|[Hnb Hb]]; [done| | |by eapply Hu].
  - exfalso. by eapply Hfree; eauto.
  - exfalso. by eapply Hfree; eauto.
Qed.

Lemma unique_names_delete m id : unique_names m → unique_names (delete id m).
Proof. intros Hu a b x y [_ Ha]%lookup_delete_Some [_ Hb]%lookup_delete_Some. by eapply Hu. Qed.

Section Spec.
Context (MarshalConfig : OutputConfig → result string) (UnmarshalConfig : string → result OutputConfig).
Context (Encrypt Decrypt : string → result string).
Context {D Raw Key : Type} (items : D → gmap string AlertOutputItem) (settled : D → Prop)
  (BuildErr : option error).
Context (Query : D → string → result (list Raw)) (Unmarshal : Raw → result AlertOutputItem).
Context (Scan : D → option Key → result (list Raw * option Key)) (GetItem : D → string → result (option Raw)).
Context (MarshalItemErr : AlertOutputItem → option error) (PutItem : D → AlertOutputItem → D * option error).
Context (UpdateItem : D → AlertOutputItem → D * result Raw) (DeleteItem : D → string → D * option error).
Context (order : D → list AlertOutputItem) (pos : D → option Key → nat).
Context {table : OutputTable items settled Query Unmarshal Scan GetItem PutItem UpdateItem DeleteItem order pos}.
Context (NewUUID : nat → string) (now : nat → string).

Notation AddOutput' := (AddOutput MarshalConfig Encrypt BuildErr Query Unmarshal MarshalItemErr PutItem NewUUID now).
Notation UpdateOutput' := (UpdateOutput MarshalConfig UnmarshalConfig Encrypt Decrypt BuildErr Query Unmarshal
  UpdateItem now).
Notation DeleteOutput' := (DeleteOutput BuildErr DeleteItem).
Notation GetOutput' := (GetOutput UnmarshalConfig Decrypt Unmarshal GetItem).
Notation by_name := (GetOutputByName BuildErr Query Unmarshal).

Lemma by_name_spec d name r : settled d → by_name d name = Good r →
  match r with
  | Some i => ∃ id, items d !! id = Some i ∧ same_name name i
  | None => ∀ id i, items d !! id = Some i → ¬ same_name name i
  end.
Proof.
  intros Hset. unfold GetOutputByName, built. destruct BuildErr; [done|].
  destruct (Query d name) as [[|raw raws]|] eqn:Eq; cbn; [| |done].
  - intros [= <-]. by apply query_none.
  - destruct (query_found _ _ _ _ Hset Eq) as (id&i&Hu&Hi&Hn). rewrite Hu. cbn. intros [= <-]. eauto.
Qed.

(** a write of an item is the insertion, or nothing *)
Lemma PutOutput_spec d i id d' err : aiOutputID i = Some id → PutOutput MarshalItemErr PutItem d i = (d', err) →
  (err ≠ None ∧ items d' = items d) ∨ (items d !! id = None ∧ ∃ i', as_set i i' ∧ items d' = <[id := i']> (items d)).
Proof.
  intros Hid. unfold PutOutput. destruct (MarshalItemErr i); [intros [= <- <-]; by left|].
  destruct (PutItem d i) as [d1 e1] eqn:Ep. destruct (put_item _ _ _ _ _ Hid Ep) as [[He Hd]|(_&Hn&Hd)];
    destruct e1; intros [= <- <-]; auto; left; auto.
Qed.

Lemma item_of_output o c item : AlertOutputToItem MarshalConfig Encrypt o c = Good item →
  aiDisplayName item = DisplayName (soOutput o) ∧ aiOutputID item = OutputID (soOutput o).
Proof.
  unfold AlertOutputToItem. destruct (EncryptConfig _ _ _); cbn; [|done]. by intros [= <-].
Qed.

Lemma add_commit_unique d n input :
  unique_names (items d) → (∀ id i, items d !! id = Some i → ¬ same_name (adDisplayName input) i) →
  unique_names (items (add_commit MarshalConfig Encrypt MarshalItemErr PutItem NewUUID now d n input).1).
Proof.
  intros Hu Hfree. unfold add_commit. destruct (getOutputType _) as [ty|]; [|done].
  destruct (AlertOutputToItem _ _ _ _) as [item|] eqn:Ei; [|done]. apply item_of_output in Ei as [Hname Hid]. cbn in *.
  destruct (PutOutput _ _ d item) as [d' err] eqn:Ep.
  destruct (PutOutput_spec _ _ _ _ _ Hid Ep) as [[_ Hd]|(Hnone&i1&(sev&_&->)&Hd)]; destruct err; cbn; rewrite Hd; try done;
    (apply unique_names_insert; [done|]; intros id' i' Hi' _ Heq; apply (Hfree id' i' Hi'); unfold same_name; cbn in Heq; congruence).
Qed.

Lemma update_commit_unique d n input :
  unique_names (items d) →
  (∀ id i, items d !! id = Some i → same_name (uoDisplayName input) i → id = uoOutputID input) →
  unique_names (items (update_commit MarshalConfig UnmarshalConfig Encrypt Decrypt BuildErr Unmarshal UpdateItem now
                         d n input).1).
Proof.
  intros Hu Hfree. unfold update_commit. destruct (getOutputType _) as [ty|]; [|done].
  destruct (AlertOutputToItem _ _ _ _) as [item|] eqn:Ei; [|done]. apply item_of_output in Ei as [Hname Hid].
  cbn [soOutput changed_output DisplayName OutputID] in *.
  assert (∀ old, unique_names (<[uoOutputID input := merged old item]> (items d))) as Hins.
  { intros old. apply unique_names_insert; [done|]. intros id' i' Hi' Hne Heq. apply Hne.
    apply (Hfree id' i' Hi'). unfold same_name. cbn in Heq. congruence. }
  unfold table_UpdateOutput. destruct BuildErr; [done|].
  destruct (UpdateItem d item) as [d' r] eqn:Eu. pose proof (update_item _ _ _ _ _ Hid Eu) as H.
  destruct r as [raw|e]; cbn.
  - destruct H as (old&_&_&->). apply Hins.
  - destruct H as [->|(_&old&_&->)]; [done|apply Hins].
Qed.

(** one request after the other, the changes of names once the table settled *)
Inductive request_step : D → D → Prop :=
| step_add d n input : settled d → request_step d (AddOutput' d n input).1
| step_update d n input d' r : settled d → UpdateOutput' d n input = Ret (d', r) → request_step d d'
| step_delete d id : request_step d (DeleteOutput' d id).1
| step_settle d d' : items d' = items d → request_step d d'.

Lemma request_step_unique d d' : request_step d d' → unique_names (items d) → unique_names (items d').
Proof.
  intros Hs Hu. destruct Hs as [d n input Hset|d n input d' r Hset Hup|d id|d d' ->]; [| | |done].
  - unfold AddOutput, add_check. destruct (by_name d (adDisplayName input)) as [[i|]|] eqn:Eb; [done| |done].
    cbn. apply add_commit_unique; [done|]. by apply (by_name_spec _ _ None Hset).
  - unfold UpdateOutput in Hup. destruct (by_name d (uoDisplayName input)) as [[i|]|e] eqn:Eb.
    + destruct (by_name_spec _ _ _ Hset Eb) as (id&Hi&Hn). unfold other_id in Hup. rewrite (item_key _ _ _ Hi) in Hup.
      cbn [deref] in Hup. revert Hup. run. case_bool_decide as Hid; [by intros [= <- _]|].
      subst id. intros [= Hup].
      replace d' with (update_commit MarshalConfig UnmarshalConfig Encrypt Decrypt BuildErr Unmarshal UpdateItem now
        d n input).1 by by rewrite Hup. apply update_commit_unique; [done|].
      intros id i' Hi' Hn'. eapply Hu; [done|done|]. unfold same_name in *. congruence.
    + injection Hup as Hup.
      replace d' with (update_commit MarshalConfig UnmarshalConfig Encrypt Decrypt BuildErr Unmarshal UpdateItem now
        d n input).1 by by rewrite Hup. apply update_commit_unique; [done|].
      intros id i' Hi' Hn'. exfalso. by eapply (by_name_spec _ _ _ Hset Eb).
    + by injection Hup as <- _.
  - unfold DeleteOutput, table_DeleteOutput. destruct BuildErr; [done|].
    destruct (DeleteItem d id) as [d' err] eqn:Ed. apply delete_item in Ed.
    destruct err; cbn; destruct Ed as [->| ->]; try done; by apply unique_names_delete.
Qed.

(** C29: no two outputs have the same name.  Whatever requests are handled, one
    after the other, and whichever of their calls fail, with or without
    effect, names that are unique stay unique, as long as additions and updates
    read an index that has caught up with the writes before them. *)
Theorem output_names_unique d d' :
  unique_names (items d) → rtc request_step d d' → unique_names (items d').
Proof. intros Hu Hs. induction Hs as [|d d1 d2 Hs _ IH]; [done|]. apply IH. by eapply request_step_unique. Qed.

(** a successful addition *)
Lemma add_commit_success d n input d' o :
  add_commit MarshalConfig Encrypt MarshalItemErr PutItem NewUUID now d n input = (d', Good o) →
  ∃ ty item item', getOutputType (adOutputConfig input) = Ok ty ∧ o = new_output NewUUID now n input ty ∧
    AlertOutputToItem MarshalConfig Encrypt o (adOutputConfig input) = Good item ∧ as_set item item' ∧
    items d !! NewUUID n = None ∧ items d' = <[NewUUID n := item']> (items d).
Proof.
  unfold add_commit. destruct (getOutputType _) as [ty|]; [|done].
  destruct (AlertOutputToItem _ _ _ _) as [item|] eqn:Ei; [|done].
  destruct (PutOutput _ _ d item) as [d1 [e|]] eqn:Ep; [done|]. intros [= <- <-].
  destruct (item_of_output _ _ _ Ei) as [_ Hid]. cbn in Hid.
  destruct (PutOutput_spec _ _ _ _ _ Hid Ep) as [[? _]|(Hn&i1&Hi1&Hd)]; [done|]. eauto 10.
Qed.

(** Two additions of the same name at the same time both succeed: the check of
    the name and the write are separate calls. *)
Theorem concurrent_adds_share_name d d1 d2 n1 n2 a b oa ob :
  adDisplayName a = adDisplayName b →
  add_check BuildErr Query Unmarshal d a = Good tt → add_check BuildErr Query Unmarshal d b = Good tt →
  add_commit MarshalConfig Encrypt MarshalItemErr PutItem NewUUID now d n1 a = (d1, Good oa) →
  add_commit MarshalConfig Encrypt MarshalItemErr PutItem NewUUID now d1 n2 b = (d2, Good ob) →
  ¬ unique_names (items d2).
Proof.
  intros Hname _ _ Ha Hb Hu.
  destruct (add_commit_success _ _ _ _ _ Ha) as (ta&ia&ia'&_&->&Hia&(sa&_&->)&_&Hd1).
  destruct (add_commit_success _ _ _ _ _ Hb) as (tb&ib&ib'&_&->&Hib&(sb&_&->)&Hnone&Hd2).
  assert (NewUUID n1 ≠ NewUUID n2) as Hne.
  { intros Heq. by rewrite Hd1, <-Heq, lookup_insert_eq in Hnone. }
  apply Hne, (Hu _ _ (with_severities sa ia) (with_severities sb ib)).
  - rewrite Hd2, lookup_insert_ne by done. by rewrite Hd1, lookup_insert_eq.
  - by rewrite Hd2, lookup_insert_eq.
  - cbn. destruct (item_of_output _ _ _ Hia) as [-> _], (item_of_output _ _ _ Hib) as [-> _]. cbn. by rewrite Hname.
Qed.

(** *** Reading back *)

Class Encryption : Prop := {
  kms_roundtrip : ∀ s c, Encrypt s = Ok c → Decrypt c = Ok s;
  config_json : ∀ c s, MarshalConfig c = Ok s → UnmarshalConfig s = Ok c
}.

(** an output with its severities listed differently *)
Definition relisted (sev : list (option string)) (o : StoredOutput) : StoredOutput :=
  {| soAudit := soAudit o;
     soOutput := {| DisplayName := DisplayName (soOutput o); OutputID := OutputID (soOutput o);
                    OutputType := OutputType (soOutput o); outputConfig := outputConfig (soOutput o);
                    DefaultForSeverity := sev |} |}.

Lemma item_roundtrip `{Encryption} o c item sev :
  AlertOutputToItem MarshalConfig Encrypt o c = Good item → outputConfig (soOutput o) = Some c →
  aiDefaultForSeverity item = DefaultForSeverity (soOutput o) ∧
  ItemToAlertOutput UnmarshalConfig Decrypt (with_severities sev item) = Good (relisted sev o).
Proof.
  unfold AlertOutputToItem, EncryptConfig. destruct (MarshalConfig c) as [s|] eqn:Em; cbn; [|done].
  destruct (Encrypt s) as [x|] eqn:Ee; cbn; [|done]. intros [= <-] Hc.
  unfold ItemToAlertOutput, DecryptConfig. cbn. rewrite (kms_roundtrip _ _ Ee). cbn.
  rewrite (config_json _ _ Em). cbn. unfold relisted. by rewrite <-Hc.
Qed.

(** what is added can be read back.  After AddOutput succeeded with an
    output, GetOutput, once the write is visible to it, returns that output
    under its new identifier, with the decrypted configuration as it was given
    and the same severities, perhaps in another order, and every other item of
    the table is unchanged; the stored item holds the configuration only encrypted. *)
Theorem add_output_roundtrip `{Encryption} d n input d' o later r :
  AddOutput' d n input = (d', Good o) → items later = items d' → settled later → GetItem later (NewUUID n) = Ok r →
  (∃ sev, sev ≡ₚ adDefaultForSeverity input ∧ GetOutput' later (NewUUID n) = Good (relisted sev o)) ∧
  outputConfig (soOutput o) = Some (adOutputConfig input) ∧
  OutputID (soOutput o) = Some (NewUUID n) ∧
  (∀ id, id ≠ NewUUID n → items d' !! id = items d !! id) ∧
  (∃ item text, items d' !! NewUUID n = Some item ∧ MarshalConfig (adOutputConfig input) = Ok text ∧
     Encrypt text = Ok (aiEncryptedConfig item)).
Proof.
  unfold AddOutput. destruct (add_check _ _ _ d input); [|done]. intros Ha Hl Hset Hget.
  destruct (add_commit_success _ _ _ _ _ Ha) as (ty&item&item'&_&->&Hi&(sev&Hsev&->)&_&Hd).
  assert (items d' !! NewUUID n = Some (with_severities sev item)) as Hin by by rewrite Hd, lookup_insert_eq.
  split_and!; [|done|done| |].
  - destruct (item_roundtrip _ _ _ sev Hi eq_refl) as [Hs Hr']. exists sev. split; [by rewrite Hsev, Hs|].
    unfold GetOutput, table_GetOutput. rewrite Hget. cbn. pose proof (get_item _ _ _ Hset Hget) as Hr.
    destruct r as [raw|]; [|congruence]. destruct Hr as (i&Hu&Hi'). rewrite Hu. cbn.
    by assert (i = with_severities sev item) as -> by congruence.
  - intros id Hid. by rewrite Hd, lookup_insert_ne.
  - exists (with_severities sev item). unfold AlertOutputToItem, EncryptConfig in Hi.
    destruct (MarshalConfig (adOutputConfig input)) as [s|] eqn:Em; cbn in Hi; [|done].
    destruct (Encrypt s) as [x|] eqn:Ee; cbn in Hi; [|done]. exists s. injection Hi as <-. done.
Qed.

(** *** The scan *)

Lemma scan_outputs_spec d fuel k acc :
  (length (order d) - pos d k < fuel)%nat →
  ∃ r, scan_outputs Unmarshal Scan fuel d k acc = Some r ∧
    match r with Good l => l = acc ++ drop (pos d k) (order d) | Bad _ => True end.
Proof.
  revert k acc. induction fuel as [|fuel IH]; intros k acc Hf; [lia|]. cbn.
  destruct (Scan d k) as [[raws next]|e] eqn:Es; [|by eexists].
  destruct (scan_page _ _ _ _ Es) as (n&Hu&Hn). rewrite Hu. cbn. destruct next as [k'|].
  - destruct Hn as (Hpos&Hp&Hle). destruct (IH (Some k') (acc ++ take n (drop (pos d k) (order d)))) as (r&Hr&Hl); [lia|].
    exists r. split; [done|]. destruct r as [l|]; [|done]. rewrite Hl, Hp, <-(assoc_L (++)). f_equal.
    rewrite <-drop_drop. by rewrite take_drop.
  - eexists. split; [done|]. cbn. f_equal. apply take_ge. rewrite length_drop. lia.
Qed.

(** reading all outputs ends.  The loop over the pages of a scan returns
    after at most one call more than there are items in view, and when no call
    failed the result is all of them, which for a settled table are its items,
    each once. *)
Theorem get_outputs_terminates d fuel :
  (length (order d) < fuel)%nat →
  ∃ r, table_GetOutputs Unmarshal Scan fuel d = Some r ∧
    match r with Good l => l = order d ∧ (settled d → l ≡ₚ (map_to_list (items d)).*2) | Bad _ => True end.
Proof.
  intros Hf. destruct (scan_outputs_spec d fuel None []) as (r&Hr&Hl); [rewrite (scan_start d); lia|].
  exists r. split; [exact Hr|]. destruct r as [l|]; [|done].
  rewrite (scan_start d), drop_0 in Hl. cbn in Hl. subst l. split; [done|exact (scan_order d)].
Qed.
End Spec.

(** ** Configurations and their types *)

(** the configuration that delivery uses for a type of output *)
Definition has_config (ty : string) (c : OutputConfig) : bool :=
  if decide (ty = "slack") then bool_decide (is_Some (cSlack c))
  else if decide (ty = "pagerduty") then bool_decide (is_Some (cPagerDuty c))
  else if decide (ty = "github") then bool_decide (is_Some (cGithub c))
  else if decide (ty = "jira") then bool_decide (is_Some (cJira c))
  else if decide (ty = "opsgenie") then bool_decide (is_Some (cOpsgenie c))
  else if decide (ty = "msteams") then bool_decide (is_Some (cMsTeams c))
  else if decide (ty = "sns") then bool_decide (is_Some (cSns c))
  else if decide (ty = "sqs") then bool_decide (is_Some (cSqs c))
  else if decide (ty = "asana") then bool_decide (is_Some (cAsana c)) else false.

(** a stored output has the configuration that its type asks for, and a valid
    request always has a type *)
Lemma getOutputType_config c :
  (∀ ty, getOutputType c = Ok ty → has_config ty c = true) ∧
  (ensureOneOutput c = true → ∃ ty, getOutputType c = Ok ty).
Proof.
  destruct c as [[] [] [] [] [] [] [] [] []]; cbn -[ensureOneOutput];
    (split; [intros ty [= <-]; done|]); intros H; first [eexists; reflexivity|done].
Qed.

(** ** The log shows credentials *)

Definition tagged (name json : string) : structField :=
  {| sfName := name; sfExported := true; sfAnonymous := false; sfJSON := json; sfGeneric := "" |}.

Definition str_field (name json text : string) : structField * value :=
  (tagged name json, GPtr (Some (GPrim (PString text)))).

(** AddOutputInput for a Slack output, with the tags of the models *)
Definition slack_request (user name url : string) : value :=
  GPtr (Some (GStruct
    [str_field "UserID" "userId" user; str_field "DisplayName" "displayName" name;
     (tagged "OutputConfig" "outputConfig", GPtr (Some (GStruct
        ((tagged "Slack" "slack,omitempty", GPtr (Some (GStruct [str_field "WebhookURL" "webhookURL" url]))) ::
         ((λ '(f, j), (tagged f j, GPtr None)) <$>
            [("Sns", "sns,omitempty"); ("PagerDuty", "pagerDuty,omitempty"); ("Github", "github,omitempty");
             ("Jira", "jira,omitempty"); ("Opsgenie", "opsgenie,omitempty"); ("MsTeams", "msTeams,omitempty");
             ("Sqs", "sqs,omitempty"); ("Asana", "asana,omitempty")])))));
     (tagged "DefaultForSeverity" "defaultForSeverity", GSlice None)])).

(** The configuration is not tagged for redaction: what the router logs
    determines the secret URL. *)
Theorem credentials_logged user name url url' :
  redactedInput fresh (slack_request user name url) = redactedInput fresh (slack_request user name url') → url = url'.
Proof. vm_compute. congruence. Qed.

(** ** A concrete table *)

Module Demo.
Notation DB := (gmap string AlertOutputItem).
Notation page_key := nat.
Definition named (name : string) (i : AlertOutputItem) : bool := bool_decide (aiDisplayName i = Some name).
Definition order (d : DB) : list AlertOutputItem := (map_to_list d).*2.
Definition key_of (i : AlertOutputItem) : string := default "" (aiOutputID i).

(** a table with its laws: items under their identifiers *)
Definition DBok := { d : DB | bool_decide (map_Forall (λ id i, aiOutputID i = Some id) d) = true }.
Definition items (d : DBok) : DB := `d.

Lemma ok_insert (d : DBok) i id : aiOutputID i = Some id →
  bool_decide (map_Forall (λ id i, aiOutputID i = Some id) (<[id := i]> (items d))) = true.
Proof.
  destruct d as [d Hd]. cbn. intros Hi. apply bool_decide_eq_true in Hd. apply bool_decide_eq_true.
  by apply map_Forall_insert_2.
Qed.
Lemma ok_delete (d : DBok) id :
  bool_decide (map_Forall (λ id i, aiOutputID i = Some id) (delete id (items d))) = true.
Proof.
  destruct d as [d Hd]. cbn. apply bool_decide_eq_true in Hd. apply bool_decide_eq_true. by apply map_Forall_delete.
Qed.
Lemma ok_empty : bool_decide (map_Forall (λ id i, aiOutputID i = Some id) (∅ : DB)) = true.
Proof. by vm_compute. Qed.
Definition empty : DBok := exist _ ∅ ok_empty.

Definition write (d : DBok) (i : AlertOutputItem) : DBok :=
  match aiOutputID i as o return aiOutputID i = o → DBok with
  | Some id => λ H, exist _ (<[id := i]> (items d)) (ok_insert d i id H)
  | None => λ _, d
  end eq_refl.

Lemma items_write d i id : aiOutputID i = Some id → items (write d i) = <[id := i]> (items d).
Proof.
  intros H. unfold write. generalize (eq_refl (aiOutputID i)).
  generalize (aiOutputID i) at 2 3. intros o e. destruct o; [|congruence]. cbn. congruence.
Qed.

Definition Query (d : DBok) (name : string) : result (list AlertOutputItem) :=
  Ok (filter (λ i, named name i = true) (order (items d))).
Definition GetItem (d : DBok) (id : string) : result (option AlertOutputItem) := Ok (items d !! id).
Definition failed_condition : error := ErrAWS ConditionalCheckFailed "condition".
Definition PutItem (d : DBok) (i : AlertOutputItem) : DBok * option error :=
  match items d !! key_of i with Some _ => (d, Some failed_condition) | None => (write d i, None) end.
Definition UpdateItem (d : DBok) (i : AlertOutputItem) : DBok * result AlertOutputItem :=
  match items d !! key_of i with
  | None => (d, Err failed_condition)
  | Some old => (write d (merged old i), Ok (merged old i))
  end.
Definition DeleteItem (d : DBok) (id : string) : DBok * option error :=
  (exist _ (delete id (items d)) (ok_delete d id), None).
(** pages of one item *)
Definition Scan (d : DBok) (k : option page_key) : result (list AlertOutputItem * option page_key) :=
  let p := default 0%nat k in
  let l := order (items d) in
  Ok (take 1 (drop p l), if decide (S p < length l)%nat then Some (S p) else None).
Definition pos (d : DBok) (k : option page_key) : nat := default 0%nat k.

Lemma unmarshal_list_Ok l : unmarshal_list (Raw := AlertOutputItem) Ok l = Ok l.
Proof. induction l as [|i l IH]; [done|]. cbn. by rewrite IH. Qed.

Lemma in_order m i : i ∈ order m → ∃ id, m !! id = Some i.
Proof.
  unfold order. intros ((id&i')&->&H)%list_elem_of_fmap. exists id. by apply elem_of_map_to_list in H.
Qed.

Lemma item_id (d : DBok) id i : items d !! id = Some i → aiOutputID i = Some id.
Proof. destruct d as [d Hd]. cbn. apply bool_decide_eq_true in Hd. intros H. exact (Hd _ _ H). Qed.

#[export] Instance demo_table : OutputTable items (λ _, True) Query Ok Scan GetItem PutItem UpdateItem DeleteItem
  (λ d, order (items d)) pos.
Proof.
  constructor.
  - apply item_id.
  - unfold Query. intros d name raw raws _ [= Hf].
    assert (raw ∈ raw :: raws) as Hin by constructor. rewrite <-Hf in Hin.
    apply list_elem_of_filter in Hin as [Hn (id&Hi)%in_order]. exists id, raw. split_and!; [done|done|].
    by apply bool_decide_eq_true in Hn.
  - unfold Query. intros d name _ [= Hf] id i Hi Hn.
    assert (i ∈ filter (λ i, named name i = true) (order (items d))) as Hin; [|rewrite Hf in Hin; by apply not_elem_of_nil in Hin].
    apply list_elem_of_filter. split; [by apply bool_decide_eq_true|]. apply list_elem_of_fmap.
    exists (id, i). split; [done|]. by apply elem_of_map_to_list.
  - unfold GetItem. intros d id r _ [= <-]. destruct (items d !! id) eqn:E; eauto.
  - unfold PutItem, key_of. intros d i id d' err Hid. rewrite Hid. cbn. destruct (items d !! id) eqn:E.
    + intros [= <- <-]. by left.
    + intros [= <- <-]. right. split_and!; [done|done|]. exists i. split; [|by apply items_write].
      exists (aiDefaultForSeverity i). split; [done|]. by destruct i.
  - unfold UpdateItem, key_of. intros d i id d' r Hid. rewrite Hid. cbn. destruct (items d !! id) as [old|] eqn:E.
    + intros [= <- <-]. exists old. split_and!; [done|done|]. apply items_write. cbn. by apply (item_id d).
    + intros [= <- <-]. by left.
  - intros d id d' err [= <- <-]. by right.
  - done.
  - done.
  - unfold Scan, pos. intros d k raws next [= <- <-]. exists 1%nat. split; [apply unmarshal_list_Ok|].
    case_decide as H; [|lia]. cbn. split_and!; lia.
Qed.

Definition slack (url : string) : OutputConfig :=
  {| cSlack := Some {| slackWebhookURL := Some url |}; cSns := None; cPagerDuty := None; cGithub := None;
     cJira := None; cOpsgenie := None; cMsTeams := None; cSqs := None; cAsana := None |}.
(** an encoding of these configurations, and a cipher *)
Definition MarshalConfig (c : OutputConfig) : result string :=
  match c with
  | Build_OutputConfig (Some (Build_SlackConfig (Some url))) None None None None None None None None => Ok url
  | _ => Err (ErrMsg "unsupported")
  end.
Definition UnmarshalConfig (s : string) : result OutputConfig := Ok (slack s).
Definition Encrypt (s : string) : result string := Ok (String "#" s).
Definition Decrypt (s : string) : result string :=
  match s with String _ s => Ok s | EmptyString => Err (ErrMsg "empty") end.

#[export] Instance demo_encryption : Encryption MarshalConfig UnmarshalConfig Encrypt Decrypt.
Proof.
  constructor; [by intros s c [= <-]|].
  intros [[[[url|]]|] [] [] [] [] [] [] [] []] text; cbn; intros [= <-]; done.
Qed.

Definition NewUUID (n : nat) : string := "id" +:+ itoa (Z.of_nat n).
Definition now (n : nat) : string := itoa (Z.of_nat n).
Definition request : AddOutputInput :=
  {| adUserID := "u"; adDisplayName := "channel"; adOutputConfig := slack "https://hooks";
     adDefaultForSeverity := [Some "HIGH"] |}.

Notation add d n := (AddOutput MarshalConfig Encrypt None Query Ok (λ _, None) PutItem NewUUID now d n request).

(** the second request with the same name is refused *)
Lemma output_names_unique_witness :
  unique_names (items (add (add empty 0).1 1).1) ∧ size (items (add (add empty 0).1 1).1) = 1%nat.
Proof.
  split; [|vm_compute; reflexivity].
  apply (output_names_unique MarshalConfig UnmarshalConfig Encrypt Decrypt items (λ _, True) None Query Ok Scan GetItem
    (λ _, None) PutItem UpdateItem DeleteItem (λ d, order (items d)) pos NewUUID now empty).
  - intros id id' i i' H. discriminate H.
  - eapply rtc_l; [by apply step_add|]. apply rtc_once. by apply step_add.
Defined.

Lemma add_output_roundtrip_witness :
  ∃ sev o, GetOutput UnmarshalConfig Decrypt Ok GetItem (add empty 0).1 "id0" = Good (relisted sev o) ∧
    outputConfig (soOutput o) = Some (slack "https://hooks").
Proof.
  destruct (add_output_roundtrip MarshalConfig UnmarshalConfig Encrypt Decrypt items (λ _, True) None Query Ok Scan
    GetItem (λ _, None) PutItem UpdateItem DeleteItem (λ d, order (items d)) pos NewUUID now empty 0 request
    (add empty 0).1 (new_output NewUUID now 0 request "slack") (add empty 0).1 (items (add empty 0).1 !! "id0"))
    as ((sev&_&Hg)&Hc&_).
  - vm_compute. reflexivity.
  - reflexivity.
  - exact I.
  - reflexivity.
  - exists sev, (new_output NewUUID now 0 request "slack"). split; [exact Hg|exact Hc].
Defined.

Lemma get_outputs_terminates_witness :
  ∃ r, table_GetOutputs Ok Scan 2 (add empty 0).1 = Some r ∧ match r with Good l => length l = 1%nat | Bad _ => False end.
Proof.
  destruct (get_outputs_terminates items (λ _, True) Query Ok Scan GetItem PutItem UpdateItem DeleteItem
    (λ d, order (items d)) pos (add empty 0).1 2) as (r&Hr&Hl); [vm_compute; lia|].
  exists r. split; [exact Hr|]. vm_compute in Hr. injection Hr as <-. reflexivity.
Defined.
End Demo.
