(* ===== verification/SourceApi.v ===== *)
(** * Source API

    Model of src/internal/core/source_api: the sources (AWS accounts to scan
    and S3 buckets with logs) in a DynamoDB table, the policy of the queue that
    log sources notify, the health checks, and the templates that onboard an
    account.  DynamoDB, SQS, STS, S3, KMS and JSON are parameters. *)

From S2P Require Import Prelude Backoff AlertOutputs Sqsbatch GatewayApi GenericApi.

(** ** Data *)

Definition IntegrationTypeAWSScan : string := "aws-scan".
Definition IntegrationTypeAWS3 : string := "aws-s3".
Definition StatusScanning : string := "scanning".

(** models.SourceIntegrationMetadata; times are nanoseconds *)
Record SourceIntegrationMetadata := {
  smAWSAccountID : option string;
  smCreatedAtTime : option Z;
  smCreatedBy : option string;
  smIntegrationID : option string;
  smIntegrationLabel : option string;
  smIntegrationType : option string;
  smRemediationEnabled : option bool;
  smCWEEnabled : option bool;
  smScanIntervalMins : option Z;
  smS3Bucket : option string;
  smS3Prefix : option string;
  smKmsKey : option string;
  smLogTypes : option (list (option string));
  smLogProcessingRole : option string;
  smStackName : option string
}.

Record SourceIntegrationStatus := { ssScanStatus : option string; ssEventStatus : option string }.

Record SourceIntegrationScanInformation := {
  siLastScanEndTime : option Z; siLastScanErrorMessage : option string; siLastScanStartTime : option Z
}.

(** the embedded pointers *)
Record SourceIntegration := {
  siMetadata : option SourceIntegrationMetadata;
  siStatus : option SourceIntegrationStatus;
  siScan : option SourceIntegrationScanInformation
}.

Record CheckIntegrationInput := {
  ciAWSAccountID : option string;
  ciIntegrationType : option string;
  ciIntegrationLabel : option string;
  ciEnableCWESetup : option bool;
  ciEnableRemediation : option bool;
  ciS3Bucket : option string;
  ciS3Prefix : option string;
  ciKmsKey : option string
}.

(** what validation requires is not a pointer *)
Record PutIntegrationInput := {
  piAWSAccountID : string;
  piIntegrationLabel : string;
  piIntegrationType : string;
  piCWEEnabled : option bool;
  piRemediationEnabled : option bool;
  piScanIntervalMins : option Z;
  piUserID : string;
  piS3Bucket : option string;
  piS3Prefix : option string;
  piKmsKey : option string;
  piLogTypes : option (list (option string));
  piSkipScanQueue : option bool
}.

Record UpdateIntegrationSettingsInput := {
  usIntegrationID : string;
  usIntegrationLabel : string;
  usCWEEnabled : option bool;
  usRemediationEnabled : option bool;
  usScanIntervalMins : option Z;
  usS3Bucket : option string;
  usS3Prefix : option string;
  usKmsKey : option string;
  usLogTypes : option (list (option string))
}.

(** ddb.UpdateIntegrationItem *)
Record UpdateIntegrationItem := {
  uiRemediationEnabled : option bool;
  uiCWEEnabled : option bool;
  uiIntegrationID : string;
  uiIntegrationLabel : option string;
  uiIntegrationType : option string;
  uiLastScanEndTime : option Z;
  uiLastScanErrorMessage : option string;
  uiLastScanStartTime : option Z;
  uiScanStatus : option string;
  uiScanIntervalMins : option Z;
  uiS3Bucket : option string;
  uiS3Prefix : option string;
  uiKmsKey : option string;
  uiLogTypes : option (list (option string))
}.

Record SourceIntegrationItemStatus := { Healthy : option bool; ErrorMessage : option string }.

Record SourceIntegrationHealth := {
  shAWSAccountID : string;
  shIntegrationType : string;
  AuditRoleStatus : SourceIntegrationItemStatus;
  CWERoleStatus : SourceIntegrationItemStatus;
  RemediationRoleStatus : SourceIntegrationItemStatus;
  ProcessingRoleStatus : SourceIntegrationItemStatus;
  S3BucketStatus : SourceIntegrationItemStatus;
  KMSKeyStatus : SourceIntegrationItemStatus
}.

(** ** Names *)

Definition normalizedLabel (label : string) : string := to_lower (replace_byte " " "-" label).

Definition getStackName (integrationType label : string) : string :=
  if decide (integrationType = IntegrationTypeAWSScan) then "panther-cloudsec-setup"
  else "panther-log-analysis-setup-" +:+ normalizedLabel label.

Definition role_arn (account role suffix : string) : string :=
  "arn:aws:iam::" +:+ account +:+ ":role/" +:+ role +:+ "-" +:+ suffix.

Definition generateLogProcessingRoleArn (awsAccountID label : string) : string :=
  role_arn awsAccountID "PantherLogProcessingRole" (normalizedLabel label).

(** *** Validation (api/lambda/source/models/validator.go) *)

Definition label_byte (c : ascii) : bool :=
  let n := nat_of_ascii c in
  ((48 <=? n) && (n <=? 57) || (97 <=? n) && (n <=? 122) || (65 <=? n) && (n <=? 90) || (n =? 45) || (n =? 32))%nat.

(** the bytes of the regular expression include no other space than " ", so
    that TrimSpace leaves nothing exactly when there is nothing but " " *)
Definition validateIntegrationLabel (value : string) : bool :=
  negb (all_bytes (λ c, bool_decide (c = " "%char)) value) && (slen value <=? 32)%Z && all_bytes label_byte value.

(** [Parse] gives the service and the resource of an ARN *)
Definition validateKmsKeyArn (Parse : string → result (string * string)) (value : string) : bool :=
  match Parse value with
  | Err _ => false
  | Ok (service, resource) => negb (bool_decide (service ≠ "kms") || negb (has_prefix "key" resource))
  end.

(** ** The policy of the queue *)

Record SqsPolicyStatement := {
  SID : string; Effect : string; Principal : list (string * string); Action : string; Resource : string;
  Condition : option value
}.

Record SqsPolicy := { Version : string; Statements : list SqsPolicyStatement }.

Definition sid (accountID : string) : string := "PantherSubscriptionSID-" +:+ accountID.

(** [None] for -1 *)
Fixpoint statement_index (sid : string) (l : list SqsPolicyStatement) : option nat :=
  match l with
  | [] => None
  | s :: l => if decide (SID s = sid) then Some 0%nat else S <$> statement_index sid l
  end.
Definition findStatementIndex (policy : SqsPolicy) (accountID : string) : option nat :=
  statement_index (sid accountID) (Statements policy).

(** the last statement takes the place of the removed one *)
Definition remove_statement (i : nat) (l : list SqsPolicyStatement) : list SqsPolicyStatement :=
  match last l with Some x => take (length l - 1) (<[i := x]> l) | None => l end.

Section Source.
Context {W Raw : Type}.
(** the settings of the function *)
Context (logProcessorQueueArn region : string).
(** the queue of the log processor *)
Context (GetPolicy : W → result string) (SetPolicy : W → string → W * option error).
Context (MarshalPolicy : SqsPolicy → result string) (UnmarshalPolicy : string → result SqsPolicy).

Definition getQueuePolicy (w : W) : result (option SqsPolicy) :=
  attr ← GetPolicy w;
  if decide (attr = "") then Ok None else p ← UnmarshalPolicy attr; Ok (Some p).

Definition getStatementForAccount (accountID : string) : SqsPolicyStatement :=
  {| SID := sid accountID; Effect := "Allow"; Principal := [("AWS", "*")]; Action := "sqs:SendMessage";
     Resource := logProcessorQueueArn;
     Condition := Some (GMap (Some [(PString "ArnLike", GIface (Some (GMap (Some
       [(PString "aws:SourceArn", GPrim (PString ("arn:aws:sns:*:" +:+ accountID +:+ ":*")))]))))])) |}.

Definition setQueuePolicy (w : W) (policy : SqsPolicy) : W * option error :=
  match Statements policy with
  | [] => SetPolicy w ""
  | _ => match MarshalPolicy policy with Err e => (w, Some e) | Ok attr => SetPolicy w attr end
  end.

(** whether a permission was added; the policy is set twice, and the first
    error only logged *)
Definition AddPermissionToLogProcessorQueue (w : W) (accountID : string) : W * bool * option error :=
  match getQueuePolicy w with
  | Err e => (w, false, Some e)
  | Ok existing =>
      let existing := default {| Version := "2008-10-17"; Statements := [] |} existing in
      match findStatementIndex existing accountID with
      | Some _ => (w, false, None)
      | None =>
          let policy := {| Version := Version existing;
                           Statements := Statements existing ++ [getStatementForAccount accountID] |} in
          let '(w, _) := setQueuePolicy w policy in
          let '(w, err) := setQueuePolicy w policy in
          (w, true, err)
      end
  end.

Definition RemovePermissionFromLogProcessorQueue (w : W) (accountID : string) : W * option error :=
  match getQueuePolicy w with
  | Err e => (w, Some e)
  | Ok None => (w, None)
  | Ok (Some existing) =>
      match findStatementIndex existing accountID with
      | None => (w, None)
      | Some i => setQueuePolicy w {| Version := Version existing; Statements := remove_statement i (Statements existing) |}
      end
  end.

(** ** The table *)

Context (BuildErr : option error).
Context (Scan : W → option string → result (list Raw)) (GetItem : W → string → result (option Raw)).
Context (UnmarshalIntegration : Raw → result SourceIntegration).
Context (UnmarshalMetadata : Raw → result SourceIntegrationMetadata).
Context (MarshalErr : SourceIntegrationMetadata → option error).
Context (PutItem : W → SourceIntegrationMetadata → W * option error) (DeleteItem : W → string → W * option error).

(** an attribute of an update *)
Inductive attribute := ABool (b : bool) | AString (s : string) | ATime (t : Z) | AInt (n : Z) | AStrings (l : list (option string)).
Context (UpdateBuildErr : list (string * attribute) → option error).
Context (UpdateItem_call : W → string → list (string * attribute) → W * result Raw).

Fixpoint unmarshal_all (raws : list Raw) : result (list SourceIntegration) :=
  match raws with
  | [] => Ok []
  | raw :: raws => i ← UnmarshalIntegration raw; l ← unmarshal_all raws; Ok (i :: l)
  end.

(** one page of a scan *)
Definition ScanIntegrations (w : W) (integrationType : option string) : api (list SourceIntegration) :=
  match integrationType, BuildErr with
  | Some _, Some _ => Bad (failure InternalError "failed to build dynamodb expression")
  | _, _ =>
      match Scan w integrationType with
      | Err e => Bad (PlainError true e)
      | Ok raws => match unmarshal_all raws with Err e => Bad (PlainError true e) | Ok l => Good l end
      end
  end.

Definition GetIntegration (w : W) (integrationID : string) : api (option SourceIntegrationMetadata) :=
  match GetItem w integrationID with
  | Err e => Bad (aws_failure "Dynamodb.GetItem" e)
  | Ok None => Good None
  | Ok (Some raw) => match UnmarshalMetadata raw with Err e => Bad (PlainError true e) | Ok m => Good (Some m) end
  end.

Definition PutSourceIntegration (w : W) (input : SourceIntegrationMetadata) : W * option error :=
  match MarshalErr input with Some e => (w, Some e) | None => PutItem w input end.

Definition ConditionalCheckFailedException : string := "ConditionalCheckFailedException".
Definition DeleteIntegrationItem (w : W) (integrationID : string) : W * option apiErr :=
  match BuildErr with
  | Some _ => (w, Some (failure InternalError "failed to build DeleteIntegration ddb expression"))
  | None =>
      match DeleteItem w integrationID with
      | (w, None) => (w, None)
      | (w, Some e) =>
          (w, Some (match e with
                    | ErrAWS code _ =>
                        if decide (code = ConditionalCheckFailedException) then failure DoesNotExistError (errText e)
                        else aws_failure "Dynamodb.DeleteItem" e
                    | _ => aws_failure "Dynamodb.DeleteItem" e
                    end))
      end
  end.

(** the fields that are not nil, the key apart, under their json names *)
Definition update_fields (i : UpdateIntegrationItem) : list (string * attribute) :=
  omap id
    [("remediationEnabled",.) <$> (ABool <$> uiRemediationEnabled i);
     ("cweEnabled",.) <$> (ABool <$> uiCWEEnabled i);
     ("integrationLabel",.) <$> (AString <$> uiIntegrationLabel i);
     ("integrationType",.) <$> (AString <$> uiIntegrationType i);
     ("lastScanEndTime",.) <$> (ATime <$> uiLastScanEndTime i);
     ("lastScanErrorMessage",.) <$> (AString <$> uiLastScanErrorMessage i);
     ("lastScanStartTime",.) <$> (ATime <$> uiLastScanStartTime i);
     ("scanStatus",.) <$> (AString <$> uiScanStatus i);
     ("scanIntervalMins",.) <$> (AInt <$> uiScanIntervalMins i);
     ("s3Bucket",.) <$> (AString <$> uiS3Bucket i);
     ("s3Prefix",.) <$> (AString <$> uiS3Prefix i);
     ("kmsKey",.) <$> (AString <$> uiKmsKey i);
     ("logTypes",.) <$> (AStrings <$> uiLogTypes i)].

(** without a condition *)
Definition UpdateItem (w : W) (input : UpdateIntegrationItem) : W * api SourceIntegration :=
  let fields := update_fields input in
  match UpdateBuildErr fields with
  | Some e => (w, Bad (failure InternalError (errText e)))
  | None =>
      match UpdateItem_call w (uiIntegrationID input) fields with
      | (w, Err e) => (w, Bad (aws_failure "Dynamodb.UpdateItem" e))
      | (w, Ok raw) => (w, or_internal "update unmarshal failed: " (UnmarshalIntegration raw))
      end
  end.

(** ** Health checks; credentials are those of a role *)

Context (GetCallerIdentity : W → string → option error) (GetBucketLocation : W → string → option string → option error).
(** whether the key is enabled *)
Context (DescribeKey : W → string → string → result bool).

Definition healthy : SourceIntegrationItemStatus := {| Healthy := Some true; ErrorMessage := None |}.
Definition unhealthy (message : string) : SourceIntegrationItemStatus :=
  {| Healthy := Some false; ErrorMessage := Some message |}.
Definition unchecked : SourceIntegrationItemStatus := {| Healthy := None; ErrorMessage := None |}.

Definition getCredentialsWithStatus (w : W) (roleARN : string) : SourceIntegrationItemStatus :=
  match GetCallerIdentity w roleARN with Some e => unhealthy (errText e) | None => healthy end.

Definition checkBucket (w : W) (role : string) (bucket : option string) : SourceIntegrationItemStatus :=
  match GetBucketLocation w role bucket with Some e => unhealthy (errText e) | None => healthy end.

Definition checkKey (w : W) (role : string) (key : option string) : SourceIntegrationItemStatus :=
  match key with
  | None => healthy
  | Some key =>
      match DescribeKey w role key with
      | Err e => unhealthy (errText e)
      | Ok false => unhealthy "key disabled"
      | Ok true => healthy
      end
  end.

Definition checkIntegrationInternalError : apiErr :=
  failure InternalError "Failed to validate source. Please try again later".

(** the status of an account to scan, given its identifier *)
Definition scan_health (w : W) (input : CheckIntegrationInput) (account : string) : SourceIntegrationHealth :=
  let check role := getCredentialsWithStatus w (role_arn account role region) in
  {| shAWSAccountID := account; shIntegrationType := default "" (ciIntegrationType input);
     AuditRoleStatus := check "PantherAuditRole";
     CWERoleStatus := if default false (ciEnableCWESetup input)
                      then check "PantherCloudFormationStackSetExecutionRole" else unchecked;
     RemediationRoleStatus := if default false (ciEnableRemediation input)
                              then check "PantherRemediationRole" else unchecked;
     ProcessingRoleStatus := unchecked; S3BucketStatus := unchecked; KMSKeyStatus := unchecked |}.

Definition log_health (w : W) (input : CheckIntegrationInput) (account label : string) : SourceIntegrationHealth :=
  let role := generateLogProcessingRoleArn account label in
  let status := getCredentialsWithStatus w role in
  let ok := default false (Healthy status) in
  {| shAWSAccountID := account; shIntegrationType := default "" (ciIntegrationType input);
     AuditRoleStatus := unchecked; CWERoleStatus := unchecked; RemediationRoleStatus := unchecked;
     ProcessingRoleStatus := status;
     S3BucketStatus := if ok then checkBucket w role (ciS3Bucket input) else unchecked;
     KMSKeyStatus := if ok then checkKey w role (ciKmsKey input) else unchecked |}.

Definition CheckIntegration (w : W) (input : CheckIntegrationInput) : outcome (api SourceIntegrationHealth) :=
  let ty := default "" (ciIntegrationType input) in
  if decide (ty = IntegrationTypeAWSScan) then
    account ← deref (ciAWSAccountID input); Ret (Good (scan_health w input account))
  else if decide (ty = IntegrationTypeAWS3) then
    account ← deref (ciAWSAccountID input); label ← deref (ciIntegrationLabel input);
    Ret (Good (log_health w input account label))
  else Ret (Bad checkIntegrationInternalError).

Definition is_healthy (s : SourceIntegrationItemStatus) : bool := default false (Healthy s).

(** the reason, and whether the source passes *)
Definition evaluateIntegration (w : W) (input : CheckIntegrationInput) : outcome (api (string * bool)) :=
  r ← CheckIntegration w input;
  match r with
  | Bad e => Ret (Bad e)
  | Good status =>
      let ty := default "" (ciIntegrationType input) in
      Ret (if decide (ty = IntegrationTypeAWSScan) then
             Good (if negb (is_healthy (AuditRoleStatus status)) then ("cannot assume audit role", false)
                   else if default false (ciEnableRemediation input) && negb (is_healthy (RemediationRoleStatus status))
                        then ("cannot assume remediation role", false)
                   else if default false (ciEnableCWESetup input) && negb (is_healthy (CWERoleStatus status))
                        then ("cannot assume cwe role", false)
                   else ("", true))
           else if decide (ty = IntegrationTypeAWS3) then
             Good (if negb (is_healthy (ProcessingRoleStatus status)) then ("cannot assume log processing role", false)
                   else if negb (is_healthy (S3BucketStatus status))
                        then ("log processing role cannot access s3 bucket", false)
                   else match ciKmsKey input with
                        | Some _ => ("log processing role cannot access kms key", is_healthy (KMSKeyStatus status))
                        | None => ("", true)
                        end)
           else Bad (PlainError true (ErrMsg "invalid integration type")))
  end.

(** ** Starting scans *)

(** poller.ScanEntry with an account, an integration and a type *)
Record ScanRequest := { srAWSAccountID : option string; srIntegrationID : option string; srResourceType : string }.

Context (ServicePollers : list string) (MarshalScanMsg : ScanRequest → result string).
Context `{!Backoff} (client_SendMessageBatch : W → list Entry → W * result SendMessageBatchOutput).

Fixpoint remove_byte (c : ascii) (s : string) : string :=
  match s with
  | "" => ""
  | String d s => if decide (d = c) then remove_byte c s else String d (remove_byte c s)
  end.

Fixpoint type_entries (integration : SourceIntegrationMetadata) (types : list string) : outcome (api (list Entry)) :=
  match types with
  | [] => Ret (Good [])
  | ty :: types =>
      match MarshalScanMsg {| srAWSAccountID := smAWSAccountID integration;
                              srIntegrationID := smIntegrationID integration; srResourceType := ty |} with
      | Err e => Ret (Bad (failure InternalError (errText e)))
      | Ok body =>
          id ← deref (smIntegrationID integration);
          r ← type_entries integration types;
          Ret (l ← r;
               Good ({| Id := Some (id +:+ "-" +:+ remove_byte "." ty); MessageBody := Some body;
                          DelaySeconds := None |} :: l))
      end
  end.

Fixpoint scan_entries (integrations : list SourceIntegrationMetadata) : outcome (api (list Entry)) :=
  match integrations with
  | [] => Ret (Good [])
  | i :: integrations =>
      r ← type_entries i ServicePollers;
      match r with
      | Bad e => Ret (Bad e)
      | Good l => r ← scan_entries integrations; Ret (l' ← r; Good (l ++ l'))
      end
  end.

(** [ServicePollers] lists the keys of the map in the order of its iteration *)
Definition ScanAllResources (w : W) (integrations : list SourceIntegrationMetadata) : outcome (W * option apiErr) :=
  r ← scan_entries integrations;
  match r with
  | Bad e => Ret (w, Some e)
  | Good entries =>
      r ← SendMessageBatch client_SendMessageBatch w entries;
      let '(r, _, err) := r in
      Ret (world r, match err with Some e => Some (PlainError true e) | None => None end)
  end.

(** ** The handlers; [n] counts readings of the clock and identifiers *)

Context (NewUUID : nat → string) (now : nat → Z).

Definition ListIntegrations (w : W) (integrationType : option string) : api (list SourceIntegration) :=
  ScanIntegrations w integrationType.

Definition putIntegrationInternalError : apiErr := failure InternalError "Failed to add source. Please try again later".
Definition deleteIntegrationInternalError : apiErr :=
  failure InternalError "Failed to delete source. Please try again later".

(** a field of the embedded metadata *)
Definition promoted {A} (field : SourceIntegrationMetadata → option A) (i : SourceIntegration) : outcome A :=
  m ← deref (siMetadata i); deref (field m).

Fixpoint existing_conflict (input : PutIntegrationInput) (l : list SourceIntegration) : outcome (option apiErr) :=
  match l with
  | [] => Ret None
  | existing :: l =>
      ty ← promoted smIntegrationType existing;
      if decide (ty = piIntegrationType input) then
        account ← promoted smAWSAccountID existing;
        if decide (account = piAWSAccountID input) then
          if decide (piIntegrationType input = IntegrationTypeAWSScan) then
            Ret (Some (failure InvalidInputError ("Source account " +:+ piAWSAccountID input +:+ " already onboarded")))
          else
            label ← promoted smIntegrationLabel existing;
            if decide (label = piIntegrationLabel input) then
              Ret (Some (failure InvalidInputError ("Log source for account " +:+ piAWSAccountID input +:+
                " with label " +:+ piIntegrationLabel input +:+ " already onboarded")))
            else existing_conflict input l
        else existing_conflict input l
      else existing_conflict input l
  end.

Definition integrationAlreadyExists (w : W) (input : PutIntegrationInput) : outcome (option apiErr) :=
  match ListIntegrations w None with
  | Bad _ => Ret (Some putIntegrationInternalError)
  | Good l => existing_conflict input l
  end.

Definition generateNewIntegration (n : nat) (input : PutIntegrationInput) : SourceIntegrationMetadata :=
  {| smAWSAccountID := Some (piAWSAccountID input); smCreatedAtTime := Some (now n);
     smCreatedBy := Some (piUserID input); smIntegrationID := Some (NewUUID n);
     smIntegrationLabel := Some (piIntegrationLabel input); smIntegrationType := Some (piIntegrationType input);
     smRemediationEnabled := piRemediationEnabled input; smCWEEnabled := piCWEEnabled input;
     smScanIntervalMins := piScanIntervalMins input; smS3Bucket := piS3Bucket input; smS3Prefix := piS3Prefix input;
     smKmsKey := piKmsKey input; smLogTypes := piLogTypes input;
     smLogProcessingRole :=
       if decide (piIntegrationType input = IntegrationTypeAWS3)
       then Some (generateLogProcessingRoleArn (piAWSAccountID input) (piIntegrationLabel input)) else None;
     smStackName := Some (getStackName (piIntegrationType input) (piIntegrationLabel input)) |}.

(** what the log asks to be repaired by hand *)
Inductive repair := RemoveManually (accountID : string) | AddManually (accountID : string).

(** the deferred function after an error *)
Definition undo_permission (w : W) (permissionAdded : bool) (accountID : string) : W * list repair :=
  if permissionAdded then
    let '(w, err) := RemovePermissionFromLogProcessorQueue w accountID in
    (w, match err with Some _ => [RemoveManually accountID] | None => [] end)
  else (w, []).

Definition check_of_put (input : PutIntegrationInput) : CheckIntegrationInput :=
  {| ciAWSAccountID := Some (piAWSAccountID input); ciIntegrationType := Some (piIntegrationType input);
     ciIntegrationLabel := Some (piIntegrationLabel input); ciEnableCWESetup := piCWEEnabled input;
     ciEnableRemediation := piRemediationEnabled input; ciS3Bucket := piS3Bucket input;
     ciS3Prefix := piS3Prefix input; ciKmsKey := piKmsKey input |}.

(** from the permission on *)
Definition put_commit (w : W) (n : nat) (input : PutIntegrationInput)
    : outcome (W * list repair * api SourceIntegrationMetadata) :=
  let account := piAWSAccountID input in
  let '(w, permissionAdded, err) :=
    if decide (piIntegrationType input = IntegrationTypeAWS3) then AddPermissionToLogProcessorQueue w account
    else (w, false, None) in
  match err with
  | Some _ => Ret (undo_permission w permissionAdded account, Bad putIntegrationInternalError)
  | None =>
      let newIntegration := generateNewIntegration n input in
      let '(w, err) := PutSourceIntegration w newIntegration in
      match err with
      | Some _ => Ret (undo_permission w permissionAdded account, Bad putIntegrationInternalError)
      | None =>
          if default false (piSkipScanQueue input) then Ret (w, [], Good newIntegration)
          else if decide (piIntegrationType input = IntegrationTypeAWSScan) then
            r ← ScanAllResources w [newIntegration];
            let '(w, err) := r in
            Ret (match err with
                 | Some _ => (undo_permission w permissionAdded account, Bad putIntegrationInternalError)
                 | None => (w, [], Good newIntegration)
                 end)
          else Ret (w, [], Good newIntegration)
      end
  end.

Definition PutIntegration (w : W) (n : nat) (input : PutIntegrationInput)
    : outcome (W * list repair * api SourceIntegrationMetadata) :=
  r ← evaluateIntegration w (check_of_put input);
  match r with
  | Bad _ => Ret (w, [], Bad putIntegrationInternalError)
  | Good (reason, passing) =>
      if passing : bool then
        err ← integrationAlreadyExists w input;
        match err with
        | Some e => Ret (w, [], Bad e)
        | None => put_commit w n input
        end
      else Ret (w, [], Bad (failure InvalidInputError ("source " +:+ piIntegrationLabel input +:+
             " did not pass configuration check because of " +:+ reason)))
  end.

(** whether no other log source has the account *)
Fixpoint last_of_account (integration : SourceIntegrationMetadata) (l : list SourceIntegration) : outcome bool :=
  match l with
  | [] => Ret true
  | existing :: l =>
      a ← promoted smAWSAccountID existing;
      account ← deref (smAWSAccountID integration);
      if decide (a = account) then
        i ← promoted smIntegrationID existing;
        id ← deref (smIntegrationID integration);
        if decide (i ≠ id) then Ret false else last_of_account integration l
      else last_of_account integration l
  end.

(** the item, and the permission again after an error *)
Definition delete_commit (w : W) (integrationID : string) (removed : option string) : W * list repair * option apiErr :=
  let '(w, err) := DeleteIntegrationItem w integrationID in
  match err, removed with
  | None, _ => (w, [], None)
  | Some _, None => (w, [], Some deleteIntegrationInternalError)
  | Some _, Some account =>
      let '(w, _, undoErr) := AddPermissionToLogProcessorQueue w account in
      (w, match undoErr with Some _ => [AddManually account] | None => [] end, Some deleteIntegrationInternalError)
  end.

Definition DeleteIntegration (w : W) (integrationID : string) : outcome (W * list repair * option apiErr) :=
  match GetIntegration w integrationID with
  | Bad _ => Ret (w, [], Some deleteIntegrationInternalError)
  | Good None => Ret (w, [], Some (failure DoesNotExistError "Integration does not exist"))
  | Good (Some integration) =>
      ty ← deref (smIntegrationType integration);
      if decide (ty = IntegrationTypeAWS3) then
        match ScanIntegrations w (Some IntegrationTypeAWS3) with
        | Bad _ => Ret (w, [], Some deleteIntegrationInternalError)
        | Good existing =>
            shouldRemovePermissions ← last_of_account integration existing;
            if shouldRemovePermissions : bool then
              account ← deref (smAWSAccountID integration);
              let '(w, err) := RemovePermissionFromLogProcessorQueue w account in
              match err with
              | Some _ => Ret (w, [], Some deleteIntegrationInternalError)
              | None => Ret (delete_commit w integrationID (Some account))
              end
            else Ret (delete_commit w integrationID None)
        end
      else Ret (delete_commit w integrationID None)
  end.

Definition UpdateIntegrationSettings (w : W) (input : UpdateIntegrationSettingsInput)
    : outcome (W * api SourceIntegration) :=
  match GetIntegration w (usIntegrationID input) with
  | Bad e => Ret (w, Bad e)
  | Good integration =>
      integration ← deref integration;
      r ← evaluateIntegration w
        {| ciAWSAccountID := smAWSAccountID integration; ciIntegrationType := smIntegrationType integration;
           ciIntegrationLabel := Some (usIntegrationLabel input); ciEnableCWESetup := usCWEEnabled input;
           ciEnableRemediation := usRemediationEnabled input; ciS3Bucket := usS3Bucket input;
           ciS3Prefix := usS3Prefix input; ciKmsKey := usKmsKey input |};
      match r with
      | Bad e => Ret (w, Bad e)
      | Good (reason, passing) =>
          if passing : bool then
            Ret (UpdateItem w
              {| uiRemediationEnabled := usRemediationEnabled input; uiCWEEnabled := usCWEEnabled input;
                 uiIntegrationID := usIntegrationID input; uiIntegrationLabel := Some (usIntegrationLabel input);
                 uiIntegrationType := None; uiLastScanEndTime := None; uiLastScanErrorMessage := None;
                 uiLastScanStartTime := None; uiScanStatus := None; uiScanIntervalMins := usScanIntervalMins input;
                 uiS3Bucket := usS3Bucket input; uiS3Prefix := usS3Prefix input; uiKmsKey := usKmsKey input;
                 uiLogTypes := usLogTypes input |})
          else
            account ← deref (smAWSAccountID integration);
            Ret (w, Bad (failure InvalidInputError ("integration " +:+ account +:+
              " did not pass configuration check because of " +:+ reason)))
      end
  end.

Definition scan_update (id : string) (startTime endTime : option Z) (message status : option string)
    : UpdateIntegrationItem :=
  {| uiRemediationEnabled := None; uiCWEEnabled := None; uiIntegrationID := id; uiIntegrationLabel := None;
     uiIntegrationType := None; uiLastScanEndTime := endTime; uiLastScanErrorMessage := message;
     uiLastScanStartTime := startTime; uiScanStatus := status; uiScanIntervalMins := None; uiS3Bucket := None;
     uiS3Prefix := None; uiKmsKey := None; uiLogTypes := None |}.

Definition UpdateIntegrationLastScanStart (w : W) (id : string) (startTime : Z) (status : string) : W * api SourceIntegration :=
  UpdateItem w (scan_update id (Some startTime) None None (Some status)).

Definition UpdateIntegrationLastScanEnd (w : W) (id : string) (endTime : Z) (message : option string) (status : string)
    : W * api SourceIntegration :=
  UpdateItem w (scan_update id None (Some endTime) message (Some status)).
End Source.
