(* ===== verification/SourceApiSpec.v ===== *)
(** * Source API: what it promises

    The accounts that may notify the log processor are those of the log
    sources, except for the accounts the log asks to repair; sources do not
    conflict; updates touch what they name; and the cases where this fails. *)

From S2P Require Import Prelude Backoff AlertOutputs Sqsbatch GatewayApi GenericApi SourceApi.

(** ** A world that batches of messages leave as it is *)

Section Frame.
Context {W : Type} (P : W → Prop) `{!Backoff}.
Context (client : W → list Entry → W * result SendMessageBatchOutput).
Context (Hclient : ∀ w es, P w → P (client w es).1).

Lemma send_keeps r r' err : P (world r) → send client r = Ret (r', err) → P (world r').
Proof using Hclient.
  intros Hw. unfold send. pose proof (Hclient (world r) (entries r) Hw) as Hc.
  destruct (client (world r) (entries r)) as [w' [out|e]]; cbn in Hc; [|by intros [= <- _]].
  destruct (Failed out) as [|f fs]; [by intros [= <- _]|].
  destruct (deref (fMessage f)); [|done]. run. destruct (retryIDs _); [|done]. run.
  destruct (retryEntries _ _); [|done]. run. by intros [= <- _].
Qed.

Lemma Retry_send_keeps r r' err : P (world r) → Retry (send client) r = Ret (r', err) → P (world r').
Proof using Hclient.
  intros Hw Hr. pose proof (Retry_run (send client) r) as Hrun. rewrite Hr in Hrun. clear Hr.
  remember (Ret (r', err)) as o eqn:Ho. revert Ho Hw.
  induction Hrun as [t why|t t' Hop|t t' e Hop|t t' e Hop Hp|t t' e o Hop Hp _ IH]; intros Ho Hw;
    try discriminate Ho; try (injection Ho as <- _; by eapply send_keeps).
  apply IH; [done|]. by eapply send_keeps.
Qed.

Lemma SendMessageBatch_keeps w all r left err :
  P w → SendMessageBatch client w all = Ret (r, left, err) → P (world r).
Proof using Hclient.
  unfold SendMessageBatch. intros Hw.
  change w with (world {| world := w; entries := all; successCount := 0 |}) in Hw. revert Hw.
  generalize {| world := w; entries := all; successCount := 0 |}. generalize all at 3. generalize (@nil Entry).
  generalize (length all). intros fuel. induction fuel as [|fuel IH]; intros big rest s Hw; cbn.
  - unfold finish. destruct big; by intros [= <- _ _].
  - destruct rest as [|e rest]; [unfold finish; destruct big; by intros [= <- _ _]|].
    destruct (Sqsbatch.fill (e :: rest) [] big 0) as [[batch big'] rest'].
    destruct batch as [|b batch]; [unfold finish; destruct big'; by intros [= <- _ _]|].
    destruct (Retry (send client) _) as [[r2 [er|]]|] eqn:Er; cbn; [| |done].
    + destruct (unsent all _); cbn; [|done]. intros [= <- _ _]. by eapply Retry_send_keeps; [|exact Er].
    + apply IH. by eapply Retry_send_keeps; [|exact Er].
Qed.
End Frame.

(** ** The stores *)

Definition type_of_source (i : SourceIntegration) : option string :=
  m ← siMetadata i; smIntegrationType m.
Definition account_of (i : SourceIntegration) : option string := m ← siMetadata i; smAWSAccountID m.
Definition id_of (i : SourceIntegration) : option string := m ← siMetadata i; smIntegrationID m.

Definition new_item (m : SourceIntegrationMetadata) : SourceIntegration :=
  {| siMetadata := Some m; siStatus := None; siScan := None |}.

(** what an update makes of an item that does not exist *)
Definition bare (id : string) : SourceIntegration :=
  new_item {| smAWSAccountID := None; smCreatedAtTime := None; smCreatedBy := None; smIntegrationID := Some id;
     smIntegrationLabel := None; smIntegrationType := None; smRemediationEnabled := None; smCWEEnabled := None;
     smScanIntervalMins := None; smS3Bucket := None; smS3Prefix := None; smKmsKey := None; smLogTypes := None;
     smLogProcessingRole := None; smStackName := None |}.

(** setting one attribute under its json name; the embedded structs exist once
    one of their attributes does *)
Definition on_metadata (f : SourceIntegrationMetadata → SourceIntegrationMetadata) (i : SourceIntegration) : SourceIntegration :=
  {| siMetadata := f <$> siMetadata i; siStatus := siStatus i; siScan := siScan i |}.
Definition on_scan (f : SourceIntegrationScanInformation → SourceIntegrationScanInformation) (i : SourceIntegration)
    : SourceIntegration :=
  {| siMetadata := siMetadata i; siStatus := siStatus i;
     siScan := Some (f (default {| siLastScanEndTime := None; siLastScanErrorMessage := None;
                                   siLastScanStartTime := None |} (siScan i))) |}.
Definition with_settings (m : SourceIntegrationMetadata) (label type : option string) (remediation cwe : option bool)
    (interval : option Z) (bucket prefix key : option string) (logTypes : option (list (option string)))
    : SourceIntegrationMetadata :=
  {| smAWSAccountID := smAWSAccountID m; smCreatedAtTime := smCreatedAtTime m; smCreatedBy := smCreatedBy m;
     smIntegrationID := smIntegrationID m; smIntegrationLabel := label; smIntegrationType := type;
     smRemediationEnabled := remediation; smCWEEnabled := cwe; smScanIntervalMins := interval;
     smS3Bucket := bucket; smS3Prefix := prefix; smKmsKey := key; smLogTypes := logTypes;
     smLogProcessingRole := smLogProcessingRole m; smStackName := smStackName m |}.

Definition set_setting (name : string) (a : attribute) (m : SourceIntegrationMetadata) : SourceIntegrationMetadata :=
  let str old := match a with AString s => Some s | _ => old end in
  let bool old := match a with ABool b => Some b | _ => old end in
  let named n := bool_decide (name = n) in
  with_settings m
    (if named "integrationLabel" then str (smIntegrationLabel m) else smIntegrationLabel m)
    (if named "integrationType" then str (smIntegrationType m) else smIntegrationType m)
    (if named "remediationEnabled" then bool (smRemediationEnabled m) else smRemediationEnabled m)
    (if named "cweEnabled" then bool (smCWEEnabled m) else smCWEEnabled m)
    (if named "scanIntervalMins" then match a with AInt n => Some n | _ => smScanIntervalMins m end else smScanIntervalMins m)
    (if named "s3Bucket" then str (smS3Bucket m) else smS3Bucket m)
    (if named "s3Prefix" then str (smS3Prefix m) else smS3Prefix m)
    (if named "kmsKey" then str (smKmsKey m) else smKmsKey m)
    (if named "logTypes" then match a with AStrings l => Some l | _ => smLogTypes m end else smLogTypes m).

Definition set_attribute (i : SourceIntegration) (p : string * attribute) : SourceIntegration :=
  let '(name, a) := p in
  match a with
  | AString s =>
      if decide (name = "scanStatus") then
        {| siMetadata := siMetadata i;
           siStatus := Some {| ssScanStatus := Some s; ssEventStatus := st ← siStatus i; ssEventStatus st |};
           siScan := siScan i |}
      else if decide (name = "lastScanErrorMessage") then
        on_scan (λ k, {| siLastScanEndTime := siLastScanEndTime k; siLastScanErrorMessage := Some s;
                         siLastScanStartTime := siLastScanStartTime k |}) i
      else on_metadata (set_setting name a) i
  | ATime t =>
      if decide (name = "lastScanEndTime") then
        on_scan (λ k, {| siLastScanEndTime := Some t; siLastScanErrorMessage := siLastScanErrorMessage k;
                         siLastScanStartTime := siLastScanStartTime k |}) i
      else if decide (name = "lastScanStartTime") then
        on_scan (λ k, {| siLastScanEndTime := siLastScanEndTime k; siLastScanErrorMessage := siLastScanErrorMessage k;
                         siLastScanStartTime := Some t |}) i
      else on_metadata (set_setting name a) i
  | _ => on_metadata (set_setting name a) i
  end.
Definition apply_update (fields : list (string * attribute)) (i : SourceIntegration) : SourceIntegration :=
  foldl set_attribute i fields.

(** What is relied on.  A call that fails is refused: it has no effect.  A call
    of Scan reads the items of the first page of the table ([page], at most a
    megabyte) and then applies the filter; reads of a settled table show the
    last writes. *)
Class SourceStore {W Raw : Type} (items : W → gmap string SourceIntegration) (policy : W → list SqsPolicyStatement)
    (settled : W → Prop) (page : W → list string) (GetPolicy : W → result string) (SetPolicy : W → string → W * option error)
    (MarshalPolicy : SqsPolicy → result string) (UnmarshalPolicy : string → result SqsPolicy)
    (Scan : W → option string → result (list Raw)) (GetItem : W → string → result (option Raw))
    (UnmarshalIntegration : Raw → result SourceIntegration) (UnmarshalMetadata : Raw → result SourceIntegrationMetadata)
    (PutItem : W → SourceIntegrationMetadata → W * option error) (DeleteItem : W → string → W * option error)
    (UpdateItem_call : W → string → list (string * attribute) → W * result Raw)
    (client_SendMessageBatch : W → list Entry → W * result SendMessageBatchOutput) : Prop := {
  policy_read : ∀ w attr, GetPolicy w = Ok attr →
    (attr = "" → policy w = []) ∧ (∀ p, attr ≠ "" → UnmarshalPolicy attr = Ok p → Statements p = policy w);
  policy_write : ∀ w attr w' err, SetPolicy w attr = (w', err) → items w' = items w ∧
    match err with
    | Some _ => policy w' = policy w
    | None => (attr = "" → policy w' = []) ∧ (∀ p, MarshalPolicy p = Ok attr → policy w' = Statements p)
    end;
  source_key : ∀ w id i, items w !! id = Some i → id_of i = Some id;
  source_scan : ∀ w ty raws l, settled w → Scan w ty = Ok raws → unmarshal_all UnmarshalIntegration raws = Ok l →
    ∀ i, i ∈ l ↔ ∃ id, id ∈ page w ∧ items w !! id = Some i ∧
      match ty with Some t => type_of_source i = Some t | None => True end;
  source_get : ∀ w id r, settled w → GetItem w id = Ok r →
    match r with
    | None => items w !! id = None
    | Some raw => ∃ i, items w !! id = Some i ∧ ∀ m, UnmarshalMetadata raw = Ok m → siMetadata i = Some m
    end;
  source_put : ∀ w m id w' err, smIntegrationID m = Some id → PutItem w m = (w', err) → policy w' = policy w ∧
    items w' = match err with Some _ => items w | None => <[id := new_item m]> (items w) end;
  source_delete : ∀ w id w' err, DeleteItem w id = (w', err) → policy w' = policy w ∧
    items w' = match err with Some _ => items w | None => delete id (items w) end;
  source_update : ∀ w id fields w' r, UpdateItem_call w id fields = (w', r) → policy w' = policy w ∧
    match r with
    | Err _ => items w' = items w
    | Ok raw => let i := apply_update fields (default (bare id) (items w !! id)) in
                items w' = <[id := i]> (items w) ∧ ∀ i', UnmarshalIntegration raw = Ok i' → i' = i
    end;
  send_frame : ∀ w es, policy (client_SendMessageBatch w es).1 = policy w ∧ items (client_SendMessageBatch w es).1 = items w
}.

(** ** Accounts *)

Definition log_source (i : SourceIntegration) (a : string) : Prop :=
  type_of_source i = Some IntegrationTypeAWS3 ∧ account_of i = Some a.
Definition grants (l : list SqsPolicyStatement) (a : string) : nat := length (filter (λ s, SID s = sid a) l).
Definition in_use (m : gmap string SourceIntegration) (a : string) : Prop :=
  ∃ id i, m !! id = Some i ∧ log_source i a.

(** an account has one permission when it is in use, and none otherwise *)
Definition matched (m : gmap string SourceIntegration) (l : list SqsPolicyStatement) (a : string) : Prop :=
  (in_use m a ∧ grants l a = 1%nat) ∨ (¬ in_use m a ∧ grants l a = 0%nat).

Definition repair_account (r : repair) : string := match r with RemoveManually a | AddManually a => a end.

Lemma sid_inj a b : sid a = sid b → a = b.
Proof. unfold sid. intros H. by injection H. Qed.

Lemma statement_index_None a l : statement_index (sid a) l = None → grants l a = 0%nat.
Proof.
  unfold grants. induction l as [|s l IH]; [done|]. cbn [statement_index]. case_decide as H; [done|].
  destruct (statement_index _ l); [done|]. intros _. rewrite filter_cons_False by done. by apply IH.
Qed.

Lemma statement_index_Some a l i : statement_index (sid a) l = Some i →
  ∃ s, l !! i = Some s ∧ SID s = sid a.
Proof.
  revert i. induction l as [|s l IH]; intros i; cbn; [done|]. case_decide as H; [intros [= <-]; by exists s|].
  destruct (statement_index _ l) as [j|]; cbn; [|done]. intros [= <-]. by apply IH.
Qed.

Lemma remove_statement_perm i l s : l !! i = Some s → l ≡ₚ s :: remove_statement i l.
Proof.
  intros Hi. destruct (exists_last (l := l)) as (l0&x&->); [by destruct l|].
  unfold remove_statement. rewrite last_snoc, length_app. cbn. replace (length l0 + 1 - 1)%nat with (length l0) by lia.
  pose proof (lookup_lt_Some _ _ _ Hi) as Hlt. rewrite length_app in Hlt. cbn in Hlt.
  destruct (decide (i = length l0)) as [->|Hne].
  - rewrite lookup_app_r, Nat.sub_diag in Hi by lia. injection Hi as ->.
    rewrite insert_app_r_alt, Nat.sub_diag by lia. cbn. rewrite take_app_length. by rewrite <-Permutation_cons_append.
  - rewrite lookup_app_l in Hi by lia. rewrite insert_app_l by lia.
    rewrite take_app_le by (rewrite length_insert; lia). rewrite take_ge by (rewrite length_insert; lia).
    rewrite <-Permutation_cons_append.
    trans (x :: s :: delete i l0); [by rewrite <-(delete_Permutation l0 i s Hi)|].
    assert (<[i:=x]> l0 !! i = Some x) as Hx by (apply list_lookup_insert_eq; lia).
    trans (s :: x :: delete i l0); [apply perm_swap|]. constructor.
    rewrite (delete_Permutation _ i x Hx), !delete_take_drop, take_insert_ge, drop_insert_lt by lia. done.
Qed.

Lemma grants_app l k a : grants (l ++ k) a = (grants l a + grants k a)%nat.
Proof. unfold grants. by rewrite filter_app, length_app. Qed.

Lemma grants_perm l k a : l ≡ₚ k → grants l a = grants k a.
Proof. intros H. unfold grants. by rewrite H. Qed.

Lemma grants_one s a b : SID s = sid a → grants [s] b = if decide (a = b) then 1%nat else 0%nat.
Proof.
  intros Hs. unfold grants. case_decide as H; [subst; by rewrite filter_cons_True|].
  rewrite filter_cons_False; [done|]. rewrite Hs. by intros ->%sid_inj.
Qed.

Lemma grants_remove i l a b :
  statement_index (sid a) l = Some i →
  grants l b = ((if decide (a = b) then 1 else 0) + grants (remove_statement i l) b)%nat.
Proof.
  intros (s&Hi&Hs)%statement_index_Some. rewrite (grants_perm _ _ b (remove_statement_perm _ _ _ Hi)).
  change (s :: remove_statement i l) with ([s] ++ remove_statement i l). by rewrite grants_app, (grants_one s a).
Qed.

Lemma in_use_fresh m id i a : m !! id = None → in_use (<[id := i]> m) a ↔ log_source i a ∨ in_use m a.
Proof.
  intros Hn. split.
  - intros (id'&i'&[[<- <-]|[_ H]]%lookup_insert_Some&Hl); [by left|right; by exists id', i'].
  - intros [Hl|(id'&i'&H&Hl)]; [exists id, i; by rewrite lookup_insert_eq|].
    exists id', i'. by rewrite lookup_insert_ne by congruence.
Qed.

Lemma in_use_replace m id i j a :
  m !! id = Some i → (log_source j a ↔ log_source i a) → in_use (<[id := j]> m) a ↔ in_use m a.
Proof.
  intros Hi Hl. split.
  - intros (id'&i'&[[<- <-]|[_ H]]%lookup_insert_Some&Ha); [exists id, i; tauto|by exists id', i'].
  - intros (id'&i'&H&Ha). destruct (decide (id' = id)) as [->|Hne].
    + exists id, j. rewrite lookup_insert_eq. split; [done|]. apply Hl. congruence.
    + exists id', i'. by rewrite lookup_insert_ne.
Qed.

Lemma in_use_delete m id i a :
  m !! id = Some i → (log_source i a → ∃ id' i', id' ≠ id ∧ m !! id' = Some i' ∧ log_source i' a) →
  in_use (delete id m) a ↔ in_use m a.
Proof.
  intros Hi Ho. split.
  - intros (id'&i'&[_ H]%lookup_delete_Some&Ha). by exists id', i'.
  - intros (id'&i'&H&Ha). destruct (decide (id' = id)) as [->|Hne].
    + destruct Ho as (k&ik&Hk&Hik&Hka); [congruence|]. exists k, ik. by rewrite lookup_delete_ne.
    + exists id', i'. by rewrite lookup_delete_ne.
Qed.

Lemma matched_ext m l m' l' a :
  (in_use m' a ↔ in_use m a) → grants l' a = grants l a → matched m l a → matched m' l' a.
Proof. unfold matched. intros -> ->. done. Qed.

(** an update that does not name the type keeps it *)
Lemma set_attribute_kind i p :
  p.1 ≠ "integrationType" →
  type_of_source (set_attribute i p) = type_of_source i ∧ account_of (set_attribute i p) = account_of i.
Proof.
  destruct p as [name a]. cbn [fst]. intros Hne.
  assert (∀ i, type_of_source (on_metadata (set_setting name a) i) = type_of_source i ∧
               account_of (on_metadata (set_setting name a) i) = account_of i) as Hm.
  { intros [[m|] s k]; [|done]. unfold type_of_source, account_of. cbn. by rewrite bool_decide_eq_false_2. }
  unfold set_attribute. destruct a; try apply Hm; do 2 (case_decide; [done|]); apply Hm.
Qed.

Lemma update_fields_type u : uiIntegrationType u = None → Forall (λ p, p.1 ≠ "integrationType") (update_fields u).
Proof.
  intros Ht. apply Forall_forall. intros p Hp. unfold update_fields in Hp. rewrite Ht in Hp.
  apply list_elem_of_omap in Hp as (o&Ho&Hp). unfold id in Hp. subst o.
  repeat (apply elem_of_cons in Ho as [Ho|Ho];
          [first [discriminate Ho|symmetry in Ho; apply fmap_Some in Ho as (x&_&->); done]|]).
  by apply not_elem_of_nil in Ho.
Qed.

Lemma apply_update_kind u i a : uiIntegrationType u = None →
  log_source (apply_update (update_fields u) i) a ↔ log_source i a.
Proof.
  intros Hu%update_fields_type. unfold apply_update. revert i. induction Hu as [|p l Hp _ IH]; intros i; [done|].
  cbn. rewrite IH. unfold log_source. by destruct (set_attribute_kind i p Hp) as [-> ->].
Qed.


(** what no update changes *)
Definition role_of (i : SourceIntegration) : option string := m ← siMetadata i; smLogProcessingRole m.

Lemma apply_update_fixed fields i :
  role_of (apply_update fields i) = role_of i ∧ id_of (apply_update fields i) = id_of i.
Proof.
  unfold apply_update. revert i. induction fields as [|[name a] fields IH]; intros i; [done|]. cbn [foldl].
  destruct (IH (set_attribute i (name, a))) as [-> ->].
  assert (∀ i, role_of (on_metadata (set_setting name a) i) = role_of i ∧
               id_of (on_metadata (set_setting name a) i) = id_of i) as Hm by by intros [[m|] st k].
  unfold set_attribute. destruct a; try apply Hm; do 2 (case_decide; [done|]); apply Hm.
Qed.

Section Spec.
Context {W Raw : Type} (logProcessorQueueArn region : string).
Context (items : W → gmap string SourceIntegration) (policy : W → list SqsPolicyStatement) (settled : W → Prop).
Context (page : W → list string).
Context (GetPolicy : W → result string) (SetPolicy : W → string → W * option error).
Context (MarshalPolicy : SqsPolicy → result string) (UnmarshalPolicy : string → result SqsPolicy).
Context (BuildErr : option error).
Context (Scan : W → option string → result (list Raw)) (GetItem : W → string → result (option Raw)).
Context (UnmarshalIntegration : Raw → result SourceIntegration).
Context (UnmarshalMetadata : Raw → result SourceIntegrationMetadata).
Context (MarshalErr : SourceIntegrationMetadata → option error).
Context (PutItem : W → SourceIntegrationMetadata → W * option error) (DeleteItem : W → string → W * option error).
Context (UpdateBuildErr : list (string * attribute) → option error).
Context (UpdateItem_call : W → string → list (string * attribute) → W * result Raw).
Context (GetCallerIdentity : W → string → option error) (GetBucketLocation : W → string → option string → option error).
Context (DescribeKey : W → string → string → result bool).
Context (ServicePollers : list string) (MarshalScanMsg : ScanRequest → result string).
Context {bo : Backoff} (client_SendMessageBatch : W → list Entry → W * result SendMessageBatchOutput).
Context (NewUUID : nat → string) (now : nat → Z).
Context {store : SourceStore items policy settled page GetPolicy SetPolicy MarshalPolicy UnmarshalPolicy Scan GetItem
  UnmarshalIntegration UnmarshalMetadata PutItem DeleteItem UpdateItem_call client_SendMessageBatch}.

Notation add_permission := (AddPermissionToLogProcessorQueue logProcessorQueueArn GetPolicy SetPolicy MarshalPolicy
  UnmarshalPolicy).
Notation remove_permission := (RemovePermissionFromLogProcessorQueue GetPolicy SetPolicy MarshalPolicy UnmarshalPolicy).
Notation set_policy := (setQueuePolicy SetPolicy MarshalPolicy).
Notation undo := (undo_permission GetPolicy SetPolicy MarshalPolicy UnmarshalPolicy).
Notation put_commit' := (put_commit logProcessorQueueArn GetPolicy SetPolicy MarshalPolicy UnmarshalPolicy MarshalErr
  PutItem ServicePollers MarshalScanMsg client_SendMessageBatch NewUUID now).
Notation PutIntegration' := (PutIntegration logProcessorQueueArn region GetPolicy SetPolicy MarshalPolicy
  UnmarshalPolicy BuildErr Scan UnmarshalIntegration MarshalErr PutItem GetCallerIdentity GetBucketLocation DescribeKey
  ServicePollers MarshalScanMsg client_SendMessageBatch NewUUID now).
Notation delete_commit' := (delete_commit logProcessorQueueArn GetPolicy SetPolicy MarshalPolicy UnmarshalPolicy
  BuildErr DeleteItem).
Notation DeleteIntegration' := (DeleteIntegration logProcessorQueueArn GetPolicy SetPolicy MarshalPolicy
  UnmarshalPolicy BuildErr Scan GetItem UnmarshalIntegration UnmarshalMetadata DeleteItem).
Notation UpdateItem' := (UpdateItem UnmarshalIntegration UpdateBuildErr UpdateItem_call).
Notation UpdateIntegrationSettings' := (UpdateIntegrationSettings region GetItem UnmarshalIntegration UnmarshalMetadata
  UpdateBuildErr UpdateItem_call GetCallerIdentity GetBucketLocation DescribeKey).

(** *** The policy *)

Lemma getQueuePolicy_spec w p :
  getQueuePolicy GetPolicy UnmarshalPolicy w = Ok p →
  match p with Some p => Statements p = policy w | None => policy w = [] end.
Proof using store.
  unfold getQueuePolicy. destruct (GetPolicy w) as [attr|] eqn:Eg; cbn; [|done].
  destruct (policy_read w attr Eg) as [He Hp]. case_decide as Ha; [intros [= <-]; by apply He|].
  destruct (UnmarshalPolicy attr) as [q|] eqn:Eu; cbn; [|done]. intros [= <-]. by apply Hp.
Qed.

Lemma setQueuePolicy_spec w p w' err : set_policy w p = (w', err) → items w' = items w ∧
  policy w' = match err with Some _ => policy w | None => Statements p end.
Proof using store.
  unfold setQueuePolicy. destruct (Statements p) as [|s l] eqn:Es.
  - intros [Hi H]%policy_write. split; [done|]. destruct err; [done|]. by apply H.
  - destruct (MarshalPolicy p) as [attr|e] eqn:Em; [|by intros [= <- <-]].
    intros [Hi H]%policy_write. split; [done|]. destruct err; [done|]. rewrite <-Es. by apply H.
Qed.

Lemma add_permission_spec w a w' added err : add_permission w a = (w', added, err) →
  items w' = items w ∧ (∀ b, b ≠ a → grants (policy w') b = grants (policy w) b) ∧
  if added : bool then grants (policy w) a = 0%nat ∧ (grants (policy w') a ≤ 1)%nat ∧
                       (err = None → grants (policy w') a = 1%nat)
  else policy w' = policy w ∧ (err = None → (0 < grants (policy w) a)%nat).
Proof using store.
  unfold AddPermissionToLogProcessorQueue.
  destruct (getQueuePolicy _ _ w) as [o|e] eqn:Eq; [|by intros [= <- <- <-]].
  set (p := default _ o). assert (Statements p = policy w) as Hp.
  { apply getQueuePolicy_spec in Eq. destruct o; cbn; congruence. }
  destruct (findStatementIndex p a) as [i|] eqn:Ei.
  - intros [= <- <- <-]. split_and!; [done|done|done|]. intros _. unfold findStatementIndex in Ei.
    rewrite Hp in Ei. rewrite (grants_remove _ _ _ a Ei), decide_True by done. lia.
  - unfold findStatementIndex in Ei. rewrite Hp in Ei. apply statement_index_None in Ei.
    set (q := {| Version := _; Statements := _ |}). cbv zeta.
    assert (∀ b, grants (Statements q) b = (grants (policy w) b + if decide (a = b) then 1 else 0)%nat) as Hq.
    { intros b. unfold q. cbn [Statements]. rewrite Hp, grants_app. f_equal. by apply grants_one. }
    destruct (set_policy w q) as [w1 e1] eqn:E1. destruct (set_policy w1 q) as [w2 e2] eqn:E2. intros [= <- <- <-].
    apply setQueuePolicy_spec in E1 as [Hi1 Hp1], E2 as [Hi2 Hp2].
    assert (policy w2 = policy w ∨ policy w2 = Statements q) as Hor.
    { destruct e2; [rewrite Hp2; destruct e1; auto|by right]. }
    split_and!; [congruence| |done| |].
    + intros b Hb. destruct Hor as [->| ->]; [done|]. rewrite Hq, decide_False by congruence. lia.
    + destruct Hor as [->| ->]; [lia|]. rewrite Hq, decide_True by done. lia.
    + intros ->. rewrite Hp2, Hq, decide_True by done. lia.
Qed.

Lemma remove_permission_spec w a w' err : remove_permission w a = (w', err) →
  items w' = items w ∧ (∀ b, b ≠ a → grants (policy w') b = grants (policy w) b) ∧
  match err with Some _ => policy w' = policy w | None => grants (policy w') a = pred (grants (policy w) a) end.
Proof using store.
  unfold RemovePermissionFromLogProcessorQueue.
  destruct (getQueuePolicy _ _ w) as [[p|]|e] eqn:Eq; [| |by intros [= <- <-]].
  - apply getQueuePolicy_spec in Eq. unfold findStatementIndex. rewrite Eq.
    destruct (statement_index _ _) as [i|] eqn:Ei.
    + intros [Hi Hp]%setQueuePolicy_spec. split; [done|]. destruct err; rewrite Hp; [done|]. cbn [Statements].
      pose proof (λ b, grants_remove _ _ _ b Ei) as Hg.
      split; [intros b Hb; rewrite (Hg b), decide_False by congruence; lia|].
      rewrite (Hg a), decide_True by done. lia.
    + intros [= <- <-]. split_and!; [done|done|]. by rewrite (statement_index_None _ _ Ei).
  - apply getQueuePolicy_spec in Eq. intros [= <- <-]. rewrite Eq. done.
Qed.

(** undoing an addition, or asking for a repair *)
Lemma undo_spec w added a w' reps : undo w added a = (w', reps) →
  items w' = items w ∧ (∀ b, b ≠ a → grants (policy w') b = grants (policy w) b) ∧
  (a ∉ repair_account <$> reps →
   grants (policy w') a = if added : bool then pred (grants (policy w) a) else grants (policy w) a).
Proof using store.
  unfold undo_permission. destruct added; [|by intros [= <- <-]].
  destruct (remove_permission w a) as [w1 err] eqn:Er. intros [= <- <-].
  apply remove_permission_spec in Er as (Hi&Hb&H). split_and!; [done|done|].
  destruct err; [|done]. intros Hn. exfalso. apply Hn. cbn. by left.
Qed.
(** *** Adding *)

Lemma ScanAllResources_frame w l w' err :
  ScanAllResources ServicePollers MarshalScanMsg client_SendMessageBatch w l = Ret (w', err) →
  items w' = items w ∧ policy w' = policy w.
Proof using store.
  unfold ScanAllResources. destruct (scan_entries _ _ l) as [[es|e]|]; run; [| |done]; [|by intros [= <- _]].
  destruct (SendMessageBatch _ w es) as [[[r left] e]|] eqn:Es; run; [|done]. intros [= <- _].
  refine (SendMessageBatch_keeps (λ v, items v = items w ∧ policy v = policy w) _ _ w es r left e _ Es); [|done].
  intros v k [Hi Hp]. destruct (send_frame v k) as [-> ->]. done.
Qed.

Lemma PutSourceIntegration_spec w m id w' err :
  smIntegrationID m = Some id → PutSourceIntegration MarshalErr PutItem w m = (w', err) →
  policy w' = policy w ∧ items w' = match err with Some _ => items w | None => <[id := new_item m]> (items w) end.
Proof using store.
  intros Hid. unfold PutSourceIntegration. destruct (MarshalErr m); [by intros [= <- <-]|]. by apply source_put.
Qed.

(** a refused addition of a log source leaves matched accounts matched *)
Lemma refused_matched w w1 w2 added reps a b :
  items w1 = items w → (∀ b, b ≠ a → grants (policy w1) b = grants (policy w) b) →
  (if added : bool then grants (policy w) a = 0%nat ∧ (grants (policy w1) a ≤ 1)%nat
   else policy w1 = policy w) →
  undo w1 added a = (w2, reps) → b ∉ repair_account <$> reps →
  matched (items w) (policy w) b → matched (items w2) (policy w2) b.
Proof using store.
  intros Hi Hb Ha (Hi2&Hb2&Ha2)%undo_spec Hn. apply matched_ext; [by rewrite Hi2, Hi|].
  destruct (decide (b = a)) as [->|Hne]; [|by rewrite Hb2, Hb].
  rewrite (Ha2 Hn). destruct added; [lia|congruence].
Qed.

Lemma new_log_source n input a :
  log_source (new_item (generateNewIntegration NewUUID now n input)) a ↔
  piIntegrationType input = IntegrationTypeAWS3 ∧ piAWSAccountID input = a.
Proof. unfold log_source. cbn. split; [intros [[=] [=]]|intros [-> ->]]; done. Qed.

Lemma put_log_matched w n input w' reps r b :
  piIntegrationType input = IntegrationTypeAWS3 → items w !! NewUUID n = None →
  put_commit' w n input = Ret (w', reps, r) → b ∉ repair_account <$> reps →
  matched (items w) (policy w) b → matched (items w') (policy w') b.
Proof using store.
  clear GetCallerIdentity GetBucketLocation DescribeKey. intros Hty Hfresh. unfold put_commit. rewrite decide_True by done. cbv zeta.
  destruct (add_permission w (piAWSAccountID input)) as [[w1 added] err] eqn:Ea.
  apply add_permission_spec in Ea as (Hi&Hb&Ha).
  assert (if added : bool then grants (policy w) (piAWSAccountID input) = 0%nat ∧
            (grants (policy w1) (piAWSAccountID input) ≤ 1)%nat else policy w1 = policy w) as Ha' by (destruct added; tauto).
  destruct err as [e|].
  { intros [= Hu _]. by eapply (refused_matched w w1). }
  destruct (PutSourceIntegration _ _ w1 _) as [w2 err] eqn:Ep.
  apply (PutSourceIntegration_spec _ _ (NewUUID n)) in Ep as [Hp2 Hi2]; [|done].
  destruct err as [e|].
  { intros [= Hu _]. eapply (refused_matched w w2); [congruence|by setoid_rewrite Hp2| |exact Hu].
    by rewrite Hp2. }
  rewrite Hty, decide_False by done. intros Hr Hn Hm.
  assert (w' = w2) as -> by (destruct (default false _); congruence).
  unfold matched. rewrite Hi2, Hp2, Hi, in_use_fresh, new_log_source by done.
  destruct (decide (b = piAWSAccountID input)) as [->|Hne].
  - left. split; [by left|]. destruct added; [tauto|]. destruct Ha as [-> Hpos].
    destruct Hm as [[_ H1]|[_ H0]]; [done|]. specialize (Hpos eq_refl). lia.
  - rewrite Hb by done. destruct Hm as [[Hu H1]|[Hu H0]]; [left; split; [by right|done]|].
    right. split; [|done]. intros [[_ ?]|?]; [congruence|done].
Qed.

Lemma put_scan_matched w n input w' reps r b :
  piIntegrationType input ≠ IntegrationTypeAWS3 → items w !! NewUUID n = None →
  put_commit' w n input = Ret (w', reps, r) → matched (items w) (policy w) b → matched (items w') (policy w') b.
Proof using store.
  clear GetCallerIdentity GetBucketLocation DescribeKey. intros Hty Hfresh. unfold put_commit. rewrite decide_False by done. cbv zeta. cbn [undo_permission].
  destruct (PutSourceIntegration _ _ w _) as [w2 err] eqn:Ep.
  apply (PutSourceIntegration_spec _ _ (NewUUID n)) in Ep as [Hp2 Hi2]; [|done].
  destruct err as [e|]; [intros [= <- _ _]; by rewrite Hp2, Hi2|].
  assert (matched (items w) (policy w) b → matched (items w2) (policy w2) b) as Hm.
  { apply matched_ext; [|by rewrite Hp2]. rewrite Hi2, in_use_fresh, new_log_source by done. tauto. }
  destruct (default false _); [by intros [= <- _ _]|]. case_decide as Hs; [|by intros [= <- _ _]].
  destruct (ScanAllResources _ _ _ w2 _) as [[w3 err]|] eqn:Es; run; [|done].
  apply ScanAllResources_frame in Es as [Hi3 Hp3]. rewrite <-Hi3, <-Hp3 in Hm.
  destruct err; by intros [= <- _ _].
Qed.

Lemma PutIntegration_matched w n input w' reps r b :
  items w !! NewUUID n = None → PutIntegration' w n input = Ret (w', reps, r) → b ∉ repair_account <$> reps →
  matched (items w) (policy w) b → matched (items w') (policy w') b.
Proof using store.
  intros Hfresh. unfold PutIntegration.
  destruct (evaluateIntegration _ _ _ _ w _) as [[[reason passing]|e]|]; run; [| |done]; [|by intros [= <- _ _]].
  destruct passing; [|by intros [= <- _ _]].
  destruct (integrationAlreadyExists _ _ _ w input) as [[e|]|]; run; [by intros [= <- _ _]| |done].
  destruct (decide (piIntegrationType input = IntegrationTypeAWS3)) as [Ht|Ht].
  - by apply put_log_matched.
  - intros Hp _. revert Hp. by apply put_scan_matched.
Qed.

(** *** Deleting *)

Lemma last_of_account_spec m l b : last_of_account m l = Ret b → ∀ a id,
  smAWSAccountID m = Some a → smIntegrationID m = Some id →
  if b : bool then ∀ i, i ∈ l → account_of i = Some a → id_of i = Some id
  else ∃ i, i ∈ l ∧ account_of i = Some a ∧ id_of i ≠ Some id.
Proof.
  intros Hl a id Ha Hid. revert b Hl. induction l as [|x l IH]; intros b; cbn.
  - intros [= <-] i Hi. by apply not_elem_of_nil in Hi.
  - rewrite Ha, Hid. unfold promoted. destruct (siMetadata x) as [mx|] eqn:Ex; cbn; [|done].
    destruct (smAWSAccountID mx) as [ax|] eqn:Eax; cbn; [|done].
    assert (account_of x = Some ax) as Hax by (unfold account_of; by rewrite Ex; cbn).
    assert (∀ b, (∀ i, i ∈ l → account_of i = Some a → id_of i = Some id) ∨ b = false → 
             (account_of x = Some a → id_of x = Some id) → b = true →
             ∀ i, i ∈ x :: l → account_of i = Some a → id_of i = Some id) as Hcons.
    { intros b' [Hall| ->] Hx; [|done]. intros _ i [->|Hi]%elem_of_cons; auto. }
    assert ((∃ i, i ∈ l ∧ account_of i = Some a ∧ id_of i ≠ Some id) →
            ∃ i, i ∈ x :: l ∧ account_of i = Some a ∧ id_of i ≠ Some id) as Hex.
    { intros (i&Hi&?). exists i. split; [by right|done]. }
    case_decide as Hd.
    + destruct (smIntegrationID mx) as [ix|] eqn:Eix; cbn; [|done].
      assert (id_of x = Some ix) as Hix by (unfold id_of; by rewrite Ex; cbn).
      case_decide as Hne.
      * intros [= <-]. exists x. split; [by left|]. split; congruence.
      * intros Hl. specialize (IH _ Hl). destruct b; [|auto]. eapply (Hcons true); auto. congruence.
    + intros Hl. specialize (IH _ Hl). destruct b; [|auto]. eapply (Hcons true); auto. congruence.
Qed.

Lemma DeleteIntegrationItem_spec w id w' err : DeleteIntegrationItem BuildErr DeleteItem w id = (w', err) →
  policy w' = policy w ∧ items w' = match err with Some _ => items w | None => delete id (items w) end.
Proof using store.
  unfold DeleteIntegrationItem. destruct BuildErr; [by intros [= <- <-]|].
  destruct (DeleteItem w id) as [w1 e1] eqn:Ed. apply source_delete in Ed. destruct e1; by intros [= <- <-].
Qed.

(** the deletion without a change of permissions *)
Lemma delete_kept w id w' reps err i b :
  items w !! id = Some i →
  (log_source i b → ∃ id' i', id' ≠ id ∧ items w !! id' = Some i' ∧ log_source i' b) →
  delete_commit' w id None = (w', reps, err) → matched (items w) (policy w) b → matched (items w') (policy w') b.
Proof using store.
  clear GetCallerIdentity GetBucketLocation DescribeKey. intros Hi Ho. unfold delete_commit. destruct (DeleteIntegrationItem _ _ w id) as [w1 e1] eqn:Ed.
  apply DeleteIntegrationItem_spec in Ed as [Hp1 Hi1].
  destruct e1; intros [= <- _ _]; apply matched_ext; rewrite ?Hp1, ?Hi1; try done. by eapply in_use_delete.
Qed.

(** the deletion of the last source of an account, whose permission was removed *)
Lemma delete_last w w1 id a w' reps err i b :
  items w !! id = Some i → log_source i a →
  (∀ id' i', items w !! id' = Some i' → log_source i' a → id' = id) →
  items w1 = items w → (∀ b, b ≠ a → grants (policy w1) b = grants (policy w) b) →
  grants (policy w1) a = pred (grants (policy w) a) →
  delete_commit' w1 id (Some a) = (w', reps, err) → b ∉ repair_account <$> reps →
  matched (items w) (policy w) b → matched (items w') (policy w') b.
Proof using store.
  clear GetCallerIdentity GetBucketLocation DescribeKey. intros Hi Hla Honly Hi1 Hb1 Ha1. unfold delete_commit.
  destruct (DeleteIntegrationItem _ _ w1 id) as [w2 e2] eqn:Ed. apply DeleteIntegrationItem_spec in Ed as [Hp2 Hi2].
  assert (in_use (items w) a) as Hu by by exists id, i.
  destruct e2 as [e2|].
  - destruct (add_permission w2 a) as [[w3 added] uerr] eqn:Ea. apply add_permission_spec in Ea as (Hi3&Hb3&Ha3).
    intros [= <- <- _] Hn Hm. revert Hm.
    destruct (decide (b = a)) as [->|Hne].
    + destruct uerr; [exfalso; apply Hn; by left|]. intros [[_ H1]|[? _]]; [|done]. left. split; [congruence|].
      destruct added; [tauto|]. destruct Ha3 as [_ Ha3]. specialize (Ha3 eq_refl). rewrite Hp2, Ha1 in Ha3. lia.
    + apply matched_ext; [by rewrite Hi3, Hi2, Hi1|]. by rewrite Hb3, Hp2, Hb1.
  - intros [= <- <- _] _ Hm. destruct (decide (b = a)) as [->|Hne].
    + right. destruct Hm as [[_ H1]|[? _]]; [|done]. split; [|rewrite Hp2, Ha1; lia].
      rewrite Hi2, Hi1. intros (id'&i'&[Hne H]%lookup_delete_Some&Hl). apply Hne. symmetry. by eapply Honly.
    + revert Hm. apply matched_ext; [|by rewrite Hp2, Hb1]. rewrite Hi2, Hi1. eapply in_use_delete; [done|].
      intros [_ Hacc]. destruct Hla as [_ Hacc']. congruence.
Qed.

(** the table fits in one page of a scan *)
Definition one_page (w : W) : Prop := ∀ id i, items w !! id = Some i → id ∈ page w.

Lemma ScanIntegrations_spec w ty l :
  settled w → one_page w → ScanIntegrations BuildErr Scan UnmarshalIntegration w ty = Good l →
  ∀ i, i ∈ l ↔ ∃ id, items w !! id = Some i ∧ match ty with Some t => type_of_source i = Some t | None => True end.
Proof using store.
  intros Hset Hpage. unfold ScanIntegrations. assert (∀ (x : api (list SourceIntegration)) e,
    match ty, BuildErr with Some _, Some _ => Bad e | _, _ => x end = Good l → x = Good l) as Hx.
  { intros x e. by destruct ty, BuildErr. }
  intros H%Hx. destruct (Scan w ty) as [raws|] eqn:Es; [|done].
  destruct (unmarshal_all _ raws) as [l'|] eqn:El; [|done]. injection H as <-. intros i.
  rewrite (source_scan _ _ _ _ Hset Es El). split; [intros (id&_&?&?)|intros (id&Hi&?)]; exists id; split_and!; by eauto.
Qed.

Lemma DeleteIntegration_matched w id w' reps err b :
  settled w → one_page w → DeleteIntegration' w id = Ret (w', reps, err) → b ∉ repair_account <$> reps →
  matched (items w) (policy w) b → matched (items w') (policy w') b.
Proof using store.
  clear GetCallerIdentity GetBucketLocation DescribeKey. intros Hset Hpage. unfold DeleteIntegration, GetIntegration.
  destruct (GetItem w id) as [r|] eqn:Eg; [|by intros [= <- _ _]]. pose proof (source_get _ _ _ Hset Eg) as Hg.
  destruct r as [raw|]; [|by intros [= <- _ _]]. destruct Hg as (i&Hi&Hum).
  destruct (UnmarshalMetadata raw) as [m|]; [|by intros [= <- _ _]]. specialize (Hum _ eq_refl).
  assert (smIntegrationID m = Some id) as Hid.
  { pose proof (source_key _ _ _ Hi) as Hk. unfold id_of in Hk. by rewrite Hum in Hk. }
  destruct (smIntegrationType m) as [ty|] eqn:Ety; cbn [deref]; run; [|done].
  assert (type_of_source i = Some ty) as Hty by (unfold type_of_source; by rewrite Hum; cbn).
  case_decide as Hs3.
  2:{ intros Hr Hn. injection Hr as Hr. eapply delete_kept; [done| |exact Hr]. intros [Ht _]. congruence. }
  subst ty. destruct (ScanIntegrations _ _ _ w _) as [l|] eqn:Es; [|by intros [= <- _ _]].
  pose proof (ScanIntegrations_spec _ _ _ Hset Hpage Es) as Hscan.
  destruct (last_of_account m l) as [only|] eqn:Eo; run; [|done].
  assert (∃ a, smAWSAccountID m = Some a) as [a Ha].
  { destruct (smAWSAccountID m) as [a|] eqn:Ea; [by exists a|]. exfalso.
    assert (i ∈ l) as Hin by (apply Hscan; by exists id). clear Hscan Es.
    destruct l as [|x l]; [by apply not_elem_of_nil in Hin|]. cbn in Eo. rewrite Ea in Eo.
    destruct (promoted smAWSAccountID x); cbn in Eo; done. }
  pose proof (last_of_account_spec _ _ _ Eo a id Ha Hid) as Hl.
  assert (account_of i = Some a) as Hacc by (unfold account_of; by rewrite Hum; cbn).
  destruct only.
  - rewrite Ha. cbn [deref]. run. destruct (remove_permission w a) as [w1 e1] eqn:Er.
    apply remove_permission_spec in Er as (Hi1&Hb1&Ha1). destruct e1 as [e1|].
    + intros [= <- _ _] _. by rewrite Hi1, Ha1.
    + intros [= Hr]. eapply (delete_last w w1); try done.
      intros id' i' Hi' [Ht' Ha']. assert (i' ∈ l) as Hin by (apply Hscan; by exists id').
      pose proof (Hl _ Hin Ha') as Hk. rewrite (source_key _ _ _ Hi') in Hk. congruence.
  - intros [= Hr] Hn. eapply delete_kept; [done| |exact Hr]. intros [_ Hb]. 
    destruct Hl as (x&Hx&Hxa&Hxid). apply Hscan in Hx as (idx&Hidx&Htx).
    exists idx, x. split_and!; [|done|split; congruence]. intros ->. by rewrite (source_key _ _ _ Hidx) in Hxid.
Qed.

(** *** Updating *)

Lemma UpdateItem_matched w u w' r b :
  uiIntegrationType u = None → UpdateItem' w u = (w', r) →
  matched (items w) (policy w) b → matched (items w') (policy w') b.
Proof using store.
  clear GetCallerIdentity GetBucketLocation DescribeKey. intros Ht. unfold UpdateItem. destruct (UpdateBuildErr _); [by intros [= <- _]|].
  destruct (UpdateItem_call w _ _) as [w1 r1] eqn:Eu. apply source_update in Eu as [Hp H].
  destruct r1 as [raw|e]; intros [= <- _]; apply matched_ext; rewrite ?Hp, ?H; try done.
  destruct H as [-> _]. destruct (items w !! uiIntegrationID u) as [i|] eqn:Ei.
  - apply (in_use_replace _ _ i); [done|]. by apply apply_update_kind.
  - rewrite in_use_fresh by done. cbn [default]. rewrite apply_update_kind by done. unfold log_source, bare. cbn. naive_solver.
Qed.

(** *** The invariant *)

(** requests one after the other, with the repairs that were asked for; a
    source is deleted when the table is settled and fits in one page *)
Inductive source_step : W → list repair → W → Prop :=
| step_put w n input w' reps r :
    items w !! NewUUID n = None → PutIntegration' w n input = Ret (w', reps, r) → source_step w reps w'
| step_delete_source w id w' reps err :
    settled w → one_page w → DeleteIntegration' w id = Ret (w', reps, err) → source_step w reps w'
| step_settings w input w' r : UpdateIntegrationSettings' w input = Ret (w', r) → source_step w [] w'
| step_scan_start w id t status :
    source_step w [] (UpdateIntegrationLastScanStart UnmarshalIntegration UpdateBuildErr UpdateItem_call w id t status).1
| step_scan_end w id t msg status :
    source_step w [] (UpdateIntegrationLastScanEnd UnmarshalIntegration UpdateBuildErr UpdateItem_call w id t msg status).1
| step_settled w w' : items w' = items w → policy w' = policy w → source_step w [] w'.

Inductive source_steps : W → list repair → W → Prop :=
| steps_none w : source_steps w [] w
| steps_more w reps w' reps' w'' : source_step w reps w' → source_steps w' reps' w'' → source_steps w (reps ++ reps') w''.

Lemma source_step_matched w reps w' b :
  source_step w reps w' → b ∉ repair_account <$> reps →
  matched (items w) (policy w) b → matched (items w') (policy w') b.
Proof using store.
  intros [v n input v' rs r Hf Hp|v id v' rs err Hs Hpg Hd|v input v' r Hu|v id t st|v id t msg st|v v' -> ->] Hn; [| | | | |done].
  - by eapply PutIntegration_matched.
  - by eapply DeleteIntegration_matched.
  - unfold UpdateIntegrationSettings in Hu. destruct (GetIntegration _ _ v _) as [[m|]|e]; [|done|by injection Hu as <- _].
    cbn [deref] in Hu. revert Hu. run. destruct (evaluateIntegration _ _ _ _ v _) as [[[why []]|e]|]; run.
    + intros [= Hu]. by eapply UpdateItem_matched; [|exact Hu].
    + destruct (deref _); run; by intros [= <- _].
    + by intros [= <- _].
    + done.
  - unfold UpdateIntegrationLastScanStart. destruct (UpdateItem' v _) as [v1 r] eqn:Eu. cbn.
    by eapply UpdateItem_matched; [|exact Eu].
  - unfold UpdateIntegrationLastScanEnd. destruct (UpdateItem' v _) as [v1 r] eqn:Eu. cbn.
    by eapply UpdateItem_matched; [|exact Eu].
Qed.

(** C30: the accounts that may notify the log processor are those of the log
    sources.  Whatever requests are handled, one after the other and with
    whichever calls refused, as long as a source is deleted only when the table
    is settled and fits in one page of a scan (see
    [second_page_permission_removed] for what happens otherwise), every account that has exactly one permission when
    it is in use, and none otherwise, stays so, unless the log asked to repair
    the permissions of this account by hand. *)
Theorem permissions_match_sources w reps w' a :
  source_steps w reps w' → a ∉ repair_account <$> reps →
  matched (items w) (policy w) a → matched (items w') (policy w') a.
Proof using store.
  induction 1 as [|w reps w1 reps' w2 Hs _ IH]; [done|]. rewrite fmap_app, not_elem_of_app. intros [H1 H2] Hm.
  apply IH; [done|]. by eapply source_step_matched.
Qed.

(** *** Sources that conflict *)

Definition label_of (i : SourceIntegration) : option string := m ← siMetadata i; smIntegrationLabel m.

Definition conflict (i j : SourceIntegration) : Prop :=
  type_of_source i = type_of_source j ∧ account_of i = account_of j ∧
  (type_of_source i = Some IntegrationTypeAWSScan ∨ label_of i = label_of j).
Definition conflict_free (m : gmap string SourceIntegration) : Prop :=
  ∀ id id' i i', m !! id = Some i → m !! id' = Some i' → conflict i i' → id = id'.

Lemma existing_conflict_None n input l :
  existing_conflict input l = Ret None → ∀ i, i ∈ l → ¬ conflict i (new_item (generateNewIntegration NewUUID now n input)).
Proof.
  induction l as [|x l IH]; intros Hc i; [by intros ?%not_elem_of_nil|].
  cbn in Hc. unfold promoted in Hc. destruct (siMetadata x) as [mx|] eqn:Ex; cbn in Hc; [|done].
  destruct (smIntegrationType mx) as [ty|] eqn:Et; cbn in Hc; [|done].
  assert (¬ conflict x (new_item (generateNewIntegration NewUUID now n input)) ∧ existing_conflict input l = Ret None)
    as [Hx Hl].
  { unfold conflict, type_of_source, account_of, label_of. rewrite Ex. cbn. rewrite Et.
    destruct (decide (ty = _)) as [->|Hne]; [|split; [naive_solver|done]].
    destruct (smAWSAccountID mx) as [a|]; cbn in Hc; [|done].
    destruct (decide (a = _)) as [->|Hne]; [|split; [naive_solver|done]].
    destruct (decide (_ = IntegrationTypeAWSScan)) as [Hs|Hs]; [done|].
    destruct (smIntegrationLabel mx) as [lb|]; cbn in Hc; [|done].
    destruct (decide (lb = _)) as [->|Hne]; [done|]. split; [naive_solver|done]. }
  intros [->|Hi]%elem_of_cons; [done|by apply IH].
Qed.

Lemma put_commit_items w n input w' reps r :
  put_commit' w n input = Ret (w', reps, r) →
  items w' = items w ∨ items w' = <[NewUUID n := new_item (generateNewIntegration NewUUID now n input)]> (items w).
Proof using store.
  clear GetCallerIdentity GetBucketLocation DescribeKey. unfold put_commit. cbv zeta.
  assert (∀ w1 added err, (if decide (piIntegrationType input = IntegrationTypeAWS3)
    then add_permission w (piAWSAccountID input) else (w, false, None)) = (w1, added, err) → items w1 = items w) as Ha.
  { intros w1 added err. case_decide; [|by intros [= <- _ _]]. intros [? _]%add_permission_spec. done. }
  destruct (if decide _ then _ else _) as [[w1 added] err]. specialize (Ha _ _ _ eq_refl).
  assert (∀ v v' rs, undo v added (piAWSAccountID input) = (v', rs) → items v' = items v) as Hu.
  { by intros v v' rs [? _]%undo_spec. }
  destruct err as [e|]; [intros [= H _]; left; rewrite (Hu _ _ _ H); done|].
  destruct (PutSourceIntegration _ _ w1 _) as [w2 err] eqn:Ep.
  apply (PutSourceIntegration_spec _ _ (NewUUID n)) in Ep as [_ Hi2]; [|done]. rewrite Ha in Hi2.
  destruct err as [e|]; [intros [= H _]; left; rewrite (Hu _ _ _ H); done|].
  destruct (default false _); [intros [= <- _ _]; by right|]. case_decide; [|intros [= <- _ _]; by right].
  destruct (ScanAllResources _ _ _ w2 _) as [[w3 err]|] eqn:Es; run; [|done].
  apply ScanAllResources_frame in Es as [Hi3 _]. intros Hr. right.
  destruct err; [|injection Hr as <- _ _; congruence].
  injection Hr as Hr _. rewrite (Hu _ _ _ Hr). congruence.
Qed.

(** an account is scanned once, and log sources of an account have different labels *)
Theorem put_keeps_conflict_free w n input w' reps r :
  settled w → one_page w → items w !! NewUUID n = None → PutIntegration' w n input = Ret (w', reps, r) →
  conflict_free (items w) → conflict_free (items w').
Proof using store.
  intros Hset Hpage Hfresh. unfold PutIntegration.
  destruct (evaluateIntegration _ _ _ _ w _) as [[[reason passing]|e]|]; run; [| |done]; [|by intros [= <- _ _]].
  destruct passing; [|by intros [= <- _ _]]. unfold integrationAlreadyExists, ListIntegrations.
  destruct (ScanIntegrations _ _ _ w None) as [l|] eqn:Es; [|by intros [= <- _ _]].
  pose proof (ScanIntegrations_spec _ _ _ Hset Hpage Es) as Hscan.
  destruct (existing_conflict input l) as [[e|]|] eqn:Ec; run; [by intros [= <- _ _]| |done].
  intros [->| ->]%put_commit_items Hf; [done|].
  assert (∀ id i, items w !! id = Some i → ¬ conflict i (new_item (generateNewIntegration NewUUID now n input))) as Hno.
  { intros id i Hi. eapply existing_conflict_None; [done|]. apply Hscan. by exists id. }
  intros a b x y [[<- <-]|[_ Ha]]%lookup_insert_Some [[<- <-]|[_ Hb]]%lookup_insert_Some Hc; [done| | |by eapply Hf].
  - exfalso. eapply Hno; [exact Hb|]. destruct Hc as (?&?&[?|?]); split_and!; try done; [|by right].
    left. congruence.
  - exfalso. by eapply Hno.
Qed.

(** *** Where it fails *)

(** an update of the label keeps the role and the stack of the old one, while
    the check before it was made with the role of the new one *)
Theorem label_update_keeps_role w input w' i i' :
  settled w → items w !! usIntegrationID input = Some i → UpdateIntegrationSettings' w input = Ret (w', Good i') →
  role_of i' = role_of i ∧ items w' !! usIntegrationID input = Some i'.
Proof using store.
  intros Hset Hi. unfold UpdateIntegrationSettings. destruct (GetIntegration _ _ w _) as [[m|]|e]; [|done|done].
  cbn [deref]. run. destruct (evaluateIntegration _ _ _ _ w _) as [[[why []]|e]|]; run; [|by destruct (deref _)|done|done].
  unfold UpdateItem. destruct (UpdateBuildErr _); [done|]. cbn [uiIntegrationID].
  destruct (UpdateItem_call w _ _) as [w1 [raw|e]] eqn:Eu; [|done]. apply source_update in Eu as (_&Hi1&Hu).
  destruct (UnmarshalIntegration raw) as [j|]; [|done]. intros [= <- <-]. rewrite (Hu _ eq_refl), Hi1, lookup_insert_eq, Hi.
  split; [apply (apply_update_fixed _ i)|done].
Qed.


(** updating a source that does not exist panics *)
Theorem unknown_source_panics w input :
  settled w → items w !! usIntegrationID input = None → (∃ r, GetItem w (usIntegrationID input) = Ok r) →
  ∃ why, UpdateIntegrationSettings' w input = Panic why.
Proof using store.
  intros Hset Hn [r Hr]. pose proof (source_get _ _ _ Hset Hr) as Hg. unfold UpdateIntegrationSettings, GetIntegration.
  rewrite Hr. destruct r as [raw|]; [destruct Hg as (i&?&_); congruence|]. by eexists.
Qed.

(** reporting a scan of a source that does not exist creates an item without a
    type, after which no source can be added: the check for conflicts panics *)
Theorem unknown_scan_blocks_additions w id t status w' i later l input n :
  items w !! id = None →
  UpdateIntegrationLastScanStart UnmarshalIntegration UpdateBuildErr UpdateItem_call w id t status = (w', Good i) →
  items later = items w' → settled later → one_page later → ScanIntegrations BuildErr Scan UnmarshalIntegration later None = Good l →
  (∀ j, j ∈ l → ¬ conflict j (new_item (generateNewIntegration NewUUID now n input))) →
  ∃ why, integrationAlreadyExists BuildErr Scan UnmarshalIntegration later input = Panic why.
Proof using store.
  clear GetCallerIdentity GetBucketLocation DescribeKey.
  intros Hn Hu Hl Hset Hpage Hs Hno. unfold UpdateIntegrationLastScanStart, UpdateItem in Hu.
  destruct (UpdateBuildErr _); [done|]. cbn [uiIntegrationID scan_update] in Hu.
  destruct (UpdateItem_call w id _) as [w1 [raw|e]] eqn:Eu; [|done].
  apply source_update in Eu as (_&Hi&_). injection Hu as <- _.
  unfold integrationAlreadyExists, ListIntegrations. rewrite Hs.
  set (ghost := apply_update _ _) in Hi. assert (ghost ∈ l) as Hg.
  { apply (ScanIntegrations_spec _ _ _ Hset Hpage Hs). exists id. by rewrite Hl, Hi, lookup_insert_eq. }
  assert (promoted smIntegrationType ghost = Panic "nil pointer dereference") as Hp by (unfold ghost; by rewrite Hn).
  clearbody ghost. clear -Hg Hp Hno. induction l as [|x l IH]; [by apply not_elem_of_nil in Hg|].
  apply elem_of_cons in Hg as [<-|Hg]; [cbn; rewrite Hp; by eexists|].
  destruct IH as [why IH]; [intros j Hj; apply Hno; by right|done|].
  assert (¬ conflict x (new_item (generateNewIntegration NewUUID now n input))) as Hx by (apply Hno; by left).
  cbn. unfold promoted. destruct (siMetadata x) as [mx|] eqn:Ex; cbn; [|by eexists].
  destruct (smIntegrationType mx) as [ty|] eqn:Et; cbn; [|by eexists]. case_decide as H1; [|by eexists].
  destruct (smAWSAccountID mx) as [a|] eqn:Ea; cbn; [|by eexists]. case_decide as H2; [|by eexists].
  unfold conflict, type_of_source, account_of, label_of in Hx. rewrite Ex in Hx. cbn in Hx. rewrite Et, Ea in Hx.
  case_decide as H3; [exfalso; apply Hx; split_and!; [congruence|congruence|left; congruence]|].
  destruct (smIntegrationLabel mx) as [lb|] eqn:El; cbn; [|by eexists].
  case_decide as H4; [|by eexists]. exfalso. apply Hx. split_and!; [congruence|congruence|right; congruence].
Qed.
End Spec.

(** two labels, one role and one stack *)
Example labels_share_role account :
  generateLogProcessingRoleArn account "Prod Logs" = generateLogProcessingRoleArn account "prod-logs" ∧
  getStackName IntegrationTypeAWS3 "Prod Logs" = getStackName IntegrationTypeAWS3 "prod-logs" ∧
  validateIntegrationLabel "Prod Logs" = true ∧ validateIntegrationLabel "prod-logs" = true.
Proof. done. Qed.

(** ** Concrete stores *)

Module SourceDemo.
Record world := { dItems : gmap string SourceIntegration; dPolicy : bool }.
Definition account : string := "111111111111".
Definition statement : SqsPolicyStatement := getStatementForAccount "queue" account.
Definition one_statement : SqsPolicy := {| Version := "2008-10-17"; Statements := [statement] |}.

(** items under their identifiers *)
Definition keyed (p : string * SourceIntegration) : Prop := id_of p.2 = Some p.1.
#[export] Instance keyed_dec p : Decision (keyed p) := decide (id_of p.2 = Some p.1).
Definition items (w : world) : gmap string SourceIntegration := filter keyed (dItems w).
Definition policy (w : world) : list SqsPolicyStatement := if dPolicy w then [statement] else [].
Definition with_items (w : world) (m : gmap string SourceIntegration) : world := {| dItems := m; dPolicy := dPolicy w |}.

(** texts for the policies that occur *)
Definition MarshalPolicy (p : SqsPolicy) : result string :=
  match p with
  | Build_SqsPolicy v [Build_SqsPolicyStatement s e [(k, x)] a r
      (Some (GMap (Some [(PString c1, GIface (Some (GMap (Some [(PString c2, GPrim (PString c3))]))))])))] =>
      if decide ([v; s; e; k; x; a; r; c1; c2; c3] =
                 ["2008-10-17"; sid account; "Allow"; "AWS"; "*"; "sqs:SendMessage"; "queue"; "ArnLike";
                  "aws:SourceArn"; "arn:aws:sns:*:111111111111:*"])
      then Ok "A" else Err (ErrMsg "unsupported")
  | _ => Err (ErrMsg "unsupported")
  end.
Definition UnmarshalPolicy (s : string) : result SqsPolicy :=
  if decide (s = "A") then Ok one_statement else Err (ErrMsg "unsupported").
Definition GetPolicy (w : world) : result string := Ok (if dPolicy w then "A" else "").
Definition SetPolicy (w : world) (attr : string) : world * option error :=
  if decide (attr = "") then ({| dItems := dItems w; dPolicy := false |}, None)
  else if decide (attr = "A") then ({| dItems := dItems w; dPolicy := true |}, None) else (w, Some (ErrMsg "invalid")).

Lemma MarshalPolicy_one p attr : MarshalPolicy p = Ok attr → attr = "A" ∧ p = one_statement.
Proof.
  unfold MarshalPolicy. repeat (case_match; try discriminate). intros [= <-]. split; [done|].
  match goal with Hd : cons _ _ = cons _ _ |- _ => injection Hd as -> -> -> -> -> -> -> -> -> -> end. reflexivity.
Qed.

Definition wanted (ty : option string) (i : SourceIntegration) : Prop :=
  match ty with Some t => type_of_source i = Some t | None => True end.
#[export] Instance wanted_dec ty i : Decision (wanted ty i).
Proof. unfold wanted. destruct ty; apply _. Defined.
(** a page holds one item *)
Definition page_items (w : world) : list (string * SourceIntegration) := take 1 (map_to_list (items w)).
Definition page (w : world) : list string := (page_items w).*1.
Definition Scan (w : world) (ty : option string) : result (list SourceIntegration) :=
  Ok (filter (wanted ty) (page_items w).*2).
Definition GetItem (w : world) (id : string) : result (option SourceIntegration) := Ok (items w !! id).
Definition UnmarshalMetadata (i : SourceIntegration) : result SourceIntegrationMetadata :=
  match siMetadata i with Some m => Ok m | None => Err (ErrMsg "empty") end.
Definition PutItem (w : world) (m : SourceIntegrationMetadata) : world * option error :=
  match smIntegrationID m with
  | Some id => (with_items w (<[id := new_item m]> (dItems w)), None)
  | None => (w, Some (ErrMsg "no key"))
  end.
Definition DeleteItem (w : world) (id : string) : world * option error := (with_items w (delete id (dItems w)), None).
Definition UpdateItem_call (w : world) (id : string) (fields : list (string * attribute)) : world * result SourceIntegration :=
  let i := apply_update fields (default (bare id) (items w !! id)) in
  (with_items w (<[id := i]> (dItems w)), Ok i).
Definition send_nothing (w : world) (es : list Entry) : world * result SendMessageBatchOutput :=
  (w, Err (ErrMsg "unavailable")).

Lemma items_insert w id i : id_of i = Some id → items (with_items w (<[id := i]> (dItems w))) = <[id := i]> (items w).
Proof. intros H. unfold items. cbn. by rewrite map_filter_insert_True. Qed.

Lemma items_key w id i : items w !! id = Some i → id_of i = Some id.
Proof. unfold items. by intros [_ H]%map_lookup_filter_Some. Qed.

Lemma unmarshal_all_Ok l : unmarshal_all (Raw := SourceIntegration) Ok l = Ok l.
Proof. induction l as [|i l IH]; [done|]. cbn. by rewrite IH. Qed.

Lemma page_in_items w id i : (id, i) ∈ page_items w → items w !! id = Some i.
Proof.
  unfold page_items. intros H. apply elem_of_map_to_list. by eapply subseteq_take.
Qed.

#[export] Instance demo_store : SourceStore items policy (λ _, True) page GetPolicy SetPolicy MarshalPolicy UnmarshalPolicy
  Scan GetItem Ok UnmarshalMetadata PutItem DeleteItem UpdateItem_call send_nothing.
Proof.
  constructor.
  - unfold GetPolicy, policy, UnmarshalPolicy. intros w attr [= <-]. destruct (dPolicy w); [|done].
    split; [done|]. intros p _. rewrite decide_True by done. by intros [= <-].
  - unfold SetPolicy. intros w attr w' err. case_decide as H1; [|case_decide as H2].
    + intros [= <- <-]. split_and!; [done|done|]. intros p [Ha _]%MarshalPolicy_one. congruence.
    + intros [= <- <-]. split_and!; [done|congruence|]. by intros p [_ ->]%MarshalPolicy_one.
    + by intros [= <- <-].
  - apply items_key.
  - unfold Scan. intros w ty raws l _ [= <-]. rewrite unmarshal_all_Ok. intros [= <-] i.
    rewrite list_elem_of_filter, list_elem_of_fmap. split.
    + intros [Ht ((id&i')&->&Hi)]. exists id. split_and!; [by apply (list_elem_of_fmap_2 fst _ (id, i'))| |done].
      by apply page_in_items.
    + intros (id&Hpg&Hi&Ht). split; [done|]. apply list_elem_of_fmap in Hpg as ([id' i']&->&Hin).
      exists (id', i'). split; [|done]. pose proof (page_in_items _ _ _ Hin). cbn in *. congruence.
  - unfold GetItem. intros w id r _ [= <-]. destruct (items w !! id) as [i|] eqn:E; [|done]. exists i. split; [done|].
    intros m. unfold UnmarshalMetadata. destruct (siMetadata i); [|done]. by intros [= <-].
  - unfold PutItem. intros w m id w' err Hid. rewrite Hid. intros [= <- <-]. split; [done|]. by apply items_insert.
  - intros w id w' err [= <- <-]. split; [done|]. unfold items. cbn. by rewrite map_filter_delete.
  - intros w id fields w' r [= <- <-]. split; [done|]. split; [|congruence]. apply items_insert.
    rewrite (proj2 (apply_update_fixed _ _)). destruct (items w !! id) eqn:E; [by apply items_key in E|done].
  - done.
Qed.

#[local] Instance once : Backoff := bounded_backoff 1.
Definition request : PutIntegrationInput :=
  {| piAWSAccountID := account; piIntegrationLabel := "logs"; piIntegrationType := IntegrationTypeAWS3;
     piCWEEnabled := None; piRemediationEnabled := None; piScanIntervalMins := None; piUserID := "u";
     piS3Bucket := Some "bucket"; piS3Prefix := None; piKmsKey := None; piLogTypes := None; piSkipScanQueue := None |}.
Definition start : world := {| dItems := ∅; dPolicy := false |}.
Definition NewUUID (n : nat) : string := "id" +:+ itoa (Z.of_nat n).

Definition put (w : world) : outcome (world * list repair * api SourceIntegrationMetadata) :=
  PutIntegration "queue" "us-west-2" GetPolicy SetPolicy MarshalPolicy UnmarshalPolicy None Scan Ok (λ _, None) PutItem
    (λ _ _, None) (λ _ _ _, None) (λ _ _ _, Ok true) [] (λ _, Ok "") send_nothing NewUUID Z.of_nat w 0 request.
Definition after_put : world := {| dItems := {["id0" := new_item (generateNewIntegration NewUUID Z.of_nat 0 request)]};
  dPolicy := true |}.

Lemma permissions_match_sources_witness :
  matched (items after_put) (policy after_put) account ∧ grants (policy after_put) account = 1%nat.
Proof.
  split; [|vm_compute; reflexivity].
  apply (permissions_match_sources "queue" "us-west-2" items policy (λ _, True) page GetPolicy SetPolicy MarshalPolicy
    UnmarshalPolicy None Scan GetItem Ok UnmarshalMetadata (λ _, None) PutItem DeleteItem (λ _, None) UpdateItem_call
    (λ _ _, None) (λ _ _ _, None) (λ _ _ _, Ok true) [] (λ _, Ok "") send_nothing NewUUID Z.of_nat
    start ([] ++ []) after_put).
  - eapply steps_more; [|apply steps_none]. 
    apply step_put with (n := 0%nat) (input := request)
      (r := Good (generateNewIntegration NewUUID Z.of_nat 0 request)).
    + vm_compute. reflexivity.
    + vm_compute. reflexivity.
  - apply not_elem_of_nil.
  - right. split; [|vm_compute; reflexivity]. intros (id&i&Hi&_). discriminate Hi.
Defined.

(** two log sources of one account, on two pages *)
Definition source (id : string) : SourceIntegration :=
  new_item {| smAWSAccountID := Some account; smCreatedAtTime := None; smCreatedBy := None; smIntegrationID := Some id;
     smIntegrationLabel := Some id; smIntegrationType := Some IntegrationTypeAWS3; smRemediationEnabled := None;
     smCWEEnabled := None; smScanIntervalMins := None; smS3Bucket := None; smS3Prefix := None; smKmsKey := None;
     smLogTypes := None; smLogProcessingRole := None; smStackName := None |}.
Definition two_pages : world := {| dItems := {["a" := source "a"; "b" := source "b"]}; dPolicy := true |}.

(** the one source of an account that is on the first page is deleted with the
    permission that the other source needs *)
Example second_page_permission_removed : ∃ w',
  DeleteIntegration "queue" GetPolicy SetPolicy MarshalPolicy UnmarshalPolicy None Scan GetItem Ok UnmarshalMetadata
    DeleteItem two_pages (default "" (head (page two_pages))) = Ret (w', [], None) ∧
  matched (items two_pages) (policy two_pages) account ∧ ¬ matched (items w') (policy w') account.
Proof.
  eexists. split_and!; [vm_compute; reflexivity|left; split; [|by vm_compute]|].
  - exists "a", (source "a"). by vm_compute.
  - intros [[_ H]|[H _]]; [vm_compute in H; discriminate|]. apply H.
    first [exists "a", (source "a"); by vm_compute|exists "b", (source "b"); by vm_compute].
Qed.
End SourceDemo.
