(* ===== verification/SourceScans.v ===== *)
(** * Templates of sources, and the scheduler of scans

    Model of src/internal/core/source_api/api/get_integration_template.go and of
    src/internal/compliance/snapshot_scheduler, which asks the source API for
    the accounts to scan and starts the scans that are due, with the theorems
    about both. *)

From S2P Require Import Prelude Backoff AlertOutputs Sqsbatch GatewayApi GenericApi SourceApi.

#[local] Open Scope Z_scope.

(** ** Templates *)

Fixpoint str_drop (n : nat) (s : string) : string :=
  match n, s with S n, String _ s => str_drop n s | _, _ => s end.

(** strings.Replace(s, old, new, 1) for an [old] that is not empty *)
Fixpoint replace_once (old new s : string) : string :=
  if has_prefix old s then new +:+ str_drop (String.length old) s
  else match s with "" => "" | String c s => String c (replace_once old new s) end.

Definition marker (name : string) : string := "Value: '' # " +:+ name.
Definition fill_in (name v s : string) : string := replace_once (marker name) ("Value: '" +:+ v +:+ "' # " +:+ name) s.
Definition bool_text (b : bool) : string := if b then "true" else "false".

Record templateCacheItem := { tcTimestamp : Z; tcBody : string }.

Record GetIntegrationTemplateInput := {
  gtAWSAccountID : string;
  gtIntegrationType : string;
  gtIntegrationLabel : string;
  gtRemediationEnabled : option bool;
  gtCWEEnabled : option bool;
  gtS3Bucket : option string;
  gtS3Prefix : option string;
  gtKmsKey : option string
}.

Definition minute : Z := 60000000000.
Definition cacheTimeout : Z := 30 * minute.
Definition max_duration : Z := two63 - 1.
(** t1.Sub(t0), which saturates *)
Definition time_sub (t1 t0 : Z) : Z := Z.max (- two63) (Z.min max_duration (t1 - t0)).

Definition template_key (integrationType : string) : string :=
  if decide (integrationType = IntegrationTypeAWSScan) then "panther-cloudsec-iam/v1.0.0/template.yml"
  else "panther-log-analysis-iam/v1.0.0/template.yml".

Section Templates.
(** what S3 answers for a key at the [n]-th reading of the clock *)
Context (region : string) (GetObject : nat → string → result string) (now : nat → Z).

Definition getTemplate (cache : gmap string templateCacheItem) (n : nat) (integrationType : string)
    : gmap string templateCacheItem * result string :=
  let fetch :=
    match GetObject n (template_key integrationType) with
    | Err e => (cache, Err e)
    | Ok body => (<[integrationType := {| tcTimestamp := now (S n); tcBody := body |}]> cache, Ok body)
    end in
  match cache !! integrationType with
  | Some item => if decide (time_sub (now n) (tcTimestamp item) < cacheTimeout) then (cache, Ok (tcBody item)) else fetch
  | None => fetch
  end.

Definition scan_template (input : GetIntegrationTemplateInput) (template : string) : string :=
  fill_in "DeployRemediation" (bool_text (default false (gtRemediationEnabled input)))
    (fill_in "DeployCloudWatchEventSetup" (bool_text (default false (gtCWEEnabled input)))
      (fill_in "MasterAccountRegion" region template)).

Definition log_template (input : GetIntegrationTemplateInput) (bucket template : string) : string :=
  let t := fill_in "S3Prefix" (default "*" (gtS3Prefix input))
             (fill_in "S3Bucket" bucket
               (fill_in "RoleSuffix" (normalizedLabel (gtIntegrationLabel input)) template)) in
  match gtKmsKey input with Some key => fill_in "KmsKey" key t | None => t end.

(** the body and the name of the stack; the bucket is not required by the
    validation and not checked *)
Definition GetIntegrationTemplate (cache : gmap string templateCacheItem) (n : nat) (input : GetIntegrationTemplateInput)
    : outcome (gmap string templateCacheItem * result (string * string)) :=
  let '(cache, template) := getTemplate cache n (gtIntegrationType input) in
  match template with
  | Err e => Ret (cache, Err e)
  | Ok template =>
      let t := fill_in "MasterAccountId" (gtAWSAccountID input) template in
      body ← (if decide (gtIntegrationType input = IntegrationTypeAWSScan) then Ret (scan_template input t)
              else bucket ← deref (gtS3Bucket input); Ret (log_template input bucket t));
      Ret (cache, Ok (body, getStackName (gtIntegrationType input) (gtIntegrationLabel input)))
  end.

(** *** Cached templates are at most half an hour old *)

(** every cached body was read from S3, just before its time *)
Definition cache_ok (cache : gmap string templateCacheItem) (n : nat) : Prop :=
  ∀ ty item, cache !! ty = Some item →
    ∃ m, (m < n)%nat ∧ GetObject m (template_key ty) = Ok (tcBody item) ∧ tcTimestamp item = now (S m).

(** a template that is used was read now or less than half an hour ago, and the
    cache keeps what is needed for this *)
Theorem template_fresh cache n ty cache' r :
  cache_ok cache n → getTemplate cache n ty = (cache', r) →
  cache_ok cache' (S n) ∧
  match r with
  | Err _ => cache' = cache
  | Ok body => ∃ m, GetObject m (template_key ty) = Ok body ∧
      (m = n ∨ ((m < n)%nat ∧ now n - now (S m) < cacheTimeout))
  end.
Proof.
  intros Hc Hg. unfold getTemplate in Hg.
  assert (cache_ok cache (S n)) as Hc'.
  { intros t it H. destruct (Hc t it H) as (m&?&?). exists m. split; [lia|done]. }
  assert (∀ cache' r, (match GetObject n (template_key ty) with
    | Err e => (cache, Err e)
    | Ok body => (<[ty := {| tcTimestamp := now (S n); tcBody := body |}]> cache, Ok body)
    end) = (cache', r) → cache_ok cache' (S n) ∧ match r with Err _ => cache' = cache | Ok body =>
      ∃ m, GetObject m (template_key ty) = Ok body ∧ (m = n ∨ ((m < n)%nat ∧ now n - now (S m) < cacheTimeout)) end) as Hf.
  { intros c' r'. destruct (GetObject n _) as [body|e] eqn:Eg; intros [= <- <-]; [|done].
    split; [|exists n; auto]. intros t it [[<- <-]|[_ H]]%lookup_insert_Some; [|by apply Hc'].
    exists n. split; [lia|done]. }
  destruct (cache !! ty) as [item|] eqn:Ec; [|by apply Hf].
  case_decide as Ht; [|by apply Hf]. injection Hg as <- <-. split; [done|].
  destruct (Hc _ _ Ec) as (m&Hm&Hb&Hts). exists m. split; [done|]. right. split; [done|].
  unfold time_sub, cacheTimeout, minute, max_duration, two63 in *. lia.
Qed.
End Templates.

(** a template of a log source without a bucket cannot be made *)
Theorem template_without_bucket_panics region GetObject now cache n input cache' template :
  gtIntegrationType input ≠ IntegrationTypeAWSScan → gtS3Bucket input = None →
  getTemplate GetObject now cache n (gtIntegrationType input) = (cache', Ok template) →
  ∃ why, GetIntegrationTemplate region GetObject now cache n input = Panic why.
Proof.
  intros Ht Hb Hg. unfold GetIntegrationTemplate. rewrite Hg, decide_False, Hb by done. by eexists.
Qed.

(** ** The scheduler; [n] counts the readings of the clock *)

Section Scheduler.
Context (now : nat → Z).

(** a field of the embedded scan information *)
Definition scan_field {A} (field : SourceIntegrationScanInformation → A) (i : SourceIntegration) : outcome A :=
  s ← deref (siScan i); Ret (field s).

Definition scanIntervalElapsed (n : nat) (i : SourceIntegration) : outcome (nat * bool) :=
  match siScan i with
  | None => Ret (n, true)
  | Some s =>
      match siLastScanEndTime s with
      | None => Ret (n, true)
      | Some lastEnd =>
          m ← deref (siMetadata i);
          mins ← deref (smScanIntervalMins m);
          Ret (S n, bool_decide (int64 (mins * minute) ≤ time_sub (now n) lastEnd))
      end
  end.

Definition scanIsNotOngoing (i : SourceIntegration) : outcome bool :=
  match siStatus i with
  | None => Ret true
  | Some st => status ← deref (ssScanStatus st); Ret (bool_decide (status ≠ StatusScanning))
  end.

Definition scanIsStuck (n : nat) (i : SourceIntegration) : outcome (nat * bool) :=
  match siStatus i with
  | None => Ret (n, false)
  | Some st =>
      lastEnd ← scan_field siLastScanEndTime i;
      match lastEnd with
      | None => Ret (n, false)
      | Some _ =>
          status ← deref (ssScanStatus st);
          if decide (status = StatusScanning) then scanIntervalElapsed n i else Ret (n, false)
      end
  end.

(** the condition of the loop *)
Definition scan_needed (n : nat) (i : SourceIntegration) : outcome (nat * bool) :=
  r ← scanIntervalElapsed n i;
  let '(n, elapsed) := r in
  first ← (if elapsed : bool then scanIsNotOngoing i else Ret false);
  if first : bool then Ret (n, true) else scanIsStuck n i.

Fixpoint integrations_to_scan (n : nat) (l : list SourceIntegration)
    : outcome (nat * list (option SourceIntegrationMetadata)) :=
  match l with
  | [] => Ret (n, [])
  | i :: l =>
      r ← scan_needed n i;
      let '(n, needed) := r in
      (* the identifier is logged *)
      _ ← (if needed : bool then Ret "" else promoted smIntegrationID i);
      r ← integrations_to_scan n l;
      let '(n, rest) := r in
      Ret (n, if (needed : bool) then siMetadata i :: rest else rest)
  end.

Context {W : Type} (ServicePollers : list string) (MarshalScanMsg : ScanRequest → result string).
Context {bo : Backoff} (client_SendMessageBatch : W → list Entry → W * result SendMessageBatchOutput).
(** the answer of the source API; the request asks for the type aws-scan *)
Context {In : Type} (list_input : option string → In) (MarshalIn : In → result string).
Context (InvokeLambda : string → string → result (option string * string)).
Context (UnmarshalError : string → result (option string * option string)).
Context (UnmarshalList : string → result (list SourceIntegration)).

Definition getEnabledIntegrations : option (list SourceIntegration) * option apiErr :=
  Invoke MarshalIn InvokeLambda UnmarshalError UnmarshalList "panther-source-api" (list_input (Some "aws-scan")) true.

(** nil metadata is followed when the messages are made *)
Definition PollAndIssueNewScans (w : W) (n : nat) : outcome (W * option apiErr) :=
  match getEnabledIntegrations with
  | (_, Some e) => Ret (w, Some e)
  | (l, None) =>
      match default [] l with
      | [] => Ret (w, None)
      | enabled =>
          r ← integrations_to_scan n enabled;
          ms ← mapM deref r.2;
          ScanAllResources ServicePollers MarshalScanMsg client_SendMessageBatch w ms
      end
  end.
End Scheduler.

(** *** What is scheduled *)

(** the fields that the scheduler follows are there *)
Definition schedulable (i : SourceIntegration) : Prop :=
  (∃ m id, siMetadata i = Some m ∧ smIntegrationID m = Some id ∧
     match siScan i with
     | Some s => is_Some (siLastScanEndTime s) → is_Some (smScanIntervalMins m)
     | None => siStatus i = None
     end) ∧
  match siStatus i with Some st => is_Some (ssScanStatus st) | None => True end.

Definition last_end (i : SourceIntegration) : option Z := s ← siScan i; siLastScanEndTime s.
Definition interval (i : SourceIntegration) : Z := default 0 (m ← siMetadata i; smScanIntervalMins m).
Definition scanning (i : SourceIntegration) : Prop := (st ← siStatus i; ssScanStatus st) = Some StatusScanning.

(** due at time [t]: never completed and not under way, or completed an
    interval ago, under way or not *)
Definition due (t : Z) (i : SourceIntegration) : Prop :=
  match last_end i with
  | None => ¬ scanning i
  | Some e => int64 (interval i * minute) ≤ time_sub t e
  end.

Lemma time_sub_mono t t' e : t ≤ t' → time_sub t e ≤ time_sub t' e.
Proof. unfold time_sub, max_duration, two63. lia. Qed.

Lemma due_mono t t' i : t ≤ t' → due t i → due t' i.
Proof. unfold due. intros Ht. destruct (last_end i); [|done]. pose proof (time_sub_mono t t' z Ht). lia. Qed.

Lemma elapsed_completed now n i e m mins :
  last_end i = Some e → siMetadata i = Some m → smScanIntervalMins m = Some mins →
  scanIntervalElapsed now n i = Ret (S n, bool_decide (int64 (mins * minute) ≤ time_sub (now n) e)).
Proof.
  unfold last_end, scanIntervalElapsed. intros He Hm Hmins. destruct (siScan i) as [s|]; [|done].
  cbn in He. by rewrite He, Hm; cbn; rewrite Hmins.
Qed.

Lemma elapsed_never now n i : last_end i = None → scanIntervalElapsed now n i = Ret (n, true).
Proof. unfold last_end, scanIntervalElapsed. destruct (siScan i) as [s|]; [|done]. cbn. by intros ->. Qed.

Lemma scan_needed_spec now n i t0 t1 :
  (∀ k, t0 ≤ now k ≤ t1) → schedulable i →
  ∃ n' b, scan_needed now n i = Ret (n', b) ∧ (due t0 i → b = true) ∧ (b = true → due t1 i).
Proof.
  intros Hnow ((m&id&Hm&Hid&Hi)&Hst). unfold scan_needed, due, scanning.
  destruct (last_end i) as [e|] eqn:He.
  - assert (∃ s, siScan i = Some s ∧ siLastScanEndTime s = Some e) as (s&Hs&Hse).
    { unfold last_end in He. destruct (siScan i) as [s|]; [|done]. by exists s. }
    rewrite Hs in Hi. destruct Hi as [mins Hmins]; [by rewrite Hse|].
    pose proof (λ k, elapsed_completed now k i e m mins He Hm Hmins) as Hel. rewrite Hel. run.
    pose proof (λ k, conj (time_sub_mono _ _ e (proj1 (Hnow k))) (time_sub_mono _ _ e (proj2 (Hnow k)))) as Ht.
    unfold interval. rewrite Hm. cbn [mbind option_bind]. rewrite Hmins. change (default 0 (Some mins)) with mins.
    pose proof (Ht n). pose proof (Ht (S n)). unfold scanIsNotOngoing, scanIsStuck, scan_field. rewrite Hs. run.
    destruct (bool_decide (int64 (mins * minute) ≤ time_sub (now n) e)) eqn:Hb;
      [apply bool_decide_eq_true in Hb|apply bool_decide_eq_false in Hb]; run;
    (destruct (siStatus i) as [st|];
     [destruct Hst as [status ->]; cbn [deref]; run; rewrite ?Hse, ?Hel; cbn [deref]; run;
      destruct (decide (status = StatusScanning)) as [->|Hne];
      [rewrite ?(bool_decide_eq_false_2 (StatusScanning ≠ StatusScanning)) by tauto
      |rewrite ?(bool_decide_eq_true_2 (status ≠ StatusScanning)) by done]; run|]);
    (eexists _, _; split; [done|]); rewrite ?bool_decide_eq_true; split; (done || lia || (intros; exfalso; lia)).
  - rewrite (elapsed_never _ _ _ He). run. unfold scanIsNotOngoing, scanIsStuck, scan_field.
    destruct (siStatus i) as [st|] eqn:Est.
    + destruct Hst as [status Hstatus]. cbn [mbind option_bind]. rewrite Hstatus. cbn [deref]. run.
      destruct (siScan i) as [s|] eqn:Es; [|done]. unfold last_end in He. rewrite Es in He. cbn in He. cbn [deref]. run.
      rewrite He. case_bool_decide as Hne; (eexists _, _; split; [done|]); split; try done.
      * intros _ [=]. congruence.
      * intros Hns. exfalso. apply Hns. f_equal. by destruct (decide (status = StatusScanning)).
    + eexists _, _. split; [done|]. done.
Qed.

(** Scans are scheduled when they are due.  For accounts with the fields
    the scheduler follows, the loop does not panic; every account that is due
    when it starts is selected, and every selected one is due when it ends.  In
    particular a scan that is under way is started again once an interval passed
    since the last one ended. *)
Lemma schedule_due now n l t0 t1 :
  (∀ k, t0 ≤ now k ≤ t1) → Forall schedulable l →
  ∃ n' ms, integrations_to_scan now n l = Ret (n', ms) ∧
    ∃ chosen, ms = siMetadata <$> chosen ∧ chosen `sublist_of` l ∧
      Forall (due t1) chosen ∧ ∀ i, i ∈ l → due t0 i → i ∈ chosen.
Proof.
  intros Hnow Hl. revert n. induction Hl as [|i l Hi _ IH]; intros n.
  - exists n, []. split; [done|]. exists []. split_and!; [done|constructor|constructor|].
    by intros i ?%not_elem_of_nil.
  - destruct (scan_needed_spec now n i t0 t1 Hnow Hi) as (n1&b&Hn&Hin&Hout).
    destruct (IH n1) as (n2&ms&Hms&chosen&->&Hsub&Hdue&Hall).
    cbn [integrations_to_scan]. rewrite Hn. run. destruct Hi as ((m&id&Hm&Hid&_)&_).
    assert (∃ x, (if b then Ret "" else promoted smIntegrationID i) = Ret x) as [x Hx].
    { destruct b; [by eexists|]. unfold promoted. rewrite Hm. cbn. rewrite Hid. by eexists. }
    rewrite Hx. run. rewrite Hms. run. eexists _, _. split; [done|].
    destruct b.
    + exists (i :: chosen). split_and!; [done|by constructor|constructor; auto|].
      intros j [->|Hj]%elem_of_cons Hd; [by left|right; auto].
    + exists chosen. split_and!; [done|by constructor|done|].
      intros j [->|Hj]%elem_of_cons Hd; [|auto]. by specialize (Hin Hd).
Qed.

(** *** The messages *)

Section Messages.
Context {W : Type} (ServicePollers : list string) (marshal : ScanRequest → string).
Context {bo : Backoff} (client : W → list Entry → W * result SendMessageBatchOutput).
Context (queue : W → list Entry) (requests : W → list (list Entry)) (Hclient : SqsClient client queue requests).
Context (Hsize : ∀ r, slen (marshal r) ≤ maxMessageBytes).

(** the message that asks to scan the resources of a type in an account *)
Definition scan_message (i : SourceIntegration) (ty : string) : Entry :=
  let m := siMetadata i in
  {| Id := Some (default "" (m ≫= smIntegrationID) +:+ "-" +:+ remove_byte "." ty);
     MessageBody := Some (marshal {| srAWSAccountID := m ≫= smAWSAccountID; srIntegrationID := m ≫= smIntegrationID;
                                     srResourceType := ty |});
     DelaySeconds := None |}.

Lemma type_entries_spec i m id types : siMetadata i = Some m → smIntegrationID m = Some id →
  type_entries (λ r, Ok (marshal r)) m types = Ret (Good (scan_message i <$> types)).
Proof.
  intros Hm Hid. induction types as [|ty types IH]; [done|]. cbn [type_entries]. rewrite Hid. cbn [deref]. run.
  rewrite IH. cbn. unfold scan_message at 2. rewrite Hm. cbn. by rewrite Hid.
Qed.

Lemma scan_entries_spec l :
  Forall schedulable l → ∃ ms, mapM deref (siMetadata <$> l) = Ret ms ∧
    scan_entries ServicePollers (λ r, Ok (marshal r)) ms = Ret (Good (i ← l; scan_message i <$> ServicePollers)).
Proof.
  induction 1 as [|i l ((m&id&Hm&Hid&_)&_) _ (ms&Hms&Hes)]; [by exists []|].
  exists (m :: ms). cbn [fmap list_fmap mapM]. rewrite Hm. cbn [deref]. run. rewrite Hms. run. split; [done|].
  cbn [scan_entries]. rewrite (type_entries_spec i m id) by done. run. rewrite Hes. done.
Qed.

Context {In : Type} (list_input : option string → In) (MarshalIn : In → result string).
Context (InvokeLambda : string → string → result (option string * string)).
Context (UnmarshalError : string → result (option string * option string)).
Context (UnmarshalList : string → result (list SourceIntegration)).

(** the scheduler starts the scans that are due.  When the source API
    answers with accounts that have the fields the scheduler follows, it does
    not panic, and without an error exactly one message per resource type is in
    the queue for every chosen account, where every account that is due when the
    loop starts is chosen and every chosen one is due when it ends; a scan that
    is under way is due again once an interval passed since the last one ended. *)
Theorem scheduler_correct now w n l t0 t1 :
  (∀ k, t0 ≤ now k ≤ t1) → Forall schedulable l → Forall batch_ok (requests w) →
  getEnabledIntegrations list_input MarshalIn InvokeLambda UnmarshalError UnmarshalList = (Some l, None) →
  ∃ w' err chosen,
    PollAndIssueNewScans now ServicePollers (λ r, Ok (marshal r)) client list_input MarshalIn InvokeLambda UnmarshalError
      UnmarshalList w n = Ret (w', err) ∧
    (chosen `sublist_of` l ∧ Forall (due t1) chosen ∧ ∀ i, i ∈ l → due t0 i → i ∈ chosen) ∧
    match err with
    | None => queue w' ≡ₚ queue w ++ (i ← chosen; scan_message i <$> ServicePollers)
    | Some _ => queue w ⊆+ queue w'
    end.
Proof using Hclient Hsize.
  intros Hnow Hl Hw Hlist. unfold PollAndIssueNewScans. rewrite Hlist. cbn [default]. unfold Datatypes.id.
  destruct (schedule_due now n l t0 t1 Hnow Hl) as (n'&ms&Hms&chosen&->&Hsub&Hdue&Hall).
  destruct l as [|i l].
  - apply sublist_nil_r in Hsub as ->. exists w, None, []. split_and!; try done. cbn. by rewrite app_nil_r.
  - cbv match. rewrite Hms. run. cbn [snd].
    destruct (scan_entries_spec chosen) as (l'&Hl'&Hes).
    { apply Forall_forall. intros j Hj. apply (proj1 (Forall_forall _ _) Hl). by eapply elem_of_sublist. }
    rewrite Hl'. run. unfold ScanAllResources. rewrite Hes. run.
    destruct (SendMessageBatch_queue client queue requests Hclient w (i ← chosen; scan_message i <$> ServicePollers))
      as (r&left&err&->&_&Hq); [|done|].
    { apply Forall_forall. intros e (j&He&_)%list_elem_of_bind. apply list_elem_of_fmap in He as (ty&->&_).
      unfold entrySize. cbn. apply Hsize. }
    run. eexists _, _, chosen. split; [done|]. split; [done|]. by destruct err.
Qed.
End Messages.

(** an account that was added without an interval, which the source API allows,
    stops the scheduling of all accounts once its first scan ended *)
Theorem no_interval_stops_scheduling now n before i after m s t e t0 t1 :
  (∀ k, t0 ≤ now k ≤ t1) → Forall schedulable before →
  siMetadata i = Some m → smScanIntervalMins m = None → siScan i = Some s → siLastScanEndTime s = Some e →
  siStatus i = Some t → ∃ why, integrations_to_scan now n (before ++ i :: after) = Panic why.
Proof.
  intros Hnow Hb Hm Hi Hs He Hst. revert n. induction Hb as [|j l Hj _ IH]; intros n.
  - cbn. unfold scan_needed, scanIntervalElapsed. rewrite Hs, He, Hm. cbn. rewrite Hi. by eexists.
  - destruct (scan_needed_spec now n j t0 t1 Hnow Hj) as (n1&b&Hn&_). destruct (IH n1) as [why Hw].
    cbn. rewrite Hn. run. destruct Hj as ((mj&id&Hmj&Hid&_)&_).
    assert (∃ x, (if b then Ret "" else promoted smIntegrationID j) = Ret x) as [x Hx].
    { destruct b; [by eexists|]. unfold promoted. rewrite Hmj. cbn. rewrite Hid. by eexists. }
    rewrite Hx. run. rewrite Hw. by eexists.
Qed.

(** ** Concrete accounts *)

Module SchedulerDemo.
Definition metadata (id : string) (mins : option Z) : SourceIntegrationMetadata :=
  {| smAWSAccountID := Some "111111111111"; smCreatedAtTime := None; smCreatedBy := None; smIntegrationID := Some id;
     smIntegrationLabel := None; smIntegrationType := Some IntegrationTypeAWSScan; smRemediationEnabled := None;
     smCWEEnabled := None; smScanIntervalMins := mins; smS3Bucket := None; smS3Prefix := None; smKmsKey := None;
     smLogTypes := None; smLogProcessingRole := None; smStackName := None |}.
(** never scanned *)
Definition fresh_account : SourceIntegration :=
  {| siMetadata := Some (metadata "a" (Some 60)); siStatus := None; siScan := None |}.
(** under way, an interval after the last one ended *)
Definition busy_account : SourceIntegration :=
  {| siMetadata := Some (metadata "b" (Some 60));
     siStatus := Some {| ssScanStatus := Some StatusScanning; ssEventStatus := None |};
     siScan := Some {| siLastScanEndTime := Some 0; siLastScanErrorMessage := None; siLastScanStartTime := None |} |}.
Definition clock (k : nat) : Z := 60 * minute.
Definition poll : outcome (list Entry * list (list Entry) * option apiErr) :=
  PollAndIssueNewScans clock (bo := bounded_backoff 1) ["AWS.S3.Bucket"] (λ _, Ok "{}") queue_all (λ o, o)
    (λ _, Ok "list") (λ _ _, Ok (None, "l")) (λ _, Ok (None, None)) (λ _, Ok [fresh_account; busy_account]) ([], []) 0.

Lemma scheduler_correct_witness :
  (∃ w' err, poll = Ret (w', err)) ∧ (Id <$> (if poll is Ret (w, _) then w.1 else [])) = [Some "a-AWSS3Bucket"; Some "b-AWSS3Bucket"].
Proof.
  split; [|vm_compute; reflexivity].
  destruct (scheduler_correct ["AWS.S3.Bucket"] (λ _, "{}") (bo := bounded_backoff 1) queue_all fst snd queue_all_ok
    ltac:(intros; vm_compute; discriminate) (λ o, o) (λ _, Ok "list") (λ _ _, Ok (None, "l")) (λ _, Ok (None, None))
    (λ _, Ok [fresh_account; busy_account]) clock ([], []) 0 [fresh_account; busy_account] (60 * minute) (60 * minute))
    as (w'&err&chosen&Hp&_).
  - intros k. unfold clock. lia.
  - repeat constructor.
    + exists (metadata "a" (Some 60)), "a". done.
    + exists (metadata "b" (Some 60)), "b". split_and!; [done|done|]. intros _. by eexists.
    + by eexists.
  - constructor.
  - reflexivity.
  - exists w', err. exact Hp.
Defined.
End SchedulerDemo.
