(* ===== verification/Remediation.v ===== *)
(** * Remediation API and processor

    Model of src/internal/compliance/remediation_api and
    src/internal/compliance/remediation_processor: remediating a resource at
    once, through a queue, and listing what remediations there are, with the
    theorems about them.  The policies and resources APIs, Lambda, SQS and JSON
    are parameters. *)

From S2P Require Import Prelude AlertOutputs GenericApi.

#[local] Open Scope Z_scope.

(** ** Data *)

Record RemediateResource := { rrPolicyID : string; rrResourceID : string }.

(** what is used of a policy; [V] are JSON values *)
Record RemediationPolicy (V : Type) := { AutoRemediationID : string; AutoRemediationParameters : V }.
Arguments AutoRemediationID {V}. Arguments AutoRemediationParameters {V}.

Record Payload (V : Type) := { plRemediationID : string; plResource : V; plParameters : V }.
Arguments plRemediationID {V}. Arguments plResource {V}. Arguments plParameters {V}.

Record LambdaInput (V : Type) := { liAction : string; liPayload : option (Payload V) }.
Arguments liAction {V}. Arguments liPayload {V}.

(** errors as the handlers tell them apart *)
Inductive remediationError :=
| ErrNotFound                  (* remediation.ErrNotFound *)
| GenericError (e : apiErr)    (* a type of genericapi *)
| OtherError (e : error).

Record answer := { anStatusCode : Z; anBody : string }.
Definition status (code : Z) : answer := {| anStatusCode := code; anBody := "" |}.

Definition not_found_text : string := "Remediation not associated with policy".
Definition RemediationLambdaNotFound : string := "Remediation Lambda not found or misconfigured".

Section Remediation.
Context {W V Remediations : Type}.
Context (GetPolicy : W → string → result (RemediationPolicy V)) (GetResource : W → string → result V).
Context (MarshalInput : LambdaInput V → result string).
(** lambda.Invoke of the remediation Lambda: FunctionError and the payload *)
Context (InvokeLambda : W → string → W * result (option string * string)).
Context (UnmarshalRemediations : string → result Remediations) (MarshalRemediations : Remediations → result string).
Context (UnmarshalRequest : string → result RemediateResource) (Validate : RemediateResource → option error).
Context (MarshalError : string → result string).
Context (SendMessage : W → string → W * option error).

(** ** The invoker (remediation/invoke.go) *)

Definition invokeLambda (w : W) (input : LambdaInput V) : W * (string + remediationError) :=
  match MarshalInput input with
  | Err e => (w, inr (OtherError (ErrWrap "failed to marshal lambda input" e)))
  | Ok payload =>
      match InvokeLambda w payload with
      | (w, Err e) => (w, inr (OtherError e))
      | (w, Ok (Some _, text)) => (w, inr (OtherError (ErrMsg ("error invoking lambda: " +:+ text))))
      | (w, Ok (None, text)) => (w, inl text)
      end
  end.

(** errors.Wrap hides the type of an error *)
Definition wrapped (msg : string) (e : remediationError) : remediationError :=
  OtherError (ErrWrap msg (match e with
                           | ErrNotFound => ErrMsg not_found_text
                           | GenericError e => ErrMsg (ErrorText e)
                           | OtherError e => e
                           end)).

Definition Remediate (w : W) (remediation : RemediateResource) : W * option remediationError :=
  match GetPolicy w (rrPolicyID remediation) with
  | Err e => (w, Some (wrapped "Encountered issue when getting policy" (OtherError e)))
  | Ok policy =>
      if decide (AutoRemediationID policy = "") then (w, Some ErrNotFound)
      else
        match GetResource w (rrResourceID remediation) with
        | Err e => (w, Some (wrapped "Encountered issue when getting resource" (OtherError e)))
        | Ok attributes =>
            match invokeLambda w {| liAction := "remediate";
                                    liPayload := Some {| plRemediationID := AutoRemediationID policy; plResource := attributes;
                                                         plParameters := AutoRemediationParameters policy |} |} with
            | (w, inr e) => (w, Some (wrapped "failed to invoke remediator" e))
            | (w, inl _) => (w, None)
            end
        end
  end.

Definition invoker_GetRemediations (w : W) : W * (Remediations + remediationError) :=
  match invokeLambda w {| liAction := "listRemediations"; liPayload := None |} with
  | (w, inr e) => (w, inr e)
  | (w, inl text) =>
      (w, match UnmarshalRemediations text with Ok r => inl r | Err e => inr (OtherError e) end)
  end.

(** ** The handlers of the API *)

Definition badRequest (message : string) : answer :=
  {| anStatusCode := 400; anBody := match MarshalError message with Ok body => body | Err _ => "invalid request" end |}.

(** gatewayapi.MarshalResponse of an error model *)
Definition error_response (message : string) (code : Z) : answer :=
  match MarshalError message with Ok body => {| anStatusCode := code; anBody := body |} | Err _ => status 500 end.

Definition checkRequest (body : string) : RemediateResource + answer :=
  match UnmarshalRequest body with
  | Err _ => inr (badRequest "invalid request")
  | Ok r => match Validate r with Some e => inr (badRequest (errText e)) | None => inl r end
  end.

Definition RemediateResource_handler (w : W) (body : string) : W * answer :=
  match checkRequest body with
  | inr a => (w, a)
  | inl r =>
      match Remediate w r with
      | (w, None) => (w, status 200)
      | (w, Some ErrNotFound) => (w, error_response not_found_text 400)
      | (w, Some (GenericError (ApiError DoesNotExistError _ _))) => (w, error_response RemediationLambdaNotFound 404)
      | (w, Some _) => (w, status 500)
      end
  end.

(** the message is the body of the request *)
Definition RemediateResourceAsync (w : W) (body : string) : W * answer :=
  match checkRequest body with
  | inr a => (w, a)
  | inl _ =>
      match SendMessage w body with
      | (w, Some _) => (w, status 500)
      | (w, None) => (w, status 200)
      end
  end.

Definition GetRemediations (w : W) : W * answer :=
  match invoker_GetRemediations w with
  | (w, inr (GenericError (ApiError DoesNotExistError _ _))) => (w, error_response RemediationLambdaNotFound 404)
  | (w, inr _) => (w, status 500)
  | (w, inl r) =>
      (w, match MarshalRemediations r with Ok body => {| anStatusCode := 200; anBody := body |} | Err _ => status 500 end)
  end.

(** ** The processor of the queue *)

Fixpoint lambdaHandler (w : W) (records : list string) : W * option remediationError :=
  match records with
  | [] => (w, None)
  | body :: records =>
      match UnmarshalRequest body with
      | Err e => (w, Some (OtherError (ErrWrap "Failed to unmarshal item" e)))
      | Ok input =>
          match Remediate w input with
          | (w, Some e) => (w, Some (wrapped "encountered issue while processing event" e))
          | (w, None) => lambdaHandler w records
          end
      end
  end.

(** ** What they promise *)

(** [calls]: the payloads the remediation Lambda was invoked with *)
Context (calls : W → list string).
Context (Hcalls : ∀ w payload, calls (InvokeLambda w payload).1 = calls w ++ [payload]).

(** the payload for a pair, and [None] when it cannot be made *)
Definition remediation_payload (w : W) (r : RemediateResource) : option string :=
  match GetPolicy w (rrPolicyID r), GetResource w (rrResourceID r) with
  | Ok p, Ok attributes =>
      if decide (AutoRemediationID p = "") then None
      else match MarshalInput {| liAction := "remediate";
                                 liPayload := Some {| plRemediationID := AutoRemediationID p; plResource := attributes;
                                                      plParameters := AutoRemediationParameters p |} |} with
           | Ok payload => Some payload
           | Err _ => None
           end
  | _, _ => None
  end.

(** the Lambda was asked, once, and did not fail *)
Definition remediated (w : W) (r : RemediateResource) : Prop :=
  ∃ payload text, remediation_payload w r = Some payload ∧ (InvokeLambda w payload).2 = Ok (None, text).

Lemma Remediate_spec w r :
  match remediation_payload w r with
  | None => (Remediate w r).1 = w ∧ (Remediate w r).2 ≠ None
  | Some payload => (Remediate w r).1 = (InvokeLambda w payload).1 ∧ ((Remediate w r).2 = None ↔ remediated w r)
  end.
Proof using.
  clear Hcalls. unfold remediated, remediation_payload, Remediate, invokeLambda.
  destruct (GetPolicy w _) as [p|e]; [|done].
  destruct (GetResource w _) as [a|e]; [|by case_decide].
  case_decide as Hp; [done|]. destruct (MarshalInput _) as [payload|e]; [|done].
  destruct (InvokeLambda w payload) as [w' [[[f|] text]|e]] eqn:Ei; cbn; (split; [done|]);
    (split; [intros H|intros (p1&t1&[= <-]&Ht); rewrite Ei in Ht]); try done. by exists payload, text; rewrite Ei.
Qed.

(** the errors of Remediate are never those of genericapi *)
Lemma Remediate_error w r e : (Remediate w r).2 = Some e →
  (e = ErrNotFound ∧ ∃ p, GetPolicy w (rrPolicyID r) = Ok p ∧ AutoRemediationID p = "") ∨ ∃ e', e = OtherError e'.
Proof using.
  clear Hcalls. unfold Remediate. destruct (GetPolicy w _) as [p|e1]; [|intros [= <-]; right; by eexists].
  case_decide as Hp; [intros [= <-]; left; eauto|].
  destruct (GetResource w _) as [a|e1]; [|intros [= <-]; right; by eexists].
  destruct (invokeLambda w _) as [w' [t|e1]]; cbn; [done|]. intros [= <-]. right. by eexists.
Qed.

(** a request that decodes and passes the validator *)
Definition valid_request (body : string) (r : RemediateResource) : Prop :=
  UnmarshalRequest body = Ok r ∧ Validate r = None.

(** the policy is there and has no remediation *)
Definition unassociated (w : W) (r : RemediateResource) : Prop :=
  ∃ p, GetPolicy w (rrPolicyID r) = Ok p ∧ AutoRemediationID p = "".

Lemma checkRequest_spec body :
  match checkRequest body with
  | inl r => valid_request body r
  | inr a => anStatusCode a = 400 ∧ ∀ r, ¬ valid_request body r
  end.
Proof using.
  clear Hcalls. unfold checkRequest, valid_request. destruct (UnmarshalRequest body) as [r|e].
  - destruct (Validate r) as [e|] eqn:Ev; [|done]. split; [done|]. intros r' [[= <-] Hv]. congruence.
  - split; [done|]. by intros r [? _].
Qed.

Lemma Remediate_unassociated w r :
  unassociated w r → (Remediate w r) = (w, Some ErrNotFound) ∧ remediation_payload w r = None.
Proof using.
  clear Hcalls. intros (p&Hp&Hi). unfold Remediate, remediation_payload. rewrite Hp.
  split; [by rewrite decide_True|]. destruct (GetResource _ _); [by rewrite decide_True|done].
Qed.

(** C31: a synchronous remediation does what its status says.  An invalid
    request is answered with 400 and nothing is done.  For a valid one, the
    Lambda is invoked exactly once, with the remediation, the parameters of
    the policy and the attributes of the resource, when these can be had, and
    otherwise not at all; the answer is 200 when the Lambda took it, 400 with
    its message when the policy has no remediation (500 when that message
    cannot be encoded), and 500 in every other case, also for a Lambda that is
    missing, where a test of the handler and the API expect 404. *)
Theorem remediate_resource_correct w body :
  let '(w', a) := RemediateResource_handler w body in
  ((∀ r, ¬ valid_request body r) → w' = w ∧ anStatusCode a = 400) ∧
  ∀ r, valid_request body r →
    calls w' = calls w ++ option_list (remediation_payload w r) ∧
    (remediated w r → a = status 200) ∧
    (unassociated w r → a = match MarshalError not_found_text with
                            | Ok text => {| anStatusCode := 400; anBody := text |}
                            | Err _ => status 500
                            end) ∧
    (¬ remediated w r → ¬ unassociated w r → a = status 500).
Proof using Hcalls.
  clear MarshalRemediations UnmarshalRemediations SendMessage.
  unfold RemediateResource_handler. pose proof (checkRequest_spec body) as Hreq.
  destruct (checkRequest body) as [r|a].
  2:{ destruct Hreq as [Ha Hno]. split; [done|]. intros r Hr. by apply Hno in Hr. }
  pose proof (Remediate_spec w r) as Hs. pose proof (Remediate_error w r) as He.
  pose proof (Remediate_unassociated w r) as Hun.
  assert (calls (Remediate w r).1 = calls w ++ option_list (remediation_payload w r)) as Hc.
  { destruct (remediation_payload w r) as [payload|]; destruct Hs as [-> _]; cbn; [apply Hcalls|by rewrite app_nil_r]. }
  assert ((Remediate w r).2 = None ↔ remediated w r) as Hrem.
  { destruct (remediation_payload w r) as [payload|] eqn:Ep; [tauto|]. split; [tauto|]. intros (q&t&Hq&_). congruence. }
  assert (∀ w' a, (match Remediate w r with
    | (w, None) => (w, status 200)
    | (w, Some ErrNotFound) => (w, error_response not_found_text 400)
    | (w, Some (GenericError (ApiError DoesNotExistError _ _))) => (w, error_response RemediationLambdaNotFound 404)
    | (w, Some _) => (w, status 500) end) = (w', a) →
    w' = (Remediate w r).1 ∧ (remediated w r → a = status 200) ∧
    (unassociated w r → a = error_response not_found_text 400) ∧ (¬ remediated w r → ¬ unassociated w r → a = status 500)) as Hall.
  { destruct (Remediate w r) as [w1 [e|]]; cbn [fst snd] in *.
    - destruct (He e eq_refl) as [[-> Hp]|[e' ->]]; intros w' a [= <- <-]; (split; [done|]).
      + split; [intros Hr; by apply Hrem in Hr|]. split; [done|]. intros _ Hno. by destruct Hno.
      + split; [intros Hr; by apply Hrem in Hr|]. split; [|done]. intros [[=] _]%Hun.
    - intros w' a [= <- <-]. split; [done|]. split; [done|]. split; [by intros [[=] _]%Hun|]. intros Hr. destruct Hr. by apply Hrem. }
  destruct (match Remediate w r with (_, _) => _ end) as [w' a] eqn:E. destruct (Hall w' a eq_refl) as (->&H1&H2&H3).
  split; [intros Hno; by apply Hno in Hreq|]. intros r' Hr'.
  assert (r' = r) as -> by (destruct Hreq, Hr'; congruence). split_and!; [done|done|exact H2|done].
Qed.

(** the list is answered with 200 or 500: a missing Lambda is not told apart *)
Theorem get_remediations_never_404 w :
  anStatusCode (GetRemediations w).2 = 200 ∨ anStatusCode (GetRemediations w).2 = 500.
Proof using.
  clear Hcalls. unfold GetRemediations, invoker_GetRemediations, invokeLambda.
  destruct (MarshalInput _) as [p|e]; [|by right].
  destruct (InvokeLambda w p) as [w' [[[f|] text]|e]]; [by right| |by right].
  destruct (UnmarshalRemediations text) as [r|e]; [|by right]. cbn. destruct (MarshalRemediations r); auto.
Qed.

Lemma Remediate_calls w r w' err : Remediate w r = (w', err) →
  (err ≠ None ∧ calls w' = calls w) ∨ ∃ payload, calls w' = calls w ++ [payload].
Proof using Hcalls.
  intros Hr. pose proof (Remediate_spec w r) as Hs. rewrite Hr in Hs. cbn in Hs.
  destruct (remediation_payload w r) as [p|]; [right; exists p; destruct Hs as [-> _]; apply Hcalls|].
  left. by destruct Hs as [-> ?].
Qed.

(** records are processed in order, each once, up to the first that fails; the
    records before it were remediated, although the whole batch is delivered again *)
Theorem processor_stops_at_failure w records w' err :
  lambdaHandler w records = (w', err) →
  ∃ payloads, calls w' = calls w ++ payloads ∧
    match err with
    | None => length payloads = length records
    | Some _ => ∃ k, (k < length records)%nat ∧ (k ≤ length payloads ≤ S k)%nat
    end.
Proof using Hcalls.
  clear MarshalRemediations UnmarshalRemediations SendMessage.
  revert w. induction records as [|body records IH]; intros w; cbn.
  - intros [= <- <-]. exists []. by rewrite app_nil_r.
  - destruct (UnmarshalRequest body) as [input|e].
    2:{ intros [= <- <-]. exists []. rewrite app_nil_r. split; [done|]. exists 0%nat. cbn. lia. }
    destruct (Remediate w input) as [w1 [e|]] eqn:Er; apply Remediate_calls in Er.
    + intros [= <- <-]. destruct Er as [[_ Hc]|[p Hc]]; [exists []; rewrite app_nil_r|exists [p]];
        (split; [done|]); exists 0%nat; cbn; lia.
    + destruct Er as [[? _]|[p Hc]]; [done|]. intros (ps&Hps&Hl)%IH. exists (p :: ps).
      split; [by rewrite Hps, Hc, <-(assoc_L (++))|]. destruct err; cbn; [|lia].
      destruct Hl as (k&?&?). exists (S k). lia.
Qed.

(** a message for a policy without a remediation stops every batch it is first in *)
Theorem unassociated_policy_blocks w body r p records :
  UnmarshalRequest body = Ok r → GetPolicy w (rrPolicyID r) = Ok p → AutoRemediationID p = "" →
  (lambdaHandler w (body :: records)).1 = w ∧ (lambdaHandler w (body :: records)).2 ≠ None.
Proof using. clear Hcalls. intros Hu Hp Hi. cbn. unfold Remediate. by rewrite Hu, Hp, decide_True. Qed.
End Remediation.

(** ** A concrete Lambda *)

(** a request without a policy is invalid; the Lambda fails for the resource "down" *)
Definition demo_remediate (body : string) : list string * answer :=
  RemediateResource_handler (V := string) (λ _ id, Ok {| AutoRemediationID := "AWS.S3"; AutoRemediationParameters := id |})
    (λ _ id, Ok id) (λ i, Ok (liAction i)) (λ w p, (w ++ [p], if decide (body = "down") then Err (ErrMsg "gone") else Ok (None, "done")))
    (λ b, Ok {| rrPolicyID := b; rrResourceID := b |})
    (λ r, if decide (rrPolicyID r = "") then Some (ErrMsg "policyId") else None) Ok [] body.

Lemma remediate_resource_correct_witness :
  demo_remediate "x" = (["remediate"], status 200) ∧ anStatusCode (demo_remediate "").2 = 400 ∧
  demo_remediate "down" = (["remediate"], status 500).
Proof.
  pose proof (λ body, remediate_resource_correct (V := string)
    (λ _ id, Ok {| AutoRemediationID := "AWS.S3"; AutoRemediationParameters := id |})
    (λ _ id, Ok id) (λ i, Ok (liAction i))
    (λ w p, (w ++ [p], if decide (body = "down") then Err (ErrMsg "gone") else Ok (None, "done")))
    (λ b, Ok {| rrPolicyID := b; rrResourceID := b |})
    (λ r, if decide (rrPolicyID r = "") then Some (ErrMsg "policyId") else None) Ok (λ w, w) ltac:(intros; reflexivity) [] body)
    as H.
  unfold demo_remediate. split; [|split].
  - specialize (H "x"). revert H. destruct (RemediateResource_handler _ _ _ _ _ _ _ _ _) as [w' a]. intros H. destruct H as [_ H].
    destruct (H {| rrPolicyID := "x"; rrResourceID := "x" |}) as (Hc&H200&_); [split; reflexivity|].
    rewrite H200 by (exists "remediate", "done"; split; reflexivity). cbn in Hc. by rewrite Hc.
  - specialize (H ""). revert H. destruct (RemediateResource_handler _ _ _ _ _ _ _ _ _) as [w' a]. intros H. destruct H as [H _]. apply H.
    intros r [[= <-] Hv]. vm_compute in Hv. discriminate Hv.
  - specialize (H "down"). revert H. destruct (RemediateResource_handler _ _ _ _ _ _ _ _ _) as [w' a]. intros H. destruct H as [_ H].
    destruct (H {| rrPolicyID := "down"; rrResourceID := "down" |}) as (Hc&_&_&H500); [split; reflexivity|].
    rewrite H500; [cbn in Hc; by rewrite Hc| |].
    + intros (p&t&_&Ht). vm_compute in Ht. discriminate Ht.
    + intros (p&[= <-]&Hi). discriminate Hi.
Defined.
