(* ===== verification/SnapshotPoller.v ===== *)
(** * Snapshot poller

    Model of src/internal/compliance/snapshot_poller: the handler of scan
    requests (pollers/lambda.go), the choice of the pollers
    (pollers/aws/poll.go), the cached clients (pollers/aws/clients.go) and the
    helpers under pollers/utils, with the theorems about them.  What a poller of
    one service reads from AWS is a parameter. *)

From S2P Require Import Prelude AlertOutputs Sqsbatch SourceApi.

#[local] Open Scope Z_scope.

(** ** Data *)

(** poller.ScanEntry *)
Record ScanEntry := {
  scAWSAccountID : option string;
  scIntegrationID : option string;
  scRegion : option string;
  scResourceID : option string;
  scResourceType : option string;
  scScanAllResources : option bool
}.

(** AddResourceEntry of the resources API; its integration type is "aws" *)
Record GeneratedEntry (V : Type) := {
  geAttributes : V; geID : string; geIntegrationID : string; geIntegrationType : string; geType : string
}.
Arguments geAttributes {V}. Arguments geID {V}. Arguments geIntegrationID {V}. Arguments geIntegrationType {V}.
Arguments geType {V}.

(** awsmodels.ResourcePollerInput, without the time stamp *)
Record ResourcePollerInput := {
  AuthSource : string; riIntegrationID : option string; Regions : list (option string)
}.

(** *** Resource types *)

(** keys of IndividualARNResourcePollers *)
Definition arn_types : list string :=
  ["AWS.ACM.Certificate"; "AWS.CloudFormation.Stack"; "AWS.CloudTrail"; "AWS.CloudWatch.LogGroup"; "AWS.DynamoDB.Table";
   "AWS.EC2.AMI"; "AWS.EC2.Instance"; "AWS.EC2.NetworkACL"; "AWS.EC2.SecurityGroup"; "AWS.EC2.Volume"; "AWS.EC2.VPC";
   "AWS.ECS.Cluster"; "AWS.ELBV2.ApplicationLoadBalancer"; "AWS.IAM.Group"; "AWS.IAM.Policy"; "AWS.IAM.Role";
   "AWS.IAM.User"; "AWS.IAM.RootUser"; "AWS.KMS.Key"; "AWS.Lambda.Function"; "AWS.RDS.Instance";
   "AWS.Redshift.Cluster"; "AWS.S3.Bucket"; "AWS.WAF.WebACL"; "AWS.WAF.Regional.WebACL"].

(** keys of IndividualResourcePollers *)
Definition id_types : list string := ["AWS.Config.Recorder"; "AWS.GuardDuty.Detector"; "AWS.PasswordPolicy"].

(** keys of ServicePollers *)
Definition service_types : list string :=
  ["AWS.ACM.Certificate"; "AWS.CloudTrail"; "AWS.EC2.AMI"; "AWS.EC2.Instance"; "AWS.EC2.NetworkACL";
   "AWS.EC2.SecurityGroup"; "AWS.EC2.Volume"; "AWS.EC2.VPC"; "AWS.ECS.Cluster"; "AWS.ELBV2.ApplicationLoadBalancer";
   "AWS.KMS.Key"; "AWS.S3.Bucket"; "AWS.WAF.WebACL"; "AWS.WAF.Regional.WebACL"; "AWS.CloudFormation.Stack";
   "AWS.CloudWatch.LogGroup"; "AWS.Config.Recorder"; "AWS.DynamoDB.Table"; "AWS.GuardDuty.Detector"; "AWS.IAM.User";
   "AWS.IAM.Role"; "AWS.IAM.Group"; "AWS.IAM.Policy"; "AWS.Lambda.Function"; "AWS.PasswordPolicy";
   "AWS.RDS.Instance"; "AWS.Redshift.Cluster"].

(** ** Helpers (pollers/utils) *)

Record ParsedResourceID := { priAccountID : string; priRegion : string; priSchema : string }.

Definition GenerateResourceID (awsAccountID region schema : string) : string :=
  join_with ":" [awsAccountID; region; schema].

Definition ParseResourceID (resourceID : string) : option ParsedResourceID :=
  match split_on ":" resourceID with
  | [a; r; s] => Some {| priAccountID := a; priRegion := r; priSchema := s |}
  | _ => None
  end.

(** the fields Key and Value of the structs of a slice, if they have them *)
Fixpoint ParseTagSlice (tags : gmap string (option string)) (slice : list (option (option string * option string)))
    : outcome (option (gmap string (option string))) :=
  match slice with
  | [] => Ret (Some tags)
  | None :: _ => Ret None
  | Some (key, v) :: slice => k ← deref key; ParseTagSlice (<[k := v]> tags) slice
  end.

Definition MaxRequeueDelaySeconds : Z := 900.

Section Helpers.
Context {W : Type} (Marshal : list ScanEntry → result string) (SendMessage : W → string → Z → W * option error).

(** errors are only logged *)
Definition Requeue (w : W) (scanRequest : list ScanEntry) (delay : Z) : W :=
  match Marshal scanRequest with
  | Err _ => w
  | Ok body => (SendMessage w body (if decide (MaxRequeueDelaySeconds < delay) then MaxRequeueDelaySeconds else delay)).1
  end.
End Helpers.

(** regions.go; [None] is nil *)
Definition GetRegions (answer : result (list (option string))) : option (list (option string)) :=
  match answer with Err _ | Ok [] => None | Ok l => Some l end.

(** [service]: the regions of the service, if there are any *)
Fixpoint shared_regions (service : gset string) (active : list (option string)) : outcome (list (option string)) :=
  match active with
  | [] => Ret []
  | region :: active =>
      r ← deref region;
      rest ← shared_regions service active;
      Ret (if decide (r ∈ service) then region :: rest else rest)
  end.
Definition GetServiceRegions (active : list (option string)) (service : option (gset string))
    : outcome (list (option string)) :=
  match service with None => Ret [] | Some service => shared_regions service active end.

(** ** Clients (clients.go) *)

Record clientKey := { ckIntegrationID : string; ckService : string; ckRegion : string }.

#[export] Instance clientKey_eq_dec : EqDecision clientKey.
Proof. solve_decision. Defined.
#[export] Instance clientKey_countable : Countable clientKey.
Proof.
  apply (inj_countable' (λ k, (ckIntegrationID k, ckService k, ckRegion k))
    (λ '(i, s, r), {| ckIntegrationID := i; ckService := s; ckRegion := r |})). by intros [].
Defined.

(** a client of a service for a region, made with credentials *)
Record client (C : Type) := { clService : string; clRegion : string; clCreds : C }.
Arguments clService {C}. Arguments clRegion {C}. Arguments clCreds {C}.

Section Poller.
Context {W V C : Type}.
(** STS: credentials for a role and a region, whether they are accepted, and
    whether they have expired *)
Context (assumeRole : W → string → string → C) (verifyAssumedCreds : W → C → string → option error).
Context (IsExpired : W → C → bool).

(** the cache of the process, and the rest of the world *)
Record state := { clientCache : gmap clientKey (client C); outer : W }.

Definition getClient (s : state) (input : ResourcePollerInput) (service region : string)
    : outcome (state * result (client C)) :=
  integrationID ← deref (riIntegrationID input);
  let key := {| ckIntegrationID := integrationID; ckService := service; ckRegion := region |} in
  let build :=
    let creds := assumeRole (outer s) (AuthSource input) region in
    match verifyAssumedCreds (outer s) creds region with
    | Some e => (s, Err e)
    | None =>
        let c := {| clService := service; clRegion := region; clCreds := creds |} in
        ({| clientCache := <[key := c]> (clientCache s); outer := outer s |}, Ok c)
    end in
  Ret (match clientCache s !! key with
       | Some c => if IsExpired (outer s) (clCreds c) then build else (s, Ok c)
       | None => build
       end).

(** ** Polling (poll.go); [None] is a nil slice *)

Definition entries : Type := option (list (GeneratedEntry V)).

(** what the pollers of a service, and of a single resource, do *)
Context (service_poller : string → state → ResourcePollerInput → outcome (state * result entries)).
Context (id_poller : string → state → ResourcePollerInput → option ParsedResourceID → ScanEntry →
  outcome (state * result (option V))).
Context {ARN : Type} (ParseARN : string → result ARN).
Context (arn_poller : string → state → ResourcePollerInput → ARN → ScanEntry → outcome (state * result (option V))).
Context (DescribeRegions : state → client C → state * result (list (option string))).
Context (auditRoleName : string).

Definition defaultRegion : string := "us-west-2".

(** on an error the resources of the earlier pollers are returned with it *)
Fixpoint service_scan (acc : entries) (s : state) (pollers : list string) (input : ResourcePollerInput)
    : outcome (state * (entries * option error)) :=
  match pollers with
  | [] => Ret (s, (acc, None))
  | ty :: pollers =>
      r ← service_poller ty s input;
      let '(s, r) := r in
      match r with
      | Err e => Ret (s, (acc, Some e))
      | Ok (Some (x :: l)) => service_scan (Some (default [] acc ++ x :: l)) s pollers input
      | Ok _ => service_scan acc s pollers input
      end
  end.
Definition serviceScan : state → list string → ResourcePollerInput → outcome (state * (entries * option error)) :=
  service_scan None.

(** a resource as the request names it *)
Definition single_entry (req : ScanEntry) (resource : V) : outcome (GeneratedEntry V) :=
  id ← deref (scResourceID req);
  integration ← deref (scIntegrationID req);
  ty ← deref (scResourceType req);
  Ret {| geAttributes := resource; geID := id; geIntegrationID := integration; geIntegrationType := "aws"; geType := ty |}.

(** errors.Wrapf of what a poller of a single resource returns *)
Definition wrap_scan (r : state * result (option V)) : state * result (option V) :=
  (r.1, match r.2 with Ok v => Ok v | Err e => Err (ErrWrap "could not scan" e) end).

Definition singleResourceScan (s : state) (req : ScanEntry) (input : ResourcePollerInput)
    : outcome (state * (entries * option error)) :=
  ty ← deref (scResourceType req);
  id ← deref (scResourceID req);
  r ← (if decide (ty ∈ id_types) then r ← id_poller ty s input (ParseResourceID id) req; Ret (wrap_scan r)
       else if decide (ty ∈ arn_types) then
         match ParseARN id with
         | Err e => Ret (s, Err e)
         | Ok arn => r ← arn_poller ty s input arn req; Ret (wrap_scan r)
         end
       else Ret (s, Ok None));
  let '(s, r) := r in
  match r with
  | Err e => Ret (s, (None, Some e))
  | Ok None => Ret (s, (None, None))
  | Ok (Some resource) => e ← single_entry req resource; Ret (s, (Some [e], None))
  end.

Definition invalid_type (ty : string) : error := ErrMsg ("invalid single region resource type '" +:+ ty +:+ "' scan requested").

Definition with_regions (input : ResourcePollerInput) (regions : list (option string)) : ResourcePollerInput :=
  {| AuthSource := AuthSource input; riIntegrationID := riIntegrationID input; Regions := regions |}.

(** the type of a service, or an error *)
Definition type_scan (s : state) (ty : string) (input : ResourcePollerInput) : outcome (state * (entries * option error)) :=
  if decide (ty ∈ service_types) then serviceScan s [ty] input else Ret (s, (None, Some (invalid_type ty))).

(** [all_types]: the keys of ServicePollers in the order of an iteration *)
Definition account_scan (all_types : list string) (s : state) (req : ScanEntry) (input : ResourcePollerInput)
    : outcome (state * (entries * option error)) :=
  r ← getClient s input "ec2" defaultRegion;
  let '(s, r) := r in
  match r with
  | Err e => Ret (s, (None, Some e))
  | Ok c =>
      let '(s, answer) := DescribeRegions s c in
      match GetRegions answer with
      | None => Ret (s, (None, None))
      | Some regions =>
          let input := with_regions input regions in
          if default false (scScanAllResources req) then serviceScan s all_types input
          else match scResourceType req with
               | Some ty => type_scan s ty input
               | None => Ret (s, (None, None))
               end
      end
  end.

Definition audit_role (account : string) : string := "arn:aws:iam::" +:+ account +:+ ":role/" +:+ auditRoleName.

Definition Poll (all_types : list string) (s : state) (req : ScanEntry) : outcome (state * (entries * option error)) :=
  match scAWSAccountID req with
  | None => Ret (s, (None, Some (ErrMsg "no valid AWS AccountID provided")))
  | Some account =>
      if decide (auditRoleName = "") then Ret (s, (None, Some (ErrMsg "no audit role configured")))
      else
        match ParseARN (audit_role account) with
        | Err e => Ret (s, (None, Some e))
        | Ok _ =>
            let input := {| AuthSource := audit_role account; riIntegrationID := scIntegrationID req;
                            Regions := [scRegion req] |} in
            match scResourceID req, scRegion req, scResourceType req with
            | Some _, _, _ => singleResourceScan s req input
            | None, Some _, Some ty => type_scan s ty input
            | None, _, _ => account_scan all_types s req input
            end
        end
  end.

(** ** The handler (lambda.go) *)

Context (loadMessage : string → result (list ScanEntry)).
Context (AddResources : state → list (GeneratedEntry V) → state * option error).

Definition resourcesAPIBatchSize : nat := 500.

Fixpoint batch_loop (fuel : nat) {A} (resources : list A) (batches : list (list A)) : list (list A) :=
  match fuel with
  | O => batches ++ [resources]
  | S fuel =>
      if decide (resourcesAPIBatchSize < length resources)%nat
      then batch_loop fuel (drop resourcesAPIBatchSize resources) (batches ++ [take resourcesAPIBatchSize resources])
      else batches ++ [resources]
  end.
Definition batchResources {A} (resources : list A) : list (list A) := batch_loop (length resources) resources [].

Fixpoint send_batches (s : state) (batches : list (list (GeneratedEntry V))) : state * option error :=
  match batches with
  | [] => (s, None)
  | batch :: batches =>
      match AddResources s batch with
      | (s, Some e) => (s, Some e)
      | (s, None) => send_batches s batches
      end
  end.

Fixpoint handle_entries (all_types : list string) (s : state) (l : list ScanEntry) : outcome (state * option error) :=
  match l with
  | [] => Ret (s, None)
  | entry :: l =>
      r ← Poll all_types s entry;
      let '(s, (resources, err)) := r in
      match err, resources with
      | Some _, _ | None, None => handle_entries all_types s l
      | None, Some resources =>
          match send_batches s (batchResources resources) with
          | (s, Some e) => Ret (s, Some e)
          | (s, None) => handle_entries all_types s l
          end
      end
  end.

Fixpoint Handle (all_types : list string) (s : state) (messages : list string) : outcome (state * option error) :=
  match messages with
  | [] => Ret (s, None)
  | body :: messages =>
      match loadMessage body with
      | Err _ => Handle all_types s messages
      | Ok l =>
          r ← handle_entries all_types s l;
          let '(s, err) := r in
          match err with Some e => Ret (s, Some e) | None => Handle all_types s messages end
      end
  end.

(** ** What it promises *)

(** *** Batches *)

Lemma take_cap {A} k (l : list A) : take (k `min` length l) l = take k l.
Proof. destruct (decide (k ≤ length l)%nat); [by rewrite Nat.min_l|]. by rewrite Nat.min_r, !take_ge by lia. Qed.

Lemma batch_loop_spec {A} fuel (l : list A) acc :
  (length l ≤ fuel)%nat → ∃ bs, batch_loop fuel l acc = acc ++ bs ∧ concat bs = l ∧
    Forall (λ b, length b ≤ resourcesAPIBatchSize)%nat bs ∧ bs ≠ [] ∧ (l ≠ [] → Forall (λ b, b ≠ []) bs).
Proof.
  revert l acc. induction fuel as [|fuel IH]; intros l acc Hl; cbn [batch_loop].
  - destruct l; [|cbn in Hl; lia]. exists [[]]. split_and!; try done. by repeat constructor.
  - case_decide as Hd.
    + destruct (IH (drop resourcesAPIBatchSize l) (acc ++ [take resourcesAPIBatchSize l])) as (bs&->&Hc&Hs&_&Hne).
      { rewrite length_drop. unfold resourcesAPIBatchSize. lia. }
      exists (take resourcesAPIBatchSize l :: bs). rewrite <-(assoc_L (++)). split_and!; [done| | |done|].
      * cbn [concat]. by rewrite Hc, take_drop.
      * constructor; [rewrite length_take; lia|done].
      * intros _. constructor; [|apply Hne].
        -- intros Hn. apply (f_equal length) in Hn. rewrite length_take in Hn.
           change (length []) with 0%nat in Hn. assert (0 < resourcesAPIBatchSize)%nat by (unfold resourcesAPIBatchSize; lia). lia.
        -- intros Hn. apply (f_equal length) in Hn. rewrite length_drop in Hn. change (length []) with 0%nat in Hn. lia.
    + exists [l]. split_and!; [done|cbn; by rewrite app_nil_r|constructor; [lia|done]|done|].
      intros Hn. by constructor.
Qed.

Lemma batchResources_spec {A} (l : list A) :
  concat (batchResources l) = l ∧ Forall (λ b, length b ≤ resourcesAPIBatchSize)%nat (batchResources l) ∧
  (l ≠ [] → Forall (λ b, b ≠ []) (batchResources l)).
Proof. unfold batchResources. destruct (batch_loop_spec (length l) l []) as (bs&->&?&?&_&?); [done|]. done. Qed.

(** *** The handler *)

(** [sent]: the batches the resources API accepted; the pollers of the services
    send none *)
Context (sent : W → list (list (GeneratedEntry V))).
Context (Hsent : ∀ s b, sent (outer (AddResources s b).1) =
  match (AddResources s b).2 with None => sent (outer s) ++ [b] | Some _ => sent (outer s) end).
Context (Hservice : ∀ ty s input s' r, service_poller ty s input = Ret (s', r) → sent (outer s') = sent (outer s)).
Context (Hid : ∀ ty s input p req s' r, id_poller ty s input p req = Ret (s', r) → sent (outer s') = sent (outer s)).
Context (Harn : ∀ ty s input arn req s' r, arn_poller ty s input arn req = Ret (s', r) → sent (outer s') = sent (outer s)).
Context (Hregions : ∀ s c, sent (outer (DescribeRegions s c).1) = sent (outer s)).
Context (all_types : list string).

(** the resources of a scan in batches *)
Definition batches_of (resources : list (GeneratedEntry V)) (bs : list (list (GeneratedEntry V))) : Prop :=
  concat bs = resources ∧ Forall (λ b, length b ≤ 500)%nat bs ∧ (resources ≠ [] → Forall (λ b, b ≠ []) bs).

(** batches that the resources API accepts one after another *)
Inductive accepted : state → list (list (GeneratedEntry V)) → state → Prop :=
| accepted_nil s : accepted s [] s
| accepted_cons s b s1 bs s2 : AddResources s b = (s1, None) → accepted s1 bs s2 → accepted s (b :: bs) s2.

(** The run over the requests: each is polled in the state that the one before
    it left.  A scan that fails or finds nothing is skipped; what another one
    finds is sent in batches before the next request.  The run ends with the
    first batch that is refused, and its error, or with a poll that panics. *)
Inductive scans : state → list ScanEntry → list (list (GeneratedEntry V)) → outcome (state * option error) → Prop :=
| scans_end s : scans s [] [] (Ret (s, None))
| scans_panic s e l why : Poll all_types s e = Panic why → scans s (e :: l) [] (Panic why)
| scans_skip s e l s1 resources err bs o :
    Poll all_types s e = Ret (s1, (resources, err)) → err ≠ None ∨ resources = None →
    scans s1 l bs o → scans s (e :: l) bs o
| scans_sent s e l s1 resources bs s2 bs' o :
    Poll all_types s e = Ret (s1, (Some resources, None)) → batches_of resources bs → accepted s1 bs s2 →
    scans s2 l bs' o → scans s (e :: l) (bs ++ bs') o
| scans_refused s e l s1 resources bs1 b bs2 s2 s3 err :
    Poll all_types s e = Ret (s1, (Some resources, None)) → batches_of resources (bs1 ++ b :: bs2) →
    accepted s1 bs1 s2 → AddResources s2 b = (s3, Some err) → scans s (e :: l) bs1 (Ret (s3, Some err)).

Lemma send_batches_accepted s bs :
  match send_batches s bs with
  | (s', None) => accepted s bs s'
  | (s', Some err) => ∃ bs1 b bs2 s2, bs = bs1 ++ b :: bs2 ∧ accepted s bs1 s2 ∧ AddResources s2 b = (s', Some err)
  end.
Proof using.
  revert s. induction bs as [|b bs IH]; intros s; cbn; [constructor|].
  destruct (AddResources s b) as [s1 [e|]] eqn:Ea.
  - exists [], b, bs, s. split_and!; [done|constructor|done].
  - specialize (IH s1). destruct (send_batches s1 bs) as [s2 [e|]].
    + destruct IH as (bs1&b'&bs2&s3&->&Hacc&Hr). exists (b :: bs1), b', bs2, s3. split_and!; [done|by econstructor|done].
    + by econstructor.
Qed.

Lemma batchResources_batches l : batches_of l (batchResources l).
Proof using. apply batchResources_spec. Qed.

Lemma handle_entries_scans s l :
  ∃ bs, scans s l bs (handle_entries all_types s l).
Proof using.
  revert s. induction l as [|e l IH]; intros s; cbn [handle_entries]; [eexists; constructor|].
  destruct (Poll all_types s e) as [[s1 [resources err]]|why] eqn:Ep; run; [|eexists; by constructor].
  destruct err as [err|]; [|destruct resources as [resources|]].
  - destruct (IH s1) as [bs Hbs]. exists bs. eapply scans_skip; [done|by left|done].
  - pose proof (send_batches_accepted s1 (batchResources resources)) as Hsb. pose proof (batchResources_batches resources) as Hb.
    destruct (send_batches s1 (batchResources resources)) as [s2 [err|]].
    + destruct Hsb as (bs1&b&bs2&s3&Heq&Hacc&Hr). rewrite Heq in Hb. exists bs1. by eapply scans_refused.
    + destruct (IH s2) as [bs Hbs]. eexists. by eapply scans_sent.
  - destruct (IH s1) as [bs Hbs]. exists bs. eapply scans_skip; [done|by right|done].
Qed.

(** a run goes on where the one before it ended *)
Lemma scans_app s l1 l2 bs1 o1 bs2 o2 :
  scans s l1 bs1 o1 →
  (∀ s', o1 = Ret (s', None) → scans s' l2 bs2 o2) →
  match o1 with
  | Ret (_, None) => scans s (l1 ++ l2) (bs1 ++ bs2) o2
  | _ => scans s (l1 ++ l2) bs1 o1
  end.
Proof using.
  induction 1 as [s|s e l why Hp|s e l s1 resources err bs o Hp Hr _ IH|s e l s1 resources bs s2 bs' o Hp Hb Ha _ IH
    |s e l s1 resources b1 b b2 s2 s3 err Hp Hb Ha Hr]; intros Hnext; cbn [app].
  - by apply Hnext.
  - by apply scans_panic.
  - specialize (IH Hnext). destruct o as [[s' [e'|]]|]; by eapply scans_skip.
  - specialize (IH Hnext). rewrite <- (assoc_L (++)). destruct o as [[s' [e'|]]|]; by eapply scans_sent.
  - by eapply scans_refused.
Qed.

Definition requested (messages : list string) : list ScanEntry :=
  concat ((λ b, match loadMessage b with Ok l => l | Err _ => [] end) <$> messages).

Lemma Handle_scans s messages : ∃ bs, scans s (requested messages) bs (Handle all_types s messages).
Proof using.
  unfold requested. revert s. induction messages as [|m messages IH]; intros s; cbn [Handle fmap list_fmap concat]; [eexists; constructor|].
  destruct (loadMessage m) as [l|e]; [|apply IH].
  destruct (handle_entries_scans s l) as [bs Hbs].
  destruct (handle_entries all_types s l) as [[s1 [err|]]|why]; run.
  - exists bs. by apply (scans_app _ _ _ _ _ [] (Ret (s1, None)) Hbs).
  - destruct (IH s1) as [bs' Hbs']. exists (bs ++ bs'). apply (scans_app _ _ _ _ _ bs' _ Hbs). by intros s' [= <-].
  - exists bs. by apply (scans_app _ _ _ _ _ [] (Ret (s, None)) Hbs).
Qed.

(** *** What was sent *)

Lemma service_scan_sent acc s pollers input s' r :
  service_scan acc s pollers input = Ret (s', r) → sent (outer s') = sent (outer s).
Proof using Hservice.
  revert acc s. induction pollers as [|ty pollers IH]; intros acc s; cbn; [by intros [= <- _]|].
  destruct (service_poller ty s input) as [[s1 r1]|] eqn:Ep; run; [|done]. apply Hservice in Ep. rewrite <- Ep.
  destruct r1 as [[[|x l]|]|e]; [apply IH|apply IH|apply IH|by intros [= <- _]].
Qed.

Lemma getClient_sent s input service region s' r :
  getClient s input service region = Ret (s', r) → outer s' = outer s.
Proof using.
  unfold getClient. destruct (riIntegrationID input); cbn [deref]; run; [|done].
  intros [= H]. repeat case_match; by simplify_eq/=.
Qed.

Lemma Poll_sent s e s' r : Poll all_types s e = Ret (s', r) → sent (outer s') = sent (outer s).
Proof using Hservice Hid Harn Hregions.
  assert (∀ s ty input s' r, type_scan s ty input = Ret (s', r) → sent (outer s') = sent (outer s)) as Htype.
  { intros s0 ty input s0' r0. unfold type_scan, serviceScan. case_decide; [apply service_scan_sent|by intros [= <- _]]. }
  unfold Poll. destruct (scAWSAccountID e) as [account|]; [|by intros [= <- _]].
  case_decide; [by intros [= <- _]|]. destruct (ParseARN _); [|by intros [= <- _]].
  set (input := {| AuthSource := _ |}). clearbody input.
  assert (account_scan all_types s e input = Ret (s', r) → sent (outer s') = sent (outer s)) as Hacc.
  { unfold account_scan. destruct (getClient s input _ _) as [[s1 c]|] eqn:Eg; run; [|done].
    apply getClient_sent in Eg. rewrite <- Eg. destruct c as [c|]; [|by intros [= <- _]].
    pose proof (Hregions s1 c) as Hr. destruct (DescribeRegions s1 c) as [s2 answer]. cbn in Hr. rewrite <- Hr.
    destruct (GetRegions answer) as [regions|]; [|by intros [= <- _]].
    destruct (default false _); [apply service_scan_sent|]. destruct (scResourceType e); [apply Htype|by intros [= <- _]]. }
  destruct (scResourceID e) as [id|] eqn:Ei; [|destruct (scRegion e); [destruct (scResourceType e)|]; try apply Htype; auto].
  unfold singleResourceScan. destruct (scResourceType e) as [ty|]; cbn [deref]; run; [|done]. rewrite Ei. cbn [deref]. run.
  assert (∀ s1 (x : result (option V)), sent (outer s1) = sent (outer s) → (match x with
    | Err er => Ret (s1, (None, Some er))
    | Ok None => Ret (s1, (None, None))
    | Ok (Some resource) => en ← single_entry e resource; Ret (s1, (Some [en], None)) end) = Ret (s', r) →
    sent (outer s') = sent (outer s)) as Hk.
  { intros s1 [[v|]|er] Hs1; [destruct (single_entry e v); run; [|done]|..]; by intros [= <- _]. }
  case_decide; [|case_decide].
  - destruct (id_poller _ _ _ _ _) as [[s1 x]|] eqn:Ep; run; [|done]. apply Hk. by apply Hid in Ep.
  - destruct (ParseARN id); [|run; by intros [= <- _]]. destruct (arn_poller _ _ _ _ _) as [[s1 x]|] eqn:Ep; run; [|done].
    apply Hk. by apply Harn in Ep.
  - run. by intros [= <- _].
Qed.

Lemma accepted_sent s bs s' : accepted s bs s' → sent (outer s') = sent (outer s) ++ bs.
Proof using Hsent.
  induction 1 as [s|s b s1 bs s2 Ha _ IH]; [by rewrite app_nil_r|].
  pose proof (Hsent s b) as Hb. rewrite Ha in Hb. cbn in Hb. by rewrite IH, Hb, <- (assoc_L (++)).
Qed.

Lemma scans_recorded s l bs o : scans s l bs o →
  match o with Ret (s', _) => sent (outer s') = sent (outer s) ++ bs | Panic _ => True end.
Proof using Hsent Hservice Hid Harn Hregions.
  induction 1 as [s|s e l why Hp|s e l s1 resources err bs o Hp Hr _ IH|s e l s1 resources bs s2 bs' o Hp Hb Ha _ IH
    |s e l s1 resources b1 b b2 s2 s3 err Hp Hb Ha Hr].
  - by rewrite app_nil_r.
  - done.
  - apply Poll_sent in Hp. by rewrite Hp in IH.
  - apply Poll_sent in Hp. apply accepted_sent in Ha. rewrite Ha, Hp, <- (assoc_L (++)) in IH. done.
  - apply Poll_sent in Hp. apply accepted_sent in Ha. pose proof (Hsent s2 b) as Hx. rewrite Hr in Hx. cbn in Hx.
    by rewrite Hx, Ha, Hp.
Qed.

(** C32: the snapshot poller sends what it found.  The requests of the messages
    that can be read are polled one after another, each in the state (with the
    client cache) that the one before it left; a scan that fails or finds
    nothing is skipped, and what another one finds is sent at once, each
    resource once and in order, in batches of at most 500.  The first batch
    that is refused ends the run with its error, and a poll that panics (one
    with a resource and without a type, say) ends it with the panic; no other
    request is dropped.  The resources API accepted exactly these batches. *)
Theorem snapshot_handle_correct s messages :
  ∃ bs, scans s (requested messages) bs (Handle all_types s messages) ∧
    match Handle all_types s messages with
    | Ret (s', _) => sent (outer s') = sent (outer s) ++ bs
    | Panic _ => True
    end.
Proof using Hsent Hservice Hid Harn Hregions.
  destruct (Handle_scans s messages) as [bs Hbs]. exists bs. split; [done|]. exact (scans_recorded _ _ _ _ Hbs).
Qed.

(** *** Clients *)

Definition cache_valid (s : state) : Prop :=
  ∀ k c, clientCache s !! k = Some c → clService c = ckService k ∧ clRegion c = ckRegion k.

(** a client is for the service and the region it is asked for, and its
    credentials have not expired or were accepted just now *)
Theorem client_usable s input service region integrationID :
  riIntegrationID input = Some integrationID → cache_valid s →
  ∃ s' r, getClient s input service region = Ret (s', r) ∧ cache_valid s' ∧ outer s' = outer s ∧
    match r with
    | Err _ => s' = s
    | Ok c => clService c = service ∧ clRegion c = region ∧
        (IsExpired (outer s) (clCreds c) = false ∨
         (clCreds c = assumeRole (outer s) (AuthSource input) region ∧ verifyAssumedCreds (outer s) (clCreds c) region = None))
    end.
Proof using.
  intros Hint Hv. unfold getClient. rewrite Hint. cbn [deref]. run.
  set (key := {| ckIntegrationID := _ |}). cbv zeta.
  assert (∃ s' r, (match verifyAssumedCreds (outer s) (assumeRole (outer s) (AuthSource input) region) region with
    | Some e => (s, Err e)
    | None => ({| clientCache := <[key := {| clService := service; clRegion := region;
                  clCreds := assumeRole (outer s) (AuthSource input) region |}]> (clientCache s); outer := outer s |},
               Ok {| clService := service; clRegion := region; clCreds := assumeRole (outer s) (AuthSource input) region |})
    end) = (s', r) ∧ cache_valid s' ∧ outer s' = outer s ∧ match r with Err _ => s' = s | Ok c => clService c = service ∧
      clRegion c = region ∧ (IsExpired (outer s) (clCreds c) = false ∨
        (clCreds c = assumeRole (outer s) (AuthSource input) region ∧
         verifyAssumedCreds (outer s) (clCreds c) region = None)) end) as (s'&r&Hb&Hrest).
  { destruct (verifyAssumedCreds _ _ region) as [e|] eqn:Ev; eexists _, _; (split; [done|]); cbn; [done|].
    split_and!; try done; [|by right]. intros k c. cbn [clientCache]. intros [[<- <-]|[_ H]]%lookup_insert_Some; [done|by apply Hv]. }
  destruct (clientCache s !! key) as [c|] eqn:Ec.
  - destruct (IsExpired (outer s) (clCreds c)) eqn:Ex.
    + rewrite Hb. by eexists _, _.
    + eexists _, _. split; [done|]. split_and!; try done; [apply (Hv _ _ Ec)..|by left].
  - rewrite Hb. by eexists _, _.
Qed.

(** *** Single resources *)

(** the entry of a single scan is the resource that was asked for *)
Theorem single_scan_entry s req input s' l :
  singleResourceScan s req input = Ret (s', (Some l, None)) →
  ∃ v, l = [v] ∧ scResourceID req = Some (geID v) ∧ scResourceType req = Some (geType v) ∧
    scIntegrationID req = Some (geIntegrationID v) ∧ (geType v ∈ id_types ∨ geType v ∈ arn_types).
Proof using.
  unfold singleResourceScan, single_entry.
  destruct (scResourceType req) as [ty|]; cbn [deref]; run; [|done].
  destruct (scResourceID req) as [id|]; cbn [deref]; run; [|done].
  assert (∀ s1 (r : result (option V)), (match r with
      | Ok (Some resource) => e ← (integration ← deref (scIntegrationID req); Ret {| geAttributes := resource; geID := id;
          geIntegrationID := integration; geIntegrationType := "aws"; geType := ty |}); Ret (s1, (Some [e], None))
      | Ok None => Ret (s1, (None, None)) | Err e => Ret (s1, (None, Some e)) end) = Ret (s', (Some l, None)) →
    ty ∈ id_types ∨ ty ∈ arn_types → ∃ v, l = [v] ∧ Some id = Some (geID v) ∧ Some ty = Some (geType v) ∧
      scIntegrationID req = Some (geIntegrationID v) ∧ (geType v ∈ id_types ∨ geType v ∈ arn_types)) as Hk.
  { intros s1 [[v|]|e]; [|done|done]. destruct (scIntegrationID req) as [i|]; cbn; [|done].
    intros [= <- <-] Ht. by eexists. }
  case_decide as H1; [|case_decide as H2].
  - destruct (id_poller _ _ _ _ _) as [[s1 r]|]; run; [|done]. intros H%Hk; [done|by left].
  - destruct (ParseARN id) as [a|e]; [|done]. destruct (arn_poller _ _ _ _ _) as [[s1 r]|]; run; [|done].
    intros H%Hk; [done|by right].
  - done.
Qed.

(** a request with a resource and without a type ends the handler *)
Theorem single_scan_without_type_panics account s req :
  scAWSAccountID req = Some account → auditRoleName ≠ "" → (∃ a, ParseARN (audit_role account) = Ok a) →
  is_Some (scResourceID req) → scResourceType req = None → ∃ why, Poll all_types s req = Panic why.
Proof using.
  intros Ha Hr [a Hp] [id Hsome] Ht. unfold Poll, singleResourceScan.
  rewrite Ha, decide_False, Hp, Hsome, Ht by done. by eexists.
Qed.
End Poller.

(** ** Types and identifiers *)

(** every type that is scanned as a whole can be scanned as a single resource,
    by exactly one of the two kinds of pollers *)
Theorem types_consistent :
  NoDup service_types ∧ NoDup (id_types ++ arn_types) ∧ service_types ⊆ id_types ++ arn_types.
Proof.
  split_and!; [apply (bool_decide_unpack _); by vm_compute..|].
  assert (Forall (λ x, x ∈ id_types ++ arn_types) service_types) as H by (apply (bool_decide_unpack _); by vm_compute).
  intros x Hx. by apply (proj1 (Forall_forall _ _) H).
Qed.

Theorem resource_id_roundtrip account region schema :
  contains_byte ":" account = false → contains_byte ":" region = false → contains_byte ":" schema = false →
  ParseResourceID (GenerateResourceID account region schema) =
    Some {| priAccountID := account; priRegion := region; priSchema := schema |}.
Proof.
  intros Ha Hr Hs. unfold ParseResourceID, GenerateResourceID. cbn [join_with].
  by rewrite (split_on_app _ _ _ Ha), (split_on_app _ _ _ Hr), (split_on_none _ _ Hs).
Qed.

(** the messages that start the scans of an account have different identifiers
    that SQS accepts: at most 80 bytes *)
Theorem scan_ids_valid id : String.length id = 36%nat →
  let ids := (λ ty, id +:+ "-" +:+ remove_byte "." ty) <$> service_types in
  NoDup ids ∧ Forall (λ i, String.length i ≤ 80)%nat ids.
Proof.
  intros Hid. cbv zeta.
  assert (NoDup (remove_byte "." <$> service_types)) as Hn by (apply (bool_decide_unpack _); by vm_compute).
  assert (Forall (λ ty, String.length (remove_byte "." ty) ≤ 43)%nat service_types) as Hl
    by (apply (bool_decide_unpack _); by vm_compute).
  split.
  - apply (NoDup_fmap_2_strong (λ x, id +:+ "-" +:+ x)) in Hn; [by rewrite <-list_fmap_compose in Hn|].
    intros x y _ _ H. apply (inj (String.append id)) in H. by injection H.
  - apply Forall_fmap. eapply Forall_impl; [exact Hl|]. intros ty Hty. cbn [compose]. unfold compose.
    rewrite !string_length_app. cbn [String.length]. cbn beta in Hty. lia.
Qed.

(** ** A concrete run *)

Definition demo_request : ScanEntry :=
  {| scAWSAccountID := Some "111111111111"; scIntegrationID := Some "i"; scRegion := None;
     scResourceID := Some "arn:bucket"; scResourceType := Some "AWS.S3.Bucket"; scScanAllResources := None |}.
Definition demo_entry : GeneratedEntry string :=
  {| geAttributes := "attributes"; geID := "arn:bucket"; geIntegrationID := "i"; geIntegrationType := "aws";
     geType := "AWS.S3.Bucket" |}.
Notation demo_state := (state (W := list (list (GeneratedEntry string))) (C := unit)).
Definition demo_add (s : demo_state) (b : list (GeneratedEntry string)) : demo_state * option error :=
  ({| clientCache := clientCache s; outer := outer s ++ [b] |}, None).
Definition demo_start : demo_state := {| clientCache := ∅; outer := [] |}.

(** a bucket is found; a request without an account fails and is skipped *)
Definition demo_requests : list ScanEntry :=
  [{| scAWSAccountID := None; scIntegrationID := Some "i"; scRegion := None; scResourceID := Some "arn:x";
      scResourceType := Some "AWS.S3.Bucket"; scScanAllResources := None |}; demo_request].

Lemma snapshot_handle_correct_witness :
  ∃ s', Handle (V := string) (λ _ _ _, tt) (λ _ _ _, None) (λ _ _, false) (λ _ s _, Ret (s, Ok None))
    (λ _ s _ _ _, Ret (s, Ok None)) (λ x, Ok x) (λ _ s _ _ _, Ret (s, Ok (Some "attributes"))) (λ s _, (s, Ok []))
    "PantherAuditRole" (λ _, Ok demo_requests) demo_add [] demo_start ["message"] = Ret (s', None) ∧
    outer s' = [] ++ [[demo_entry]].
Proof.
  destruct (snapshot_handle_correct (V := string) (λ _ _ _, tt) (λ _ _ _, None) (λ _ _, false) (λ _ s _, Ret (s, Ok None))
    (λ _ s _ _ _, Ret (s, Ok None)) (λ x, Ok x) (λ _ s _ _ _, Ret (s, Ok (Some "attributes"))) (λ s _, (s, Ok []))
    "PantherAuditRole" (λ _, Ok demo_requests) demo_add id ltac:(intros; reflexivity)
    ltac:(intros ? ? ? ? ? H; by injection H as <- _) ltac:(intros ? ? ? ? ? ? ? H; by injection H as <- _)
    ltac:(intros ? ? ? ? ? ? ? H; by injection H as <- _) ltac:(intros; reflexivity) [] demo_start ["message"]) as (bs&_&H).
  destruct (Handle _ _ _ _ _ _ _ _ _ _ _ _ _ _) as [[s' err]|why] eqn:Hh; [|vm_compute in Hh; discriminate].
  vm_compute in Hh. injection Hh as Hs Herr. exists s'. split; [by rewrite <- Herr|by rewrite <- Hs].
Defined.
