(* ===== verification/GluePartitions.v ===== *)
(** * Partitions of Glue tables

    Model of the calls of src/pkg/awsglue to Glue and S3 (createPartition,
    CreateJSONPartition, deletePartition, partitionHasData, and SyncPartitions
    with its goroutines), and of the updater of the data catalog
    (src/internal/log_analysis/datacatalog_updater), which creates a partition
    for every new object, with the theorems about them. *)

From S2P Require Import Prelude GoTime Glue.

#[local] Open Scope Z_scope.
#[local] Set Default Proof Using "Type".

(** ** Data *)

(** glue.StorageDescriptor; [sdRest] is what the code copies *)
Record StorageDescriptor := { sdLocation : string; sdColumns : list string; sdSerde : string; sdRest : string }.
Record Table := { tbDescriptor : StorageDescriptor; tbCreateTime : Time }.

Definition EntityNotFoundException : string := "EntityNotFoundException".
Definition AlreadyExistsException : string := "AlreadyExistsException".
Definition has_code (code : string) (e : error) : bool :=
  match e with ErrAWS c _ => bool_decide (c = code) | _ => false end.

Section Glue.
Context {W : Type}.
Context (GetTable : W → string → string → result Table).
Context (GetPartition : W → string → string → list string → result StorageDescriptor).
Context (CreatePartition_call : W → string → string → list string → StorageDescriptor → W * option error).
Context (UpdatePartition_call : W → string → string → list string → StorageDescriptor → W * option error).
Context (DeletePartition_call : W → string → string → list string → W * option error).
(** the sizes of the objects of the first page, of at most one object *)
Context (ListFirst : W → string → string → result (list Z)).
(** the host of a URL *)
Context (ParseHost : string → result string).

(** ** One partition *)

Definition with_location (d : StorageDescriptor) (location : string) : StorageDescriptor :=
  {| sdLocation := location; sdColumns := sdColumns d; sdSerde := sdSerde d; sdRest := sdRest d |}.

Definition bad_location (gm : GlueTableMetadata) (location : string) (e : error) : error :=
  ErrWrap ("Cannot parse table " +:+ databaseName gm +:+ "." +:+ tableName gm +:+ " s3 path: " +:+ location) e.

Definition createPartition (w : W) (gm : GlueTableMetadata) (t : Time) (table : Table) : W * option error :=
  let location := sdLocation (tbDescriptor table) in
  match ParseHost location with
  | Err e => (w, Some (bad_location gm location e))
  | Ok host =>
      let d := with_location (tbDescriptor table) ("s3://" +:+ host +:+ "/" +:+ gm_GetPartitionPrefix gm t) in
      match CreatePartition_call w (databaseName gm) (tableName gm) (partitionValues (timebin gm) t) d with
      | (w, None) => (w, None)
      | (w, Some e) => (w, if has_code AlreadyExistsException e then None else Some e)
      end
  end.

Definition CreateJSONPartition (w : W) (gm : GlueTableMetadata) (t : Time) : W * option error :=
  match GetTable w (databaseName gm) (tableName gm) with
  | Err e => (w, Some e)
  | Ok table =>
      if contains "json" (sdSerde (tbDescriptor table)) then createPartition w gm t table
      else (w, Some (ErrMsg "not a JSON table"))
  end.

Definition deletePartition (w : W) (gm : GlueTableMetadata) (t : Time) : W * option error :=
  DeletePartition_call w (databaseName gm) (tableName gm) (partitionValues (timebin gm) t).

(** the iteration stops after one page *)
Definition partitionHasData (w : W) (gm : GlueTableMetadata) (t : Time) (table : Table) : result bool :=
  let location := sdLocation (tbDescriptor table) in
  match ParseHost location with
  | Err e => Err (bad_location gm location e)
  | Ok host =>
      match ListFirst w host (gm_GetPartitionPrefix gm t) with
      | Err e => Err e
      | Ok sizes => Ok (existsb (λ size, bool_decide (0 < size)) sizes)
      end
  end.

(** GluePartition.CreatePartition *)
Definition gp_CreatePartition (w : W) (gp : GluePartition) : W * option error :=
  CreateJSONPartition w (NewGlueTableMetadata (datatype gp) (gpTableName gp) "" GlueTableHourly) (hour gp).

(** ** SyncPartitions *)

(** what a goroutine does for one time *)
Definition sync_one (gm : GlueTableMetadata) (table : Table) (w : W) (update : Time) : W * option error :=
  let values := partitionValues (timebin gm) update in
  match GetPartition w (databaseName gm) (tableName gm) values with
  | Err e =>
      if has_code EntityNotFoundException e then
        match partitionHasData w gm update table with
        | Err e => (w, Some e)
        | Ok true => createPartition w gm update table
        | Ok false => (w, None)
        end
      else (w, Some e)
  | Ok d =>
      let d := {| sdLocation := sdLocation d; sdColumns := sdColumns (tbDescriptor table);
                  sdSerde := sdSerde (tbDescriptor table); sdRest := sdRest d |} in
      UpdatePartition_call w (databaseName gm) (tableName gm) values d
  end.

(** the times of the loop; [None]: out of fuel *)
Fixpoint time_bins (fuel : nat) (tb : GlueTableTimebin) (timeBin endDay : Time) : option (outcome (list Time)) :=
  match fuel with
  | O => None
  | S fuel =>
      if After timeBin endDay then Some (Ret [])
      else match Next tb timeBin with
           | Panic why => Some (Panic why)
           | Ret next =>
               match time_bins fuel tb next endDay with
               | Some (Ret l) => Some (Ret (timeBin :: l))
               | r => r
               end
           end
  end.

(** the first time, and the last hour of the day of [now] *)
Definition first_bin (startDate : Time) (table : Table) : Time :=
  Truncate (if decide (startDate = 0) then tbCreateTime table else startDate) Day24.
Definition last_bin (now : Time) : Time := Truncate now Day24 + 23 * Hour.

(** *** The goroutines *)

Definition concurrency : nat := 10.

(** waiting for a time, working on one, or finished; and whether it has failed *)
Inductive worker := Waiting (failed : bool) | Working (update : Time) | Finished (failed : bool).

(** [pending]: the times not sent yet; [closed]: updateChan is closed; [synced]:
    the times whose calls were made *)
Record sync_state := {
  pending : list Time; updateChan : list Time; closed : bool; errChan : list error; workers : list worker;
  world : W; synced : list Time
}.

Definition sync_start (bins : list Time) (w : W) : sync_state :=
  {| pending := bins; updateChan := []; closed := false; errChan := []; workers := replicate concurrency (Waiting false);
     world := w; synced := [] |}.

Inductive sync_step (gm : GlueTableMetadata) (table : Table) : sync_state → sync_state → Prop :=
| step_send t p c cl es ws w sy :
    (length c < concurrency)%nat →
    sync_step gm table {| pending := t :: p; updateChan := c; closed := cl; errChan := es; workers := ws; world := w; synced := sy |}
      {| pending := p; updateChan := c ++ [t]; closed := cl; errChan := es; workers := ws; world := w; synced := sy |}
| step_close c es ws w sy :
    sync_step gm table {| pending := []; updateChan := c; closed := false; errChan := es; workers := ws; world := w; synced := sy |}
      {| pending := []; updateChan := c; closed := true; errChan := es; workers := ws; world := w; synced := sy |}
| step_take p t c cl es l failed r w sy :
    sync_step gm table {| pending := p; updateChan := t :: c; closed := cl; errChan := es; workers := l ++ Waiting failed :: r;
                          world := w; synced := sy |}
      {| pending := p; updateChan := c; closed := cl; errChan := es;
         workers := l ++ (if failed then Waiting true else Working t) :: r; world := w; synced := sy |}
| step_done p c cl es l t r w sy w' :
    sync_one gm table w t = (w', None) →
    sync_step gm table {| pending := p; updateChan := c; closed := cl; errChan := es; workers := l ++ Working t :: r; world := w;
                          synced := sy |}
      {| pending := p; updateChan := c; closed := cl; errChan := es; workers := l ++ Waiting false :: r; world := w';
         synced := sy ++ [t] |}
| step_error p c cl es l t r w sy w' e :
    sync_one gm table w t = (w', Some e) → (length es < concurrency)%nat →
    sync_step gm table {| pending := p; updateChan := c; closed := cl; errChan := es; workers := l ++ Working t :: r; world := w;
                          synced := sy |}
      {| pending := p; updateChan := c; closed := cl; errChan := es ++ [e]; workers := l ++ Waiting true :: r; world := w';
         synced := sy ++ [t] |}
| step_finish p es l failed r w sy :
    sync_step gm table {| pending := p; updateChan := []; closed := true; errChan := es; workers := l ++ Waiting failed :: r;
                          world := w; synced := sy |}
      {| pending := p; updateChan := []; closed := true; errChan := es; workers := l ++ Finished failed :: r; world := w;
         synced := sy |}.

(** wg.Wait() returns; the result is the first error *)
Definition all_finished (s : sync_state) : Prop :=
  closed s = true ∧ Forall (λ x, match x with Finished _ => True | _ => False end) (workers s).
Definition sync_result (s : sync_state) : option error := head (errChan s).

(** *** No goroutine is left blocked *)

Definition is_failed (x : worker) : nat := match x with Waiting true | Finished true => 1 | _ => 0 end.
Definition is_finished (x : worker) : nat := match x with Finished _ => 1 | _ => 0 end.
Definition in_work (x : worker) : list Time := match x with Working t => [t] | _ => [] end.
Definition effort (x : worker) : nat := match x with Waiting _ => 1 | Working _ => 2 | Finished _ => 0 end.

(** what remains to be done *)
Definition remaining (s : sync_state) : nat :=
  3 * length (pending s) + 2 * length (updateChan s) + sum_list_with effort (workers s) + (if closed s then 0 else 1).

Record sync_inv (bins : list Time) (s : sync_state) : Prop := {
  inv_workers : length (workers s) = concurrency;
  inv_errors : length (errChan s) = sum_list_with is_failed (workers s);
  inv_closed : closed s = true → pending s = [];
  inv_finished : sum_list_with is_finished (workers s) ≠ 0%nat → closed s = true ∧ updateChan s = [];
  inv_times : ∃ drained, (drained ≠ [] → errChan s ≠ []) ∧
    synced s ++ concat (in_work <$> workers s) ++ drained ++ updateChan s ++ pending s ≡ₚ bins
}.

Lemma sum_app {A} (f : A → nat) l k : sum_list_with f (l ++ k) = (sum_list_with f l + sum_list_with f k)%nat.
Proof. induction l as [|x l IH]; cbn; [done|]. rewrite IH. lia. Qed.

(** moves single elements to the front *)
Ltac fronts := rewrite <-?(assoc_L (++)); cbn [app]; rewrite <-?Permutation_middle; cbn [app].

Lemma sync_start_inv bins w : sync_inv bins (sync_start bins w).
Proof. split; try done. exists []. split; [done|]. cbn. done. Qed.

Lemma sync_step_inv gm table bins s s' : sync_step gm table s s' → sync_inv bins s → sync_inv bins s'.
Proof.
  intros Hs [Hw He Hc Hf (dr&Hdr&Hp)]. destruct Hs; cbn in *.
  - split; cbn; try done.
    + by intros Hx%Hc.
    + intros Hx. destruct (Hf Hx) as [Hcl _]. by specialize (Hc Hcl).
    + exists dr. split; [done|]. by rewrite <-(assoc_L (++) c).
  - split; cbn; try done; [|by exists dr]. intros Hx. by destruct (Hf Hx).
  - rewrite length_app in Hw. rewrite sum_app in He, Hf. cbn in *.
    split; cbn; rewrite ?length_app, ?sum_app; cbn; try done; [by rewrite He; destruct failed| |].
    + intros Hx. destruct Hf as [_ Hch]; [|done]. destruct failed; cbn in *; lia.
    + rewrite fmap_app, concat_app in Hp |- *. cbn in *. destruct failed; cbn in *.
      * exists (dr ++ [t]). split; [intros _; destruct es; [|done]; cbn in He; lia|]. rewrite <-Hp. by fronts.
      * exists dr. split; [done|]. rewrite <-Hp. by fronts.
  - rewrite length_app in Hw. rewrite sum_app in He, Hf. cbn in *.
    split; cbn; rewrite ?length_app, ?sum_app; cbn; try done.
    exists dr. split; [done|]. rewrite fmap_app, concat_app in Hp |- *. cbn in *. rewrite <-Hp. by fronts.
  - rewrite length_app in Hw. rewrite sum_app in He, Hf. cbn in *.
    split; cbn; rewrite ?length_app, ?sum_app; cbn; try done; [rewrite He; lia|].
    exists dr. split; [by destruct es|]. rewrite fmap_app, concat_app in Hp |- *. cbn in *. rewrite <-Hp. by fronts.
  - rewrite length_app in Hw. rewrite sum_app in He, Hf. cbn in *.
    split; cbn; rewrite ?length_app, ?sum_app; cbn; try done.
    exists dr. split; [done|]. rewrite fmap_app, concat_app in Hp |- *. cbn in *. done.
Qed.

Lemma sync_step_remaining gm table s s' : sync_step gm table s s' → (remaining s' < remaining s)%nat.
Proof.
  intros Hs. destruct Hs; unfold remaining; cbn; rewrite ?length_app, ?sum_app; cbn; try lia.
  destruct failed; cbn; lia.
Qed.

(** a goroutine that works, one that waits, or all have finished *)
Lemma workers_cases ws :
  (∃ l t r, ws = l ++ Working t :: r) ∨ (∃ l failed r, ws = l ++ Waiting failed :: r) ∨
  Forall (λ x, match x with Finished _ => True | _ => False end) ws.
Proof.
  induction ws as [|[f|t|f] ws IH]; [auto|right; left; by exists [], f, ws|left; by exists [], t, ws|].
  destruct IH as [(l&t&r&->)|[(l&g&r&->)|IH]]; [left; by exists (Finished f :: l), t, r| |auto].
  right; left. by exists (Finished f :: l), g, r.
Qed.

Lemma failed_le ws : (sum_list_with is_failed ws ≤ length ws)%nat.
Proof. induction ws as [|x ws IH]; cbn; [lia|]. assert (is_failed x ≤ 1)%nat by (destruct x as [[]| |[]]; cbn; lia). lia. Qed.

Lemma finished_all ws :
  Forall (λ x, match x with Finished _ => True | _ => False end) ws →
  sum_list_with is_finished ws = length ws ∧ concat (in_work <$> ws) = [].
Proof. induction 1 as [|[] ws ? ? [IH1 IH2]]; cbn; [done|done|done|]. by rewrite IH1, IH2. Qed.

Lemma sync_progress gm table bins s :
  sync_inv bins s →
  (∃ s', sync_step gm table s s') ∨ all_finished s ∧ (sync_result s = None → synced s ≡ₚ bins).
Proof.
  destruct s as [p c cl es ws w sy]. intros [Hw He Hc Hf (dr&Hdr&Hp)]. cbn in *.
  destruct (workers_cases ws) as [(l&t&r&->)|[(l&f&r&->)|Hfin]].
  - left. destruct (sync_one gm table w t) as [w' [e|]] eqn:E; eexists; [eapply step_error|by eapply step_done]; [done|].
    rewrite He, sum_app. cbn. rewrite length_app in Hw. cbn in Hw. pose proof (failed_le l). pose proof (failed_le r). lia.
  - left. destruct p as [|t p]; [|destruct (decide (length c < concurrency)%nat) as [Hlt|Hlt]; [eexists; by apply step_send|]].
    + destruct cl; [|eexists; apply step_close]. destruct c; eexists; [apply step_finish|apply step_take].
    + destruct c; [cbn in Hlt; unfold concurrency in Hlt; lia|]. eexists. apply step_take.
  - right. destruct (finished_all _ Hfin) as [Hn Hin]. destruct Hf as [-> ->]; [rewrite Hn, Hw; done|].
    rewrite (Hc eq_refl), Hin in Hp. cbn in Hp. split; [done|]. unfold sync_result. cbn. intros Hno.
    destruct es; [|done]. destruct dr; [|by destruct Hdr]. by rewrite app_nil_r in Hp.
Qed.

Lemma sync_steps gm table bins w n s :
  nsteps (sync_step gm table) n (sync_start bins w) s →
  sync_inv bins s ∧ (n + remaining s ≤ 3 * length bins + 11)%nat.
Proof.
  remember (sync_start bins w) as s0 eqn:E0. intros Hs.
  assert (sync_inv bins s0 ∧ remaining s0 = 3 * length bins + 11)%nat as [Hi Hr].
  { subst. split; [apply sync_start_inv|]. unfold remaining. cbn. lia. }
  rewrite <-Hr. clear E0 Hr. induction Hs as [s|n s1 s2 s3 H1 _ IH]; [auto with lia|].
  destruct (IH (sync_step_inv _ _ _ _ _ H1 Hi)) as [? ?]. split; [done|].
  pose proof (sync_step_remaining _ _ _ _ H1). lia.
Qed.

(** *** The times *)

#[local] Ltac Zify.zify_post_hook ::= Z.to_euclidean_division_equations.

Lemma Next_aligned tb t :
  valid_timebin tb → Truncate t Hour = t →
  ∃ n, Next tb t = Ret n ∧ t + Hour ≤ n ∧ Truncate n Hour = n ∧
    ∀ t', t ≤ t' < n → partitionValues tb t' = partitionValues tb t.
Proof.
  intros Htb Ht. destruct (Next_correct tb t Htb) as (n&Hn&Hlt&Hsame&_&Hal). exists n.
  assert (Truncate n Hour = n) as Hnh.
  { destruct (decide _); [done|]. unfold Truncate, Day24, Hour, Second in *. lia. }
  split_and!; try done. unfold Truncate, Hour, Second in *. lia.
Qed.

(** enough fuel for the times of a period *)
Definition bins_fuel (timeBin endDay : Time) : nat := S (Z.to_nat ((endDay - timeBin) / Hour + 1)).

Lemma time_bins_ok tb endDay fuel t :
  valid_timebin tb → Truncate t Hour = t → (bins_fuel t endDay ≤ fuel)%nat →
  ∃ bins, time_bins fuel tb t endDay = Some (Ret bins) ∧ StronglySorted Z.lt bins ∧ Forall (λ b, t ≤ b ≤ endDay) bins ∧
    ∀ u, t ≤ u ≤ endDay → ∃ b, b ∈ bins ∧ partitionValues tb b = partitionValues tb u.
Proof.
  intros Htb. revert t. induction fuel as [|fuel IH]; intros t Ht Hf; [unfold bins_fuel in Hf; lia|].
  cbn [time_bins]. destruct (After t endDay) eqn:Ea; unfold After in Ea.
  { exists []. split_and!; [done|constructor|done|]. intros u ?. lia. }
  destruct (Next_aligned tb t Htb Ht) as (n&->&Hle&Hal&Hsame).
  destruct (IH n Hal) as (bins&->&Hs&Hall&Hcov); [unfold bins_fuel, Hour, Second in *; lia|].
  assert (0 < Hour) by done.
  exists (t :: bins). split_and!; [done| | |].
  - constructor; [done|]. eapply Forall_impl; [done|]. cbn. lia.
  - constructor; [lia|]. eapply Forall_impl; [done|]. cbn. lia.
  - intros u Hu. destruct (decide (u < n)).
    + exists t. split; [left|]. symmetry. apply Hsame. lia.
    + destruct (Hcov u) as (b&?&?); [lia|]. exists b. split; [by right|done].
Qed.

(** the hours of the first day and of the last are all covered *)
Lemma time_bins_days tb startDate table now fuel :
  valid_timebin tb → (bins_fuel (first_bin startDate table) (last_bin now) ≤ fuel)%nat →
  ∃ bins, time_bins fuel tb (first_bin startDate table) (last_bin now) = Some (Ret bins) ∧ StronglySorted Z.lt bins ∧
    ∀ u, (if decide (startDate = 0) then tbCreateTime table else startDate) ≤ u < Truncate now Day24 + Day24 →
      ∃ b, b ∈ bins ∧ partitionValues tb b = partitionValues tb u.
Proof.
  intros Htb Hf. destruct (time_bins_ok tb (last_bin now) fuel (first_bin startDate table) Htb) as (bins&Hb&Hs&_&Hc);
    [unfold first_bin; unfold Truncate, Day24, Hour, Second; lia|done|].
  exists bins. split_and!; [done..|]. intros u Hu. destruct (Hc (Truncate u Hour)) as (b&Hin&Hv).
  { unfold first_bin, last_bin, Truncate, Day24, Hour, Second in *. lia. }
  exists b. split; [done|]. rewrite Hv.
  destruct (Next_aligned tb (Truncate u Hour) Htb) as (n&_&Hn&_&Hsame); [by apply Truncate_idemp|].
  symmetry. apply Hsame. unfold Truncate, Hour, Second in *. lia.
Qed.

(** C34: SyncPartitions covers the whole period and its goroutines never hang.
    The loop sends the first time of every partition from the start date (of the
    creation of the table, if none is given) to the end of today, in order, each once.  Whatever Glue and S3 answer and
    in whatever order the ten goroutines run, a run has at most three steps for
    every time and eleven more; a state in which nothing can move is one in
    which every goroutine has finished, so that wg.Wait returns; and when
    SyncPartitions then returns no error, every time was synchronised exactly
    once (after an error a goroutine drains the times it receives). *)
Theorem sync_partitions_goroutines gm table startDate now fuel w :
  valid_timebin (timebin gm) →
  (bins_fuel (first_bin startDate table) (last_bin now) ≤ fuel)%nat →
  ∃ bins, time_bins fuel (timebin gm) (first_bin startDate table) (last_bin now) = Some (Ret bins) ∧
    StronglySorted Z.lt bins ∧
    (∀ u, (if decide (startDate = 0) then tbCreateTime table else startDate) ≤ u < Truncate now Day24 + Day24 →
       ∃ b, b ∈ bins ∧ partitionValues (timebin gm) b = partitionValues (timebin gm) u) ∧
    ∀ n s, nsteps (sync_step gm table) n (sync_start bins w) s →
      (n ≤ 3 * length bins + 11)%nat ∧
      ((∃ s', sync_step gm table s s') ∨ all_finished s ∧ (sync_result s = None → synced s ≡ₚ bins)).
Proof.
  clear GetTable DeletePartition_call. intros Htb Hf.
  destruct (time_bins_days (timebin gm) startDate table now fuel Htb Hf) as (bins&Hb&Hs&Hc).
  exists bins. split_and!; [done..|]. intros n s Hn. destruct (sync_steps _ _ _ _ _ _ Hn) as [Hi Hr].
  split; [lia|]. by apply sync_progress.
Qed.
End Glue.

(** ** A concrete table *)

Definition demo_gm : GlueTableMetadata := NewGlueTableMetadata LogData "AWS.CloudTrail" "" GlueTableHourly.
Definition demo_descriptor (location : string) : StorageDescriptor :=
  {| sdLocation := location; sdColumns := ["eventName"]; sdSerde := "org.openx.data.jsonserde"; sdRest := "" |}.
Definition demo_glue_table : Table := {| tbDescriptor := demo_descriptor "s3://b/logs/aws_cloudtrail/"; tbCreateTime := 0 |}.

(** one day, with no partition and no data *)
Lemma sync_partitions_goroutines_witness :
  let now := Date 2020 2 10 7 in
  let step := sync_step (W := unit) (λ _ _ _ _, Err (ErrAWS EntityNotFoundException "none")) (λ w _ _ _ _, (w, None))
                (λ w _ _ _ _, (w, None)) (λ _ _ _, Ok []) (λ _, Ok "b") demo_gm demo_glue_table in
  valid_timebin (timebin demo_gm) ∧
  (bins_fuel (first_bin now demo_glue_table) (last_bin now) ≤ 25)%nat ∧
  ∃ bins, time_bins 25 (timebin demo_gm) (first_bin now demo_glue_table) (last_bin now) = Some (Ret bins) ∧ length bins = 24%nat ∧
    ∀ n s, nsteps step n (sync_start bins tt) s →
      (n ≤ 3 * length bins + 11)%nat ∧ ((∃ s', step s s') ∨ all_finished s ∧ (sync_result s = None → synced s ≡ₚ bins)).
Proof.
  intros now step. assert (valid_timebin (timebin demo_gm)) as Hv by (left; reflexivity).
  assert (bins_fuel (first_bin now demo_glue_table) (last_bin now) ≤ 25)%nat as Hf by (apply Nat.leb_le; vm_compute; reflexivity).
  split; [exact Hv|]. split; [exact Hf|].
  destruct (sync_partitions_goroutines (W := unit) (λ _ _ _ _, Err (ErrAWS EntityNotFoundException "none")) (λ w _ _ _ _, (w, None))
              (λ w _ _ _ _, (w, None)) (λ _ _ _, Ok []) (λ _, Ok "b") demo_gm demo_glue_table now now 25 tt Hv Hf) as (bins&Hb&_&_&Hrun).
  exists bins. split; [exact Hb|]. split; [|exact Hrun].
  vm_compute in Hb. injection Hb as <-. reflexivity.
Defined.
