(* ===== verification/DataCatalogUpdater.v ===== *)
(** * The updater of the data catalog

    Model of src/internal/log_analysis/datacatalog_updater/main/lambda.go: for
    every object a notification names, the Lambda creates the Glue partition
    the key of the object belongs to, unless its cache says that it did.  The
    cache outlives an invocation.  The theorems show that the cache is sound
    (the location of a partition determines the partition) and that after a
    successful invocation Glue has the partition of every object whose key is
    dated to the hour. *)

From S2P Require Import Prelude GoTime Glue GluePartitions.

#[local] Open Scope Z_scope.

Section Updater.
Context {W : Type}.
Context (GetTable : W → string → string → result Table).
Context (CreatePartition_call : W → string → string → list string → StorageDescriptor → W * option error).
Context (ParseHost : string → result string).
(** jsoniter.UnmarshalFromString into an S3Notification: the bucket and the key of each record *)
Context (Unmarshal : string → result (list (string * string))).

#[local] Notation CreatePartition := (gp_CreatePartition GetTable CreatePartition_call ParseHost).

(** ** Handler *)

(** the records of one notification; the second component is partitionPrefixCache *)
Fixpoint process_objects (w : W) (cache : gset string) (objects : list (string * string))
    : W * gset string * option error :=
  match objects with
  | [] => (w, cache, None)
  | (bucket, key) :: objects =>
      match GetPartitionFromS3 bucket key with
      | Err _ => process_objects w cache objects
      | Ok gluePartition =>
          let partitionLocation := GetPartitionLocation gluePartition in
          if decide (partitionLocation ∈ cache) then process_objects w cache objects
          else match CreatePartition w gluePartition with
               | (w, Some e) => (w, cache, Some (ErrWrap "failed to create partition" e))
               | (w, None) => process_objects w ({[partitionLocation]} ∪ cache) objects
               end
      end
  end.

(** the bodies of the records of the SQS event *)
Fixpoint process (w : W) (cache : gset string) (records : list string) : W * gset string * option error :=
  match records with
  | [] => (w, cache, None)
  | body :: records =>
      match Unmarshal body with
      | Err _ => process w cache records
      | Ok [] => process w cache records
      | Ok objects =>
          match process_objects w cache objects with
          | (w, cache, Some e) => (w, cache, Some e)
          | (w, cache, None) => process w cache records
          end
      end
  end.

(** the invocations of one instance of the Lambda *)
Fixpoint invocations (w : W) (cache : gset string) (events : list (list string)) : W * gset string :=
  match events with
  | [] => (w, cache)
  | records :: events => let '(w, cache, _) := process w cache records in invocations w cache events
  end.
End Updater.

(** ** A location determines its partition *)

(** the hour the columns stand for *)
Definition hour_of (cols : list PartitionColumnInfo) : Time :=
  match cols with
  | [y; m; d; h] =>
      match atoi (colValue y), atoi (colValue m), atoi (colValue d), atoi (colValue h) with
      | Ok y, Ok m, Ok d, Ok h => Date y m d h
      | _, _, _, _ => 0
      end
  | _ => 0
  end.

Definition column_names : list string := ["year"; "month"; "day"; "hour"].

Definition plain (s : string) : Prop := contains_byte "/" s = false.

(** what [GetPartitionFromS3] makes *)
Record parsed (gp : GluePartition) : Prop := {
  parsed_type : datatype gp = LogData ∨ datatype gp = RuleData;
  parsed_table : plain (gpTableName gp);
  parsed_keys : (colKey <$> partitionColumns gp) `prefix_of` column_names;
  parsed_values : Forall (λ c, plain (colValue c)) (partitionColumns gp);
  parsed_hour : hour gp = hour_of (partitionColumns gp)
}.

(** a piece of a split has neither the separator nor a byte the string has not *)
Lemma split_on_pieces d c s :
  contains_byte d s = false ∨ d = c → Forall (λ p, contains_byte d p = false) (split_on c s).
Proof.
  induction s as [|a s IH]; cbn; intros Hs; [by repeat constructor|].
  assert (Forall (λ p, contains_byte d p = false) (split_on c s)) as Hp
    by (apply IH; destruct Hs as [Hs|]; [left; by case_decide|by right]).
  destruct (decide (a = c)) as [|Ha]; [by constructor|]. pose proof (split_on_nonempty c s) as Hne.
  destruct (split_on c s) as [|h l]; [done|]. apply Forall_cons in Hp as [Hh Hl]. constructor; [|done].
  cbn. destruct Hs as [Hs| ->]; by case_decide.
Qed.

Lemma infer_ok input name c :
  plain input → inferPartitionColumnInfo input name = Ok c →
  colKey c = name ∧ plain (colValue c) ∧ ∃ z, atoi (colValue c) = Ok z.
Proof.
  unfold inferPartitionColumnInfo, plain. intros Hi.
  pose proof (split_on_pieces "/" "=" input (or_introl Hi)) as Hp.
  destruct (split_on "=" input) as [|f0 [|f1 [|]]]; try done. case_decide; [|done].
  destruct (atoi f1) as [z|] eqn:Ez; [|done]. intros [= <-]. cbn. split_and!; [done| |by exists z].
  by apply Forall_cons in Hp as [_ [Hf _]%Forall_cons].
Qed.

Lemma parse_day_hour_parsed gp keys year month :
  datatype gp = LogData ∨ datatype gp = RuleData → plain (gpTableName gp) → hour gp = 0 → Forall plain keys →
  colKey year = "year" → plain (colValue year) → (∃ z, atoi (colValue year) = Ok z) →
  colKey month = "month" → plain (colValue month) → (∃ z, atoi (colValue month) = Ok z) →
  parsed (parse_day_hour gp keys year month) ∧ s3Bucket (parse_day_hour gp keys year month) = s3Bucket gp.
Proof.
  intros Hd Ht Hh Hk Ky Py [zy Ey] Km Pm [zm Em].
  assert (Forall plain (drop 4 keys)) as Hk4 by (by apply Forall_drop).
  unfold parse_day_hour. destruct (drop 4 keys) as [|k4 rest].
  { split; [|done]. split; cbn; rewrite ?Ky, ?Km; try done; [by exists ["day"; "hour"]|by repeat constructor]. }
  apply Forall_cons in Hk4 as [H4 Hrest].
  destruct (inferPartitionColumnInfo k4 "day") as [day|] eqn:Ed; last first.
  { split; [|done]. split; cbn; rewrite ?Ky, ?Km; try done; [by exists ["day"; "hour"]|by repeat constructor]. }
  destruct (infer_ok _ _ _ H4 Ed) as (Kd&Pd&zd&Ezd). destruct rest as [|k5 rest].
  { split; [|done]. split; cbn; rewrite ?Ky, ?Km, ?Kd; try done; [by exists ["hour"]|by repeat constructor]. }
  apply Forall_cons in Hrest as [H5 _].
  destruct (inferPartitionColumnInfo k5 "hour") as [h|] eqn:Eh; last first.
  { split; [|done]. split; cbn; rewrite ?Ky, ?Km, ?Kd; try done; [by exists ["hour"]|by repeat constructor]. }
  destruct (infer_ok _ _ _ H5 Eh) as (Kh&Ph&zh&Ezh). rewrite Ey, Em, Ezd, Ezh.
  split; [|done]. split; cbn; rewrite ?Ky, ?Km, ?Kd, ?Kh, ?Ey, ?Em, ?Ezd, ?Ezh; try done. by repeat constructor.
Qed.

Lemma from_s3_parsed bucket key gp : GetPartitionFromS3 bucket key = Ok gp → parsed gp ∧ s3Bucket gp = bucket.
Proof.
  unfold GetPartitionFromS3. destruct (has_suffix _ _); [|done].
  pose proof (split_on_pieces "/" "/" key (or_intror eq_refl)) as Hp.
  destruct (split_on "/" key) as [|k0 [|k1 [|k2 [|k3 rest]]]]; try done.
  assert (plain k1 ∧ plain k2 ∧ plain k3) as (P1&P2&P3).
  { apply Forall_cons in Hp as [_ Hp]. apply Forall_cons in Hp as [? Hp]. apply Forall_cons in Hp as [? Hp].
    by apply Forall_cons in Hp as [? Hp]. }
  destruct (decide (k0 = logS3Prefix)); [|destruct (decide (k0 = ruleMatchS3Prefix)); [|done]]; unfold mbind, result_bind;
    (destruct (inferPartitionColumnInfo k2 "year") as [y|] eqn:Ey; [|done]);
    (destruct (inferPartitionColumnInfo k3 "month") as [m|] eqn:Em; [|done]);
    destruct (infer_ok _ _ _ P2 Ey) as (?&?&?); destruct (infer_ok _ _ _ P3 Em) as (?&?&?); intros [= <-];
    apply parse_day_hour_parsed; auto.
Qed.

Definition column (c : PartitionColumnInfo) : string := colKey c +:+ "=" +:+ colValue c.

Lemma split_columns cols :
  Forall (λ c, plain (column c)) cols → split_on "/" (column_path cols) = (column <$> cols) ++ [""].
Proof.
  induction 1 as [|c cols Hc _ IH]; cbn; [done|]. rewrite <-IH.
  replace (colKey c +:+ "=" +:+ colValue c +:+ "/" +:+ column_path cols) with (column c +:+ "/" +:+ column_path cols)
    by (unfold column; by rewrite !string_app_assoc). by apply split_path.
Qed.

Lemma parsed_columns gp : parsed gp → Forall (λ c, plain (column c)) (partitionColumns gp).
Proof.
  intros [_ _ [k Hk] Hv _]. assert (Forall (λ c, plain (colKey c)) (partitionColumns gp)) as Hkeys.
  { apply (proj1 (Forall_fmap colKey plain (partitionColumns gp))). assert (Forall plain column_names) as Hn by (by repeat constructor).
    rewrite Hk in Hn. by apply Forall_app in Hn as [? _]. }
  apply Forall_forall. intros c Hc. rewrite Forall_forall in Hv, Hkeys. unfold plain, column.
  by rewrite !contains_byte_app, Hv, Hkeys.
Qed.

Definition type_dir (dt : DataType) : string := if decide (dt = LogData) then logS3Prefix else ruleMatchS3Prefix.

Lemma split_location gp :
  parsed gp → plain (s3Bucket gp) →
  split_on "/" (GetPartitionLocation gp) =
  "s3:" :: "" :: s3Bucket gp :: type_dir (datatype gp) :: gpTableName gp :: (column <$> partitionColumns gp) ++ [""].
Proof.
  intros Hp Hb. pose proof (split_columns _ (parsed_columns _ Hp)) as Hc. destruct Hp as [_ Ht _ _ _].
  unfold GetPartitionLocation, getTablePrefix, type_dir.
  change ("s3://" +:+ ?x) with ("s3:" +:+ "/" +:+ "" +:+ "/" +:+ x).
  rewrite !split_path by done. do 3 f_equal. rewrite <-Hc.
  case_decide; rewrite !string_app_assoc, split_path by done; f_equal; by apply split_path.
Qed.

Lemma columns_inj names cols cols' :
  (colKey <$> cols) `prefix_of` names → (colKey <$> cols') `prefix_of` names → column <$> cols = column <$> cols' → cols = cols'.
Proof.
  revert names cols'. induction cols as [|c cols IH]; intros names [|c' cols'] Hk Hk'; cbn; [done..|].
  intros [= Hc Hcs]. destruct names as [|n names]; [by apply prefix_nil_not in Hk|]. cbn in Hk, Hk'.
  pose proof (prefix_cons_inv_1 _ _ _ _ Hk). pose proof (prefix_cons_inv_1 _ _ _ _ Hk').
  apply prefix_cons_inv_2 in Hk, Hk'. f_equal; [|by eapply IH].
  destruct c as [k v], c' as [k' v']. unfold column in Hc. cbn in *. subst. by apply (inj _), (inj _) in Hc as ->.
Qed.

Lemma location_inj gp gp' :
  parsed gp → parsed gp' → plain (s3Bucket gp) → plain (s3Bucket gp') →
  GetPartitionLocation gp = GetPartitionLocation gp' →
  datatype gp = datatype gp' ∧ gpTableName gp = gpTableName gp' ∧ hour gp = hour gp'.
Proof.
  intros Hp Hp' Hb Hb' Hl. pose proof (split_location _ Hp Hb) as E. rewrite Hl, (split_location _ Hp' Hb') in E.
  injection E as _ Hd Ht Hc. apply (inj (.++ [""])) in Hc.
  destruct Hp as [Hty _ Hk _ Hh], Hp' as [Hty' _ Hk' _ Hh'].
  split_and!; [|done|].
  - destruct Hty as [Ed|Ed], Hty' as [Ed'|Ed']; rewrite Ed, Ed' in *; done.
  - rewrite Hh, Hh'. f_equal. symmetry. by eapply columns_inj.
Qed.

(** ** Glue has the partitions *)

(** Glue, as the Lambda relies on it: CreatePartition makes the partition, or
    answers that it exists, and never removes one *)
Class GlueCatalog {W : Type} (has : W → string → string → list string → Prop)
    (CreatePartition_call : W → string → string → list string → StorageDescriptor → W * option error) : Prop := {
  create_makes w db table values d w' r :
    CreatePartition_call w db table values d = (w', r) →
    match r with None => True | Some e => has_code AlreadyExistsException e = true end → has w' db table values;
  create_keeps w db table values d w' r db' table' values' :
    CreatePartition_call w db table values d = (w', r) → has w db' table' values' → has w' db' table' values'
}.

Section Spec.
Context {W : Type} (has : W → string → string → list string → Prop).
Context (GetTable : W → string → string → result Table).
Context (CreatePartition_call : W → string → string → list string → StorageDescriptor → W * option error).
Context (ParseHost : string → result string) (Unmarshal : string → result (list (string * string))).
Context {catalog : GlueCatalog has CreatePartition_call}.

#[local] Notation CreatePartition := (gp_CreatePartition GetTable CreatePartition_call ParseHost).
#[local] Notation process_objects := (process_objects GetTable CreatePartition_call ParseHost).
#[local] Notation process := (process GetTable CreatePartition_call ParseHost Unmarshal).
#[local] Notation invocations := (invocations GetTable CreatePartition_call ParseHost Unmarshal).

(** the hourly partition of the table *)
Definition has_partition (w : W) (gp : GluePartition) : Prop :=
  has w (getDatabase (datatype gp)) (GetTableName (gpTableName gp)) (partitionValues GlueTableHourly (hour gp)).

Definition keeps (w w' : W) : Prop := ∀ db table values, has w db table values → has w' db table values.

#[local] Instance keeps_preorder : PreOrder keeps.
Proof. split; [by intros w ???|]. intros w1 w2 w3 H1 H2 ????. by apply H2, H1. Qed.

(** every location of the cache belongs to a partition Glue has *)
Definition cache_sound (w : W) (cache : gset string) : Prop :=
  ∀ gp, parsed gp → plain (s3Bucket gp) → GetPartitionLocation gp ∈ cache → has_partition w gp.

Lemma create_partition_spec w gp w' r :
  CreatePartition w gp = (w', r) → keeps w w' ∧ (r = None → has_partition w' gp).
Proof using catalog.
  unfold gp_CreatePartition, CreateJSONPartition, createPartition. cbn.
  destruct (GetTable w _ _) as [table|e]; [|by intros [= <- <-]].
  destruct (contains "json" _); [|by intros [= <- <-]].
  destruct (ParseHost _) as [host|e]; [|by intros [= <- <-]].
  destruct (CreatePartition_call w _ _ _ _) as [w1 [e|]] eqn:E; intros [= <- <-].
  - split; [intros ???; by eapply create_keeps|]. intros Hc. eapply create_makes; [done|]. cbn.
    by destruct (has_code AlreadyExistsException e).
  - split; [intros ???; by eapply create_keeps|]. intros _. by eapply create_makes.
Qed.

Lemma cache_sound_keeps w w' cache : keeps w w' → cache_sound w cache → cache_sound w' cache.
Proof. intros Hk Hc gp Hp Hb Hl. by apply Hk, Hc. Qed.

Lemma cache_sound_add w cache gp :
  parsed gp → plain (s3Bucket gp) → has_partition w gp → cache_sound w cache →
  cache_sound w ({[GetPartitionLocation gp]} ∪ cache).
Proof.
  intros Hp Hb Hh Hc gp' Hp' Hb' [Hl%elem_of_singleton|Hl]%elem_of_union; [|by apply Hc].
  destruct (location_inj _ _ Hp' Hp Hb' Hb Hl) as (Ed&Et&Eh). unfold has_partition in *. by rewrite Ed, Et, Eh.
Qed.

(** the partitions of the objects are in the cache *)
Definition cached (cache : gset string) (objects : list (string * string)) : Prop :=
  ∀ b k gp, (b, k) ∈ objects → GetPartitionFromS3 b k = Ok gp → GetPartitionLocation gp ∈ cache.

Lemma process_objects_spec objects w cache w' cache' r :
  cache_sound w cache → Forall (λ o, plain o.1) objects → process_objects w cache objects = (w', cache', r) →
  keeps w w' ∧ cache_sound w' cache' ∧ cache ⊆ cache' ∧ (r = None → cached cache' objects).
Proof using catalog.
  clear Unmarshal. revert w cache. induction objects as [|[b k] objects IH]; intros w cache Hs Hb; cbn.
  { intros [= <- <- <-]. split_and!; try done. by intros _ ??? ?%not_elem_of_nil. }
  apply Forall_cons in Hb as [Hb Hbs]. destruct (GetPartitionFromS3 b k) as [gp|e] eqn:Eg; last first.
  { intros Hr. destruct (IH _ _ Hs Hbs Hr) as (?&?&?&Hc). split_and!; [done..|].
    intros Hn b' k' gp' [[= -> ->]|Hin]%elem_of_cons; [by rewrite Eg|by apply Hc]. }
  destruct (from_s3_parsed _ _ _ Eg) as [Hp Eb]. case_decide as Hin.
  { intros Hr. destruct (IH _ _ Hs Hbs Hr) as (?&?&Hsub&Hc). split_and!; [done..|].
    intros Hn b' k' gp' [[= -> ->]|Hin']%elem_of_cons; [rewrite Eg; intros [= <-]; by apply Hsub|by apply Hc]. }
  destruct (CreatePartition w gp) as [w1 [e|]] eqn:Ec; destruct (create_partition_spec _ _ _ _ Ec) as [Hk Hmade].
  { intros [= <- <- <-]. split_and!; [done|by eapply cache_sound_keeps|done|done]. }
  intros Hr. eapply IH in Hr as (Hk2&?&Hsub&Hc); [|apply cache_sound_add; [done|by rewrite Eb|by apply Hmade|]|done];
    [|by eapply cache_sound_keeps].
  split_and!; [by trans w1|done|set_solver|].
  intros Hn b' k' gp' [[= -> ->]|Hin']%elem_of_cons; [rewrite Eg; intros [= <-]; set_solver|by apply Hc].
Qed.

(** S3: the name of a bucket has no slash *)
Definition bucket_names : Prop := ∀ body objects, Unmarshal body = Ok objects → Forall (λ o, plain o.1) objects.

Definition records_cached (cache : gset string) (records : list string) : Prop :=
  ∀ body objects, body ∈ records → Unmarshal body = Ok objects → cached cache objects.

Lemma cached_mono c c' objects : c ⊆ c' → cached c objects → cached c' objects.
Proof. intros Hs Hc b k gp H1 H2. by eapply Hs, Hc. Qed.

Lemma process_spec records w cache w' cache' r :
  bucket_names → cache_sound w cache → process w cache records = (w', cache', r) →
  cache_sound w' cache' ∧ cache ⊆ cache' ∧ (r = None → records_cached cache' records).
Proof using catalog.
  intros Hnames. revert w cache. induction records as [|body records IH]; intros w cache Hs; cbn.
  { intros [= <- <- <-]. split_and!; try done. by intros _ ?? ?%not_elem_of_nil. }
  destruct (Unmarshal body) as [[|o objects]|e] eqn:Eu.
  1, 3: intros Hr; destruct (IH _ _ Hs Hr) as (?&?&Hc); split_and!; [done..|];
    intros Hn b obs [-> |Hin]%elem_of_cons Hu; [|by eapply Hc]; rewrite Eu in Hu; simplify_eq; by intros ??? ?%not_elem_of_nil.
  destruct (process_objects w cache (o :: objects)) as [[w1 c1] r1] eqn:Eo.
  destruct (process_objects_spec _ _ _ _ _ _ Hs (Hnames _ _ Eu) Eo) as (_&Hs1&Hsub&Hc1).
  destruct r1 as [e|]; [by intros [= <- <- <-]|].
  intros Hr. destruct (IH _ _ Hs1 Hr) as (?&Hsub2&Hc2). split_and!; [done|by trans c1|].
  intros Hn b obs [-> |Hin]%elem_of_cons; [rewrite Eu; intros [= <-]|by apply Hc2].
  eapply cached_mono; [done|]. by apply Hc1.
Qed.

Lemma invocations_sound events w cache :
  bucket_names → cache_sound w cache → cache_sound (invocations w cache events).1 (invocations w cache events).2.
Proof using catalog.
  intros Hn. revert w cache. induction events as [|records events IH]; intros w cache Hs; [done|]. cbn.
  destruct (process w cache records) as [[w1 c1] r] eqn:E. by destruct (process_spec _ _ _ _ _ _ Hn Hs E) as [? _]; auto.
Qed.

Lemma process_objects_cached w cache objects : cached cache objects → process_objects w cache objects = (w, cache, None).
Proof.
  induction objects as [|[b k] objects IH]; intros Hc; cbn; [done|].
  assert (cached cache objects) as Hr by (intros ??? ?; eapply Hc; by right).
  destruct (GetPartitionFromS3 b k) as [gp|e] eqn:E; [|by apply IH].
  rewrite decide_True by (eapply Hc; [by left|done]). by apply IH.
Qed.

Lemma process_cached w cache records : records_cached cache records → process w cache records = (w, cache, None).
Proof.
  induction records as [|body records IH]; intros Hc; cbn; [done|].
  assert (records_cached cache records) as Hr by (intros ?? ?; eapply Hc; by right).
  destruct (Unmarshal body) as [[|o objects]|e] eqn:E; [by apply IH| |by apply IH].
  rewrite process_objects_cached; [by apply IH|]. eapply Hc; [by left|done].
Qed.

(** the key of an object that is stored under the time [t] in a table *)
Definition dated_key (dt : DataType) (table : string) (t : Time) (fname : string) : string :=
  getTablePrefix dt table +:+ getTimePartitionPrefix GlueTableHourly t +:+ fname.

(** a compressed file in the directory of an hour *)
Definition dated (dt : DataType) (table : string) (t : Time) (fname : string) : Prop :=
  (dt = LogData ∨ dt = RuleData) ∧ plain table ∧ plain fname ∧ has_suffix ".json.gz" fname = true ∧ 0 ≤ Year t < two63.

Lemma dated_key_parsed dt table t fname bucket : dated dt table t fname →
  ∃ gp, GetPartitionFromS3 bucket (dated_key dt table t fname) = Ok gp ∧
    datatype gp = dt ∧ gpTableName gp = table ∧ hour gp = Truncate t Hour.
Proof.
  intros (?&?&?&?&?). eexists. split; [by apply parse_written_key|done].
Qed.

(** C35: the catalog has the partition of every dated object.  After any
    invocations of the Lambda, successful or not, when an invocation returns no
    error, Glue has, for every object its readable notifications name whose key
    is a compressed file in the directory of an hour of a table, the hourly
    partition of this table for this very hour, also of the objects the cache
    made it skip: a location stands for one partition.  Delivering the messages
    again makes no call to Glue.  (Keys of another form are skipped, or get a
    partition that is not theirs: see [undated_key_partition].) *)
Theorem catalog_covers_objects w0 events records w' cache' :
  bucket_names →
  process (invocations w0 ∅ events).1 (invocations w0 ∅ events).2 records = (w', cache', None) →
  (∀ body objects b dt table t fname, body ∈ records → Unmarshal body = Ok objects →
     (b, dated_key dt table t fname) ∈ objects → dated dt table t fname →
     has w' (getDatabase dt) (GetTableName table) (partitionValues GlueTableHourly t)) ∧
  ∀ w, process w cache' records = (w, cache', None).
Proof using catalog.
  intros Hn Hp. eapply process_spec in Hp as (Hs&_&Hc); [|done|by apply invocations_sound; [|intros ????]].
  specialize (Hc eq_refl). split; [|intros w; by apply process_cached].
  intros body objects b dt table t fname Hb Hu Hin Hd.
  destruct (dated_key_parsed _ _ _ _ b Hd) as (gp&Hg&<-&<-&Hh). rewrite <-partitionValues_hour, <-Hh.
  destruct (from_s3_parsed _ _ _ Hg) as [Hgp Eb].
  apply Hs; [done| |by eapply Hc]. rewrite Eb. pose proof (Hn _ _ Hu) as Hf. rewrite Forall_forall in Hf. exact (Hf _ Hin).
Qed.
End Spec.

(** a key without a day and an hour: the partition that is created is the one of the year 1 *)
Lemma undated_key_partition :
  ∃ gp, GetPartitionFromS3 "b" "logs/t/year=2020/month=02/x.json.gz" = Ok gp ∧
    partitionValues GlueTableHourly (hour gp) = ["1"; "01"; "01"; "00"].
Proof. eexists. split; [vm_compute; reflexivity|]. vm_compute. reflexivity. Qed.

(** ** A concrete catalog *)

Definition demo_world : Type := gset (string * string * list string).
Definition demo_has (w : demo_world) (db table : string) (values : list string) : Prop := (db, table, values) ∈ w.
Definition demo_create (w : demo_world) (db table : string) (values : list string) (d : StorageDescriptor)
    : demo_world * option error :=
  if decide ((db, table, values) ∈ w) then (w, Some (ErrAWS AlreadyExistsException "exists"))
  else ({[(db, table, values)]} ∪ w, None).
Definition demo_table (w : demo_world) (db table : string) : result Table :=
  Ok {| tbDescriptor := {| sdLocation := "s3://b/logs/t/"; sdColumns := []; sdSerde := "org.openx.data.jsonserde"; sdRest := "" |};
        tbCreateTime := 0 |}.
Definition demo_key (h : string) : string := "logs/t/year=2020/month=02/day=10/hour=" +:+ h +:+ "/x.json.gz".
Definition demo_unmarshal (body : string) : result (list (string * string)) :=
  if decide (body = "one") then Ok [("b", demo_key "07"); ("b", "readme.txt")]
  else if decide (body = "two") then Ok [("b", demo_key "07"); ("b", demo_key "08")]
  else Err (ErrMsg "json").

#[export] Instance demo_catalog : GlueCatalog demo_has demo_create.
Proof.
  unfold demo_has, demo_create. split.
  - intros w db table values d w' r. case_decide; intros [= <- <-] _; set_solver.
  - intros w db table values d w' r ???. case_decide; intros [= <- <-]; set_solver.
Qed.

Lemma demo_buckets : bucket_names demo_unmarshal.
Proof. intros body objects. unfold demo_unmarshal. repeat case_decide; intros [= <-]; by repeat constructor. Qed.

Lemma catalog_covers_objects_witness :
  let process := process demo_table demo_create (λ _, Ok "b") demo_unmarshal in
  let start := invocations demo_table demo_create (λ _, Ok "b") demo_unmarshal (∅ : demo_world) ∅ [["one"; "bad"]] in
  (∃ w' cache', process start.1 start.2 ["two"] = (w', cache', None) ∧
     demo_has w' "panther_logs" "t" ["2020"; "02"; "10"; "08"] ∧ process ∅ cache' ["two"] = (∅, cache', None)).
Proof.
  intros process start. destruct (process start.1 start.2 ["two"]) as [[w' cache'] r] eqn:E.
  assert (r = None) as -> by (change r with (w', cache', r).2; rewrite <-E; vm_compute; reflexivity).
  destruct (catalog_covers_objects demo_has demo_table demo_create (λ _, Ok "b") demo_unmarshal ∅ [["one"; "bad"]] ["two"] w' cache'
              demo_buckets E) as [Hall Hagain].
  exists w', cache'. split_and!; [reflexivity| |exact (Hagain ∅)].
  change ["2020"; "02"; "10"; "08"] with (partitionValues GlueTableHourly (Date 2020 2 10 8)).
  apply (Hall "two" [("b", demo_key "07"); ("b", demo_key "08")] "b" LogData "t" (Date 2020 2 10 8) "x.json.gz");
    [left|reflexivity|right; left|].
  split_and!; [left; reflexivity|reflexivity..|vm_compute; discriminate|vm_compute; reflexivity].
Defined.
