(* ===== verification/LogSources.v ===== *)
(** * Readers of log sources

    Model of src/internal/log_analysis/log_processor/sources: the messages that
    announce new objects (s3.go) and the choice of the role and of the client an
    object is read with (s3_client_cache.go), with their caches, and the
    theorems about them.  JSON, SNS, STS, S3, the source API, the sniffing of
    content types and gzip are parameters. *)

From S2P Require Import Prelude GoTime Sqsbatch SourceApi.

#[local] Open Scope Z_scope.
#[local] Set Default Proof Using "Type".

(** ** Data *)

Record S3ObjectInfo := { S3Bucket : string; S3ObjectKey : string }.

(** the fields of an SNS message that are read *)
Record SnsNotification := { snsType : string; snsMessage : string; snsTopicArn : string; snsToken : option string }.

Record cloudTrailNotification := { ctS3Bucket : option string; ctS3ObjectKey : list (option string) }.

Definition s3TestEvent : string := "s3:TestEvent".
Definition cloudTrailValidationMessage : string := "CloudTrail validation message.".
Definition sourceCacheDuration : Z := 5 * 60 * Second.
Definition UsEast1RegionID : string := "us-east-1".

(** common.DataStream with its hints; the reader may be nil *)
Record DataStream (R : Type) := { Reader : option R; hintBucket : string; hintKey : string; hintContentType : string }.
Arguments Reader {R}. Arguments hintBucket {R}. Arguments hintKey {R}. Arguments hintContentType {R}.

(** ** Notifications (s3.go) *)

Section Notifications.
Context (UnmarshalCloudTrail : string → result cloudTrailNotification).
(** the bucket and the key of the records of an events.S3Event *)
Context (UnmarshalS3Event : string → result (list S3ObjectInfo)).
(** the field Event of an events.S3TestEvent *)
Context (UnmarshalTestEvent : string → result string).

Fixpoint cloudtrail_objects (bucket : option string) (keys : list (option string)) : outcome (list S3ObjectInfo) :=
  match keys with
  | [] => Ret []
  | key :: keys =>
      b ← deref bucket;
      k ← deref key;
      rest ← cloudtrail_objects bucket keys;
      Ret ({| S3Bucket := b; S3ObjectKey := k |} :: rest)
  end.

Definition parseCloudTrailNotification (message : string) : outcome (list S3ObjectInfo) :=
  match UnmarshalCloudTrail message with
  | Err _ => Ret []
  | Ok n => cloudtrail_objects (ctS3Bucket n) (ctS3ObjectKey n)
  end.

Definition parseS3Event (message : string) : list S3ObjectInfo :=
  match UnmarshalS3Event message with Err _ => [] | Ok l => l end.

Definition isTestS3Event (message : string) : bool :=
  match UnmarshalTestEvent message with Err _ => false | Ok event => bool_decide (event = s3TestEvent) end.

Definition isCloudTrailValidationMessage (message : string) : bool := bool_decide (message = cloudTrailValidationMessage).

Definition ParseNotification (message : string) : outcome (result (list S3ObjectInfo)) :=
  trail ← parseCloudTrailNotification message;
  Ret (match trail with
       | _ :: _ => Ok trail
       | [] =>
           match parseS3Event message with
           | _ :: _ => Ok (parseS3Event message)
           | [] =>
               if isTestS3Event message || isCloudTrailValidationMessage message then Ok []
               else Err (ErrMsg ("notification is not of known type: " +:+ message))
           end
       end).
End Notifications.

(** ** Roles and clients (s3_client_cache.go) *)

(** an S3 client: the role of its credentials and its region *)
Record s3Client := { scRole : string; scRegion : option string }.

Record s3ClientCacheKey := { roleArn : string; awsRegion : string }.

#[export] Instance s3ClientCacheKey_eq_dec : EqDecision s3ClientCacheKey.
Proof. solve_decision. Defined.
#[export] Instance s3ClientCacheKey_countable : Countable s3ClientCacheKey.
Proof.
  apply (inj_countable' (λ k, (roleArn k, awsRegion k)) (λ '(r, a), {| roleArn := r; awsRegion := a |})). by intros [].
Defined.

(** the caches of the process; [reads] counts the readings of the clock *)
Record caches (W : Type) := {
  bucketCache : gmap string string; s3ClientCache : gmap s3ClientCacheKey s3Client; cacheUpdateTime : Time;
  sources : list SourceIntegration; reads : nat; outer : W
}.
Arguments bucketCache {W}. Arguments s3ClientCache {W}. Arguments cacheUpdateTime {W}. Arguments sources {W}.
Arguments reads {W}. Arguments outer {W}.

Definition with_outer {W} (s : caches W) (w : W) : caches W :=
  {| bucketCache := bucketCache s; s3ClientCache := s3ClientCache s; cacheUpdateTime := cacheUpdateTime s;
     sources := sources s; reads := reads s; outer := w |}.

Section Clients.
Context {W : Type} (now : nat → Time).
(** the source API: the S3 integrations, when the clock was read so many times;
    the location of a bucket, as a client sees it *)
Context (ListIntegrations : nat → W → W * result (list SourceIntegration)).
Context (GetBucketLocation : W → s3Client → string → W * result (option string)).
(** what an ARC cache keeps when an entry is added *)
Context (evict_buckets : gmap string string → gmap string string).
Context (evict_clients : gmap s3ClientCacheKey s3Client → gmap s3ClientCacheKey s3Client).

(** the first source that the object belongs to, and its role *)
Fixpoint find_role (l : list SourceIntegration) (o : S3ObjectInfo) : outcome (option string) :=
  match l with
  | [] => Ret None
  | integration :: l =>
      m ← deref (siMetadata integration);
      if decide (default "" (smS3Bucket m) = S3Bucket o) then
        match smS3Prefix m with
        | None => Ret (smLogProcessingRole m)
        | Some p => if has_prefix p (S3ObjectKey o) then Ret (smLogProcessingRole m) else find_role l o
        end
      else find_role l o
  end.

(** the clock is read; the sources are listed again after five minutes *)
Definition refresh (s : caches W) : caches W * option error :=
  let t := now (reads s) in
  let s := {| bucketCache := bucketCache s; s3ClientCache := s3ClientCache s; cacheUpdateTime := cacheUpdateTime s;
              sources := sources s; reads := S (reads s); outer := outer s |} in
  if Before (cacheUpdateTime s + sourceCacheDuration) t then
    match ListIntegrations (pred (reads s)) (outer s) with
    | (w, Err e) => (with_outer s w, Some e)
    | (w, Ok output) =>
        ({| bucketCache := bucketCache s; s3ClientCache := s3ClientCache s; cacheUpdateTime := t; sources := output;
            reads := reads s; outer := w |}, None)
    end
  else (s, None).

Definition getRoleArn (s : caches W) (o : S3ObjectInfo) : outcome (caches W * result (option string)) :=
  match refresh s with
  | (s, Some e) => Ret (s, Err e)
  | (s, None) => role ← find_role (sources s) o; Ret (s, Ok role)
  end.

Definition getNewS3Client (region : option string) (role : string) : s3Client := {| scRole := role; scRegion := region |}.

Definition getBucketRegion (w : W) (bucket role : string) : W * result string :=
  match GetBucketLocation w (getNewS3Client None role) bucket with
  | (w, Err e) => (w, Err (ErrWrap ("failed to find bucket region for " +:+ bucket) e))
  | (w, Ok location) => (w, Ok (default UsEast1RegionID location))
  end.

(** the region of a bucket, from the cache or from S3 *)
Definition bucket_region (s : caches W) (bucket role : string) : caches W * result string :=
  match bucketCache s !! bucket with
  | Some region => (s, Ok region)
  | None =>
      match getBucketRegion (outer s) bucket role with
      | (w, Err e) => (with_outer s w, Err e)
      | (w, Ok region) =>
          ({| bucketCache := evict_buckets (<[bucket := region]> (bucketCache s)); s3ClientCache := s3ClientCache s;
              cacheUpdateTime := cacheUpdateTime s; sources := sources s; reads := reads s; outer := w |}, Ok region)
      end
  end.

(** the client of a role in a region, from the cache or a new one *)
Definition cached_client (s : caches W) (role region : string) : caches W * s3Client :=
  let key := {| roleArn := role; awsRegion := region |} in
  match s3ClientCache s !! key with
  | Some client => (s, client)
  | None =>
      let client := getNewS3Client (Some region) role in
      ({| bucketCache := bucketCache s; s3ClientCache := evict_clients (<[key := client]> (s3ClientCache s));
          cacheUpdateTime := cacheUpdateTime s; sources := sources s; reads := reads s; outer := outer s |}, client)
  end.

(** stscreds.NewCredentials never gives nil *)
Definition getS3Client (s : caches W) (o : S3ObjectInfo) : outcome (caches W * result s3Client) :=
  r ← getRoleArn s o;
  let '(s, role) := r in
  match role with
  | Err e => Ret (s, Err (ErrWrap "failed to fetch the appropriate role arn to retrieve S3 object" e))
  | Ok None => Ret (s, Err (ErrMsg "there is no source configured for S3 object"))
  | Ok (Some role) =>
      match bucket_region s (S3Bucket o) role with
      | (s, Err e) => Ret (s, Err e)
      | (s, Ok region) => let '(s, client) := cached_client s role region in Ret (s, Ok client)
      end
  end.

(** ** Reading (s3.go) *)

(** io.EOF or bufio.ErrBufferFull, or another error *)
Inductive peekError := PeekEnd | PeekFailed (e : error).

Context {Body R : Type}.
Context (GetObject : W → s3Client → string → string → W * result Body).
(** the first 512 bytes; the reader that starts with them again; the gzip reader *)
Context (Peek : Body → string * option peekError) (buffered : Body → R) (gzip_NewReader : Body → result R).
Context (DetectContentType : string → string).

Definition object_url (o : S3ObjectInfo) : string := "s3://" +:+ S3Bucket o +:+ "/" +:+ S3ObjectKey o.

(** the reader for the type of the content: nil for other types than plain text and gzip *)
Definition stream_of (o : S3ObjectInfo) (body : Body) : result (DataStream R) :=
  match Peek body with
  | (_, Some (PeekFailed e)) => Err (ErrWrap ("failed to Peek() in S3 payload for " +:+ object_url o) e)
  | (headerBytes, _) =>
      let contentType := DetectContentType headerBytes in
      let stream r := {| Reader := r; hintBucket := S3Bucket o; hintKey := S3ObjectKey o; hintContentType := contentType |} in
      if has_prefix "text/plain" contentType then Ok (stream (Some (buffered body)))
      else if has_prefix "application/x-gzip" contentType then
        match gzip_NewReader body with
        | Err e => Err (ErrWrap ("failed to created gzip reader for " +:+ object_url o) e)
        | Ok r => Ok (stream (Some r))
        end
      else Ok (stream None)
  end.

Definition readS3Object (s : caches W) (o : S3ObjectInfo) : outcome (caches W * result (DataStream R)) :=
  r ← getS3Client s o;
  let '(s, client) := r in
  match client with
  | Err e => Ret (s, Err (ErrWrap ("failed to get S3 client for " +:+ object_url o) e))
  | Ok client =>
      match GetObject (outer s) client (S3Bucket o) (S3ObjectKey o) with
      | (w, Err e) => Ret (with_outer s w, Err (ErrWrap ("GetObject() failed for " +:+ object_url o) e))
      | (w, Ok body) => Ret (with_outer s w, stream_of o body)
      end
  end.

Context (UnmarshalSns : string → result SnsNotification).
(** the region of an ARN, and the call of SNS in it *)
Context (ParseRegion : string → result string) (Confirm : W → string → option string → string → W * option error).
Context (UnmarshalCloudTrail : string → result cloudTrailNotification)
        (UnmarshalS3Event : string → result (list S3ObjectInfo)) (UnmarshalTestEvent : string → result string).

Definition ConfirmSubscription (w : W) (n : SnsNotification) : W * option error :=
  match ParseRegion (snsTopicArn n) with
  | Err e => (w, Some (ErrWrap ("failed to parse topic arn: " +:+ snsTopicArn n) e))
  | Ok region =>
      match Confirm w region (snsToken n) (snsTopicArn n) with
      | (w, Some e) => (w, Some (ErrWrap ("failed to confirm subscription for: " +:+ snsTopicArn n) e))
      | (w, None) => (w, None)
      end
  end.

(** the streams read before an error are not used by the caller *)
Fixpoint read_objects (s : caches W) (objects : list S3ObjectInfo) : outcome (caches W * result (list (DataStream R))) :=
  match objects with
  | [] => Ret (s, Ok [])
  | o :: objects =>
      r ← readS3Object s o;
      match r with
      | (s, Err e) => Ret (s, Err e)
      | (s, Ok dataStream) =>
          r ← read_objects s objects;
          Ret (r.1, streams ← r.2; Ok (dataStream :: streams))
      end
  end.

Definition handleNotificationMessage (s : caches W) (n : SnsNotification) : outcome (caches W * result (list (DataStream R))) :=
  objects ← ParseNotification UnmarshalCloudTrail UnmarshalS3Event UnmarshalTestEvent (snsMessage n);
  match objects with
  | Err e => Ret (s, Err e)
  | Ok objects => read_objects s objects
  end.

Fixpoint ReadSnsMessages (s : caches W) (messages : list string) : outcome (caches W * result (list (DataStream R))) :=
  match messages with
  | [] => Ret (s, Ok [])
  | message :: messages =>
      match UnmarshalSns message with
      | Err e => Ret (s, Err e)
      | Ok n =>
          if decide (snsType n = "Notification") then
            r ← handleNotificationMessage s n;
            match r with
            | (s, Err e) => Ret (s, Err e)
            | (s, Ok streams) =>
                r ← ReadSnsMessages s messages;
                Ret (r.1, rest ← r.2; Ok (streams ++ rest))
            end
          else if decide (snsType n = "SubscriptionConfirmation") then
            match ConfirmSubscription (outer s) n with
            | (w, Some e) => Ret (with_outer s w, Err e)
            | (w, None) => ReadSnsMessages (with_outer s w) messages
            end
          else Ret (s, Err (ErrMsg "received unexpected message in SQS queue"))
      end
  end.

(** ** What it promises *)

(** the answers of the source API and of S3 *)
Definition listed_at (i : nat) (l : list SourceIntegration) : Prop := ∃ w w', ListIntegrations i w = (w', Ok l).
Definition located (bucket region : string) : Prop :=
  ∃ w w' c location, GetBucketLocation w c bucket = (w', Ok location) ∧ region = default UsEast1RegionID location.

Record caches_ok (s : caches W) : Prop := {
  ok_sources : (∃ i, i < reads s ∧ cacheUpdateTime s = now i ∧ listed_at i (sources s))%nat ∨ cacheUpdateTime s = Unix 0;
  ok_buckets bucket region : bucketCache s !! bucket = Some region → located bucket region;
  ok_clients key c : s3ClientCache s !! key = Some c → c = getNewS3Client (Some (awsRegion key)) (roleArn key)
}.

(** the object lies in the bucket of the source and under its prefix, if any *)
Definition owns (o : S3ObjectInfo) (x : SourceIntegration) : Prop :=
  ∃ m, siMetadata x = Some m ∧ default "" (smS3Bucket m) = S3Bucket o ∧
    ∀ p, smS3Prefix m = Some p → ∃ rest, S3ObjectKey o = p +:+ rest.

(** the role of the first source that owns the object *)
Definition role_of (l : list SourceIntegration) (o : S3ObjectInfo) (role : string) : Prop :=
  ∃ l1 x l2 m, l = l1 ++ x :: l2 ∧ Forall (λ y, ¬ owns o y) l1 ∧ owns o x ∧
    siMetadata x = Some m ∧ smLogProcessingRole m = Some role.

(** [c] has the role of the object's source, among the sources [l] that the
    source API listed at a reading of the clock at most five minutes before
    the reading [j], and the region of the bucket *)
Definition right_client (j : nat) (l : list SourceIntegration) (o : S3ObjectInfo) (c : s3Client) : Prop :=
  ∃ i role region, (i ≤ j)%nat ∧ now j ≤ now i + sourceCacheDuration ∧ listed_at i l ∧ role_of l o role ∧
    located (S3Bucket o) region ∧ c = {| scRole := role; scRegion := Some region |}.

(** the clock is past the start of 1970; caches only forget *)
Context (Hclock : ∀ i, Unix 0 + sourceCacheDuration < now i).
Context (Hevict_buckets : ∀ m, evict_buckets m ⊆ m) (Hevict_clients : ∀ m, evict_clients m ⊆ m).
(** the source API sends the metadata of every source *)
Context (Hmeta : ∀ i l, listed_at i l → Forall (λ x, is_Some (siMetadata x)) l).

Lemma has_prefix_iff p k : has_prefix p k = true ↔ ∃ rest, k = p +:+ rest.
Proof.
  split.
  - revert k. induction p as [|a p IH]; intros k; [by exists k|]. destruct k as [|b k]; [done|].
    simpl. case_decide; [|done]. subst. intros [r ->]%IH. by exists r.
  - intros [rest ->]. induction p as [|a p IH]; [done|]. rewrite string_app_cons. simpl. by rewrite decide_True.
Qed.

Lemma role_of_cons x l o role : ¬ owns o x → role_of l o role → role_of (x :: l) o role.
Proof.
  intros Hx (l1&y&l2&m&->&Hl&Hy). exists (x :: l1), y, l2, m. split; [done|]. split; [by constructor|done].
Qed.

Lemma find_role_spec l o role : find_role l o = Ret (Some role) → role_of l o role.
Proof.
  induction l as [|x l IH]; cbn; [done|]. destruct (siMetadata x) as [m|] eqn:Hm; [|done]. cbn.
  case_decide as Hb; last first.
  { intros H. apply role_of_cons; [|auto]. intros (m'&?&?&_). congruence. }
  destruct (smS3Prefix m) as [p|] eqn:Hp; [destruct (has_prefix p (S3ObjectKey o)) eqn:Hpre|]; last first.
  - intros [= Hr]. exists [], x, l, m. split_and!; [done|done| |done|done]. exists m. split_and!; [done|done|].
    intros p Hp'. congruence.
  - intros H. apply role_of_cons; [|auto]. intros (m'&Hm'&_&Hall). rewrite Hm in Hm'. injection Hm' as <-.
    apply Hall in Hp. apply has_prefix_iff in Hp. congruence.
  - intros [= Hr]. exists [], x, l, m. split_and!; [done|done| |done|done]. exists m. split_and!; [done|done|].
    intros p' Hp'. rewrite Hp in Hp'. injection Hp' as <-. by apply has_prefix_iff.
Qed.

Lemma find_role_total l o : Forall (λ x, is_Some (siMetadata x)) l → ∃ r, find_role l o = Ret r.
Proof.
  induction 1 as [|x l [m Hm] _ IH]; cbn; [by eexists|]. rewrite Hm. cbn. destruct IH as [r IH].
  case_decide; [|by exists r]. destruct (smS3Prefix m) as [p|]; [|by eexists]. destruct (has_prefix p _); [by eexists|by exists r].
Qed.

Lemma refresh_spec s : caches_ok s → ∃ s' r, refresh s = (s', r) ∧ caches_ok s' ∧
  reads s' = S (reads s) ∧
  (r = None → ∃ i, (i ≤ reads s)%nat ∧ now (reads s) ≤ now i + sourceCacheDuration ∧ listed_at i (sources s')).
Proof using Hclock.
  intros [Hs Hb Hc]. unfold refresh. destruct (Before _ _) eqn:Eb; cbn in Eb; unfold Before in Eb.
  - cbn [reads outer pred]. destruct (ListIntegrations (reads s) (outer s)) as [w [l|e]] eqn:El; eexists _, _; (split; [done|]).
    + assert (listed_at (reads s) l) as Hl by (by exists (outer s), w).
      split; [split; cbn; [left; exists (reads s); split_and!; [lia|done|done]|done|done]|].
      split; [done|]. intros _. exists (reads s). split_and!; [done|unfold sourceCacheDuration, Second; lia|done].
    + split; [|by split]. split; cbn; [|done|done]. destruct Hs as [(i&?&?&?)|?]; [left; exists i; split_and!; [lia|done|done]|by right].
  - eexists _, _. split; [done|]. cbn in *. destruct Hs as [(i&Hi&Ht&Hl)|Ht]; last first.
    { specialize (Hclock (reads s)). lia. }
    split; [split; cbn; [left; exists i; split_and!; [lia|done|done]|done|done]|].
    split; [done|]. intros _. exists i. split_and!; [lia| |done]. rewrite <-Ht. lia.
Qed.

Lemma with_outer_ok s w : caches_ok s → caches_ok (with_outer s w).
Proof. intros [? ? ?]. by split. Qed.

Lemma bucket_region_spec s bucket role : caches_ok s →
  ∃ s' r, bucket_region s bucket role = (s', r) ∧ caches_ok s' ∧ reads s' = reads s ∧
    match r with Ok region => located bucket region | Err _ => True end.
Proof using Hevict_buckets.
  intros Hok. unfold bucket_region. destruct (bucketCache s !! bucket) as [region|] eqn:Eb.
  { eexists _, _. split; [done|]. split; [done|]. split; [done|]. by eapply ok_buckets. }
  unfold getBucketRegion. destruct (GetBucketLocation _ _ _) as [w [location|e]] eqn:Eg.
  - assert (located bucket (default UsEast1RegionID location)) as Hl by (by eexists _, _, _, _).
    eexists _, _. split; [done|]. split; [|by split]. destruct Hok as [Hs Hb Hc]. split; cbn; [done| |done].
    intros b r Hr. pose proof (lookup_weaken _ _ _ _ Hr (Hevict_buckets _)) as [[<- <-]|[_ ?]]%lookup_insert_Some; [done|by apply Hb].
  - eexists _, _. split; [done|]. split; [by apply with_outer_ok|by split].
Qed.

Lemma cached_client_spec s role region : caches_ok s →
  caches_ok (cached_client s role region).1 ∧ reads (cached_client s role region).1 = reads s ∧ (cached_client s role region).2 = getNewS3Client (Some region) role.
Proof using Hevict_clients.
  intros Hok. unfold cached_client. destruct (s3ClientCache s !! _) as [c|] eqn:Ec; cbn.
  { split; [done|]. split; [done|]. by apply (ok_clients _ Hok) in Ec. }
  split; [|by split]. destruct Hok as [Hs Hb Hc]. split; cbn; [done|done|].
  intros key c Hr. pose proof (lookup_weaken _ _ _ _ Hr (Hevict_clients _)) as [[<- <-]|[_ ?]]%lookup_insert_Some; [done|by apply Hc].
Qed.

(** what getS3Client, and then each reader, leaves: caches that are right, and
    the clock read once per object *)
Lemma getS3Client_spec s o : caches_ok s →
  ∃ s' r, getS3Client s o = Ret (s', r) ∧ caches_ok s' ∧ reads s' = S (reads s) ∧
    match r with Ok c => ∃ l, right_client (reads s) l o c | Err _ => True end.
Proof using Hclock Hevict_buckets Hevict_clients Hmeta.
  intros Hok. unfold getS3Client, getRoleArn. destruct (refresh_spec s Hok) as (s1&[e|]&->&Hok1&Hn1&Hl).
  { cbn. by eexists _, _. }
  destruct (Hl eq_refl) as (i&Hi&Ht&Hli). destruct (find_role_total (sources s1) o (Hmeta _ _ Hli)) as [role Hr].
  rewrite Hr. cbn. destruct role as [role|]; [|by eexists _, _].
  destruct (bucket_region_spec s1 (S3Bucket o) role Hok1) as (s2&[region|e]&->&Hok2&Hn2&Hreg);
    [|by eexists _, _; split; [done|]; split; [done|]; split; [congruence|]].
  destruct (cached_client_spec s2 role region Hok2) as (Hok3&Hn3&Hc).
  destruct (cached_client s2 role region) as [s3 c]. cbn in *. eexists _, _. split; [done|]. split; [done|].
  split; [congruence|]. exists (sources s1), i, role, region. split_and!; try done. by apply find_role_spec.
Qed.

(** the stream of an object for its content: plain text as it is, gzip
    unpacked, and no reader for another content type *)
Inductive content_reader (contentType : string) (body : Body) : option R → Prop :=
| content_plain rest : contentType = "text/plain" +:+ rest → content_reader contentType body (Some (buffered body))
| content_gzip rest r : contentType = "application/x-gzip" +:+ rest → gzip_NewReader body = Ok r →
    content_reader contentType body (Some r)
| content_other : (∀ rest, contentType ≠ "text/plain" +:+ rest) → (∀ rest, contentType ≠ "application/x-gzip" +:+ rest) →
    content_reader contentType body None.

Definition stream_for (o : S3ObjectInfo) (body : Body) (d : DataStream R) : Prop :=
  hintBucket d = S3Bucket o ∧ hintKey d = S3ObjectKey o ∧ hintContentType d = DetectContentType (Peek body).1 ∧
  content_reader (hintContentType d) body (Reader d).

Lemma stream_of_spec o body d : stream_of o body = Ok d → stream_for o body d.
Proof.
  assert (∀ p k, has_prefix p k = false → ∀ rest, k ≠ p +:+ rest) as Hno.
  { intros p k Hf rest ->. assert (has_prefix p (p +:+ rest) = true) by (apply has_prefix_iff; eauto). congruence. }
  unfold stream_of, stream_for. intros Hd.
  destruct (Peek body) as [h e]. destruct e as [[|e]|]; [|done|];
    (destruct (has_prefix "text/plain" (DetectContentType h)) eqn:Ht;
      [apply has_prefix_iff in Ht as [rest Ht]
      |destruct (has_prefix "application/x-gzip" (DetectContentType h)) eqn:Hg;
        [apply has_prefix_iff in Hg as [rest Hg]; destruct (gzip_NewReader body) eqn:Hz; [|done]|]]);
    injection Hd as <-; (split; [done|]); (split; [done|]); (split; [done|]); cbn [Reader hintContentType];
    first [exact (content_plain _ _ rest Ht)|exact (content_gzip _ _ rest _ Hg Hz)|apply content_other; by apply Hno].
Qed.

(** the stream is what S3 gives for the object to the right client, at the
    reading [j] of the clock *)
Definition read_from (j : nat) (o : S3ObjectInfo) (d : DataStream R) : Prop :=
  ∃ l c w w' body, right_client j l o c ∧ GetObject w c (S3Bucket o) (S3ObjectKey o) = (w', Ok body) ∧ stream_for o body d.

Lemma readS3Object_spec s o : caches_ok s →
  ∃ s' r, readS3Object s o = Ret (s', r) ∧ caches_ok s' ∧ reads s' = S (reads s) ∧
    match r with Ok d => read_from (reads s) o d | Err _ => True end.
Proof using Hclock Hevict_buckets Hevict_clients Hmeta.
  intros Hok. unfold readS3Object. destruct (getS3Client_spec s o Hok) as (s1&[c|e]&->&Hok1&Hn&Hc); cbn; [|by eexists _, _].
  destruct (GetObject (outer s1) c _ _) as [w [body|e]] eqn:Eg;
    (eexists _, _; split; [done|]; split; [by apply with_outer_ok|]; split; [done|]); [|done].
  destruct (stream_of o body) eqn:Es; [|done]. destruct Hc as [l Hc]. exists l, c, (outer s1), w, body.
  split_and!; [done|done|by apply stream_of_spec].
Qed.

(** the objects are read one after another from the reading [j] of the clock on *)
Definition read_in_turn (j : nat) (objects : list S3ObjectInfo) (ds : list (DataStream R)) : Prop :=
  Forall3 read_from (seq j (length objects)) objects ds.

Lemma read_objects_spec objects s : caches_ok s →
  ∃ s' r, read_objects s objects = Ret (s', r) ∧ caches_ok s' ∧
    match r with
    | Ok ds => reads s' = (reads s + length objects)%nat ∧ read_in_turn (reads s) objects ds
    | Err _ => True
    end.
Proof using Hclock Hevict_buckets Hevict_clients Hmeta.
  revert s. induction objects as [|o objects IH]; intros s Hok; cbn.
  { eexists _, _. split; [done|]. split; [done|]. split; [lia|constructor]. }
  destruct (readS3Object_spec s o Hok) as (s1&[d|e]&->&Hok1&Hn&Hd); cbn; [|by eexists _, _].
  destruct (IH s1 Hok1) as (s2&[ds|e]&->&Hok2&Hds); cbn; eexists _, _; (split; [done|]); [|done]. split; [done|].
  destruct Hds as [Hn2 Hds]. split; [lia|]. rewrite Hn in Hds. by constructor.
Qed.

(** the objects that a notification names: those of a CloudTrail notification,
    or else the records of an S3 event; a test message names none *)
Inductive names (message : string) : list S3ObjectInfo → Prop :=
| names_trail n bucket keys : UnmarshalCloudTrail message = Ok n → ctS3Bucket n = Some bucket →
    ctS3ObjectKey n = Some <$> keys → keys ≠ [] →
    names message ((λ k, {| S3Bucket := bucket; S3ObjectKey := k |}) <$> keys)
| names_event objects : (∀ n, UnmarshalCloudTrail message = Ok n → ctS3ObjectKey n = []) →
    UnmarshalS3Event message = Ok objects → objects ≠ [] → names message objects
| names_test : (∀ n, UnmarshalCloudTrail message = Ok n → ctS3ObjectKey n = []) →
    (∀ objects, UnmarshalS3Event message = Ok objects → objects = []) →
    UnmarshalTestEvent message = Ok s3TestEvent ∨ message = cloudTrailValidationMessage → names message [].

(** a CloudTrail notification with keys has a bucket, and no key is null *)
Definition no_nil (message : string) : Prop :=
  ∀ n, UnmarshalCloudTrail message = Ok n → ctS3ObjectKey n ≠ [] →
    is_Some (ctS3Bucket n) ∧ Forall is_Some (ctS3ObjectKey n).

Lemma cloudtrail_objects_spec bucket keys :
  cloudtrail_objects (Some bucket) (Some <$> keys) = Ret ((λ k, {| S3Bucket := bucket; S3ObjectKey := k |}) <$> keys).
Proof. induction keys as [|k keys IH]; [done|]. cbn. by rewrite IH. Qed.

Lemma ParseNotification_spec message : no_nil message →
  ∃ r, ParseNotification UnmarshalCloudTrail UnmarshalS3Event UnmarshalTestEvent message = Ret r ∧
    match r with Ok objects => names message objects | Err _ => True end.
Proof.
  intros Hnil. unfold ParseNotification, parseCloudTrailNotification, parseS3Event, isTestS3Event, isCloudTrailValidationMessage.
  assert ((∀ n, UnmarshalCloudTrail message = Ok n → ctS3ObjectKey n = []) →
    match (match UnmarshalS3Event message with Err _ => [] | Ok l => l end) with
    | o :: l => names message (o :: l)
    | [] => match UnmarshalTestEvent message with Err _ => false | Ok event => bool_decide (event = s3TestEvent) end
            || bool_decide (message = cloudTrailValidationMessage) = true → names message []
    end) as Hrest.
  { intros Hno. destruct (UnmarshalS3Event message) as [[|o l]|e] eqn:He; [|by apply (names_event message (o :: l) Hno He)|];
      rewrite orb_true_iff, bool_decide_eq_true; intros Ht; (apply names_test; [done|intros objects Ho; rewrite He in Ho; congruence|]);
      (destruct Ht as [Ht|]; [|by right]); left; (destruct (UnmarshalTestEvent message); [|done]);
      f_equal; by apply bool_decide_eq_true_1 in Ht. }
  destruct (UnmarshalCloudTrail message) as [n|e] eqn:Hn; [destruct (ctS3ObjectKey n) as [|k keys] eqn:Hk|]; cbn [mbind outcome_bind].
  - cbn. eexists. split; [done|]. specialize (Hrest ltac:(intros ? [= <-]; done)).
    destruct (match UnmarshalS3Event message with Err _ => [] | Ok l => l end); [|done].
    destruct (_ || _); [by apply Hrest|done].
  - destruct (Hnil n Hn ltac:(by rewrite Hk)) as [[b Hb] Hall].
    assert (∃ ks, ctS3ObjectKey n = Some <$> ks) as [ks Hks].
    { clear -Hall. induction Hall as [|x l [k ->] _ [ks ->]]; [by exists []|]. by exists (k :: ks). }
    rewrite Hb, <- Hk, Hks, cloudtrail_objects_spec. cbn. eexists. split; [done|].
    destruct ks as [|k' ks]; [by rewrite Hk in Hks|]. cbn. by apply (names_trail message n b (k' :: ks)).
  - cbn. eexists. split; [done|]. specialize (Hrest ltac:(intros ? [=])).
    destruct (match UnmarshalS3Event message with Err _ => [] | Ok l => l end); [|done].
    destruct (_ || _); [by apply Hrest|done].
Qed.

(** the objects that a message announces *)
Definition announces (message : string) (objects : list S3ObjectInfo) : Prop :=
  ∃ n, UnmarshalSns message = Ok n ∧
    ((snsType n = "Notification" ∧ names (snsMessage n) objects) ∨
     (snsType n = "SubscriptionConfirmation" ∧ objects = [])).

Definition read_messages_spec (s : caches W) (messages : list string) : Prop :=
  ∃ s' r, ReadSnsMessages s messages = Ret (s', r) ∧ caches_ok s' ∧
    match r with
    | Ok ds => ∃ objects, Forall2 announces messages objects ∧ read_in_turn (reads s) (concat objects) ds
    | Err _ => True
    end.

Lemma read_in_turn_app j o1 d1 o2 d2 :
  read_in_turn j o1 d1 → read_in_turn (j + length o1) o2 d2 → read_in_turn j (o1 ++ o2) (d1 ++ d2).
Proof.
  unfold read_in_turn. intros H1 H2. rewrite length_app, seq_app. by apply Forall3_app.
Qed.

Lemma read_messages_ok s messages :
  caches_ok s → (∀ message n, message ∈ messages → UnmarshalSns message = Ok n → no_nil (snsMessage n)) →
  read_messages_spec s messages.
Proof using Hclock Hevict_buckets Hevict_clients Hmeta.
  revert s. induction messages as [|m messages IH]; intros s Hok Hp.
  { eexists _, _. split; [done|]. split; [done|]. exists []. by repeat constructor. }
  assert (∀ s, caches_ok s → read_messages_spec s messages)
    as Hrest by (intros s0 Hs0; apply IH; [done|]; intros ?? Hin; apply Hp; by right).
  unfold read_messages_spec in *.
  clear IH. cbn [ReadSnsMessages]. destruct (UnmarshalSns m) as [n|e] eqn:En; [|by eexists _, _].
  case_decide as Hn; [|case_decide as Hsub; [|by eexists _, _]].
  - destruct (ParseNotification_spec (snsMessage n) (Hp m n (list_elem_of_here _ _) En)) as ([objects|e]&Hpn&Hnames);
      unfold handleNotificationMessage; rewrite Hpn; cbn; [|by eexists _, _].
    destruct (read_objects_spec objects s Hok) as (s1&[ds|e]&->&Hok1&Hds); cbn; [|by eexists _, _].
    destruct Hds as [Hn1 Hds].
    destruct (Hrest s1 Hok1) as (s2&[rest|e]&->&Hok2&Hr); cbn; eexists _, _; (split; [done|]); [|done].
    split; [done|]. destruct Hr as (objs&Ha&Hrd). exists (objects :: objs). split; [constructor; [|done]|].
    + exists n. by split; [|left].
    + cbn. apply read_in_turn_app; [done|]. by rewrite <- Hn1.
  - destruct (ConfirmSubscription (outer s) n) as [w [e|]]; [by eexists _, _; split; [done|]; split; [apply with_outer_ok|]|].
    destruct (Hrest (with_outer s w) (with_outer_ok s w Hok)) as (s2&[rest|e]&->&Hok2&Hr); eexists _, _; (split; [done|]); [|done].
    split; [done|]. destruct Hr as (objs&Ha&Hrd). exists ([] :: objs). split; [constructor; [|done]|done].
    exists n. by split; [|right].
Qed.

(** C17: the log processor reads exactly the announced objects, each with the
    right credentials.  When no CloudTrail notification with keys lacks its
    bucket or a key, ReadSnsMessages does not panic and its caches stay correct;
    and when it returns streams, they are those of the objects that the messages
    announce, in order and each once.  The clock is read once for each object;
    the object was read with the role of the first source whose bucket and
    prefix it has, among the sources that the source API listed at most five
    minutes before that reading, by a client for the region of its bucket, and
    its stream has the reader of its content. *)
Theorem read_messages_correct s messages :
  caches_ok s → (∀ message n, message ∈ messages → UnmarshalSns message = Ok n → no_nil (snsMessage n)) →
  ∃ s' r, ReadSnsMessages s messages = Ret (s', r) ∧ caches_ok s' ∧
    match r with
    | Ok ds => ∃ objects, Forall2 announces messages objects ∧ read_in_turn (reads s) (concat objects) ds
    | Err _ => True
    end.
Proof using Hclock Hevict_buckets Hevict_clients Hmeta. apply read_messages_ok. Qed.

(** other content than plain text and gzip: the stream has no reader *)
Theorem other_content_no_reader o body :
  (Peek body).2 = None → has_prefix "text/plain" (DetectContentType (Peek body).1) = false →
  has_prefix "application/x-gzip" (DetectContentType (Peek body).1) = false →
  ∃ d, stream_of o body = Ok d ∧ Reader d = None.
Proof. unfold stream_of. destruct (Peek body) as [h [|]]; cbn; [done|]. intros _ -> ->. by eexists. Qed.
End Clients.

(** a process starts with empty caches *)
Definition start {W} (w : W) : caches W :=
  {| bucketCache := ∅; s3ClientCache := ∅; cacheUpdateTime := Unix 0; sources := []; reads := 0; outer := w |}.

Lemma start_ok {W} now ListIntegrations GetBucketLocation (w : W) : caches_ok now ListIntegrations GetBucketLocation (start w).
Proof. split; cbn; [by right| |]; intros ??; by rewrite lookup_empty. Qed.

(** a notification with keys and without a bucket ends the process *)
Theorem cloudtrail_without_bucket_panics UnmarshalCloudTrail UnmarshalS3Event UnmarshalTestEvent message n :
  UnmarshalCloudTrail message = Ok n → ctS3Bucket n = None → ctS3ObjectKey n ≠ [] →
  ∃ why, ParseNotification UnmarshalCloudTrail UnmarshalS3Event UnmarshalTestEvent message = Panic why.
Proof.
  intros Hn Hb Hk. unfold ParseNotification, parseCloudTrailNotification. rewrite Hn, Hb.
  destruct (ctS3ObjectKey n) as [|k l]; [done|]. by eexists.
Qed.

(** ** A concrete run *)

Definition demo_source (prefix role : string) : SourceIntegration :=
  {| siMetadata := Some {| smAWSAccountID := None; smCreatedAtTime := None; smCreatedBy := None; smIntegrationID := None;
       smIntegrationLabel := None; smIntegrationType := None; smRemediationEnabled := None; smCWEEnabled := None;
       smScanIntervalMins := None; smS3Bucket := Some "b"; smS3Prefix := Some prefix; smKmsKey := None; smLogTypes := None;
       smLogProcessingRole := Some role; smStackName := None |}; siStatus := None; siScan := None |}.
(** two sources of one bucket *)
Definition demo_sources : list SourceIntegration := [demo_source "audit/" "auditor"; demo_source "logs/" "role"].
Definition demo_object : S3ObjectInfo := {| S3Bucket := "b"; S3ObjectKey := "logs/x" |}.
Definition demo_notification : SnsNotification :=
  {| snsType := "Notification"; snsMessage := "m"; snsTopicArn := ""; snsToken := None |}.
Definition demo_stream : DataStream string :=
  {| Reader := Some "line"; hintBucket := "b"; hintKey := "logs/x"; hintContentType := "text/plain; charset=utf-8" |}.
Definition demo_run (s : caches unit) : outcome (caches unit * result (list (DataStream string))) :=
  ReadSnsMessages (λ _, Date 2020 2 10 7) (λ _ w, (w, Ok demo_sources)) (λ w _ _, (w, Ok None)) id id
    (λ w c _ _, (w, if decide (scRole c = "role") then Ok "line" else Err (ErrMsg "denied"))) (λ b, (b, Some PeekEnd)) id
    (λ b, Ok b) (λ _, "text/plain; charset=utf-8") (λ _, Ok demo_notification) (λ _, Err (ErrMsg "arn")) (λ w _ _ _, (w, None))
    (λ _, Err (ErrMsg "json")) (λ _, Ok [demo_object]) (λ _, Err (ErrMsg "json")) s ["sns"].

Lemma demo_metadata i l : listed_at (W := unit) (λ _ w, (w, Ok demo_sources)) i l → Forall (λ x, is_Some (siMetadata x)) l.
Proof. intros (w&w'&H). simplify_eq. by repeat constructor. Qed.

Lemma read_messages_correct_witness :
  ∃ s' objects, demo_run (start tt) = Ret (s', Ok [demo_stream]) ∧
    caches_ok (λ _, Date 2020 2 10 7) (λ _ w, (w, Ok demo_sources)) (λ w _ _, (w, Ok None)) s' ∧
    read_in_turn (W := unit) (λ _, Date 2020 2 10 7) (λ _ w, (w, Ok demo_sources)) (λ w _ _, (w, Ok None))
      (λ w c _ _, (w, if decide (scRole c = "role") then Ok "line" else Err (ErrMsg "denied"))) (λ b, (b, Some PeekEnd)) id
      (λ b, Ok b) (λ _, "text/plain; charset=utf-8") 0 (concat objects) [demo_stream].
Proof.
  destruct (read_messages_correct (λ _, Date 2020 2 10 7) (λ _ w, (w, Ok demo_sources)) (λ (w : unit) _ _, (w, Ok None)) id id
    (λ w c _ _, (w, if decide (scRole c = "role") then Ok "line" else Err (ErrMsg "denied"))) (λ b, (b, Some PeekEnd)) id
    (λ b, Ok b) (λ _, "text/plain; charset=utf-8") (λ _, Ok demo_notification) (λ _, Err (ErrMsg "arn")) (λ w _ _ _, (w, None))
    (λ _, Err (ErrMsg "json")) (λ _, Ok [demo_object]) (λ _, Err (ErrMsg "json"))
    ltac:(intros i; vm_compute; reflexivity) ltac:(intros m; reflexivity) ltac:(intros m; reflexivity)
    demo_metadata
    (start tt) ["sns"] (start_ok _ _ _ tt)) as (s'&r&Hr&Hok&H).
  - intros m n _ _ n' Hn'. discriminate Hn'.
  - assert (r = Ok [demo_stream]) as -> by (vm_compute in Hr; injection Hr as _ <-; reflexivity).
    destruct H as (objects&_&Hturn). exists s', objects. split; [exact Hr|]. split; [exact Hok|exact Hturn].
Defined.
