(* ===== verification/CsvReader.v ===== *)
(** * Reading CSV lines

    Model of src/internal/log_analysis/log_processor/parsers/csvstream: one
    reader of encoding/csv that is fed the lines of a log one after the other,
    through the buffer of bufio.  The parts of bufio.Reader and csv.Reader that
    are used are modelled as they are in Go 1.14.  The theorems show that what a
    line is parsed to does not depend on the lines before it, and that it is what
    the grammar of CSV says. *)

From S2P Require Import Prelude.

Notation bytes := (list ascii).
Definition quote_byte : ascii := "034"%char.
Definition newline : ascii := "010"%char.
Definition return_byte : ascii := "013"%char.

(** ** Sources and the buffer *)

(** the line that is still to be read; [eager]: io.EOF comes with the last
    bytes (StreamingCSVReader), or after them (strings.Reader) *)
Record source := { logLine : bytes; eager : bool }.

(** Read into a slice of [cap] bytes: what was copied, and whether io.EOF is returned *)
Definition source_Read (s : source) (cap : nat) : bytes * source * bool :=
  let n := cap `min` length (logLine s) in
  if eager s then
    if decide (n < length (logLine s)) then (take n (logLine s), {| logLine := drop n (logLine s); eager := true |}, false)
    else (logLine s, {| logLine := []; eager := true |}, true)
  else if decide (logLine s = []) then ([], s, true)
  else (take n (logLine s), {| logLine := drop n (logLine s); eager := false |}, false).

(** bufio.Reader: the bytes that were not read yet, and whether io.EOF is pending *)
Record bufioReader := { unread : bytes; pendingEOF : bool; rd : source }.

Definition defaultBufSize : nat := 2 ^ 12.

(** the unread bytes slide to the front, so that the rest of the buffer is free *)
Definition fill (b : bufioReader) : bufioReader :=
  let '(copied, s, eof) := source_Read (rd b) (defaultBufSize - length (unread b)) in
  {| unread := unread b ++ copied; pendingEOF := eof; rd := s |}.

Inductive readErr := EOF | ErrBufferFull.

#[export] Instance readErr_eq_dec : EqDecision readErr.
Proof. solve_decision. Defined.

(** the bytes up to the first [c], and those after it *)
Fixpoint cut (c : ascii) (l : bytes) : option (bytes * bytes) :=
  match l with
  | [] => None
  | a :: l =>
      if decide (a = c) then Some ([], l)
      else match cut c l with Some (pre, post) => Some (a :: pre, post) | None => None end
  end.

(** a round of ReadSlice that returns *)
Definition slice_ready (b : bufioReader) : option (bufioReader * bytes * option readErr) :=
  match cut newline (unread b) with
  | Some (pre, post) => Some ({| unread := post; pendingEOF := pendingEOF b; rd := rd b |}, pre ++ [newline], None)
  | None =>
      if pendingEOF b then Some ({| unread := []; pendingEOF := false; rd := rd b |}, unread b, Some EOF)
      else if decide (defaultBufSize ≤ length (unread b)) then
        Some ({| unread := []; pendingEOF := false; rd := rd b |}, unread b, Some ErrBufferFull)
      else None
  end.

(** bufio.Reader.ReadSlice('\n'): [None] when the rounds do not suffice *)
Fixpoint ReadSlice (rounds : nat) (b : bufioReader) : option (bufioReader * bytes * option readErr) :=
  match slice_ready b with
  | Some r => Some r
  | None => match rounds with O => None | S rounds => ReadSlice rounds (fill b) end
  end.

(** ** Records *)

(** the settings of a csv.Reader that are not the default ones *)
Record csvConfig := { Comma : ascii; LazyQuotes : bool }.

Definition lengthNL (l : bytes) : nat := match last l with Some c => if decide (c = newline) then 1 else 0 | None => 0 end.

Definition drop_last (l : bytes) : bytes := take (pred (length l)) l.

(** ReadSlice until the buffer was not full; fuel: one unit per full buffer.
    A trailing \r before the end is dropped, \r\n becomes \n *)
Fixpoint read_long (fuel : nat) (b : bufioReader) (acc : bytes) : option (bufioReader * bytes * bool) :=
  match fuel with
  | O => None
  | S fuel =>
      match ReadSlice 2 b with
      | None => None
      | Some (b, line, Some ErrBufferFull) => read_long fuel b (acc ++ line)
      | Some (b, line, err) => Some (b, acc ++ line, bool_decide (err = Some EOF))
      end
  end.
Definition strip_return (line : bytes) : bytes :=
  if decide (last line = Some return_byte) then drop_last line else line.
Definition normalize (line : bytes) : bytes :=
  if decide (last line = Some newline ∧ last (drop_last line) = Some return_byte)
  then drop_last (drop_last line) ++ [newline] else line.

Definition line_fuel (b : bufioReader) : nat := S (S (length (unread b) + length (logLine (rd b)))).

(** csv.Reader.readLine: the line, and whether the error is io.EOF *)
Definition readLine (b : bufioReader) : option (bufioReader * bytes * bool) :=
  match read_long (line_fuel b) b [] with
  | None => None
  | Some (b, line, eof) =>
      if eof && negb (bool_decide (line = [])) then Some (b, normalize (strip_return line), false)
      else Some (b, normalize line, eof)
  end.

Inductive csvErr := CsvEOF | ErrBareQuote | ErrQuote | ErrInvalidDelim.

(** the fields of a line; [quoted]: the content so far of a quoted field, which
    may go on in the next line.  Without errors of the source other than io.EOF,
    errRead is nil here *)
Fixpoint parse_fields (cfg : csvConfig) (fuel : nat) (b : bufioReader) (line : bytes) (quoted : option bytes)
    (fields : list bytes) : option (bufioReader * list bytes * option csvErr) :=
  match fuel with
  | O => None
  | S fuel =>
      match quoted with
      | None =>
          if decide (head line = Some quote_byte) then parse_fields cfg fuel b (tail line) (Some []) fields
          else
            let field := match cut (Comma cfg) line with Some (f, _) => f | None => take (length line - lengthNL line) line end in
            if negb (LazyQuotes cfg) && bool_decide (quote_byte ∈ field) then Some (b, fields, Some ErrBareQuote)
            else match cut (Comma cfg) line with
                 | Some (_, rest) => parse_fields cfg fuel b rest None (fields ++ [field])
                 | None => Some (b, fields ++ [field], None)
                 end
      | Some cur =>
          match cut quote_byte line with
          | Some (pre, rest) =>
              let cur := cur ++ pre in
              if decide (head rest = Some quote_byte) then parse_fields cfg fuel b (tail rest) (Some (cur ++ [quote_byte])) fields
              else if decide (head rest = Some (Comma cfg)) then parse_fields cfg fuel b (tail rest) None (fields ++ [cur])
              else if decide (lengthNL rest = length rest) then Some (b, fields ++ [cur], None)
              else if LazyQuotes cfg then parse_fields cfg fuel b rest (Some (cur ++ [quote_byte])) fields
              else Some (b, fields, Some ErrQuote)
          | None =>
              if decide (line = []) then
                if LazyQuotes cfg then Some (b, fields ++ [cur], None) else Some (b, fields, Some ErrQuote)
              else match readLine b with
                   | None => None
                   | Some (b, next, _) => parse_fields cfg fuel b next (Some (cur ++ line)) fields
                   end
          end
      end
  end.

(** the first line that is not empty *)
Fixpoint first_line (fuel : nat) (b : bufioReader) : option (bufioReader * bytes * bool) :=
  match fuel with
  | O => None
  | S fuel =>
      match readLine b with
      | None => None
      | Some (b, line, eof) =>
          if negb eof && bool_decide (length line = lengthNL line) then first_line fuel b else Some (b, line, eof)
      end
  end.

Definition validDelim (c : ascii) : bool :=
  negb (bool_decide (c ∈ [zero; quote_byte; return_byte; newline])).

Definition bytes_left (b : bufioReader) : nat := length (unread b) + length (logLine (rd b)).

(** csv.Reader.Read *)
Definition csv_Read (cfg : csvConfig) (b : bufioReader) : option (bufioReader * list bytes * option csvErr) :=
  if validDelim (Comma cfg) then
    match first_line (S (S (bytes_left b))) b with
    | None => None
    | Some (b, _, true) => Some (b, [], Some CsvEOF)
    | Some (b, line, false) => parse_fields cfg (length line + bytes_left b + 3) b line None []
    end
  else Some (b, [], Some ErrInvalidDelim).

(** *** StreamingCSVReader *)

Definition NewStreamingCSVReader : bufioReader :=
  {| unread := []; pendingEOF := false; rd := {| logLine := []; eager := true |} |}.

Definition stream_Parse (cfg : csvConfig) (b : bufioReader) (log : bytes)
    : option (bufioReader * list bytes * option csvErr) :=
  csv_Read cfg {| unread := unread b; pendingEOF := pendingEOF b; rd := {| logLine := log; eager := true |} |}.

(** *** csv.NewReader(strings.NewReader(log)).ReadAll() *)

Fixpoint ReadAll (cfg : csvConfig) (fuel : nat) (b : bufioReader) (records : list (list bytes))
    : option (list (list bytes) * option csvErr) :=
  match fuel with
  | O => None
  | S fuel =>
      match csv_Read cfg b with
      | None => None
      | Some (_, _, Some CsvEOF) => Some (records, None)
      | Some (_, _, Some e) => Some ([], Some e)
      | Some (b, record, None) => ReadAll cfg fuel b (records ++ [record])
      end
  end.
Definition strings_reader (log : bytes) : bufioReader :=
  {| unread := []; pendingEOF := false; rd := {| logLine := log; eager := false |} |}.

(** ** One line at a time *)

Lemma bufsize_pos : 0 < defaultBufSize.
Proof. apply Nat.ltb_lt. by vm_compute. Qed.

#[local] Opaque defaultBufSize.

Definition one_line (l : bytes) : Prop := newline ∉ l.

(** a reader without anything left *)
Definition drained (e : bool) : bufioReader := {| unread := []; pendingEOF := false; rd := {| logLine := []; eager := e |} |}.
Definition holding (e : bool) (log : bytes) : bufioReader :=
  {| unread := []; pendingEOF := false; rd := {| logLine := log; eager := e |} |}.

Lemma cut_none c l : c ∉ l → cut c l = None.
Proof.
  induction l as [|a l IH]; cbn; [done|]. rewrite not_elem_of_cons. intros [Ha Hl]. rewrite decide_False by congruence.
  by rewrite IH.
Qed.

Lemma cut_app c l l' : c ∉ l → cut c (l ++ c :: l') = Some (l, l').
Proof.
  induction l as [|a l IH]; cbn; [by rewrite decide_True|]. rewrite not_elem_of_cons. intros [Ha Hl].
  rewrite decide_False by congruence. by rewrite IH.
Qed.

Lemma cut_some c l pre post : cut c l = Some (pre, post) → l = pre ++ c :: post ∧ c ∉ pre.
Proof.
  revert pre. induction l as [|a l IH]; intros pre; cbn; [done|]. case_decide as Ha.
  - intros [= <- <-]. subst. split; [done|]. apply not_elem_of_nil.
  - destruct (cut c l) as [[p q]|]; [|done]. intros [= <- <-]. destruct (IH p eq_refl) as [-> Hp].
    split; [done|]. apply not_elem_of_cons. split; [congruence|done].
Qed.

Lemma cut_none_inv c l : cut c l = None → c ∉ l.
Proof.
  induction l as [|a l IH]; cbn; [intros _; apply not_elem_of_nil|]. case_decide; [done|].
  destruct (cut c l) as [[]|]; [done|]. intros _. apply not_elem_of_cons. split; [congruence|by apply IH].
Qed.

Lemma one_line_take n l : one_line l → one_line (take n l).
Proof. unfold one_line. intros Hl Hn. apply Hl. rewrite <-(take_drop n l). apply elem_of_app. by left. Qed.
Lemma one_line_drop n l : one_line l → one_line (drop n l).
Proof. unfold one_line. intros Hl Hn. apply Hl. rewrite <-(take_drop n l). apply elem_of_app. by right. Qed.

(** the first bytes of the line are in the buffer *)
Lemma fill_holding e log :
  fill (holding e log) =
    {| unread := take defaultBufSize log; pendingEOF := if e then bool_decide (length log ≤ defaultBufSize) else bool_decide (log = []);
       rd := {| logLine := drop defaultBufSize log; eager := e |} |}.
Proof.
  unfold fill, source_Read, holding. cbn [rd unread length eager logLine]. rewrite Nat.sub_0_r. destruct e.
  - case_decide as Hn.
    + rewrite Nat.min_l by lia. by rewrite bool_decide_false by lia.
    + by rewrite take_ge, drop_ge, bool_decide_true by lia.
  - case_decide as Hn; [subst; rewrite firstn_nil, skipn_nil; by rewrite bool_decide_true|].
    rewrite bool_decide_false by done. cbn [app]. destruct (decide (length log ≤ defaultBufSize)).
    + rewrite Nat.min_r by lia. by rewrite firstn_all, drop_all, take_ge, drop_ge by lia.
    + by rewrite Nat.min_l by lia.
Qed.

Lemma slice_ready_unread l p s : one_line l →
  slice_ready {| unread := l; pendingEOF := p; rd := s |} =
    if p then Some ({| unread := []; pendingEOF := false; rd := s |}, l, Some EOF)
    else if decide (defaultBufSize ≤ length l) then Some ({| unread := []; pendingEOF := false; rd := s |}, l, Some ErrBufferFull)
    else None.
Proof. intros Hl. unfold slice_ready. cbn [unread pendingEOF rd]. by rewrite cut_none. Qed.

(** a full buffer, or the rest of the line with io.EOF *)
Lemma ReadSlice_holding e log : one_line log →
  ReadSlice 2 (holding e log) =
    if decide (defaultBufSize < length log) then
      Some (holding e (drop defaultBufSize log), take defaultBufSize log, Some ErrBufferFull)
    else if decide (e = false ∧ defaultBufSize = length log) then Some (drained e, log, Some ErrBufferFull)
    else Some (drained e, log, Some EOF).
Proof.
  intros Hl. pose proof bufsize_pos as Hpos. cbn [ReadSlice]. rewrite fill_holding.
  unfold holding at 1. rewrite slice_ready_unread by apply not_elem_of_nil. rewrite decide_False by (cbn; lia).
  rewrite slice_ready_unread by (by apply one_line_take). rewrite length_take. destruct (decide (defaultBufSize < length log)) as [Hlt|Hge].
  { assert ((if e then bool_decide (length log ≤ defaultBufSize) else bool_decide (log = [])) = false) as ->
      by (destruct e; apply bool_decide_false; [lia|intros ->; cbn in Hlt; lia]).
    by rewrite decide_True by lia. }
  rewrite take_ge, drop_ge by lia. destruct e.
  { rewrite bool_decide_true by lia. rewrite decide_False by (by intros []). done. }
  destruct log as [|a l]; [rewrite bool_decide_true by done; rewrite decide_False; [done|cbn; lia]|].
  rewrite bool_decide_false by done. destruct (decide (false = false ∧ defaultBufSize = length (a :: l))) as [[_ Heq]|Hne].
  { rewrite decide_True by lia. done. }
  rewrite decide_False by (intros ?; apply Hne; split; [done|lia]).
  unfold fill. cbn [rd unread]. unfold source_Read. cbn [eager logLine]. rewrite decide_True by done.
  rewrite app_nil_r. by rewrite slice_ready_unread.
Qed.

Lemma read_long_holding e log acc fuel : one_line log → S (length log) < fuel →
  read_long fuel (holding e log) acc = Some (drained e, acc ++ log, true).
Proof.
  revert log acc. induction fuel as [|fuel IH]; intros log acc Hl Hf; [lia|]. pose proof bufsize_pos as Hpos.
  cbn [read_long]. rewrite ReadSlice_holding by done. case_decide as Hd; [|case_decide as He].
  - rewrite IH; [|by apply one_line_drop|rewrite length_drop; lia]. by rewrite <-(assoc_L (++)), take_drop.
  - destruct He as [-> He]. change (drained false) with (holding false []).
    rewrite IH; [by rewrite app_nil_r|apply not_elem_of_nil|cbn; lia].
  - done.
Qed.

Lemma normalize_one_line l : one_line l → normalize l = l.
Proof.
  intros Hl. unfold normalize. rewrite decide_False; [done|]. intros [Hlast _]. apply last_Some in Hlast as [l' ->].
  apply Hl, elem_of_app. right. by apply list_elem_of_singleton.
Qed.

Lemma strip_return_one_line l : one_line l → one_line (strip_return l).
Proof. intros Hl. unfold strip_return, drop_last. case_decide; [by apply one_line_take|done]. Qed.

Lemma readLine_holding e log : one_line log →
  readLine (holding e log) = Some (drained e, strip_return log, bool_decide (log = [])).
Proof.
  intros Hl. unfold readLine. rewrite read_long_holding; [|done|unfold line_fuel; cbn; lia]. cbn [app].
  destruct log as [|a l]; [done|]. cbn [andb]. rewrite (bool_decide_false (a :: l = [])) by done. cbn [negb].
  by rewrite normalize_one_line by (by apply strip_return_one_line).
Qed.

Lemma readLine_drained e : readLine (drained e) = Some (drained e, [], true).
Proof. exact (readLine_holding e [] (not_elem_of_nil _)). Qed.

Lemma lengthNL_one_line l : one_line l → lengthNL l = 0.
Proof.
  intros Hl. unfold lengthNL. destruct (last l) as [c|] eqn:E; [|done]. rewrite decide_False; [done|].
  intros ->. apply last_Some in E as [l' ->]. apply Hl, elem_of_app. right. by apply list_elem_of_singleton.
Qed.

Lemma first_line_holding e log fuel : one_line log → 2 ≤ fuel →
  first_line fuel (holding e log) = Some (drained e, strip_return log, bool_decide (strip_return log = [])).
Proof.
  intros Hl Hf. destruct fuel as [|[|fuel]]; [lia..|]. set (f := S fuel). cbn [first_line]. rewrite readLine_holding by done.
  rewrite (lengthNL_one_line (strip_return log)) by (by apply strip_return_one_line).
  destruct log as [|a l]; [done|]. rewrite (bool_decide_false (a :: l = [])) by done. cbn [negb andb].
  destruct (strip_return (a :: l)) as [|c l']; [|done]. cbn [length]. rewrite bool_decide_true by done.
  subst f. cbn [first_line]. by rewrite readLine_drained.
Qed.

(** ** The grammar *)

(** the content of a quoted field: quotes are doubled *)
Definition escape (v : bytes) : bytes := v ≫= λ c, if decide (c = quote_byte) then [quote_byte; quote_byte] else [c].

(** a field as it is written, and what it stands for *)
Inductive field_text (c : ascii) : bytes → bytes → Prop :=
| plain_text f : c ∉ f → quote_byte ∉ f → field_text c f f
| quoted_text v : field_text c (quote_byte :: escape v ++ [quote_byte]) v.

Fixpoint join_bytes (c : ascii) (l : list bytes) : bytes :=
  match l with [] => [] | [t] => t | t :: l => t ++ c :: join_bytes c l end.

Definition csv_text (c : ascii) (line : bytes) (vals : list bytes) : Prop :=
  ∃ texts, texts ≠ [] ∧ Forall2 (field_text c) texts vals ∧ line = join_bytes c texts.

Lemma escape_app v w : escape (v ++ w) = escape v ++ escape w.
Proof. apply bind_app. Qed.

Lemma escape_plain v : quote_byte ∉ v → escape v = v.
Proof.
  induction v as [|a v IH]; [done|]. rewrite not_elem_of_cons. intros [Ha Hv]. unfold escape in *. cbn.
  rewrite decide_False by congruence. cbn. by rewrite IH.
Qed.

Lemma join_cons c t texts : texts ≠ [] → join_bytes c (t :: texts) = t ++ c :: join_bytes c texts.
Proof. by destruct texts. Qed.

Lemma csv_text_cons c t v rest vals :
  field_text c t v → csv_text c rest vals → csv_text c (t ++ c :: rest) (v :: vals).
Proof. intros Ht (texts&Hne&Hf&->). exists (t :: texts). split_and!; [done|by constructor|by rewrite join_cons]. Qed.

Lemma csv_text_one c t v : field_text c t v → csv_text c t [v].
Proof. intros Ht. exists [t]. by split_and!; [|repeat constructor|]. Qed.

Lemma one_line_cut c l pre post : one_line l → cut c l = Some (pre, post) → one_line pre ∧ one_line post.
Proof.
  intros Hl [-> _]%cut_some. unfold one_line in *. apply not_elem_of_app in Hl as [? Hl].
  by apply not_elem_of_cons in Hl as [_ ?].
Qed.

Lemma one_line_tail l : one_line l → one_line (tail l).
Proof. unfold one_line. destruct l; [done|]. by intros [_ ?]%not_elem_of_cons. Qed.

Lemma one_line_uncons a l : one_line (a :: l) → one_line l.
Proof. by intros [_ ?]%not_elem_of_cons. Qed.

Lemma one_line_nil : one_line [].
Proof. apply not_elem_of_nil. Qed.

(** the reader is used up, whatever the line *)
Lemma parse_total cfg e fuel line quoted fields :
  one_line line → length line + 2 ≤ fuel →
  ∃ fs err, parse_fields cfg fuel (drained e) line quoted fields = Some (drained e, fs, err).
Proof.
  revert line quoted fields. induction fuel as [|fuel IH]; intros line quoted fields Hl Hf; [lia|].
  cbn [parse_fields]. destruct quoted as [cur|].
  - destruct (cut quote_byte line) as [[pre rest]|] eqn:Ec.
    + destruct (one_line_cut _ _ _ _ Hl Ec) as [_ Hr]. apply cut_some in Ec as [-> _]. rewrite length_app in Hf. cbn [length] in Hf.
      assert (length (tail rest) ≤ length rest) by (destruct rest; cbn; lia).
      repeat case_decide; [apply IH; [by apply one_line_tail|lia]..|by eexists _, _|].
      destruct (LazyQuotes cfg); [apply IH; [done|lia]|by eexists _, _].
    + case_decide as Hn; [destruct (LazyQuotes cfg); by eexists _, _|].
      rewrite readLine_drained.
      apply IH; [apply one_line_nil|]. destruct line; [done|]. cbn [length] in *. lia.
  - case_decide as Hh.
    + apply IH; [by apply one_line_tail|]. destruct line; [done|]. cbn in *. lia.
    + destruct (cut (Comma cfg) line) as [[f rest]|] eqn:Ec; [|case_match; by eexists _, _].
      case_match; [by eexists _, _|]. destruct (one_line_cut _ _ _ _ Hl Ec) as [_ Hr]. apply IH; [done|].
      apply cut_some in Ec as [-> _]. rewrite length_app in Hf. cbn [length] in Hf. lia.
Qed.

(** what the rest of a line is when it ends a quoted field *)
Definition quoted_rest (c : ascii) (line w : bytes) (vals : list bytes) : Prop :=
  (line = escape w ++ [quote_byte] ∧ vals = []) ∨ ∃ rest, line = escape w ++ quote_byte :: c :: rest ∧ csv_text c rest vals.

Lemma parse_sound cfg e fuel line quoted fields b fs :
  LazyQuotes cfg = false → one_line line → parse_fields cfg fuel (drained e) line quoted fields = Some (b, fs, None) →
  match quoted with
  | None => ∃ vals, fs = fields ++ vals ∧ csv_text (Comma cfg) line vals
  | Some cur => ∃ w vals, fs = fields ++ (cur ++ w) :: vals ∧ quoted_rest (Comma cfg) line w vals
  end.
Proof.
  intros Hz. revert line quoted fields. induction fuel as [|fuel IH]; intros line quoted fields Hl; [done|].
  cbn [parse_fields]. rewrite Hz. cbn [negb andb]. destruct quoted as [cur|].
  - destruct (cut quote_byte line) as [[pre rest]|] eqn:Ec.
    + destruct (one_line_cut _ _ _ _ Hl Ec) as [_ Hr]. apply cut_some in Ec as [-> Hpre].
      case_decide as Hq; [|case_decide as Hcm; [|case_decide as Hnl; [|done]]].
      * destruct rest as [|a rest]; [done|]. injection Hq as ->. cbn [tail]. intros (w&vals&->&Hrest)%IH; [|by eapply one_line_uncons].
        exists (pre ++ quote_byte :: w), vals. split; [by rewrite <-!(assoc_L (++))|]. unfold quoted_rest.
        rewrite escape_app, (escape_plain pre) by done. change (escape (quote_byte :: w)) with (quote_byte :: quote_byte :: escape w).
        destruct Hrest as [[-> ->]|(r&->&?)]; [left|right; exists r]; (split; [by rewrite <-(assoc_L (++))|done]).
      * destruct rest as [|a rest]; [done|]. injection Hcm as ->. cbn [tail]. intros (vals&->&Hcsv)%IH; [|by eapply one_line_uncons].
        exists pre, vals. split; [by rewrite <-(assoc_L (++))|]. right. exists rest. by rewrite escape_plain.
      * intros [= <- <-]. exists pre, []. split; [done|]. left. rewrite lengthNL_one_line in Hnl by done. destruct rest; [|done].
        by rewrite escape_plain.
    + case_decide; [done|]. rewrite readLine_drained.
      intros (w&vals&_&Hrest)%IH; [|apply one_line_nil]. exfalso. destruct Hrest as [[Hx _]|(r&Hx&_)]; by destruct (escape w).
  - case_decide as Hh.
    + destruct line as [|a line]; [done|]. injection Hh as ->. cbn [tail].
      intros (w&vals&->&Hrest)%IH; [|by eapply one_line_uncons]. exists (w :: vals). split; [done|].
      destruct Hrest as [[-> ->]|(r&->&Hr)]; [by apply csv_text_one, quoted_text|].
      replace (quote_byte :: escape w ++ quote_byte :: Comma cfg :: r) with ((quote_byte :: escape w ++ [quote_byte]) ++ Comma cfg :: r)
        by (cbn; by rewrite <-(assoc_L (++))).
      by apply csv_text_cons; [apply quoted_text|].
    + destruct (cut (Comma cfg) line) as [[f rest]|] eqn:Ec; case_bool_decide as Hq; try done.
      * destruct (one_line_cut _ _ _ _ Hl Ec) as [_ Hr]. apply cut_some in Ec as [-> Hc]. intros (vals&->&Hcsv)%IH; [|done].
        exists (f :: vals). split; [by rewrite <-(assoc_L (++))|]. by apply csv_text_cons; [apply plain_text|].
      * intros [= <- <-]. rewrite lengthNL_one_line, Nat.sub_0_r, firstn_all in * by done. exists [line]. split; [done|].
        apply csv_text_one, plain_text; [by apply cut_none_inv|done].
Qed.

Lemma parse_escaped cfg b n w more cur fields fuel :
  length w ≤ n → length (escape w ++ quote_byte :: more) + 2 ≤ fuel →
  ∃ fuel', length more + 3 ≤ fuel' ∧
    parse_fields cfg fuel b (escape w ++ quote_byte :: more) (Some cur) fields =
    parse_fields cfg fuel' b (quote_byte :: more) (Some (cur ++ w)) fields.
Proof.
  revert w cur fuel. induction n as [|n IH]; intros w cur fuel Hn Hf.
  { destruct w; [|cbn in Hn; lia]. exists fuel. cbn [escape mbind list_bind app] in *. rewrite app_nil_r. cbn in Hf. split; [lia|done]. }
  destruct (cut quote_byte w) as [[pre post]|] eqn:Ec.
  - apply cut_some in Ec as [-> Hpre]. rewrite escape_app, escape_plain in Hf |- * by done.
    change (escape (quote_byte :: post)) with (quote_byte :: quote_byte :: escape post) in *.
    rewrite <-!(assoc_L (++)) in Hf |- *. cbn [app] in *. rewrite length_app in Hf, Hn. cbn [length] in Hf, Hn.
    destruct fuel as [|fuel]; [lia|]. destruct (IH post (cur ++ pre ++ [quote_byte]) fuel) as (fuel'&Hf'&Heq); [lia|lia|].
    exists fuel'. split; [done|]. cbn [parse_fields]. rewrite (cut_app quote_byte pre) by done. cbn [head tail].
    rewrite decide_True, <-(assoc_L (++) cur), Heq by done. by rewrite <-!(assoc_L (++)).
  - apply cut_none_inv in Ec. rewrite escape_plain in Hf |- * by done. rewrite length_app in Hf. cbn [length] in Hf.
    destruct fuel as [|fuel]; [lia|]. exists (S fuel). split; [lia|]. cbn [parse_fields]. rewrite (cut_app quote_byte w) by done.
    change (quote_byte :: more) with ([] ++ quote_byte :: more). rewrite (cut_app quote_byte []) by apply not_elem_of_nil.
    by rewrite app_nil_r.
Qed.

(** the end of a quoted field *)
Lemma parse_closed cfg b cur more fields fuel :
  head more ≠ Some quote_byte → 0 < fuel →
  parse_fields cfg (S fuel) b (quote_byte :: more) (Some cur) fields =
    if decide (head more = Some (Comma cfg)) then parse_fields cfg fuel b (tail more) None (fields ++ [cur])
    else if decide (lengthNL more = length more) then Some (b, fields ++ [cur], None)
    else if LazyQuotes cfg then parse_fields cfg fuel b more (Some (cur ++ [quote_byte])) fields else Some (b, fields, Some ErrQuote).
Proof.
  intros Hh _. cbn [parse_fields]. change (quote_byte :: more) with ([] ++ quote_byte :: more).
  rewrite (cut_app quote_byte []) by apply not_elem_of_nil. by rewrite app_nil_r, decide_False.
Qed.

Lemma parse_complete cfg b texts vals fields fuel :
  validDelim (Comma cfg) = true → texts ≠ [] → Forall2 (field_text (Comma cfg)) texts vals → one_line (join_bytes (Comma cfg) texts) →
  length (join_bytes (Comma cfg) texts) + 3 ≤ fuel →
  parse_fields cfg fuel b (join_bytes (Comma cfg) texts) None fields = Some (b, fields ++ vals, None).
Proof.
  intros Hv Hne Hf. assert (Comma cfg ≠ quote_byte) as Hcq.
  { intros E. rewrite E in Hv. by vm_compute in Hv. }
  assert (∀ f rest, quote_byte ∉ f → head rest ≠ Some quote_byte → head (f ++ rest) ≠ Some quote_byte) as Hhead.
  { intros [|a f] rest Hq Hr; [done|]. cbn. intros [= ->]. by apply Hq; left. }
  revert fields fuel. induction Hf as [|t v texts vals Ht Hf IH]; intros fields fuel Hl Hfuel; [done|].
  destruct (decide (texts = [])) as [->|Hne'].
  - inversion Hf; subst. cbn [join_bytes] in *. destruct fuel as [|fuel]; [lia|]. destruct Ht as [f Hc Hq|v]; cbn [parse_fields].
    + rewrite decide_False by (rewrite <-(app_nil_r f); by apply Hhead). rewrite cut_none by done.
      rewrite lengthNL_one_line, Nat.sub_0_r, firstn_all by done. rewrite bool_decide_false, andb_false_r by done. done.
    + rewrite decide_True by done. cbn [tail].
      destruct (parse_escaped cfg b (length v) v [] [] fields fuel) as (fuel'&Hf'&->); [lia|cbn in Hfuel; lia|].
      destruct fuel' as [|fuel']; [lia|]. rewrite parse_closed by (done || lia). by rewrite decide_False by done.
  - rewrite join_cons in * by done. destruct fuel as [|fuel]; [lia|].
    assert (one_line (join_bytes (Comma cfg) texts)) as Hlt.
    { intros Hin. apply Hl, elem_of_app. right. by right. }
    rewrite length_app in Hfuel. cbn [length] in Hfuel. destruct Ht as [f Hc Hq|v]; cbn [parse_fields].
    + rewrite decide_False by (apply Hhead; [done|]; cbn; congruence). rewrite cut_app by done.
      rewrite bool_decide_false, andb_false_r by done. rewrite IH by (done || lia). by rewrite <-(assoc_L (++)).
    + rewrite decide_True by done. cbn [app tail] in *. rewrite <-(assoc_L (++)) in *. cbn [app] in *.
      destruct (parse_escaped cfg b (length v) v (Comma cfg :: join_bytes (Comma cfg) texts) [] fields fuel) as (fuel'&Hf'&->);
        [lia|rewrite length_app; cbn [length]; cbn [length] in Hfuel; rewrite length_app in Hfuel; cbn [length] in Hfuel; lia|].
      cbn [length] in Hf'. destruct fuel' as [|fuel']; [lia|]. rewrite parse_closed by (cbn; congruence || lia).
      rewrite decide_True by done. cbn [tail app]. rewrite IH by (done || lia). by rewrite <-(assoc_L (++)).
Qed.

Lemma parse_nonempty cfg fuel b line quoted fields b' fs :
  parse_fields cfg fuel b line quoted fields = Some (b', fs, None) → fs ≠ [].
Proof.
  revert b line quoted fields. induction fuel as [|fuel IH]; intros b line quoted fields; [done|].
  assert (∀ (x : bytes), fields ++ [x] ≠ []) as Hne by (by destruct fields).
  cbn [parse_fields]. repeat (case_match || case_decide); intros Hx; simplify_eq; by eauto.
Qed.

(** ** The theorem *)

(** the lines read so far *)
Fixpoint stream_run (cfg : csvConfig) (b : bufioReader) (lines : list bytes) : option bufioReader :=
  match lines with
  | [] => Some b
  | line :: lines => match stream_Parse cfg b line with Some (b, _, _) => stream_run cfg b lines | None => None end
  end.

(** csv.Reader.Read of one line that does not end in \r *)
Lemma csv_Read_line cfg e line :
  validDelim (Comma cfg) = true → one_line line →
  ∃ fs err, csv_Read cfg (holding e line) = Some (drained e, fs, err) ∧ (err = None → fs ≠ []) ∧
    (line ≠ [] → last line ≠ Some return_byte → LazyQuotes cfg = false →
     ∀ vals, (fs = vals ∧ err = None) ↔ csv_text (Comma cfg) line vals).
Proof.
  intros Hv Hl. unfold csv_Read. rewrite Hv. rewrite first_line_holding by (done || lia).
  pose proof (strip_return_one_line line Hl) as Hs. destruct (strip_return line) as [|a l] eqn:Es.
  - eexists _, _. split; [done|]. split; [done|]. intros Hne Hr. unfold strip_return in Es. by rewrite decide_False in Es.
  - rewrite bool_decide_false by done. set (fuel := length (a :: l) + _ + _).
    destruct (parse_total cfg e fuel (a :: l) None [] Hs) as (fs&err&Hp); [lia|]. rewrite Hp. eexists _, _. split; [done|].
    split; [intros ->; by eapply parse_nonempty|]. intros Hne Hr Hz vals. unfold strip_return in Es. rewrite decide_False in Es by done. subst line. split.
    + intros [-> ->]. by destruct (parse_sound _ _ _ _ _ _ _ _ Hz Hs Hp) as (vals'&->&Hcsv).
    + intros (texts&Hnt&Hft&Hj). rewrite Hj in Hp, Hs. rewrite (parse_complete cfg (drained e) texts vals [] fuel) in Hp;
        [by simplify_eq|done..|]. rewrite <-Hj. lia.
Qed.

(** C18: a line of CSV is parsed by itself.  Whatever lines a streaming reader
    was given before, the next line, which has no newline (the classifier trims
    the lines of a file), is parsed as a new reader would parse it: errors, quotes
    left open and lines longer than the buffer leave nothing behind.  And, unless
    quotes may be lazy, a line is accepted with certain values exactly when it is
    a list of fields separated by the delimiter that stand for those values: plain
    fields without quote and delimiter, and quoted fields with doubled quotes. *)
Theorem csv_stream_correct cfg history line :
  validDelim (Comma cfg) = true → Forall one_line history → one_line line →
  ∃ b fs err, stream_run cfg NewStreamingCSVReader history = Some b ∧
    stream_Parse cfg b line = Some (NewStreamingCSVReader, fs, err) ∧
    stream_Parse cfg NewStreamingCSVReader line = Some (NewStreamingCSVReader, fs, err) ∧
    (line ≠ [] → last line ≠ Some return_byte → LazyQuotes cfg = false →
     ∀ vals, (fs = vals ∧ err = None) ↔ csv_text (Comma cfg) line vals).
Proof.
  intros Hv Hh Hl. destruct (csv_Read_line cfg true line Hv Hl) as (fs&err&Hr&_&Hspec).
  exists NewStreamingCSVReader, fs, err. split_and!; [|done..].
  induction Hh as [|l0 history H0 _ IH]; [done|]. cbn [stream_run].
  destruct (csv_Read_line cfg true l0 Hv H0) as (fs0&err0&Hr0&_&_). unfold stream_Parse.
  change {| unread := unread NewStreamingCSVReader; pendingEOF := _; rd := _ |} with (holding true l0). by rewrite Hr0.
Qed.

(** ReadAll of one line: its record, or the error *)
Lemma ReadAll_line cfg line :
  validDelim (Comma cfg) = true → one_line line →
  ∃ fs err, csv_Read cfg (holding false line) = Some (drained false, fs, err) ∧
    ReadAll cfg 2 (strings_reader line) [] =
      Some (match err with None => ([fs], None) | Some CsvEOF => ([], None) | Some e => ([], Some e) end).
Proof.
  intros Hv Hl. destruct (csv_Read_line cfg false line Hv Hl) as (fs&err&Hr&_&_). exists fs, err. split; [done|].
  cbn [ReadAll]. change (strings_reader line) with (holding false line). rewrite Hr.
  destruct err as [[]|]; [done..|]. change (drained false) with (holding false []).
  destruct (csv_Read_line cfg false [] Hv (not_elem_of_nil _)) as (fs'&err'&Hr'&_&_).
  assert (csv_Read cfg (holding false []) = Some (drained false, [], Some CsvEOF)) as ->; [|done].
  unfold csv_Read. rewrite Hv. rewrite first_line_holding by (apply not_elem_of_nil || lia). done.
Qed.

(** ** Examples *)

Definition csv_bytes (s : string) : bytes := String.list_ascii_of_string s.
Definition plain_csv : csvConfig := {| Comma := ","; LazyQuotes := false |}.
Definition quoted_line : bytes := csv_bytes "a," ++ quote_byte :: csv_bytes "b,c" ++ [quote_byte].

Lemma csv_stream_correct_witness :
  validDelim (Comma plain_csv) = true ∧
  ∃ b, stream_run plain_csv NewStreamingCSVReader [csv_bytes "x," ++ [quote_byte]] = Some b ∧
    stream_Parse plain_csv b quoted_line = Some (NewStreamingCSVReader, [csv_bytes "a"; csv_bytes "b,c"], None).
Proof.
  split; [reflexivity|].
  destruct (csv_stream_correct plain_csv [csv_bytes "x," ++ [quote_byte]] quoted_line) as (b&fs&err&Hrun&Hp&_&_).
  - reflexivity.
  - constructor; [|constructor]. unfold one_line. apply (bool_decide_unpack _). vm_compute. exact I.
  - unfold one_line. apply (bool_decide_unpack _). vm_compute. exact I.
  - exists b. split; [exact Hrun|]. rewrite Hp. vm_compute in Hrun. injection Hrun as <-. vm_compute in Hp.
    injection Hp as <- <-. reflexivity.
Defined.

(** a line that still has its newline leaves io.EOF behind, and the next line is lost *)
Lemma newline_loses_next_line :
  let b := {| unread := []; pendingEOF := true; rd := {| logLine := []; eager := true |} |} in
  stream_Parse plain_csv NewStreamingCSVReader (csv_bytes "a,b" ++ [newline]) = Some (b, [csv_bytes "a"; csv_bytes "b"], None) ∧
  stream_Parse plain_csv b (csv_bytes "c,d") = Some (holding true (csv_bytes "c,d"), [], Some CsvEOF).
Proof. intros b. split; vm_compute; reflexivity. Qed.
