(* ===== verification/CsvParsers.v ===== *)
(** * Parsers of logs in CSV

    Model of the log parsers that read lines of CSV under
    src/internal/log_analysis/log_processor/parsers: awslogs/alb.go,
    s3_server_access.go, aurora_mysql_audit.go, vpc_flow.go (and the fields that
    AWS logs add, pantherlog.go) and nginxlogs/access.go.  The readers reuse the
    array of their records (csv.Reader.ReuseRecord), so the arrays are kept in
    the state and a field that refers to one is a reference.  Dates, floating
    point numbers and the validator are parameters. *)

From S2P Require Import Prelude GoTime RowId PantherLog Classifier CsvReader.

#[local] Open Scope Z_scope.

(** ** Readers that reuse their records *)

(** the arrays that records were read into, and the one of the last record *)
Record csvReader := { buffer : bufioReader; arrays : list (list string); lastRecord : option nat }.

Definition NewReader : csvReader := {| buffer := NewStreamingCSVReader; arrays := []; lastRecord := None |}.

Definition array (r : csvReader) (id : option nat) : list string := default [] (id ≫= λ id, arrays r !! id).

(** the record is written over the last one if its array is long enough *)
Definition store (r : csvReader) (b : bufioReader) (fields : list string) : csvReader :=
  if decide (length (array r (lastRecord r)) < length fields)%nat then
    {| buffer := b; arrays := arrays r ++ [fields]; lastRecord := Some (length (arrays r)) |}
  else
    {| buffer := b;
       arrays := match lastRecord r with
                 | Some id => <[id := fields ++ drop (length fields) (array r (Some id))]> (arrays r)
                 | None => arrays r
                 end;
       lastRecord := lastRecord r |}.

Definition field_string : list ascii → string := String.string_of_list_ascii.

(** StreamingCSVReader.Parse: the reader and the record; [None]: an error.  When
    there is no line the record is nil *)
Definition reader_Parse (cfg : csvConfig) (r : csvReader) (log : string) : csvReader * option (list string) :=
  match stream_Parse cfg (buffer r) (String.list_ascii_of_string log) with
  | Some (b, fields, None) => (store r b (field_string <$> fields), Some (field_string <$> fields))
  | Some (b, _, Some CsvEOF) | Some (b, _, Some ErrInvalidDelim) => ({| buffer := b; arrays := arrays r; lastRecord := None |}, None)
  | Some (b, fields, Some _) => (store r b (field_string <$> fields), None)
  | None => (r, None)
  end.

Definition space : csvConfig := {| Comma := " "; LazyQuotes := false |}.
Definition lazy_space : csvConfig := {| Comma := " "; LazyQuotes := true |}.
Definition commas : csvConfig := {| Comma := ","; LazyQuotes := false |}.

(** an element of a slice *)
Definition at_index (l : list string) (i : nat) : outcome string :=
  match l !! i with Some x => Ret x | None => Panic "index out of range" end.

(** ** Fields of AWS logs (awslogs/pantherlog.go) *)

Record AWSPantherLog (Event : Type) := {
  pantherLog : PantherLog Event;
  PantherAnyAWSAccountIds : option PantherAnyString;
  PantherAnyAWSInstanceIds : option PantherAnyString;
  PantherAnyAWSARNs : option PantherAnyString;
  PantherAnyAWSTags : option PantherAnyString
}.
Arguments pantherLog {Event}. Arguments PantherAnyAWSAccountIds {Event}. Arguments PantherAnyAWSInstanceIds {Event}.
Arguments PantherAnyAWSARNs {Event}. Arguments PantherAnyAWSTags {Event}.

Section AWS.
Context {Event : Type}.
Implicit Types pl : AWSPantherLog Event.

Definition on_log (f : PantherLog Event → PantherLog Event) pl : AWSPantherLog Event :=
  {| pantherLog := f (pantherLog pl); PantherAnyAWSAccountIds := PantherAnyAWSAccountIds pl;
     PantherAnyAWSInstanceIds := PantherAnyAWSInstanceIds pl; PantherAnyAWSARNs := PantherAnyAWSARNs pl;
     PantherAnyAWSTags := PantherAnyAWSTags pl |}.

Definition AppendAnyAWSAccountIds pl (values : list string) : AWSPantherLog Event :=
  {| pantherLog := pantherLog pl; PantherAnyAWSAccountIds := lazy_append (PantherAnyAWSAccountIds pl) values;
     PantherAnyAWSInstanceIds := PantherAnyAWSInstanceIds pl; PantherAnyAWSARNs := PantherAnyAWSARNs pl;
     PantherAnyAWSTags := PantherAnyAWSTags pl |}.
Definition AppendAnyAWSInstanceIds pl (values : list string) : AWSPantherLog Event :=
  {| pantherLog := pantherLog pl; PantherAnyAWSAccountIds := PantherAnyAWSAccountIds pl;
     PantherAnyAWSInstanceIds := lazy_append (PantherAnyAWSInstanceIds pl) values; PantherAnyAWSARNs := PantherAnyAWSARNs pl;
     PantherAnyAWSTags := PantherAnyAWSTags pl |}.
Definition AppendAnyAWSARNs pl (values : list string) : AWSPantherLog Event :=
  {| pantherLog := pantherLog pl; PantherAnyAWSAccountIds := PantherAnyAWSAccountIds pl;
     PantherAnyAWSInstanceIds := PantherAnyAWSInstanceIds pl; PantherAnyAWSARNs := lazy_append (PantherAnyAWSARNs pl) values;
     PantherAnyAWSTags := PantherAnyAWSTags pl |}.
Definition AppendAnyAWSTags pl (values : list string) : AWSPantherLog Event :=
  {| pantherLog := pantherLog pl; PantherAnyAWSAccountIds := PantherAnyAWSAccountIds pl;
     PantherAnyAWSInstanceIds := PantherAnyAWSInstanceIds pl; PantherAnyAWSARNs := PantherAnyAWSARNs pl;
     PantherAnyAWSTags := lazy_append (PantherAnyAWSTags pl) values |}.

(** the [...Ptrs] variants skip nil pointers *)
Fixpoint aws_ptrs (append : AWSPantherLog Event → list string → AWSPantherLog Event) pl (values : list (option string))
    : AWSPantherLog Event :=
  match values with
  | [] => pl
  | None :: values => aws_ptrs append pl values
  | Some v :: values => aws_ptrs append (append pl [v]) values
  end.
Definition AppendAnyAWSAccountIdPtrs := aws_ptrs AppendAnyAWSAccountIds.
Definition AppendAnyAWSInstanceIdPtrs := aws_ptrs AppendAnyAWSInstanceIds.
Definition AppendAnyAWSARNPtrs := aws_ptrs AppendAnyAWSARNs.
Definition AppendAnyAWSTagPtrs := aws_ptrs AppendAnyAWSTags.

Definition ip_ptr (value : option string) pl : AWSPantherLog Event := on_log (λ l, (AppendAnyIPAddressPtr l value).1) pl.

(** the zero value of the embedded struct *)
Definition no_fields : PantherLog Event :=
  {| event := None; PantherLogType := None; PantherRowID := None; PantherEventTime := None; PantherParseTime := None;
     PantherAnyIPAddresses := None; PantherAnyDomainNames := None; PantherAnySHA1Hashes := None; PantherAnyMD5Hashes := None |}.
Definition no_aws_fields : AWSPantherLog Event :=
  {| pantherLog := no_fields; PantherAnyAWSAccountIds := None; PantherAnyAWSInstanceIds := None; PantherAnyAWSARNs := None;
     PantherAnyAWSTags := None |}.

(** SetCoreFields on the embedded struct *)
Definition set_core (s : RowId.pkg) (now : Z) pl (logType : string) (eventTime : option Z) (ev : Event)
    : outcome (AWSPantherLog Event) :=
  r ← SetCoreFields s now (pantherLog pl) logType eventTime ev;
  Ret (on_log (λ _, r.2) pl).

(** the end of a Parse: the standard fields, the validator, the only event *)
Definition finish (s : RowId.pkg) (now : Z) (logType : string) (eventTime : option Z) (ev : Event)
    (update : AWSPantherLog Event → AWSPantherLog Event) (valid : AWSPantherLog Event → bool)
    : outcome (option (list (AWSPantherLog Event))) :=
  pl ← set_core s now no_aws_fields logType eventTime ev;
  Ret (if valid (update pl) then Some [update pl] else None).
End AWS.

(** the state of the package and of a parser, and what Parse returns *)
Notation parser_state := (RowId.pkg * csvReader)%type.
Notation parsed ev := (parser_state * outcome (option (list (AWSPantherLog ev))))%type.

Section Parsers.
Context (time_Parse : string → string → result Time) {F : Type} (ParseFloat : string → result F).

Definition CsvStringToFloat64Pointer (value : string) : option F :=
  if decide (value = "-") then None else match ParseFloat value with Ok v => Some v | Err _ => None end.

(** ** ALB (awslogs/alb.go) *)

Record ALB := {
  albType : option string; albTimestamp : option Time; albELB : option string; albClientIP : option string;
  albClientPort : option Z; albTargetIP : option string; albTargetPort : option Z; albRequestProcessingTime : option F;
  albTargetProcessingTime : option F; albResponseProcessingTime : option F; albELBStatusCode : option Z;
  albTargetStatusCode : option Z; albReceivedBytes : option Z; albSentBytes : option Z;
  albRequestHTTPMethod : option string; albRequestURL : option string; albRequestHTTPVersion : option string;
  albUserAgent : option string; albSSLCipher : option string; albSSLProtocol : option string;
  albTargetGroupARN : option string; albTraceID : option string; albDomainName : option string;
  albChosenCertARN : option string; albMatchedRulePriority : option Z; albRequestCreationTime : option Time;
  albActionsExecuted : list string; albRedirectURL : option string; albErrorReason : option string
}.

Definition albMinNumberOfColumns : nat := 25.

(** the address and the port *)
Definition ip_port (s : string) : string * string := match split_on ":" s with [ip; port] => (ip, port) | _ => (s, "-") end.

Definition alb_event (record : list string) : outcome (option ALB) :=
  c1 ← at_index record 1;
  match time_Parse "2006-01-02T15:04:05.999999999Z07:00" c1 with
  | Err _ => Ret None
  | Ok timeStamp =>
      c21 ← at_index record 21;
      match time_Parse "2006-01-02T15:04:05.999999999Z07:00" c21 with
      | Err _ => Ret None
      | Ok requestCreationTime =>
          c3 ← at_index record 3; c4 ← at_index record 4; c12 ← at_index record 12;
          let client := ip_port c3 in
          let target := ip_port c4 in
          match split_on " " c12 with
          | [method; url; version] =>
              c0 ← at_index record 0; c2 ← at_index record 2; c5 ← at_index record 5; c6 ← at_index record 6;
              c7 ← at_index record 7; c8 ← at_index record 8; c9 ← at_index record 9; c10 ← at_index record 10;
              c11 ← at_index record 11; c13 ← at_index record 13; c14 ← at_index record 14; c15 ← at_index record 15;
              c16 ← at_index record 16; c17 ← at_index record 17; c18 ← at_index record 18; c19 ← at_index record 19;
              c20 ← at_index record 20; c22 ← at_index record 22; c23 ← at_index record 23; c24 ← at_index record 24;
              Ret (Some {|
                albType := CsvStringToPointer c0; albTimestamp := Some timeStamp; albELB := CsvStringToPointer c2;
                albClientIP := CsvStringToPointer client.1; albClientPort := CsvStringToIntPointer client.2;
                albTargetIP := CsvStringToPointer target.1; albTargetPort := CsvStringToIntPointer target.2;
                albRequestProcessingTime := CsvStringToFloat64Pointer c5;
                albTargetProcessingTime := CsvStringToFloat64Pointer c6;
                albResponseProcessingTime := CsvStringToFloat64Pointer c7;
                albELBStatusCode := CsvStringToIntPointer c8; albTargetStatusCode := CsvStringToIntPointer c9;
                albReceivedBytes := CsvStringToIntPointer c10; albSentBytes := CsvStringToIntPointer c11;
                albRequestHTTPMethod := CsvStringToPointer method; albRequestURL := CsvStringToPointer url;
                albRequestHTTPVersion := CsvStringToPointer version; albUserAgent := CsvStringToPointer c13;
                albSSLCipher := CsvStringToPointer c14; albSSLProtocol := CsvStringToPointer c15;
                albTargetGroupARN := CsvStringToPointer c16; albTraceID := CsvStringToPointer c17;
                albDomainName := CsvStringToPointer c18; albChosenCertARN := CsvStringToPointer c19;
                albMatchedRulePriority := CsvStringToIntPointer c20;
                albRequestCreationTime := Some requestCreationTime; albActionsExecuted := CsvStringToArray c22;
                albRedirectURL := CsvStringToPointer c23; albErrorReason := CsvStringToPointer c24 |})
          | _ => Ret None
          end
      end
  end.

Definition alb_update (event : ALB) (pl : AWSPantherLog ALB) : AWSPantherLog ALB :=
  let pl := ip_ptr (albTargetIP event) (ip_ptr (albClientIP event) pl) in
  let pl := on_log (λ l, AppendAnyDomainNamePtrs l [albDomainName event]) pl in
  AppendAnyAWSARNPtrs pl [albChosenCertARN event; albTargetGroupARN event].

Definition ALB_Parse (valid : AWSPantherLog ALB → bool) (st : parser_state) (now : Z) (log : string) : parsed ALB :=
  let '(r, record) := reader_Parse space st.2 log in
  match record with
  | None => ((st.1, r), Ret None)
  | Some record =>
      if decide (length record < albMinNumberOfColumns)%nat then ((st.1, r), Ret None)
      else match alb_event record with
           | Panic why => ((st.1, r), Panic why)
           | Ret None => ((st.1, r), Ret None)
           | Ret (Some event) =>
               (((NewRowID st.1).1, r), finish st.1 now "AWS.ALB" (albTimestamp event) event (alb_update event) valid)
           end
  end.

(** ** S3 server access (awslogs/s3_server_access.go)

    AdditionalFields is a slice of the record: the array, and where it starts and
    ends.  [None] is nil *)

Record S3ServerAccess := {
  s3aBucketOwner : option string; s3aBucket : option string; s3aTime : option Time; s3aRemoteIP : option string;
  s3aRequester : option string; s3aRequestID : option string; s3aOperation : option string; s3aKey : option string;
  s3aRequestURI : option string; s3aHTTPStatus : option Z; s3aErrorCode : option string; s3aBytesSent : option Z;
  s3aObjectSize : option Z; s3aTotalTime : option Z; s3aTurnAroundTime : option Z; s3aReferrer : option string;
  s3aUserAgent : option string; s3aVersionID : option string; s3aHostID : option string;
  s3aSignatureVersion : option string; s3aCipherSuite : option string; s3aAuthenticationType : option string;
  s3aHostHeader : option string; s3aTLSVersion : option string; s3aAdditionalFields : option (nat * nat * nat)
}.

Definition s3ServerAccessMinNumberOfColumns : nat := 25.

(** [id]: the array of the record *)
Definition s3a_event (id : nat) (record : list string) : outcome (option S3ServerAccess) :=
  c2 ← at_index record 2; c3 ← at_index record 3;
  match time_Parse "[2/Jan/2006:15:04:05-0700]" (c2 +:+ c3) with
  | Err _ => Ret None
  | Ok parsedTime =>
      let additionalFields := if decide (25 < length record)%nat then Some (id, 25%nat, length record) else None in
      c0 ← at_index record 0; c1 ← at_index record 1; c4 ← at_index record 4; c5 ← at_index record 5;
      c6 ← at_index record 6; c7 ← at_index record 7; c8 ← at_index record 8; c9 ← at_index record 9;
      c10 ← at_index record 10; c11 ← at_index record 11; c12 ← at_index record 12; c13 ← at_index record 13;
      c14 ← at_index record 14; c15 ← at_index record 15; c16 ← at_index record 16; c17 ← at_index record 17;
      c18 ← at_index record 18; c19 ← at_index record 19; c20 ← at_index record 20; c21 ← at_index record 21;
      c22 ← at_index record 22; c23 ← at_index record 23; c24 ← at_index record 24;
      Ret (Some {|
        s3aBucketOwner := CsvStringToPointer c0; s3aBucket := CsvStringToPointer c1; s3aTime := Some parsedTime;
        s3aRemoteIP := CsvStringToPointer c4; s3aRequester := CsvStringToPointer c5;
        s3aRequestID := CsvStringToPointer c6; s3aOperation := CsvStringToPointer c7; s3aKey := CsvStringToPointer c8;
        s3aRequestURI := CsvStringToPointer c9; s3aHTTPStatus := CsvStringToIntPointer c10;
        s3aErrorCode := CsvStringToPointer c11; s3aBytesSent := CsvStringToIntPointer c12;
        s3aObjectSize := CsvStringToIntPointer c13; s3aTotalTime := CsvStringToIntPointer c14;
        s3aTurnAroundTime := CsvStringToIntPointer c15; s3aReferrer := CsvStringToPointer c16;
        s3aUserAgent := CsvStringToPointer c17; s3aVersionID := CsvStringToPointer c18;
        s3aHostID := CsvStringToPointer c19; s3aSignatureVersion := CsvStringToPointer c20;
        s3aCipherSuite := CsvStringToPointer c21; s3aAuthenticationType := CsvStringToPointer c22;
        s3aHostHeader := CsvStringToPointer c23; s3aTLSVersion := CsvStringToPointer c24;
        s3aAdditionalFields := additionalFields |})
  end.

Definition s3a_update (event : S3ServerAccess) (pl : AWSPantherLog S3ServerAccess) : AWSPantherLog S3ServerAccess :=
  let pl := ip_ptr (s3aRemoteIP event) pl in
  match s3aRequester event with
  | Some requester => if has_prefix "arn:" requester then AppendAnyAWSARNs pl [requester] else pl
  | None => pl
  end.

Definition S3ServerAccess_Parse (valid : AWSPantherLog S3ServerAccess → bool) (st : parser_state) (now : Z) (log : string)
    : parsed S3ServerAccess :=
  let '(r, record) := reader_Parse lazy_space st.2 log in
  match record with
  | None => ((st.1, r), Ret None)
  | Some record =>
      if decide (length record < s3ServerAccessMinNumberOfColumns)%nat then ((st.1, r), Ret None)
      else match s3a_event (default 0%nat (lastRecord r)) record with
           | Panic why => ((st.1, r), Panic why)
           | Ret None => ((st.1, r), Ret None)
           | Ret (Some event) =>
               (((NewRowID st.1).1, r), finish st.1 now "AWS.S3ServerAccess" (s3aTime event) event (s3a_update event) valid)
           end
  end.

(** ** Aurora audit (awslogs/aurora_mysql_audit.go) *)

(** strconv.ParseInt(s, 0, 64) *)
Context (ParseInt : string → result Z).

Record AuroraMySQLAudit := {
  aurTimestamp : option Time; aurServerHost : option string; aurUsername : option string; aurHost : option string;
  aurConnectionID : option Z; aurQueryID : option Z; aurOperation : option string; aurDatabase : option string;
  aurObject : option string; aurRetCode : option Z
}.

Definition auroraMySQLAuditMinNumberOfColumns : nat := 9.

(** timestamp.Unix *)
Definition unix_time (sec nsec : Z) : Time := Unix sec + nsec.

Definition aurora_event (record : list string) : outcome (option AuroraMySQLAudit) :=
  c0 ← at_index record 0;
  match ParseInt c0 with
  | Err _ => Ret None
  | Ok micros =>
      let last := pred (length record) in
      if decide (last < 8)%nat then Panic "slice bounds out of range"
      else
        let objectString := join_with "," (take (last - 8) (drop 8 record)) in
        let timeStamp := unix_time (Z.quot micros 1000000) (Z.rem micros 1000000 * 1000) in
        c1 ← at_index record 1; c2 ← at_index record 2; c3 ← at_index record 3; c4 ← at_index record 4;
        c5 ← at_index record 5; c6 ← at_index record 6; c7 ← at_index record 7; c_last ← at_index record last;
        Ret (Some {|
          aurTimestamp := Some timeStamp; aurServerHost := CsvStringToPointer c1; aurUsername := CsvStringToPointer c2;
          aurHost := CsvStringToPointer c3; aurConnectionID := CsvStringToIntPointer c4; aurQueryID := CsvStringToIntPointer c5;
          aurOperation := CsvStringToPointer c6; aurDatabase := CsvStringToPointer c7;
          aurObject := CsvStringToPointer objectString; aurRetCode := CsvStringToIntPointer c_last |})
  end.

Definition aurora_update (event : AuroraMySQLAudit) (pl : AWSPantherLog AuroraMySQLAudit) : AWSPantherLog AuroraMySQLAudit :=
  on_log (λ l, AppendAnyDomainNamePtrs l [aurServerHost event]) (ip_ptr (aurHost event) pl).

Definition AuroraMySQLAudit_Parse (valid : AWSPantherLog AuroraMySQLAudit → bool) (st : parser_state) (now : Z) (log : string)
    : parsed AuroraMySQLAudit :=
  let '(r, record) := reader_Parse commas st.2 log in
  match record with
  | None => ((st.1, r), Ret None)
  | Some record =>
      if decide (length record < auroraMySQLAuditMinNumberOfColumns)%nat then ((st.1, r), Ret None)
      else match aurora_event record with
           | Panic why => ((st.1, r), Panic why)
           | Ret None => ((st.1, r), Ret None)
           | Ret (Some event) =>
               (((NewRowID st.1).1, r),
                finish st.1 now "AWS.AuroraMySQLAudit" (aurTimestamp event) event (aurora_update event) valid)
           end
  end.

(** ** Nginx access (nginxlogs/access.go) *)

Record Access := {
  ngxRemoteAddress : option string; ngxRemoteUser : option string; ngxTime : option Time; ngxRequest : option string;
  ngxStatus : option Z; ngxBodyBytesSent : option Z; ngxHTTPReferer : option string; ngxHTTPUserAgent : option string
}.

Definition accessNumberOfColumns : nat := 10.
Definition accessUserIdentifier : string := "-".

Definition access_event (record : list string) : outcome (option Access) :=
  c1 ← at_index record 1;
  if decide (c1 ≠ accessUserIdentifier) then Ret None
  else
    c3 ← at_index record 3; c4 ← at_index record 4;
    match time_Parse "[2/Jan/2006:15:04:05-0700]" (c3 +:+ c4) with
    | Err _ => Ret None
    | Ok parsedTime =>
        c0 ← at_index record 0; c2 ← at_index record 2; c5 ← at_index record 5; c6 ← at_index record 6;
        c7 ← at_index record 7; c8 ← at_index record 8; c9 ← at_index record 9;
        Ret (Some {|
          ngxRemoteAddress := CsvStringToPointer c0; ngxRemoteUser := CsvStringToPointer c2; ngxTime := Some parsedTime;
          ngxRequest := CsvStringToPointer c5; ngxStatus := CsvStringToInt16Pointer c6;
          ngxBodyBytesSent := CsvStringToIntPointer c7; ngxHTTPReferer := CsvStringToPointer c8;
          ngxHTTPUserAgent := CsvStringToPointer c9 |})
    end.

(** a new reader for every line.  Records of different lengths are an error of
    ReadAll, which the parser answers like several records *)
Definition Access_Parse (valid : PantherLog Access → bool) (s : RowId.pkg) (now : Z) (log : string)
    : RowId.pkg * outcome (option (list (PantherLog Access))) :=
  match ReadAll space (S (String.length log)) (strings_reader (String.list_ascii_of_string log)) [] with
  | Some ([record], None) =>
      let record := field_string <$> record in
      if decide (length record ≠ accessNumberOfColumns)%nat then (s, Ret None)
      else match access_event record with
           | Panic why => (s, Panic why)
           | Ret None => (s, Ret None)
           | Ret (Some event) =>
               ((NewRowID s).1,
                r ← SetCoreFields s now no_fields "Nginx.Access" (ngxTime event) event;
                let pl := (AppendAnyIPAddressPtr r.2 (ngxRemoteAddress event)).1 in
                Ret (if valid pl then Some [pl] else None))
           end
  | _ => (s, Ret None)
  end.
End Parsers.

(** ** VPC flow logs (awslogs/vpc_flow.go)

    The columns are named by the first line of a file.  A struct is kept as the
    values that were assigned, by the name of the column that its field is filled
    from.  AccountID is a pointer to an element of the record: the array and the
    index. *)

Inductive vpcValue := VInt (v : option Z) | VStr (v : option string) | VRef (id i : nat) | VTime (t : Time).
Notation VPCFlow := (gmap string vpcValue).

Inductive vpcKind := KInt | KStr | KAccount | KTime.

(** the cases of the switch *)
Definition vpc_columns : list (string * vpcKind) :=
  [("version", KInt); ("account-id", KAccount); ("interface-id", KStr); ("srcaddr", KStr); ("dstaddr", KStr);
   ("srcport", KInt); ("dstport", KInt); ("protocol", KInt); ("packets", KInt); ("bytes", KInt); ("start", KTime);
   ("end", KTime); ("action", KStr); ("log-status", KStr); ("vpc-id", KStr); ("subnet-id", KStr); ("instance-id", KStr);
   ("tcp-flags", KInt); ("type", KStr); ("pkt-srcaddr", KStr); ("pkt-dstaddr", KStr)].
Definition vpc_kind (header : string) : option vpcKind :=
  snd <$> find (λ c, bool_decide (c.1 = header)) vpc_columns.

(** the keys of the map of known headers *)
Definition vpcFlowHeaders : gset string :=
  list_to_set ["version"; "account-id"; "interface-id"; "srcaddr"; "dstaddr"; "srcport"; "dstport"; "protocol"; "packets";
    "bytes"; "start"; "end"; "action"; "log-status"; "vpc-id"; "subnet-id"; "instance-id"; "tcp-flags"; "type";
    "pkt-srcaddr"; "pkt-dstaddr"].
Definition vpcFlowHeaderThreshold : nat := 5.

(** the columns the line names, when it is a header *)
Definition isVpcFlowHeader (log : string) : option (list string) :=
  if bool_decide (String.get 0 log = Some "{"%char) then None
  else
    let headers := TrimSpace <$> split_on " " log in
    if decide (length (filter (λ h, h ∈ vpcFlowHeaders) headers) < vpcFlowHeaderThreshold)%nat then None else Some headers.

(** [id]: the array of the record; [None]: nil *)
Fixpoint populate (headers : list string) (id i : nat) (columns : list string) (event : gmap string vpcValue)
    : option (gmap string vpcValue) :=
  match columns with
  | [] => Some event
  | c :: columns =>
      let header := default "" (headers !! i) in
      match vpc_kind header with
      | Some KInt => populate headers id (S i) columns (<[header := VInt (CsvStringToIntPointer c)]> event)
      | Some KStr => populate headers id (S i) columns (<[header := VStr (CsvStringToPointer c)]> event)
      | Some KAccount =>
          populate headers id (S i) columns (if decide (c ≠ "-" ∧ c ≠ "unknown") then <[header := VRef id i]> event else event)
      | Some KTime =>
          match atoi c with
          | Err _ => None
          | Ok t => populate headers id (S i) columns (<[header := VTime (unix_time t 0)]> event)
          end
      | None => populate headers id (S i) columns event
      end
  end.
Definition populateEvent (headers : list string) (id : nat) (columns : list string) : option (gmap string vpcValue) :=
  populate headers id 0 columns ∅.

(** the fields, with the arrays that AccountID may point into *)
Definition str_field (event : gmap string vpcValue) (header : string) : option string :=
  match event !! header with Some (VStr v) => v | _ => None end.
Definition time_field (event : gmap string vpcValue) (header : string) : option Time :=
  match event !! header with Some (VTime t) => Some t | _ => None end.
Definition account_field (r : csvReader) (event : gmap string vpcValue) : option string :=
  match event !! "account-id" with Some (VRef id i) => arrays r !! id ≫= (.!! i) | _ => None end.

Definition vpc_update (r : csvReader) (event : VPCFlow) (pl : AWSPantherLog VPCFlow) : AWSPantherLog VPCFlow :=
  let pl := AppendAnyAWSAccountIdPtrs pl [account_field r event] in
  let pl := AppendAnyAWSInstanceIdPtrs pl [str_field event "instance-id"] in
  let pl := ip_ptr (str_field event "dstaddr") (ip_ptr (str_field event "srcaddr") pl) in
  ip_ptr (str_field event "pkt-dstaddr") (ip_ptr (str_field event "pkt-srcaddr") pl).

(** [columnMap]: [None] is a nil map.  Calling updatePantherFields on nil panics *)
Definition VPCFlow_Parse (valid : csvReader → AWSPantherLog VPCFlow → bool) (st : parser_state) (columnMap : option (list string))
    (now : Z) (log : string) : option (list string) * parsed VPCFlow :=
  match columnMap with
  | None =>
      match isVpcFlowHeader log with
      | Some headers => (Some headers, (st, Ret (Some [])))
      | None => (None, (st, Ret None))
      end
  | Some headers =>
      let '(r, record) := reader_Parse space st.2 log in
      (columnMap,
       match record with
       | None => ((st.1, r), Ret None)
       | Some record =>
           match populateEvent headers (default 0%nat (lastRecord r)) record with
           | None => ((st.1, r), Panic "nil pointer dereference")
           | Some event =>
               (((NewRowID st.1).1, r),
                finish st.1 now "AWS.VPCFlow" (time_field event "start") event (vpc_update r event) (valid r))
           end
       end)
  end.

(** ** Readers *)

Record reader_ok (r : csvReader) : Prop := {
  ok_buffer : buffer r = NewStreamingCSVReader;
  ok_last id : lastRecord r = Some id → (id < length (arrays r))%nat
}.

Lemma NewReader_ok : reader_ok NewReader.
Proof. by split. Qed.

Definition one_line_string (s : string) : Prop := one_line (String.list_ascii_of_string s).

(** where the record is *)
Definition holds (r : csvReader) (record : list string) : Prop :=
  ∃ id arr, lastRecord r = Some id ∧ arrays r !! id = Some arr ∧ take (length record) arr = record.

Lemma store_ok r fields : reader_ok r → reader_ok (store r NewStreamingCSVReader fields).
Proof.
  intros [Hb Hl]. unfold store. case_decide; split; cbn; [done| |done|].
  - intros id [= <-]. rewrite length_app. cbn. lia.
  - destruct (lastRecord r) as [id|]; [|done]. rewrite length_insert. by apply Hl.
Qed.

Lemma store_holds r b fields : reader_ok r → fields ≠ [] → holds (store r b fields) fields.
Proof.
  intros [Hb Hl] Hne. unfold store, holds. case_decide as Hlen; cbn [lastRecord arrays].
  - exists (length (arrays r)), fields. split_and!; [done|by rewrite lookup_app_r, Nat.sub_diag by lia|by rewrite firstn_all].
  - destruct (lastRecord r) as [id|] eqn:El; [|destruct fields; [done|cbn in Hlen; lia]].
    eexists id, _. split_and!; [done|by rewrite list_lookup_insert_eq by auto|]. by rewrite take_app_length.
Qed.

(** a line of CSV and its values *)
Definition csv_line (c : ascii) (log : string) (record : list string) : Prop :=
  csv_text c (String.list_ascii_of_string log) (String.list_ascii_of_string <$> record).

(** as the classifier trims them *)
Record trimmed (log : string) : Prop := {
  trimmed_line : one_line_string log;
  trimmed_some : log ≠ "";
  trimmed_end : last (String.list_ascii_of_string log) ≠ Some return_byte
}.

(** a line is read by itself, into the array of the last record if it fits *)
Lemma reader_Parse_spec cfg r log :
  validDelim (Comma cfg) = true → reader_ok r → one_line_string log →
  ∃ r' record, reader_Parse cfg r log = (r', record) ∧ reader_ok r' ∧
    match record with
    | Some fields =>
        holds r' fields ∧ r' = store r NewStreamingCSVReader fields ∧
        (LazyQuotes cfg = false → trimmed log → csv_line (Comma cfg) log fields)
    | None => LazyQuotes cfg = false → trimmed log → ∀ fields, ¬ csv_line (Comma cfg) log fields
    end.
Proof.
  intros Hv Hok Hl. unfold reader_Parse, stream_Parse. rewrite (ok_buffer _ Hok).
  change {| unread := unread NewStreamingCSVReader; pendingEOF := _; rd := _ |} with (holding true (String.list_ascii_of_string log)).
  destruct (csv_Read_line cfg true _ Hv Hl) as (fs&err&->&Hne&Hcsv). destruct err as [err|].
  - assert (LazyQuotes cfg = false → trimmed log → ∀ fields, ¬ csv_line (Comma cfg) log fields) as Hnone.
    { intros Hz [_ Hs He] fields Hf. apply Hcsv in Hf; [|by destruct log|done|done]. by destruct Hf. }
    destruct err; eexists _, _; (split; [done|]); (split; [|exact Hnone]); try (by apply store_ok); by split.
  - eexists _, _. split; [done|]. split_and!; [by apply store_ok|apply store_holds; [done|]|done|].
    { specialize (Hne eq_refl). by destruct fs. }
    intros Hz [_ Hs He]. unfold csv_line.
    rewrite <-list_fmap_compose, (list_fmap_ext _ id fs), list_fmap_id by (intros ???; apply String.list_ascii_of_string_of_list_ascii).
    apply Hcsv; [|done..]. by destruct log.
Qed.

(** ** Columns of VPC flow logs *)

Lemma populate_other headers id columns i event event' header :
  populate headers id i columns event = Some event' →
  (∀ j c, columns !! j = Some c → default "" (headers !! (i + j)%nat) ≠ header) → event' !! header = event !! header.
Proof.
  revert i event. induction columns as [|c columns IH]; intros i event; cbn [populate]; [by intros [= ->]|].
  intros Hp Hno. assert (default "" (headers !! i) ≠ header) as Hi by (rewrite <-(Nat.add_0_r i); by apply (Hno 0%nat c)).
  assert (∀ j c, columns !! j = Some c → default "" (headers !! (S i + j)%nat) ≠ header) as Hrest.
  { intros j c' Hj. rewrite Nat.add_succ_comm. by apply (Hno (S j) c'). }
  destruct (vpc_kind (default "" (headers !! i))) as [[]|].
  - rewrite (IH _ _ Hp Hrest). by apply lookup_insert_ne.
  - rewrite (IH _ _ Hp Hrest). by apply lookup_insert_ne.
  - rewrite (IH _ _ Hp Hrest). case_decide; [by apply lookup_insert_ne|done].
  - destruct (atoi c); [|done]. rewrite (IH _ _ Hp Hrest). by apply lookup_insert_ne.
  - by apply (IH _ _ Hp Hrest).
Qed.

(** what the column [c] at [i] means for the field of its header *)
Definition column_value (id i : nat) (c : string) (kind : option vpcKind) (v : option vpcValue) : Prop :=
  match kind with
  | Some KInt => v = Some (VInt (CsvStringToIntPointer c))
  | Some KStr => v = Some (VStr (CsvStringToPointer c))
  | Some KAccount => v = if decide (c ≠ "-" ∧ c ≠ "unknown") then Some (VRef id i) else None
  | Some KTime => ∃ t, atoi c = Ok t ∧ v = Some (VTime (unix_time t 0))
  | None => v = None
  end.

Lemma populate_column headers id columns i event event' j c header :
  populate headers id i columns event = Some event' → columns !! j = Some c → headers !! (i + j)%nat = Some header →
  (∀ k, k ≠ (i + j)%nat → headers !! k ≠ Some header) → header ≠ "" → event !! header = None →
  column_value id (i + j) c (vpc_kind header) (event' !! header).
Proof.
  revert i j event. induction columns as [|c0 columns IH]; intros i j event; [done|]. intros Hp Hj Hh Honce Hne Hev.
  assert (∀ k x, columns !! k = Some x → default "" (headers !! (S i + k)%nat) ≠ header ∨ (S i + k = i + j)%nat) as Hlater.
  { intros k x Hk. destruct (decide (S i + k = i + j)%nat); [by right|left]. intros Hx.
    destruct (headers !! (S i + k)%nat) eqn:Ek; cbn in Hx; [subst; by eapply Honce|done]. }
  destruct j as [|j].
  - injection Hj as <-. rewrite Nat.add_0_r in *. cbn [populate] in Hp. rewrite Hh in Hp. change (default "" (Some header)) with header in Hp. unfold column_value.
    assert (∀ k x, columns !! k = Some x → default "" (headers !! (S i + k)%nat) ≠ header) as Hno.
    { intros k x Hk. destruct (Hlater k x Hk); [done|lia]. }
    destruct (vpc_kind header) as [[]|].
    + by rewrite (populate_other _ _ _ _ _ _ _ Hp Hno), lookup_insert_eq.
    + by rewrite (populate_other _ _ _ _ _ _ _ Hp Hno), lookup_insert_eq.
    + rewrite (populate_other _ _ _ _ _ _ _ Hp Hno). case_decide; [by rewrite lookup_insert_eq|done].
    + destruct (atoi c0) as [t|]; [|done]. exists t. by rewrite (populate_other _ _ _ _ _ _ _ Hp Hno), lookup_insert_eq.
    + by rewrite (populate_other _ _ _ _ _ _ _ Hp Hno).
  - cbn in Hj. rewrite <-Nat.add_succ_comm in *. cbn [populate] in Hp.
    assert (default "" (headers !! i) ≠ header) as Hi.
    { intros Hx. destruct (headers !! i) eqn:Ei; cbn in Hx; [|done]. subst. eapply (Honce i); [lia|done]. }
    destruct (vpc_kind (default "" (headers !! i))) as [[]|].
    1, 2: eapply IH; [done..|]; by rewrite lookup_insert_ne.
    + eapply IH; [done..|]. case_decide; [by rewrite lookup_insert_ne|done].
    + destruct (atoi c0); [|done]. eapply IH; [done..|]. by rewrite lookup_insert_ne.
    + by eapply IH.
Qed.

Lemma populate_none headers id columns i event :
  populate headers id i columns event = None →
  ∃ j c e, columns !! j = Some c ∧ vpc_kind (default "" (headers !! (i + j)%nat)) = Some KTime ∧ atoi c = Err e.
Proof.
  revert i event. induction columns as [|c columns IH]; intros i event; [done|]. cbn [populate].
  assert (∀ ev, populate headers id (S i) columns ev = None → ∃ j c' e, (c :: columns) !! j = Some c' ∧
    vpc_kind (default "" (headers !! (i + j)%nat)) = Some KTime ∧ atoi c' = Err e) as Hrest.
  { intros ev (j&c'&e&?&Hk&?)%IH. exists (S j), c', e. split_and!; [done| |done]. by rewrite <-Nat.add_succ_comm. }
  destruct (vpc_kind (default "" (headers !! i))) as [[]|] eqn:Ek; [by apply Hrest..| |by apply Hrest].
  destruct (atoi c) as [t|e] eqn:Ea; [by apply Hrest|]. intros _. exists 0%nat, c, e. by rewrite Nat.add_0_r.
Qed.

(** the fields of a log other than the indicators *)
Definition aws_core {Ev} (pl : AWSPantherLog Ev) :=
  let l := pantherLog pl in
  (event l, PantherLogType l, PantherRowID l, PantherEventTime l, PantherParseTime l,
   (PantherAnyDomainNames l, PantherAnySHA1Hashes l, PantherAnyMD5Hashes l)).

Lemma ip_ptr_spec {Ev} v (pl : AWSPantherLog Ev) :
  aws_core (ip_ptr v pl) = aws_core pl ∧ PantherAnyAWSAccountIds (ip_ptr v pl) = PantherAnyAWSAccountIds pl ∧
  PantherAnyAWSInstanceIds (ip_ptr v pl) = PantherAnyAWSInstanceIds pl ∧
  ∀ x, x ∈ contents (PantherAnyIPAddresses (pantherLog (ip_ptr v pl))) ↔
       x ∈ contents (PantherAnyIPAddresses (pantherLog pl)) ∨ v = Some x ∧ ParseIP x = true.
Proof.
  unfold ip_ptr, on_log, AppendAnyIPAddressPtr, AppendAnyIPAddress. cbn [pantherLog PantherAnyAWSAccountIds PantherAnyAWSInstanceIds].
  destruct v as [v|]; [destruct (ParseIP v) eqn:Hv|]; (split; [done|]); (split; [done|]); (split; [done|]); intros x.
  - cbn [fst set_ip PantherAnyIPAddresses]. rewrite lazy_append_contents. unfold nonempty. rewrite filter_cons.
    assert (v ≠ "") as Hne by (by intros ->). rewrite decide_True by done. cbn.
    split; [|intros [?|[[= ->] _]]; set_solver]. intros [?|Hx]%elem_of_union; [by left|right].
    assert (x = v) as -> by set_solver. done.
  - cbn. split; [by left|]. intros [?|[[= ->] ?]]; [done|congruence].
  - cbn. split; [by left|]. by intros [?|[? _]].
Qed.

Lemma ptr_contents {Ev} (append : AWSPantherLog Ev → list string → AWSPantherLog Ev) field v pl :
  (∀ pl l, contents (field (append pl l)) = contents (field pl) ∪ nonempty l) → contents (field pl) = ∅ →
  ∀ x, x ∈ contents (field (aws_ptrs append pl [v])) ↔ v = Some x ∧ x ≠ "".
Proof.
  intros Ha H0 x. destruct v as [v|]; cbn; [|rewrite H0; set_solver].
  rewrite Ha, H0. unfold nonempty. rewrite filter_cons. destruct (decide (v = "")) as [->|Hv].
  - rewrite decide_False by tauto. cbn. split; [set_solver|]. by intros [[= <-] ?].
  - rewrite decide_True by done. cbn. split; [|intros [[= ->] _]; set_solver].
    intros Hx. assert (x = v) as -> by set_solver. done.
Qed.

Lemma aws_ptrs_log {Ev} (append : AWSPantherLog Ev → list string → AWSPantherLog Ev) values pl :
  (∀ pl v, pantherLog (append pl v) = pantherLog pl) → pantherLog (aws_ptrs append pl values) = pantherLog pl.
Proof. intros Ha. revert pl. induction values as [|[v|] values IH]; intros pl; cbn; [done|by rewrite IH|done]. Qed.

(** the indicators of an event: its addresses, its account and its instance *)
Definition vpc_indicators (r : csvReader) (ev : VPCFlow) (pl : AWSPantherLog VPCFlow) : Prop :=
  (∀ x, x ∈ contents (PantherAnyIPAddresses (pantherLog pl)) ↔
     ParseIP x = true ∧ ∃ h, h ∈ ["srcaddr"; "dstaddr"; "pkt-srcaddr"; "pkt-dstaddr"] ∧ str_field ev h = Some x) ∧
  (∀ x, x ∈ contents (PantherAnyAWSAccountIds pl) ↔ account_field r ev = Some x ∧ x ≠ "") ∧
  ∀ x, x ∈ contents (PantherAnyAWSInstanceIds pl) ↔ str_field ev "instance-id" = Some x ∧ x ≠ "".

Lemma vpc_update_spec r ev pl :
  contents (PantherAnyIPAddresses (pantherLog pl)) = ∅ → contents (PantherAnyAWSAccountIds pl) = ∅ →
  contents (PantherAnyAWSInstanceIds pl) = ∅ →
  aws_core (vpc_update r ev pl) = aws_core pl ∧ vpc_indicators r ev (vpc_update r ev pl).
Proof.
  intros H1 H2 H3. unfold vpc_update.
  set (pl1 := AppendAnyAWSAccountIdPtrs pl [account_field r ev]).
  set (pl2 := AppendAnyAWSInstanceIdPtrs pl1 [str_field ev "instance-id"]).
  assert (pantherLog pl1 = pantherLog pl) as L1 by (by apply aws_ptrs_log).
  assert (pantherLog pl2 = pantherLog pl) as L2 by (unfold pl2, AppendAnyAWSInstanceIdPtrs; by rewrite aws_ptrs_log).
  assert (PantherAnyAWSInstanceIds pl1 = PantherAnyAWSInstanceIds pl) as I1 by (unfold pl1; by destruct (account_field r ev)).
  assert (PantherAnyAWSAccountIds pl2 = PantherAnyAWSAccountIds pl1) as A2 by (unfold pl2; by destruct (str_field ev "instance-id")).
  destruct (ip_ptr_spec (str_field ev "srcaddr") pl2) as (C3&A3&I3&P3). set (pl3 := ip_ptr _ pl2) in *.
  destruct (ip_ptr_spec (str_field ev "dstaddr") pl3) as (C4&A4&I4&P4). set (pl4 := ip_ptr _ pl3) in *.
  destruct (ip_ptr_spec (str_field ev "pkt-srcaddr") pl4) as (C5&A5&I5&P5). set (pl5 := ip_ptr _ pl4) in *.
  destruct (ip_ptr_spec (str_field ev "pkt-dstaddr") pl5) as (C6&A6&I6&P6). set (pl6 := ip_ptr _ pl5) in *.
  split; [rewrite C6, C5, C4, C3; unfold aws_core; by rewrite L2|]. split; [|split].
  - intros x. rewrite P6, P5, P4, P3, L2, H1. setoid_rewrite elem_of_cons. setoid_rewrite elem_of_cons.
    setoid_rewrite elem_of_cons. setoid_rewrite elem_of_cons. split.
    + intros [[[[?|[? ?]]|[? ?]]|[? ?]]|[? ?]]; [set_solver|..]; (split; [done|]); eexists; (split; [|done]); tauto.
    + intros (Hip&h&[->|[->|[->|[->|Hh]]]]&Hx); [tauto..|]. by apply not_elem_of_nil in Hh.
  - intros x. rewrite A6, A5, A4, A3, A2. apply ptr_contents; [|done]. intros. apply lazy_append_contents.
  - intros x. rewrite I6, I5, I4, I3. apply ptr_contents; [|by rewrite I1]. intros. apply lazy_append_contents.
Qed.

(** the log of an event before the indicators *)
Definition core_log {Ev} (now : Z) (logType rowID : string) (t : option Z) (ev : Ev) : AWSPantherLog Ev :=
  on_log (λ _, {| event := Some ev; PantherLogType := Some logType; PantherRowID := Some rowID;
                  PantherEventTime := Some (default now t); PantherParseTime := Some now; PantherAnyIPAddresses := None;
                  PantherAnyDomainNames := None; PantherAnySHA1Hashes := None; PantherAnyMD5Hashes := None |}) no_aws_fields.

Lemma finish_spec {Ev} s now logType t (ev : Ev) update valid rowID :
  (NewRowID s).2 = Ret rowID →
  finish s now logType t ev update valid =
  Ret (let pl := update (core_log now logType rowID t ev) in if valid pl then Some [pl] else None).
Proof.
  intros Hr. unfold finish, set_core, SetCoreFields. destruct (NewRowID s) as [s' r]. cbn in Hr. by subst r.
Qed.

(** the account that the event refers to, when the record was just read *)
Lemma account_read r id arr record ev i :
  arrays r !! id = Some arr → take (length record) arr = record → ev !! "account-id" = Some (VRef id i) → (i < length record)%nat →
  account_field r ev = record !! i.
Proof.
  intros Ha Ht Hev Hi. unfold account_field. rewrite Hev, Ha. cbn.
  pose proof (lookup_take_lt arr (length record) i Hi) as E. rewrite Ht in E. by rewrite E.
Qed.

(** the event of a line: every column that the header names is the value of
    its field, and no other field is set; the account is that of the line *)
Definition vpc_event (r : csvReader) (headers record : list string) (ev : VPCFlow) : Prop :=
  (∀ i header c, headers !! i = Some header → record !! i = Some c →
     column_value (default 0%nat (lastRecord r)) i c (vpc_kind header) (ev !! header)) ∧
  (∀ header, header ≠ "" → (∀ i c, headers !! i = Some header → record !! i = Some c → False) → ev !! header = None) ∧
  ∀ i c, headers !! i = Some "account-id" → record !! i = Some c →
    account_field r ev = if decide (c ≠ "-" ∧ c ≠ "unknown") then Some c else None.

(** its log: the standard fields, with the start of the flow as the time *)
Definition vpc_log (r : csvReader) (now : Z) (rowID log : string) (headers : list string) (pl : AWSPantherLog VPCFlow) : Prop :=
  ∃ ev record, csv_line " " log record ∧ holds r record ∧ vpc_event r headers record ev ∧
    aws_core pl = (Some ev, Some "AWS.VPCFlow", Some rowID, Some (default now (time_field ev "start")), Some now, (None, None, None)) ∧
    vpc_indicators r ev pl.

Lemma populate_event r headers record ev :
  NoDup headers → "" ∉ headers → holds r record →
  populateEvent headers (default 0%nat (lastRecord r)) record = Some ev → vpc_event r headers record ev.
Proof.
  intros Hnd Hnil Hh Ep.
  assert (∀ i header c, headers !! i = Some header → record !! i = Some c →
    column_value (default 0%nat (lastRecord r)) i c (vpc_kind header) (ev !! header)) as Hcol.
  { intros i header c Hi Hc. eapply (populate_column headers _ record 0 ∅ ev i); [done..| | |done].
    - intros k Hk Hkh. apply Hk. by eapply NoDup_lookup.
    - intros ->. apply Hnil. by eapply list_elem_of_lookup_2. }
  split; [done|]. split.
  - intros header Hne Hno. rewrite (populate_other _ _ _ _ _ _ header Ep); [done|].
    intros j c Hj Hd. cbn in Hd. destruct (headers !! j) as [h|] eqn:Ehj; cbn in Hd; [subst h; by eapply Hno|done].
  - intros i c Hi Hc. pose proof (Hcol _ _ _ Hi Hc) as Hv.
    change (vpc_kind "account-id") with (Some KAccount) in Hv. cbn [column_value] in Hv. destruct Hh as (id&arr&Hid&Ha&Ht).
    rewrite Hid in Hv. cbn [default from_option] in Hv. case_decide as Hd; [|unfold account_field; by rewrite Hv].
    rewrite (account_read _ _ _ _ _ _ Ha Ht Hv); [done|]. by eapply lookup_lt_Some.
Qed.


(** pointers are into the array of the record *)
Lemma populate_refs headers id columns i ev ev' :
  (∀ k id' j, ev !! k = Some (VRef id' j) → id' = id) → populate headers id i columns ev = Some ev' →
  ∀ k id' j, ev' !! k = Some (VRef id' j) → id' = id.
Proof.
  revert i ev. induction columns as [|c columns IH]; intros i ev Hev; cbn [populate]; [by intros [= <-]|].
  assert (∀ h v, (∀ id' j, v = VRef id' j → id' = id) → ∀ k id' j, <[h := v]> ev !! k = Some (VRef id' j) → id' = id) as Hins.
  { intros h v Hv k id' j [[_ Hx]|[_ Hx]]%lookup_insert_Some; [by eapply Hv|by eapply Hev]. }
  destruct (vpc_kind _) as [[]|].
  - apply IH, Hins. done.
  - apply IH, Hins. done.
  - apply IH. case_decide; [|done]. apply Hins. by intros ?? [= ->].
  - destruct (atoi c); [|done]. apply IH, Hins. done.
  - by apply IH.
Qed.

(** after the next record, which fits, the array holds that record *)
Lemma next_record_same_array cfg r log record r1 r2 log2 record2 :
  validDelim (Comma cfg) = true → reader_ok r → one_line_string log → one_line_string log2 →
  reader_Parse cfg r log = (r1, Some record) → reader_Parse cfg r1 log2 = (r2, Some record2) →
  (length record2 ≤ length record)%nat →
  ∃ id arr1 arr2, lastRecord r1 = Some id ∧ arrays r1 !! id = Some arr1 ∧ take (length record) arr1 = record ∧
    arrays r2 !! id = Some arr2 ∧ take (length record2) arr2 = record2.
Proof.
  intros Hv Hok Hl Hl2 H1 H2 Hi.
  destruct (reader_Parse_spec cfg r log Hv Hok Hl) as (r1'&rec1&E1&Hok1&Hrec1). rewrite H1 in E1.
  injection E1 as <- <-. destruct Hrec1 as ((id1&arr1&Hid1&Ha1&Ht1)&_&_).
  destruct (reader_Parse_spec cfg r1 log2 Hv Hok1 Hl2) as (r2'&rec2&E2&_&Hrec2). rewrite H2 in E2.
  injection E2 as <- <-. destruct Hrec2 as ((id2&arr2&Hid2&Ha2&Ht2)&Hst&_).
  assert (id2 = id1) as ->; [|by exists id1, arr1, arr2].
  rewrite Hst in Hid2. unfold store in Hid2. unfold array in Hid2. rewrite Hid1 in Hid2. cbn [mbind option_bind] in Hid2.
  rewrite Ha1 in Hid2. cbn [default from_option] in Hid2. apply (f_equal length) in Ht1. rewrite length_take in Ht1.
  rewrite decide_False in Hid2 by (unfold id; lia). cbn in Hid2. congruence.
Qed.

(** C36: the next line overwrites the account of an event.  AccountID points into
    the array that the reader reuses, so when the next line was read the event,
    which is written to S3 later, has the account column of that line. *)
Theorem vpcflow_account_overwritten r r1 r2 log log2 record record2 headers ev id i :
  reader_ok r → one_line_string log → one_line_string log2 →
  reader_Parse space r log = (r1, Some record) →
  populateEvent headers (default 0%nat (lastRecord r1)) record = Some ev → ev !! "account-id" = Some (VRef id i) →
  reader_Parse space r1 log2 = (r2, Some record2) → (i < length record2 ≤ length record)%nat →
  account_field r1 ev = record !! i ∧ account_field r2 ev = record2 !! i.
Proof.
  intros Hok Hl Hl2 H1 Hp Hev H2 Hi.
  destruct (next_record_same_array space r log record r1 r2 log2 record2) as (id1&arr1&arr2&Hid&Ha1&Ht1&Ha2&Ht2); [done..|lia|].
  assert (id = default 0%nat (lastRecord r1)) as ->.
  { eapply populate_refs; [|exact Hp|exact Hev]. intros k ??. by rewrite lookup_empty. }
  rewrite Hid in Hev.
  split; [apply (account_read _ _ _ _ _ _ Ha1 Ht1 Hev); lia|apply (account_read _ _ _ _ _ _ Ha2 Ht2 Hev); lia].
Qed.

(** what a slice of an array holds *)
Definition slice_field (r : csvReader) (slice : nat * nat * nat) : list string :=
  let '(id, low, high) := slice in take (high - low) (drop low (array r (Some id))).

(** goes through the columns that are read *)
Ltac columns := repeat match goal with
  | |- context [at_index ?record ?n] => destruct (at_index record n); [|discriminate]
  end.

Lemma s3a_event_slice time_Parse id record ev :
  s3a_event time_Parse id record = Ret (Some ev) →
  s3aAdditionalFields ev = if decide (25 < length record)%nat then Some (id, 25%nat, length record) else None.
Proof.
  unfold s3a_event, mbind, outcome_bind. do 2 (destruct (at_index record _); [|discriminate]).
  destruct (time_Parse _ _); [|done]. columns. by intros [= <-].
Qed.

(** the same for the additional fields of S3 server access *)
Theorem additional_fields_overwritten time_Parse r r1 r2 log log2 record record2 ev slice :
  reader_ok r → one_line_string log → one_line_string log2 →
  reader_Parse lazy_space r log = (r1, Some record) →
  s3a_event time_Parse (default 0%nat (lastRecord r1)) record = Ret (Some ev) → s3aAdditionalFields ev = Some slice →
  reader_Parse lazy_space r1 log2 = (r2, Some record2) → length record2 = length record →
  slice_field r1 slice = drop 25 record ∧ slice_field r2 slice = drop 25 record2.
Proof.
  intros Hok Hl Hl2 H1 Hp Hev H2 Hi.
  destruct (next_record_same_array lazy_space r log record r1 r2 log2 record2) as (id1&arr1&arr2&Hid&Ha1&Ht1&Ha2&Ht2); [done..|lia|].
  rewrite (s3a_event_slice _ _ _ _ Hp), Hid in Hev. case_decide; [|done]. injection Hev as <-.
  assert (∀ r arr (rec : list string), arrays r !! id1 = Some arr → take (length rec) arr = rec → length rec = length record →
    slice_field r (id1, 25%nat, length record) = drop 25 rec) as Hs.
  { intros r0 arr rec Ha Ht Hlen. unfold slice_field, array. cbn [mbind option_bind]. rewrite Ha. cbn [default from_option].
    rewrite <-Hlen. rewrite <-Ht at 2. by rewrite skipn_firstn_comm. }
  split; [by apply (Hs _ arr1)|by apply (Hs _ arr2)].
Qed.

(** ** The other parsers *)

Lemma at_index_lt record n : (n < length record)%nat → ∃ c, at_index record n = Ret c.
Proof. intros Hn. unfold at_index. destruct (lookup_lt_is_Some_2 _ _ Hn) as [c ->]. by exists c. Qed.

(** the columns that the guard on their number makes safe to read *)
Ltac safe_columns := repeat match goal with
  | |- context [at_index ?record ?n] =>
      let c := fresh "c" in let E := fresh "E" in destruct (at_index_lt record n) as [c E]; [lia|]; rewrite !E; clear E
  end.

Lemma alb_event_safe {F} time_Parse (ParseFloat : string → result F) record :
  (albMinNumberOfColumns ≤ length record)%nat → ∃ ev, alb_event time_Parse ParseFloat record = Ret ev.
Proof.
  unfold albMinNumberOfColumns. intros Hn. unfold alb_event, mbind, outcome_bind. safe_columns.
  repeat case_match; by eexists.
Qed.

Lemma s3a_event_safe time_Parse id record :
  (s3ServerAccessMinNumberOfColumns ≤ length record)%nat → ∃ ev, s3a_event time_Parse id record = Ret ev.
Proof.
  unfold s3ServerAccessMinNumberOfColumns. intros Hn. unfold s3a_event, mbind, outcome_bind. safe_columns.
  case_match; by eexists.
Qed.

Lemma aurora_event_safe ParseInt record :
  (auroraMySQLAuditMinNumberOfColumns ≤ length record)%nat → ∃ ev, aurora_event ParseInt record = Ret ev.
Proof.
  unfold auroraMySQLAuditMinNumberOfColumns. intros Hn. unfold aurora_event, mbind, outcome_bind.
  safe_columns. case_match; [|by eexists]. rewrite decide_False by lia. by eexists.
Qed.

Lemma access_event_safe time_Parse record : length record = accessNumberOfColumns → ∃ ev, access_event time_Parse record = Ret ev.
Proof.
  unfold accessNumberOfColumns. intros Hn. unfold access_event, mbind, outcome_bind. safe_columns. repeat case_match; by eexists.
Qed.

Lemma finish_returns {Ev} s now logType t (ev : Ev) update valid rowID :
  (NewRowID s).2 = Ret rowID → ∃ l, finish s now logType t ev update valid = Ret l.
Proof.
  intros Hr. unfold finish, set_core, SetCoreFields. destruct (NewRowID s) as [s' r]. cbn in Hr. subst r. by eexists.
Qed.

(** no line makes these parsers panic, whatever was read before *)
Theorem csv_parsers_return {F} time_Parse (ParseFloat : string → result F) ParseInt v1 v2 v3 v4 s r now log rowID :
  reader_ok r → one_line_string log → (NewRowID s).2 = Ret rowID →
  (∃ st l, ALB_Parse time_Parse ParseFloat v1 (s, r) now log = (st, Ret l) ∧ reader_ok st.2) ∧
  (∃ st l, S3ServerAccess_Parse time_Parse v2 (s, r) now log = (st, Ret l) ∧ reader_ok st.2) ∧
  (∃ st l, AuroraMySQLAudit_Parse ParseInt v3 (s, r) now log = (st, Ret l) ∧ reader_ok st.2) ∧
  ∃ s' l, Access_Parse time_Parse v4 s now log = (s', Ret l).
Proof.
  intros Hok Hl Hr. split_and!.
  - unfold ALB_Parse. cbn [fst snd]. destruct (reader_Parse_spec space r log eq_refl Hok Hl) as (r'&[record|]&->&Hok'&_); [|by eexists _, _].
    case_decide as Hn; [by eexists _, _|]. destruct (alb_event_safe time_Parse ParseFloat record) as [[ev|] ->]; [lia| |by eexists _, _].
    destruct (finish_returns s now "AWS.ALB" (albTimestamp ev) ev (alb_update ev) v1 rowID Hr) as [l ->]. by eexists _, _.
  - unfold S3ServerAccess_Parse. cbn [fst snd].
    destruct (reader_Parse_spec lazy_space r log eq_refl Hok Hl) as (r'&[record|]&->&Hok'&_); [|by eexists _, _].
    case_decide as Hn; [by eexists _, _|].
    destruct (s3a_event_safe time_Parse (default 0%nat (lastRecord r')) record) as [[ev|] ->]; [lia| |by eexists _, _].
    destruct (finish_returns s now "AWS.S3ServerAccess" (s3aTime ev) ev (s3a_update ev) v2 rowID Hr) as [l ->]. by eexists _, _.
  - unfold AuroraMySQLAudit_Parse. cbn [fst snd].
    destruct (reader_Parse_spec commas r log eq_refl Hok Hl) as (r'&[record|]&->&Hok'&_); [|by eexists _, _].
    case_decide as Hn; [by eexists _, _|]. destruct (aurora_event_safe ParseInt record) as [[ev|] ->]; [lia| |by eexists _, _].
    destruct (finish_returns s now "AWS.AuroraMySQLAudit" (aurTimestamp ev) ev (aurora_update ev) v3 rowID Hr) as [l ->]. by eexists _, _.
  - unfold Access_Parse. destruct (ReadAll _ _ _ _) as [[[|record [|]] [e|]]|]; try by eexists _, _.
    case_decide as Hn; [by eexists _, _|]. destruct (access_event_safe time_Parse (field_string <$> record)) as [[ev|] ->]; [lia| |by eexists _, _].
    unfold SetCoreFields. destruct (NewRowID s) as [s' q]. cbn in Hr. subst q. cbn. by eexists _, _.
Qed.

(** the time stamp of an audit record is its microseconds since 1970 *)
Theorem aurora_time micros :
  unix_time (Z.quot micros 1000000) (Z.rem micros 1000000 * 1000) = Unix 0 + micros * 1000.
Proof. unfold unix_time, Unix, Second. pose proof (Z.quot_rem' micros 1000000). lia. Qed.

(** every known header has a case, and only those *)
Theorem vpc_headers_handled : list_to_set vpc_columns.*1 = vpcFlowHeaders.
Proof. apply (bool_decide_unpack _). by vm_compute. Qed.

(** ** Examples *)

Definition demo_headers : list string := ["version"; "account-id"; "srcaddr"; "start"; "end"; "log-status"].
Definition demo_line (account : string) : string := "2 " +:+ account +:+ " 10.0.0.1 1431280876 1431280934 OK".
Definition demo_rows : RowId.pkg := {| nodeID := []; prefix := []; rowCounter := 0 |}.

Lemma demo_trimmed account : account = "111111111111" ∨ account = "222222222222" → trimmed (demo_line account).
Proof.
  intros [-> | ->];
    (split; [unfold one_line_string, one_line; apply (bool_decide_unpack _); by vm_compute|done|by vm_compute]).
Qed.

(** the account of the event Parse returns *)
Definition demo_account (r : option (list string) * parsed VPCFlow) : option string :=
  match r with
  | (_, (st, Ret (Some [pl]))) => event (pantherLog pl) ≫= account_field st.2
  | _ => None
  end.


Lemma vpcflow_account_overwritten_witness :
  ∃ r1 r2 record record2 ev,
    reader_Parse space NewReader (demo_line "111111111111") = (r1, Some record) ∧
    populateEvent demo_headers (default 0%nat (lastRecord r1)) record = Some ev ∧
    reader_Parse space r1 (demo_line "222222222222") = (r2, Some record2) ∧
    account_field r1 ev = Some "111111111111" ∧ account_field r2 ev = Some "222222222222".
Proof.
  destruct (reader_Parse space NewReader (demo_line "111111111111")) as [r1 [record|]] eqn:E1; [|vm_compute in E1; discriminate].
  vm_compute in E1. injection E1 as <- <-. set (r1 := {| buffer := _ |}). set (record := [_; _; _; _; _; _]).
  assert ((populateEvent demo_headers (default 0%nat (lastRecord r1)) record ≫= lookup "account-id") = Some (VRef 0 1)) as Hacc
    by (vm_compute; reflexivity).
  destruct (populateEvent demo_headers (default 0%nat (lastRecord r1)) record) as [ev|] eqn:Ep; [|discriminate Hacc].
  destruct (reader_Parse space r1 (demo_line "222222222222")) as [r2 [record2|]] eqn:E2; [|vm_compute in E2; discriminate].
  destruct (vpcflow_account_overwritten NewReader r1 r2 (demo_line "111111111111") (demo_line "222222222222") record record2
              demo_headers ev 0 1) as [H1 H2].
  - exact NewReader_ok.
  - apply demo_trimmed. left. reflexivity.
  - apply demo_trimmed. right. reflexivity.
  - vm_compute. reflexivity.
  - exact Ep.
  - exact Hacc.
  - exact E2.
  - vm_compute in E2. injection E2 as _ <-. vm_compute. lia.
  - exists r1, r2, record, record2, ev. split; [reflexivity|]. split; [exact Ep|]. split; [exact E2|].
    split; [exact H1|]. vm_compute in E2. injection E2 as _ Hrec. rewrite <-Hrec in H2. exact H2.
Defined.
