(* ===== verification/IamUsers.v ===== *)
(** * The poller of IAM users

    Model of src/internal/compliance/snapshot_poller/pollers/aws/iam_user.go: the
    credential report of an account, the virtual MFA devices, and the snapshots of
    the users and of the root user, for the scan of a whole account and for a single
    user.  IAM and the parsers of times are parameters; calls of utils.Requeue are
    recorded.  The theorems show which resources a scan finds and which scans it asks
    for again, and what a failed call leaves out. *)

From S2P Require Import Prelude GoTime Backoff CsvReader AlertOutputs Sqsbatch SnapshotPoller.

#[local] Open Scope Z_scope.
#[local] Set Default Proof Using "Type".

(** ** Data *)

(** awsmodels.IAMCredentialReport; every pointer is set *)
Record IAMCredentialReport := {
  crUserName : string; crARN : string; crUserCreationTime : Time; crPasswordEnabled : bool; crPasswordLastUsed : Time;
  crPasswordLastChanged : Time; crPasswordNextRotation : Time; crMfaActive : bool; crAccessKey1Active : bool;
  crAccessKey1LastRotated : Time; crAccessKey1LastUsedDate : Time; crAccessKey1LastUsedRegion : string;
  crAccessKey1LastUsedService : string; crAccessKey2Active : bool; crAccessKey2LastRotated : Time;
  crAccessKey2LastUsedDate : Time; crAccessKey2LastUsedRegion : string; crAccessKey2LastUsedService : string;
  crCert1Active : bool; crCert1LastRotated : Time; crCert2Active : bool; crCert2LastRotated : Time
}.

Record VirtualMFADevice := { vmEnableDate : option Time; vmSerialNumber : option string }.

(** iam.VirtualMFADevice; its user, as far as it is used *)
Record mfaDevice := { mdEnableDate : option Time; mdSerialNumber : option string; mdUserId : option (option string) }.

(** iam.User; [B]: iam.AttachedPermissionsBoundary *)
Record iamUser (B : Type) := {
  iuArn : option string; iuCreateDate : option Time; iuPasswordLastUsed : option Time; iuPath : option string;
  iuPermissionsBoundary : option B; iuTags : list (option (option string * option string)); iuUserId : option string;
  iuUserName : option string
}.
Arguments iuArn {B}. Arguments iuCreateDate {B}. Arguments iuPasswordLastUsed {B}. Arguments iuPath {B}.
Arguments iuPermissionsBoundary {B}. Arguments iuTags {B}. Arguments iuUserId {B}. Arguments iuUserName {B}.

(** awsmodels.GenericResource and GenericAWSResource *)
Record GenericResource := { grResourceID : option string; grResourceType : string; grTimeCreated : Time }.
Record GenericAWSResource := {
  gaAccountID : option string; gaRegion : string; gaARN : option string; gaID : option string; gaName : option string;
  gaTags : option (gmap string (option string))
}.

(** awsmodels.IAMUser, and IAMRootUser; [G]: iam.Group *)
Record IAMUser (B G : Type) := {
  isAWS : GenericAWSResource; isResource : GenericResource; isPasswordLastUsed : option Time; isPath : option string;
  isPermissionsBoundary : option B; isCredentialReport : option IAMCredentialReport; isGroups : list G;
  isInlinePolicies : option (gmap string (option string)); isManagedPolicyNames : list (option string);
  isVirtualMFA : option VirtualMFADevice
}.
Arguments isAWS {B G}. Arguments isResource {B G}. Arguments isPasswordLastUsed {B G}. Arguments isPath {B G}.
Arguments isPermissionsBoundary {B G}. Arguments isCredentialReport {B G}. Arguments isGroups {B G}.
Arguments isInlinePolicies {B G}. Arguments isManagedPolicyNames {B G}. Arguments isVirtualMFA {B G}.

Record IAMRootUser := {
  rsAWS : GenericAWSResource; rsResource : GenericResource; rsCredentialReport : IAMCredentialReport;
  rsVirtualMFA : option VirtualMFADevice
}.

Inductive snapshot (B G : Type) := UserSnapshot (u : IAMUser B G) | RootSnapshot (r : IAMRootUser).
Arguments UserSnapshot {B G}. Arguments RootSnapshot {B G}.

Definition credentialReportRequeueDelaySeconds : Z := 90.
Definition rootAccountNameCredReport : string := "<root_account>".
Definition rootDeviceSerialSuffix : string := ":mfa/root-account-mfa-device".
Definition IAMUserSchema : string := "AWS.IAM.User".
Definition IAMRootUserSchema : string := "AWS.IAM.RootUser".
Definition GlobalRegion : string := "global".

Definition error_code (e : error) : string := match e with ErrAWS code _ => code | _ => "" end.

(** ** The credential report *)

Section Report.
Context (ParseTimeRFC3339 : string → Time).

(** strconv.ParseBool *)
Definition ParseBool (s : string) : option bool :=
  if decide (s ∈ ["1"; "t"; "T"; "TRUE"; "true"; "True"]) then Some true
  else if decide (s ∈ ["0"; "f"; "F"; "FALSE"; "false"; "False"]) then Some false
  else None.
Definition parseCredReportBool (field : string) : bool := default false (ParseBool field).

(** csv.NewReader(...).ReadAll(): every record must have as many fields as the first *)
Definition csv_rows (content : string) : result (list (list string)) :=
  let bytes := String.list_ascii_of_string content in
  match ReadAll {| Comma := ","; LazyQuotes := false |} (S (S (length bytes))) (strings_reader bytes) [] with
  | Some (rows, None) =>
      let rows := fmap (M := list) String.string_of_list_ascii <$> rows in
      if forallb (λ row, Nat.eqb (length row) (length (hd [] rows))) rows then Ok rows
      else Err (ErrMsg "wrong number of fields")
  | _ => Err (ErrMsg "csv: parse error")
  end.

Definition report_of (row : list string) : option IAMCredentialReport :=
  let time := ParseTimeRFC3339 in
  let bool := parseCredReportBool in
  match row with
  | [f0; f1; f2; f3; f4; f5; f6; f7; f8; f9; f10; f11; f12; f13; f14; f15; f16; f17; f18; f19; f20; f21] =>
      Some {| crUserName := f0; crARN := f1; crUserCreationTime := time f2; crPasswordEnabled := bool f3;
              crPasswordLastUsed := time f4; crPasswordLastChanged := time f5; crPasswordNextRotation := time f6;
              crMfaActive := bool f7; crAccessKey1Active := bool f8; crAccessKey1LastRotated := time f9;
              crAccessKey1LastUsedDate := time f10; crAccessKey1LastUsedRegion := f11; crAccessKey1LastUsedService := f12;
              crAccessKey2Active := bool f13; crAccessKey2LastRotated := time f14; crAccessKey2LastUsedDate := time f15;
              crAccessKey2LastUsedRegion := f16; crAccessKey2LastUsedService := f17; crCert1Active := bool f18;
              crCert1LastRotated := time f19; crCert2Active := bool f20; crCert2LastRotated := time f21 |}
  | _ => None
  end.

(** rows of another length are skipped *)
Definition report_map (rows : list (list string)) : gmap string IAMCredentialReport :=
  foldl (λ m row, match report_of row with Some r => <[crUserName r := r]> m | None => m end) ∅ rows.

Definition extractCredentialReport (content : string) : outcome (result (gmap string IAMCredentialReport)) :=
  match csv_rows content with
  | Err e => Ret (Err e)
  | Ok [] => Panic "slice bounds out of range"
  | Ok (_ :: rows) => Ret (Ok (report_map rows))
  end.
End Report.

(** ** The poller *)

Record istate (W : Type) := {
  userCredentialReports : option (gmap string IAMCredentialReport);
  mfaDeviceMapping : option (gmap string VirtualMFADevice);
  requeued : list (list ScanEntry * Z);
  world : W
}.
Arguments userCredentialReports {W}. Arguments mfaDeviceMapping {W}. Arguments requeued {W}. Arguments world {W}.

(** the calls of IAM; the pages of a listing, and the error it ends with *)
Class IAM (W B G : Type) := {
  GetUser : W → option string → W * result (iamUser B);
  GetCredentialReport : W → W * result string;
  GenerateCredentialReport : W → W * result (option string);
  ListUsersPages : W → W * (list (list (iamUser B)) * option error);
  ListUserPoliciesPages : W → option string → W * (list (list (option string)) * option error);
  ListAttachedUserPoliciesPages : W → option string → W * (list (list (option string)) * option error);
  ListVirtualMFADevicesPages : W → W * (list (list mfaDevice) * option error);
  ListGroupsForUserPages : W → option string → W * (list (list G) * option error);
  GetUserPolicy : W → option string → option string → W * result (option string)
}.

(** state passing with panics *)
Definition M (W A : Type) : Type := istate W → outcome (istate W * A).
#[export] Instance M_ret {W} : MRet (M W) := λ A a s, Ret (s, a).
#[export] Instance M_bind {W} : MBind (M W) := λ A B f m s, match m s with Ret (s, a) => f a s | Panic why => Panic why end.

Section Poller.
Context {W B G : Type} `{IAM W B G} `{Backoff}.
Context (ParseTimeRFC3339 : string → Time) (QueryUnescape : string → result string) (ParseARN : string → result string).
(** getIAMClient *)
Context (getIAMClient : W → ResourcePollerInput → W * option error).

Definition with_world (s : istate W) (w : W) : istate W :=
  {| userCredentialReports := userCredentialReports s; mfaDeviceMapping := mfaDeviceMapping s; requeued := requeued s; world := w |}.
Definition with_reports (s : istate W) r : istate W :=
  {| userCredentialReports := r; mfaDeviceMapping := mfaDeviceMapping s; requeued := requeued s; world := world s |}.
Definition with_mfa (s : istate W) m : istate W :=
  {| userCredentialReports := userCredentialReports s; mfaDeviceMapping := m; requeued := requeued s; world := world s |}.

Definition call {A} (f : W → W * A) : M W A := λ s, let '(w, a) := f (world s) in Ret (with_world s w, a).
Definition lift {A} (o : outcome A) : M W A := λ s, match o with Ret a => Ret (s, a) | Panic why => Panic why end.
Definition get : M W (istate W) := λ s, Ret (s, s).
Definition modify (f : istate W → istate W) : M W unit := λ s, Ret (f s, tt).

(** utils.Requeue *)
Definition requeue (entry : ScanEntry) (delay : Z) : M W unit :=
  modify (λ s, {| userCredentialReports := userCredentialReports s; mfaDeviceMapping := mfaDeviceMapping s;
                  requeued := requeued s ++ [([entry], delay)]; world := world s |}).

Definition getUser (userName : option string) : M W (option (iamUser B)) :=
  r ← call (λ w, GetUser w userName);
  match r with
  | Ok user => mret (Some user)
  | Err e => if String.eqb (error_code e) "NoSuchEntity" then _ ← lift (deref userName); mret None else mret None
  end.

(** until the report is complete; a failed call ends it *)
Definition generate_operation : operation (istate W) := λ s,
  let '(w, r) := GenerateCredentialReport (world s) in
  match r with
  | Err e => Ret (with_world s w, Some (ErrPermanent e))
  | Ok None => Panic "nil pointer dereference"
  | Ok (Some state) => Ret (with_world s w, if String.eqb state "COMPLETE" then None else Some (ErrMsg "report in progress"))
  end.
Definition generateCredentialReport : M W (option error) := λ s, Retry generate_operation s.

Definition buildCredentialReport : M W (result (gmap string IAMCredentialReport)) :=
  r ← call GetCredentialReport;
  match r with
  | Ok content => lift (extractCredentialReport ParseTimeRFC3339 content)
  | Err e =>
      if decide (error_code e ∈ ["ReportNotPresent"; "ReportExpired"]) then
        err ← generateCredentialReport;
        match err with
        | Some e => mret (Err e)
        | None =>
            r ← call GetCredentialReport;
            match r with
            | Err e => mret (Err e)
            | Ok content => lift (extractCredentialReport ParseTimeRFC3339 content)
            end
        end
      else mret (Err e)
  end.

(** an error of the listing is only logged *)
Definition listUsers : M W (list (iamUser B)) := r ← call ListUsersPages; mret (concat r.1).

(** the error of the first listing is overwritten *)
Definition getUserPolicies (userName : option string) : M W (list (option string) * list (option string) * option error) :=
  inline ← call (λ w, ListUserPoliciesPages w userName);
  managed ← call (λ w, ListAttachedUserPoliciesPages w userName);
  mret (concat inline.1, concat managed.1, managed.2).

Definition mfa_map (devices : list mfaDevice) : gmap string VirtualMFADevice :=
  foldl (λ m d, match mdUserId d with
                | Some (Some id) => <[id := {| vmEnableDate := mdEnableDate d; vmSerialNumber := mdSerialNumber d |}]> m
                | _ => m
                end) ∅ devices.

Definition listVirtualMFADevices : M W (result (gmap string VirtualMFADevice)) :=
  r ← call ListVirtualMFADevicesPages;
  mret (match r.2 with Some e => Err e | None => Ok (mfa_map (concat r.1)) end).

Definition listGroupsForUser (userName : option string) : M W (list G) :=
  r ← call (λ w, ListGroupsForUserPages w userName); mret (concat r.1).

Definition getUserPolicy (userName policyName : option string) : M W (option string) :=
  r ← call (λ w, GetUserPolicy w userName policyName);
  match r with
  | Err _ => mret None
  | Ok document =>
      document ← lift (deref document);
      match QueryUnescape document with
      | Err _ => _ ← lift (deref policyName); _ ← lift (deref userName); mret None
      | Ok decoded => mret (Some decoded)
      end
  end.

Fixpoint inline_policies (userName : option string) (names : list (option string)) (m : gmap string (option string))
    : M W (gmap string (option string)) :=
  match names with
  | [] => mret m
  | name :: names =>
      document ← getUserPolicy userName name;
      n ← lift (deref name);
      inline_policies userName names (<[n := document]> m)
  end.

Definition buildIAMUserSnapshot (user : option (iamUser B)) : M W (option (IAMUser B G)) :=
  match user with
  | None => mret None
  | Some user =>
      created ← lift (deref (iuCreateDate user));
      tags ← lift (ParseTagSlice ∅ (iuTags user));
      policies ← getUserPolicies (iuUserName user);
      let '(inlineNames, managed, err) := policies in
      inline ← match err with
               | Some _ => mret None
               | None =>
                   if decide (inlineNames = []) then mret None
                   else m ← inline_policies (iuUserName user) inlineNames ∅; mret (Some m)
               end;
      s ← get;
      report ← match userCredentialReports s with
               | None => mret None
               | Some reports => name ← lift (deref (iuUserName user)); mret (reports !! name)
               end;
      mfa ← match mfaDeviceMapping s with
            | None => mret None
            | Some devices => id ← lift (deref (iuUserId user)); mret (devices !! id)
            end;
      groups ← listGroupsForUser (iuUserName user);
      mret (Some {|
        isAWS := {| gaAccountID := None; gaRegion := GlobalRegion; gaARN := iuArn user; gaID := iuUserId user;
                    gaName := iuUserName user; gaTags := tags |};
        isResource := {| grResourceID := iuArn user; grResourceType := IAMUserSchema; grTimeCreated := created |};
        isPasswordLastUsed := iuPasswordLastUsed user; isPath := iuPath user;
        isPermissionsBoundary := iuPermissionsBoundary user; isCredentialReport := report; isGroups := groups;
        isInlinePolicies := inline; isManagedPolicyNames := match err with Some _ => [] | None => managed end;
        isVirtualMFA := mfa |})
  end.

(** the last device of the iteration [order] of the map that is the root's *)
Fixpoint root_device (order : list (string * VirtualMFADevice)) (found : option (string * VirtualMFADevice))
    : outcome (option (string * VirtualMFADevice)) :=
  match order with
  | [] => Ret found
  | (id, d) :: order =>
      serial ← deref (vmSerialNumber d);
      root_device order (if has_suffix rootDeviceSerialSuffix serial then Some (id, d) else found)
  end.

Definition buildIAMRootUserSnapshot : M W (option IAMRootUser) :=
  s ← get;
  match default ∅ (userCredentialReports s) !! rootAccountNameCredReport with
  | None => mret None
  | Some report =>
      match ParseARN (crARN report) with
      | Err _ => mret None
      | Ok account =>
          device ← lift (root_device (map_to_list (default ∅ (mfaDeviceMapping s))) None);
          mret (Some {|
            rsAWS := {| gaAccountID := Some account; gaRegion := GlobalRegion; gaARN := Some (crARN report);
                        gaID := fst <$> device; gaName := Some (crUserName report); gaTags := None |};
            rsResource := {| grResourceID := Some (crARN report); grResourceType := IAMRootUserSchema;
                             grTimeCreated := crUserCreationTime report |};
            rsCredentialReport := report; rsVirtualMFA := snd <$> device |})
      end
  end.

Definition with_account (account : string) (u : IAMUser B G) : IAMUser B G :=
  {| isAWS := {| gaAccountID := Some account; gaRegion := gaRegion (isAWS u); gaARN := gaARN (isAWS u); gaID := gaID (isAWS u);
                 gaName := gaName (isAWS u); gaTags := gaTags (isAWS u) |};
     isResource := isResource u; isPasswordLastUsed := isPasswordLastUsed u; isPath := isPath u;
     isPermissionsBoundary := isPermissionsBoundary u; isCredentialReport := isCredentialReport u; isGroups := isGroups u;
     isInlinePolicies := isInlinePolicies u; isManagedPolicyNames := isManagedPolicyNames u; isVirtualMFA := isVirtualMFA u |}.

Definition scan_of (account : string) (integration resource : option string) (schema : string) : ScanEntry :=
  {| scAWSAccountID := Some account; scIntegrationID := integration; scRegion := None; scResourceID := resource;
     scResourceType := Some schema; scScanAllResources := None |}.

Definition generated (attributes : snapshot B G) (id integration schema : string) : GeneratedEntry (snapshot B G) :=
  {| geAttributes := attributes; geID := id; geIntegrationID := integration; geIntegrationType := "aws"; geType := schema |}.

(** the snapshot of each user; [account]: that of the role that polls *)
Fixpoint user_entries (input : ResourcePollerInput) (account : string) (users : list (iamUser B))
    : M W (list (GeneratedEntry (snapshot B G))) :=
  match users with
  | [] => mret []
  | user :: users =>
      fullUser ← getUser (iuUserName user);
      snap ← buildIAMUserSnapshot fullUser;
      match snap with
      | None => user_entries input account users
      | Some snap =>
          let snap := with_account account snap in
          _ ← match isCredentialReport snap with
              | None => requeue (scan_of account (riIntegrationID input) (grResourceID (isResource snap)) IAMUserSchema) MaxRequeueDelaySeconds
              | Some _ => mret tt
              end;
          arn ← lift (deref (iuArn user));
          integration ← lift (deref (riIntegrationID input));
          rest ← user_entries input account users;
          mret (generated (UserSnapshot snap) arn integration IAMUserSchema :: rest)
      end
  end.

Definition PollIAMUsers (input : ResourcePollerInput) (account : string)
    : M W (result (option (list (GeneratedEntry (snapshot B G))))) :=
  err ← call (λ w, getIAMClient w input);
  match err with
  | Some e => mret (Err e)
  | None =>
      users ← listUsers;
      reports ← buildCredentialReport;
      _ ← modify (λ s, with_reports s (match reports with Ok m => Some m | Err _ => None end));
      match reports with
      | Err e =>
          if String.eqb (error_code e) "LimitExceeded" then
            _ ← requeue (scan_of account (riIntegrationID input) None IAMUserSchema) credentialReportRequeueDelaySeconds;
            mret (Ok None)
          else mret (Err e)
      | Ok _ =>
          devices ← listVirtualMFADevices;
          _ ← modify (λ s, with_mfa s (match devices with Ok m => Some m | Err _ => None end));
          match devices with
          | Err e => mret (Err e)
          | Ok _ =>
              resources ← user_entries input account users;
              root ← buildIAMRootUserSnapshot;
              match root with
              | None =>
                  _ ← requeue (scan_of account (riIntegrationID input) None IAMRootUserSchema) MaxRequeueDelaySeconds;
                  mret (Ok (Some resources))
              | Some root =>
                  arn ← lift (deref (gaARN (rsAWS root)));
                  integration ← lift (deref (riIntegrationID input));
                  mret (Ok (Some (resources ++ [generated (RootSnapshot root) arn integration IAMRootUserSchema])))
              end
          end
      end
  end.

(** the two caches, for a single resource *)
Definition refresh_mfa : M W (option error) :=
  devices ← listVirtualMFADevices;
  _ ← modify (λ s, with_mfa s (match devices with Ok m => Some m | Err _ => None end));
  mret (match devices with Ok _ => None | Err e => Some e end).
Definition refresh_reports : M W (option error) :=
  reports ← buildCredentialReport;
  _ ← modify (λ s, with_reports s (match reports with Ok m => Some m | Err _ => None end));
  mret (match reports with Ok _ => None | Err e => Some e end).

(** PollIAMUser: the snapshot, and the scan request with its resource *)
Definition PollIAMUser (input : ResourcePollerInput) (resource account : string) (scanRequest : ScanEntry)
    : M W (result (option (IAMUser B G)) * ScanEntry) :=
  err ← call (λ w, getIAMClient w input);
  match err with
  | Some e => mret (Err e, scanRequest)
  | None =>
      user ← getUser (Some (List.last (split_on "/" resource) ""));
      err ← refresh_mfa;
      match err with
      | Some e => mret (Err e, scanRequest)
      | None =>
          err ← refresh_reports;
          match err with
          | Some e =>
              if String.eqb (error_code e) "LimitExceeded" then
                _ ← lift (deref (scResourceID scanRequest));
                _ ← requeue scanRequest credentialReportRequeueDelaySeconds; mret (Err e, scanRequest)
              else mret (Err e, scanRequest)
          | None =>
              snap ← buildIAMUserSnapshot user;
              match snap with
              | None => mret (Ok None, scanRequest)
              | Some snap =>
                  _ ← match isCredentialReport snap with
                      | None => requeue scanRequest MaxRequeueDelaySeconds
                      | Some _ => mret tt
                      end;
                  mret (Ok (Some (with_account account snap)),
                        {| scAWSAccountID := scAWSAccountID scanRequest; scIntegrationID := scIntegrationID scanRequest;
                           scRegion := scRegion scanRequest; scResourceID := grResourceID (isResource snap);
                           scResourceType := scResourceType scanRequest; scScanAllResources := scScanAllResources scanRequest |})
              end
          end
      end
  end.

Definition PollIAMRootUser (input : ResourcePollerInput) (scanRequest : ScanEntry) : M W (result (option IAMRootUser) * ScanEntry) :=
  err ← call (λ w, getIAMClient w input);
  match err with
  | Some e => mret (Err e, scanRequest)
  | None =>
      err ← refresh_mfa;
      match err with
      | Some e => mret (Err e, scanRequest)
      | None =>
          err ← refresh_reports;
          match err with
          | Some e => mret (Err e, scanRequest)
          | None =>
              root ← buildIAMRootUserSnapshot;
              match root with
              | None => _ ← requeue scanRequest MaxRequeueDelaySeconds; mret (Ok None, scanRequest)
              | Some root =>
                  mret (Ok (Some root),
                        {| scAWSAccountID := scAWSAccountID scanRequest; scIntegrationID := scIntegrationID scanRequest;
                           scRegion := scRegion scanRequest; scResourceID := grResourceID (rsResource root);
                           scResourceType := scResourceType scanRequest; scScanAllResources := scScanAllResources scanRequest |})
              end
          end
      end
  end.
End Poller.

(** ** Theorems *)

Section Spec.
Context {W B G : Type} `{IAM W B G} `{Backoff}.
Context (ParseTimeRFC3339 : string → Time) (QueryUnescape : string → result string) (ParseARN : string → result string).
Context (getIAMClient : W → ResourcePollerInput → W * option error).

(** *** Runs that only read, and ask for scans *)

Definition advance (s : istate W) (w : W) (q : list (list ScanEntry * Z)) : istate W :=
  {| userCredentialReports := userCredentialReports s; mfaDeviceMapping := mfaDeviceMapping s;
     requeued := requeued s ++ q; world := w |}.

(** [m] returns a value of [P] and asks for the scans [q] *)
Definition runs {A} (m : M W A) (s : istate W) (q : list (list ScanEntry * Z)) (P : A → Prop) : Prop :=
  ∃ w a, m s = Ret (advance s w q, a) ∧ P a.

Lemma advance_nil s : advance s (world s) [] = s.
Proof using Type. clear. unfold advance. rewrite app_nil_r. by destruct s. Qed.

Lemma runs_bind {A A'} (m : M W A) (k : A → M W A') s q1 q2 P Q :
  runs m s q1 P → (∀ w a, P a → runs (k a) (advance s w q1) q2 Q) → runs (m ≫= k) s (q1 ++ q2) Q.
Proof using Type.
  clear. intros (w&a&Hm&Ha) Hk. destruct (Hk w a Ha) as (w'&a'&Hk'&HQ). exists w', a'. split; [|done].
  unfold mbind, M_bind. rewrite Hm, Hk'. unfold advance. simpl. by rewrite <-app_assoc.
Qed.

(** the common case: no scans in the first part *)
Lemma runs_read {A A'} (m : M W A) (k : A → M W A') s q P Q :
  runs m s [] P → (∀ w a, P a → runs (k a) (advance s w []) q Q) → runs (m ≫= k) s q Q.
Proof using Type. clear. intros Hm Hk. rewrite <-(app_nil_l q). by eapply runs_bind. Qed.

(** and none in the last *)
Lemma runs_last {A A'} (m : M W A) (k : A → M W A') s q P Q :
  runs m s q P → (∀ w a, P a → runs (k a) (advance s w q) [] Q) → runs (m ≫= k) s q Q.
Proof using Type. clear. intros Hm Hk. rewrite <-(app_nil_r q). by eapply runs_bind. Qed.

Lemma runs_ret {A} (a : A) s (P : A → Prop) : P a → runs (mret a) s [] P.
Proof using Type. clear. intros Ha. exists (world s), a. by rewrite advance_nil. Qed.

Lemma runs_call {A} (f : W → W * A) s (P : A → Prop) : (∀ w, P (f w).2) → runs (call f) s [] P.
Proof using Type.
  clear. intros Hf. specialize (Hf (world s)). unfold runs, call. destruct (f (world s)) as [w a]. exists w, a.
  split; [|done]. unfold advance, with_world. by rewrite app_nil_r.
Qed.

Lemma runs_lift {A} (o : outcome A) a s (P : A → Prop) : o = Ret a → P a → runs (lift o) s [] P.
Proof using Type. clear. intros -> Ha. exists (world s), a. by rewrite advance_nil. Qed.

Lemma runs_deref {A} (p : option A) s (P : A → Prop) : is_Some p → (∀ a, p = Some a → P a) → runs (lift (deref p)) s [] P.
Proof using Type. clear. intros [a ->] Ha. eapply runs_lift; [done|]. by apply Ha. Qed.

Lemma runs_requeue entry delay s : runs (requeue entry delay) s [([entry], delay)] (λ _, True).
Proof using Type. clear. by exists (world s), tt. Qed.

Lemma runs_weaken {A} (m : M W A) s q (P Q : A → Prop) : runs m s q P → (∀ a, P a → Q a) → runs m s q Q.
Proof using Type. clear. intros (w&a&?&?) HPQ. exists w, a. auto. Qed.

(** *** Answers of IAM *)

(** IAM sets the fields that identify a user *)
Record user_set (u : iamUser B) : Prop := {
  us_created : is_Some (iuCreateDate u); us_name : is_Some (iuUserName u); us_id : is_Some (iuUserId u);
  us_tags : Forall (λ t, ∀ k v, t = Some (k, v) → is_Some k) (iuTags u)
}.

(** the answers stay the same during a scan *)
Record stable (user : option string → result (iamUser B)) : Prop := {
  st_user w name : (GetUser w name).2 = user name;
  st_set name u : user name = Ok u → user_set u;
  st_policies w name : Forall is_Some (concat (ListUserPoliciesPages w name).2.1);
  st_document w name policy document : (GetUserPolicy w name policy).2 = Ok document → is_Some document
}.

Context (user : option string → result (iamUser B)) (Hstable : stable user).

Lemma ParseTagSlice_returns tags (slice : list (option (option string * option string))) :
  Forall (λ t, ∀ k v, t = Some (k, v) → is_Some k) slice → ∃ t, ParseTagSlice tags slice = Ret t.
Proof using Type.
  clear. intros Hs. revert tags. induction Hs as [|t slice Ht _ IH]; intros tags; simpl; [eauto|].
  destruct t as [[k v]|]; [|eauto]. destruct (Ht k v eq_refl) as [k' ->]. simpl. apply IH.
Qed.

Lemma getUserPolicy_runs name policy s : is_Some name → is_Some policy →
  runs (getUserPolicy QueryUnescape name policy) s [] (λ _, True).
Proof using Type*.
  intros Hn Hp. unfold getUserPolicy.
  apply (runs_read _ _ _ _ (λ r, ∀ document, r = Ok document → is_Some document)).
  { apply runs_call. intros w document. by eapply st_document. }
  intros w [document|e] Hd; [|by apply runs_ret].
  eapply runs_read; [by apply (runs_deref _ _ (λ _, True)); [apply Hd|]|]. intros w' text _.
  destruct (QueryUnescape text) as [decoded|e]; [by apply runs_ret|].
  eapply runs_read; [by apply (runs_deref _ _ (λ _, True))|]. intros w2 _ _.
  eapply runs_read; [by apply (runs_deref _ _ (λ _, True))|]. intros w3 _ _. by apply runs_ret.
Qed.

Lemma inline_policies_runs name names m s : is_Some name → Forall is_Some names →
  runs (inline_policies QueryUnescape name names m) s [] (λ _, True).
Proof using Type*.
  intros Hn Hs. revert m s. induction Hs as [|policy names Hp _ IH]; intros m s; simpl; [by apply runs_ret|].
  eapply runs_read; [by apply getUserPolicy_runs|]. intros w document _.
  eapply runs_read; [by apply (runs_deref _ _ (λ _, True))|]. intros w' n _. apply IH.
Qed.
(** the report of a user, if the account has one for its name *)
Definition report_for (find : string → option IAMCredentialReport) (u : iamUser B) : option IAMCredentialReport :=
  match iuUserName u with Some name => find name | None => None end.

Lemma snapshot_runs u s reports devices : user_set u →
  userCredentialReports s = Some reports → mfaDeviceMapping s = Some devices →
  runs (buildIAMUserSnapshot QueryUnescape (Some u)) s []
    (λ snap, ∃ v : IAMUser B G, snap = Some v ∧ grResourceID (isResource v) = iuArn u ∧
      isCredentialReport v = report_for (λ n, reports !! n) u).
Proof using Type*.
  intros [Hc Hn Hi Ht] Hr Hm. unfold buildIAMUserSnapshot.
  eapply runs_read; [by apply (runs_deref _ _ (λ _, True))|]. intros w1 created _.
  destruct (ParseTagSlice_returns ∅ (iuTags u) Ht) as [tags Htags].
  eapply runs_read; [by apply (runs_lift _ tags _ (λ _, True))|]. intros w2 tags' _.
  apply (runs_read _ _ _ _ (λ r, Forall is_Some r.1.1)).
  { unfold getUserPolicies. eapply runs_read; [apply (runs_call _ _ (λ r, Forall is_Some (concat r.1))); intros; by eapply st_policies|].
    intros w a Ha. eapply runs_read; [by apply (runs_call _ _ (λ _, True))|]. intros w' a' _. by apply runs_ret. }
  intros w3 [[inlineNames managed] err] Hin. simpl in Hin.
  eapply (runs_read _ _ _ _ (λ _, True)).
  { destruct err; [by apply runs_ret|]. case_decide; [by apply runs_ret|].
    eapply runs_read; [by apply inline_policies_runs|]. intros w m _. by apply runs_ret. }
  intros w4 inline _. apply (runs_read _ _ _ _ (λ s', userCredentialReports s' = Some reports ∧ mfaDeviceMapping s' = Some devices)).
  { unfold get. exists w4, (advance (advance (advance (advance s w1 []) w2 []) w3 []) w4 []). split; [|done].
    unfold advance. simpl. by rewrite !app_nil_r. }
  intros w5 s' [-> ->]. apply (runs_read _ _ _ _ (λ r, r = report_for (λ n, reports !! n) u)).
  { eapply runs_read; [by apply (runs_deref _ _ (λ n, iuUserName u = Some n))|]. intros w n Hname. apply runs_ret.
    unfold report_for. by rewrite Hname. }
  intros w6 report ->. eapply (runs_read _ _ _ _ (λ _, True)).
  { eapply runs_read; [by apply (runs_deref _ _ (λ _, True))|]. intros w id _. by apply runs_ret. }
  intros w7 mfa _. eapply (runs_read _ _ _ _ (λ _, True)).
  { unfold listGroupsForUser. eapply runs_read; [by apply (runs_call _ _ (λ _, True))|]. intros w r _. by apply runs_ret. }
  intros w8 groups _. apply runs_ret. by eexists.
Qed.

(** what a listed user gives: the entry and the scan that is asked for *)
Definition expected_entries (u : iamUser B) : list (string * string) :=
  match user (iuUserName u) with Ok _ => [(default "" (iuArn u), IAMUserSchema)] | Err _ => [] end.
Definition expected_scans (find : string → option IAMCredentialReport) (input : ResourcePollerInput) (account : string) (u : iamUser B)
    : list (list ScanEntry * Z) :=
  match user (iuUserName u) with
  | Ok full =>
      match report_for find full with
      | Some _ => []
      | None => [([scan_of account (riIntegrationID input) (iuArn full) IAMUserSchema], MaxRequeueDelaySeconds)]
      end
  | Err _ => []
  end.

Definition entry_key (e : GeneratedEntry (snapshot B G)) : string * string := (geID e, geType e).

Lemma getUser_runs name s : is_Some name → runs (getUser name) s [] (λ r, r = match user name with Ok u => Some u | Err _ => None end).
Proof using Type*.
  intros Hn. unfold getUser. apply (runs_read _ _ _ _ (λ r, r = user name)).
  { apply runs_call. intros w. by apply st_user. }
  intros w r ->. destruct (user name) as [u|e]; [by apply runs_ret|]. case_match; [|by apply runs_ret].
  eapply runs_read; [by apply (runs_deref _ _ (λ _, True))|]. intros w' _ _. by apply runs_ret.
Qed.

Lemma user_entries_runs input account reports devices users s :
  is_Some (riIntegrationID input) → Forall (λ u, is_Some (iuArn u) ∧ is_Some (iuUserName u)) users →
  userCredentialReports s = Some reports → mfaDeviceMapping s = Some devices →
  runs (user_entries QueryUnescape input account users) s (users ≫= expected_scans (λ n, reports !! n) input account)
    (λ l, entry_key <$> l = users ≫= expected_entries).
Proof using Type*.
  intros Hi Hu. revert s. induction Hu as [|u users [Harn Hname] _ IH]; intros s Hr Hm; simpl; [by apply runs_ret|].
  eapply runs_read; [by apply getUser_runs|]. intros w1 full ->. unfold expected_scans at 1, expected_entries at 1.
  destruct (user (iuUserName u)) as [full|e] eqn:Hfull.
  2:{ simpl. eapply runs_read; [by apply (runs_ret _ _ (λ r, r = None))|]. intros w2 r ->. by apply IH. }
  eapply runs_read; [eapply (snapshot_runs full _ reports devices); [by eapply st_set|done..]|]. intros w2 snap (v&->&Hid&Hrep).
  eapply (runs_bind _ _ _ _ _ (λ _, True)); [|intros w3 _ _].
  { cbn [isCredentialReport with_account isResource]. rewrite Hrep, Hid. destruct (report_for (λ n, reports !! n) full); [by apply runs_ret|].
    apply runs_requeue. }
  eapply runs_read; [by apply (runs_deref _ _ (λ a, iuArn u = Some a))|]. intros w4 arn Ha.
  eapply runs_read; [by apply (runs_deref _ _ (λ _, True))|]. intros w5 integration _.
  eapply runs_last; [by apply IH|]. intros w6 rest Hrest. apply runs_ret. rewrite fmap_cons, Hrest, Ha. done.
Qed.
Lemma M_bind_Ret {A A'} (m : M W A) (k : A → M W A') s s1 a : m s = Ret (s1, a) → (m ≫= k) s = k a s1.
Proof using Type. clear. unfold mbind, M_bind. by intros ->. Qed.

Lemma call_answer {A} (f : W → W * A) a s : (∀ w, (f w).2 = a) → ∃ w, call f s = Ret (with_world s w, a).
Proof using Type. clear. intros Hf. specialize (Hf (world s)). unfold call. destruct (f (world s)) as [w a']. simpl in Hf. subst. eauto. Qed.

(** *** The root user *)

Definition root_entries (find : string → option IAMCredentialReport) : list (string * string) :=
  match find rootAccountNameCredReport with
  | Some r => match ParseARN (crARN r) with Ok _ => [(crARN r, IAMRootUserSchema)] | Err _ => [] end
  | None => []
  end.
Definition root_scans (find : string → option IAMCredentialReport) (input : ResourcePollerInput) (account : string) : list (list ScanEntry * Z) :=
  match root_entries find with
  | [] => [([scan_of account (riIntegrationID input) None IAMRootUserSchema], MaxRequeueDelaySeconds)]
  | _ => []
  end.

Lemma mfa_map_serials devices id d : Forall (λ d, is_Some (mdSerialNumber d)) devices → mfa_map devices !! id = Some d → is_Some (vmSerialNumber d).
Proof using Type.
  clear. unfold mfa_map. assert (∀ m : gmap string VirtualMFADevice, map_Forall (λ _ d, is_Some (vmSerialNumber d)) m →
    Forall (λ d, is_Some (mdSerialNumber d)) devices →
    map_Forall (λ _ d, is_Some (vmSerialNumber d)) (foldl (λ m d, match mdUserId d with
      | Some (Some id) => <[id := {| vmEnableDate := mdEnableDate d; vmSerialNumber := mdSerialNumber d |}]> m | _ => m end) m devices)) as Hf.
  { induction devices as [|x devices IH]; intros m Hm Hs; simpl; [done|]. apply Forall_cons in Hs as [Hx Hs].
    apply IH; [|done]. destruct (mdUserId x) as [[i|]|]; [|done..]. by apply map_Forall_insert_2. }
  intros Hs Hd. by eapply (Hf ∅ (map_Forall_empty _) Hs).
Qed.

Lemma root_device_returns order found : Forall (λ kd : string * VirtualMFADevice, is_Some (vmSerialNumber kd.2)) order →
  ∃ r, root_device order found = Ret r.
Proof using Type.
  clear. intros Ho. revert found. induction Ho as [|[id d] order [serial Hs] _ IH]; intros found; simpl; [eauto|].
  simpl in Hs. rewrite Hs. simpl. apply IH.
Qed.

Lemma root_runs s reports devices : userCredentialReports s = Some reports → mfaDeviceMapping s = Some (mfa_map devices) →
  Forall (λ d, is_Some (mdSerialNumber d)) devices →
  runs (buildIAMRootUserSnapshot ParseARN) s []
    (λ r, match r with
          | Some root => ∃ arn, gaARN (rsAWS root) = Some arn ∧ root_entries (λ n, reports !! n) = [(arn, IAMRootUserSchema)]
          | None => root_entries (λ n, reports !! n) = []
          end).
Proof using Type.
  intros Hr Hm Hd. unfold buildIAMRootUserSnapshot.
  apply (runs_read _ _ _ _ (λ s', userCredentialReports s' = Some reports ∧ mfaDeviceMapping s' = Some (mfa_map devices))).
  { exists (world s), s. by rewrite advance_nil. }
  intros w s' [Hr' Hm']. rewrite Hr'. simpl. unfold root_entries.
  destruct (reports !! rootAccountNameCredReport) as [report|]; [|by apply runs_ret].
  destruct (ParseARN (crARN report)) as [account|e]; [|by apply runs_ret]. rewrite Hm'. simpl.
  destruct (root_device_returns (map_to_list (mfa_map devices)) None) as [device Hdev].
  { apply Forall_forall. intros [id d] Hin%elem_of_map_to_list. by eapply mfa_map_serials. }
  eapply runs_read; [by apply (runs_lift _ device _ (λ _, True))|]. intros w' d _. apply runs_ret. by eexists.
Qed.

Lemma poll_users_reports input account pages content reports dpages s :
  is_Some (riIntegrationID input) → (∀ w, (getIAMClient w input).2 = None) →
  (∀ w, (ListUsersPages w).2 = (pages, None)) → Forall (λ u, is_Some (iuArn u) ∧ is_Some (iuUserName u)) (concat pages) →
  (∀ w, (GetCredentialReport w).2 = Ok content) → extractCredentialReport ParseTimeRFC3339 content = Ret (Ok reports) →
  (∀ w, (ListVirtualMFADevicesPages w).2 = (dpages, None)) → Forall (λ d, is_Some (mdSerialNumber d)) (concat dpages) →
  ∃ s' resources, PollIAMUsers ParseTimeRFC3339 QueryUnescape ParseARN getIAMClient input account s = Ret (s', Ok (Some resources)) ∧
    entry_key <$> resources = (concat pages ≫= expected_entries) ++ root_entries (λ n, reports !! n) ∧
    requeued s' = requeued s ++ (concat pages ≫= expected_scans (λ n, reports !! n) input account) ++
      root_scans (λ n, reports !! n) input account.
Proof using Type*.
  intros Hi Hc Hu Hset Hrep Hex Hdev Hser. unfold PollIAMUsers.
  destruct (call_answer _ _ s Hc) as [w1 E1]. rewrite (M_bind_Ret _ _ _ _ _ E1).
  destruct (call_answer _ _ (with_world s w1) Hu) as [w2 E2]. unfold listUsers. rewrite (M_bind_Ret _ _ _ (with_world s w2) (concat pages)).
  2:{ by rewrite (M_bind_Ret _ _ _ _ _ E2). }
  destruct (call_answer _ _ (with_world s w2) Hrep) as [w3 E3].
  rewrite (M_bind_Ret _ _ _ (with_world s w3) (Ok reports)).
  2:{ unfold buildCredentialReport. rewrite (M_bind_Ret _ _ _ _ _ E3). unfold lift. by rewrite Hex. }
  erewrite M_bind_Ret by done. set (s4 := with_reports (with_world s w3) (Some reports)).
  destruct (call_answer _ _ s4 Hdev) as [w5 E5].
  rewrite (M_bind_Ret _ _ _ (with_world s4 w5) (Ok (mfa_map (concat dpages)))).
  2:{ unfold listVirtualMFADevices. by rewrite (M_bind_Ret _ _ _ _ _ E5). }
  erewrite M_bind_Ret by done. set (s6 := with_mfa (with_world s4 w5) (Some (mfa_map (concat dpages)))).
  destruct (user_entries_runs input account reports (mfa_map (concat dpages)) (concat pages) s6 Hi Hset) as (w7&l&E7&Hl); [done..|].
  rewrite (M_bind_Ret _ _ _ _ _ E7). set (s7 := advance s6 w7 _).
  destruct (root_runs s7 reports (concat dpages)) as (w8&root&E8&Hroot); [done..|]. rewrite (M_bind_Ret _ _ _ _ _ E8).
  destruct root as [root|].
  - destruct Hroot as (arn&Harn&Hre). destruct Hi as [integration Hint]. rewrite Harn, Hint.
    eexists _, _. split; [done|]. rewrite fmap_app, Hl, Hre. split; [done|].
    unfold root_scans. rewrite Hre. simpl. by rewrite !app_nil_r.
  - eexists _, _. split; [done|]. rewrite Hl, Hroot, app_nil_r. split; [done|].
    unfold root_scans. rewrite Hroot. simpl. by rewrite app_nil_r, <-app_assoc.
Qed.

(** *** The rows of the credential report *)

(** the last row with the name of a user, among those of 22 fields *)
Definition row_report (rows : list (list string)) (name : string) : option IAMCredentialReport :=
  last (filter (λ row, length row = 22%nat ∧ hd "" row = name) rows) ≫= report_of ParseTimeRFC3339.

Lemma report_of_spec row :
  match report_of ParseTimeRFC3339 row with
  | Some r => length row = 22%nat ∧ hd "" row = crUserName r
  | None => length row ≠ 22%nat
  end.
Proof using Type. clear. do 22 (destruct row as [|? row]; [done|]). by destruct row. Qed.

Lemma report_map_lookup rows name : report_map ParseTimeRFC3339 rows !! name = row_report rows name.
Proof using Type.
  clear. unfold report_map, row_report. rewrite <-(rev_involutive rows). generalize (rev rows) as l. intros l.
  induction l as [|row l IH]; [done|]. simpl rev. rewrite foldl_app, filter_app, filter_cons, filter_nil. cbn [foldl].
  pose proof (report_of_spec row) as Hspec. destruct (report_of ParseTimeRFC3339 row) as [r|] eqn:Er.
  - destruct Hspec as [Hlen Hhd]. destruct (decide (crUserName r = name)) as [<-|Hne].
    + rewrite lookup_insert_eq, decide_True by done. rewrite last_snoc. cbn. by rewrite Er.
    + rewrite lookup_insert_ne by done. rewrite decide_False by (intros [_ Hn]; congruence). by rewrite app_nil_r.
  - rewrite decide_False by (by intros [? _]). by rewrite app_nil_r.
Qed.

Lemma expected_scans_ext f g input account users : (∀ n, f n = g n) →
  (users ≫= expected_scans f input account) = (users ≫= expected_scans g input account).
Proof using Type.
  intros Hfg. induction users as [|u users IH]; [done|]. rewrite !bind_cons, IH. f_equal.
  unfold expected_scans, report_for. destruct (user (iuUserName u)) as [full|e]; [|done].
  destruct (iuUserName full); [by rewrite Hfg|done].
Qed.

(** C33: a scan of the users of an account for which IAM answers every listing and has
    a credential report: it returns one resource for each listed user that IAM
    still knows, in order, and one for the root user; it asks for a scan in
    fifteen minutes of exactly the users that the credential report does not
    have yet, and of the root user if its row or its ARN cannot be read. *)
Theorem poll_users_correct input account pages content header rows dpages s :
  is_Some (riIntegrationID input) → (∀ w, (getIAMClient w input).2 = None) →
  (∀ w, (ListUsersPages w).2 = (pages, None)) → Forall (λ u, is_Some (iuArn u) ∧ is_Some (iuUserName u)) (concat pages) →
  (∀ w, (GetCredentialReport w).2 = Ok content) → csv_rows content = Ok (header :: rows) →
  (∀ w, (ListVirtualMFADevicesPages w).2 = (dpages, None)) → Forall (λ d, is_Some (mdSerialNumber d)) (concat dpages) →
  ∃ s' resources, PollIAMUsers ParseTimeRFC3339 QueryUnescape ParseARN getIAMClient input account s = Ret (s', Ok (Some resources)) ∧
    entry_key <$> resources = (concat pages ≫= expected_entries) ++ root_entries (row_report rows) ∧
    requeued s' = requeued s ++ (concat pages ≫= expected_scans (row_report rows) input account) ++
      root_scans (row_report rows) input account.
Proof using Type*.
  intros Hi Hc Hu Hset Hrep Hcsv Hdev Hser.
  destruct (poll_users_reports input account pages content (report_map ParseTimeRFC3339 rows) dpages s) as (s'&l&Hp&Hk&Hq); [try done..|].
  { unfold extractCredentialReport. by rewrite Hcsv. }
  exists s', l. split; [done|]. rewrite Hk, Hq.
  rewrite (expected_scans_ext _ _ _ _ _ (report_map_lookup rows)). unfold root_scans, root_entries. by rewrite report_map_lookup.
Qed.

(** A failed listing of the inline policies of a user is not noticed when that of
    the attached policies succeeds: the snapshot has no inline policies and looks
    as if the user had none. *)
Theorem inline_policies_failure_hidden name s e managed :
  (∀ w, (ListUserPoliciesPages w name).2 = ([], Some e)) → (∀ w, (ListAttachedUserPoliciesPages w name).2 = (managed, None)) →
  ∃ s', getUserPolicies name s = Ret (s', ([], concat managed, None)).
Proof using Type.
  intros H1 H2. destruct (call_answer _ _ s H1) as [w1 E1]. unfold getUserPolicies. rewrite (M_bind_Ret _ _ _ _ _ E1).
  destruct (call_answer _ _ (with_world s w1) H2) as [w2 E2]. rewrite (M_bind_Ret _ _ _ _ _ E2). by eexists.
Qed.
End Spec.

(** ** An account *)

Definition demo_row (name arn : string) : string :=
  name +:+ "," +:+ arn +:+ ",2020-01-01T00:00:00+00:00,true,N/A,N/A,N/A,false,true,N/A,N/A,N/A,N/A,false,N/A,N/A,N/A,N/A,false,N/A,false,N/A" +:+
  String "010" "".
Definition demo_report : string :=
  demo_row "user" "arn" +:+ demo_row "<root_account>" "arn:aws:iam::123456789012:root" +:+
  demo_row "ann" "arn:aws:iam::123456789012:user/ann".

Definition demo_iamUser (name : string) : iamUser unit :=
  {| iuArn := Some ("arn:aws:iam::123456789012:user/" +:+ name); iuCreateDate := Some 0; iuPasswordLastUsed := None; iuPath := None;
     iuPermissionsBoundary := None; iuTags := []; iuUserId := Some ("ID" +:+ name); iuUserName := Some name |}.

Definition demo_answer (name : option string) : result (iamUser unit) :=
  match name with Some n => Ok (demo_iamUser n) | None => Err (ErrAWS "NoSuchEntity" "") end.

#[local] Instance demo_iam : IAM unit unit unit := {|
  GetUser w name := (w, demo_answer name);
  GetCredentialReport w := (w, Ok demo_report);
  GenerateCredentialReport w := (w, Ok (Some "COMPLETE"));
  ListUsersPages w := (w, ([[demo_iamUser "ann"]; [demo_iamUser "bob"]], None));
  ListUserPoliciesPages w name := (w, ([[Some "inline"]], None));
  ListAttachedUserPoliciesPages w name := (w, ([[Some "managed"]], None));
  ListVirtualMFADevicesPages w := (w, ([[{| mdEnableDate := None; mdSerialNumber := Some "arn:aws:iam::1:mfa/root-account-mfa-device"; mdUserId := Some (Some "1") |}]], None));
  ListGroupsForUserPages w name := (w, ([], None));
  GetUserPolicy w name policy := (w, Ok (Some "document"))
|}.

Lemma demo_iam_stable : stable demo_answer.
Proof.
  split; simpl; [done| | |by intros w name policy document [= <-]].
  - intros [n|] u; [|done]. intros [= <-]. split; simpl; [done..|by constructor].
  - intros w name. repeat constructor. done.
Qed.

Definition demo_input : ResourcePollerInput := {| AuthSource := "role"; riIntegrationID := Some "id"; Regions := [] |}.
Definition demo_istate : istate unit :=
  {| userCredentialReports := None; mfaDeviceMapping := None; requeued := []; world := tt |}.
Definition demo_ARN (s : string) : result string := Ok "123456789012".

Definition demo_rows_of (r : result (list (list string))) : list (list string) := match r with Ok (_ :: rows) => rows | _ => [] end.

Lemma poll_users_correct_witness :
  ∃ s' resources, PollIAMUsers (H0 := bounded_backoff 3) (λ _, 0) Ok demo_ARN (λ w _, (w, None)) demo_input "123456789012" demo_istate =
      Ret (s', Ok (Some resources)) ∧
    geID <$> resources = ["arn:aws:iam::123456789012:user/ann"; "arn:aws:iam::123456789012:user/bob"; "arn:aws:iam::123456789012:root"] ∧
    requeued s' = [([scan_of "123456789012" (Some "id") (Some "arn:aws:iam::123456789012:user/bob") IAMUserSchema], 900)].
Proof.
  destruct (poll_users_correct (H0 := bounded_backoff 3) (λ _, 0) Ok demo_ARN (λ w _, (w, None)) demo_answer demo_iam_stable demo_input
    "123456789012" [[demo_iamUser "ann"]; [demo_iamUser "bob"]] demo_report (hd [] (match csv_rows demo_report with Ok r => r | Err _ => [] end))
    (demo_rows_of (csv_rows demo_report))
    [[{| mdEnableDate := None; mdSerialNumber := Some "arn:aws:iam::1:mfa/root-account-mfa-device"; mdUserId := Some (Some "1") |}]] demo_istate)
    as (s'&resources&Hpoll&Hkeys&Hscans).
  - exists "id". reflexivity.
  - intros w. reflexivity.
  - intros w. reflexivity.
  - apply (bool_decide_unpack _). vm_compute. exact I.
  - intros w. reflexivity.
  - vm_compute. reflexivity.
  - intros w. reflexivity.
  - apply (bool_decide_unpack _). vm_compute. exact I.
  - exists s', resources. split; [exact Hpoll|]. split.
    + apply (f_equal (fmap fst)) in Hkeys. rewrite <-list_fmap_compose in Hkeys. transitivity (fst ∘ entry_key <$> resources); [reflexivity|].
      rewrite Hkeys. vm_compute. reflexivity.
    + rewrite Hscans. vm_compute. reflexivity.
Defined.
