(* ===== verification/JsonParsers.v ===== *)
(** * Parsers of logs in JSON and syslog

    Model of the other log parsers under
    src/internal/log_analysis/log_processor/parsers: CloudTrail and GuardDuty with
    the extractor of identifiers (awslogs/extractor.go over src/pkg/extract),
    OSSEC, osquery, syslog, fluentd, Zeek and Suricata, and of the registry of log
    types (log_processor/registry).  The JSON library, gjson, the syslog library,
    arn.Parse and the validator are parameters.  The theorem shows which
    identifiers the extractor finds in a document. *)

From S2P Require Import Prelude GoTime Glue RowId PantherLog CsvParsers.

#[local] Open Scope Z_scope.
#[local] Set Default Proof Using "Type".

(** ** Walking a document (pkg/extract) *)

(** gjson.Result, as far as it is used *)
Class GJson (R : Type) := {
  Str : R → string;
  IsArray : R → bool;
  IsObject : R → bool;
  ForEach : R → list (R * R);
  Get : R → string → R;
  Exists : R → bool
}.

(** documents are finite: the arrays and objects a value holds are less deep (a
    scalar holds itself) *)
Class FiniteJson (R : Type) `{GJson R} := {
  depth : R → nat;
  depth_lt v k c : (k, c) ∈ ForEach v → IsArray c || IsObject c = true → (depth c < depth v)%nat
}.

Section Extract.
Context {R : Type} `{FiniteJson R} {Raw : Type} (ParseBytes : Raw → R).
Context {L : Type} (extract : L → R → R → L).

(** extract.Parsed, for one extractor; [fuel]: the depth of the document *)
Fixpoint Parsed (fuel : nat) (l : L) (result : R) : L :=
  foldl (λ l kv,
    let l := extract l kv.1 kv.2 in
    match fuel with
    | O => l
    | S fuel => if IsArray kv.2 || IsObject kv.2 then Parsed fuel l kv.2 else l
    end) l (ForEach result).

Definition Extract (l : L) (rawMessage : option Raw) : L :=
  match rawMessage with
  | None => l
  | Some raw => let result := ParseBytes raw in Parsed (S (depth result)) l result
  end.
End Extract.

(** ** Identifiers of AWS (awslogs/extractor.go) *)

(** what is used of an arn.ARN *)
Record ARN := { arnAccountID : string; arnResource : string }.

Section AWSExtractor.
Context {R : Type} `{GJson R} (ParseARN : string → result ARN) {Event : Type}.
Notation log := (AWSPantherLog Event).

(** the part after the last slash, unless it is shorter than two bytes *)
Definition instance_of (resource : string) : option string :=
  let instanceID := List.last (split_on "/" resource) "" in
  let slashIndex := Z.of_nat (String.length resource) - 1 - Z.of_nat (String.length instanceID) in
  if decide (slashIndex < Z.of_nat (String.length resource) - 2) then Some instanceID else None.

Definition extract_arn (pl : log) (s : string) : log :=
  match ParseARN s with
  | Err _ => pl
  | Ok parsedARN =>
      let pl := AppendAnyAWSARNs pl [s] in
      let pl := if decide (String.length (arnAccountID parsedARN) = 12%nat)
                then AppendAnyAWSAccountIds pl [arnAccountID parsedARN] else pl in
      if has_prefix "instance/" (arnResource parsedARN) then
        match instance_of (arnResource parsedARN) with
        | Some instanceID => if has_prefix "i-" instanceID then AppendAnyAWSInstanceIds pl [instanceID] else pl
        | None => pl
        end
      else pl
  end.

Definition append_tag (pl : log) (tag : R) : log :=
  let tagKey := Get tag "key" in
  let tagValue := Get tag "value" in
  if Exists tagKey && Exists tagValue then AppendAnyAWSTags pl [Str tagKey +:+ ":" +:+ Str tagValue] else pl.

Definition append_ip (pl : log) (value : string) : log := on_log (λ l, (AppendAnyIPAddress l value).1) pl.
Definition append_domain (pl : log) (value : string) : log := on_log (λ l, AppendAnyDomainNames l [value]) pl.

Definition ip_keys : list string := ["publicIp"; "privateIpAddress"; "ipAddressV4"].
Definition domain_keys : list string := ["publicDnsName"; "privateDnsName"; "domain"].

(** AWSExtractor.Extract *)
Definition AWSExtractor_Extract (pl : log) (key value : R) : log :=
  if has_prefix "arn:" (Str value) then extract_arn pl (Str value)
  else if String.eqb (Str key) "instanceId" || has_suffix "InstanceId" (Str key) then
    if has_prefix "i-" (Str value) then AppendAnyAWSInstanceIds pl [Str value] else pl
  else if String.eqb (Str key) "accountId" || has_suffix "AccountId" (Str key) then
    if decide (String.length (Str value) = 12%nat) then AppendAnyAWSAccountIds pl [Str value] else pl
  else if String.eqb (Str key) "tags" then
    if IsArray value then foldl (λ pl kv, append_tag pl kv.2) pl (ForEach value) else pl
  else if String.eqb (Str key) "ipv6Addresses" then
    if IsArray value then foldl (λ pl kv, append_ip pl (Str kv.2)) pl (ForEach value) else pl
  else if decide (Str key ∈ ip_keys) then append_ip pl (Str value)
  else if decide (Str key ∈ domain_keys) then append_domain pl (Str value)
  else pl.
End AWSExtractor.

(** ** Logs of AWS *)

Section AwsJson.
Context {Raw F R : Type} `{FiniteJson R} (ParseBytes : Raw → R) (ParseARN : string → result ARN).

(** awslogs/cloudtrail.go *)

Record CloudTrailResources := {
  ctrARN : option string; ctrAccountID : option string; ctrType : option string
}.

Record CloudTrailSessionContextAttributes := {
  ctaMfaAuthenticated : option string; ctaCreationDate : option string
}.

Record CloudTrailSessionContextSessionIssuer := {
  ctiType : option string; ctiPrincipalID : option string; ctiArn : option string; ctiAccountID : option string;
  ctiUsername : option string
}.

Record CloudTrailSessionContextWebIDFederationData := {
  ctwFederatedProvider : option string; ctwAttributes : option Raw
}.

Record CloudTrailSessionContext := {
  ctsAttributes : option CloudTrailSessionContextAttributes;
  ctsSessionIssuer : option CloudTrailSessionContextSessionIssuer;
  ctsWebIDFederationData : option CloudTrailSessionContextWebIDFederationData
}.

Record CloudTrailUserIdentity := {
  ctuType : option string; ctuPrincipalID : option string; ctuARN : option string; ctuAccountID : option string;
  ctuAccessKeyID : option string; ctuUsername : option string; ctuSessionContext : option CloudTrailSessionContext;
  ctuInvokedBy : option string; ctuIdentityProvider : option string
}.

Record CloudTrail := {
  ctAdditionalEventData : option Raw; ctAPIVersion : option string; ctAWSRegion : option string;
  ctErrorCode : option string; ctErrorMessage : option string; ctEventID : option string; ctEventName : option string;
  ctEventSource : option string; ctEventTime : option Time; ctEventType : option string;
  ctEventVersion : option string; ctManagementEvent : option bool; ctReadOnly : option bool;
  ctRecipientAccountID : option string; ctRequestID : option string; ctRequestParameters : option Raw;
  ctResources : list CloudTrailResources; ctResponseElements : option Raw; ctServiceEventDetails : option Raw;
  ctSharedEventID : option string; ctSourceIPAddress : option string; ctUserAgent : option string;
  ctUserIdentity : option CloudTrailUserIdentity; ctVPCEndpointID : option string
}.

(** awslogs/guardduty.go *)

Record GuardDutyService := {
  gdsAdditionalInfo : option Raw; gdsAction : option Raw; gdsServiceName : option string;
  gdsDetectorID : option string; gdsResourceRole : option string; gdsEventFirstSeen : option Time;
  gdsEventLastSeen : option Time; gdsArchived : option bool; gdsCount : option Z
}.

Record GuardDuty := {
  gdSchemaVersion : option string; gdAccountID : option string; gdRegion : option string; gdPartition : option string;
  gdID : option string; gdArn : option string; gdType : option string; gdResource : option Raw; gdSeverity : option F;
  gdCreatedAt : option Time; gdUpdatedAt : option Time; gdTitle : option string; gdDescription : option string;
  gdService : option GuardDutyService
}.

Definition extract_raw {Ev} (pl : AWSPantherLog Ev) (raw : option Raw) : AWSPantherLog Ev :=
  Extract ParseBytes (AWSExtractor_Extract ParseARN) pl raw.

(** CloudTrail.updatePantherFields, after SetCoreFields *)
Definition cloudtrail_update (event : CloudTrail) (pl : AWSPantherLog CloudTrail) : AWSPantherLog CloudTrail :=
  let pl := ip_ptr (ctSourceIPAddress event) pl in
  let pl := AppendAnyAWSAccountIdPtrs pl [ctRecipientAccountID event] in
  let pl := foldl (λ pl resource, AppendAnyAWSAccountIdPtrs (AppendAnyAWSARNPtrs pl [ctrARN resource]) [ctrAccountID resource])
              pl (ctResources event) in
  let pl := match ctUserIdentity event with
            | None => pl
            | Some u =>
                let pl := AppendAnyAWSARNPtrs (AppendAnyAWSAccountIdPtrs pl [ctuAccountID u]) [ctuARN u] in
                match match ctuSessionContext u with Some c => ctsSessionIssuer c | None => None end with
                | None => pl
                | Some i => AppendAnyAWSARNPtrs (AppendAnyAWSAccountIdPtrs pl [ctiAccountID i]) [ctiArn i]
                end
            end in
  let pl := extract_raw (extract_raw pl (ctAdditionalEventData event)) (ctRequestParameters event) in
  let pl := extract_raw (extract_raw pl (ctResponseElements event)) (ctServiceEventDetails event) in
  match ctUserIdentity event with
  | None => pl
  | Some u =>
      match ctuSessionContext u with
      | None => pl
      | Some c => match ctsWebIDFederationData c with None => pl | Some w => extract_raw pl (ctwAttributes w) end
      end
  end.

(** the events of a file, [None] a nil pointer; the clock is read for each *)
Fixpoint cloudtrail_events (s : RowId.pkg) (now : nat → Z) (n : nat) (records : list (option CloudTrail))
    : RowId.pkg * outcome (list (AWSPantherLog CloudTrail)) :=
  match records with
  | [] => (s, Ret [])
  | None :: _ => (s, Panic "nil pointer dereference")
  | Some event :: records =>
      match set_core s (now n) no_aws_fields "AWS.CloudTrail" (ctEventTime event) event with
      | Panic why => ((NewRowID s).1, Panic why)
      | Ret pl =>
          let '(s, rest) := cloudtrail_events (NewRowID s).1 now (S n) records in
          (s, l ← rest; Ret (cloudtrail_update event pl :: l))
      end
  end.

Definition CloudTrail_Parse (Unmarshal : string → result (list (option CloudTrail)))
    (valid : list (AWSPantherLog CloudTrail) → bool) (s : RowId.pkg) (now : nat → Z) (log : string)
    : RowId.pkg * outcome (option (list (AWSPantherLog CloudTrail))) :=
  match Unmarshal log with
  | Err _ => (s, Ret None)
  | Ok records =>
      let '(s, events) := cloudtrail_events s now 0 records in
      (s, l ← events; Ret (if valid l then Some l else None))
  end.

Definition guardduty_update (event : GuardDuty) (pl : AWSPantherLog GuardDuty) : AWSPantherLog GuardDuty :=
  let pl := AppendAnyAWSAccountIdPtrs (AppendAnyAWSARNPtrs pl [gdArn event]) [gdAccountID event] in
  let pl := extract_raw pl (gdResource event) in
  match gdService event with
  | None => pl
  | Some service => extract_raw (extract_raw pl (gdsAdditionalInfo service)) (gdsAction service)
  end.

Definition GuardDuty_Parse (Unmarshal : string → result GuardDuty) (valid : AWSPantherLog GuardDuty → bool)
    (s : RowId.pkg) (now : Z) (log : string) : RowId.pkg * outcome (option (list (AWSPantherLog GuardDuty))) :=
  match Unmarshal log with
  | Err _ => (s, Ret None)
  | Ok event =>
      ((NewRowID s).1, finish s now "AWS.GuardDuty" (gdUpdatedAt event) event (guardduty_update event) valid)
  end.
End AwsJson.

(** ** Other logs *)

Section Json.
Context {F : Type}.

(** osseclogs/eventinfo.go *)

Record Rule := {
  orlComment : option string; orlGroup : option string; orlLevel : option Z; orlSIDID : option Z; orlCIS : list string;
  orlCVE : option string; orlFiredtimes : option Z; orlFrequency : option Z; orlGroups : list string;
  orlInfo : option string; orlPCIDSS : list string
}.

Record FileDiff := {
  ofdGroupOwnerAfter : option string; ofdGroupOwnerBefore : option string; ofdMD5After : option string;
  ofdMD5Before : option string; ofdOwnerAfter : option string; ofdOwnerBefore : option string; ofdPath : option string;
  ofdPermAfter : option Z; ofdPermBefore : option Z; ofdSHA1After : option string; ofdSHA1Before : option string
}.

Record Decoder := {
  odeAccumulate : option Z; odeFts : option Z; odeFtscomment : option string; odeName : option string;
  odeParent : option string
}.

Record EventInfo := {
  oeiID : option string; oeiRule : option Rule; oeiTimestamp : option Time; oeiLocation : option string;
  oeiHostname : option string; oeiFullLog : option string; oeiAction : option string; oeiAgentIP : option string;
  oeiAgentName : option string; oeiCommand : option string; oeiData : option string; oeiDecoder : option string;
  oeiDecoderDescription : option Decoder; oeiDecoderParent : option string; oeiDstGeoIP : option string;
  oeiDstIP : option string; oeiDstPort : option string; oeiDstUser : option string; oeiLogfile : option string;
  oeiPreviousOutput : option string; oeiProgramName : option string; oeiProtocol : option string;
  oeiSrcGeoIP : option string; oeiSrcIP : option string; oeiSrcPort : option string; oeiSrcUser : option string;
  oeiStatus : option string; oeiSyscheckFile : option FileDiff; oeiSystemname : option string; oeiURL : option string
}.

(** osquerylogs/batch.go *)

Record BatchDiffResults := {
  obdAdded : list (gmap string string); obdRemoved : list (gmap string string)
}.

Record Batch := {
  obaCalendarTime : option Time; obaCounter : option Z; obaDecorations : gmap string string;
  obaDiffResults : option BatchDiffResults; obaEpoch : option Z; obaHostname : option string; obaName : option string;
  obaUnixTime : option Z
}.

(** osquerylogs/differential.go *)

Record Differential := {
  odiAction : option string; odiCalendarTime : option Time; odiColumns : gmap string string; odiCounter : option Z;
  odiDecorations : gmap string string; odiEpoch : option Z; odiHostIdentifier : option string;
  odiLogType : option string; odiLogUnderscoreType : option string; odiName : option string; odiUnixTime : option Z;
  odiLogNumericsAsNumbers : option bool
}.

(** osquerylogs/snapshot.go *)

Record Snapshot := {
  osnAction : option string; osnCalendarTime : option Time; osnCounter : option Z; osnDecorations : gmap string string;
  osnEpoch : option Z; osnHostIdentifier : option string; osnName : option string;
  osnSnapshot : list (gmap string string); osnUnixTime : option Z
}.

(** osquerylogs/status.go *)

Record Status := {
  ostCalendarTime : option Time; ostDecorations : gmap string string; ostFilename : option string;
  ostHostIdentifier : option string; ostLine : option Z; ostLogType : option string;
  ostLogUnderscoreType : option string; ostMessage : option string; ostSeverity : option Z; ostUnixTime : option Z;
  ostVersion : option string
}.

(** sysloglogs/rfc3164.go *)

Record Syslog3164 := {
  sys3Priority : option Z; sys3Facility : option Z; sys3Severity : option Z; sys3Timestamp : option Time;
  sys3Hostname : option string; sys3Appname : option string; sys3ProcID : option string; sys3MsgID : option string;
  sys3Message : option string
}.

(** sysloglogs/rfc5424.go *)

Record Syslog5424 := {
  sys5Priority : option Z; sys5Facility : option Z; sys5Severity : option Z; sys5Version : option Z;
  sys5Timestamp : option Time; sys5Hostname : option string; sys5Appname : option string; sys5ProcID : option string;
  sys5MsgID : option string; sys5StructuredData : option (gmap string (gmap string string)); sys5Message : option string
}.

(** fluentdsyslogs/rfc3164.go *)

Record Fluentd3164 := {
  flu3Priority : option Z; flu3Hostname : option string; flu3Ident : option string; flu3ProcID : option Z;
  flu3Message : option string; flu3Timestamp : option Time; flu3Tag : option string
}.

(** fluentdsyslogs/rfc5424.go *)

Record Fluentd5424 := {
  flu5Priority : option Z; flu5Hostname : option string; flu5Ident : option string; flu5ProcID : option Z;
  flu5MsgID : option string; flu5ExtraData : option string; flu5Message : option string; flu5Timestamp : option Time;
  flu5Tag : option string
}.

(** zeeklogs/dns.go *)

Record ZeekDNS := {
  zeeTs : option Time; zeeUID : option string; zeeIDOrigH : option string; zeeIDOrigP : option Z;
  zeeIDRespH : option string; zeeIDRespP : option Z; zeeProto : option string; zeeTransID : option Z;
  zeeQuery : option string; zeeQClass : option Z; zeeQClassName : option string; zeeQType : option Z;
  zeeQTypeName : option string; zeeRcode : option Z; zeeRcodeName : option string; zeeAA : option bool;
  zeeTC : option bool; zeeRD : option bool; zeeRA : option bool; zeeZ : option Z; zeeAnswers : list string;
  zeeTTLs : list F; zeeRejected : option bool
}.

(** suricatalogs/anomaly.go *)

Record AnomalyPacketInfo := {
  sapLinktype : option Z
}.

Record AnomalyDetails := {
  sadCode : option Z; sadEvent : option string; sadLayer : option string; sadType : option string
}.

Record AnomalyMetadataFlowints := {
  safApplayerAnomalyCount : option Z; safHTTPAnomalyCount : option Z; safTCPRetransmissionCount : option Z;
  safTLSAnomalyCount : option Z
}.

Record AnomalyMetadata := {
  samFlowbits : list string; samFlowints : option AnomalyMetadataFlowints
}.

Record Anomaly := {
  sanAnomaly : option AnomalyDetails; sanAppProto : option string; sanCommunityID : option string;
  sanDestIP : option string; sanDestPort : option Z; sanEventType : option string; sanFlowID : option Z;
  sanIcmpCode : option Z; sanIcmpType : option Z; sanMetadata : option AnomalyMetadata; sanPacket : option string;
  sanPacketInfo : option AnomalyPacketInfo; sanPcapCnt : option Z; sanPcapFilename : option string;
  sanProto : option Z; sanSrcIP : option string; sanSrcPort : option Z; sanTimestamp : option Time; sanTxID : option Z;
  sanVlan : list Z
}.

(** the Parse of a parser that reads a struct: [decode] gives the struct, after
    the changes Parse makes to it *)
Definition parse_struct {Ev : Type} (decode : string → result Ev) (logType : string) (time : Ev → option Time)
    (update : Ev → PantherLog Ev → PantherLog Ev) (valid : PantherLog Ev → bool) (s : RowId.pkg) (now : Z) (log : string)
    : RowId.pkg * outcome (option (list (PantherLog Ev))) :=
  match decode log with
  | Err _ => (s, Ret None)
  | Ok event =>
      ((NewRowID s).1,
       r ← SetCoreFields s now no_fields logType (time event) event;
       Ret (if valid (update event r.2) then Some [update event r.2] else None))
  end.

Definition ip_field {Ev} (v : option string) (pl : PantherLog Ev) : PantherLog Ev := (AppendAnyIPAddressPtr pl v).1.

(** an address, or else a name *)
Definition host_field {Ev} (v : option string) (pl : PantherLog Ev) : PantherLog Ev :=
  let '(pl, ip) := AppendAnyIPAddressPtr pl v in
  if ip then pl else AppendAnyDomainNamePtrs pl [v].

Definition ossec_update (event : EventInfo) (pl : PantherLog EventInfo) : PantherLog EventInfo :=
  let pl := ip_field (oeiDstIP event) (ip_field (oeiSrcIP event) pl) in
  match oeiSyscheckFile event with
  | None => pl
  | Some f =>
      let pl := AppendAnyMD5HashPtrs pl [ofdMD5Before f; ofdMD5After f] in
      AppendAnySHA1HashPtrs pl [ofdSHA1Before f; ofdSHA1After f]
  end.
Definition EventInfo_Parse (Unmarshal : string → result EventInfo) :=
  parse_struct Unmarshal "OSSEC.EventInfo" oeiTimestamp ossec_update.

Definition batch_update (event : Batch) (pl : PantherLog Batch) : PantherLog Batch := AppendAnyDomainNamePtrs pl [obaHostname event].
Definition Batch_Parse (Unmarshal : string → result Batch) := parse_struct Unmarshal "Osquery.Batch" obaCalendarTime batch_update.

(** the field logType is replaced by log_type *)
Definition differential_fix (e : Differential) : Differential :=
  {| odiAction := odiAction e; odiCalendarTime := odiCalendarTime e; odiColumns := odiColumns e; odiCounter := odiCounter e;
     odiDecorations := odiDecorations e; odiEpoch := odiEpoch e; odiHostIdentifier := odiHostIdentifier e;
     odiLogType := odiLogUnderscoreType e; odiLogUnderscoreType := None; odiName := odiName e; odiUnixTime := odiUnixTime e;
     odiLogNumericsAsNumbers := odiLogNumericsAsNumbers e |}.
Definition differential_update (event : Differential) (pl : PantherLog Differential) : PantherLog Differential :=
  let pl := AppendAnyDomainNamePtrs pl [odiHostIdentifier event] in
  let pl := (AppendAnyIPAddress pl (default "" (odiColumns event !! "local_address"))).1 in
  (AppendAnyIPAddress pl (default "" (odiColumns event !! "remote_address"))).1.
Definition Differential_Parse (Unmarshal : string → result Differential) :=
  parse_struct (λ log, differential_fix <$> Unmarshal log) "Osquery.Differential" odiCalendarTime differential_update.

Definition snapshot_update (event : Snapshot) (pl : PantherLog Snapshot) : PantherLog Snapshot :=
  AppendAnyDomainNamePtrs pl [osnHostIdentifier event].
Definition Snapshot_Parse (Unmarshal : string → result Snapshot) :=
  parse_struct Unmarshal "Osquery.Snapshot" osnCalendarTime snapshot_update.

Definition status_fix (e : Status) : Status :=
  {| ostCalendarTime := ostCalendarTime e; ostDecorations := ostDecorations e; ostFilename := ostFilename e;
     ostHostIdentifier := ostHostIdentifier e; ostLine := ostLine e; ostLogType := ostLogUnderscoreType e;
     ostLogUnderscoreType := None; ostMessage := ostMessage e; ostSeverity := ostSeverity e; ostUnixTime := ostUnixTime e;
     ostVersion := ostVersion e |}.
Definition status_update (event : Status) (pl : PantherLog Status) : PantherLog Status :=
  AppendAnyDomainNamePtrs pl [ostHostIdentifier event].
Definition Status_Parse (Unmarshal : string → result Status) :=
  parse_struct (λ log, status_fix <$> Unmarshal log) "Osquery.Status" ostCalendarTime status_update.

(** [machine]: the parser of the syslog library, nil unless the parser was made by New *)
Definition Syslog3164_Parse (machine : option (string → result Syslog3164)) :=
  parse_struct (λ log, match machine with None => Err (ErrMsg "parser can not be nil") | Some parse => parse log end)
    "Syslog.RFC3164" sys3Timestamp (λ event, host_field (sys3Hostname event)).
Definition Syslog5424_Parse (machine : option (string → result Syslog5424)) :=
  parse_struct (λ log, match machine with None => Err (ErrMsg "parser can not be nil") | Some parse => parse log end)
    "Syslog.RFC5424" sys5Timestamp (λ event, host_field (sys5Hostname event)).
Definition Fluentd3164_Parse (Unmarshal : string → result Fluentd3164) :=
  parse_struct Unmarshal "Fluentd.Syslog3164" flu3Timestamp (λ event, host_field (flu3Hostname event)).
Definition Fluentd5424_Parse (Unmarshal : string → result Fluentd5424) :=
  parse_struct Unmarshal "Fluentd.Syslog5424" flu5Timestamp (λ event, host_field (flu5Hostname event)).

Definition aQueryType : Z := 1.
Definition aaaaQueryType : Z := 28.

Definition zeek_answer (pl : PantherLog ZeekDNS) (answer : string) : PantherLog ZeekDNS :=
  let '(pl, ip) := AppendAnyIPAddress pl answer in
  if ip then pl else AppendAnyDomainNames pl [answer].
Definition zeek_update (event : ZeekDNS) (pl : PantherLog ZeekDNS) : PantherLog ZeekDNS :=
  let pl := ip_field (zeeIDRespH event) (ip_field (zeeIDOrigH event) pl) in
  let pl := match zeeQType event, zeeQuery event with
            | Some ty, Some query => if decide (ty = aQueryType ∨ ty = aaaaQueryType) then AppendAnyDomainNames pl [query] else pl
            | _, _ => pl
            end in
  foldl zeek_answer pl (zeeAnswers event).
Definition ZeekDNS_Parse (Unmarshal : string → result ZeekDNS) := parse_struct Unmarshal "Zeek.DNS" zeeTs zeek_update.

Definition anomaly_update (event : Anomaly) (pl : PantherLog Anomaly) : PantherLog Anomaly :=
  ip_field (sanDestIP event) (ip_field (sanSrcIP event) pl).
Definition Anomaly_Parse (Unmarshal : string → result Anomaly) :=
  parse_struct Unmarshal "Suricata.Anomaly" sanTimestamp anomaly_update.
End Json.

(** ** The registry (log_processor/registry) *)

(** LogParserMetadata; the parser is named by its log type *)
Record LogParserMetadata := { lpmParser : string; lpmGlueTableMetadata : GlueTableMetadata }.
Definition Registry := gmap string LogParserMetadata.

Section Registry.
(** the descriptions of the log types *)
Context (description : string → string).

Definition DefaultLogParser (logType : string) : LogParserMetadata :=
  {| lpmParser := logType;
     lpmGlueTableMetadata := NewGlueTableMetadata LogData logType (description logType) GlueTableHourly |}.

(** what LogType returns for each parser *)
Definition log_types : list string :=
  ["AWS.CloudTrail"; "AWS.S3ServerAccess"; "AWS.VPCFlow"; "AWS.ALB"; "AWS.AuroraMySQLAudit"; "AWS.GuardDuty";
   "Nginx.Access"; "Osquery.Differential"; "Osquery.Batch"; "Osquery.Status"; "Osquery.Snapshot"; "OSSEC.EventInfo";
   "Syslog.RFC3164"; "Syslog.RFC5424"; "Fluentd.Syslog3164"; "Fluentd.Syslog5424"; "Zeek.DNS"; "Suricata.Anomaly"].

Definition parsersRegistry : Registry := list_to_map ((λ logType, (logType, DefaultLogParser logType)) <$> log_types).

(** AvailableTables; a map is iterated in an order of its own *)
Definition AvailableTables : list GlueTableMetadata := lpmGlueTableMetadata ∘ snd <$> map_to_list parsersRegistry.

Definition LookupParser (r : Registry) (logType : string) : outcome LogParserMetadata :=
  match r !! logType with
  | Some lpm => Ret lpm
  | None => Panic ("Cannot find LogType: " +:+ logType)
  end.

Lemma registry_lookup logType :
  parsersRegistry !! logType = if decide (logType ∈ log_types) then Some (DefaultLogParser logType) else None.
Proof.
  unfold parsersRegistry.
  assert (((λ logType, (logType, DefaultLogParser logType)) <$> log_types).*1 = log_types) as Hk by done.
  case_decide as Hl.
  - apply elem_of_list_to_map; [|apply list_elem_of_fmap; eauto].
    rewrite Hk. apply (bool_decide_unpack (NoDup log_types)). by vm_compute.
  - apply not_elem_of_list_to_map. by rewrite Hk.
Qed.

(** A log type of the list has its parser and its table, any other panics, and no
    two log types share a table or the place of its objects. *)
Theorem registry_correct :
  (∀ logType, logType ∈ log_types → ∃ lpm, LookupParser parsersRegistry logType = Ret lpm ∧ lpmParser lpm = logType) ∧
  (∀ logType, logType ∉ log_types → LookupParser parsersRegistry logType = Panic ("Cannot find LogType: " +:+ logType)) ∧
  (∀ t1 t2, t1 ∈ log_types → t2 ∈ log_types → GetTableName t1 = GetTableName t2 → t1 = t2).
Proof.
  unfold LookupParser. split_and!.
  - intros t Ht. rewrite registry_lookup, decide_True by done. eauto.
  - intros t Ht. by rewrite registry_lookup, decide_False.
  - assert (NoDup (GetTableName <$> log_types)) as Hn by (by apply (bool_decide_unpack (NoDup (GetTableName <$> log_types))); vm_compute).
    intros t1 t2 [i Hi]%list_elem_of_lookup [j Hj]%list_elem_of_lookup E.
    assert (i = j) as ->; [|by simplify_eq].
    eapply NoDup_lookup; [exact Hn| |]; rewrite list_lookup_fmap; [by rewrite Hi|by rewrite Hj; simpl; rewrite E].
Qed.
End Registry.

(** ** What the extractor finds *)

(** the sets of identifiers of an AWS log *)
Inductive indicator := AnARN | AnAccount | AnInstance | ATag | AnIP | ADomain.

Definition identifiers {Ev} (pl : AWSPantherLog Ev) (x : indicator) : gset string :=
  contents match x with
  | AnARN => PantherAnyAWSARNs pl
  | AnAccount => PantherAnyAWSAccountIds pl
  | AnInstance => PantherAnyAWSInstanceIds pl
  | ATag => PantherAnyAWSTags pl
  | AnIP => PantherAnyIPAddresses (pantherLog pl)
  | ADomain => PantherAnyDomainNames (pantherLog pl)
  end.

(** a fold whose steps add to a set *)
Lemma foldl_adds {A L} (P : L → Prop) (Q : A → Prop) (f : L → A → L) l (xs : list A) :
  (∀ l a, a ∈ xs → P (f l a) ↔ P l ∨ Q a) → P (foldl f l xs) ↔ P l ∨ ∃ a, a ∈ xs ∧ Q a.
Proof.
  revert l. induction xs as [|a xs IH]; intros l Hf; simpl.
  - split; [by left|]. intros [?|(?&?%elem_of_nil&?)]; done.
  - rewrite IH by (intros; apply Hf; by right). rewrite Hf by left. set_solver.
Qed.

Lemma nonempty_one (s w : string) : s ∈ nonempty [w] ↔ s = w ∧ w ≠ "".
Proof. rewrite nonempty_cons. unfold nonempty. case_decide; set_solver. Qed.

(** which of the sets an append changes *)
Ltac ids x :=
  destruct x; unfold identifiers, append_domain;
  cbn [AppendAnyAWSARNs AppendAnyAWSAccountIds AppendAnyAWSInstanceIds AppendAnyAWSTags on_log AppendAnyDomainNames set_ip fst
    pantherLog PantherAnyAWSARNs PantherAnyAWSAccountIds PantherAnyAWSInstanceIds PantherAnyAWSTags PantherAnyIPAddresses
    PantherAnyDomainNames];
  rewrite ?lazy_append_contents, ?elem_of_union, ?nonempty_one; naive_solver.

Section Appends.
Context {Ev : Type}.
Implicit Types pl : AWSPantherLog Ev.

Lemma ids_arns pl w x s : s ∈ identifiers (AppendAnyAWSARNs pl [w]) x ↔ s ∈ identifiers pl x ∨ x = AnARN ∧ s = w ∧ w ≠ "".
Proof. by ids x. Qed.
Lemma ids_accounts pl w x s :
  s ∈ identifiers (AppendAnyAWSAccountIds pl [w]) x ↔ s ∈ identifiers pl x ∨ x = AnAccount ∧ s = w ∧ w ≠ "".
Proof. by ids x. Qed.
Lemma ids_instances pl w x s :
  s ∈ identifiers (AppendAnyAWSInstanceIds pl [w]) x ↔ s ∈ identifiers pl x ∨ x = AnInstance ∧ s = w ∧ w ≠ "".
Proof. by ids x. Qed.
Lemma ids_tags pl w x s :
  s ∈ identifiers (AppendAnyAWSTags pl [w]) x ↔ s ∈ identifiers pl x ∨ x = ATag ∧ s = w ∧ w ≠ "".
Proof. by ids x. Qed.
Lemma ids_domain pl w x s :
  s ∈ identifiers (append_domain pl w) x ↔ s ∈ identifiers pl x ∨ x = ADomain ∧ s = w ∧ w ≠ "".
Proof. by ids x. Qed.
Lemma ids_ip pl w x s :
  s ∈ identifiers (append_ip pl w) x ↔ s ∈ identifiers pl x ∨ x = AnIP ∧ s = w ∧ ParseIP w = true.
Proof.
  unfold append_ip, AppendAnyIPAddress. destruct (ParseIP w) eqn:Hw.
  - pose proof (ip_nonempty w Hw) as Hne.
    by ids x.
  - by ids x.
Qed.
End Appends.

Lemma contains_slash r : has_prefix "instance/" r = true → contains_byte "/" r = true.
Proof.
  do 9 (destruct r as [|? r]; [done|]; simpl; case_decide; [subst|done]; try done).
Qed.

Lemma list_last_default (l : list string) d : List.last l d = default d (last l).
Proof. induction l as [|a [|b l] IH]; [done..|]. exact IH. Qed.

Lemma instance_of_last p id : has_prefix "i-" id = true → contains_byte "/" id = false → instance_of (p +:+ String "/" id) = Some id.
Proof.
  intros Hi Hc. unfold instance_of. rewrite list_last_default, last_split by done. simpl.
  rewrite decide_True; [done|]. rewrite string_length_app. destruct id as [|? [|? id]]; simpl in *; [done| |lia].
  exfalso. by repeat case_match.
Qed.

(** the instance of an ARN is what follows its last slash *)
Lemma instance_of_iff r id : has_prefix "instance/" r = true →
  instance_of r = Some id ∧ has_prefix "i-" id = true ↔
  ∃ p, r = p +:+ String "/" id ∧ contains_byte "/" id = false ∧ has_prefix "i-" id = true.
Proof.
  intros Hr. split.
  - intros [Hi Hp]. destruct (split_at_last "/" r (contains_slash r Hr)) as (p&id'&->&Hid).
    unfold instance_of in Hi. rewrite list_last_default, last_split in Hi by done. simpl in Hi.
    case_decide; simplify_eq. eauto.
  - intros (p&->&Hc&Hi). split; [by apply instance_of_last|done].
Qed.

Lemma prefix_nonempty p s : p ≠ "" → has_prefix p s = true → s ≠ "".
Proof. by destruct p, s. Qed.

(** the two steps after the ARN itself *)
Lemma account_ids {Ev} (pl : AWSPantherLog Ev) acc x s :
  s ∈ identifiers (if decide (String.length acc = 12%nat) then AppendAnyAWSAccountIds pl [acc] else pl) x ↔
  s ∈ identifiers pl x ∨ x = AnAccount ∧ s = acc ∧ String.length acc = 12%nat.
Proof.
  case_decide; [rewrite ids_accounts|]; [|intuition congruence]. destruct acc; [done|]. intuition congruence.
Qed.

Lemma instance_ids {Ev} (pl : AWSPantherLog Ev) r x s :
  s ∈ identifiers (if has_prefix "instance/" r then
      match instance_of r with
      | Some instanceID => if has_prefix "i-" instanceID then AppendAnyAWSInstanceIds pl [instanceID] else pl
      | None => pl
      end
    else pl) x ↔
  s ∈ identifiers pl x ∨
  x = AnInstance ∧ has_prefix "instance/" r = true ∧ instance_of r = Some s ∧ has_prefix "i-" s = true.
Proof.
  destruct (has_prefix "instance/" r); [|intuition congruence]. destruct (instance_of r) as [id|]; [|intuition congruence].
  destruct (has_prefix "i-" id) eqn:Hi; [rewrite ids_instances|intuition congruence].
  pose proof (prefix_nonempty "i-" id ltac:(done) Hi). intuition congruence.
Qed.

Section ExtractSpec.
Context {R : Type} `{FiniteJson R} (ParseARN : string → result ARN) {Ev : Type}.
Implicit Types (pl : AWSPantherLog Ev) (k v : R).

(** the pairs of key and value a document holds, at any depth *)
Inductive Node (doc : R) : R → R → Prop :=
  | Node_here k v : (k, v) ∈ ForEach doc → Node doc k v
  | Node_deep k v k' v' : (k, v) ∈ ForEach doc → IsArray v || IsObject v = true → Node v k' v' → Node doc k' v'.

Definition arn_value v : Prop := has_prefix "arn:" (Str v) = true.
Definition instance_key k : Prop := Str k = "instanceId" ∨ has_suffix "InstanceId" (Str k) = true.
Definition account_key k : Prop := Str k = "accountId" ∨ has_suffix "AccountId" (Str k) = true.

(** the identifiers of one pair *)
Inductive Finds k v : indicator → string → Prop :=
  | F_arn a : arn_value v → ParseARN (Str v) = Ok a → Finds k v AnARN (Str v)
  | F_arn_account a : arn_value v → ParseARN (Str v) = Ok a → String.length (arnAccountID a) = 12%nat →
      Finds k v AnAccount (arnAccountID a)
  | F_arn_instance a p id : arn_value v → ParseARN (Str v) = Ok a → has_prefix "instance/" (arnResource a) = true →
      arnResource a = p +:+ String "/" id → contains_byte "/" id = false → has_prefix "i-" id = true →
      Finds k v AnInstance id
  | F_instance : ¬ arn_value v → instance_key k → has_prefix "i-" (Str v) = true → Finds k v AnInstance (Str v)
  | F_account : ¬ arn_value v → ¬ instance_key k → account_key k → String.length (Str v) = 12%nat →
      Finds k v AnAccount (Str v)
  | F_tag i t : ¬ arn_value v → Str k = "tags" → IsArray v = true → (i, t) ∈ ForEach v →
      Exists (Get t "key") && Exists (Get t "value") = true →
      Finds k v ATag (Str (Get t "key") +:+ ":" +:+ Str (Get t "value"))
  | F_ipv6 i a : ¬ arn_value v → Str k = "ipv6Addresses" → IsArray v = true → (i, a) ∈ ForEach v →
      ParseIP (Str a) = true → Finds k v AnIP (Str a)
  | F_ip : ¬ arn_value v → Str k ∈ ["publicIp"; "privateIpAddress"; "ipAddressV4"] → ParseIP (Str v) = true →
      Finds k v AnIP (Str v)
  | F_domain : ¬ arn_value v → Str k ∈ ["publicDnsName"; "privateDnsName"; "domain"] → Str v ≠ "" →
      Finds k v ADomain (Str v).

Definition Found (doc : R) (x : indicator) (s : string) : Prop := ∃ k v, Node doc k v ∧ Finds k v x s.

Lemma extract_arn_ids pl k v x s :
  arn_value v → s ∈ identifiers (extract_arn ParseARN pl (Str v)) x ↔ s ∈ identifiers pl x ∨ Finds k v x s.
Proof using Type*.
  intros Ha. assert (Str v ≠ "") as Hv by (intros E; unfold arn_value in Ha; by rewrite E in Ha).
  unfold extract_arn. destruct (ParseARN (Str v)) as [a|e] eqn:Hp.
  2:{ split; [by left|]. intros [?|Hf]; [done|]. inversion Hf; subst; congruence. }
  cbv zeta. rewrite instance_ids, account_ids, ids_arns. split.
  - intros [[[?|(->&->&_)]|(->&->&?)]|(->&Hr&Hi)]; [by left|right; by econstructor|right; by econstructor|right].
    apply (instance_of_iff _ _ Hr) in Hi as (p&?&?&?). by eapply F_arn_instance.
  - intros [?|Hf]; [by left; left; left|]. destruct Hf as [a' _ Hp'|a' _ Hp'|a' p id _ Hp'| | | | | |]; try done;
      rewrite Hp in Hp'; injection Hp' as <-.
    + left. left. by right.
    + left. by right.
    + right. split_and!; [done..| |]; eapply instance_of_iff; eauto.
Qed.

(** the other keys that are looked at *)
Definition plain_keys : list string :=
  ["tags"; "ipv6Addresses"; "publicIp"; "privateIpAddress"; "ipAddressV4"; "publicDnsName"; "privateDnsName"; "domain"].

Lemma plain_key k : Str k ∈ plain_keys → ¬ instance_key k ∧ ¬ account_key k.
Proof using Type.
  clear. intros Hk. unfold instance_key, account_key. revert Hk. generalize (Str k) as key.
  intros key Hk. repeat (apply elem_of_cons in Hk as [->|Hk]); [by split; intros [?|?]..|]. by apply elem_of_nil in Hk.
Qed.

(** a branch of the extractor: one constructor of [Finds] fits, the others need another key *)
Ltac plain := match goal with
  | Hk : Str ?k = _ |- _ => destruct (plain_key k); [rewrite Hk; set_solver|done]
  | Hk : Str ?k ∈ _ |- _ => destruct (plain_key k); [set_solver|done]
  end.

Ltac clash := match goal with
  | Hk : Str ?k = ?a, Hi : Str ?k = ?b |- _ => congruence
  | Hk : Str ?k = ?a, Hi : Str ?k ∈ ?l |- _ =>
      rewrite Hk in Hi; repeat (apply elem_of_cons in Hi as [?|Hi]; [done|]); by apply elem_of_nil in Hi
  end.

Lemma instance_branch pl k v x s : ¬ arn_value v → instance_key k →
  s ∈ identifiers (if has_prefix "i-" (Str v) then AppendAnyAWSInstanceIds pl [Str v] else pl) x ↔
  s ∈ identifiers pl x ∨ Finds k v x s.
Proof using Type*.
  intros Hv Hi. destruct (has_prefix "i-" (Str v)) eqn:Hp; [rewrite ids_instances|].
  - split; [intros [?|(->&->&_)]; [by left|right; by apply F_instance]|].
    intros [?|Hf]; [by left|right]. destruct Hf; try done; try plain.
    split_and!; [done..|]. by apply (prefix_nonempty "i-").
  - split; [by left|]. intros [?|Hf]; [done|]. destruct Hf; try done; try plain. congruence.
Qed.

Lemma account_branch pl k v x s : ¬ arn_value v → ¬ instance_key k → account_key k →
  s ∈ identifiers (if decide (String.length (Str v) = 12%nat) then AppendAnyAWSAccountIds pl [Str v] else pl) x ↔
  s ∈ identifiers pl x ∨ Finds k v x s.
Proof using Type*.
  intros Hv Hi Ha. rewrite account_ids. split; (intros [?|Hf]; [by left|right]).
  - destruct Hf as (->&->&?). by apply F_account.
  - destruct Hf; try done; plain.
Qed.

Lemma tag_ids pl t x s :
  s ∈ identifiers (append_tag pl t) x ↔ s ∈ identifiers pl x ∨
    x = ATag ∧ Exists (Get t "key") && Exists (Get t "value") = true ∧ s = Str (Get t "key") +:+ ":" +:+ Str (Get t "value").
Proof using Type.
  clear ParseARN. unfold append_tag. destruct (_ && _); [rewrite ids_tags|intuition congruence].
  assert (Str (Get t "key") +:+ ":" +:+ Str (Get t "value") ≠ "") by (by destruct (Str (Get t "key"))).
  intuition congruence.
Qed.

(** the keys that are matched exactly *)
Lemma other_branch pl k v x s : ¬ arn_value v → ¬ instance_key k → ¬ account_key k →
  s ∈ identifiers
    (if String.eqb (Str k) "tags" then
       if IsArray v then foldl (λ pl kv, append_tag pl kv.2) pl (ForEach v) else pl
     else if String.eqb (Str k) "ipv6Addresses" then
       if IsArray v then foldl (λ pl kv, append_ip pl (Str kv.2)) pl (ForEach v) else pl
     else if decide (Str k ∈ ip_keys) then append_ip pl (Str v)
     else if decide (Str k ∈ domain_keys) then append_domain pl (Str v)
     else pl) x ↔
  s ∈ identifiers pl x ∨ Finds k v x s.
Proof using Type*.
  intros Hv Hi Ha.
  destruct (String.eqb_spec (Str k) "tags") as [Hk|Hk1].
  { destruct (IsArray v) eqn:Harr.
    2:{ split; [by left|]. intros [?|Hf]; [done|]. destruct Hf; try done; clash. }
    rewrite (foldl_adds (λ pl, s ∈ identifiers pl x)) by (intros; apply tag_ids).
    split; (intros [?|Hf]; [by left|right]).
    - destruct Hf as ([i t]&Hin&->&He&->). by eapply F_tag.
    - destruct Hf as [| | | | |i t| | |]; try done; [|clash..]. by exists (i, t). }
  destruct (String.eqb_spec (Str k) "ipv6Addresses") as [Hk|Hk2].
  { destruct (IsArray v) eqn:Harr.
    2:{ split; [by left|]. intros [?|Hf]; [done|]. destruct Hf; try done; clash. }
    rewrite (foldl_adds (λ pl, s ∈ identifiers pl x)) by (intros; apply ids_ip).
    split; (intros [?|Hf]; [by left|right]).
    - destruct Hf as ([i t]&Hin&->&->&He). by eapply F_ipv6.
    - destruct Hf as [| | | | | |i t| |]; try done; [|clash..]. by exists (i, t). }
  unfold ip_keys, domain_keys. case_decide as Hk3; [rewrite ids_ip|case_decide as Hk4; [rewrite ids_domain|]].
  - split; (intros [?|Hf]; [by left|right]); [destruct Hf as (->&->&?); by apply F_ip|].
    destruct Hf; try done. exfalso. repeat (apply elem_of_cons in Hk3 as [Hk3|Hk3]; [clash|]). by apply elem_of_nil in Hk3.
  - split; (intros [?|Hf]; [by left|right]); [destruct Hf as (->&->&?); by apply F_domain|].
    destruct Hf; done.
  - split; [by left|]. intros [?|Hf]; [done|]. by destruct Hf.
Qed.

(** what one pair adds *)
Lemma Extract_ids pl k v x s :
  s ∈ identifiers (AWSExtractor_Extract ParseARN pl k v) x ↔ s ∈ identifiers pl x ∨ Finds k v x s.
Proof using Type*.
  unfold AWSExtractor_Extract. destruct (has_prefix "arn:" (Str v)) eqn:Ha; [by apply extract_arn_ids|].
  assert (¬ arn_value v) as Hv by (unfold arn_value; by rewrite Ha).
  destruct (String.eqb (Str k) "instanceId" || has_suffix "InstanceId" (Str k)) eqn:Hi.
  { apply instance_branch; [done|]. apply orb_true_iff in Hi. by rewrite String.eqb_eq in Hi. }
  assert (¬ instance_key k) as Hi'.
  { intros Hk. apply orb_false_iff in Hi as [Hi1 Hi2]. apply String.eqb_neq in Hi1. destruct Hk; congruence. }
  destruct (String.eqb (Str k) "accountId" || has_suffix "AccountId" (Str k)) eqn:Hacc.
  { apply account_branch; [done..|]. apply orb_true_iff in Hacc. by rewrite String.eqb_eq in Hacc. }
  apply other_branch; [done..|].
  intros Hk. apply orb_false_iff in Hacc as [H1 H2]. apply String.eqb_neq in H1. destruct Hk; congruence.
Qed.

(** what a document adds, with fuel for its depth *)
Lemma Parsed_ids fuel pl doc x s : (depth doc < fuel)%nat →
  s ∈ identifiers (Parsed (AWSExtractor_Extract ParseARN) fuel pl doc) x ↔ s ∈ identifiers pl x ∨ Found doc x s.
Proof using Type*.
  revert pl doc. induction fuel as [|fuel IH]; intros pl doc Hd; [lia|].
  assert (∀ pl kv, kv ∈ ForEach doc →
    s ∈ identifiers (if IsArray kv.2 || IsObject kv.2 then Parsed (AWSExtractor_Extract ParseARN) fuel
                       (AWSExtractor_Extract ParseARN pl kv.1 kv.2) kv.2
                     else AWSExtractor_Extract ParseARN pl kv.1 kv.2) x ↔
    s ∈ identifiers pl x ∨ (Finds kv.1 kv.2 x s ∨ IsArray kv.2 || IsObject kv.2 = true ∧ Found kv.2 x s)) as Hstep.
  { intros pl' [k v] Hin. simpl. destruct (IsArray v || IsObject v) eqn:Hc.
    - rewrite IH by (pose proof (depth_lt doc k v Hin Hc); lia). rewrite Extract_ids. tauto.
    - rewrite Extract_ids. intuition congruence. }
  simpl. rewrite (foldl_adds (λ pl, s ∈ identifiers pl x) _ _ _ _ Hstep).
  apply or_iff_compat_l. split.
  - intros ([k v]&Hin&[Hf|(Hc&k'&v'&Hn&Hf)]); [exists k, v|exists k', v']; split; [by constructor|done| |done].
    by eapply Node_deep.
  - intros (k&v&Hn&Hf). destruct Hn as [k v Hin|k v k' v' Hin Hc Hn].
    + exists (k, v). split; [done|by left].
    + exists (k, v). split; [done|]. right. split; [done|]. by exists k', v'.
Qed.
(** the rest of the log *)
Definition rest_of pl := (core (pantherLog pl), PantherAnySHA1Hashes (pantherLog pl), PantherAnyMD5Hashes (pantherLog pl)).

Lemma foldl_frame {A L X} (P : L → X) (f : L → A → L) l (xs : list A) :
  (∀ l a, a ∈ xs → P (f l a) = P l) → P (foldl f l xs) = P l.
Proof using Type.
  clear. revert l. induction xs as [|a xs IH]; intros l Hf; [done|]. simpl.
  rewrite IH by (intros; apply Hf; by right). apply Hf. by left.
Qed.

Lemma append_ip_rest pl w : rest_of (append_ip pl w) = rest_of pl.
Proof using Type. clear. unfold append_ip, AppendAnyIPAddress. by destruct (ParseIP w). Qed.

Lemma Extract_rest pl k v : rest_of (AWSExtractor_Extract ParseARN pl k v) = rest_of pl.
Proof using Type*.
  unfold AWSExtractor_Extract, extract_arn. 
  repeat (case_decide || case_match);
    first [done|apply append_ip_rest|apply foldl_frame; intros pl' kv _].
  all: first [apply append_ip_rest|unfold append_tag; by destruct (_ && _)].
Qed.

Lemma Parsed_rest fuel pl doc : rest_of (Parsed (AWSExtractor_Extract ParseARN) fuel pl doc) = rest_of pl.
Proof using Type*.
  revert pl doc. induction fuel as [|fuel IH]; intros pl doc; simpl; apply foldl_frame; intros pl' kv _.
  - apply Extract_rest.
  - case_match; [rewrite IH|]; apply Extract_rest.
Qed.

(** C20: extract.Extract with the AWS extractor finds exactly the identifiers of a
    document: a value is in a set of the log afterwards (ARNs, accounts,
    instances, tags, IP addresses, domain names) when it was there before or a
    pair of key and value of the document, at any depth, has it; the fuel given
    to the walk is enough for every document, and nothing else of the log
    changes. *)
Theorem aws_extract_exact {Raw : Type} (ParseBytes : Raw → R) pl raw x s :
  let pl' := Extract ParseBytes (AWSExtractor_Extract ParseARN) pl (Some raw) in
  (s ∈ identifiers pl' x ↔ s ∈ identifiers pl x ∨ Found (ParseBytes raw) x s) ∧
  rest_of pl' = rest_of pl ∧
  Extract ParseBytes (AWSExtractor_Extract ParseARN) pl None = pl.
Proof using Type*. split_and!; [apply Parsed_ids; lia|apply Parsed_rest|done]. Qed.
End ExtractSpec.

(** ** A document *)

(** JSON of strings; a missing member is the empty string of the library *)
Inductive doc := DNone | DStr (s : string) | DArr (l : list doc) | DObj (l : list (string * doc)).

Fixpoint doc_depth (d : doc) : nat :=
  match d with
  | DNone | DStr _ => 0
  | DArr l => S (foldr (λ c n, Nat.max (doc_depth c) n) 0%nat l)
  | DObj l => S (foldr (λ kc n, Nat.max (doc_depth kc.2) n) 0%nat l)
  end.

#[local] Instance doc_gjson : GJson doc := {|
  Str d := match d with DStr s => s | _ => "" end;
  IsArray d := match d with DArr _ => true | _ => false end;
  IsObject d := match d with DObj _ => true | _ => false end;
  ForEach d := match d with
               | DNone => []
               | DStr s => [(DNone, DStr s)]
               | DArr l => (λ c, (DNone, c)) <$> l
               | DObj l => (λ kc, (DStr kc.1, kc.2)) <$> l
               end;
  Get d key := match d with
               | DObj l => match list_find (λ kc, kc.1 = key) l with Some (_, kc) => kc.2 | None => DNone end
               | _ => DNone
               end;
  Exists d := match d with DNone => false | _ => true end
|}.

Lemma foldr_max_le {A} (f : A → nat) (l : list A) a : a ∈ l → (f a ≤ foldr (λ c n, Nat.max (f c) n) 0%nat l)%nat.
Proof. induction 1 as [|b l Hin IH]; simpl; lia. Qed.

Lemma doc_depth_lt (v k c : doc) :
  (k, c) ∈ ForEach v → IsArray c || IsObject c = true → (doc_depth c < doc_depth v)%nat.
Proof.
  destruct v as [|s|l|l]; simpl; intros Hin Hc.
  - by apply elem_of_nil in Hin.
  - apply list_elem_of_singleton in Hin. by simplify_eq.
  - apply list_elem_of_fmap in Hin as (c'&E&Hin). simplify_eq/=. pose proof (foldr_max_le doc_depth l c' Hin). lia.
  - apply list_elem_of_fmap in Hin as ([key c']&E&Hin). simplify_eq/=.
    pose proof (foldr_max_le (λ kc : string * doc, doc_depth kc.2) l (key, c') Hin). simpl in *. lia.
Qed.

#[local] Instance doc_finite : FiniteJson doc := {| depth := doc_depth; depth_lt := doc_depth_lt |}.

(** arn:partition:service:region:account:resource *)
Definition demo_ParseARN (s : string) : result ARN :=
  match split_on ":" s with
  | _ :: _ :: _ :: _ :: account :: r => Ok {| arnAccountID := account; arnResource := join_with ":" r |}
  | _ => Err (ErrMsg "arn: not enough sections")
  end.

Definition demo_doc : doc :=
  DObj [("items", DArr [DObj [("instanceId", DStr "i-081de1d7604b11e4a");
                              ("arn", DStr "arn:aws:ec2:us-east-1:123456789012:instance/i-0072360f75fafc222");
                              ("tags", DArr [DObj [("key", DStr "env"); ("value", DStr "prod")]]);
                              ("publicIp", DStr "54.152.215.140"); ("publicDnsName", DStr "ec2.example.com")]])].

Lemma aws_extract_exact_witness :
  let pl := Extract (λ raw : doc, raw) (AWSExtractor_Extract demo_ParseARN) (no_aws_fields (Event := unit)) (Some demo_doc) in
  Found demo_ParseARN demo_doc AnInstance "i-0072360f75fafc222" ∧
  Found demo_ParseARN demo_doc AnAccount "123456789012" ∧ Found demo_ParseARN demo_doc ATag "env:prod" ∧
  identifiers pl AnInstance = {["i-081de1d7604b11e4a"; "i-0072360f75fafc222"]}.
Proof.
  assert (∀ x s, bool_decide (s ∈ identifiers (Extract (λ raw : doc, raw) (AWSExtractor_Extract demo_ParseARN)
    (no_aws_fields (Event := unit)) (Some demo_doc)) x) = true → s ∉ identifiers (no_aws_fields (Event := unit)) x →
    Found demo_ParseARN demo_doc x s) as H.
  { intros x s Hin%bool_decide_eq_true Hno.
    apply (aws_extract_exact demo_ParseARN (λ raw : doc, raw) no_aws_fields demo_doc x s) in Hin as [Hin|Hin];
      [contradiction|exact Hin]. }
  split; [apply H; [vm_compute; reflexivity|apply not_elem_of_empty]|].
  split; [apply H; [vm_compute; reflexivity|apply not_elem_of_empty]|].
  split; [apply H; [vm_compute; reflexivity|apply not_elem_of_empty]|].
  vm_compute. reflexivity.
Defined.
