(* ===== verification/Timestamp.v ===== *)
(** * Timestamps of logs

    Model of src/internal/log_analysis/log_processor/parsers/timestamp: the types
    that read the formats of time the logs have and write one format.  A value is
    an instant in UTC.  time.Parse, time.Format and the parts of a float are
    parameters.  The theorem shows which milliseconds are read exactly. *)

From S2P Require Import Prelude GoTime.

#[local] Open Scope Z_scope.
#[local] Set Default Proof Using "Type".

Section Timestamp.
Context (time_Parse : string → string → result Time) (Format : string → Time → string).
Context (time_UnmarshalJSON : Time → string → Time * option error).
(** strconv.ParseFloat and math.Modf: int64(intPart) and int64(fracPart*1e9) *)
Context (ParseFloat : string → result (Z * Z)).

Definition quoted (layout : string) : string := String "034" (layout +:+ String "034" "").
Definition jsonMarshalLayout : string := quoted "2006-01-02 15:04:05.000000000".
Definition ansicWithTZUnmarshalLayout : string := quoted "Mon Jan 2 15:04:05 2006 MST".
Definition fluentdTimestampLayout : string := quoted "2006-01-02 15:04:05 -0700".
Definition suricataTimestampLayout : string := quoted "2006-01-02T15:04:05.999999999Z0700".

(** the types, by the format they read *)
Inductive format := RFC3339 | ANSICwithTZ | UnixMillisecond | FluentdTimestamp | SuricataTimestamp | UnixFloat.

(** MarshalJSON is the same for each *)
Definition MarshalJSON (f : format) (ts : Time) : result string := Ok (Format jsonMarshalLayout ts).

Definition with_layout (layout : string) (ts : Time) (jsonBytes : string) : Time * option error :=
  match time_Parse layout jsonBytes with Ok t => (t, None) | Err e => (ts, Some e) end.

(** time.Unix of seconds and nanoseconds *)
Definition time_Unix (sec nsec : Z) : Time := Unix sec + nsec.
Definition Millisecond : Z := 1000000.

Definition UnmarshalJSON (f : format) (ts : Time) (jsonBytes : string) : Time * option error :=
  match f with
  | RFC3339 => time_UnmarshalJSON ts jsonBytes
  | ANSICwithTZ => with_layout ansicWithTZUnmarshalLayout ts jsonBytes
  | FluentdTimestamp => with_layout fluentdTimestampLayout ts jsonBytes
  | SuricataTimestamp => with_layout suricataTimestampLayout ts jsonBytes
  | UnixMillisecond =>
      match atoi jsonBytes with
      | Err e => (ts, Some e)
      | Ok value => (time_Unix 0 (int64 (value * Millisecond)), None)
      end
  | UnixFloat =>
      match ParseFloat jsonBytes with
      | Err e => (ts, Some e)
      | Ok (sec, nsec) => (time_Unix sec nsec, None)
      end
  end.

(** Milliseconds are read exactly within 292 years of 1970; above that the
    product wraps around and another time is read. *)
Theorem unix_millisecond_exact ts s ms : atoi s = Ok ms → in_int64 (ms * Millisecond) →
  UnmarshalJSON UnixMillisecond ts s = (Unix 0 + ms * Millisecond, None).
Proof using Type. intros Hs Hr. simpl. rewrite Hs. unfold time_Unix. by rewrite int64_id. Qed.

Example unix_millisecond_wraps ts :
  ∃ t, UnmarshalJSON UnixMillisecond ts "9223372036855" = (t, None) ∧ t < Unix 0.
Proof using Type. eexists. split; [reflexivity|]. by vm_compute. Qed.
End Timestamp.
