(* ===== verification/UsersApi.v ===== *)
(** * The users API

    Model of src/internal/core/users_api: the gateway to the Cognito user pool
    (cognito), the handlers of the Lambda function and the message Cognito asks for
    when a password is reset (api).  Cognito, url.QueryEscape and url.QueryUnescape
    are parameters.  The theorems show which users a listing returns, that requests
    handled one after the other never remove the last user, and that requests
    handled at the same time can. *)

From S2P Require Import Prelude GoStrings GoTime GoSort Classifier AlertOutputs Sqsbatch GenericApi.

#[local] Open Scope Z_scope.
#[local] Set Default Proof Using "Type".

(** ** Data *)

(** provider.AttributeType and provider.UserType *)
Record AttributeType := { atName : option string; atValue : option string }.
Record UserType := {
  utUserCreateDate : option Time; utUsername : option string; utUserStatus : option string; utAttributes : list AttributeType
}.

(** models.User *)
Record User := {
  uCreatedAt : option Z; uEmail : option string; uFamilyName : option string; uGivenName : option string;
  uID : option string; uStatus : option string
}.

(** the requests; what the validator of the router requires is not a pointer *)
Record InviteUserInput := { inGivenName : string; inFamilyName : string; inEmail : string; inMessageAction : option string }.
Record ListUsersInput := {
  liContains : option string; liStatus : option string; liSortBy : option string; liSortDir : option string
}.
Record UpdateUserInput := {
  upID : string; upGivenName : option string; upFamilyName : option string; upEmail : option string
}.

(** models.Validator: at least one attribute to update *)
Definition atLeastOneUpdate (i : UpdateUserInput) : bool :=
  negb (bool_decide (upGivenName i = None) && bool_decide (upFamilyName i = None) && bool_decide (upEmail i = None)).

Record AdminCreateUserInput := {
  cuDesiredDeliveryMediums : list string; cuMessageAction : option string; cuUserAttributes : list AttributeType;
  cuUsername : string
}.

Definition UserNotFoundException : string := "UserNotFoundException".
Definition not_found (e : error) : bool :=
  match e with ErrAWS code _ => String.eqb code UserNotFoundException | _ => false end.

(** ** The user pool

    The calls of the provider; [ListUsersPages] gives the pages it passes to its
    callback and the error it ends with. *)
Class Cognito (W : Type) := {
  ListUsersPages : W → W * (list (list UserType) * option error);
  AdminCreateUser : W → AdminCreateUserInput → W * result UserType;
  AdminDeleteUser : W → string → W * option error;
  AdminGetUser : W → string → W * result UserType;
  AdminUpdateUserAttributes : W → list AttributeType → string → W * option error;
  AdminResetUserPassword : W → string → W * option error
}.

(** ** The gateway (cognito) *)

Definition set_attribute (u : User) (a : AttributeType) : outcome User :=
  match atName a with
  | None => Panic "nil pointer dereference"
  | Some name =>
      Ret (if String.eqb name "email" then
             {| uCreatedAt := uCreatedAt u; uEmail := atValue a; uFamilyName := uFamilyName u; uGivenName := uGivenName u;
                uID := uID u; uStatus := uStatus u |}
           else if String.eqb name "family_name" then
             {| uCreatedAt := uCreatedAt u; uEmail := uEmail u; uFamilyName := atValue a; uGivenName := uGivenName u;
                uID := uID u; uStatus := uStatus u |}
           else if String.eqb name "given_name" then
             {| uCreatedAt := uCreatedAt u; uEmail := uEmail u; uFamilyName := uFamilyName u; uGivenName := atValue a;
                uID := uID u; uStatus := uStatus u |}
           else u)
  end.

Fixpoint set_attributes (u : User) (attrs : list AttributeType) : outcome User :=
  match attrs with
  | [] => Ret u
  | a :: attrs => u ← set_attribute u a; set_attributes u attrs
  end.

Definition toUser (createdAt : option Time) (username status : option string) (attrs : list AttributeType) : outcome User :=
  match createdAt with
  | None => Panic "nil pointer dereference"
  | Some t =>
      set_attributes {| uCreatedAt := Some (ToUnix t); uEmail := None; uFamilyName := None; uGivenName := None;
                        uID := username; uStatus := status |} attrs
  end.

Definition user_of (u : UserType) : outcome User := toUser (utUserCreateDate u) (utUsername u) (utUserStatus u) (utAttributes u).

Definition userAttributes (first last email : option string) : list AttributeType :=
  let add name value := match value with None => [] | Some v => [{| atName := Some name; atValue := Some v |}] end in
  add "given_name" first ++ add "family_name" last ++
  match email with
  | None => []
  | Some e => [{| atName := Some "email"; atValue := Some (to_lower e) |};
               {| atName := Some "email_verified"; atValue := Some "true" |}]
  end.

(** the filters of a listing *)
Definition status_kept (input : ListUsersInput) (user : User) : bool :=
  match liStatus input with None => true | Some s => String.eqb s (default "" (uStatus user)) end.
Definition search_kept (input : ListUsersInput) (user : User) : bool :=
  let search := default "" (liContains input) in
  if String.eqb search "" then true
  else contains search (to_lower (default "" (uGivenName user))) ||
       contains search (to_lower (default "" (uFamilyName user))) ||
       contains search (to_lower (default "" (uEmail user))).
Definition kept (input : ListUsersInput) (user : User) : bool := status_kept input user && search_kept input user.

Fixpoint page_users (input : ListUsersInput) (users : list UserType) : outcome (list User) :=
  match users with
  | [] => Ret []
  | u :: users =>
      user ← user_of u;
      rest ← page_users input users;
      Ret (if kept input user then user :: rest else rest)
  end.

(** the comparison of two users *)
Definition user_less (input : ListUsersInput) (x y : User) : outcome bool :=
  let sortDescending := String.eqb (default "" (liSortDir input)) "descending" in
  let strings a b := a ← deref a; b ← deref b; Ret (if sortDescending then sltb b a else sltb a b) in
  let sortBy := default "" (liSortBy input) in
  if String.eqb sortBy "firstName" then strings (uGivenName x) (uGivenName y)
  else if String.eqb sortBy "lastName" then strings (uFamilyName x) (uFamilyName y)
  else if String.eqb sortBy "createdAt" then
    a ← deref (uCreatedAt x); b ← deref (uCreatedAt y); Ret (if sortDescending then bool_decide (b < a) else bool_decide (a < b))
  else strings (uEmail x) (uEmail y).

Section Gateway.
Context {W : Type} `{Cognito W}.
Implicit Types w : W.

Definition gateway_ListUsers w (input : ListUsersInput) : W * outcome (api (list User)) :=
  let '(w, (pages, err)) := ListUsersPages w in
  (w, result ← page_users input (concat pages);
      match err with
      | Some e => Ret (Bad (aws_failure "cognito.ListUsers" e))
      | None => sorted ← sort_slice_outcome (user_less input) result; Ret (Good sorted)
      end).

Definition gateway_CreateUser w (input : InviteUserInput) : W * outcome (api User) :=
  let '(w, r) := AdminCreateUser w
    {| cuDesiredDeliveryMediums := ["EMAIL"]; cuMessageAction := inMessageAction input;
       cuUserAttributes := userAttributes (Some (inGivenName input)) (Some (inFamilyName input)) (Some (inEmail input));
       cuUsername := to_lower (inEmail input) |} in
  (w, match r with
      | Err e => Ret (Bad (aws_failure "cognito.AdminCreateUser" e))
      | Ok u => user ← user_of u; Ret (Good user)
      end).

Definition gateway_DeleteUser w (id : string) : W * option apiErr :=
  let '(w, err) := AdminDeleteUser w id in
  (w, match err with
      | None => None
      | Some e => if not_found e then None else Some (aws_failure "cognito.AdminDeleteUser" e)
      end).

Definition missing_user (id : string) : apiErr := failure DoesNotExistError ("userID=" +:+ id +:+ " does not exist").

Definition gateway_GetUser w (id : string) : W * outcome (api User) :=
  let '(w, r) := AdminGetUser w id in
  (w, match r with
      | Err e => Ret (Bad (if not_found e then missing_user id else aws_failure "cognito.AdminGetUser" e))
      | Ok u => user ← user_of u; Ret (Good user)
      end).

Definition gateway_UpdateUser w (input : UpdateUserInput) : W * option apiErr :=
  let '(w, err) := AdminUpdateUserAttributes w (userAttributes (upGivenName input) (upFamilyName input) (upEmail input)) (upID input) in
  (w, match err with
      | None => None
      | Some e => Some (if not_found e then missing_user (upID input) else aws_failure "cognito.AdminUpdateUserAttributes" e)
      end).

Definition gateway_ResetUserPassword w (id : string) : W * option apiErr :=
  let '(w, err) := AdminResetUserPassword w id in
  (w, aws_failure "cognito.AdminResetUserPassword" <$> err).

(** ** The handlers (api) *)

Context (QueryUnescape : string → result string).

Definition no_filter : ListUsersInput := {| liContains := None; liStatus := None; liSortBy := None; liSortDir := None |}.

(** the search text is decoded, trimmed and compared in lower case *)
Definition decode_contains (input : ListUsersInput) : api ListUsersInput :=
  match liContains input with
  | None => Good input
  | Some c =>
      match QueryUnescape c with
      | Err e => Bad (failure InvalidInputError (String "034" c +:+ String "034" " url decoding failed: " +:+ errText e))
      | Ok decoded =>
          Good {| liContains := Some (to_lower (TrimSpace decoded)); liStatus := liStatus input;
                  liSortBy := liSortBy input; liSortDir := liSortDir input |}
      end
  end.

Definition ListUsers w (input : ListUsersInput) : W * outcome (api (list User)) :=
  match decode_contains input with
  | Bad e => (w, Ret (Bad e))
  | Good input => gateway_ListUsers w input
  end.

Definition GetUser w (id : string) : W * outcome (api User) := gateway_GetUser w id.
Definition InviteUser w (input : InviteUserInput) : W * outcome (api User) := gateway_CreateUser w input.

(** the end of RemoveUser, when the users are listed *)
Definition remove_listed w (users : list User) (id : string) : W * api string :=
  if decide (length users = 1%nat) then (w, Bad (failure InUseError "can't delete the last user"))
  else
    let '(w, err) := gateway_DeleteUser w id in
    (w, match err with Some e => Bad e | None => Good id end).

Definition RemoveUser w (id : string) : W * outcome (api string) :=
  let '(w, users) := gateway_ListUsers w no_filter in
  match users with
  | Panic why => (w, Panic why)
  | Ret (Bad e) => (w, Ret (Bad e))
  | Ret (Good users) => let '(w, r) := remove_listed w users id in (w, Ret r)
  end.

Definition ResetUserPassword w (id : string) : W * api string :=
  let '(w, err) := gateway_ResetUserPassword w id in
  (w, match err with Some e => Bad e | None => Good id end).

Definition UpdateUser w (input : UpdateUserInput) : W * outcome (api User) :=
  let '(w, err) := gateway_UpdateUser w input in
  match err with
  | Some e => (w, Ret (Bad e))
  | None => gateway_GetUser w (upID input)
  end.
End Gateway.

(** ** Messages of Cognito (cognito_trigger.go) *)

(** a value of map[string]interface{}, as far as the assertion to string looks *)
Inductive attribute := AString (s : string) | AOther.

Record CustomMessage := {
  cmTriggerSource : string; cmUserName : string; cmUserAttributes : gmap string attribute; cmCodeParameter : string;
  cmEmailMessage : string; cmEmailSubject : string
}.

Definition string_of (a : option attribute) : option string := match a with Some (AString s) => Some s | _ => None end.

Definition passwordReset (givenName domain code email : string) : string :=
"
<br />Hi " +:+ givenName +:+ ",
<br />
<br />A password reset has been triggered for this email address.
<br />
<br />To set a new password for your Panther account, please click here:
<br />https://" +:+ domain +:+ "/password-reset?token=" +:+ code +:+ "&email=" +:+ email +:+ "
<br />
<br />Need help, or have questions? Just email us at support@runpanther.io, we'd love to help.
<br />
<br />Yours truly,
<br />Panther - https://runpanther.io
<br />
<br /><small>Copyright © 2020 Panther Labs Inc. All rights reserved.</small>
".

Section Trigger.
Context (QueryEscape : string → string) (appDomainURL : string).

Definition handleForgotPassword (event : CustomMessage) : result CustomMessage :=
  let givenName := default "" (string_of (cmUserAttributes event !! "given_name")) in
  match string_of (cmUserAttributes event !! "email") with
  | None => Err (ErrMsg "email attribute not found")
  | Some email =>
      Ok {| cmTriggerSource := cmTriggerSource event; cmUserName := cmUserName event;
            cmUserAttributes := cmUserAttributes event; cmCodeParameter := cmCodeParameter event;
            cmEmailMessage := passwordReset givenName appDomainURL (cmCodeParameter event) (QueryEscape email);
            cmEmailSubject := "Panther Password Reset" |}
  end.

Definition CognitoTrigger (event : CustomMessage) : result CustomMessage :=
  if String.eqb (cmTriggerSource event) "CustomMessage_ForgotPassword" then handleForgotPassword event else Ok event.

(** lambdaHandler: a trigger, or else a request for the router *)
Definition users_lambdaHandler {I O} (handle : I → O) (event : CustomMessage) (input : I) : result CustomMessage + O :=
  if String.eqb (cmTriggerSource event) "" then inr (handle input) else inl (CognitoTrigger event).
End Trigger.

(** ** Theorems *)

(** what Cognito promises: a listing passes every user, a user name is used once,
    a call that fails changes nothing *)
Class CognitoLaws (W : Type) `{Cognito W} := {
  pool : W → list UserType;
  list_pool w w' pages err : ListUsersPages w = (w', (pages, err)) →
    pool w' = pool w ∧ (err = None → concat pages = pool w);
  create_pool w w' input r : AdminCreateUser w input = (w', r) →
    utUsername <$> pool w' = utUsername <$> pool w ∨
    ∃ name, utUsername <$> pool w' = (utUsername <$> pool w) ++ [Some name] ∧ Some name ∉ utUsername <$> pool w;
  delete_pool w w' id err : AdminDeleteUser w id = (w', err) →
    pool w' = match err with None => filter (λ u, utUsername u ≠ Some id) (pool w) | Some _ => pool w end;
  get_pool w w' id r : AdminGetUser w id = (w', r) → pool w' = pool w;
  update_pool w w' attrs id err : AdminUpdateUserAttributes w attrs id = (w', err) →
    utUsername <$> pool w' = utUsername <$> pool w;
  reset_pool w w' id err : AdminResetUserPassword w id = (w', err) → utUsername <$> pool w' = utUsername <$> pool w
}.

(** the requests of the API *)
Inductive request :=
  | RGet (id : string) | RInvite (i : InviteUserInput) | RList (i : ListUsersInput) | RRemove (id : string)
  | RReset (id : string) | RUpdate (i : UpdateUserInput).

Section Laws.
Context {W : Type} `{CognitoLaws W}.
Implicit Types w : W.

Definition names w : list (option string) := utUsername <$> pool w.

(** at least one user, and each name once *)
Definition users_ok w : Prop := names w ≠ [] ∧ NoDup (names w).

Lemma page_users_length users l : page_users no_filter users = Ret l → length l = length users.
Proof using Type.
  clear. revert l. induction users as [|u users IH]; intros l; cbn [page_users]; [by intros [= <-]|].
  destruct (user_of u) as [user|why]; [|done]. cbn. destruct (page_users no_filter users) as [rest|why]; [|done].
  cbn. intros [= <-]. simpl. by rewrite (IH rest).
Qed.

Lemma page_users_filter input users us : mapM user_of users = Ret us →
  page_users input users = Ret (filter (λ u, kept input u = true) us).
Proof using Type.
  clear. revert us. induction users as [|u users IH]; intros us; cbn [page_users mapM]; [by intros [= <-]|].
  destruct (user_of u) as [user|why]; [|done]. cbn. destruct (mapM user_of users) as [us'|why]; [|done].
  cbn. intros [= <-]. rewrite (IH us') by done. cbn [mbind outcome_bind].
  rewrite filter_cons. by destruct (kept input user).
Qed.

Lemma gateway_list_pool w w' input r : gateway_ListUsers w input = (w', r) → pool w' = pool w.
Proof using Type*.
  unfold gateway_ListUsers. destruct (ListUsersPages w) as [w1 [pages err]] eqn:E. intros [= <- _].
  by apply list_pool in E as [? _].
Qed.

(** without filters every user is counted *)
Lemma gateway_list_length w w' users : gateway_ListUsers w no_filter = (w', Ret (Good users)) → length users = length (names w).
Proof using Type*.
  unfold gateway_ListUsers. destruct (ListUsersPages w) as [w1 [pages err]] eqn:E. apply list_pool in E as [_ Hp].
  intros [= _ Hr]. destruct (page_users no_filter (concat pages)) as [l|why] eqn:Hl; [|done]. cbn in Hr.
  destruct err as [e|]; [done|]. destruct (sort_slice_outcome _ l) as [l'|why] eqn:Hs; [|done]. injection Hr as <-.
  rewrite (Permutation_length (sort_slice_perm _ _ _ Hs)), (page_users_length _ _ Hl), Hp by done.
  unfold names. by rewrite length_fmap.
Qed.

Lemma gateway_delete_pool w w' id err : gateway_DeleteUser w id = (w', err) →
  pool w' = pool w ∨ pool w' = filter (λ u, utUsername u ≠ Some id) (pool w).
Proof using Type*.
  unfold gateway_DeleteUser. destruct (AdminDeleteUser w id) as [w1 [e|]] eqn:E; intros [= <- _];
    apply delete_pool in E; eauto.
Qed.

Lemma filter_names w id : utUsername <$> filter (λ u, utUsername u ≠ Some id) (pool w) = filter (λ n, n ≠ Some id) (names w).
Proof using Type.
  unfold names. induction (pool w) as [|u l IH]; [done|]. rewrite fmap_cons, !filter_cons.
  destruct (decide (utUsername u ≠ Some id)); [rewrite fmap_cons|]; by rewrite IH.
Qed.

(** one name less *)
Lemma filter_one (l : list (option string)) id : NoDup l → (2 ≤ length l)%nat → filter (λ n, n ≠ id) l ≠ [].
Proof using Type.
  clear. intros Hn Hl Hf. destruct l as [|a [|b l]]; simpl in Hl; [lia..|].
  assert (∀ n, n ∈ a :: b :: l → n = id) as Hid.
  { intros n Hin. destruct (decide (n = id)) as [|Hne]; [done|]. exfalso.
    apply (not_elem_of_nil n). rewrite <-Hf. by apply list_elem_of_filter. }
  apply NoDup_cons in Hn as [Ha _]. apply Ha. rewrite (Hid a), (Hid b) by set_solver. by left.
Qed.

Lemma remove_users_ok w w' users id r : users_ok w → length users = length (names w) →
  remove_listed w users id = (w', r) → users_ok w'.
Proof using Type*.
  intros [Hne Hn] Hlen. unfold remove_listed. case_decide as H1; [by intros [= <- _]|].
  destruct (gateway_DeleteUser w id) as [w1 err] eqn:E. intros [= <- _].
  unfold users_ok, names. destruct (gateway_delete_pool _ _ _ _ E) as [-> | ->]; [done|].
  rewrite filter_names. split; [|by apply NoDup_filter].
  apply filter_one; [done|]. rewrite Hlen in H1. destruct (names w) as [|? [|]]; simpl in *; [done|done|lia].
Qed.

Lemma names_same w w' : names w' = names w → users_ok w → users_ok w'.
Proof using Type. unfold users_ok. by intros ->. Qed.

(** the field a listing sorts by *)
Definition has_key (input : ListUsersInput) (u : User) : bool :=
  let sortBy := default "" (liSortBy input) in
  if String.eqb sortBy "firstName" then bool_decide (is_Some (uGivenName u))
  else if String.eqb sortBy "lastName" then bool_decide (is_Some (uFamilyName u))
  else if String.eqb sortBy "createdAt" then bool_decide (is_Some (uCreatedAt u))
  else bool_decide (is_Some (uEmail u)).

(** the order of a listing *)
Definition listed_before (input : ListUsersInput) (x y : User) : bool :=
  match user_less input x y with Ret b => b | Panic _ => false end.

Lemma user_less_key input x y : has_key input x = true → has_key input y = true →
  user_less input x y = Ret (listed_before input x y).
Proof using Type.
  clear. unfold has_key, listed_before, user_less. cbv zeta.
  destruct (String.eqb (default "" (liSortBy input)) "firstName"), (String.eqb (default "" (liSortBy input)) "lastName"),
    (String.eqb (default "" (liSortBy input)) "createdAt");
    intros [a ->]%bool_decide_eq_true [b ->]%bool_decide_eq_true; done.
Qed.

Lemma sltb_antisym a b : sltb a b = true → sltb b a = false.
Proof using Type. clear. unfold sltb, String.ltb. rewrite (String.compare_antisym b a). by destruct (String.compare a b). Qed.

Lemma listed_before_asym input x y : listed_before input x y = true → listed_before input y x = false.
Proof using Type.
  clear. unfold listed_before, user_less. cbv zeta.
  destruct (String.eqb (default "" (liSortBy input)) "firstName"), (String.eqb (default "" (liSortBy input)) "lastName"),
    (String.eqb (default "" (liSortBy input)) "createdAt");
    repeat match goal with |- context [deref ?p] => destruct p; cbn [deref mbind outcome_bind] end; try done;
    destruct (String.eqb (default "" (liSortDir input)) "descending"); try apply sltb_antisym; rewrite bool_decide_eq_true, bool_decide_eq_false; lia.
Qed.

(** a listing of users: when the calls of Cognito succeed and every user that
    passes the filters has the field to sort by, the result holds each of those
    users exactly once, sorted by that field in the direction asked for (by
    default by email, ascending). *)
Theorem list_users_correct w w' pages input us :
  ListUsersPages w = (w', (pages, None)) → mapM user_of (pool w) = Ret us →
  Forall (λ u, has_key input u = true) (filter (λ u, kept input u = true) us) →
  ∃ l, gateway_ListUsers w input = (w', Ret (Good l)) ∧ sorts (listed_before input) (filter (λ u, kept input u = true) us) l.
Proof using Type*.
  intros E Hus Hk. unfold gateway_ListUsers. rewrite E. destruct (list_pool _ _ _ _ E) as [_ Hc]. rewrite (Hc eq_refl).
  rewrite (page_users_filter _ _ _ Hus). cbn. rewrite Forall_forall in Hk.
  destruct (sort_slice_outcome_sorts (user_less input) (listed_before input) (filter (λ u, kept input u = true) us)) as (l&->&Hl).
  - intros x y Hx Hy. by apply user_less_key; apply Hk.
  - apply listed_before_asym.
  - eauto.
Qed.

(** Two requests that list the users before either deletes remove the last two. *)
Theorem concurrent_removals_empty w w1 w2 w3 w4 a b users1 users2 r1 r2 :
  names w = [Some a; Some b] →
  gateway_ListUsers w no_filter = (w1, Ret (Good users1)) →
  gateway_ListUsers w1 no_filter = (w2, Ret (Good users2)) →
  remove_listed w2 users1 a = (w3, r1) → (AdminDeleteUser w2 a).2 = None →
  remove_listed w3 users2 b = (w4, r2) → (AdminDeleteUser w3 b).2 = None →
  names w4 = [].
Proof using Type*.
  intros Hn H1 H2 H3 Hd1 H4 Hd2.
  assert (names w1 = names w) as Hn1 by (unfold names; by rewrite (gateway_list_pool _ _ _ _ H1)).
  assert (names w2 = names w) as Hn2 by (unfold names; by rewrite (gateway_list_pool _ _ _ _ H2), (gateway_list_pool _ _ _ _ H1)).
  apply gateway_list_length in H1, H2. rewrite Hn1, Hn in H2. rewrite Hn in H1. simpl in H1, H2.
  assert (∀ w w' users id r, length users = 2%nat → (AdminDeleteUser w id).2 = None → remove_listed w users id = (w', r) →
    names w' = filter (λ n, n ≠ Some id) (names w)) as Hrm.
  { clear -H. intros w w' users id r Hl Hd. unfold remove_listed, gateway_DeleteUser. rewrite decide_False by lia.
    destruct (AdminDeleteUser w id) as [w5 err] eqn:E. simpl in Hd. subst err. intros [= <- _].
    unfold names at 1. by rewrite (delete_pool _ _ _ _ E), filter_names. }
  rewrite (Hrm _ _ _ _ _ H2 Hd2 H4), (Hrm _ _ _ _ _ H1 Hd1 H3), Hn2, Hn.
  rewrite !filter_cons, filter_nil. repeat (case_decide || rewrite filter_cons || rewrite filter_nil); by simplify_eq.
Qed.
Context (QueryUnescape : string → result string).

Definition serve w (r : request) : W :=
  match r with
  | RGet id => (GetUser w id).1
  | RInvite i => (InviteUser w i).1
  | RList i => (ListUsers QueryUnescape w i).1
  | RRemove id => (RemoveUser w id).1
  | RReset id => (ResetUserPassword w id).1
  | RUpdate i => (UpdateUser w i).1
  end.

(** every request keeps a user *)
Lemma serve_users_ok w r : users_ok w → users_ok (serve w r).
Proof using Type*.
  intros Hw. destruct r as [id|i|i|id|id|i]; simpl.
  - unfold GetUser, gateway_GetUser. destruct (AdminGetUser w id) as [w' r] eqn:E. simpl.
    apply (names_same w); [|done]. unfold names. by rewrite (get_pool _ _ _ _ E).
  - unfold InviteUser, gateway_CreateUser. destruct (AdminCreateUser w _) as [w' r] eqn:E. simpl.
    apply create_pool in E as [E|(name&E&Hn)]; [by apply (names_same w)|]. unfold users_ok, names. rewrite E.
    destruct Hw as [_ Hnd]. split; [by destruct (utUsername <$> pool w)|]. apply NoDup_app. split_and!; [done|set_solver|].
    apply NoDup_singleton.
  - unfold ListUsers. destruct (decode_contains QueryUnescape i) as [i'|e]; [|done].
    destruct (gateway_ListUsers w i') as [w' r] eqn:E. simpl. apply (names_same w); [|done]. unfold names.
    by rewrite (gateway_list_pool _ _ _ _ E).
  - unfold RemoveUser. destruct (gateway_ListUsers w no_filter) as [w1 users] eqn:E.
    assert (names w1 = names w) as Hnm by (unfold names; by rewrite (gateway_list_pool _ _ _ _ E)).
    apply (names_same w) in Hnm as Hw1; [|done]. destruct users as [[users|e]|why]; [|done..].
    destruct (remove_listed w1 users id) as [w2 r] eqn:E2. simpl. eapply remove_users_ok; [done| |done].
    by rewrite Hnm, (gateway_list_length _ _ _ E).
  - unfold ResetUserPassword, gateway_ResetUserPassword. destruct (AdminResetUserPassword w id) as [w' err] eqn:E. simpl.
    by apply (names_same w), Hw; apply reset_pool in E.
  - unfold UpdateUser, gateway_UpdateUser. destruct (AdminUpdateUserAttributes w _ _) as [w' err] eqn:E.
    apply update_pool in E. assert (users_ok w') as Hw' by (by apply (names_same w)). destruct err as [e|]; [done|].
    unfold gateway_GetUser. destruct (AdminGetUser w' (upID i)) as [w2 r] eqn:E2. simpl.
    apply (names_same w'); [|done]. unfold names. by rewrite (get_pool _ _ _ _ E2).
Qed.

(** C37: the users API, handling requests one after the other, never empties the
    user pool: a pool with at least one user, and each user name once, still has
    that after any sequence of requests, whatever fails. *)
Theorem users_never_empty w requests : users_ok w → users_ok (foldl serve w requests).
Proof using Type*. revert w. induction requests as [|r rs IH]; intros w Hw; [done|]. simpl. by apply IH, serve_users_ok. Qed.

End Laws.

(** ** A user pool *)

Definition with_attributes (attrs : list AttributeType) (u : UserType) : UserType :=
  {| utUserCreateDate := utUserCreateDate u; utUsername := utUsername u; utUserStatus := utUserStatus u; utAttributes := attrs |}.

Definition find_user (l : list UserType) (id : string) : option UserType :=
  snd <$> list_find (λ u, utUsername u = Some id) l.

#[local] Instance demo_pool : Cognito (list UserType) := {|
  ListUsersPages w := (w, ([w], None));
  AdminCreateUser w i :=
    let u := {| utUserCreateDate := Some 0; utUsername := Some (cuUsername i); utUserStatus := Some "FORCE_CHANGE_PASSWORD";
                utAttributes := cuUserAttributes i |} in
    if decide (Some (cuUsername i) ∈ utUsername <$> w) then (w, Err (ErrAWS "UsernameExistsException" "")) else (w ++ [u], Ok u);
  AdminDeleteUser w id :=
    if decide (Some id ∈ utUsername <$> w) then (filter (λ u, utUsername u ≠ Some id) w, None)
    else (w, Some (ErrAWS UserNotFoundException ""));
  AdminGetUser w id :=
    (w, match find_user w id with Some u => Ok u | None => Err (ErrAWS UserNotFoundException "") end);
  AdminUpdateUserAttributes w attrs id :=
    if decide (Some id ∈ utUsername <$> w)
    then ((λ u, if decide (utUsername u = Some id) then with_attributes attrs u else u) <$> w, None)
    else (w, Some (ErrAWS UserNotFoundException ""));
  AdminResetUserPassword w id := (w, None)
|}.

#[local] Instance demo_laws : CognitoLaws (list UserType).
Proof.
  refine {| pool := λ w, w |}; cbn.
  - intros w w' pages err [= <- <- <-]. simpl. by rewrite app_nil_r.
  - intros w w' i r. case_decide as Hin; intros [= <- _]; [by left|]. right. exists (cuUsername i). by rewrite fmap_app.
  - intros w w' id err. by case_decide; intros [= <- <-].
  - by intros w w' id r [= <- _].
  - intros w w' attrs id err. case_decide; intros [= <- _]; [|done]. rewrite <-list_fmap_compose. apply list_fmap_ext.
    intros i u _. simpl. by case_decide.
  - by intros w w' id err [= <- _].
Defined.

Definition demo_user (name : string) (attrs : list AttributeType) : UserType :=
  {| utUserCreateDate := Some (Unix 1583378248); utUsername := Some name; utUserStatus := Some "CONFIRMED"; utAttributes := attrs |}.
Definition demo_users : list UserType :=
  [demo_user "a" (userAttributes (Some "Zoe") None (Some "Zoe@example.com"));
   demo_user "b" (userAttributes (Some "Ann") (Some "Lee") (Some "ann@example.com"))].

Lemma users_never_empty_witness :
  users_ok demo_users ∧
  utUsername <$> foldl (serve (λ s, Ok s)) demo_users [RRemove "a"; RRemove "b"; RGet "b"] = [Some "b"] ∧
  users_ok (foldl (serve (λ s, Ok s)) demo_users [RRemove "a"; RRemove "b"; RGet "b"]).
Proof.
  assert (users_ok demo_users) as Hok by (split; [discriminate|apply (bool_decide_unpack _); vm_compute; exact I]).
  split; [exact Hok|]. split; [vm_compute; reflexivity|].
  apply (users_never_empty (λ s, Ok s) demo_users [RRemove "a"; RRemove "b"; RGet "b"]). exact Hok.
Defined.

Lemma list_users_correct_witness :
  ∃ l, gateway_ListUsers demo_users no_filter = (demo_users, Ret (Good l)) ∧ uEmail <$> l = [Some "ann@example.com"; Some "zoe@example.com"].
Proof.
  destruct (mapM user_of (pool demo_users)) as [us|why] eqn:Hus; [|vm_compute in Hus; discriminate].
  destruct (list_users_correct demo_users demo_users [demo_users] no_filter us) as (l&Hl&_).
  - reflexivity.
  - exact Hus.
  - vm_compute in Hus. injection Hus as <-. repeat constructor.
  - exists l. split; [exact Hl|]. vm_compute in Hl. injection Hl as <-. reflexivity.
Defined.

(** A user without the field to sort by makes the listing of two users panic, and
    with it the removal of any user. *)
Example no_email_panics :
  let users := [demo_user "a" []; demo_user "b" (userAttributes None None (Some "b@example.com"))] in
  (gateway_ListUsers users no_filter).2 = Panic "nil pointer dereference" ∧
  (RemoveUser users "a").2 = Panic "nil pointer dereference".
Proof. by vm_compute. Qed.

(** The two removals one after the other and at the same time. *)
Example removals :
  (RemoveUser (RemoveUser demo_users "a").1 "b").1 ≠ [] ∧
  ∃ us, gateway_ListUsers demo_users no_filter = (demo_users, Ret (Good us)) ∧
    (remove_listed (remove_listed demo_users us "a").1 us "b").1 = [].
Proof. split; [by vm_compute|]. eexists. by split; [vm_compute|]. Qed.
