(* ===== verification/OrganizationApi.v ===== *)
(** * The organization API and the Athena helper

    Model of src/internal/core/organization_api (the general settings, one item of a
    DynamoDB table) and of src/pkg/awsathena/query.go (a query that is started and
    polled until it ends).  DynamoDB, its attribute codec and Athena are parameters.
    The theorems show that an update changes the fields it names and no other, and
    when waiting for a query returns. *)

From S2P Require Import Prelude AlertOutputs GenericApi.

#[local] Open Scope Z_scope.
#[local] Set Default Proof Using "Type".

(** ** The settings *)

(** models.GeneralSettings *)
Record GeneralSettings := {
  gsDisplayName : option string; gsEmail : option string; gsErrorReportingConsent : option bool
}.

(** an attribute of the item, and the item *)
Inductive dynamoValue := DS (s : string) | DBool (b : bool).
Notation item := (gmap string dynamoValue).

(** expression.UpdateBuilder: the attributes to set *)
Notation UpdateBuilder := (list (string * dynamoValue)).
Definition expression_Set (name : string) (v : dynamoValue) : UpdateBuilder := [(name, v)].
Definition builder_Set (u : UpdateBuilder) (name : string) (v : dynamoValue) : UpdateBuilder := u ++ [(name, v)].

(** [None]: no update yet *)
Definition set_setting (update : option UpdateBuilder) (name : string) (v : option dynamoValue) : option UpdateBuilder :=
  match v with
  | None => update
  | Some v => Some (match update with Some u => builder_Set u name v | None => expression_Set name v end)
  end.

Section Organization.
(** the table, Build of the expression and UnmarshalMap *)
Context {W : Type} (GetItem : W → result item) (UpdateItem : W → UpdateBuilder → W * result item).
Context (Build : UpdateBuilder → option error) (UnmarshalMap : item → result GeneralSettings).

Definition buildUpdateExpression (settings : GeneralSettings) : api UpdateBuilder :=
  let update := set_setting None "displayName" (DS <$> gsDisplayName settings) in
  let update := set_setting update "email" (DS <$> gsEmail settings) in
  let update := set_setting update "errorReportingConsent" (DBool <$> gsErrorReportingConsent settings) in
  match update with
  | None => Bad (failure InvalidInputError "at least one setting is required to update")
  | Some update =>
      match Build update with
      | Some e => Bad (failure InternalError ("failed to build update expression: " +:+ errText e))
      | None => Good update
      end
  end.

Definition unmarshal (i : item) : api GeneralSettings :=
  or_internal "failed to unmarshal dynamo item to GeneralSettings: " (UnmarshalMap i).

(** Get, and the handler GetSettings *)
Definition GetSettings (w : W) : api GeneralSettings :=
  i ← or_aws "dynamodb.GetItem" (GetItem w); unmarshal i.

(** Update, and the handler UpdateSettings *)
Definition UpdateSettings (w : W) (settings : GeneralSettings) : W * api GeneralSettings :=
  match buildUpdateExpression settings with
  | Bad e => (w, Bad e)
  | Good expr =>
      let '(w, r) := UpdateItem w expr in
      (w, i ← or_aws "dynamodb.UpdateItem" r; unmarshal i)
  end.

(** what DynamoDB and its codec do: the item is kept, an update sets attributes of
    it and returns it, a field of the struct is read from its attribute *)
Definition apply_update (u : UpdateBuilder) (i : item) : item := foldl (λ i kv, <[kv.1 := kv.2]> i) i u.

Definition read_string (v : option dynamoValue) : option (option string) :=
  match v with None => Some None | Some (DS s) => Some (Some s) | Some (DBool _) => None end.
Definition read_bool (v : option dynamoValue) : option (option bool) :=
  match v with None => Some None | Some (DBool b) => Some (Some b) | Some (DS _) => None end.

Context (stored : W → item).
Hypothesis GetItem_stored : ∀ w i, GetItem w = Ok i → i = stored w.
Hypothesis UpdateItem_stored : ∀ w w' u r, UpdateItem w u = (w', r) →
  match r with
  | Ok i => stored w' = apply_update u (stored w) ∧ i = stored w'
  | Err _ => True
  end.
Hypothesis UnmarshalMap_fields : ∀ i s, UnmarshalMap i = Ok s →
  read_string (i !! "displayName") = Some (gsDisplayName s) ∧ read_string (i !! "email") = Some (gsEmail s) ∧
  read_bool (i !! "errorReportingConsent") = Some (gsErrorReportingConsent s).

(** the fields of the request replace those that were there *)
Definition merge (old new : GeneralSettings) : GeneralSettings :=
  {| gsDisplayName := match gsDisplayName new with Some v => Some v | None => gsDisplayName old end;
     gsEmail := match gsEmail new with Some v => Some v | None => gsEmail old end;
     gsErrorReportingConsent :=
       match gsErrorReportingConsent new with Some v => Some v | None => gsErrorReportingConsent old end |}.

Definition updates (s : GeneralSettings) : UpdateBuilder :=
  match gsDisplayName s with Some v => [("displayName", DS v)] | None => [] end ++
  match gsEmail s with Some v => [("email", DS v)] | None => [] end ++
  match gsErrorReportingConsent s with Some v => [("errorReportingConsent", DBool v)] | None => [] end.

Lemma build_updates s u : buildUpdateExpression s = Good u → u = updates s.
Proof using Type.
  clear. unfold buildUpdateExpression, updates. destruct (gsDisplayName s), (gsEmail s), (gsErrorReportingConsent s);
    simpl; repeat case_match; by intros [= <-].
Qed.

Lemma apply_updates_lookup s i :
  apply_update (updates s) i !! "displayName" = match gsDisplayName s with Some v => Some (DS v) | None => i !! "displayName" end ∧
  apply_update (updates s) i !! "email" = match gsEmail s with Some v => Some (DS v) | None => i !! "email" end ∧
  apply_update (updates s) i !! "errorReportingConsent" =
    match gsErrorReportingConsent s with Some v => Some (DBool v) | None => i !! "errorReportingConsent" end.
Proof using Type.
  clear. unfold apply_update, updates. destruct (gsDisplayName s), (gsEmail s), (gsErrorReportingConsent s); simpl; by simplify_map_eq.
Qed.

(** UpdateSettings changes the fields of the general settings that the request
    names and keeps the others: after a successful update it returns, and a later
    GetSettings reads, the old settings with those fields replaced.  A request
    without any field is refused as invalid and the table is not written. *)
Theorem update_settings_correct w settings :
  (settings = {| gsDisplayName := None; gsEmail := None; gsErrorReportingConsent := None |} →
   UpdateSettings w settings = (w, Bad (failure InvalidInputError "at least one setting is required to update"))) ∧
  ∀ w' old new, GetSettings w = Good old → UpdateSettings w settings = (w', Good new) →
    new = merge old settings ∧ ∀ later, GetSettings w' = Good later → later = new.
Proof using Type*.
  split; [by intros ->|]. intros w' old new Hold Hup.
  assert (∀ w s, GetSettings w = Good s → UnmarshalMap (stored w) = Ok s) as Hget.
  { intros w0 s. unfold GetSettings. destruct (GetItem w0) as [i|e] eqn:E; [|done]. apply GetItem_stored in E as ->.
    cbn. unfold unmarshal. destruct (UnmarshalMap (stored w0)); [|done]. by intros [= ->]. }
  apply Hget in Hold. unfold UpdateSettings in Hup.
  destruct (buildUpdateExpression settings) as [u|e] eqn:Hb; [|done]. apply build_updates in Hb as ->.
  destruct (UpdateItem w (updates settings)) as [w1 [i|e]] eqn:Hu; [|done]. injection Hup as -> Hnew.
  apply UpdateItem_stored in Hu as [Hs ->]. cbn in Hnew. unfold unmarshal in Hnew.
  destruct (UnmarshalMap (stored w')) as [s|e] eqn:Hn; [|done]. injection Hnew as ->. split.
  - apply UnmarshalMap_fields in Hold as (H1&H2&H3), Hn as (N1&N2&N3). rewrite Hs in N1, N2, N3.
    destruct (apply_updates_lookup settings (stored w)) as (L1&L2&L3). rewrite L1 in N1. rewrite L2 in N2. rewrite L3 in N3.
    destruct new. unfold merge. simpl in *.
    destruct (gsDisplayName settings), (gsEmail settings), (gsErrorReportingConsent settings); simpl in *; f_equal; congruence.
  - intros later Hl. apply Hget in Hl. congruence.
Qed.
End Organization.

Definition demo_unmarshal (i : item) : result GeneralSettings :=
  match read_string (i !! "displayName"), read_string (i !! "email"), read_bool (i !! "errorReportingConsent") with
  | Some d, Some e, Some c => Ok {| gsDisplayName := d; gsEmail := e; gsErrorReportingConsent := c |}
  | _, _, _ => Err (ErrMsg "type mismatch")
  end.

Lemma update_settings_correct_witness :
  let update := UpdateSettings (λ (w : item) u, (apply_update u w, Ok (apply_update u w))) (λ _, None) demo_unmarshal in
  let w := <["displayName" := DS "old"]> (<["email" := DS "me@example.com"]> ∅) in
  ∃ w', update w {| gsDisplayName := Some "new"; gsEmail := None; gsErrorReportingConsent := Some true |} =
    (w', Good {| gsDisplayName := Some "new"; gsEmail := Some "me@example.com"; gsErrorReportingConsent := Some true |}).
Proof.
  destruct (update_settings_correct Ok (λ (w : item) u, (apply_update u w, Ok (apply_update u w))) (λ _, None) demo_unmarshal
    (λ w, w)) with (w := <["displayName" := DS "old"]> (<["email" := DS "me@example.com"]> (∅ : item)))
    (settings := {| gsDisplayName := Some "new"; gsEmail := None; gsErrorReportingConsent := Some true |}) as [_ H].
  - intros w i [= <-]. reflexivity.
  - intros w w' u r [= <- <-]. split; reflexivity.
  - intros i s. unfold demo_unmarshal. destruct (read_string (i !! "displayName")), (read_string (i !! "email")),
      (read_bool (i !! "errorReportingConsent")); intros [= <-]. split; [reflexivity|split; reflexivity].
  - eexists. edestruct H as [E _]; [vm_compute; reflexivity|vm_compute; reflexivity|]. vm_compute. reflexivity.
Defined.

(** ** Athena (query.go) *)

Inductive queryState := Queued | Running | Succeeded | Failed | Cancelled.

Definition finished (s : queryState) : bool := match s with Succeeded | Failed | Cancelled => true | Queued | Running => false end.

Record StartQueryInput := { sqQueryString : string; sqDatabase : string; sqOutputLocation : option string }.

Section Athena.
(** the calls of the client; time passes between them *)
Context {W Rows : Type} (StartQueryExecution : W → StartQueryInput → W * result string).
Context (GetQueryExecution : W → string → W * result (string * queryState)).
Context (StopQueryExecution : W → string → W * option error).
Context (GetQueryResults : W → string → option string → option Z → W * result Rows).
Context (Sleep : W → W).

Definition StartQuery (w : W) (database sql : string) (s3Path : option string) : W * result string :=
  StartQueryExecution w {| sqQueryString := sql; sqDatabase := database; sqOutputLocation := s3Path |}.

(** errors.WithStack keeps the error *)
Definition Status (w : W) (queryExecutionID : string) : W * result (string * queryState) := GetQueryExecution w queryExecutionID.
Definition StopQuery (w : W) (queryExecutionID : string) : W * option error := StopQueryExecution w queryExecutionID.

Definition Results (w : W) (queryID : string) (nextToken : option string) (maxResults : option Z) : W * result Rows :=
  let '(w, r) := GetQueryResults w queryID nextToken maxResults in
  (w, match r with
      | Ok rows => Ok rows
      | Err e => Err (ErrWrap ("athena failed reading results for: " +:+ queryID) e)
      end).

(** the loop of WaitForResults; [None] when it has not ended within the fuel *)
Fixpoint poll (fuel : nat) (w : W) (queryExecutionID : string) : option (W * result string) :=
  match fuel with
  | O => None
  | S fuel =>
      match Status w queryExecutionID with
      | (w, Err e) => Some (w, Err e)
      | (w, Ok (id, state)) => if finished state then Some (w, Ok id) else poll fuel (Sleep w) queryExecutionID
      end
  end.

Definition WaitForResults (fuel : nat) (w : W) (queryExecutionID : string) : option (W * result Rows) :=
  match poll fuel w queryExecutionID with
  | None => None
  | Some (w, Err e) => Some (w, Err e)
  | Some (w, Ok id) => Some (Results w id None None)
  end.

Definition RunQuery (fuel : nat) (w : W) (database sql : string) (s3Path : option string) : option (W * result Rows) :=
  match StartQuery w database sql s3Path with
  | (w, Err e) => Some (w, Err e)
  | (w, Ok id) => WaitForResults fuel w id
  end.

(** the world after a status and a pause, [n] times *)
Fixpoint after (n : nat) (w : W) (id : string) : W :=
  match n with O => w | S n => after n (Sleep (Status w id).1) id end.

Definition pending (r : result (string * queryState)) : Prop := ∃ id s, r = Ok (id, s) ∧ finished s = false.

(** WaitForResults returns exactly when some status is an error or a final state,
    the first of them decides, and only for a final state are the rows read; the
    fuel needed is the number of that status. *)
Theorem wait_correct n w id :
  (∀ k, (k < n)%nat → pending (Status (after k w id) id).2) →
  (∀ fuel, (fuel ≤ n)%nat → WaitForResults fuel w id = None) ∧
  ∀ fuel, (n < fuel)%nat →
    match Status (after n w id) id with
    | (w', Err e) => WaitForResults fuel w id = Some (w', Err e)
    | (w', Ok (id', s)) => finished s = true → WaitForResults fuel w id = Some (Results w' id' None None)
    end.
Proof using Type.
  revert w. induction n as [|n IH]; intros w Hp.
  - split; [intros [|] ?; [done|lia]|]. intros [|fuel] Hf; [lia|]. unfold WaitForResults. simpl.
    destruct (Status w id) as [w' [[id' s]|e]]; [|done]. by intros ->.
  - destruct (Hp 0%nat ltac:(lia)) as (id'&s&Hs&Hfin). simpl in Hs.
    destruct (Status w id) as [w1 r] eqn:E. simpl in Hs. subst r.
    destruct (IH (Sleep w1)) as [IH1 IH2].
    { intros k Hk. specialize (Hp (S k) ltac:(lia)). simpl in Hp. by rewrite E in Hp. }
    assert (∀ fuel, WaitForResults (S fuel) w id = WaitForResults fuel (Sleep w1) id) as Hstep.
    { intros fuel. unfold WaitForResults. simpl. by rewrite E, Hfin. }
    split.
    + intros [|fuel] Hf; [done|]. rewrite Hstep. apply IH1. lia.
    + intros [|fuel] Hf; [lia|]. simpl. rewrite E. simpl. rewrite Hstep. apply IH2. lia.
Qed.
End Athena.
