(* ===== verification/OpsTools.v ===== *)
(** * Commands of the operators

    Model of src/cmd/opstools: requeue, which moves the messages of one SQS queue to
    another, and s3queue, which lists the objects under a path of S3 and queues a
    notification for each.  SQS, S3 and the JSON library are parameters.  The
    theorems show when requeue keeps every message and when it loses some, which
    objects s3queue lists and in which batches a worker queues them. *)

From S2P Require Import Prelude.

#[local] Open Scope Z_scope.
#[local] Set Default Proof Using "Type".

(** ** requeue *)

Record message := { mBody : string; mReceiptHandle : string }.

#[export] Instance message_eq_dec : EqDecision message.
Proof. solve_decision. Defined.

(** the calls of SQS, on the queue with a URL: messages, at most ten; entries of a batch have an id, and the
    answer of a batch names the ids that failed *)
Class Queues (W : Type) := {
  GetQueueUrl : W → string → W * result string;
  ReceiveMessage : W → string → W * result (list message);
  SendBatch : W → string → list (string * string) → W * result (list string);
  DeleteBatch : W → string → list (string * string) → W * result (list string)
}.

(** the entries of a batch: the index is the id *)
Definition batch_entries (field : message → string) (messages : list message) : list (string * string) :=
  imap (λ i m, (itoa (Z.of_nat i), field m)) messages.

Section Requeue.
Context {W : Type} `{Queues W} (fromQueueName toQueueName : string).
Implicit Types w : W.

(** what the loop does with the messages it received *)
Definition move_batch (fromQueueURL toQueueURL : string) w (messages : list message) : W * option error :=
  match SendBatch w toQueueURL (batch_entries mBody messages) with
  | (w, Err e) => (w, Some (ErrWrap ("failure moving messages to " +:+ toQueueName) e))
  | (w, Ok _) =>
      match DeleteBatch w fromQueueURL (batch_entries mReceiptHandle messages) with
      | (w, Err e) => (w, Some (ErrWrap ("failure deleting moved messages from " +:+ fromQueueName) e))
      | (w, Ok _) => (w, None)
      end
  end.

(** [None]: not ended within the fuel *)
Fixpoint requeue_loop (fromQueueURL toQueueURL : string) (fuel : nat) w : option (W * option error) :=
  match fuel with
  | O => None
  | S fuel =>
      match ReceiveMessage w fromQueueURL with
      | (w, Err e) => Some (w, Some (ErrWrap ("failure receiving messages to move from " +:+ fromQueueName) e))
      | (w, Ok []) => Some (w, None)
      | (w, Ok messages) =>
          match move_batch fromQueueURL toQueueURL w messages with
          | (w, Some e) => Some (w, Some e)
          | (w, None) => requeue_loop fromQueueURL toQueueURL fuel w
          end
      end
  end.

Definition Requeue (fuel : nat) w : option (W * option error) :=
  match GetQueueUrl w fromQueueName with
  | (w, Err e) => Some (w, Some (ErrWrap ("cannot get source queue url for " +:+ fromQueueName) e))
  | (w, Ok fromQueueURL) =>
      match GetQueueUrl w toQueueName with
      | (w, Err e) => Some (w, Some (ErrWrap ("cannot get destination queue url for " +:+ toQueueName) e))
      | (w, Ok toQueueURL) => requeue_loop fromQueueURL toQueueURL fuel w
      end
  end.
End Requeue.

(** the entries that did not fail *)
Definition accepted (failed : list string) (entries : list (string * string)) : list (string * string) :=
  filter (λ e, e.1 ∉ failed) entries.

(** what SQS does: a name has one URL, a call concerns the queue with its URL
    alone, receiving removes nothing, a batch handles its entries one by one, a
    receipt handle belongs to one message *)
Class QueueLaws (W : Type) `{Queues W} := {
  queue : W → string → list message;
  url_of : string → string;
  handle_inj w u m1 m2 : m1 ∈ queue w u → m2 ∈ queue w u → mReceiptHandle m1 = mReceiptHandle m2 → m1 = m2;
  url_law w name w' r : GetQueueUrl w name = (w', r) →
    (∀ u, queue w' u = queue w u) ∧ ∀ u, r = Ok u → u = url_of name;
  receive_law w url w' r : ReceiveMessage w url = (w', r) →
    (∀ u, queue w' u = queue w u) ∧ ∀ messages, r = Ok messages → ∀ m, m ∈ messages → m ∈ queue w url;
  send_law w url entries w' r : SendBatch w url entries = (w', r) →
    (∀ u, u ≠ url → queue w' u = queue w u) ∧
    match r with
    | Ok failed => mBody <$> queue w' url = (mBody <$> queue w url) ++ (accepted failed entries).*2
    | Err _ => (mBody <$> queue w url) ⊆ (mBody <$> queue w' url)
    end;
  delete_law w url entries w' r : DeleteBatch w url entries = (w', r) →
    (∀ u, u ≠ url → queue w' u = queue w u) ∧
    match r with
    | Ok failed => queue w' url = filter (λ m, mReceiptHandle m ∉ (accepted failed entries).*2) (queue w url)
    | Err _ => ∀ m, m ∈ queue w url → m ∈ queue w' url ∨ mReceiptHandle m ∈ entries.*2
    end
}.

Lemma filter_length_lt {A} (P : A → Prop) `{!∀ x, Decision (P x)} (l : list A) x :
  x ∈ l → ¬ P x → (length (filter P l) < length l)%nat.
Proof.
  intros Hin Hp. induction l as [|y l IH]; [by apply elem_of_nil in Hin|].
  rewrite filter_cons. pose proof (length_filter P l). apply elem_of_cons in Hin as [<-|Hin].
  - rewrite decide_False by done. simpl. lia.
  - specialize (IH Hin). case_decide; simpl; lia.
Qed.

Section RequeueLaws.
Context {W : Type} `{QueueLaws W} (from to : string).
Implicit Types w : W.

(** the messages of the source queue, and the bodies in the destination *)
Definition source w : list message := queue w (url_of from).
Definition dest w : list string := mBody <$> queue w (url_of to).

(** no message is lost *)
Definition conserved w w' : Prop :=
  dest w ⊆ dest w' ∧ ∀ m, m ∈ source w → m ∈ source w' ∨ mBody m ∈ dest w'.

#[export] Instance conserved_preorder : PreOrder conserved.
Proof using Type.
  split; [by split; [|left]|]. intros w1 w2 w3 [Hd1 H1] [Hd2 H2]. split; [set_solver|].
  intros m Hm. destruct (H1 m Hm) as [Hs|Hd]; [by apply H2|right; by apply Hd2].
Qed.

Lemma conserved_same w w' : source w' = source w → dest w' = dest w → conserved w w'.
Proof using Type. intros Hs Hd. unfold conserved. rewrite Hs, Hd. split; [done|by left]. Qed.

Lemma entries_values field ms : (batch_entries field ms).*2 = field <$> ms.
Proof using Type.
  clear. unfold batch_entries. rewrite fmap_imap. simpl. by rewrite <-(imap_const field ms).
Qed.

Lemma accepted_all entries : accepted [] entries = entries.
Proof using Type.
  clear. unfold accepted. induction entries as [|e l IH]; [done|].
  rewrite filter_cons, decide_True by apply not_elem_of_nil. by rewrite IH.
Qed.

(** two different queues *)
Context (apart : url_of from ≠ url_of to).

Lemma same_queues w w' : (∀ u, queue w' u = queue w u) → source w' = source w ∧ dest w' = dest w.
Proof using Type. intros Hq. unfold source, dest. by rewrite !Hq. Qed.

Lemma send_to w entries w' r : SendBatch w (url_of to) entries = (w', r) →
  source w' = source w ∧
  match r with Ok failed => dest w' = dest w ++ (accepted failed entries).*2 | Err _ => dest w ⊆ dest w' end.
Proof using apart. intros [Ho Hr]%send_law. split; [by apply Ho|done]. Qed.

Lemma delete_from w entries w' r : DeleteBatch w (url_of from) entries = (w', r) →
  dest w' = dest w ∧
  match r with
  | Ok failed => source w' = filter (λ m, mReceiptHandle m ∉ (accepted failed entries).*2) (source w)
  | Err _ => ∀ m, m ∈ source w → m ∈ source w' ∨ mReceiptHandle m ∈ entries.*2
  end.
Proof using apart. intros [Ho Hr]%delete_law. split; [unfold dest; by rewrite Ho by done|done]. Qed.

Notation move_batch' := (move_batch from to (url_of from) (url_of to)).
Notation requeue_loop' := (requeue_loop from to (url_of from) (url_of to)).

(** a batch that SQS accepts as a whole moves its messages *)
Lemma move_batch_conserved w w' ms err :
  (∀ w url entries w' failed, SendBatch w url entries = (w', Ok failed) → failed = []) →
  (∀ m, m ∈ ms → m ∈ source w) → move_batch' w ms = (w', err) → conserved w w'.
Proof using Type*.
  intros Hall Hms. unfold move_batch. destruct (SendBatch w (url_of to) (batch_entries mBody ms)) as [w1 [failed|e]] eqn:E1.
  2:{ intros [= <- _]. apply send_to in E1 as [Hs Hd]. split; [done|]. rewrite Hs. by left. }
  apply Hall in E1 as Hf. subst failed. apply send_to in E1 as [Hs Hd]. rewrite accepted_all, entries_values in Hd.
  destruct (DeleteBatch w1 (url_of from) (batch_entries mReceiptHandle ms)) as [w2 r] eqn:E2. apply delete_from in E2 as [Hd2 Hs2].
  assert (∀ m, m ∈ source w → mReceiptHandle m ∈ mReceiptHandle <$> ms → mBody m ∈ dest w2) as Hmoved.
  { intros m Hm (m'&Hh&Hin)%list_elem_of_fmap. rewrite (handle_inj w (url_of from) m m' Hm (Hms _ Hin) Hh), Hd2, Hd.
    apply elem_of_app. right. by apply list_elem_of_fmap_2. }
  assert (dest w ⊆ dest w2) as Hdest by (rewrite Hd2, Hd; set_solver).
  destruct r as [failed|e]; intros [= <- _]; (split; [done|]); intros m Hm.
  - destruct (decide (mReceiptHandle m ∈ mReceiptHandle <$> ms)) as [Hin|Hin]; [right; by apply Hmoved|left].
    rewrite Hs2, Hs. apply list_elem_of_filter. split; [|done]. intros Ha. apply Hin. rewrite <-entries_values.
    apply list_elem_of_fmap in Ha as (e&->&He). apply list_elem_of_filter in He as [_ He]. by apply list_elem_of_fmap_2.
  - destruct (Hs2 m) as [?|Hin]; [by rewrite Hs|by left|]. right. rewrite entries_values in Hin. by apply Hmoved.
Qed.

Lemma loop_conserved fuel w w' err :
  (∀ w url entries w' failed, SendBatch w url entries = (w', Ok failed) → failed = []) →
  requeue_loop' fuel w = Some (w', err) → conserved w w'.
Proof using Type*.
  intros Hall. revert w. induction fuel as [|fuel IH]; intros w; [done|]. simpl.
  destruct (ReceiveMessage w (url_of from)) as [w1 r] eqn:E. apply receive_law in E as [[Hs Hd]%same_queues Hms].
  pose proof (conserved_same w w1 Hs Hd) as Hc.
  destruct r as [[|m ms]|e]; [by intros [= <- _]| |by intros [= <- _]].
  destruct (move_batch' w1 (m :: ms)) as [w2 err'] eqn:E2.
  apply move_batch_conserved in E2 as Hc2; [|done|by rewrite Hs; apply Hms].
  destruct err' as [e|]; [intros [= <- _]; by etransitivity|]. intros Hl. etransitivity; [exact Hc|].
  etransitivity; [exact Hc2|]. by apply (IH w2).
Qed.

(** each batch that is deleted shortens the queue *)
Lemma loop_returns fuel w :
  (∀ w url entries w' failed, DeleteBatch w url entries = (w', Ok failed) → failed = []) →
  (length (source w) < fuel)%nat → is_Some (requeue_loop' fuel w).
Proof using Type*.
  intros Hall. revert w. induction fuel as [|fuel IH]; intros w Hf; [lia|]. simpl.
  destruct (ReceiveMessage w (url_of from)) as [w1 r] eqn:E. apply receive_law in E as [[Hs _]%same_queues Hms].
  destruct r as [[|m ms]|e]; [done| |done]. unfold move_batch.
  destruct (SendBatch w1 _ _) as [w2 [f1|e]] eqn:E1; [|done]. apply send_to in E1 as [Hs1 _].
  destruct (DeleteBatch w2 _ _) as [w3 [f2|e]] eqn:E2; [|done]. apply Hall in E2 as Hf2. subst f2.
  apply delete_from in E2 as [_ Hs2]. rewrite accepted_all, entries_values, Hs1, Hs in Hs2. apply IH. rewrite Hs2.
  assert (length (filter (λ m0, mReceiptHandle m0 ∉ mReceiptHandle <$> m :: ms) (source w)) < length (source w))%nat; [|lia].
  apply (filter_length_lt _ _ m); [apply (Hms (m :: ms)); [done|by left]|]. intros Hn. apply Hn. by left.
Qed.

(** C38: requeue, between two different queues, ends and loses nothing when every entry of the batches SQS answers
    succeeds: with more fuel than the source queue has messages it returns, and
    whatever error it returns, each message is still in the source queue or its
    body is in the destination. *)
Theorem requeue_correct fuel w :
  (∀ w url entries w' failed, SendBatch w url entries = (w', Ok failed) → failed = []) →
  (∀ w url entries w' failed, DeleteBatch w url entries = (w', Ok failed) → failed = []) →
  (length (source w) < fuel)%nat →
  ∃ w' err, Requeue from to fuel w = Some (w', err) ∧ conserved w w'.
Proof using Type*.
  intros Hsend Hdel Hf. unfold Requeue. destruct (GetQueueUrl w from) as [w1 [u1|e]] eqn:E1; apply url_law in E1 as [[Hs1 Hd1]%same_queues Hu1]; last first.
  { do 2 eexists. split; [done|by apply conserved_same]. }
  destruct (GetQueueUrl w1 to) as [w2 [u2|e]] eqn:E2; apply url_law in E2 as [[Hs2 Hd2]%same_queues Hu2]; last first.
  { do 2 eexists. split; [done|]. apply conserved_same; congruence. }
  rewrite (Hu1 _ eq_refl), (Hu2 _ eq_refl).
  destruct (loop_returns fuel w2) as [[w3 err] Hr]; [done|by rewrite Hs2, Hs1|]. exists w3, err. split; [done|].
  apply loop_conserved in Hr; [|done]. etransitivity; [|exact Hr]. apply conserved_same; congruence.
Qed.

(** C39: requeue loses the messages that SQS refuses: an entry that the answer of the
    send names as failed is deleted from the source queue all the same, without
    having been added to the destination, and no error is reported. *)
Theorem requeue_loses_refused w w1 w2 messages failed i m :
  SendBatch w (url_of to) (batch_entries mBody messages) = (w1, Ok failed) →
  DeleteBatch w1 (url_of from) (batch_entries mReceiptHandle messages) = (w2, Ok []) →
  messages !! i = Some m → itoa (Z.of_nat i) ∈ failed →
  move_batch' w messages = (w2, None) ∧ m ∉ source w2 ∧
  dest w2 = dest w ++ (accepted failed (batch_entries mBody messages)).*2 ∧
  (itoa (Z.of_nat i), mBody m) ∉ accepted failed (batch_entries mBody messages).
Proof using Type*.
  intros E1 E2 Hi Hfail. unfold move_batch. rewrite E1, E2.
  apply send_to in E1 as [Hs1 Hd1]. apply delete_from in E2 as [Hd2 Hs2]. rewrite accepted_all, entries_values in Hs2.
  split_and!; [done| |congruence|].
  - rewrite Hs2. intros [Hn _]%list_elem_of_filter. apply Hn. apply list_elem_of_fmap_2. by eapply list_elem_of_lookup_2.
  - intros [Hn _]%list_elem_of_filter. by apply Hn.
Qed.
End RequeueLaws.

(** ** s3queue *)

Definition MaxUint64 : Z := two64 - 1.

Record Stats := { NumFiles : Z; NumBytes : Z }.
Record object := { oKey : string; oSize : Z }.

(** an events.S3Event with its one record: bucket and key *)
Record notification := { nBucket : string; nKey : string }.

(** url.URL, as far as it is used *)
Record URL := { Scheme : string; Host : string; Path : string }.

Definition count_file (stats : Stats) (o : object) : Stats :=
  {| NumFiles := uint64 (NumFiles stats + 1); NumBytes := uint64 (NumBytes stats + oSize o) |}.

Section ListPath.
Context (bucket : string) (limit : Z).

(** the callback on one page: what it sends, and the statistics *)
Fixpoint list_page (stats : Stats) (contents : list object) : list notification * Stats :=
  match contents with
  | [] => ([], stats)
  | value :: contents =>
      if decide (0 < oSize value) then
        let stats := count_file stats value in
        let n := {| nBucket := bucket; nKey := oKey value |} in
        if decide (limit ≤ NumFiles stats) then ([n], stats)
        else let '(sent, stats) := list_page stats contents in (n :: sent, stats)
      else list_page stats contents
  end.

(** ListObjectsV2Pages with that callback: [pages] up to the error [err] *)
Fixpoint list_pages (stats : Stats) (pages : list (list object)) (err : option error) : list notification * Stats * option error :=
  match pages with
  | [] => ([], stats, err)
  | page :: pages =>
      let '(sent, stats) := list_page stats page in
      if decide (NumFiles stats < limit) then
        let '(sent', stats, err) := list_pages stats pages err in (sent ++ sent', stats, err)
      else (sent, stats, None)
  end.
End ListPath.

Section S3Queue.
Context (url_Parse : string → result URL) (ListObjectsV2 : string → string → list (list object) * option error).

(** listPath: the notifications it sends, its statistics and its error *)
Definition listPath (s3path : string) (limit : Z) (stats : Stats) : list notification * Stats * option error :=
  let limit := if decide (limit = 0) then MaxUint64 else limit in
  match url_Parse s3path with
  | Err e => ([], stats, Some (ErrText "bad s3 url: " e))
  | Ok parsedPath =>
      if decide (Scheme parsedPath ≠ "s3") then ([], stats, Some (ErrMsg ("not s3 protocol (expecting s3://): " +:+ s3path +:+ ",")))
      else if decide (Host parsedPath = "") then ([], stats, Some (ErrMsg ("missing bucket: " +:+ s3path +:+ ",")))
      else
        let prefix := match Path parsedPath with EmptyString => "" | String _ p => p end in
        let '(pages, err) := ListObjectsV2 (Host parsedPath) prefix in
        list_pages (Host parsedPath) limit stats pages err
  end.

(** a worker (queueNotifications): the message of each notification, batches of ten *)
Context {W : Type} (SendMessageBatch : W → list (string * string) → W * option error).
Context (message_of : notification → result string).
Definition batchSize : nat := 10.

Definition add_entry (entries : list (string * string)) (body : string) : list (string * string) :=
  entries ++ [(itoa (Z.of_nat (length entries)), body)].

Fixpoint queue_loop (w : W) (failed : bool) (entries : list (string * string)) (errs : list error) (ns : list notification)
    : W * list error :=
  match ns with
  | [] =>
      if negb failed && negb (bool_decide (entries = [])) then
        match SendMessageBatch w entries with
        | (w, Some e) => (w, errs ++ [ErrWrap "failed to send" e])
        | (w, None) => (w, errs)
        end
      else (w, errs)
  | n :: ns =>
      if failed then queue_loop w failed entries errs ns
      else
        match message_of n with
        | Err e => queue_loop w true entries (errs ++ [ErrWrap "failed to marshal" e]) ns
        | Ok body =>
            let entries := add_entry entries body in
            if decide (length entries mod batchSize = 0)%nat then
              match SendMessageBatch w entries with
              | (w, Some e) => queue_loop w true entries (errs ++ [ErrWrap "failed to send" e]) ns
              | (w, None) => queue_loop w false [] errs ns
              end
            else queue_loop w false entries errs ns
        end
  end.

Definition queueNotifications (w : W) (ns : list notification) : W * list error := queue_loop w false [] [] ns.
End S3Queue.

(** *** What is listed *)

Definition with_size (l : list object) : list object := filter (λ o, 0 < oSize o) l.
Definition notify (bucket : string) (o : object) : notification := {| nBucket := bucket; nKey := oKey o |}.
Definition sizes (l : list object) : Z := foldr (λ o z, oSize o + z) 0 l.

(** the statistics after some more files *)
Definition counted (stats : Stats) (l : list object) : Stats :=
  {| NumFiles := NumFiles stats + Z.of_nat (length l); NumBytes := uint64 (NumBytes stats + sizes l) |}.

Lemma uint64_add a b : uint64 (uint64 a + b) = uint64 (a + b).
Proof. unfold uint64. by rewrite Zplus_mod_idemp_l. Qed.

Lemma list_page_spec bucket limit stats contents :
  0 ≤ NumFiles stats < limit → limit ≤ MaxUint64 → 0 ≤ NumBytes stats < two64 →
  let l := take (Z.to_nat (limit - NumFiles stats)) (with_size contents) in
  list_page bucket limit stats contents = (notify bucket <$> l, counted stats l).
Proof.
  unfold MaxUint64, two64. revert stats. induction contents as [|o contents IH]; intros stats Hn Hl Hb; cbn zeta.
  - unfold with_size. rewrite filter_nil, take_nil. unfold counted. simpl. rewrite !Z.add_0_r. unfold uint64.
    rewrite Z.mod_small by done. by destruct stats.
  - unfold with_size in *. rewrite filter_cons. cbn [list_page]. case_decide; [|by apply IH].
    destruct (Z.to_nat (limit - NumFiles stats)) as [|k] eqn:Hk; [lia|]. rewrite firstn_cons, fmap_cons.
    assert (NumFiles (count_file stats o) = NumFiles stats + 1) as Hc by (simpl; unfold uint64; apply Z.mod_small; unfold two64; lia).
    case_decide as Hd.
    + rewrite Hc in Hd. assert (k = 0)%nat as -> by lia. simpl. f_equal. unfold counted, count_file. simpl. f_equal.
      * unfold uint64. rewrite Z.mod_small; unfold two64; lia.
      * f_equal. lia.
    + rewrite IH; [|lia|lia|simpl; unfold uint64; apply Z.mod_pos_bound; by unfold two64]. rewrite Hc.
      replace (Z.to_nat (limit - (NumFiles stats + 1))) with k by lia. f_equal. unfold counted. rewrite Hc. simpl. f_equal; [lia|].
      rewrite uint64_add. f_equal. lia.
Qed.

Lemma take_split {A} (n : nat) (l1 l2 : list A) :
  (length l1 < n)%nat → take n (l1 ++ l2) = l1 ++ take (n - length l1) l2.
Proof. intros Hn. rewrite take_app. f_equal. apply take_ge. lia. Qed.

Lemma sizes_app l1 l2 : sizes (l1 ++ l2) = sizes l1 + sizes l2.
Proof. unfold sizes. induction l1 as [|o l1 IH]; simpl; lia. Qed.

Lemma counted_app stats l1 l2 : counted (counted stats l1) l2 = counted stats (l1 ++ l2).
Proof.
  unfold counted. simpl. rewrite length_app, sizes_app, uint64_add. f_equal; [lia|]. f_equal. lia.
Qed.

Lemma list_pages_spec bucket limit stats pages err :
  0 ≤ NumFiles stats < limit → limit ≤ MaxUint64 → 0 ≤ NumBytes stats < two64 →
  let all := with_size (concat pages) in
  let l := take (Z.to_nat (limit - NumFiles stats)) all in
  list_pages bucket limit stats pages err =
    (notify bucket <$> l, counted stats l,
     if decide (NumFiles stats + Z.of_nat (length all) < limit) then err else None).
Proof.
  revert stats. induction pages as [|page pages IH]; intros stats Hn Hl Hb; cbn zeta.
  - unfold with_size. simpl. rewrite filter_nil, take_nil, decide_True by (simpl; lia).
    unfold counted. simpl. rewrite !Z.add_0_r. unfold uint64. rewrite Z.mod_small by done. by destruct stats.
  - cbn [list_pages concat]. rewrite list_page_spec by done. cbn zeta.
    unfold with_size. rewrite filter_app. fold (with_size page) (with_size (concat pages)).
    set (n := Z.to_nat (limit - NumFiles stats)). rewrite length_app. case_decide as Hd.
    + cbn [counted NumFiles] in Hd. rewrite length_take in Hd.
      assert (length (with_size page) < n)%nat as Hlt by (unfold n; lia).
      assert (take n (with_size page) = with_size page) as Ht by (apply take_ge; lia). rewrite Ht.
      rewrite take_split by done.
      rewrite IH; [|simpl; unfold n in Hlt; lia|done|simpl; unfold uint64; apply Z.mod_pos_bound; by unfold two64]. cbn zeta.
      cbn [counted NumFiles]. replace (Z.to_nat (limit - (NumFiles stats + Z.of_nat (length (with_size page)))))
        with (n - length (with_size page))%nat by (unfold n; lia).
      rewrite fmap_app, <-counted_app. f_equal. apply decide_ext. lia.
    + cbn [counted NumFiles] in Hd. rewrite length_take in Hd.
      assert (n ≤ length (with_size page))%nat as Hge by (unfold n in *; lia).
      rewrite take_app_le by done. rewrite decide_False; [done|unfold n in *; lia].
Qed.

(** s3queue lists the objects of a path in order, without those that are
    empty, up to the limit (0 for none): one notification for each with its bucket
    and key, the number of files and of bytes (modulo 2^64) in the statistics, and
    the error of S3 when the limit was not reached. *)
Theorem list_path_correct url_Parse ListObjectsV2 s3path limit bucket p pages err :
  url_Parse s3path = Ok {| Scheme := "s3"; Host := bucket; Path := p |} → bucket ≠ "" → 0 ≤ limit ≤ MaxUint64 →
  ListObjectsV2 bucket (match p with EmptyString => "" | String _ p => p end) = (pages, err) →
  Z.of_nat (length (with_size (concat pages))) < MaxUint64 →
  let all := with_size (concat pages) in
  let l := if decide (limit = 0) then all else take (Z.to_nat limit) all in
  listPath url_Parse ListObjectsV2 s3path limit {| NumFiles := 0; NumBytes := 0 |} =
    (notify bucket <$> l, {| NumFiles := Z.of_nat (length l); NumBytes := uint64 (sizes l) |},
     if decide (limit = 0 ∨ Z.of_nat (length all) < limit) then err else None).
Proof.
  intros Hurl Hb Hl Hpages Hlen. cbn zeta. unfold listPath. rewrite Hurl. cbn [Scheme Host Path].
  rewrite decide_False by (by intros []). rewrite decide_False by done. rewrite Hpages.
  unfold MaxUint64, two64 in *. case_decide as H0.
  - rewrite list_pages_spec; [|simpl; lia|unfold MaxUint64, two64; lia|simpl; unfold two64; lia]. cbn zeta. cbn [NumFiles].
    rewrite take_ge by lia. rewrite !decide_True by lia. done.
  - rewrite list_pages_spec; [|simpl; lia|unfold MaxUint64, two64; lia|simpl; unfold two64; lia]. cbn zeta. cbn [NumFiles].
    rewrite Z.sub_0_r. f_equal. apply decide_ext. lia.
Qed.

Lemma list_path_correct_witness :
  listPath (λ _, Ok {| Scheme := "s3"; Host := "logs"; Path := "/a" |})
    (λ _ _, ([[{| oKey := "a/1"; oSize := 5 |}; {| oKey := "a/"; oSize := 0 |}]; [{| oKey := "a/2"; oSize := 7 |}; {| oKey := "a/3"; oSize := 1 |}]], None))
    "s3://logs/a" 2 {| NumFiles := 0; NumBytes := 0 |} =
  ([{| nBucket := "logs"; nKey := "a/1" |}; {| nBucket := "logs"; nKey := "a/2" |}], {| NumFiles := 2; NumBytes := 12 |}, None).
Proof.
  rewrite (list_path_correct _ _ "s3://logs/a" 2 "logs" "/a"
    [[{| oKey := "a/1"; oSize := 5 |}; {| oKey := "a/"; oSize := 0 |}]; [{| oKey := "a/2"; oSize := 7 |}; {| oKey := "a/3"; oSize := 1 |}]] None).
  - vm_compute. reflexivity.
  - reflexivity.
  - discriminate.
  - unfold MaxUint64, two64. lia.
  - reflexivity.
  - vm_compute. reflexivity.
Defined.

(** *** What a worker queues *)

Definition number (bodies : list string) : list (string * string) := imap (λ i body, (itoa (Z.of_nat i), body)) bodies.

Section Worker.
Context {W : Type} (SendMessageBatch : W → list (string * string) → W * option error).
Context (message_of : notification → result string).

(** batches are sent up to the first error *)
Fixpoint run_sends (w : W) (batches : list (list string)) : W * list error :=
  match batches with
  | [] => (w, [])
  | b :: batches =>
      match SendMessageBatch w (number b) with
      | (w, Some e) => (w, [ErrWrap "failed to send" e])
      | (w, None) => run_sends w batches
      end
  end.

Lemma queue_failed w entries errs ns : queue_loop SendMessageBatch message_of w true entries errs ns = (w, errs).
Proof using Type. by induction ns. Qed.

Lemma add_entry_number pre body : add_entry (number pre) body = number (pre ++ [body]).
Proof using Type.
  clear. unfold add_entry, number. rewrite imap_app, length_imap. simpl. by rewrite Nat.add_0_r.
Qed.

Lemma queue_loop_spec w pre ns bodies : (length pre < batchSize)%nat → message_of <$> ns = Ok <$> bodies →
  ∃ batches, queue_loop SendMessageBatch message_of w false (number pre) [] ns = run_sends w batches ∧
    concat batches = pre ++ bodies ∧ Forall (λ b, b ≠ [] ∧ (length b ≤ batchSize)%nat) batches.
Proof using Type.
  revert w pre bodies. induction ns as [|n ns IH]; intros w pre bodies Hpre Hb.
  - destruct bodies; [|done]. rewrite app_nil_r. destruct pre as [|b pre]; [exists []; by rewrite Forall_nil|].
    exists [b :: pre]. split_and!; [|cbn; by rewrite app_nil_r|].
    + cbn [queue_loop run_sends]. by destruct (SendMessageBatch w (number (b :: pre))) as [w' [e|]].
    + constructor; [|constructor]. split; [done|lia].
  - destruct bodies as [|body bodies]; [done|]. injection Hb as Hn Hb. cbn [queue_loop]. rewrite Hn, add_entry_number.
    replace (length (number (pre ++ [body]))) with (S (length pre))
      by (unfold number; rewrite length_imap, length_app; simpl; lia).
    unfold batchSize in *. case_decide as Hd.
    + assert (length pre = 9)%nat as Hlen.
      { destruct (decide (S (length pre) = 10)%nat); [lia|]. rewrite Nat.mod_small in Hd; lia. }
      destruct (SendMessageBatch w (number (pre ++ [body]))) as [w' err] eqn:E.
      destruct (IH w' [] bodies) as (batches&Hrun&Hc&Hf); [simpl; lia|done|].
      exists ((pre ++ [body]) :: batches). cbn [run_sends concat]. rewrite E, Hc, <-app_assoc. split_and!; [|done|].
      * destruct err as [e|]; [apply queue_failed|done].
      * constructor; [|done]. rewrite length_app. simpl. split; [by destruct pre|lia].
    + assert (S (length pre) ≠ 10)%nat as Hne by (intros E; by rewrite E in Hd).
      destruct (IH w (pre ++ [body]) bodies) as (batches&Hrun&Hc&Hf); [rewrite length_app; simpl; lia|done|].
      exists batches. by rewrite <-app_assoc in Hc.
Qed.

(** A worker sends the messages it takes from the channel in order, in batches of
    at most ten with distinct ids, up to the first batch that fails. *)
Theorem queue_notifications_correct w ns bodies : message_of <$> ns = Ok <$> bodies →
  ∃ batches, queueNotifications SendMessageBatch message_of w ns = run_sends w batches ∧
    concat batches = bodies ∧ Forall (λ b, b ≠ [] ∧ (length b ≤ batchSize)%nat) batches.
Proof using Type. apply (queue_loop_spec w []). unfold batchSize. simpl. lia. Qed.
End Worker.

(** ** Queues *)

(** the bodies of the messages of each queue; the receipt handle of a message is
    its body; [refused]: the bodies that no queue takes *)
Notation demo_world := (gmap string (list string)).
Definition bodies (w : demo_world) (url : string) : list string := default [] (w !! url).
Definition demo_url (name : string) : string := "https://sqs/" +:+ name.

Definition demo_message (body : string) : message := {| mBody := body; mReceiptHandle := body |}.
Definition demo_failed (refused : gset string) (entries : list (string * string)) : list string :=
  (filter (λ e, e.2 ∈ refused) entries).*1.

Definition demo_queues (refused : gset string) : Queues demo_world := {|
  GetQueueUrl w name := (w, Ok (demo_url name));
  ReceiveMessage w url := (w, Ok (demo_message <$> take 10 (bodies w url)));
  SendBatch w url entries :=
    (<[url := bodies w url ++ (accepted (demo_failed refused entries) entries).*2]> w, Ok (demo_failed refused entries));
  DeleteBatch w url entries := (<[url := filter (λ b, b ∉ entries.*2) (bodies w url)]> w, Ok [])
|}.

Lemma bodies_insert w url l : bodies (<[url := l]> w) url = l.
Proof. unfold bodies. by rewrite lookup_insert_eq. Qed.
Lemma bodies_insert_ne w url u l : u ≠ url → bodies (<[url := l]> w) u = bodies w u.
Proof. intros. unfold bodies. by rewrite lookup_insert_ne. Qed.

Definition demo_laws (refused : gset string) : @QueueLaws demo_world (demo_queues refused).
Proof.
  refine (@Build_QueueLaws _ (demo_queues refused) (λ w u, demo_message <$> bodies w u) demo_url _ _ _ _ _); cbn.
  - by intros w u m1 m2 (b1&->&_)%list_elem_of_fmap (b2&->&_)%list_elem_of_fmap [= ->].
  - intros w name w' r [= <- <-]. split; [done|]. by intros u [= <-].
  - intros w u w' r [= <- <-]. split; [done|]. intros messages [= <-] m (b&->&Hb)%list_elem_of_fmap.
    apply list_elem_of_fmap_2. eapply elem_of_submseteq; [exact Hb|]. apply sublist_submseteq, sublist_take.
  - intros w url entries w' r [= <- <-]. split; [intros u Hu; by rewrite bodies_insert_ne|].
    rewrite bodies_insert, <-!list_fmap_compose. unfold compose. cbn. by rewrite !list_fmap_id.
  - intros w url entries w' r [= <- <-]. split; [intros u Hu; by rewrite bodies_insert_ne|].
    rewrite bodies_insert, accepted_all.
    induction (bodies w url) as [|b l IH]; [done|]. rewrite fmap_cons, !filter_cons. simpl.
    case_decide; [rewrite fmap_cons|]; by rewrite IH.
Defined.

Definition demo_start : demo_world := {[demo_url "dlq" := ["m1"; "m2"]]}.

Lemma requeue_correct_witness :
  ∃ w err, @Requeue _ (demo_queues ∅) "dlq" "queue" 3 demo_start = Some (w, err) ∧ err = None ∧
    bodies w (demo_url "dlq") = [] ∧ bodies w (demo_url "queue") = ["m1"; "m2"] ∧
    @conserved _ _ (demo_laws ∅) "dlq" "queue" demo_start w.
Proof.
  destruct (@requeue_correct _ _ (demo_laws ∅) "dlq" "queue" ltac:(vm_compute; discriminate) 3 demo_start) as (w&err&Hr&Hc).
  - intros w url entries w' failed [= _ <-]. unfold demo_failed. induction entries as [|e l IH]; [reflexivity|].
    rewrite filter_cons, decide_False by apply not_elem_of_empty. exact IH.
  - intros w url entries w' failed [= _ <-]. reflexivity.
  - vm_compute. lia.
  - exists w, err. split; [exact Hr|]. vm_compute in Hr. injection Hr as <- <-.
    split; [reflexivity|]. split; [reflexivity|]. split; [reflexivity|exact Hc].
Defined.

Lemma requeue_loses_refused_witness :
  ∃ w, @move_batch _ (demo_queues {["m2"]}) "dlq" "queue" (demo_url "dlq") (demo_url "queue") demo_start
      [demo_message "m1"; demo_message "m2"] = (w, None) ∧
    bodies w (demo_url "dlq") = [] ∧ bodies w (demo_url "queue") = ["m1"].
Proof.
  destruct (@requeue_loses_refused _ _ (demo_laws {["m2"]}) "dlq" "queue" ltac:(vm_compute; discriminate) demo_start
    (<[demo_url "queue" := ["m1"]]> demo_start) (<[demo_url "dlq" := []]> (<[demo_url "queue" := ["m1"]]> demo_start))
    [demo_message "m1"; demo_message "m2"] ["1"] 1 (demo_message "m2")) as (Hm&_&_&_).
  - vm_compute. reflexivity.
  - vm_compute. reflexivity.
  - reflexivity.
  - vm_compute. left.
  - eexists. split; [exact Hm|]. split; vm_compute; reflexivity.
Defined.
