(* ===== verification/FirehoseDestination.v ===== *)
(** * Kinesis Firehose as a destination of events

    Model of src/internal/log_analysis/log_processor/destinations/firehose.go: the
    events are buffered per log type and sent in batches within the limits of
    Firehose.  Firehose and the JSON library are parameters; the order in which the
    last batches are sent is that of a map.  The theorems show that every event is
    sent once and in order when no call fails, and what is lost when one does. *)

From S2P Require Import Prelude Sqsbatch.

#[local] Open Scope Z_scope.
#[local] Set Default Proof Using "Type".

Definition maxRecordNumber : nat := 500.
Definition maxRequestBytes : Z := 4 * 1000 * 1000.

Definition len (data : string) : Z := Z.of_nat (String.length data).

(** a batch of records; [requestBytes] stays below the limit, so that it does not wrap *)
Record recordBatch := { records : list string; requestBytes : Z }.
Definition empty_batch : recordBatch := {| records := []; requestBytes := 0 |}.

(** addRecord: [None] when the record does not fit *)
Definition addRecord (r : recordBatch) (record : string) : option recordBatch :=
  let projectedRecordNumber := S (length (records r)) in
  let projectedRequestBytes := requestBytes r + len record in
  if decide ((maxRecordNumber < projectedRecordNumber)%nat ∨ maxRequestBytes < projectedRequestBytes) then None
  else Some {| records := records r ++ [record]; requestBytes := projectedRequestBytes |}.

Definition initialize (record : string) : recordBatch := {| records := [record]; requestBytes := len record |}.

Section Firehose.
(** PutRecordBatch: the number of records that failed, if the answer has it *)
Context {W : Type} (PutRecordBatch : W → string → list string → W * result (option Z)).
Context {E : Type} (Marshal : E → result string) (firehosePrefix : string).

Definition getStreamName (logType : string) : string :=
  firehosePrefix +:+ "_" +:+ replace_byte "." "_" (to_lower logType).

Definition sendRecords (w : W) (logType : string) (rs : list string) : W * option error :=
  match PutRecordBatch w (getStreamName logType) rs with
  | (w, Err e) => (w, Some e)
  | (w, Ok failed) => (w, if decide (0 < default 0 failed) then Some (ErrMsg "failed to send records to firehose") else None)
  end.

(** the batches of the log types, the errors of the error channel, the world *)
Record fstate := { batches : gmap string recordBatch; errs : list error; fworld : W }.

Definition with_error (s : fstate) (e : error) : fstate := {| batches := batches s; errs := errs s ++ [e]; fworld := fworld s |}.

(** one event of the channel *)
Definition handle_event (s : fstate) (event : option string * E) : outcome fstate :=
  match Marshal event.2 with
  | Err e => Ret (with_error s e)
  | Ok data =>
      logType ← deref event.1;
      let r := default empty_batch (batches s !! logType) in
      match addRecord r data with
      | Some r => Ret {| batches := <[logType := r]> (batches s); errs := errs s; fworld := fworld s |}
      | None =>
          let s := {| batches := <[logType := r]> (batches s); errs := errs s; fworld := fworld s |} in
          match sendRecords (fworld s) logType (records r) with
          | (w, Some e) => Ret (with_error {| batches := batches s; errs := errs s; fworld := w |} e)
          | (w, None) => Ret {| batches := <[logType := initialize data]> (batches s); errs := errs s; fworld := w |}
          end
      end
  end.

Fixpoint handle_events (s : fstate) (events : list (option string * E)) : outcome fstate :=
  match events with
  | [] => Ret s
  | event :: events => s ← handle_event s event; handle_events s events
  end.

(** the last batches, in the [order] of the map *)
Fixpoint send_last (s : fstate) (order : list (string * recordBatch)) : fstate :=
  match order with
  | [] => s
  | (logType, info) :: order =>
      match sendRecords (fworld s) logType (records info) with
      | (w, Some e) => send_last (with_error {| batches := batches s; errs := errs s; fworld := w |} e) order
      | (w, None) => send_last {| batches := batches s; errs := errs s; fworld := w |} order
      end
  end.

(** SendEvents, until the channel is closed *)
Definition SendEvents (order : gmap string recordBatch → list (string * recordBatch)) (w : W) (events : list (option string * E))
    : outcome fstate :=
  s ← handle_events {| batches := ∅; errs := []; fworld := w |} events;
  Ret (send_last s (order (batches s))).

(** ** Theorems *)

(** the calls Firehose has accepted, oldest first *)
Context (accepted : W → list (string * list string)).

(** the records of a stream *)
Definition stream_records (stream : string) (w : W) : list string :=
  concat (snd <$> filter (λ call, call.1 = stream) (accepted w)).

(** the data of the events of a log type *)
Definition data_of (logType : string) (events : list (option string * E)) : list string :=
  omap (λ event, if decide (event.1 = Some logType) then match Marshal event.2 with Ok d => Some d | Err _ => None end else None) events.

Definition buffered (s : fstate) (logType : string) : list string := default [] (records <$> batches s !! logType).

(** within the limits of Firehose *)
Definition total (rs : list string) : Z := foldr (λ d z, len d + z) 0 rs.
Definition batch_ok (r : recordBatch) : Prop :=
  (0 < length (records r) ≤ maxRecordNumber)%nat ∧ requestBytes r = total (records r) ∧ requestBytes r ≤ maxRequestBytes.

Definition call_ok (call : string * list string) : Prop :=
  (0 < length call.2 ≤ maxRecordNumber)%nat ∧ total call.2 ≤ maxRequestBytes.

(** Firehose takes every batch that is within its limits *)
Hypothesis put_all : ∀ w stream rs, call_ok (stream, rs) → ∃ w', PutRecordBatch w stream rs = (w', Ok (Some 0)) ∧ accepted w' = accepted w ++ [(stream, rs)].

Lemma batch_call stream r : batch_ok r → call_ok (stream, records r).
Proof using Type. intros (?&Hrb&?). split; simpl; [done|lia]. Qed.

Lemma send_all w logType r : batch_ok r → ∃ w', sendRecords w logType (records r) = (w', None) ∧
  accepted w' = accepted w ++ [(getStreamName logType, records r)].
Proof using put_all.
  intros Hr. unfold sendRecords. destruct (put_all w (getStreamName logType) (records r)) as (w'&->&Ha); [by apply batch_call|]. exists w'. by rewrite decide_False by (simpl; lia).
Qed.

Lemma total_app l1 l2 : total (l1 ++ l2) = total l1 + total l2.
Proof using Type. clear. unfold total. induction l1 as [|d l IH]; simpl; lia. Qed.

Lemma stream_records_app stream w w' calls : accepted w' = accepted w ++ calls →
  stream_records stream w' = stream_records stream w ++ concat (snd <$> filter (λ call, call.1 = stream) calls).
Proof using Type. clear. intros Ha. unfold stream_records. by rewrite Ha, filter_app, fmap_app, concat_app. Qed.

Context (types : list string).
Hypothesis streams : ∀ t1 t2, t1 ∈ types → t2 ∈ types → getStreamName t1 = getStreamName t2 → t1 = t2.

(** what was sent of a type and what is buffered are the events so far *)
Record inv (w0 : W) (done : list (option string * E)) (s : fstate) : Prop := {
  inv_errs : errs s = [];
  inv_batches : map_Forall (λ t r, t ∈ types ∧ batch_ok r) (batches s);
  inv_calls : ∃ calls, accepted (fworld s) = accepted w0 ++ calls ∧ Forall call_ok calls;
  inv_data t : t ∈ types → stream_records (getStreamName t) (fworld s) ++ buffered s t =
    stream_records (getStreamName t) w0 ++ data_of t done
}.

Definition good_event (ev : option string * E) : Prop :=
  ∃ t d, ev.1 = Some t ∧ t ∈ types ∧ Marshal ev.2 = Ok d ∧ len d ≤ maxRequestBytes.

Lemma data_of_snoc t events ev d t' : ev.1 = Some t' → Marshal ev.2 = Ok d →
  data_of t (events ++ [ev]) = data_of t events ++ (if decide (t' = t) then [d] else []).
Proof using Type.
  clear. intros Ht Hd. unfold data_of. rewrite omap_app. f_equal. simpl. rewrite Ht, Hd.
  destruct (decide (t' = t)) as [->|Hne]; [by rewrite decide_True|]. by rewrite decide_False by congruence.
Qed.

Lemma add_ok r d r' : (records r = [] ∧ requestBytes r = 0 ∨ batch_ok r) → len d ≤ maxRequestBytes → addRecord r d = Some r' →
  batch_ok r' ∧ records r' = records r ++ [d].
Proof using Type.
  clear. intros Hr Hd. unfold addRecord. case_decide as Hc; [done|]. intros [= <-]. split; [|done].
  assert (requestBytes r = total (records r)) as Hb by (destruct Hr as [[-> ->]|(_&?&_)]; done).
  unfold batch_ok. simpl. rewrite length_app, total_app, Hb in *. simpl. split_and!; lia.
Qed.

Lemma add_none r d : len d ≤ maxRequestBytes → addRecord r d = None → records r = [] → requestBytes r = 0 → False.
Proof using Type.
  clear. intros Hd Ha Hr Hb. unfold addRecord in Ha. rewrite Hr, Hb in Ha. case_decide as Hc; [|done].
  unfold maxRecordNumber in Hc. simpl in Hc. lia.
Qed.

Lemma handle_event_inv w0 done s ev : inv w0 done s → good_event ev → ∃ s', handle_event s ev = Ret s' ∧ inv w0 (done ++ [ev]) s'.
Proof using put_all streams.
  intros [He Hb (calls&Hc&Hok) Hd] (t&d&Ht&Hin&Hm&Hlen). unfold handle_event. rewrite Hm, Ht. cbn [deref mbind outcome_bind].
  set (r := default empty_batch (batches s !! t)).
  assert (records r = [] ∧ requestBytes r = 0 ∨ batch_ok r) as Hr.
  { unfold r. destruct (batches s !! t) as [r0|] eqn:E0; [right|by left]. simpl. by apply (Hb t). }
  assert (buffered s t = records r) as Hbuf by (unfold buffered, r; by destruct (batches s !! t)).
  destruct (addRecord r d) as [r'|] eqn:Ea.
  - destruct (add_ok r d r' Hr Hlen Ea) as [Hok' Hrec]. eexists. split; [done|]. split; simpl; [done| |eauto|].
    + by apply map_Forall_insert_2.
    + intros t' Ht'. rewrite (data_of_snoc _ _ _ d t) by done. rewrite (assoc_L (++)), <-Hd by done. unfold buffered at 1. simpl.
      destruct (decide (t = t')) as [<-|Hne].
      * rewrite lookup_insert_eq. simpl. by rewrite Hrec, Hbuf, (assoc_L (++)).
      * rewrite lookup_insert_ne by done. by rewrite app_nil_r.
  - destruct Hr as [[Hr0 Hb0]|Hr]; [by destruct (add_none r d)|].
    destruct (send_all (fworld s) t r Hr) as (w'&Hs&Ha). simpl. rewrite Hs. eexists. split; [done|]. split; simpl; [done| | |].
    + apply map_Forall_insert_2; [split; [done|]|by apply map_Forall_insert_2].
      unfold batch_ok, initialize, maxRecordNumber. simpl. unfold total. simpl. split_and!; lia.
    + exists (calls ++ [(getStreamName t, records r)]). split; [by rewrite Ha, Hc, <-(assoc_L (++))|].
      apply Forall_app. split; [done|]. constructor; [by apply batch_call|constructor].
    + intros t' Ht'. rewrite (stream_records_app _ _ _ _ Ha), (data_of_snoc _ _ _ d t) by done.
      rewrite (assoc_L (++) (stream_records _ w0)), <-Hd by done. unfold buffered at 1. simpl.
      destruct (decide (t = t')) as [<-|Hne].
      * rewrite filter_cons, decide_True, filter_nil by done. rewrite lookup_insert_eq. cbn. rewrite app_nil_r, Hbuf. done.
      * rewrite filter_cons, decide_False, filter_nil by (intros E1; by apply Hne, streams).
        rewrite !lookup_insert_ne by done. cbn. by rewrite !app_nil_r.
Qed.

Lemma handle_events_inv w0 done s events : inv w0 done s → Forall good_event events →
  ∃ s', handle_events s events = Ret s' ∧ inv w0 (done ++ events) s'.
Proof using put_all streams.
  intros Hi Hg. revert done s Hi. induction Hg as [|ev events Hev _ IH]; intros done s Hi; simpl.
  { exists s. by rewrite app_nil_r. }
  destruct (handle_event_inv _ _ _ _ Hi Hev) as (s1&->&Hi1). destruct (IH _ _ Hi1) as (s2&Hs2&Hi2). exists s2. split; [done|].
  by rewrite <-(assoc_L (++)) in Hi2.
Qed.

Lemma filter_key (l : list (string * recordBatch)) t : NoDup l.*1 →
  filter (λ kv, kv.1 = t) l = match (list_to_map l : gmap string recordBatch) !! t with Some r => [(t, r)] | None => [] end.
Proof using Type.
  clear. induction l as [|[k r] l IH]; simpl; [by rewrite lookup_empty|]. intros [Hk Hn]%NoDup_cons. rewrite filter_cons. simpl.
  destruct (decide (k = t)) as [<-|Hne].
  - rewrite lookup_insert_eq. rewrite IH by done. by rewrite not_elem_of_list_to_map_1.
  - rewrite lookup_insert_ne by done. by apply IH.
Qed.

Lemma send_last_spec s order : Forall (λ kv, kv.1 ∈ types ∧ batch_ok kv.2) order → errs s = [] →
  errs (send_last s order) = [] ∧
  accepted (fworld (send_last s order)) = accepted (fworld s) ++ ((λ kv, (getStreamName kv.1, records kv.2)) <$> order).
Proof using put_all.
  intros Ho. revert s. induction Ho as [|[t r] order [_ Hr] _ IH]; intros s He; simpl; [by rewrite app_nil_r|].
  destruct (send_all (fworld s) t r Hr) as (w'&->&Ha).
  destruct (IH {| batches := batches s; errs := errs s; fworld := w' |} He) as [H1 H2]. split; [done|]. rewrite H2. simpl.
  by rewrite Ha, <-(assoc_L (++)).
Qed.

(** C40: every event is sent exactly once to the stream of its log type, in the order of
    the channel and in batches within the limits of Firehose (1 to 500 records,
    at most 4 MB), when every event can be marshalled, is within the size limit,
    and Firehose takes every batch within its limits; SendEvents then reports no error. *)
Theorem firehose_sends_all order w events :
  (∀ m, order m ≡ₚ map_to_list m) → Forall good_event events →
  ∃ s calls, SendEvents order w events = Ret s ∧ errs s = [] ∧
    accepted (fworld s) = accepted w ++ calls ∧ Forall call_ok calls ∧
    ∀ t, t ∈ types → stream_records (getStreamName t) (fworld s) = stream_records (getStreamName t) w ++ data_of t events.
Proof using put_all streams.
  intros Ho Hg. unfold SendEvents.
  destruct (handle_events_inv w [] {| batches := ∅; errs := []; fworld := w |} events) as (s&->&[He Hb (calls&Hc&Hok) Hd]).
  { split; simpl; [done|apply map_Forall_empty|exists []; by rewrite app_nil_r|]. intros t _. unfold buffered. simpl.
    by rewrite lookup_empty, !app_nil_r. }
  { done. }
  cbn [mbind outcome_bind]. specialize (Ho (batches s)).
  assert (Forall (λ kv, kv.1 ∈ types ∧ batch_ok kv.2) (order (batches s))) as Hbo.
  { rewrite Ho. apply Forall_forall. intros [t r] Hin%elem_of_map_to_list. by apply (Hb t). }
  destruct (send_last_spec s (order (batches s)) Hbo He) as [He' Ha]. eexists _, _. split; [done|]. split; [done|].
  rewrite Hc, <-(assoc_L (++)) in Ha. split; [exact Ha|]. split.
  { apply Forall_app. split; [done|]. rewrite Forall_fmap. eapply Forall_impl; [exact Hbo|]. intros [t r] [_ Hr]. by apply batch_call. }
  intros t Ht. rewrite (assoc_L (++)), <-Hc in Ha. pose proof (Hd t Ht) as Hdt. rewrite app_nil_l in Hdt.
  rewrite (stream_records_app _ _ _ _ Ha), <-Hdt. f_equal.
  assert (filter (λ call, call.1 = getStreamName t) ((λ kv, (getStreamName kv.1, records kv.2)) <$> order (batches s)) =
    (λ kv, (getStreamName kv.1, records kv.2)) <$> filter (λ kv, kv.1 = t) (order (batches s))) as ->.
  { clear -Hbo Ht streams. induction Hbo as [|[k r] l [Hk _] _ IH]; [done|]. rewrite fmap_cons, !filter_cons. simpl.
    destruct (decide (k = t)) as [->|Hne].
    - rewrite decide_True by done. by rewrite IH.
    - rewrite decide_False by (intros E1; by apply Hne, streams). apply IH. }
  assert (NoDup (order (batches s)).*1) as Hn by (rewrite Ho; apply NoDup_fst_map_to_list).
  rewrite filter_key by done. rewrite (list_to_map_proper _ _ Hn Ho).
  rewrite list_to_map_to_list. unfold buffered. destruct (batches s !! t); simpl; by rewrite ?app_nil_r.
Qed.
End Firehose.

(** When Firehose refuses a full batch, the event that did not fit is in no batch
    and is never sent; the refused batch stays. *)
Theorem refused_batch_drops_event {W E} (Put : W → string → list string → W * result (option Z)) (Marshal : E → result string)
    prefix (s : fstate) t ev d r w' e :
  Marshal ev = Ok d → batches s !! t = Some r → addRecord r d = None →
  sendRecords Put prefix (fworld s) t (records r) = (w', Some e) →
  ∃ s', handle_event Put Marshal prefix s (Some t, ev) = Ret s' ∧ batches s' = batches s ∧ errs s' = errs s ++ [e].
Proof.
  intros Hm Hb Ha Hs. unfold handle_event. cbn [fst snd]. rewrite Hm. cbn [deref mbind outcome_bind]. rewrite Hb. cbn [default from_option id].
  rewrite Ha. cbn [fworld]. rewrite Hs. eexists. split; [done|]. split; [|done]. simpl. by rewrite insert_id.
Qed.

(** *** A run *)

Definition demo_put (w : list (string * list string)) (stream : string) (rs : list string)
    : list (string * list string) * result (option Z) :=
  if decide (call_ok (stream, rs)) then (w ++ [(stream, rs)], Ok (Some 0)) else (w, Err (ErrMsg "limit exceeded")).

Lemma firehose_sends_all_witness :
  ∃ s, SendEvents demo_put Ok "panther" (λ m, map_to_list m) [] [(Some "AWS.ALB", "a"); (Some "AWS.VPCFlow", "b"); (Some "AWS.ALB", "c")] = Ret s ∧
    stream_records (λ w, w) "panther_aws_alb" (fworld s) = ["a"; "c"].
Proof.
  destruct (firehose_sends_all demo_put Ok "panther" (λ w, w)) with (types := ["AWS.ALB"; "AWS.VPCFlow"]) (order := λ m : gmap string recordBatch, map_to_list m)
    (w := @nil (string * list string)) (events := [(Some "AWS.ALB", "a"); (Some "AWS.VPCFlow", "b"); (Some "AWS.ALB", "c")])
    as (s&calls&Hs&_&_&_&Hd).
  - intros w stream rs Hok. unfold demo_put. rewrite decide_True by exact Hok. eexists. split; reflexivity.
  - intros t1 t2 H1 H2. repeat (apply elem_of_cons in H1 as [->|H1]); repeat (apply elem_of_cons in H2 as [->|H2]);
      try (apply elem_of_nil in H1; contradiction); try (apply elem_of_nil in H2; contradiction);
      intros H; first [reflexivity|vm_compute in H; discriminate].
  - reflexivity.
  - repeat constructor; (eexists _, _; split; [reflexivity|]; split; [set_solver|]; split; [reflexivity|vm_compute; discriminate]).
  - exists s. split; [exact Hs|]. apply (Hd "AWS.ALB"). left.
Defined.
